(* ===== verification/_CoqProject ===== *)
-Q . S2P
Prelude.v
Text.v
Ck.v
Width.v
HandleMap.v
SlotMap.v
Connection.v
Context.v
Manager.v
Reach.v
ManagerProps.v
Teardown.v
Session.v
RateLimit.v
RateQuota.v
Health.v
Breaker.v
Identity.v
Mech.v
Grant.v
Policy.v
Handler.v
Authorize.v
AuthorizeProps.v
Shapes.v
ShapeProps.v
Registry.v
Params.v
Validate.v
Embedded.v
EmbeddedProps.v
KeyGen.v
KeyGenProps.v
KeyGenDemo.v
Lifecycle.v
LifecycleProps.v
Search.v
SearchProps.v
Attributes.v
AttributeProps.v
Objects.v
InitGate.v
MessageParams.v
Message.v
MessageExact.v
MessageProps.v
MessageSystem.v
MessageClient.v
AuthParams.v
Classic.v
Wrap.v
CallProps.v
WrapProps.v
Slots.v
SlotProps.v
LoginUser.v
Discovery.v
SessionFence.v
FenceProps.v
NativeDomain.v
NativeProps.v
AuditChain.v
AuditProps.v
AuditFiles.v
AuditDemo.v
AuditSink.v
SinkProps.v
AuditChannel.v
SinkDemo.v
