(* ===== verification/Prelude.v ===== *)
(** * pkcs11-proxy-ng: a verification development

    pkcs11-proxy-ng shares one PKCS#11 module among many remote clients.  A
    daemon ([crates/server]) loads the module and serves it over gRPC; every
    client process loads a shim that forwards the C API to the daemon.  The
    daemon gives each client a logical instance of its own (its virtual
    handles, logins and caches), decides by policy what each identity may do,
    protects the module from overload, and writes a tamper-evident audit log.
    This library models the daemon's own logic and proves what makes it safe
    to share one token.

    ** The files and the code they model

    Paths are relative to [src/crates/].

    - [Prelude]: record update, [Result], hash-map iteration order
      ([HashIter]: a [DashMap] or [HashMap] is visited in an arbitrary order),
      machine integers, shared tactics and the hint database [proxy].
    - [Text]: what the sources use of Rust's [str].
    - [Ck] ([types/src/error.rs], [session.rs], [slot.rs], [object.rs]):
      return values, identifiers, session flags, user types.
    - [Width] ([types/src/width.rs]): CK_ULONG values and lengths between
      4-byte and 8-byte clients.
    - [HandleMap] ([server/src/server/handle_map.rs]): virtual handles of one
      client, refined to the abstract [HandleTable].
    - [SlotMap] ([slot_map.rs]): stable slot identifiers.
    - [Connection] ([connection_state.rs]): groups of transport connections
      on a shared heap, their registry, tracked streams.
    - [Context] and [Manager] ([context_manager.rs]): the per-client record
      [LogicalClientInstance] and the daemon-wide [ContextManager]; one
      definition per critical section.  [Reach] lets the critical sections
      interleave ([system_step], [reachable]) and proves the invariant;
      [ManagerProps] has the contracts of single operations.
    - [Teardown] ([context_manager.rs]): departure of a client: plan, logout
      of the last holder, closing of sessions, lease eviction.
    - [Session] ([grpc_service/session_handlers/auth.rs], [service_utils.rs]):
      login and logout.
    - [RateLimit], [RateQuota] ([rate_limit.rs], [rate_quota.rs]): the
      per-peer window, the per-principal quota, the login budget.
    - [Health], [Breaker] ([service_utils.rs], [main.rs]): every backend call
      goes through the breaker; its outcomes drive the readiness gate.
    - [Identity] ([auth/identity.rs], [auth/request_identity.rs],
      [auth/mtls.rs], [config.rs]): who the caller is.
    - [Mech], [Grant], [Policy] ([auth/grant.rs], [auth/token_selector.rs],
      [auth/policy.rs], [types/src/mechanism.rs]): what an identity may do.
    - [Handler]: a monad for request handlers.  [Authorize] and
      [AuthorizeProps] ([grpc_service/authorization.rs], [service_utils.rs]):
      the gates every request passes.  [Lifecycle] and [LifecycleProps]
      ([grpc_service/general/lifecycle.rs],
      [session_handlers/lifecycle.rs], [proto/src/version.rs]): initialize,
      finalize, opening and closing sessions.
    - [Shapes], [ShapeProps] ([types/src/shape_descriptors.rs]): the native
      layouts of mechanism parameters, their fingerprints, and which
      parameters may travel as flat bytes.  [Registry]
      ([types/src/mechanism_registry.rs], [mechanism_params_default.toml]):
      which shape a mechanism has.  [Params], [Validate]
      ([types/src/mechanism.rs], [grpc_service/mechanism_input.rs]): the
      parameter structs, transport validation, the sanitizer.
    - [Embedded], [EmbeddedProps] ([grpc_service/mechanism_handles.rs],
      [key_ops/generation.rs]): object handles inside parameters.  [KeyGen],
      [KeyGenProps], [KeyGenDemo] ([key_ops/generation.rs],
      [service_utils.rs]): the key generation and derivation handlers, with
      the owner of late results and the detached settlement.
    - [Search], [SearchProps] ([object/search.rs]): the filter loops of an
      object search.  [Attributes], [AttributeProps]
      ([object/attributes.rs], [types/src/attribute.rs]): reading and writing
      attributes, with the coalescing cache.  [Objects]
      ([object/lifecycle.rs]): creation, copy and destruction of objects.
    - [InitGate] ([service_utils.rs]): the gates every operation that starts
      with a mechanism shares.  [MessageParams]
      ([proto/src/convert/message_params.rs], [message_effects.rs],
      [types/src/output.rs]): the parameters of message-based AEAD calls, their
      wire form, and the effects a module may report on them.  [Message]
      ([message_crypto/mod.rs], [session_3x.rs],
      [state_ops/operation_state.rs]): the message handlers, each a turn on the
      cell of its operation.  [MessageExact] ([parameter_output_exact.rs],
      [client/src/client/raw_output.rs], [crypto/message_crypto.rs]): the calls
      with caller-sized outputs and the client's reading of their answers.
      [MessageProps], [MessageSystem] and [MessageClient] have the theorems.
    - [AuthParams] ([proto/src/convert/authenticated.rs]): the parameters of
      authenticated wrapping and the module's report on them.  [Classic]
      ([digest_cipher/], [sign_verify/], [combined/], [state_ops/random.rs],
      [operation_state.rs], [byte_output_exact.rs]): the handlers that forward
      one call.  [Wrap] ([key_ops/wrap_preparation.rs], [wrapping.rs],
      [authenticated_wrap.rs], [kem.rs], [audit_events.rs],
      [backend/src/object_cleanup.rs]): wrapping, unwrapping and
      encapsulation.  [CallProps] and [WrapProps] have the theorems.
    - [Slots], [SlotProps] ([slot/], [session_handlers/management.rs],
      [state_ops/slot_event.rs], [async_ops.rs]): slots, tokens and PINs.
      [LoginUser] ([session_3x.rs]): [C_LoginUser].  [Discovery]
      ([general/interface_caps.rs]): what a shim learns of the backend.
    - [SessionFence], [FenceProps] ([backend/src/ffi/session_fence.rs],
      [session_ops.rs], [call_helpers.rs]): the fences that keep a native
      close apart from operations on the session.
    - [NativeDomain], [NativeProps] ([backend/src/ffi/native_domain.rs],
      [ffi.rs]): initialize and finalize of the module, and whether it may be
      unloaded.
    - [AuditChain], [AuditProps], [AuditFiles], [AuditDemo]
      ([audit/src/]): the hash-chained log and its verifier.
    - [AuditSink], [SinkProps], [SinkDemo], [AuditChannel]
      ([server/src/server/audit.rs]): the writer of the log on a disk that
      can fail and crash, recovery and rotation, and the bounded channel the
      handlers emit to.

    ** How effects are modelled

    State is passed explicitly, one definition per critical section (a lock
    scope, a [DashMap] entry access, an atomic access).  Where a claim depends
    on interleaving, the sections are the steps of a relation ([Reach],
    [Connection], [Health], [Breaker], [SessionFence], [NativeDomain]) or the handler takes, at every await,
    what the other tasks do as an argument ([Session], and the environment of
    [Handler]).  Backend calls are recorded in a trace and answered by the
    environment, which may time out, refuse or panic.  Clocks, fresh
    identifiers and map orders are arguments.  [u64] values are [N] with their
    wrap-around written out where the code can reach it.

    Every loop of the modelled code runs over a finite list or map, so the
    recursion is structural; the one bound is that of [trim] ([Text]), which
    removes a character per round and so needs at most the string's length.

    ** What the theorems show

    - Isolation: a virtual handle is never rebound ([HandleMap]), contexts
      stay consistent in every interleaving ([Reach]), a context with an
      operation in flight is never removed, the admission cap, session quota
      and in-flight quota hold exactly.
    - Shared logins: a login is reported and recorded exactly on the
      backend's verdict ([Session]); a departing client's teardown releases
      the shared login only when nobody holds it, and closes exactly the
      sessions nobody else maps ([Teardown], [LifecycleProps]).
    - Identity and policy: the identity syntax is injective, an authenticated
      transport never yields an unauthenticated caller ([Identity]); the
      token gate grants exactly what the configuration says ([Policy]); the
      gates fail closed whatever the backend and the other tasks do, and for
      a resolved object the daemon had, during the request, what the policy
      asks of it: what the contexts held and what the module answered about
      that very object and slot ([AuthorizeProps]); a context obeys only the
      identity that initialized it ([LifecycleProps]).
    - Sessions: no native session is lost by an open that times out, is
      cancelled or races with a departure; a close leaves the session as the
      backend's verdict says ([LifecycleProps], [ManagerProps]).
    - The native module: a native close never overlaps an operation on a
      session it covers, no schedule deadlocks the fences, a stale incarnation is
      refused ([FenceProps]); ordinary calls never overlap the native
      finalize, and the module is released only when no native initialize has
      run since the last finalize ([NativeProps]).  These assume fewer than
      2^64 calls, which no process can make, since the counters are 64 bits.
    - Overload: the breaker's gauges are exact in every interleaving, and
      drain ([Breaker]).
    - Audit: a log that verifies against an anchor, or up to a signed
      checkpoint, is the log that was written ([AuditProps]); what the sink
      writes without faults, under one key and a clock that does not step
      back, verifies, a restart then resumes at the tip of the chain, dropped records are accounted for ([SinkProps]), and the reserve
      of the channel is bounded ([AuditChannel]).
    - Mechanism parameters: offsets and sizes are those of the C ABI, and the
      flat bytes of a struct are accepted exactly when they cannot reach a
      pointer or a handle ([ShapeProps]); an override binds only compiled shapes and
      cannot lift an exclusion ([Registry]); validation and the sanitizer
      accept exactly what they should, at any depth, and a refusal has the
      return value of its cause ([Validate]); every object
      handle inside a mechanism that reaches the module is the caller's own
      and passed the gates ([EmbeddedProps]).
    - Key generation: what a derivation sends has passed every gate, and a key
      that the module makes is registered, or handed to the settlement that
      destroys it, however the call ends ([KeyGenProps]).
    - Objects: a search answers only objects for which the daemon had, during
      the search, the answers about that object that the caller's case needs;
      it ends, and answers empty only as stated ([SearchProps]; the fuel of
      a scan is the bound plus one, or the rounds until the module's search
      ends); reads answer the same with the attribute cache and without it, and
      secrets never enter it ([AttributeProps]); a new object is recorded or
      handed to the settlement, and a destroyed one forgotten by every context ([Objects]).

    - Message-based operations: after any sequence of requests, timeouts and
      panics no native operation has another shape than the one the daemon
      remembers, so no structured parameter is read with the layout of
      another operation ([MessageSystem]); parameters survive the
      wire, the effects accepted from the module are exactly those it may
      have ([MessageParams]), and the client reads from every answer what the
      module reported ([MessageClient]).
    - Forwarded calls: whatever a request sends to the module carries the
      caller's own session and keys, an admitted mechanism and clean buffers,
      and a key leaves the token only past the extract gate ([CallProps]);
      every answer to a generation, derivation, wrap or unwrap is recorded
      first, and a key that comes in is the caller's, or is handed over to be
      destroyed and named by no answer ([WrapProps]).
    - Slots: a client sees the slots, and reinitialises the tokens, that the
      token gate allows ([SlotProps]); [C_LoginUser] does what [C_Login] does
      but where a login has no holder ([LoginUser]); discovery answers are
      fresh, and those of a backend at the same address ([Discovery]).

    The theorems named in the findings ([login_mint_race],
    [dropped_success_strands_gate], [peer_cap_race],
    [late_metadata_served_as_current], [carrier_scan_can_miss],
    [leading_zero_out_of_order], [enriched_policy_entry_is_dead],
    [unnamed_mechanism_constants],
    [late_eviction_hits_recycled_session], [foreign_gcm_image_rides_flat],
    [nested_key_handle_unchecked], [derive_answers_backend_handle],
    [derived_keys_orphaned], [vanished_context_answers_ok],
    [sole_recheck_ends_search], [write_leaves_other_caches],
    [failed_read_is_cached], [denied_state_key_becomes_no_key],
    [unrecorded_unwrap_keeps_key], [unwrap_mints_denied_class], and, of the audit
    sink, [rotation_crash_reissues_seqs], [rotation_crash_leaves_gap],
    [torn_line_poisons_log], [restart_forgets_unsealed],
    [failed_rotation_stops_log], [overlapping_emitters_eat_reserve]) exhibit runs in which the code does not do
    what its comments say.

    ** Interfaces to code that is not modelled

    X.509 parsing ([CertReader]), SHA-256, JSON and Ed25519 ([AuditCodec]) are
    classes of operations; the laws used are in [CertReaderLaws] and
    [AuditCodecLaws], each with an instance ([demo_reader_laws], [AuditDemo]).
    File and TOML reading of the registry is the class [TomlSource]; the wire
    encoding of output parameters is an argument of the key handlers.  The
    PKCS#11 module is the environment, or a function from the arguments of a
    call to its reply.

    ** Not modelled

    The generated gRPC service that routes each request to its handler,
    metrics and tracing, start-up and shutdown of the audit sink, the
    protobuf conversions, the FFI marshalling and the shim's C ABI (unsafe
    pointer code), the gRPC client, the operator CLI, and the TOML, TLS and
    socket set-up of the daemon. *)

From stdpp Require Export base gmap sets list strings pretty.
From Stdlib Require Export ZArith Lia.

(** ** Record update

    [r <| f := v |>] replaces one field.  A record type opts in with one
    [Eta] instance listing its projections; the setter of a projection is
    computed from it by abstracting the projected field. *)

Class Eta (R : Type) := eta : R -> R.
Class Setter {R F : Type} (proj : R -> F) := set_field : (F -> F) -> R -> R.
Arguments set_field {R F} proj {_} f r /.

Ltac derive_setter :=
  lazymatch goal with
  | |- @Setter ?R ?F ?p =>
      let f := fresh "f" in
      let r := fresh "r" in
      intros f r;
      let e := eval hnf in (@eta R _ r) in
      let e := eval pattern (p r) in e in
      lazymatch e with
      | ?g _ => let b := eval cbv beta in (g (f (p r))) in exact b
      end
  end.

#[export] Hint Extern 1 (Setter _) => derive_setter : typeclass_instances.

Declare Scope proxy_scope.
Delimit Scope proxy_scope with proxy.
#[warnings="-postfix-notation-not-level-1"]
Notation "r <| p := v |>" := (set_field p (fun _ => v) r)
  (at level 12, left associativity, p constr) : proxy_scope.
#[warnings="-postfix-notation-not-level-1"]
Notation "r <| p ::= f |>" := (set_field p f r)
  (at level 12, left associativity, p constr) : proxy_scope.
Open Scope proxy_scope.

(** ** Results

    Rust's [Result]; the [?] operator is [let?]. *)

Inductive Result (T E : Type) :=
| Ok (v : T)
| Err (e : E).
Arguments Ok {T E} v.
Arguments Err {T E} e.

#[export] Instance Result_eq_dec {T E} `{EqDecision T, EqDecision E} : EqDecision (Result T E).
Proof. solve_decision. Defined.

Definition Result_is_ok {T E} (r : Result T E) : bool :=
  match r with Ok _ => true | Err _ => false end.

Notation "'let?' x := c 'in' k" :=
  (match c with Ok x => k | Err e => Err e end)
  (at level 10, x pattern, c at level 200, k at level 200) : proxy_scope.

(** ** Machine integers

    Handles, sequence numbers and [CK_ULONG] values are [N] below [2^64];
    Rust's release-mode [+=] wraps, [checked_*] fails, [saturating_*] clamps. *)

Definition u64_modulus : N := 18446744073709551616.
Definition u64_MAX : N := 18446744073709551615.
Definition u32_MAX : N := 4294967295.

Definition wrapping_add64 (a b : N) : N := ((a + b) mod u64_modulus)%N.
Definition checked_add64 (a b : N) : option N :=
  if (a + b <=? u64_MAX)%N then Some (a + b)%N else None.
Definition checked_mul64 (a b : N) : option N :=
  if (a * b <=? u64_MAX)%N then Some (a * b)%N else None.
Definition saturating_add64 (a b : N) : N := N.min (a + b) u64_MAX.
(** [saturating_sub] and [Instant::duration_since] both clamp at zero, which
    is [N.sub]. *)
Definition duration_since (now earlier : N) : N := (now - earlier)%N.

Lemma wrapping_add64_small a b :
  (a + b < u64_modulus)%N -> wrapping_add64 a b = (a + b)%N.
Proof. intros H. unfold wrapping_add64. by apply N.mod_small. Qed.

Lemma checked_add64_Some a b c :
  checked_add64 a b = Some c <-> c = (a + b)%N /\ (a + b <= u64_MAX)%N.
Proof.
  unfold checked_add64. destruct (N.leb_spec (a + b) u64_MAX) as [Hle|Hgt]; split; intros Hx; try lia; intuition (try congruence; try lia).
Qed.

Lemma checked_mul64_Some a b c :
  checked_mul64 a b = Some c <-> c = (a * b)%N /\ (a * b <= u64_MAX)%N.
Proof.
  unfold checked_mul64. destruct (N.leb_spec (a * b) u64_MAX) as [Hle|Hgt]; split; intros Hx; intuition (try congruence; try lia).
Qed.

(** ** Iteration over hash maps

    [HashMap] and [DashMap] visit every entry exactly once, in an order the
    program cannot rely on.  Code that stops at the first hit, or collects a
    list, is written against an arbitrary [hiter]; theorems about it hold for
    every order. *)

Class HashIter := {
  hiter : forall {K V : Type} `{Countable K}, gmap K V -> list (K * V);
  hiter_perm : forall {K V : Type} `{Countable K} (m : gmap K V),
    hiter m ≡ₚ map_to_list m;
}.

(** The order of [map_to_list]: the instance used by the concrete runs. *)
Definition canonical_iter : HashIter.
Proof. refine {| hiter := fun K V _ _ m => map_to_list m |}. done. Defined.

Section hash_iter.
Context `{HI : HashIter} {K V : Type} `{Countable K}.
Implicit Types m : gmap K V.

Lemma elem_of_hiter m k v : (k, v) ∈ hiter m <-> m !! k = Some v.
Proof. by rewrite hiter_perm, elem_of_map_to_list. Qed.

Lemma hiter_NoDup_keys m : NoDup (hiter m).*1.
Proof. rewrite hiter_perm. apply NoDup_fst_map_to_list. Qed.

Lemma hiter_length m : length (hiter m) = size m.
Proof. by rewrite hiter_perm, length_map_to_list. Qed.
End hash_iter.

(** [Iterator::find_map]. *)
Fixpoint find_map {A B} (f : A -> option B) (l : list A) : option B :=
  match l with
  | [] => None
  | x :: l => match f x with Some y => Some y | None => find_map f l end
  end.

Lemma find_map_Some {A B} (f : A -> option B) l y :
  find_map f l = Some y -> exists x, x ∈ l /\ f x = Some y.
Proof.
  induction l as [|a l IH]; simpl; [done|].
  destruct (f a) eqn:E.
  - intros [= ->]. exists a. split; [set_solver|done].
  - intros (x & Hx & Hf)%IH. exists x. split; [set_solver|done].
Qed.

Lemma find_map_None {A B} (f : A -> option B) l :
  find_map f l = None <-> forall x, x ∈ l -> f x = None.
Proof.
  induction l as [|a l IH]; simpl; [split; [intros _ x Hx; set_solver|done]|].
  destruct (f a) eqn:E; split.
  - done.
  - intros Hall. rewrite <- E. apply Hall. set_solver.
  - intros Hn x [->|Hx]%elem_of_cons; [done|by apply IH].
  - intros Hall. apply IH. intros x Hx. apply Hall. set_solver.
Qed.

(** [map.iter().any(..)] does not depend on the order. *)
Definition map_any {K V} `{Countable K} (p : K -> V -> bool) (m : gmap K V) : bool :=
  existsb (fun kv => p kv.1 kv.2) (map_to_list m).

Lemma map_any_true {K V} `{Countable K} (p : K -> V -> bool) (m : gmap K V) :
  map_any p m = true <-> exists k v, m !! k = Some v /\ p k v = true.
Proof.
  unfold map_any. rewrite existsb_exists. split.
  - intros ([k v] & Hin%list_elem_of_In%elem_of_map_to_list & Hp). eauto.
  - intros (k & v & Hm & Hp). exists (k, v).
    split; [by apply list_elem_of_In, elem_of_map_to_list|done].
Qed.

Lemma map_any_false {K V} `{Countable K} (p : K -> V -> bool) (m : gmap K V) :
  map_any p m = false <-> forall k v, m !! k = Some v -> p k v = false.
Proof.
  rewrite <- not_true_iff_false, map_any_true. split.
  - intros Hn k v Hm. apply not_true_iff_false. intros Hp. apply Hn. eauto.
  - intros Hall (k & v & Hm & Hp). rewrite (Hall k v Hm) in Hp. done.
Qed.

(** [HashMap::retain] on the key. *)
Definition map_drop {K V} `{Countable K} (P : K -> bool) (m : gmap K V) : gmap K V :=
  filter (fun kv => P kv.1 = false) m.

Lemma lookup_map_drop {K V} `{Countable K} (P : K -> bool) (m : gmap K V) k :
  map_drop P m !! k = if P k then None else m !! k.
Proof.
  unfold map_drop. destruct (m !! k) eqn:E; destruct (P k) eqn:Ep.
  - apply map_lookup_filter_None. right. intros ? ?. simpl. congruence.
  - by apply map_lookup_filter_Some.
  - apply map_lookup_filter_None. by left.
  - apply map_lookup_filter_None. by left.
Qed.

(** Sum of a measure over the entries of a map. *)
Definition map_sum {K V} `{Countable K} (f : K -> V -> nat) (m : gmap K V) : nat :=
  sum_list_with (fun kv => f kv.1 kv.2) (map_to_list m).

Lemma map_sum_insert {K V} `{Countable K} (f : K -> V -> nat) (m : gmap K V) k v :
  m !! k = None -> map_sum f (<[k := v]> m) = f k v + map_sum f m.
Proof.
  intros Hk. unfold map_sum.
  rewrite (sum_list_with_Permutation_proper _ _ _ (map_to_list_insert m k v Hk)). done.
Qed.

Lemma elem_of_values {K V} `{Countable K} `{Countable V} (m : gmap K V) (x : V) :
  x ∈ (list_to_set ((map_to_list m).*2) : gset V) <-> exists k, m !! k = Some x.
Proof.
  rewrite elem_of_list_to_set, list_elem_of_fmap. split.
  - intros ([k y] & -> & Hin%elem_of_map_to_list). eauto.
  - intros [k Hk]. exists (k, x). split; [done|]. by apply elem_of_map_to_list.
Qed.

(** Counting the entries that satisfy a predicate, under an update. *)
Section filter_size.
Context {K V : Type} `{Countable K} (P : K * V -> Prop) `{forall x, Decision (P x)}.
Implicit Types m : gmap K V.

Definition counts1 (o : option (K * V)) : nat :=
  match o with Some kv => if decide (P kv) then 1 else 0 | None => 0 end.

Lemma size_filter_new m k v :
  m !! k = None ->
  size (filter P (<[k := v]> m)) = counts1 (Some (k, v)) + size (filter P m).
Proof.
  intros Hk. cbn. destruct (decide (P (k, v))).
  - rewrite map_filter_insert_True by done. rewrite map_size_insert_None; [done|].
    apply map_lookup_filter_None. by left.
  - rewrite map_filter_insert_False by done. by rewrite delete_id.
Qed.

Lemma size_filter_insert m k v :
  size (filter P (<[k := v]> m)) + counts1 ((k,.) <$> m !! k) =
  size (filter P m) + counts1 (Some (k, v)).
Proof.
  destruct (m !! k) as [v0|] eqn:Ek; cbn [fmap option_fmap option_map].
  - rewrite <- (insert_delete_id m k v0 Ek) at 2. rewrite <- insert_delete_eq.
    rewrite !size_filter_new by apply lookup_delete_eq. lia.
  - rewrite size_filter_new by done. cbn. lia.
Qed.

Lemma size_filter_0 m : size (filter P m) = 0 <-> forall k v, m !! k = Some v -> ~ P (k, v).
Proof.
  split.
  - intros Hs k v Hk HP. apply map_size_empty_iff in Hs.
    assert (filter P m !! k = Some v) as Hf by (by apply map_lookup_filter_Some).
    by rewrite Hs, lookup_empty in Hf.
  - intros Hn. apply map_size_empty_iff, map_eq. intros k. rewrite lookup_empty.
    apply map_lookup_filter_None. right. intros v Hk. by apply Hn.
Qed.
End filter_size.

(** ** Automation *)

Create HintDb proxy.
#[export] Hint Resolve wrapping_add64_small : proxy.

(** Case on the first [match]/[if] scrutinee of the goal or of a hypothesis. *)
Ltac case_code :=
  match goal with
  | |- context [match ?x with _ => _ end] => destruct x eqn:?
  end.
Ltac case_code_in H :=
  match type of H with
  | context [match ?x with _ => _ end] => destruct x eqn:?
  end.

(** Lookup goals over concatenated map updates: split on key equality and
    simplify. *)
Ltac map_cases :=
  repeat (rewrite lookup_insert || rewrite lookup_delete || rewrite lookup_map_drop);
  repeat case_decide; simplify_eq; try done.

(** ** Counting *)

Definition count_if {A} (P : A -> bool) (l : list A) : N :=
  N.of_nat (length (filter (fun c => P c = true) l)).

Section count_if.
Context {A : Type}.
Implicit Types (P Q : A -> bool) (cs : list A).
Local Open Scope N_scope.


Lemma count_if_app P cs cs' : count_if P (cs ++ cs') = count_if P cs + count_if P cs'.
Proof. unfold count_if. rewrite filter_app, length_app. lia. Qed.

Lemma count_if_cons P c cs :
  count_if P (c :: cs) = (if P c then 1 else 0) + count_if P cs.
Proof. unfold count_if. rewrite filter_cons. destruct (P c); case_decide; cbn [length]; (done || lia). Qed.

Lemma count_if_update P cs i c c' :
  cs !! i = Some c ->
  count_if P (<[i := c']> cs) + (if P c then 1 else 0) = count_if P cs + (if P c' then 1 else 0).
Proof.
  intros Hi. rewrite insert_take_drop by (by eapply lookup_lt_Some).
  rewrite <- (take_drop_middle cs i c Hi) at 3.
  rewrite !count_if_app, !count_if_cons. lia.
Qed.

Lemma count_if_le P Q cs :
  (forall c, c ∈ cs -> P c = true -> Q c = true) -> count_if P cs <= count_if Q cs.
Proof.
  induction cs as [|c cs IH]; intros HPQ; [done|]. rewrite !count_if_cons.
  assert (count_if P cs <= count_if Q cs) by (apply IH; intros; apply HPQ; [by right|done]).
  destruct (P c) eqn:E; [rewrite (HPQ c (list_elem_of_here _ _) E)|]; lia.
Qed.

Lemma count_if_zero P cs : (forall c, c ∈ cs -> P c = false) -> count_if P cs = 0.
Proof.
  induction cs as [|c cs IH]; intros HP; [done|]. rewrite count_if_cons, HP by left.
  rewrite IH; [done|]. intros c' Hc'. apply HP. by right.
Qed.

Lemma count_if_pos P cs c : c ∈ cs -> P c = true -> 0 < count_if P cs.
Proof.
  intros [i Hi]%list_elem_of_lookup HP. rewrite <- (take_drop_middle cs i c Hi).
  rewrite count_if_app, count_if_cons, HP. lia.
Qed.

Lemma count_if_ext P Q cs : (forall c, c ∈ cs -> P c = Q c) -> count_if P cs = count_if Q cs.
Proof.
  induction cs as [|c cs IH]; intros HP; [done|]. rewrite !count_if_cons, HP by left.
  f_equal. apply IH. intros c' Hc'. apply HP. by right.
Qed.

Lemma count_if_length P cs : count_if P cs <= N.of_nat (length cs).
Proof. unfold count_if. pose proof (length_filter (fun c => P c = true) cs). lia. Qed.

Lemma count_if_pos_elem P cs : 0 < count_if P cs -> exists c, c ∈ cs /\ P c = true.
Proof.
  induction cs as [|c cs IH]; [done|]. rewrite count_if_cons. destruct (P c) eqn:E.
  - intros _. exists c. split; [by left|done].
  - intros (c' & Hc' & HP)%IH. exists c'. split; [by right|done].
Qed.
End count_if.
