(* ===== verification/Text.v ===== *)
(** * Strings

    What the sources use of Rust's [str], on byte strings.  Rust's strings are
    valid UTF-8; every character the program looks for is ASCII, and no byte
    of a multi-byte sequence is ASCII, so scanning bytes and scanning
    characters find the same positions. *)

From Stdlib Require Import Ascii.
From S2P Require Import Prelude.
Open Scope N_scope.

(** ** Prefixes, suffixes and comparison *)

Fixpoint strip_prefix (p s : string) : option string :=
  match p, s with
  | EmptyString, _ => Some s
  | String a p, String b s => if bool_decide (a = b) then strip_prefix p s else None
  | String _ _, EmptyString => None
  end.

Fixpoint strip_suffix (p s : string) : option string :=
  if bool_decide (s = p) then Some EmptyString
  else match s with
       | String a s => String a <$> strip_suffix p s
       | EmptyString => None
       end.

Definition is_ascii_digit (a : Ascii.ascii) : bool :=
  let n := Ascii.N_of_ascii a in (48 <=? n) && (n <=? 57).

Fixpoint all_digits (s : string) : bool :=
  match s with EmptyString => true | String a s => is_ascii_digit a && all_digits s end.

Fixpoint str_compare (a b : string) : comparison :=
  match a, b with
  | EmptyString, EmptyString => Eq
  | EmptyString, _ => Lt
  | _, EmptyString => Gt
  | String x a, String y b =>
      match Ascii.N_of_ascii x ?= Ascii.N_of_ascii y with Eq => str_compare a b | c => c end
  end.

(** ** Digits of a number *)

(** The digits of a number, none for zero. *)
Definition digits (n : N) : string := pretty_N_go n EmptyString.

Lemma str_app_assoc (a b c : string) : (a +:+ b) +:+ c = a +:+ (b +:+ c).
Proof. induction a as [|x a IH]; [done|]. exact (f_equal (String x) IH). Qed.

Lemma str_app_length (a b : string) : String.length (a +:+ b) = (String.length a + String.length b)%nat.
Proof. induction a as [|x a IH]; [done|]. exact (f_equal S IH). Qed.

Lemma pretty_N_go_app x : forall s, pretty_N_go x s = digits x +:+ s.
Proof.
  induction (N.lt_wf_0 x) as [x _ IH]. intros s. unfold digits.
  destruct (decide (0 < x)) as [Hx|Hx].
  - assert (x / 10 < x) as Hd by (apply N.div_lt; lia).
    rewrite !(pretty_N_go_step x), !(IH (x / 10) Hd) by done. by rewrite str_app_assoc.
  - assert (x = 0) as -> by lia. by rewrite !pretty_N_go_0.
Qed.

Lemma digits_step x :
  0 < x -> digits x = digits (x / 10) +:+ String (pretty_N_char (x mod 10)) EmptyString.
Proof. intros Hx. unfold digits at 1. rewrite pretty_N_go_step by done. apply pretty_N_go_app. Qed.

Lemma pretty_digits n : 0 < n -> pretty n = digits n.
Proof. intros Hn. unfold pretty, pretty_N. rewrite decide_False by lia. done. Qed.

Lemma pretty_N_char_code d : d < 10 -> Ascii.N_of_ascii (pretty_N_char d) = 48 + d.
Proof.
  intros Hd.
  assert (d = 0 \/ d = 1 \/ d = 2 \/ d = 3 \/ d = 4 \/ d = 5 \/ d = 6 \/ d = 7 \/ d = 8 \/ d = 9) as Hc by lia.
  intuition (subst; done).
Qed.

Lemma strip_prefix_app p s : strip_prefix p (p +:+ s) = Some s.
Proof.
  induction p as [|a p IH]; [done|].
  change ((if bool_decide (a = a) then strip_prefix p (p +:+ s) else None) = Some s).
  by rewrite bool_decide_true.
Qed.

Lemma strip_suffix_app p x : strip_suffix p (x +:+ p) = Some x.
Proof.
  induction x as [|a x IH].
  - change (EmptyString +:+ p) with p. unfold strip_suffix. destruct p; by rewrite bool_decide_true.
  - change ((if bool_decide (String a (x +:+ p) = p) then Some EmptyString
             else String a <$> strip_suffix p (x +:+ p)) = Some (String a x)).
    rewrite bool_decide_false.
    + by rewrite IH.
    + intros Hp. apply (f_equal String.length) in Hp. cbn in Hp. rewrite str_app_length in Hp. lia.
Qed.

Lemma digits_nonempty n : 0 < n -> (0 < String.length (digits n))%nat.
Proof. intros Hn. rewrite digits_step by done. rewrite str_app_length. cbn. lia. Qed.

Lemma digits_all x : all_digits (digits x) = true.
Proof.
  assert (forall a b, all_digits (a +:+ b) = all_digits a && all_digits b) as Happ.
  { intros a b. induction a as [|c a IH]; [done|]. change (is_ascii_digit c && all_digits (a +:+ b) =
      is_ascii_digit c && all_digits a && all_digits b). by rewrite IH, andb_assoc. }
  induction (N.lt_wf_0 x) as [x _ IH]. destruct (decide (0 < x)) as [Hx|Hx].
  - rewrite digits_step, Happ, IH by (done || (apply N.div_lt; lia)). cbn [all_digits andb]. unfold is_ascii_digit.
    pose proof (N.mod_lt x 10 ltac:(done)) as Hm. revert Hm. generalize (x mod 10) as m. intros m Hm.
    rewrite pretty_N_char_code by done.
    destruct (N.leb_spec 48 (48 + m)), (N.leb_spec (48 + m) 57); first [done|exfalso; lia].
  - assert (x = 0) as -> by lia. unfold digits. by rewrite pretty_N_go_0.
Qed.

(** Comparing by length and then byte by byte is comparing numbers. *)
Definition digit_compare (a b : string) : comparison :=
  match N.of_nat (String.length a) ?= N.of_nat (String.length b) with Eq => str_compare a b | c => c end.

Lemma str_compare_snoc a : forall b x y,
  String.length a = String.length b ->
  str_compare (a +:+ String x EmptyString) (b +:+ String y EmptyString) =
  match str_compare a b with Eq => Ascii.N_of_ascii x ?= Ascii.N_of_ascii y | c => c end.
Proof.
  induction a as [|c a IH]; intros [|c' b] x y; try done.
  - intros _. change (match Ascii.N_of_ascii x ?= Ascii.N_of_ascii y with Eq => Eq | c => c end =
      (Ascii.N_of_ascii x ?= Ascii.N_of_ascii y)). by destruct (Ascii.N_of_ascii x ?= Ascii.N_of_ascii y).
  - intros [= Hl].
    change (String c a +:+ String x EmptyString) with (String c (a +:+ String x EmptyString)).
    change (String c' b +:+ String y EmptyString) with (String c' (b +:+ String y EmptyString)).
    cbn [str_compare]. destruct (Ascii.N_of_ascii c ?= Ascii.N_of_ascii c'); [by apply IH|done|done].
Qed.

Lemma N_compare_decimal x y :
  (x ?= y) = match x / 10 ?= y / 10 with Eq => x mod 10 ?= y mod 10 | c => c end.
Proof.
  assert (forall q m q' m', x = 10 * q + m -> y = 10 * q' + m' -> m < 10 -> m' < 10 ->
    (x ?= y) = match q ?= q' with Eq => m ?= m' | c => c end) as H.
  { clear. intros q m q' m' -> -> Hm Hm'.
    destruct (N.compare_spec q q'); [destruct (N.compare_spec m m')|..];
      first [apply N.compare_eq_iff|apply N.compare_lt_iff|apply N.compare_gt_iff]; lia. }
  apply H; first [by apply N.div_mod|by apply N.mod_lt].
Qed.

Lemma digit_compare_numeric x : forall y, digit_compare (digits x) (digits y) = (x ?= y).
Proof.
  induction (N.lt_wf_0 x) as [x _ IH]. intros y.
  destruct (decide (0 < x)) as [Hx|Hx], (decide (0 < y)) as [Hy|Hy].
  - rewrite (digits_step x), (digits_step y), N_compare_decimal by done.
    rewrite <- (IH (x / 10) ltac:(apply N.div_lt; lia)). unfold digit_compare.
    rewrite !str_app_length. cbn [String.length]. rewrite !Nat2N.inj_add. cbn [N.of_nat].
    set (a := digits (x / 10)). set (b := digits (y / 10)).
    destruct (N.compare_spec (N.of_nat (String.length a)) (N.of_nat (String.length b))) as [He|Hl|Hg].
    + rewrite (proj2 (N.compare_eq_iff _ _)) by lia. rewrite str_compare_snoc by lia.
      rewrite !pretty_N_char_code by (by apply N.mod_lt). destruct (str_compare a b); [|done|done].
      generalize (x mod 10) (y mod 10). intros m m'.
      destruct (N.compare_spec m m'); first [apply N.compare_eq_iff|apply N.compare_lt_iff|apply N.compare_gt_iff]; lia.
    + rewrite (proj2 (N.compare_lt_iff _ _)) by lia. done.
    + rewrite (proj2 (N.compare_gt_iff _ _)) by lia. done.
  - assert (y = 0) as -> by lia. pose proof (digits_nonempty x Hx). unfold digit_compare, digits at 2.
    rewrite pretty_N_go_0. cbn [String.length]. change (N.of_nat 0) with 0.
    rewrite (proj2 (N.compare_gt_iff (N.of_nat (String.length (digits x))) 0)) by lia.
    symmetry. apply N.compare_gt_iff. lia.
  - assert (x = 0) as -> by lia. pose proof (digits_nonempty y Hy). unfold digit_compare, digits at 1.
    rewrite pretty_N_go_0. cbn [String.length]. change (N.of_nat 0) with 0.
    rewrite (proj2 (N.compare_lt_iff 0 (N.of_nat (String.length (digits y))))) by lia.
    symmetry. apply N.compare_lt_iff. lia.
  - assert (x = 0) as -> by lia. assert (y = 0) as -> by lia. reflexivity.
Qed.


(** ** Parsing integers

    [uN::from_str_radix] and [str::parse::<uN>]: an optional [+], then at
    least one digit, overflow is an error.  Every error is [None]. *)

(** [char::to_digit]. *)
Definition to_digit (radix : N) (a : ascii) : option N :=
  let n := N_of_ascii a in
  let d := if (48 <=? n) && (n <=? 57) then n - 48
           else if (97 <=? n) && (n <=? 122) then n - 87
           else if (65 <=? n) && (n <=? 90) then n - 55
           else 36 in
  if d <? radix then Some d else None.

Fixpoint parse_digits (radix max acc : N) (s : string) : option N :=
  match s with
  | EmptyString => Some acc
  | String a s =>
      d ← to_digit radix a;
      let acc := acc * radix + d in
      if max <? acc then None else parse_digits radix max acc s
  end.

Definition from_str_radix (radix max : N) (s : string) : option N :=
  match s with
  | EmptyString => None
  | String "+" EmptyString => None
  | String "+" s => parse_digits radix max 0 s
  | _ => parse_digits radix max 0 s
  end.

Definition parse_u32 : string -> option N := from_str_radix 10 u32_MAX.
Definition parse_u64 : string -> option N := from_str_radix 10 u64_MAX.

Lemma parse_digits_app radix max a : forall acc b,
  parse_digits radix max acc (a +:+ b) = parse_digits radix max acc a ≫= fun acc => parse_digits radix max acc b.
Proof.
  induction a as [|c a IH]; intros acc b; [done|].
  change (String c a +:+ b) with (String c (a +:+ b)). cbn [parse_digits].
  destruct (to_digit radix c) as [d|]; [|done]. cbn [mbind option_bind].
  destruct (max <? acc * radix + d); [done|apply IH].
Qed.

Lemma to_digit_decimal d : d < 10 -> to_digit 10 (pretty_N_char d) = Some d.
Proof.
  intros Hd. unfold to_digit. rewrite pretty_N_char_code by done.
  destruct (N.leb_spec 48 (48 + d)), (N.leb_spec (48 + d) 57); try lia. cbn [andb].
  replace (48 + d - 48) with d by lia. by rewrite (proj2 (N.ltb_lt d 10) Hd).
Qed.

Lemma parse_digits_digits max n : n <= max -> parse_digits 10 max 0 (digits n) = Some n.
Proof.
  revert max. induction (N.lt_wf_0 n) as [n _ IH]. intros max Hn.
  destruct (decide (0 < n)) as [Hp|Hz].
  - pose proof (N.div_mod n 10 ltac:(done)) as Hdm. pose proof (N.mod_lt n 10 ltac:(done)) as Hm.
    assert (n / 10 < n) as Hlt by (apply N.div_lt; lia).
    rewrite digits_step, parse_digits_app, IH by (done || lia). cbn [mbind option_bind parse_digits].
    rewrite to_digit_decimal by done. cbn [mbind option_bind].
    replace (n / 10 * 10 + n mod 10) with n by lia.
    by rewrite (proj2 (N.ltb_ge max n) Hn).
  - assert (n = 0) as -> by lia. unfold digits. by rewrite pretty_N_go_0.
Qed.

Lemma all_digits_no_plus s t : all_digits s = true -> s <> String "+" t.
Proof. intros H ->. done. Qed.

Lemma from_str_radix_pretty max n : n <= max -> from_str_radix 10 max (pretty n) = Some n.
Proof.
  intros Hn. destruct (decide (n = 0)) as [->|Hz].
  - change (pretty 0) with "0". cbn. by destruct max.
  - rewrite pretty_digits by lia. transitivity (parse_digits 10 max 0 (digits n)); [|by apply parse_digits_digits].
    pose proof (digits_nonempty n ltac:(lia)) as Hne. pose proof (digits_all n) as Hall.
    destruct (digits n) as [|a s]; [cbn in Hne; lia|].
    destruct (decide (a = "+"%char)) as [->|Ha]; [done|].
    unfold from_str_radix. by destruct a as [[] [] [] [] [] [] [] []].
Qed.

Lemma parse_digits_le radix max s : forall acc n,
  acc <= max -> parse_digits radix max acc s = Some n -> n <= max.
Proof.
  induction s as [|a s IH]; intros acc n Ha; cbn [parse_digits]; [by intros [= <-]|].
  destruct (to_digit radix a) as [d|]; [|done]. cbn [mbind option_bind].
  destruct (N.ltb_spec max (acc * radix + d)) as [|Hle]; [done|]. by apply IH.
Qed.

Lemma parse_u32_le s n : parse_u32 s = Some n -> n <= u32_MAX.
Proof.
  unfold parse_u32, from_str_radix. assert (0 <= u32_MAX) as H0 by done.
  destruct s as [|a s]; [done|].
  destruct a as [[] [] [] [] [] [] [] []]; try apply (parse_digits_le _ _ _ _ _ H0).
  destruct s; [done|apply (parse_digits_le _ _ _ _ _ H0)].
Qed.

(** ** Trimming

    [str::trim]: the Unicode white space, as UTF-8. *)

Definition ch (n : N) : ascii := ascii_of_N n.

Definition white_space : list string :=
  ((fun n => String (ch n) EmptyString) <$> [9; 10; 11; 12; 13; 32])
  ++ ((fun n => String (ch 194) (String (ch n) EmptyString)) <$> [133; 160])
  ++ [String (ch 225) (String (ch 154) (String (ch 128) EmptyString))]
  ++ ((fun n => String (ch 226) (String (ch 128) (String (ch n) EmptyString)))
        <$> [128; 129; 130; 131; 132; 133; 134; 135; 136; 137; 138; 168; 169; 175])
  ++ [String (ch 226) (String (ch 129) (String (ch 159) EmptyString));
      String (ch 227) (String (ch 128) (String (ch 128) EmptyString))].

Fixpoint trim_by (strip : string -> string -> option string) (fuel : nat) (s : string) : string :=
  match fuel with
  | O => s
  | S fuel =>
      match find_map (fun w => strip w s) white_space with
      | Some rest => trim_by strip fuel rest
      | None => s
      end
  end.

(** Each round removes at least one byte, so the length is enough fuel. *)
Definition trim (s : string) : string :=
  let s := trim_by strip_prefix (String.length s) s in
  trim_by strip_suffix (String.length s) s.
