(* ===== verification/Ck.v ===== *)
(** * PKCS#11 return values, session flags and user types

    Models [crates/types/src/error.rs] (the [ck_rv_table!] constants and the
    predicates on them) and the parts of [crates/types/src/session.rs] the
    daemon's session code uses. *)

From S2P Require Import Prelude.
Open Scope N_scope.

(** ** Return values *)

(** [CkRv], a transparent newtype over [u64]: any value passes through. *)
Record CkRv := MkCkRv { rv_raw : N }.

#[export] Instance CkRv_eq_dec : EqDecision CkRv.
Proof. solve_decision. Defined.

(** [CkResult<T>]. *)
Abbreviation CkResult T := (Result T CkRv).

Module Rv.
Definition OK : CkRv := MkCkRv 0.
Definition CANCEL : CkRv := MkCkRv 1.
Definition HOST_MEMORY : CkRv := MkCkRv 2.
Definition SLOT_ID_INVALID : CkRv := MkCkRv 3.
Definition GENERAL_ERROR : CkRv := MkCkRv 5.
Definition FUNCTION_FAILED : CkRv := MkCkRv 6.
Definition ARGUMENTS_BAD : CkRv := MkCkRv 7.
Definition NO_EVENT : CkRv := MkCkRv 8.
Definition NEED_TO_CREATE_THREADS : CkRv := MkCkRv 9.
Definition CANT_LOCK : CkRv := MkCkRv 10.
Definition ATTRIBUTE_READ_ONLY : CkRv := MkCkRv 16.
Definition ATTRIBUTE_SENSITIVE : CkRv := MkCkRv 17.
Definition ATTRIBUTE_TYPE_INVALID : CkRv := MkCkRv 18.
Definition ATTRIBUTE_VALUE_INVALID : CkRv := MkCkRv 19.
Definition ACTION_PROHIBITED : CkRv := MkCkRv 27.
Definition DATA_INVALID : CkRv := MkCkRv 32.
Definition DATA_LEN_RANGE : CkRv := MkCkRv 33.
Definition DEVICE_ERROR : CkRv := MkCkRv 48.
Definition DEVICE_MEMORY : CkRv := MkCkRv 49.
Definition DEVICE_REMOVED : CkRv := MkCkRv 50.
Definition ENCRYPTED_DATA_INVALID : CkRv := MkCkRv 64.
Definition ENCRYPTED_DATA_LEN_RANGE : CkRv := MkCkRv 65.
Definition AEAD_DECRYPT_FAILED : CkRv := MkCkRv 66.
Definition FUNCTION_CANCELED : CkRv := MkCkRv 80.
Definition FUNCTION_NOT_PARALLEL : CkRv := MkCkRv 81.
Definition FUNCTION_NOT_SUPPORTED : CkRv := MkCkRv 84.
Definition KEY_HANDLE_INVALID : CkRv := MkCkRv 96.
Definition KEY_SIZE_RANGE : CkRv := MkCkRv 98.
Definition KEY_TYPE_INCONSISTENT : CkRv := MkCkRv 99.
Definition KEY_NOT_NEEDED : CkRv := MkCkRv 100.
Definition KEY_CHANGED : CkRv := MkCkRv 101.
Definition KEY_NEEDED : CkRv := MkCkRv 102.
Definition KEY_INDIGESTIBLE : CkRv := MkCkRv 103.
Definition KEY_FUNCTION_NOT_PERMITTED : CkRv := MkCkRv 104.
Definition KEY_NOT_WRAPPABLE : CkRv := MkCkRv 105.
Definition KEY_UNEXTRACTABLE : CkRv := MkCkRv 106.
Definition MECHANISM_INVALID : CkRv := MkCkRv 112.
Definition MECHANISM_PARAM_INVALID : CkRv := MkCkRv 113.
Definition OBJECT_HANDLE_INVALID : CkRv := MkCkRv 130.
Definition OPERATION_ACTIVE : CkRv := MkCkRv 144.
Definition OPERATION_NOT_INITIALIZED : CkRv := MkCkRv 145.
Definition PIN_INCORRECT : CkRv := MkCkRv 160.
Definition PIN_INVALID : CkRv := MkCkRv 161.
Definition PIN_LEN_RANGE : CkRv := MkCkRv 162.
Definition PIN_EXPIRED : CkRv := MkCkRv 163.
Definition PIN_LOCKED : CkRv := MkCkRv 164.
Definition SESSION_CLOSED : CkRv := MkCkRv 176.
Definition SESSION_COUNT : CkRv := MkCkRv 177.
Definition SESSION_HANDLE_INVALID : CkRv := MkCkRv 179.
Definition SESSION_PARALLEL_NOT_SUPPORTED : CkRv := MkCkRv 180.
Definition SESSION_READ_ONLY : CkRv := MkCkRv 181.
Definition SESSION_EXISTS : CkRv := MkCkRv 182.
Definition SESSION_READ_ONLY_EXISTS : CkRv := MkCkRv 183.
Definition SESSION_READ_WRITE_SO_EXISTS : CkRv := MkCkRv 184.
Definition SIGNATURE_INVALID : CkRv := MkCkRv 192.
Definition SIGNATURE_LEN_RANGE : CkRv := MkCkRv 193.
Definition TEMPLATE_INCOMPLETE : CkRv := MkCkRv 208.
Definition TEMPLATE_INCONSISTENT : CkRv := MkCkRv 209.
Definition TOKEN_NOT_PRESENT : CkRv := MkCkRv 224.
Definition TOKEN_NOT_RECOGNIZED : CkRv := MkCkRv 225.
Definition TOKEN_WRITE_PROTECTED : CkRv := MkCkRv 226.
Definition UNWRAPPING_KEY_HANDLE_INVALID : CkRv := MkCkRv 240.
Definition UNWRAPPING_KEY_SIZE_RANGE : CkRv := MkCkRv 241.
Definition UNWRAPPING_KEY_TYPE_INCONSISTENT : CkRv := MkCkRv 242.
Definition USER_ALREADY_LOGGED_IN : CkRv := MkCkRv 256.
Definition USER_NOT_LOGGED_IN : CkRv := MkCkRv 257.
Definition USER_PIN_NOT_INITIALIZED : CkRv := MkCkRv 258.
Definition USER_TYPE_INVALID : CkRv := MkCkRv 259.
Definition USER_ANOTHER_ALREADY_LOGGED_IN : CkRv := MkCkRv 260.
Definition USER_TOO_MANY_TYPES : CkRv := MkCkRv 261.
Definition WRAPPED_KEY_INVALID : CkRv := MkCkRv 272.
Definition WRAPPED_KEY_LEN_RANGE : CkRv := MkCkRv 274.
Definition WRAPPING_KEY_HANDLE_INVALID : CkRv := MkCkRv 275.
Definition WRAPPING_KEY_SIZE_RANGE : CkRv := MkCkRv 276.
Definition WRAPPING_KEY_TYPE_INCONSISTENT : CkRv := MkCkRv 277.
Definition RANDOM_SEED_NOT_SUPPORTED : CkRv := MkCkRv 288.
Definition RANDOM_NO_RNG : CkRv := MkCkRv 289.
Definition DOMAIN_PARAMS_INVALID : CkRv := MkCkRv 304.
Definition CURVE_NOT_SUPPORTED : CkRv := MkCkRv 320.
Definition BUFFER_TOO_SMALL : CkRv := MkCkRv 336.
Definition SAVED_STATE_INVALID : CkRv := MkCkRv 352.
Definition INFORMATION_SENSITIVE : CkRv := MkCkRv 368.
Definition STATE_UNSAVEABLE : CkRv := MkCkRv 384.
Definition CRYPTOKI_NOT_INITIALIZED : CkRv := MkCkRv 400.
Definition CRYPTOKI_ALREADY_INITIALIZED : CkRv := MkCkRv 401.
Definition MUTEX_BAD : CkRv := MkCkRv 416.
Definition MUTEX_NOT_LOCKED : CkRv := MkCkRv 417.
Definition NEW_PIN_MODE : CkRv := MkCkRv 432.
Definition NEXT_OTP : CkRv := MkCkRv 433.
Definition EXCEEDED_MAX_ITERATIONS : CkRv := MkCkRv 437.
Definition FIPS_SELF_TEST_FAILED : CkRv := MkCkRv 438.
Definition LIBRARY_LOAD_FAILED : CkRv := MkCkRv 439.
Definition PIN_TOO_WEAK : CkRv := MkCkRv 440.
Definition PUBLIC_KEY_INVALID : CkRv := MkCkRv 441.
Definition FUNCTION_REJECTED : CkRv := MkCkRv 512.
Definition TOKEN_RESOURCE_EXCEEDED : CkRv := MkCkRv 513.
Definition OPERATION_CANCEL_FAILED : CkRv := MkCkRv 514.
Definition KEY_EXHAUSTED : CkRv := MkCkRv 515.
Definition PENDING : CkRv := MkCkRv 516.
Definition SESSION_ASYNC_NOT_SUPPORTED : CkRv := MkCkRv 517.
Definition SEED_RANDOM_REQUIRED : CkRv := MkCkRv 518.
Definition OPERATION_NOT_VALIDATED : CkRv := MkCkRv 519.
Definition TOKEN_NOT_INITIALIZED : CkRv := MkCkRv 520.
Definition PARAMETER_SET_NOT_SUPPORTED : CkRv := MkCkRv 521.
Definition VENDOR_DEFINED : CkRv := MkCkRv 2147483648.
End Rv.

(** The table of the [ck_rv_table!] invocation, in order. *)
Definition ck_rv_table : list CkRv :=
  [Rv.OK; Rv.CANCEL; Rv.HOST_MEMORY;
   Rv.SLOT_ID_INVALID; Rv.GENERAL_ERROR; Rv.FUNCTION_FAILED;
   Rv.ARGUMENTS_BAD; Rv.NO_EVENT; Rv.NEED_TO_CREATE_THREADS;
   Rv.CANT_LOCK; Rv.ATTRIBUTE_READ_ONLY; Rv.ATTRIBUTE_SENSITIVE;
   Rv.ATTRIBUTE_TYPE_INVALID; Rv.ATTRIBUTE_VALUE_INVALID; Rv.ACTION_PROHIBITED;
   Rv.DATA_INVALID; Rv.DATA_LEN_RANGE; Rv.DEVICE_ERROR;
   Rv.DEVICE_MEMORY; Rv.DEVICE_REMOVED; Rv.ENCRYPTED_DATA_INVALID;
   Rv.ENCRYPTED_DATA_LEN_RANGE; Rv.AEAD_DECRYPT_FAILED; Rv.FUNCTION_CANCELED;
   Rv.FUNCTION_NOT_PARALLEL; Rv.FUNCTION_NOT_SUPPORTED; Rv.KEY_HANDLE_INVALID;
   Rv.KEY_SIZE_RANGE; Rv.KEY_TYPE_INCONSISTENT; Rv.KEY_NOT_NEEDED;
   Rv.KEY_CHANGED; Rv.KEY_NEEDED; Rv.KEY_INDIGESTIBLE;
   Rv.KEY_FUNCTION_NOT_PERMITTED; Rv.KEY_NOT_WRAPPABLE; Rv.KEY_UNEXTRACTABLE;
   Rv.MECHANISM_INVALID; Rv.MECHANISM_PARAM_INVALID; Rv.OBJECT_HANDLE_INVALID;
   Rv.OPERATION_ACTIVE; Rv.OPERATION_NOT_INITIALIZED; Rv.PIN_INCORRECT;
   Rv.PIN_INVALID; Rv.PIN_LEN_RANGE; Rv.PIN_EXPIRED;
   Rv.PIN_LOCKED; Rv.SESSION_CLOSED; Rv.SESSION_COUNT;
   Rv.SESSION_HANDLE_INVALID; Rv.SESSION_PARALLEL_NOT_SUPPORTED; Rv.SESSION_READ_ONLY;
   Rv.SESSION_EXISTS; Rv.SESSION_READ_ONLY_EXISTS; Rv.SESSION_READ_WRITE_SO_EXISTS;
   Rv.SIGNATURE_INVALID; Rv.SIGNATURE_LEN_RANGE; Rv.TEMPLATE_INCOMPLETE;
   Rv.TEMPLATE_INCONSISTENT; Rv.TOKEN_NOT_PRESENT; Rv.TOKEN_NOT_RECOGNIZED;
   Rv.TOKEN_WRITE_PROTECTED; Rv.UNWRAPPING_KEY_HANDLE_INVALID; Rv.UNWRAPPING_KEY_SIZE_RANGE;
   Rv.UNWRAPPING_KEY_TYPE_INCONSISTENT; Rv.USER_ALREADY_LOGGED_IN; Rv.USER_NOT_LOGGED_IN;
   Rv.USER_PIN_NOT_INITIALIZED; Rv.USER_TYPE_INVALID; Rv.USER_ANOTHER_ALREADY_LOGGED_IN;
   Rv.USER_TOO_MANY_TYPES; Rv.WRAPPED_KEY_INVALID; Rv.WRAPPED_KEY_LEN_RANGE;
   Rv.WRAPPING_KEY_HANDLE_INVALID; Rv.WRAPPING_KEY_SIZE_RANGE; Rv.WRAPPING_KEY_TYPE_INCONSISTENT;
   Rv.RANDOM_SEED_NOT_SUPPORTED; Rv.RANDOM_NO_RNG; Rv.DOMAIN_PARAMS_INVALID;
   Rv.CURVE_NOT_SUPPORTED; Rv.BUFFER_TOO_SMALL; Rv.SAVED_STATE_INVALID;
   Rv.INFORMATION_SENSITIVE; Rv.STATE_UNSAVEABLE; Rv.CRYPTOKI_NOT_INITIALIZED;
   Rv.CRYPTOKI_ALREADY_INITIALIZED; Rv.MUTEX_BAD; Rv.MUTEX_NOT_LOCKED;
   Rv.NEW_PIN_MODE; Rv.NEXT_OTP; Rv.EXCEEDED_MAX_ITERATIONS;
   Rv.FIPS_SELF_TEST_FAILED; Rv.LIBRARY_LOAD_FAILED; Rv.PIN_TOO_WEAK;
   Rv.PUBLIC_KEY_INVALID; Rv.FUNCTION_REJECTED; Rv.TOKEN_RESOURCE_EXCEEDED;
   Rv.OPERATION_CANCEL_FAILED; Rv.KEY_EXHAUSTED; Rv.PENDING;
   Rv.SESSION_ASYNC_NOT_SUPPORTED; Rv.SEED_RANDOM_REQUIRED; Rv.OPERATION_NOT_VALIDATED;
   Rv.TOKEN_NOT_INITIALIZED; Rv.PARAMETER_SET_NOT_SUPPORTED; Rv.VENDOR_DEFINED].

Definition CkRv_from_vendor (offset : N) : CkRv :=
  MkCkRv (N.lor (rv_raw Rv.VENDOR_DEFINED) offset).
Definition CkRv_is_ok (rv : CkRv) : bool := rv_raw rv =? rv_raw Rv.OK.
Definition CkRv_is_err (rv : CkRv) : bool := negb (rv_raw rv =? rv_raw Rv.OK).
Definition CkRv_is_vendor_defined (rv : CkRv) : bool :=
  N.land (rv_raw rv) (rv_raw Rv.VENDOR_DEFINED) =? rv_raw Rv.VENDOR_DEFINED.

(** Boolean equality on return values, [==] of the source. *)
Definition rv_eqb (a b : CkRv) : bool := bool_decide (a = b).

Lemma rv_eqb_eq a b : rv_eqb a b = true <-> a = b.
Proof. apply bool_decide_eq_true. Qed.
Lemma rv_eqb_neq a b : rv_eqb a b = false <-> a <> b.
Proof. apply bool_decide_eq_false. Qed.

(** [ck_rv] of a response: [OK] or the error. *)
Definition ck_rv_of {T} (r : CkResult T) : CkRv :=
  match r with Ok _ => Rv.OK | Err e => e end.

(** ** Sessions *)

Record CkSlotId := MkSlotId { slot_raw : N }.
Record CkSessionHandle := MkSession { session_raw : N }.
Record CkObjectHandle := MkObject { object_raw : N }.

#[export] Instance CkSlotId_eq_dec : EqDecision CkSlotId.
Proof. solve_decision. Defined.
#[export] Instance CkSlotId_countable : Countable CkSlotId.
Proof. by apply (inj_countable' slot_raw MkSlotId); intros []. Defined.
#[export] Instance CkSessionHandle_eq_dec : EqDecision CkSessionHandle.
Proof. solve_decision. Defined.
#[export] Instance CkObjectHandle_eq_dec : EqDecision CkObjectHandle.
Proof. solve_decision. Defined.

Definition RW_SESSION : N := 2.
Definition SERIAL_SESSION : N := 4.
Definition CkSessionFlags_is_rw (flags : N) : bool := negb (N.land flags RW_SESSION =? 0).

Inductive CkUserType := UserSo | UserUser | UserContextSpecific.
#[export] Instance CkUserType_eq_dec : EqDecision CkUserType.
Proof. solve_decision. Defined.

Definition CkUserType_from_raw (v : N) : option CkUserType :=
  match v with
  | 0 => Some UserSo
  | 1 => Some UserUser
  | 2 => Some UserContextSpecific
  | _ => None
  end.

(** ** Lemmas *)

(** The table has no two names for one value, so a comparison against a
    constant is a comparison against one documented return value. *)
Lemma ck_rv_table_NoDup : NoDup ck_rv_table.
Proof. apply (bool_decide_unpack _). vm_compute. exact I. Qed.
