(* ===== verification/Width.v ===== *)
(** * [CK_ULONG] width translation

    Models [crates/types/src/width.rs]: the pure functions that re-encode
    [CK_ULONG] values, attribute lengths and the [CK_UNAVAILABLE_INFORMATION]
    sentinel between a 4-byte and an 8-byte edge.  Bytes are [N] below 256,
    [u64] values are [N] below [2^64], widths are [nat]. *)

From S2P Require Import Prelude.
Open Scope N_scope.

(** ** Data *)

Inductive ByteOrder := Little | Big.
Inductive WidthError := Overflow | Misaligned | UnsupportedWidth | LengthOverflow.

#[export] Instance ByteOrder_eq_dec : EqDecision ByteOrder.
Proof. solve_decision. Defined.
#[export] Instance WidthError_eq_dec : EqDecision WidthError.
Proof. solve_decision. Defined.

(** ** Machine-integer bytes of the standard library *)

Fixpoint le_bytes (n : nat) (v : N) : list N :=
  match n with
  | O => []
  | S n => v mod 256 :: le_bytes n (v / 256)
  end.

Fixpoint from_le (bs : list N) : N :=
  match bs with
  | [] => 0
  | b :: bs => b + 256 * from_le bs
  end.

Definition to_le_bytes (v : N) : list N := le_bytes 8 v.
Definition to_be_bytes (v : N) : list N := reverse (to_le_bytes v).
Definition from_be (bs : list N) : N := from_le (reverse bs).

(** [slice::chunks_exact]: whole chunks only, the remainder is dropped. *)
Fixpoint chunks (k w : nat) (l : list N) : list (list N) :=
  match k with
  | O => []
  | S k => take w l :: chunks k w (drop w l)
  end.
Definition chunks_exact (w : nat) (l : list N) : list (list N) :=
  chunks (length l / w) w l.

(** ** Operations *)

Definition is_valid_width (w : nat) : bool := (w =? 4)%nat || (w =? 8)%nat.

Definition all_ones (width : nat) : N :=
  if (8 <=? width)%nat then u64_MAX else N.shiftl 1 (8 * N.of_nat width) - 1.

(** [encode_native_ulong] panics on a width other than 4 or 8: [None]. *)
Definition encode_native_ulong (native : ByteOrder) (v : N) (width : nat)
  : option (list N) :=
  if negb (is_valid_width width) then None
  else Some (match native with
             | Little => take width (to_le_bytes v)
             | Big => drop (8 - width) (to_be_bytes v)
             end).

Definition read_uint (bytes : list N) (order : ByteOrder) : N :=
  let n := Nat.min (length bytes) 8 in
  let buf := match order with
             | Little => take n bytes ++ replicate (8 - n) 0
             | Big => replicate (8 - n) 0 ++ take n bytes
             end in
  match order with
  | Little => from_le buf
  | Big => from_be buf
  end.

Definition write_uint (v : N) (width : nat) (order : ByteOrder) : list N :=
  match order with
  | Little => take width (to_le_bytes v)
  | Big => drop (8 - width) (to_be_bytes v)
  end.

(** The [for chunk in ...] loop of [reencode_ulong], [out] accumulated. *)
Fixpoint reencode_loop (cs : list (list N)) (dst_width : nat) (order : ByteOrder)
    (out : list N) : Result (list N) WidthError :=
  match cs with
  | [] => Ok out
  | chunk :: cs =>
      let v := read_uint chunk order in
      if all_ones dst_width <? v then Err Overflow
      else reencode_loop cs dst_width order (out ++ write_uint v dst_width order)
  end.

Definition reencode_ulong (src_bytes : list N) (src_width dst_width : nat)
    (order : ByteOrder) : Result (list N) WidthError :=
  if negb (is_valid_width src_width) || negb (is_valid_width dst_width)
  then Err UnsupportedWidth
  else if negb (length src_bytes mod src_width =? 0)%nat then Err Misaligned
  else reencode_loop (chunks_exact src_width src_bytes) dst_width order [].

Definition CANONICAL_UNAVAILABLE : N := u64_MAX.

Definition canonicalize_ulong (value : N) (src_width : nat) : N :=
  if value =? all_ones src_width then CANONICAL_UNAVAILABLE else value.

Definition decanonicalize_ulong (wire : N) (dst_width : nat) : Result N WidthError :=
  if wire =? CANONICAL_UNAVAILABLE then Ok (all_ones dst_width)
  else if all_ones dst_width <? wire then Err Overflow
  else Ok wire.

Definition narrow_info_field (wire : N) (dst_width : nat) : N :=
  let ones := all_ones dst_width in
  if (wire =? CANONICAL_UNAVAILABLE) || (ones <? wire) then ones else wire.

Definition checked_narrow_to_width (wire : N) (dst_width : nat) : option N :=
  if all_ones dst_width <? wire then None else Some wire.

Definition narrow_u32_to_u8 (value : N) : Result N WidthError :=
  if value <? 256 then Ok value else Err Overflow.

Definition translate_ulong_len (src_len : N) (src_width dst_width : nat)
  : Result N WidthError :=
  if negb (is_valid_width src_width) || negb (is_valid_width dst_width)
  then Err UnsupportedWidth
  else if src_len =? CANONICAL_UNAVAILABLE then Ok (all_ones dst_width)
  else match checked_mul64 (src_len / N.of_nat src_width) (N.of_nat dst_width) with
       | Some n => Ok n
       | None => Err LengthOverflow
       end.

(** ** Reference encoding

    A ulong array of [width]-byte elements in [order]: what [reencode_ulong]
    is specified against. *)

Definition encode_array (vals : list N) (width : nat) (order : ByteOrder) : list N :=
  mjoin ((fun v => write_uint v width order) <$> vals).

Definition bytes_ok (bs : list N) : Prop := Forall (fun b => b < 256) bs.
Definition fits (width : nat) (v : N) : Prop := v <= all_ones width.

(** ** Lemmas *)

Lemma valid_width_cases w : is_valid_width w = true -> w = 4%nat \/ w = 8%nat.
Proof. unfold is_valid_width. intros H. apply orb_true_iff in H as [H|H];
  apply Nat.eqb_eq in H; auto. Qed.

Lemma all_ones_4 : all_ones 4 = 4294967295.
Proof. reflexivity. Qed.
Lemma all_ones_8 : all_ones 8 = 18446744073709551615.
Proof. reflexivity. Qed.

Lemma length_le_bytes n v : length (le_bytes n v) = n.
Proof. revert v. induction n; simpl; auto. Qed.

Lemma le_bytes_ok n v : bytes_ok (le_bytes n v).
Proof.
  revert v. induction n; intros v; simpl; constructor; [|apply IHn].
  apply N.mod_lt. done.
Qed.

Lemma take_le_bytes w n v : (w <= n)%nat -> take w (le_bytes n v) = le_bytes w v.
Proof.
  revert n v. induction w; intros [|n] v Hle; simpl; auto; [lia|].
  f_equal. apply IHw. lia.
Qed.

Lemma from_le_bytes n v : v < 256 ^ N.of_nat n -> from_le (le_bytes n v) = v.
Proof.
  revert v. induction n as [|n IH]; intros v Hv; simpl.
  - change (256 ^ N.of_nat 0) with 1 in Hv. lia.
  - rewrite IH.
    + pose proof (N.div_mod v 256). lia.
    + apply N.Div0.div_lt_upper_bound.
      rewrite Nat2N.inj_succ, N.pow_succ_r' in Hv. lia.
Qed.

Lemma le_bytes_from_le bs : bytes_ok bs -> le_bytes (length bs) (from_le bs) = bs.
Proof.
  induction 1 as [|b bs Hb Hbs IH]; simpl; [done|].
  rewrite (N.mul_comm 256), N.Div0.mod_add, N.mod_small, N.div_add, N.div_small by lia.
  by rewrite N.add_0_l, IH.
Qed.

Lemma from_le_lt bs : bytes_ok bs -> from_le bs < 256 ^ N.of_nat (length bs).
Proof.
  induction 1 as [|b bs Hb Hbs IH]; simpl length; [done|].
  rewrite Nat2N.inj_succ, N.pow_succ_r'. simpl from_le. nia.
Qed.

Lemma from_le_app_zeros bs k : from_le (bs ++ replicate k 0) = from_le bs.
Proof.
  induction bs as [|b bs IH]; simpl; [|by rewrite IH].
  induction k as [|k IHk]; simpl; [done|]. rewrite IHk. done.
Qed.

Lemma bytes_ok_reverse bs : bytes_ok bs -> bytes_ok (reverse bs).
Proof. apply Forall_reverse. Qed.

(** The order only decides whether the bytes are reversed. *)
Definition orient (order : ByteOrder) (bs : list N) : list N :=
  match order with Little => bs | Big => reverse bs end.

Lemma read_uint_orient bs order :
  (length bs <= 8)%nat -> read_uint bs order = from_le (orient order bs).
Proof.
  intros Hlen. unfold read_uint. rewrite Nat.min_l by done.
  rewrite firstn_all. destruct order; simpl.
  - apply from_le_app_zeros.
  - unfold from_be. rewrite reverse_app, reverse_replicate. apply from_le_app_zeros.
Qed.

Lemma write_uint_orient v w order :
  (w <= 8)%nat -> write_uint v w order = orient order (le_bytes w v).
Proof.
  intros Hw. unfold write_uint, to_be_bytes, to_le_bytes. destruct order; simpl orient.
  - by apply take_le_bytes.
  - rewrite <- (take_le_bytes w 8) by done.
    rewrite <- (take_drop w (le_bytes 8 v)) at 1.
    rewrite reverse_app, drop_app_length'; [done|].
    rewrite length_reverse, length_drop, length_le_bytes. done.
Qed.

Lemma orient_involutive order bs : orient order (orient order bs) = bs.
Proof. destruct order; simpl; [done|apply reverse_involutive]. Qed.

Lemma length_orient order bs : length (orient order bs) = length bs.
Proof. destruct order; simpl; [done|apply length_reverse]. Qed.

Lemma orient_ok order bs : bytes_ok bs -> bytes_ok (orient order bs).
Proof. destruct order; simpl; auto using bytes_ok_reverse. Qed.

Lemma all_ones_pow w : (w = 4 \/ w = 8)%nat -> all_ones w + 1 = 256 ^ N.of_nat w.
Proof. intros [-> | ->]; reflexivity. Qed.

Lemma length_write_uint v w order : (w <= 8)%nat -> length (write_uint v w order) = w.
Proof. intros. by rewrite write_uint_orient, length_orient, length_le_bytes. Qed.

Lemma read_write_uint v w order :
  (w = 4 \/ w = 8)%nat -> fits w v -> read_uint (write_uint v w order) order = v.
Proof.
  intros Hw Hv. assert (w <= 8)%nat by lia.
  rewrite read_uint_orient by (rewrite length_write_uint by done; done).
  rewrite write_uint_orient, orient_involutive by done.
  apply from_le_bytes. unfold fits in Hv. rewrite <- all_ones_pow by done. lia.
Qed.

Lemma write_read_uint bs order :
  (length bs = 4 \/ length bs = 8)%nat -> bytes_ok bs ->
  write_uint (read_uint bs order) (length bs) order = bs.
Proof.
  intros Hw Hbs. assert (length bs <= 8)%nat by lia.
  rewrite read_uint_orient, write_uint_orient by done.
  rewrite <- (length_orient order bs) at 1.
  rewrite le_bytes_from_le by (by apply orient_ok). apply orient_involutive.
Qed.

Lemma read_uint_fits bs order :
  (length bs = 4 \/ length bs = 8)%nat -> bytes_ok bs ->
  fits (length bs) (read_uint bs order).
Proof.
  intros Hw Hbs. unfold fits. rewrite read_uint_orient by lia.
  pose proof (from_le_lt _ (orient_ok order _ Hbs)) as Hlt.
  rewrite length_orient, <- all_ones_pow in Hlt by done. lia.
Qed.

Lemma encode_array_cons v vals w order :
  encode_array (v :: vals) w order = write_uint v w order ++ encode_array vals w order.
Proof. reflexivity. Qed.

Lemma length_encode_array vals w order :
  (w <= 8)%nat -> length (encode_array vals w order) = (length vals * w)%nat.
Proof.
  intros Hw. induction vals as [|v vals IH]; [done|].
  rewrite encode_array_cons, length_app, length_write_uint, IH by done. simpl. lia.
Qed.

Lemma chunks_encode_array vals w order :
  (w <= 8)%nat -> chunks (length vals) w (encode_array vals w order)
                  = (fun v => write_uint v w order) <$> vals.
Proof.
  intros Hw. induction vals as [|v vals IH]; [done|].
  rewrite encode_array_cons. simpl.
  rewrite take_app_length', drop_app_length' by (by rewrite length_write_uint).
  by f_equal.
Qed.

Lemma reencode_loop_spec vals src dst order out :
  (src = 4 \/ src = 8)%nat -> (dst = 4 \/ dst = 8)%nat ->
  Forall (fits src) vals ->
  reencode_loop ((fun v => write_uint v src order) <$> vals) dst order out =
    if forallb (fun v => v <=? all_ones dst) vals
    then Ok (out ++ encode_array vals dst order) else Err Overflow.
Proof.
  intros Hs Hd Hvals. revert out.
  induction Hvals as [|v vals Hv Hvals IH]; intros out; simpl.
  - unfold encode_array. simpl. by rewrite app_nil_r.
  - rewrite read_write_uint by done.
    destruct (N.ltb_spec (all_ones dst) v).
    + destruct (N.leb_spec v (all_ones dst)); [lia|done].
    + destruct (N.leb_spec v (all_ones dst)); [|lia]. simpl.
      by rewrite IH, encode_array_cons, (assoc_L (++)).
Qed.

Lemma reencode_loop_err cs dst order out e :
  reencode_loop cs dst order out = Err e -> e = Overflow.
Proof.
  revert out. induction cs as [|c cs IH]; intros out; simpl; [done|].
  destruct (_ <? _); [by intros [= <-]|apply IH].
Qed.

Lemma valid_width_true w : (w = 4 \/ w = 8)%nat -> is_valid_width w = true.
Proof. intros [-> | ->]; done. Qed.

Lemma chunks_exact_encode_array vals w order :
  (w = 4 \/ w = 8)%nat ->
  chunks_exact w (encode_array vals w order) = (fun v => write_uint v w order) <$> vals.
Proof.
  intros Hw. unfold chunks_exact. rewrite length_encode_array by lia.
  rewrite Nat.div_mul by lia. apply chunks_encode_array. lia.
Qed.

Lemma reencode_encoded vals src dst order :
  (src = 4 \/ src = 8)%nat -> (dst = 4 \/ dst = 8)%nat ->
  Forall (fits src) vals ->
  reencode_ulong (encode_array vals src order) src dst order =
    if forallb (fun v => v <=? all_ones dst) vals
    then Ok (encode_array vals dst order) else Err Overflow.
Proof.
  intros Hs Hd Hv. unfold reencode_ulong.
  rewrite !valid_width_true by done. simpl.
  rewrite length_encode_array, Nat.Div0.mod_mul by lia. simpl.
  rewrite chunks_exact_encode_array by done. by rewrite reencode_loop_spec.
Qed.

(** Every aligned byte string is the encoding of exactly its elements. *)
Lemma aligned_is_encoded bs w order :
  (w = 4 \/ w = 8)%nat -> bytes_ok bs -> (length bs mod w = 0)%nat ->
  exists vals, Forall (fits w) vals /\ bs = encode_array vals w order
               /\ length bs = (length vals * w)%nat.
Proof.
  intros Hw Hbs Hmod.
  apply Nat.Lcm0.mod_divide in Hmod as [k Hk].
  revert bs Hbs Hk. induction k as [|k IH]; intros bs Hbs Hk.
  - exists []. destruct bs; simpl in *; [done|lia].
  - destruct (IH (drop w bs)) as (vals & Hfit & Heq & Hlen).
    + by apply Forall_drop.
    + rewrite length_drop. lia.
    + assert (Ht : length (take w bs) = w) by (rewrite length_take; lia).
      assert (Hok : bytes_ok (take w bs)) by (by apply Forall_take).
      exists (read_uint (take w bs) order :: vals). repeat split.
      * constructor; [|done]. rewrite <- Ht at 1. apply read_uint_fits; [lia|done].
      * rewrite encode_array_cons, <- Heq.
        rewrite <- Ht at 2. rewrite write_read_uint by (try lia; done).
        by rewrite take_drop.
      * simpl. rewrite length_drop in Hlen. lia.
Qed.

(** The parts of a successful re-encoding. *)
Lemma reencode_Ok_inv bs src dst order out :
  bytes_ok bs -> reencode_ulong bs src dst order = Ok out ->
  (src = 4 \/ src = 8)%nat /\ (dst = 4 \/ dst = 8)%nat /\
  exists vals, Forall (fits src) vals /\ Forall (fits dst) vals /\
    bs = encode_array vals src order /\ out = encode_array vals dst order.
Proof.
  intros Hbs Hre. pose proof Hre as Hre'. unfold reencode_ulong in Hre'.
  destruct (is_valid_width src) eqn:Es; [|done].
  destruct (is_valid_width dst) eqn:Ed; [|done]. simpl in Hre'.
  destruct (Nat.eqb_spec (length bs mod src) 0) as [Hm|]; [|done]. clear Hre'.
  apply valid_width_cases in Es, Ed. repeat split; [done..|].
  destruct (aligned_is_encoded bs src order) as (vals & Hf & -> & _); [done..|].
  rewrite reencode_encoded in Hre by done.
  destruct (forallb _ vals) eqn:Ef; [|done]. injection Hre as <-.
  exists vals. repeat split; [done| |done..].
  apply Forall_forall. intros v Hv. rewrite forallb_forall in Ef.
  apply N.leb_le, Ef. by apply list_elem_of_In.
Qed.

Lemma overflow_Exists dst vals :
  forallb (fun v => v <=? all_ones dst) vals = false ->
  Exists (fun v => all_ones dst < v) vals.
Proof.
  induction vals as [|v vals IH]; simpl; [done|].
  destruct (N.leb_spec v (all_ones dst)); simpl; auto.
Qed.

Lemma reencode_other_err bs src dst order e :
  reencode_ulong bs src dst order = Err e -> e <> Overflow ->
  (e = Misaligned /\ is_valid_width src && is_valid_width dst = true /\
     (length bs mod src <> 0)%nat) \/
  (e = UnsupportedWidth /\ is_valid_width src && is_valid_width dst = false).
Proof.
  unfold reencode_ulong. intros E Hne.
  destruct (is_valid_width src), (is_valid_width dst); simpl in *; try naive_solver.
  destruct (Nat.eqb_spec (length bs mod src) 0); simpl in *; [|naive_solver].
  apply reencode_loop_err in E. done.
Qed.

(** ** Properties *)

(** [reencode_ulong] computes, on every input, exactly the re-encoding of
    the array of integers the bytes denote: an unsupported width and a
    misaligned length are refused, an array whose every element fits the
    destination width is re-encoded element by element with the same values,
    and one element that does not fit makes the whole call fail with
    [Overflow] (never a truncated value). *)
Theorem reencode_ulong_correct bs src dst order :
  bytes_ok bs ->
  match reencode_ulong bs src dst order with
  | Err UnsupportedWidth => is_valid_width src && is_valid_width dst = false
  | Err Misaligned =>
      is_valid_width src && is_valid_width dst = true /\ (length bs mod src <> 0)%nat
  | Err Overflow =>
      exists vals, bs = encode_array vals src order /\ Forall (fits src) vals /\
        Exists (fun v => all_ones dst < v) vals
  | Err LengthOverflow => False
  | Ok out =>
      exists vals, bs = encode_array vals src order /\ Forall (fits src) vals /\
        Forall (fits dst) vals /\ out = encode_array vals dst order
  end.
Proof.
  intros Hbs. destruct (reencode_ulong bs src dst order) as [out|[]] eqn:E.
  - destruct (reencode_Ok_inv _ _ _ _ _ Hbs E) as (_ & _ & vals & ? & ? & ? & ?). eauto.
  - revert E. unfold reencode_ulong.
    destruct (is_valid_width src) eqn:Es; [|done].
    destruct (is_valid_width dst) eqn:Ed; [|done]. simpl.
    destruct (Nat.eqb_spec (length bs mod src) 0) as [Hm|]; [|done]. simpl.
    apply valid_width_cases in Es, Ed.
    destruct (aligned_is_encoded bs src order Es Hbs Hm) as (vals & Hf & -> & _).
    rewrite chunks_exact_encode_array, reencode_loop_spec by done.
    destruct (forallb _ vals) eqn:Ef; [done|]. eauto using overflow_Exists.
  - apply reencode_other_err in E as [[_ [? ?]]|[? ?]]; done.
  - apply reencode_other_err in E as [[? ?]|[? ?]]; done.
  - apply reencode_other_err in E as [[? ?]|[? ?]]; done.
Qed.

(** a successful re-encoding is undone by re-encoding back (widen after
    narrow and narrow after widen are both the identity, for every element
    count and both byte orders), and the length rewrite
    [translate_ulong_len] of the attribute agrees with the length of the
    re-encoded value.  A Rust vector is shorter than [2^63] bytes. *)
Theorem reencode_roundtrip bs src dst order out :
  bytes_ok bs -> N.of_nat (length bs) < 2 ^ 63 ->
  reencode_ulong bs src dst order = Ok out ->
  reencode_ulong out dst src order = Ok bs /\
  translate_ulong_len (N.of_nat (length bs)) src dst = Ok (N.of_nat (length out)).
Proof.
  intros Hbs Hlen Hre.
  destruct (reencode_Ok_inv _ _ _ _ _ Hbs Hre) as (Hs & Hd & vals & Hfs & Hfd & -> & ->).
  rewrite reencode_encoded by done. split.
  - destruct (forallb _ vals) eqn:Ef; [done|].
    apply overflow_Exists in Ef. exfalso. revert Ef.
    rewrite Exists_exists. intros (v & Hv & Hgt).
    rewrite Forall_forall in Hfs. specialize (Hfs v Hv). unfold fits in Hfs. lia.
  - unfold translate_ulong_len. rewrite !valid_width_true by done. simpl.
    rewrite !length_encode_array in * by lia.
    destruct (N.eqb_spec (N.of_nat (length vals * src)) CANONICAL_UNAVAILABLE) as [Hc|_].
    { rewrite Hc in Hlen. vm_compute in Hlen. done. }
    rewrite Nat2N.inj_mul in *. rewrite N.div_mul by lia.
    assert (Hc : checked_mul64 (N.of_nat (length vals)) (N.of_nat dst)
                 = Some (N.of_nat (length vals) * N.of_nat dst)).
    { apply checked_mul64_Some. split; [done|]. change (2 ^ 63) with 9223372036854775808 in Hlen.
      unfold u64_MAX. destruct Hs as [-> | ->], Hd as [-> | ->]; lia. }
    by rewrite Hc, Nat2N.inj_mul.
Qed.

Lemma reencode_roundtrip_witness :
  reencode_ulong [1; 0; 0; 0; 2; 1; 0; 0] 4 8 Little
    = Ok [1; 0; 0; 0; 0; 0; 0; 0; 2; 1; 0; 0; 0; 0; 0; 0] /\
  reencode_ulong [1; 0; 0; 0; 0; 0; 0; 0; 2; 1; 0; 0; 0; 0; 0; 0] 8 4 Little
    = Ok [1; 0; 0; 0; 2; 1; 0; 0] /\
  translate_ulong_len 8 4 8 = Ok 16.
Proof.
  split; [reflexivity|].
  apply (reencode_roundtrip [1; 0; 0; 0; 2; 1; 0; 0] 4 8 Little).
  - repeat constructor.
  - reflexivity.
  - reflexivity.
Defined.

(** the sentinel path.  A [CK_ULONG] field of a [src]-wide backend,
    canonicalised on the wire and delivered to a [dst]-wide client, is the
    client's [CK_UNAVAILABLE_INFORMATION] when it was the backend's, is
    refused with [Overflow] when it does not fit, and otherwise is unchanged;
    so the client reads its own sentinel exactly when the backend reported
    its sentinel or the genuine value equals the client's all-ones.
    [narrow_info_field] is the same function with the refusal replaced by
    the sentinel, and [checked_narrow_to_width] never alters a value. *)
Theorem sentinel_translation v src dst :
  (src = 4 \/ src = 8)%nat -> (dst = 4 \/ dst = 8)%nat -> fits src v ->
  let wire := canonicalize_ulong v src in
  decanonicalize_ulong wire dst =
    (if v =? all_ones src then Ok (all_ones dst)
     else if all_ones dst <? v then Err Overflow else Ok v) /\
  narrow_info_field wire dst =
    match decanonicalize_ulong wire dst with Ok r => r | Err _ => all_ones dst end /\
  (decanonicalize_ulong wire dst = Ok (all_ones dst) <->
     v = all_ones src \/ v = all_ones dst) /\
  (forall r, checked_narrow_to_width v dst = Some r <-> r = v /\ fits dst v).
Proof.
  intros Hs Hd Hv wire. unfold fits in *.
  assert (Ho : all_ones src <= u64_MAX) by (destruct Hs as [-> | ->]; done).
  assert (Ho' : all_ones dst <= u64_MAX) by (destruct Hd as [-> | ->]; done).
  assert (Hdec : decanonicalize_ulong wire dst =
    (if v =? all_ones src then Ok (all_ones dst)
     else if all_ones dst <? v then Err Overflow else Ok v)).
  { subst wire. unfold canonicalize_ulong, decanonicalize_ulong, CANONICAL_UNAVAILABLE.
    destruct (N.eqb_spec v (all_ones src)); [by rewrite N.eqb_refl|].
    destruct (N.eqb_spec v u64_MAX); [lia|done]. }
  split; [done|]. split; [|split].
  - unfold narrow_info_field, decanonicalize_ulong.
    destruct (wire =? CANONICAL_UNAVAILABLE); simpl; [done|].
    by destruct (all_ones dst <? wire).
  - rewrite Hdec. destruct (N.eqb_spec v (all_ones src)) as [->|]; [naive_solver|].
    destruct (N.ltb_spec (all_ones dst) v); split; try naive_solver lia.
  - intros r. unfold checked_narrow_to_width.
    destruct (N.ltb_spec (all_ones dst) v); split; intros H'; try naive_solver lia.
Qed.

Lemma sentinel_translation_witness :
  decanonicalize_ulong (canonicalize_ulong 4294967295 4) 8 = Ok u64_MAX /\
  decanonicalize_ulong (canonicalize_ulong 4294967295 8) 4 = Ok (all_ones 4).
Proof.
  split.
  - exact (proj1 (sentinel_translation 4294967295 4 8 (or_introl eq_refl)
      (or_intror eq_refl) ltac:(unfold fits; vm_compute; discriminate))).
  - exact (proj1 (sentinel_translation 4294967295 8 4 (or_intror eq_refl)
      (or_introl eq_refl) ltac:(unfold fits; vm_compute; discriminate))).
Defined.

Lemma reencode_ulong_correct_witness :
  reencode_ulong [1; 0; 0; 0; 1; 0; 0; 0] 8 4 Little = Err Overflow /\
  exists vals, [1; 0; 0; 0; 1; 0; 0; 0] = encode_array vals 8 Little /\
    Forall (fits 8) vals /\ Exists (fun v => all_ones 4 < v) vals.
Proof.
  split; [reflexivity|].
  exact (reencode_ulong_correct [1; 0; 0; 0; 1; 0; 0; 0] 8 4 Little
    ltac:(repeat constructor)).
Defined.
