(* ===== verification/HandleMap.v ===== *)
(** * Virtual handles: [HandleMap]

    Models [crates/server/src/server/handle_map.rs]: the session and object
    handles of one logical client.  A handle map is specified by
    [HandleTable], a table from virtual handles to a live or suspended
    backend handle, and every operation refines it. *)

From S2P Require Import Prelude.
Open Scope N_scope.

(** ** Data *)

Record BackendHandle := BH { bh_raw : N }.
Record VirtualHandle := VH { vh_raw : N }.

#[export] Instance BackendHandle_eq_dec : EqDecision BackendHandle.
Proof. solve_decision. Defined.
#[export] Instance BackendHandle_countable : Countable BackendHandle.
Proof. by apply (inj_countable' bh_raw BH); intros []. Defined.
#[export] Instance VirtualHandle_eq_dec : EqDecision VirtualHandle.
Proof. solve_decision. Defined.
#[export] Instance VirtualHandle_countable : Countable VirtualHandle.
Proof. by apply (inj_countable' vh_raw VH); intros []. Defined.

Record HandleMap := MkHandleMap {
  next_id : N;
  virtual_to_backend : gmap VirtualHandle BackendHandle;
  backend_to_virtual : gmap BackendHandle VirtualHandle;
  suspended_virtual_to_backend : gmap VirtualHandle BackendHandle;
}.

#[export] Instance HandleMap_eta : Eta HandleMap := fun m =>
  MkHandleMap (next_id m) (virtual_to_backend m) (backend_to_virtual m)
    (suspended_virtual_to_backend m).

(** ** Operations *)

Definition HandleMap_new : HandleMap := MkHandleMap 1 ∅ ∅ ∅.

Definition HandleMap_insert (backend : BackendHandle) (m : HandleMap)
  : VirtualHandle * HandleMap :=
  match backend_to_virtual m !! backend with
  | Some existing => (existing, m)
  | None =>
      let virt := VH (next_id m) in
      (virt, m <| next_id := wrapping_add64 (next_id m) 1 |>
               <| virtual_to_backend ::= <[virt := backend]> |>
               <| backend_to_virtual ::= <[backend := virt]> |>)
  end.

Definition HandleMap_resolve (virt : VirtualHandle) (m : HandleMap)
  : option BackendHandle := virtual_to_backend m !! virt.

Definition HandleMap_resolve_backend (backend : BackendHandle) (m : HandleMap)
  : option VirtualHandle := backend_to_virtual m !! backend.

(** Drop the reverse entry only when it still names [virt]. *)
Definition unbind_reverse (virt : VirtualHandle) (backend : BackendHandle)
    (m : HandleMap) : HandleMap :=
  if bool_decide (backend_to_virtual m !! backend = Some virt)
  then m <| backend_to_virtual ::= delete backend |> else m.

Definition HandleMap_remove (virt : VirtualHandle) (m : HandleMap)
  : option BackendHandle * HandleMap :=
  match virtual_to_backend m !! virt with
  | Some backend =>
      (Some backend,
       unbind_reverse virt backend (m <| virtual_to_backend ::= delete virt |>))
  | None =>
      match suspended_virtual_to_backend m !! virt with
      | Some backend =>
          (Some backend,
           unbind_reverse virt backend
             (m <| suspended_virtual_to_backend ::= delete virt |>))
      | None => (None, m)
      end
  end.

Definition HandleMap_suspend (virt : VirtualHandle) (m : HandleMap)
  : option BackendHandle * HandleMap :=
  match virtual_to_backend m !! virt with
  | None => (None, m)
  | Some backend =>
      (Some backend,
       unbind_reverse virt backend (m <| virtual_to_backend ::= delete virt |>)
         <| suspended_virtual_to_backend ::= <[virt := backend]> |>)
  end.

Definition HandleMap_suspended_backend (virt : VirtualHandle) (m : HandleMap)
  : option BackendHandle := suspended_virtual_to_backend m !! virt.

Definition HandleMap_is_proven_gone (virt : VirtualHandle) (m : HandleMap) : bool :=
  bool_decide (HandleMap_resolve virt m = None) &&
  bool_decide (HandleMap_suspended_backend virt m = None).

Definition HandleMap_reactivate_suspended (virt : VirtualHandle)
    (expected_backend : BackendHandle) (m : HandleMap) : bool * HandleMap :=
  if negb (bool_decide (HandleMap_suspended_backend virt m = Some expected_backend))
  then (false, m)
  else if match backend_to_virtual m !! expected_backend with
          | Some bound => negb (bool_decide (bound = virt))
          | None => false
          end
  then (false, m)
  else (true, m <| suspended_virtual_to_backend ::= delete virt |>
                <| virtual_to_backend ::= <[virt := expected_backend]> |>
                <| backend_to_virtual ::= <[expected_backend := virt]> |>).

Definition HandleMap_clear (m : HandleMap) : HandleMap :=
  m <| virtual_to_backend := ∅ |> <| backend_to_virtual := ∅ |>
    <| suspended_virtual_to_backend := ∅ |>.

Definition HandleMap_virtual_handles (m : HandleMap) : gset VirtualHandle :=
  dom (virtual_to_backend m).

(** The deduplicated union of live and suspended backend handles; the source
    yields it in an unspecified order. *)
Definition HandleMap_backend_handles (m : HandleMap) : gset BackendHandle :=
  list_to_set ((map_to_list (virtual_to_backend m)).*2) ∪
  list_to_set ((map_to_list (suspended_virtual_to_backend m)).*2).

Definition HandleMap_references_backend (backend : BackendHandle) (m : HandleMap)
  : bool :=
  bool_decide (is_Some (backend_to_virtual m !! backend)) ||
  map_any (fun _ b => bool_decide (b = backend)) (suspended_virtual_to_backend m).

(** ** Invariant *)

(** Live mappings form a partial bijection, no handle is both live and
    suspended, and every handle in use was allocated before [next_id]. *)
Record HandleMap_wf (m : HandleMap) : Prop := {
  hm_next_pos : 1 <= next_id m;
  hm_bij : forall v b, virtual_to_backend m !! v = Some b <->
                       backend_to_virtual m !! b = Some v;
  hm_disj : forall v b, suspended_virtual_to_backend m !! v = Some b ->
                        virtual_to_backend m !! v = None;
  hm_live_old : forall v b, virtual_to_backend m !! v = Some b -> vh_raw v < next_id m;
  hm_susp_old : forall v b, suspended_virtual_to_backend m !! v = Some b ->
                            vh_raw v < next_id m;
}.

(** The allocator has not reached the end of [u64]. *)
Definition HandleMap_room (m : HandleMap) : Prop := next_id m < u64_MAX.

(** The backend handle a virtual handle stands for, live or suspended. *)
Definition owner (m : HandleMap) (v : VirtualHandle) : option BackendHandle :=
  match virtual_to_backend m !! v with
  | Some b => Some b
  | None => suspended_virtual_to_backend m !! v
  end.

(** ** Specification: a table of live and suspended handles *)

Inductive HandleStatus :=
| Live (b : BackendHandle)
| Suspended (b : BackendHandle).

Record HandleTable := MkHandleTable {
  ht_next : N;
  ht_entry : gmap VirtualHandle HandleStatus;
}.

Definition status_backend (s : HandleStatus) : BackendHandle :=
  match s with Live b | Suspended b => b end.

(** The operations as data, so that a history is a list of them. *)
Inductive HandleOp :=
| OpInsert (b : BackendHandle)
| OpResolve (v : VirtualHandle)
| OpResolveBackend (b : BackendHandle)
| OpRemove (v : VirtualHandle)
| OpSuspend (v : VirtualHandle)
| OpReactivate (v : VirtualHandle) (b : BackendHandle)
| OpIsProvenGone (v : VirtualHandle)
| OpReferences (b : BackendHandle)
| OpClear.

Inductive HandleOut :=
| OutVirtual (v : option VirtualHandle)
| OutBackend (b : option BackendHandle)
| OutBool (r : bool)
| OutUnit.

Definition HandleMap_run (op : HandleOp) (m : HandleMap) : HandleOut * HandleMap :=
  match op with
  | OpInsert b => let '(v, m') := HandleMap_insert b m in (OutVirtual (Some v), m')
  | OpResolve v => (OutBackend (HandleMap_resolve v m), m)
  | OpResolveBackend b => (OutVirtual (HandleMap_resolve_backend b m), m)
  | OpRemove v => let '(b, m') := HandleMap_remove v m in (OutBackend b, m')
  | OpSuspend v => let '(b, m') := HandleMap_suspend v m in (OutBackend b, m')
  | OpReactivate v b =>
      let '(r, m') := HandleMap_reactivate_suspended v b m in (OutBool r, m')
  | OpIsProvenGone v => (OutBool (HandleMap_is_proven_gone v m), m)
  | OpReferences b => (OutBool (HandleMap_references_backend b m), m)
  | OpClear => (OutUnit, HandleMap_clear m)
  end.

(** What each operation promises on the table. *)
Inductive table_step (t : HandleTable) : HandleOp -> HandleOut -> HandleTable -> Prop :=
| step_insert_known b v :
    ht_entry t !! v = Some (Live b) ->
    table_step t (OpInsert b) (OutVirtual (Some v)) t
| step_insert_fresh b :
    (forall v, ht_entry t !! v <> Some (Live b)) ->
    ht_entry t !! VH (ht_next t) = None ->
    table_step t (OpInsert b) (OutVirtual (Some (VH (ht_next t))))
      (MkHandleTable (ht_next t + 1) (<[VH (ht_next t) := Live b]> (ht_entry t)))
| step_resolve v o :
    (forall b, o = Some b <-> ht_entry t !! v = Some (Live b)) ->
    table_step t (OpResolve v) (OutBackend o) t
| step_resolve_backend b o :
    (forall v, o = Some v <-> ht_entry t !! v = Some (Live b)) ->
    table_step t (OpResolveBackend b) (OutVirtual o) t
| step_remove v :
    table_step t (OpRemove v) (OutBackend (status_backend <$> ht_entry t !! v))
      (MkHandleTable (ht_next t) (delete v (ht_entry t)))
| step_suspend v b :
    ht_entry t !! v = Some (Live b) ->
    table_step t (OpSuspend v) (OutBackend (Some b))
      (MkHandleTable (ht_next t) (<[v := Suspended b]> (ht_entry t)))
| step_suspend_refused v :
    (forall b, ht_entry t !! v <> Some (Live b)) ->
    table_step t (OpSuspend v) (OutBackend None) t
| step_reactivate v b :
    ht_entry t !! v = Some (Suspended b) ->
    (forall v', ht_entry t !! v' <> Some (Live b)) ->
    table_step t (OpReactivate v b) (OutBool true)
      (MkHandleTable (ht_next t) (<[v := Live b]> (ht_entry t)))
| step_reactivate_refused v b :
    ht_entry t !! v <> Some (Suspended b) \/
    (exists v', v' <> v /\ ht_entry t !! v' = Some (Live b)) ->
    table_step t (OpReactivate v b) (OutBool false) t
| step_is_proven_gone v :
    table_step t (OpIsProvenGone v) (OutBool (bool_decide (ht_entry t !! v = None))) t
| step_references b r :
    (r = true <-> exists v s, ht_entry t !! v = Some s /\ status_backend s = b) ->
    table_step t (OpReferences b) (OutBool r) t
| step_clear :
    table_step t OpClear OutUnit (MkHandleTable (ht_next t) ∅).

(** The table a handle map stands for. *)
Definition table_of (m : HandleMap) : HandleTable :=
  MkHandleTable (next_id m)
    ((Live <$> virtual_to_backend m) ∪ (Suspended <$> suspended_virtual_to_backend m)).

(** ** Lemmas *)

Lemma wrapping_succ n : n < u64_MAX -> wrapping_add64 n 1 = n + 1.
Proof. intros H. apply wrapping_add64_small. unfold u64_MAX, u64_modulus in *. lia. Qed.

Lemma live_not_next m v b :
  HandleMap_wf m -> virtual_to_backend m !! v = Some b -> v <> VH (next_id m).
Proof. intros Hwf Hv ->. apply (hm_live_old _ Hwf) in Hv. simpl in Hv. lia. Qed.

Lemma susp_not_next m v b :
  HandleMap_wf m -> suspended_virtual_to_backend m !! v = Some b -> v <> VH (next_id m).
Proof. intros Hwf Hv ->. apply (hm_susp_old _ Hwf) in Hv. simpl in Hv. lia. Qed.

Lemma next_is_fresh m :
  HandleMap_wf m -> virtual_to_backend m !! VH (next_id m) = None /\
                    suspended_virtual_to_backend m !! VH (next_id m) = None.
Proof.
  intros Hwf. split; apply eq_None_not_Some; intros [b Hb].
  - by eapply live_not_next.
  - by eapply susp_not_next.
Qed.

Lemma HandleMap_new_wf : HandleMap_wf HandleMap_new.
Proof. split; simpl; intros; try lia; try set_solver; rewrite !lookup_empty; done. Qed.

Lemma insert_wf b m :
  HandleMap_wf m -> HandleMap_room m -> HandleMap_wf (HandleMap_insert b m).2.
Proof.
  intros Hwf Hroom. unfold HandleMap_insert.
  destruct (backend_to_virtual m !! b) eqn:Eb; [done|]. cbn.
  destruct (next_is_fresh m Hwf) as [Hfl Hfs].
  split; cbn; rewrite ?wrapping_succ by done.
  - lia.
  - intros v b'. pose proof (hm_bij _ Hwf) as Hbij. map_cases.
    + rewrite <- Hbij, Hfl. naive_solver.
    + rewrite Hbij, Eb. naive_solver.
  - intros v b' Hs. pose proof (susp_not_next _ _ _ Hwf Hs).
    map_cases. by eapply hm_disj.
  - intros v b'. map_cases; simpl; intros Hl; [lia|].
    apply (hm_live_old _ Hwf) in Hl. lia.
  - intros v b' Hs. apply (hm_susp_old _ Hwf) in Hs. lia.
Qed.

Lemma unbind_reverse_live v b m :
  HandleMap_wf m -> virtual_to_backend m !! v = Some b ->
  unbind_reverse v b (m <| virtual_to_backend ::= delete v |>) =
  m <| virtual_to_backend ::= delete v |> <| backend_to_virtual ::= delete b |>.
Proof.
  intros Hwf Hv. unfold unbind_reverse. rewrite bool_decide_eq_true_2; [done|].
  cbn. by apply (hm_bij _ Hwf).
Qed.

Lemma unbind_reverse_susp v b m :
  HandleMap_wf m -> virtual_to_backend m !! v = None ->
  unbind_reverse v b (m <| suspended_virtual_to_backend ::= delete v |>) =
  m <| suspended_virtual_to_backend ::= delete v |>.
Proof.
  intros Hwf Hv. unfold unbind_reverse. rewrite bool_decide_eq_false_2; [done|].
  cbn. rewrite <- (hm_bij _ Hwf), Hv. done.
Qed.

(** Deleting one live pair keeps the bijection. *)
Lemma delete_bij m v b :
  HandleMap_wf m -> virtual_to_backend m !! v = Some b ->
  forall v' b', delete v (virtual_to_backend m) !! v' = Some b' <->
                delete b (backend_to_virtual m) !! b' = Some v'.
Proof.
  intros Hwf Hv v' b'. pose proof (hm_bij _ Hwf) as Hbij. map_cases.
  - rewrite <- Hbij. naive_solver.
  - rewrite Hbij. pose proof (proj1 (Hbij _ _) Hv). naive_solver.
Qed.

(** Only insertion moves the allocator. *)
Lemma next_id_remove v m : next_id (HandleMap_remove v m).2 = next_id m.
Proof. unfold HandleMap_remove, unbind_reverse. by repeat case_match. Qed.

Lemma next_id_suspend v m : next_id (HandleMap_suspend v m).2 = next_id m.
Proof. unfold HandleMap_suspend, unbind_reverse. by repeat case_match. Qed.

Lemma next_id_reactivate v b m : next_id (HandleMap_reactivate_suspended v b m).2 = next_id m.
Proof. unfold HandleMap_reactivate_suspended. by repeat case_match. Qed.

Lemma remove_wf v m : HandleMap_wf m -> HandleMap_wf (HandleMap_remove v m).2.
Proof.
  intros Hwf. unfold HandleMap_remove.
  destruct (virtual_to_backend m !! v) as [b|] eqn:Ev; cbn [snd].
  - rewrite unbind_reverse_live by done. split; cbn.
    + apply Hwf.
    + by apply delete_bij.
    + intros v' b' Hs%(hm_disj _ Hwf). by map_cases.
    + intros v' b'. map_cases. apply (hm_live_old _ Hwf).
    + apply (hm_susp_old _ Hwf).
  - destruct (suspended_virtual_to_backend m !! v) as [b|] eqn:Es; cbn [snd]; [|done].
    rewrite unbind_reverse_susp by done. split; cbn.
    + apply Hwf.
    + apply (hm_bij _ Hwf).
    + intros v' b'. map_cases. apply (hm_disj _ Hwf).
    + apply (hm_live_old _ Hwf).
    + intros v' b'. map_cases. apply (hm_susp_old _ Hwf).
Qed.

Lemma suspend_wf v m : HandleMap_wf m -> HandleMap_wf (HandleMap_suspend v m).2.
Proof.
  intros Hwf. unfold HandleMap_suspend.
  destruct (virtual_to_backend m !! v) as [b|] eqn:Ev; cbn [snd]; [|done].
  rewrite unbind_reverse_live by done. split; cbn.
  - apply Hwf.
  - by apply delete_bij.
  - intros v' b'. map_cases. apply (hm_disj _ Hwf).
  - intros v' b'. map_cases. apply (hm_live_old _ Hwf).
  - intros v' b'. map_cases; [intros _; by eapply hm_live_old|].
    apply (hm_susp_old _ Hwf).
Qed.

Lemma reactivate_cases v b m :
  HandleMap_wf m ->
  (HandleMap_reactivate_suspended v b m = (false, m) /\
     (suspended_virtual_to_backend m !! v <> Some b \/
      exists v', v' <> v /\ virtual_to_backend m !! v' = Some b)) \/
  (HandleMap_reactivate_suspended v b m =
     (true, m <| suspended_virtual_to_backend ::= delete v |>
              <| virtual_to_backend ::= <[v := b]> |>
              <| backend_to_virtual ::= <[b := v]> |>) /\
   suspended_virtual_to_backend m !! v = Some b /\
   backend_to_virtual m !! b = None).
Proof.
  intros Hwf. unfold HandleMap_reactivate_suspended, HandleMap_suspended_backend.
  destruct (decide (suspended_virtual_to_backend m !! v = Some b)) as [Hs|Hs].
  - rewrite bool_decide_eq_true_2 by done. simpl.
    destruct (backend_to_virtual m !! b) as [v'|] eqn:Eb; [|right; done].
    left. assert (v' <> v).
    { intros ->. apply (hm_bij _ Hwf) in Eb. apply (hm_disj _ Hwf) in Hs. congruence. }
    rewrite bool_decide_eq_false_2 by done. simpl.
    split; [done|]. right. exists v'. split; [done|]. by apply (hm_bij _ Hwf).
  - rewrite bool_decide_eq_false_2 by done. left. simpl. auto.
Qed.

Lemma reactivate_wf v b m :
  HandleMap_wf m -> HandleMap_wf (HandleMap_reactivate_suspended v b m).2.
Proof.
  intros Hwf. destruct (reactivate_cases v b m Hwf) as [[-> _]|(-> & Hs & Hb)]; [done|].
  pose proof (hm_disj _ Hwf _ _ Hs) as Hv. pose proof (hm_bij _ Hwf) as Hbij.
  split; cbn.
  - apply Hwf.
  - intros v' b'. map_cases.
    + rewrite <- Hbij, Hv. naive_solver.
    + rewrite Hbij, Hb. naive_solver.
  - intros v' b'. map_cases. apply (hm_disj _ Hwf).
  - intros v' b'. map_cases; [intros _; by eapply hm_susp_old|].
    apply (hm_live_old _ Hwf).
  - intros v' b'. map_cases. apply (hm_susp_old _ Hwf).
Qed.

Lemma clear_wf m : HandleMap_wf m -> HandleMap_wf (HandleMap_clear m).
Proof.
  intros Hwf. split; cbn; intros; rewrite ?lookup_empty in *; try done. apply Hwf.
Qed.

Lemma elem_of_backend_handles m b :
  HandleMap_wf m -> b ∈ HandleMap_backend_handles m <-> exists v, owner m v = Some b.
Proof.
  intros Hwf. unfold HandleMap_backend_handles, owner.
  rewrite elem_of_union, !elem_of_values. split.
  - intros [[v Hv]|[v Hv]]; exists v; [by rewrite Hv|].
    by rewrite (hm_disj _ Hwf _ _ Hv).
  - intros [v Hv]. destruct (virtual_to_backend m !! v) eqn:E; naive_solver.
Qed.

Lemma references_backend_owner m b :
  HandleMap_wf m -> HandleMap_references_backend b m = true <-> exists v, owner m v = Some b.
Proof.
  intros Hwf. unfold HandleMap_references_backend.
  rewrite orb_true_iff, bool_decide_eq_true, map_any_true, <- elem_of_backend_handles by done.
  unfold HandleMap_backend_handles. rewrite elem_of_union, !elem_of_values.
  setoid_rewrite bool_decide_eq_true. unfold is_Some.
  setoid_rewrite <- (hm_bij _ Hwf). naive_solver.
Qed.

Lemma table_of_lookup m v :
  ht_entry (table_of m) !! v =
    match virtual_to_backend m !! v with
    | Some b => Some (Live b)
    | None => Suspended <$> suspended_virtual_to_backend m !! v
    end.
Proof.
  simpl. rewrite lookup_union, !lookup_fmap.
  destruct (virtual_to_backend m !! v), (suspended_virtual_to_backend m !! v); done.
Qed.

Lemma table_of_live m v b :
  ht_entry (table_of m) !! v = Some (Live b) <-> virtual_to_backend m !! v = Some b.
Proof.
  rewrite table_of_lookup. destruct (virtual_to_backend m !! v); [naive_solver|].
  destruct (suspended_virtual_to_backend m !! v); naive_solver.
Qed.

Lemma table_of_susp m v b :
  HandleMap_wf m ->
  ht_entry (table_of m) !! v = Some (Suspended b) <->
  suspended_virtual_to_backend m !! v = Some b.
Proof.
  intros Hwf. rewrite table_of_lookup.
  destruct (virtual_to_backend m !! v) eqn:E.
  - split; [done|]. intros Hs%(hm_disj _ Hwf). congruence.
  - destruct (suspended_virtual_to_backend m !! v); naive_solver.
Qed.

(** Equality of tables is equality of lookups. *)
Lemma table_ext m n (e : gmap VirtualHandle HandleStatus) :
  next_id m = n -> (forall v, ht_entry (table_of m) !! v = e !! v) ->
  table_of m = MkHandleTable n e.
Proof. intros <- He. unfold table_of. f_equal. by apply map_eq. Qed.

Ltac table_simpl :=
  let v := fresh "v" in
  apply table_ext; [done|]; intros v;
  rewrite ?lookup_insert, ?lookup_delete, !table_of_lookup; cbn;
  rewrite ?lookup_insert, ?lookup_delete, ?lookup_empty;
  repeat case_decide; simplify_eq; try done.

Lemma table_remove m v :
  HandleMap_wf m ->
  table_of (HandleMap_remove v m).2 =
    MkHandleTable (next_id m) (delete v (ht_entry (table_of m))) /\
  (HandleMap_remove v m).1 = status_backend <$> ht_entry (table_of m) !! v.
Proof.
  intros Hwf. rewrite table_of_lookup. unfold HandleMap_remove.
  destruct (virtual_to_backend m !! v) as [b|] eqn:Ev; cbn [fst snd].
  - rewrite unbind_reverse_live by done. split; [|done]. table_simpl.
    destruct (suspended_virtual_to_backend m !! v0) eqn:Es; [|done].
    apply (hm_disj _ Hwf) in Es. congruence.
  - destruct (suspended_virtual_to_backend m !! v) as [b|] eqn:Es; cbn [fst snd].
    + rewrite unbind_reverse_susp by done. split; [|done]. table_simpl. by rewrite Ev.
    + split; [|done]. table_simpl. by rewrite Ev, Es.
Qed.

Lemma table_suspend m v b :
  HandleMap_wf m -> virtual_to_backend m !! v = Some b ->
  HandleMap_suspend v m =
    (Some b, m <| virtual_to_backend ::= delete v |> <| backend_to_virtual ::= delete b |>
               <| suspended_virtual_to_backend ::= <[v := b]> |>) /\
  table_of (HandleMap_suspend v m).2 =
    MkHandleTable (next_id m) (<[v := Suspended b]> (ht_entry (table_of m))).
Proof.
  intros Hwf Hv. unfold HandleMap_suspend. rewrite Hv, unbind_reverse_live by done.
  split; [done|]. cbn [snd]. table_simpl.
Qed.

Lemma table_reactivate m v b :
  suspended_virtual_to_backend m !! v = Some b ->
  table_of (m <| suspended_virtual_to_backend ::= delete v |>
              <| virtual_to_backend ::= <[v := b]> |>
              <| backend_to_virtual ::= <[b := v]> |>) =
    MkHandleTable (next_id m) (<[v := Live b]> (ht_entry (table_of m))).
Proof. intros Hs. table_simpl. Qed.

Lemma table_insert m b :
  HandleMap_wf m -> HandleMap_room m -> backend_to_virtual m !! b = None ->
  table_of (HandleMap_insert b m).2 =
    MkHandleTable (next_id m + 1) (<[VH (next_id m) := Live b]> (ht_entry (table_of m))).
Proof.
  intros Hwf Hroom Hb. unfold HandleMap_insert. rewrite Hb. cbn [snd].
  apply table_ext; [by apply wrapping_succ|]. intros v.
  rewrite lookup_insert, !table_of_lookup. cbn. rewrite lookup_insert.
  repeat case_decide; done.
Qed.

Lemma run_next_id op m :
  HandleMap_wf m -> HandleMap_room m ->
  next_id m <= next_id (HandleMap_run op m).2 <= next_id m + 1.
Proof.
  intros Hwf Hroom. destruct op; cbn; try lia.
  - unfold HandleMap_insert. destruct (backend_to_virtual m !! b); cbn;
      rewrite ?wrapping_succ by done; lia.
  - pose proof (table_remove m v Hwf) as [Ht _].
    apply (f_equal ht_next) in Ht. destruct (HandleMap_remove v m); cbn in *. lia.
  - unfold HandleMap_suspend, unbind_reverse.
    destruct (virtual_to_backend m !! v); cbn; [case_bool_decide; cbn|]; lia.
  - destruct (reactivate_cases v b m Hwf) as [[-> _]|(-> & _)]; cbn; lia.
Qed.

Lemma run_refines m op :
  HandleMap_wf m -> HandleMap_room m ->
  HandleMap_wf (HandleMap_run op m).2 /\
  table_step (table_of m) op (HandleMap_run op m).1 (table_of (HandleMap_run op m).2).
Proof.
  intros Hwf Hroom. pose proof (hm_bij _ Hwf) as Hbij. destruct op; cbn.
  - pose proof (insert_wf b m Hwf Hroom) as Hwf'. pose proof (table_insert m b Hwf Hroom) as Ht.
    destruct (backend_to_virtual m !! b) as [v|] eqn:Eb.
    + unfold HandleMap_insert. rewrite Eb. split; [done|]. constructor.
      by apply table_of_live, Hbij.
    + destruct (HandleMap_insert b m) as [v m'] eqn:Ei. cbn in *. split; [done|].
      rewrite (Ht eq_refl). unfold HandleMap_insert in Ei. rewrite Eb in Ei.
      injection Ei as <- _. apply (step_insert_fresh (table_of m)).
      * intros v Hl%table_of_live%Hbij. congruence.
      * destruct (next_is_fresh m Hwf) as [H1 H2]. rewrite table_of_lookup. cbn.
        by rewrite H1, H2.
  - split; [done|]. constructor. intros b. by rewrite table_of_live.
  - split; [done|]. constructor. intros v. by rewrite table_of_live, Hbij.
  - pose proof (remove_wf v m Hwf). destruct (table_remove m v Hwf) as [Ht Ho].
    destruct (HandleMap_remove v m) as [o m']. cbn in *. split; [done|].
    rewrite Ht, Ho. apply (step_remove (table_of m)).
  - pose proof (suspend_wf v m Hwf). destruct (virtual_to_backend m !! v) as [b|] eqn:Ev.
    + destruct (table_suspend m v b Hwf Ev) as [Ho Ht].
      destruct (HandleMap_suspend v m) as [o m']. cbn in *. split; [done|].
      rewrite Ht. injection Ho as -> _. apply (step_suspend (table_of m)).
      by apply table_of_live.
    + unfold HandleMap_suspend. rewrite Ev. cbn. split; [done|]. apply step_suspend_refused.
      intros b Hl%table_of_live. congruence.
  - pose proof (reactivate_wf v b m Hwf) as Hwf'.
    destruct (reactivate_cases v b m Hwf) as [[Hr Hno]|(Hr & Hs & Hb)];
      rewrite Hr in *; cbn [fst snd] in *; (split; [done|]).
    + apply step_reactivate_refused. rewrite table_of_susp by done.
      setoid_rewrite table_of_live. done.
    + rewrite table_reactivate by done. apply (step_reactivate (table_of m)).
      * by apply table_of_susp.
      * intros v' Hl%table_of_live%Hbij. congruence.
  - split; [done|]. unfold HandleMap_is_proven_gone, HandleMap_resolve, HandleMap_suspended_backend.
    assert (Hg : bool_decide (virtual_to_backend m !! v = None) &&
                 bool_decide (suspended_virtual_to_backend m !! v = None) =
                 bool_decide (ht_entry (table_of m) !! v = None)).
    { rewrite table_of_lookup. destruct (virtual_to_backend m !! v); [done|].
      destruct (suspended_virtual_to_backend m !! v); done. }
    rewrite Hg. constructor.
  - split; [done|]. constructor. rewrite references_backend_owner by done.
    unfold owner. setoid_rewrite table_of_lookup. split; intros [v Hv]; exists v.
    + destruct (virtual_to_backend m !! v); [naive_solver|]. rewrite Hv. naive_solver.
    + destruct Hv as (s & Hs & <-). destruct (virtual_to_backend m !! v); [naive_solver|].
      destruct (suspended_virtual_to_backend m !! v); naive_solver.
  - split; [by apply clear_wf|].
    assert (table_of (HandleMap_clear m) = MkHandleTable (next_id m) ∅) as -> by table_simpl.
    apply (step_clear (table_of m)).
Qed.

Lemma owner_table m v : owner m v = status_backend <$> ht_entry (table_of m) !! v.
Proof.
  unfold owner. rewrite table_of_lookup. destruct (virtual_to_backend m !! v); [done|].
  destruct (suspended_virtual_to_backend m !! v); done.
Qed.

(** A step never gives an already allocated handle another backend handle. *)
Lemma table_step_old t op o t' v s' :
  table_step t op o t' -> vh_raw v < ht_next t -> ht_entry t' !! v = Some s' ->
  exists s, ht_entry t !! v = Some s /\ status_backend s = status_backend s'.
Proof.
  intros Hstep Hold Hs'. destruct Hstep; cbn in *; eauto.
  - rewrite lookup_insert in Hs'. case_decide; simplify_eq; cbn in *; [lia|eauto].
  - rewrite lookup_delete in Hs'. case_decide; simplify_eq; eauto.
  - rewrite lookup_insert in Hs'. case_decide; simplify_eq; eauto.
  - rewrite lookup_insert in Hs'. case_decide; simplify_eq; eauto.
  - by rewrite lookup_empty in Hs'.
Qed.

(** ** Histories *)

Fixpoint HandleMap_run_all (ops : list HandleOp) (m : HandleMap) : list HandleOut * HandleMap :=
  match ops with
  | [] => ([], m)
  | op :: ops =>
      let '(o, m1) := HandleMap_run op m in
      let '(os, m2) := HandleMap_run_all ops m1 in (o :: os, m2)
  end.

Inductive table_steps : HandleTable -> list HandleOp -> list HandleOut -> HandleTable -> Prop :=
| steps_nil t : table_steps t [] [] t
| steps_cons t op o t1 ops os t2 :
    table_step t op o t1 -> table_steps t1 ops os t2 ->
    table_steps t (op :: ops) (o :: os) t2.

Lemma run_all_cons op ops m :
  HandleMap_run_all (op :: ops) m =
    ((HandleMap_run op m).1 :: (HandleMap_run_all ops (HandleMap_run op m).2).1,
     (HandleMap_run_all ops (HandleMap_run op m).2).2).
Proof. cbn. destruct (HandleMap_run op m) as [o m1]. cbn. by destruct (HandleMap_run_all ops m1). Qed.

Lemma run_all_app ops1 ops2 m :
  (HandleMap_run_all (ops1 ++ ops2) m).2 =
  (HandleMap_run_all ops2 (HandleMap_run_all ops1 m).2).2.
Proof.
  revert m. induction ops1 as [|op ops1 IH]; intros m; [done|].
  rewrite <- app_comm_cons, !run_all_cons. cbn. apply IH.
Qed.

(** As long as the allocator cannot reach the end of [u64], a whole history
    refines the table. *)
Lemma run_all_refines ops m :
  HandleMap_wf m -> next_id m + N.of_nat (length ops) <= u64_MAX ->
  let r := HandleMap_run_all ops m in
  HandleMap_wf r.2 /\ table_steps (table_of m) ops r.1 (table_of r.2) /\
  next_id m <= next_id r.2 <= next_id m + N.of_nat (length ops).
Proof.
  revert m. induction ops as [|op ops IH]; intros m Hwf Hroom.
  - cbn. split; [done|]. split; [constructor|lia].
  - rewrite run_all_cons. cbn [fst snd length] in *.
    assert (HandleMap_room m) as Hr by (unfold HandleMap_room; lia).
    destruct (run_refines m op Hwf Hr) as [Hwf1 Hstep].
    pose proof (run_next_id op m Hwf Hr).
    destruct (IH _ Hwf1) as (Hwf2 & Hsteps & Hn); [lia|].
    split; [done|]. split; [by econstructor|lia].
Qed.

Lemma run_all_owner_old ops m v b :
  HandleMap_wf m -> next_id m + N.of_nat (length ops) <= u64_MAX ->
  vh_raw v < next_id m ->
  owner (HandleMap_run_all ops m).2 v = Some b -> owner m v = Some b.
Proof.
  revert m. induction ops as [|op ops IH]; intros m Hwf Hroom Hold; [done|].
  rewrite run_all_cons. cbn [fst snd length] in *. intros Ho.
  assert (HandleMap_room m) as Hr by (unfold HandleMap_room; lia).
  destruct (run_refines m op Hwf Hr) as [Hwf1 Hstep].
  pose proof (run_next_id op m Hwf Hr).
  apply IH in Ho; [|done|lia|lia]. rewrite owner_table in Ho.
  destruct (ht_entry _ !! v) as [s'|] eqn:Es'; [|done].
  destruct (table_step_old _ _ _ _ _ _ Hstep Hold Es') as (s & Hs & Heq).
  rewrite owner_table, Hs. cbn in *. congruence.
Qed.

Lemma owner_old m v b : HandleMap_wf m -> owner m v = Some b -> vh_raw v < next_id m.
Proof.
  intros Hwf Ho. unfold owner in Ho. destruct (virtual_to_backend m !! v) eqn:E.
  - by eapply hm_live_old.
  - by eapply hm_susp_old.
Qed.

(** How each operation changes the owners. *)
Lemma owner_remove v m v' :
  HandleMap_wf m ->
  owner (HandleMap_remove v m).2 v' = (if decide (v = v') then None else owner m v') /\
  (HandleMap_remove v m).1 = owner m v.
Proof.
  intros Hwf. destruct (table_remove m v Hwf) as [Ht Ho].
  rewrite !owner_table, Ht, Ho. cbn [ht_entry]. rewrite lookup_delete. split; [|done].
  by case_decide.
Qed.

Lemma owner_insert b m v' :
  HandleMap_wf m -> HandleMap_room m ->
  owner (HandleMap_insert b m).2 v' =
    if decide ((HandleMap_insert b m).1 = v') then Some b else owner m v'.
Proof.
  intros Hwf Hroom. destruct (backend_to_virtual m !! b) as [v|] eqn:Eb.
  - unfold HandleMap_insert. rewrite Eb. cbn. case_decide; [subst|done].
    apply (hm_bij _ Hwf) in Eb. unfold owner. by rewrite Eb.
  - rewrite !owner_table, table_insert by done. cbn [ht_entry].
    unfold HandleMap_insert. rewrite Eb. cbn [fst]. rewrite lookup_insert. by case_decide.
Qed.

Lemma owner_suspend v m v' : HandleMap_wf m -> owner (HandleMap_suspend v m).2 v' = owner m v'.
Proof.
  intros Hwf. destruct (virtual_to_backend m !! v) as [b|] eqn:Ev.
  - destruct (table_suspend m v b Hwf Ev) as [_ Ht]. rewrite !owner_table, Ht. cbn [ht_entry].
    rewrite lookup_insert. case_decide; [subst|done]. apply table_of_live in Ev. by rewrite Ev.
  - unfold HandleMap_suspend. by rewrite Ev.
Qed.

Lemma owner_reactivate v b m v' :
  HandleMap_wf m -> owner (HandleMap_reactivate_suspended v b m).2 v' = owner m v'.
Proof.
  intros Hwf. destruct (reactivate_cases v b m Hwf) as [[-> _]|(-> & Hs & _)]; [done|].
  cbn [snd]. rewrite !owner_table, table_reactivate by done. cbn [ht_entry].
  rewrite lookup_insert. case_decide; [subst|done].
  apply table_of_susp in Hs; [|done]. by rewrite Hs.
Qed.

(** ** Properties *)

(** C3: over any history of fewer than [2^64 - 1] operations from an empty
    map, every operation of [HandleMap] answers exactly what the abstract
    table of live and suspended handles promises (insertion is idempotent on
    a live backend handle and otherwise allocates a fresh identifier,
    suspended handles do not resolve, reactivation succeeds only when the
    backend handle was not rebound meanwhile), and the bijection invariant
    holds at the end. *)
Theorem HandleMap_refines_table ops :
  N.of_nat (length ops) < u64_MAX ->
  let r := HandleMap_run_all ops HandleMap_new in
  table_steps (MkHandleTable 1 ∅) ops r.1 (table_of r.2) /\ HandleMap_wf r.2.
Proof.
  intros Hlen r.
  destruct (run_all_refines ops HandleMap_new HandleMap_new_wf) as (Hwf & Hsteps & _);
    [cbn; lia|]. split; [|done]. exact Hsteps.
Qed.

Lemma HandleMap_refines_table_witness :
  let ops := [OpInsert (BH 7); OpSuspend (VH 1); OpInsert (BH 7);
              OpReactivate (VH 1) (BH 7); OpResolve (VH 2); OpRemove (VH 1)] in
  (HandleMap_run_all ops HandleMap_new).1 =
    [OutVirtual (Some (VH 1)); OutBackend (Some (BH 7)); OutVirtual (Some (VH 2));
     OutBool false; OutBackend (Some (BH 7)); OutBackend (Some (BH 7))] /\
  HandleMap_wf (HandleMap_run_all ops HandleMap_new).2.
Proof.
  intros ops. split; [vm_compute; reflexivity|].
  exact (proj2 (HandleMap_refines_table ops ltac:(vm_compute; reflexivity))).
Defined.

(** C2: handles are never rebound.  Take a state reached by a history and any
    later state of the same map: a virtual handle that stands for a backend
    handle in both stands for the same one (so a closed, destroyed or
    suspended handle can never come to denote another session or object,
    however the provider recycles its numbers), and a handle that an
    insertion newly binds was bound to nothing in the earlier state. *)
Theorem handle_never_rebound ops1 ops2 v :
  N.of_nat (length ops1 + length ops2) < u64_MAX ->
  let m1 := (HandleMap_run_all ops1 HandleMap_new).2 in
  let m2 := (HandleMap_run_all (ops1 ++ ops2) HandleMap_new).2 in
  (forall b b', owner m1 v = Some b -> owner m2 v = Some b' -> b = b') /\
  (forall b m3, HandleMap_insert b m2 = (v, m3) -> HandleMap_resolve v m2 = None ->
     owner m1 v = None).
Proof.
  intros Hlen m1 m2.
  destruct (run_all_refines ops1 HandleMap_new HandleMap_new_wf) as (Hwf1 & _ & Hn1);
    [cbn; lia|]. cbn in Hn1. fold m1 in Hwf1, Hn1.
  destruct (run_all_refines ops2 m1 Hwf1) as (_ & _ & Hn2); [lia|].
  assert (Hm2 : m2 = (HandleMap_run_all ops2 m1).2) by apply run_all_app.
  rewrite <- Hm2 in Hn2. split.
  - intros b b' Ho Ho'. rewrite Hm2 in Ho'.
    apply run_all_owner_old in Ho'; [congruence|done|lia|by eapply owner_old].
  - intros b m3 Hi Hres. apply eq_None_not_Some. intros [b' Ho].
    apply (owner_old _ _ _ Hwf1) in Ho. revert Hi. unfold HandleMap_insert.
    destruct (backend_to_virtual m2 !! b) as [v'|] eqn:Eb; intros [= <- <-].
    + destruct (run_all_refines ops2 m1 Hwf1) as (Hwf2 & _); [lia|].
      rewrite <- Hm2 in Hwf2. apply (hm_bij _ Hwf2) in Eb. unfold HandleMap_resolve in Hres.
      congruence.
    + cbn in Ho. lia.
Qed.

Lemma handle_never_rebound_witness :
  let ops1 := [OpInsert (BH 7)] in
  let ops2 := [OpSuspend (VH 1); OpInsert (BH 7); OpReactivate (VH 1) (BH 7)] in
  owner (HandleMap_run_all ops1 HandleMap_new).2 (VH 1) = Some (BH 7) /\
  forall b', owner (HandleMap_run_all (ops1 ++ ops2) HandleMap_new).2 (VH 1) = Some b' ->
    BH 7 = b'.
Proof.
  intros ops1 ops2. split; [vm_compute; reflexivity|]. intros b'.
  apply (proj1 (handle_never_rebound ops1 ops2 (VH 1) ltac:(vm_compute; reflexivity))).
  vm_compute; reflexivity.
Defined.
