(* ===== verification/SlotMap.v ===== *)
(** * Slot identifiers: [SlotMap]

    Models [crates/server/src/server/slot_map.rs] and the slot accessors of
    the context manager ([populate_slots], [register_slot], [resolve_slot],
    [virtual_slots], [to_virtual_slot] of [context_manager.rs]). *)

From S2P Require Import Prelude Ck.
Open Scope N_scope.

(** ** Data *)

Record VirtualSlotId := VSlot { vslot_raw : N }.
Record BackendSlotId := BSlot { bslot_raw : CkSlotId }.

#[export] Instance VirtualSlotId_eq_dec : EqDecision VirtualSlotId.
Proof. solve_decision. Defined.
#[export] Instance VirtualSlotId_countable : Countable VirtualSlotId.
Proof. by apply (inj_countable' vslot_raw VSlot); intros []. Defined.
#[export] Instance BackendSlotId_eq_dec : EqDecision BackendSlotId.
Proof. solve_decision. Defined.
#[export] Instance BackendSlotId_countable : Countable BackendSlotId.
Proof. by apply (inj_countable' bslot_raw BSlot); intros []. Defined.

Record SlotMap := MkSlotMap {
  slot_virtual_to_backend : gmap VirtualSlotId BackendSlotId;
  slot_backend_to_virtual : gmap BackendSlotId VirtualSlotId;
  next_virtual : N;
}.

#[export] Instance SlotMap_eta : Eta SlotMap := fun m =>
  MkSlotMap (slot_virtual_to_backend m) (slot_backend_to_virtual m) (next_virtual m).

(** ** Operations *)

Definition SlotMap_new : SlotMap := MkSlotMap ∅ ∅ 1.

Definition SlotMap_register (backend_slot : BackendSlotId) (m : SlotMap)
  : VirtualSlotId * SlotMap :=
  match slot_backend_to_virtual m !! backend_slot with
  | Some existing => (existing, m)
  | None =>
      let virtual_id := VSlot (next_virtual m) in
      (virtual_id,
       m <| next_virtual := wrapping_add64 (next_virtual m) 1 |>
         <| slot_virtual_to_backend ::= <[virtual_id := backend_slot]> |>
         <| slot_backend_to_virtual ::= <[backend_slot := virtual_id]> |>)
  end.

Definition SlotMap_resolve (virtual_slot : VirtualSlotId) (m : SlotMap)
  : option BackendSlotId := slot_virtual_to_backend m !! virtual_slot.

Definition SlotMap_to_virtual (backend_slot : BackendSlotId) (m : SlotMap)
  : option VirtualSlotId := slot_backend_to_virtual m !! backend_slot.

Definition SlotMap_virtual_slots (m : SlotMap) : gset VirtualSlotId :=
  dom (slot_virtual_to_backend m).

(** The registration loop of [populate_slots] over the backend's slot list. *)
Definition SlotMap_populate (slots : list CkSlotId) (m : SlotMap) : SlotMap :=
  foldl (fun m s => (SlotMap_register (BSlot s) m).2) m slots.

(** ** Invariant *)

(** A bijection between the virtual identifiers [1 .. next_virtual - 1] and
    the registered backend slots. *)
Record SlotMap_wf (m : SlotMap) : Prop := {
  sm_bij : forall v b, slot_virtual_to_backend m !! v = Some b <->
                       slot_backend_to_virtual m !! b = Some v;
  sm_dense : forall v, is_Some (slot_virtual_to_backend m !! v) <->
                       1 <= vslot_raw v < next_virtual m;
  sm_pos : 1 <= next_virtual m;
}.

(** ** Lemmas *)

Lemma SlotMap_new_wf : SlotMap_wf SlotMap_new.
Proof.
  split; cbn; intros; rewrite ?lookup_empty; try done.
  split; [intros [? [=]]|lia].
Qed.

Lemma register_wf b m :
  SlotMap_wf m -> next_virtual m < u64_MAX -> SlotMap_wf (SlotMap_register b m).2.
Proof.
  intros Hwf Hroom. unfold SlotMap_register.
  destruct (slot_backend_to_virtual m !! b) eqn:Eb; [done|].
  assert (Hfresh : slot_virtual_to_backend m !! VSlot (next_virtual m) = None).
  { apply eq_None_not_Some. intros Hs%(sm_dense _ Hwf). cbn in Hs. lia. }
  split; cbn; rewrite ?wrapping_add64_small
    by (unfold u64_MAX, u64_modulus in *; lia).
  - intros v b'. pose proof (sm_bij _ Hwf) as Hbij. map_cases.
    + rewrite <- Hbij, Hfresh. naive_solver.
    + rewrite Hbij, Eb. naive_solver.
  - intros v. pose proof (sm_pos _ Hwf). rewrite lookup_insert. case_decide as Hd.
    + subst v. cbn. split; [lia|eauto].
    + rewrite (sm_dense _ Hwf). assert (vslot_raw v <> next_virtual m).
      { intros Hr. apply Hd. destruct v. cbn in Hr. by subst. }
      lia.
  - pose proof (sm_pos _ Hwf). lia.
Qed.

Lemma register_result b m :
  SlotMap_wf m -> slot_virtual_to_backend (SlotMap_register b m).2 !! (SlotMap_register b m).1 = Some b.
Proof.
  intros Hwf. unfold SlotMap_register.
  destruct (slot_backend_to_virtual m !! b) eqn:Eb; cbn.
  - by apply (sm_bij _ Hwf).
  - by rewrite lookup_insert_eq.
Qed.

Lemma register_keeps b m v b' :
  SlotMap_wf m -> SlotMap_resolve v m = Some b' ->
  SlotMap_resolve v (SlotMap_register b m).2 = Some b'.
Proof.
  intros Hwf Hv. unfold SlotMap_resolve, SlotMap_register in *.
  destruct (slot_backend_to_virtual m !! b) eqn:Eb; cbn; [done|].
  rewrite lookup_insert_ne; [done|]. intros <-.
  assert (is_Some (slot_virtual_to_backend m !! VSlot (next_virtual m))) as Hs by eauto.
  apply (sm_dense _ Hwf) in Hs. cbn in Hs. lia.
Qed.

Lemma register_next b m :
  next_virtual m < u64_MAX ->
  next_virtual m <= next_virtual (SlotMap_register b m).2 <= next_virtual m + 1.
Proof.
  intros Hroom. unfold SlotMap_register. destruct (_ !! b); cbn; [lia|].
  rewrite wrapping_add64_small by (unfold u64_MAX, u64_modulus in *; lia). lia.
Qed.

Lemma populate_spec slots m :
  SlotMap_wf m -> next_virtual m + N.of_nat (length slots) <= u64_MAX ->
  SlotMap_wf (SlotMap_populate slots m) /\
  (forall v b, SlotMap_resolve v m = Some b ->
     SlotMap_resolve v (SlotMap_populate slots m) = Some b) /\
  (forall s, s ∈ slots -> exists v, SlotMap_resolve v (SlotMap_populate slots m) = Some (BSlot s)).
Proof.
  revert m. induction slots as [|s slots IH]; intros m Hwf Hroom; cbn [length] in *.
  - split; [done|]. split; [done|]. intros ? ?. set_solver.
  - assert (next_virtual m < u64_MAX) as Hr by lia.
    pose proof (register_next (BSlot s) m Hr).
    destruct (IH (SlotMap_register (BSlot s) m).2) as (Hwf' & Hkeep & Hall);
      [by apply register_wf|lia|].
    split; [done|]. split.
    + intros v b Hv. by apply Hkeep, register_keeps.
    + intros s' [->|Hs']%elem_of_cons; [|by apply Hall].
      eexists. apply Hkeep. by apply register_result.
Qed.

Lemma populate_next slots m :
  next_virtual m + N.of_nat (length slots) <= u64_MAX ->
  next_virtual (SlotMap_populate slots m) <= next_virtual m + N.of_nat (length slots).
Proof.
  revert m. induction slots as [|s slots IH]; intros m Hroom; cbn [length] in *; [cbn; lia|].
  pose proof (register_next (BSlot s) m ltac:(lia)).
  pose proof (IH (SlotMap_register (BSlot s) m).2 ltac:(lia)).
  change (SlotMap_populate (s :: slots) m)
    with (SlotMap_populate slots (SlotMap_register (BSlot s) m).2). lia.
Qed.

(** ** Properties *)

(** slot identifiers are stable and faithful.  After populating the map
    from the backend's slot list and registering any further slots, the map
    is a bijection, every listed slot has a virtual identifier that resolves
    back to it, and every identifier handed out before the later
    registrations still denotes the same backend slot; identifier 0 is never
    issued. *)
Theorem slot_map_stable slots more :
  N.of_nat (length slots + length more) < u64_MAX ->
  let m1 := SlotMap_populate slots SlotMap_new in
  let m2 := SlotMap_populate more m1 in
  SlotMap_wf m2 /\
  (forall s, s ∈ slots -> exists v, SlotMap_to_virtual (BSlot s) m2 = Some v /\
     SlotMap_resolve v m2 = Some (BSlot s)) /\
  (forall v b, SlotMap_resolve v m1 = Some b -> SlotMap_resolve v m2 = Some b) /\
  SlotMap_resolve (VSlot 0) m2 = None.
Proof.
  intros Hlen m1 m2.
  destruct (populate_spec (slots ++ more) SlotMap_new SlotMap_new_wf) as (Hwf & _ & Hall).
  { rewrite length_app. cbn. lia. }
  assert (Hm2 : SlotMap_populate (slots ++ more) SlotMap_new = m2) by apply foldl_app.
  rewrite Hm2 in *. split; [done|].
  split; [|split].
  - intros s Hs. destruct (Hall s) as [v Hv]; [set_solver|]. exists v.
    split; [|done]. by apply (sm_bij _ Hwf).
  - intros v b Hv. destruct (populate_spec slots SlotMap_new SlotMap_new_wf) as (Hwf1 & _);
      [cbn; lia|]. fold m1 in Hwf1.
    assert (Hn : next_virtual m1 <= 1 + N.of_nat (length slots)).
    { apply populate_next. cbn. lia. }
    destruct (populate_spec more m1 Hwf1) as (_ & Hkeep & _); [lia|]. by apply Hkeep.
  - apply eq_None_not_Some. intros Hs%(sm_dense _ Hwf). cbn in Hs. lia.
Qed.

Lemma slot_map_stable_witness :
  let m1 := SlotMap_populate [MkSlotId 42; MkSlotId 7] SlotMap_new in
  let m2 := SlotMap_populate [MkSlotId 7; MkSlotId 9] m1 in
  SlotMap_resolve (VSlot 2) m1 = Some (BSlot (MkSlotId 7)) /\
  SlotMap_resolve (VSlot 2) m2 = Some (BSlot (MkSlotId 7)).
Proof.
  intros m1 m2.
  assert (H : SlotMap_resolve (VSlot 2) m1 = Some (BSlot (MkSlotId 7)))
    by (vm_compute; reflexivity).
  split; [exact H|].
  exact (proj1 (proj2 (proj2 (slot_map_stable [MkSlotId 42; MkSlotId 7]
    [MkSlotId 7; MkSlotId 9] ltac:(vm_compute; reflexivity)))) _ _ H).
Defined.
