(* ===== verification/Connection.v ===== *)
(** * Transport liveness: connection groups and their registry

    Models [crates/server/src/server/connection_state.rs].  A group's
    [ConnectionState] is shared by reference, so the model keeps a heap of
    states addressed by [ConnRef] (the identity [Arc::ptr_eq] compares), the
    registry [by_peer], and the tracked streams that hold shares.  Releasing
    a stream is two steps, as in [unregister]: the counted [leave], then the
    conditional removal under the shard lock; joins may interleave. *)

From S2P Require Import Prelude.
Open Scope N_scope.

(** ** Data *)

Abbreviation ConnRef := N.
Abbreviation StreamId := N.

Record ConnectionState := MkConn { closed : bool; live_connections : N }.
#[export] Instance ConnectionState_eta : Eta ConnectionState := fun c =>
  MkConn (closed c) (live_connections c).

(** A tracked stream: open, dropped with the final share (removal pending),
    or gone. *)
Inductive StreamPhase := Open | Releasing | Dropped.
#[export] Instance StreamPhase_eq_dec : EqDecision StreamPhase.
Proof. solve_decision. Defined.

Record TrackedStream := MkStream {
  ts_state : ConnRef;
  ts_peer_key : option string;
  ts_phase : StreamPhase;
}.
#[export] Instance TrackedStream_eta : Eta TrackedStream := fun s =>
  MkStream (ts_state s) (ts_peer_key s) (ts_phase s).

Record Transport := MkTransport {
  conns : gmap ConnRef ConnectionState;
  by_peer : gmap string ConnRef;
  streams : gmap StreamId TrackedStream;
}.
#[export] Instance Transport_eta : Eta Transport := fun w =>
  MkTransport (conns w) (by_peer w) (streams w).

(** ** Operations on one state *)

Definition ConnectionState_new : ConnectionState := MkConn false 1.
Definition ConnectionState_is_closed (c : ConnectionState) : bool := closed c.
Definition ConnectionState_mark_closed (c : ConnectionState) : ConnectionState :=
  c <| closed := true |>.
Definition ConnectionState_join (c : ConnectionState) : ConnectionState :=
  c <| live_connections ::= N.succ |>.
(** [fetch_sub] then the double-release repair; the flag is "was the last". *)
Definition ConnectionState_leave_is_last (c : ConnectionState) : bool * ConnectionState :=
  let prev := live_connections c in
  if prev =? 0 then (true, c <| live_connections := 0 |>)
  else (prev =? 1, c <| live_connections := prev - 1 |>).

(** ** Registry *)

(** [register]: join the group of the peer, or install the candidate. *)
Definition ConnectionRegistry_register (peer_key : string) (state : ConnRef)
    (w : Transport) : ConnRef * Transport :=
  match by_peer w !! peer_key with
  | Some existing =>
      (existing, w <| conns ::= alter ConnectionState_join existing |>)
  | None => (state, w <| by_peer ::= <[peer_key := state]> |>)
  end.

Definition ConnectionRegistry_lookup (peer_key : string) (w : Transport) : option ConnRef :=
  by_peer w !! peer_key.

(** First half of [unregister]: only a release naming the registered group
    counts; [true] when it was the last share. *)
Definition unregister_leave (peer_key : string) (state : ConnRef) (w : Transport)
  : bool * Transport :=
  match by_peer w !! peer_key with
  | None => (false, w)
  | Some current =>
      if negb (current =? state) then (false, w)
      else match conns w !! state with
           | None => (false, w)
           | Some c =>
               let '(is_last, c') := ConnectionState_leave_is_last c in
               (is_last, w <| conns ::= <[state := c']> |>)
           end
  end.

(** Second half: [remove_if] under the shard lock, then [mark_closed]. *)
Definition unregister_remove (peer_key : string) (state : ConnRef) (w : Transport)
  : Transport :=
  match by_peer w !! peer_key with
  | Some current =>
      if (current =? state) &&
         match conns w !! current with
         | Some c => live_connections c =? 0
         | None => false
         end
      then w <| by_peer ::= delete peer_key |>
             <| conns ::= alter ConnectionState_mark_closed state |>
      else w
  | None => w
  end.

(** [TrackedStream::new]: [c] is the address of the freshly allocated
    candidate state. *)
Definition TrackedStream_new (sid : StreamId) (c : ConnRef) (peer_key : option string)
    (w : Transport) : Transport :=
  let w := w <| conns ::= <[c := ConnectionState_new]> |> in
  match peer_key with
  | Some key =>
      let '(state, w) := ConnectionRegistry_register key c w in
      w <| streams ::= <[sid := MkStream state (Some key) Open]> |>
  | None => w <| streams ::= <[sid := MkStream c None Open]> |>
  end.

(** [Drop for TrackedStream], up to the point where the last share was left. *)
Definition TrackedStream_drop_begin (sid : StreamId) (w : Transport) : Transport :=
  match streams w !! sid with
  | Some s =>
      match ts_phase s with
      | Open =>
          match ts_peer_key s with
          | None =>
              w <| conns ::= alter ConnectionState_mark_closed (ts_state s) |>
                <| streams ::= <[sid := s <| ts_phase := Dropped |>]> |>
          | Some key =>
              let '(is_last, w) := unregister_leave key (ts_state s) w in
              w <| streams ::=
                   <[sid := s <| ts_phase := if is_last then Releasing else Dropped |>]> |>
          end
      | _ => w
      end
  | None => w
  end.

Definition TrackedStream_drop_finish (sid : StreamId) (w : Transport) : Transport :=
  match streams w !! sid with
  | Some s =>
      match ts_phase s, ts_peer_key s with
      | Releasing, Some key =>
          unregister_remove key (ts_state s) w
            <| streams ::= <[sid := s <| ts_phase := Dropped |>]> |>
      | _, _ => w
      end
  | None => w
  end.

(** ** Steps *)

Definition Transport_new : Transport := MkTransport ∅ ∅ ∅.

(** Accepts and drops of any streams, interleaved; a new state lives at a
    fresh address and a new stream has a fresh name. *)
Inductive transport_step (w : Transport) : Transport -> Prop :=
| step_accept sid c key :
    streams w !! sid = None -> conns w !! c = None ->
    transport_step w (TrackedStream_new sid c key w)
| step_drop_begin sid : transport_step w (TrackedStream_drop_begin sid w)
| step_drop_finish sid : transport_step w (TrackedStream_drop_finish sid w).

Inductive transport_reachable : Transport -> Prop :=
| reach_new : transport_reachable Transport_new
| reach_step w w' : transport_reachable w -> transport_step w w' -> transport_reachable w'.

(** ** Peer keys *)

(** [tcp_peer_key]: the displayed remote socket address, port included. *)
Definition tcp_peer_key (peer_display : string) : string := "tcp:" +:+ peer_display.
Definition uds_peer_key (pid : option N) : option string :=
  (fun pid => "uds:pid=" +:+ pretty pid) <$> pid.

(** [peer_key_for_request] and [connection_state_for_request]: the transport
    extensions of a request, UDS credentials taking precedence. *)
Record RequestPeer := MkRequestPeer {
  uds_connect_info : option (option N);
  remote_addr : option string;
}.
Definition peer_key_for_request (r : RequestPeer) : option string :=
  match uds_connect_info r with
  | Some peer_pid => uds_peer_key peer_pid
  | None => tcp_peer_key <$> remote_addr r
  end.
Definition connection_state_for_request (w : Transport) (r : RequestPeer) : option ConnRef :=
  key ← peer_key_for_request r; ConnectionRegistry_lookup key w.

(** A group is live for a context when its [Weak] still upgrades and it is
    not closed. *)
Definition conn_live (h : gmap ConnRef ConnectionState) (c : ConnRef) : bool :=
  match h !! c with
  | Some st => negb (ConnectionState_is_closed st)
  | None => false
  end.

(** ** Invariant *)

Definition stream_counts (key : string) (c : ConnRef) (s : TrackedStream) : Prop :=
  ts_state s = c /\ ts_peer_key s = Some key /\ ts_phase s = Open.
#[export] Instance stream_counts_dec key c s : Decision (stream_counts key c s).
Proof. unfold stream_counts. apply _. Defined.

(** How many open streams share group [c] under [key]. *)
Definition shares (ss : gmap StreamId TrackedStream) (key : string) (c : ConnRef) : N :=
  N.of_nat (size (filter (fun kv => stream_counts key c kv.2) ss)).

Record Transport_wf (w : Transport) : Prop := {
  tw_registered : forall key c, by_peer w !! key = Some c ->
    exists st, conns w !! c = Some st /\ closed st = false /\
               live_connections st = shares (streams w) key c;
  tw_unique : forall k1 k2 c, by_peer w !! k1 = Some c -> by_peer w !! k2 = Some c -> k1 = k2;
  tw_open : forall sid s, streams w !! sid = Some s -> ts_phase s = Open ->
    match ts_peer_key s with
    | Some key => by_peer w !! key = Some (ts_state s)
    | None => exists st, conns w !! ts_state s = Some st /\ closed st = false
    end;
  tw_idle : forall key c, by_peer w !! key = Some c -> shares (streams w) key c = 0 ->
    exists sid s, streams w !! sid = Some s /\ ts_phase s = Releasing /\
                  ts_peer_key s = Some key /\ ts_state s = c;
  tw_private : forall sid s, streams w !! sid = Some s -> ts_peer_key s = None ->
    (forall key, by_peer w !! key <> Some (ts_state s)) /\
    (forall sid' s', streams w !! sid' = Some s' -> ts_state s' = ts_state s -> sid' = sid);
  tw_alloc : forall sid s, streams w !! sid = Some s -> is_Some (conns w !! ts_state s);
}.

(** ** Lemmas *)

Lemma Transport_new_wf : Transport_wf Transport_new.
Proof. split; cbn; intros *; rewrite ?lookup_empty; done. Qed.

Lemma shares_pos ss key c :
  shares ss key c <> 0 <-> exists sid s, ss !! sid = Some s /\ stream_counts key c s.
Proof.
  unfold shares. split.
  - intros Hn.
    assert (filter (fun kv => stream_counts key c kv.2) ss <> ∅) as Hne.
    { intros He. apply Hn. by rewrite He, map_size_empty. }
    apply map_choose in Hne as (sid & s & [Hs Hc]%map_lookup_filter_Some). eauto.
  - intros (sid & s & Hs & Hc) H0.
    assert (Hz : size (filter (fun kv => stream_counts key c kv.2) ss) = 0%nat) by lia.
    rewrite size_filter_0 in Hz. by apply (Hz sid s).
Qed.

Lemma shares_new ss sid s key c :
  ss !! sid = None ->
  shares (<[sid := s]> ss) key c =
  shares ss key c + (if decide (stream_counts key c s) then 1 else 0).
Proof.
  intros Hs. unfold shares. rewrite size_filter_new by done. cbn.
  destruct (decide _); lia.
Qed.

Lemma shares_leave ss sid s s' key c :
  ss !! sid = Some s -> ts_phase s' <> Open ->
  shares (<[sid := s']> ss) key c + (if decide (stream_counts key c s) then 1 else 0)
  = shares ss key c.
Proof.
  intros Hs Hn. unfold shares.
  pose proof (size_filter_insert (fun kv => stream_counts key c kv.2) ss sid s') as H.
  rewrite Hs in H. cbn in H.
  rewrite (decide_False (P := stream_counts key c s')) in H by (intros (_ & _ & ?); done).
  destruct (decide (stream_counts key c s)); lia.
Qed.

(** No stream shares an address that is not allocated. *)
Lemma shares_unallocated w key c :
  Transport_wf w -> conns w !! c = None -> shares (streams w) key c = 0.
Proof.
  intros Hwf Hc. destruct (N.eq_dec (shares (streams w) key c) 0) as [|Hn]; [done|].
  apply shares_pos in Hn as (sid & s & Hs & <- & _).
  apply (tw_alloc _ Hwf) in Hs as [? Hs]. congruence.
Qed.

Lemma registered_alloc w key c :
  Transport_wf w -> by_peer w !! key = Some c -> is_Some (conns w !! c).
Proof. intros Hwf Hk. destruct (tw_registered _ Hwf _ _ Hk) as (st & -> & _). eauto. Qed.

Lemma accept_join_wf w sid c key c0 :
  Transport_wf w -> streams w !! sid = None -> conns w !! c = None ->
  by_peer w !! key = Some c0 ->
  Transport_wf (MkTransport
    (alter ConnectionState_join c0 (<[c := ConnectionState_new]> (conns w)))
    (by_peer w) (<[sid := MkStream c0 (Some key) Open]> (streams w))).
Proof.
  intros Hwf Hsid Hc Hkey.
  assert (Hne : c0 <> c). { intros ->. destruct (registered_alloc _ _ _ Hwf Hkey). congruence. }
  split; cbn.
  - intros k c' Hk. destruct (tw_registered _ Hwf _ _ Hk) as (st & Hst & Hcl & Hlive).
    assert (c' <> c) by congruence. rewrite shares_new by done.
    rewrite lookup_alter. case_decide as Hd.
    + subst c'. rewrite lookup_insert_ne, Hst by done.
      rewrite (tw_unique _ Hwf _ _ _ Hk Hkey) in *.
      exists (ConnectionState_join st). rewrite decide_True by done. cbn. repeat split; [done|lia].
    + rewrite lookup_insert_ne by done. exists st.
      rewrite decide_False by (intros (? & _); cbn in *; congruence). repeat split; [done..|lia].
  - apply (tw_unique _ Hwf).
  - intros sid' s. rewrite lookup_insert. case_decide; [by intros [= <-]|].
    intros Hs Hop. pose proof (tw_open _ Hwf _ _ Hs Hop) as Ho.
    destruct (ts_peer_key s) eqn:Ek; [done|].
    destruct Ho as (st & Hst & Hcl). destruct (tw_private _ Hwf _ _ Hs Ek) as [Hp _].
    exists st. rewrite lookup_alter_ne, lookup_insert_ne; [done|congruence|].
    intros ->. by apply (Hp key).
  - intros k c' Hk Hsh. rewrite shares_new in Hsh by done.
    destruct (tw_idle _ Hwf k c' Hk) as (sid' & s & Hs & Hr); [lia|].
    exists sid', s. split; [|done]. rewrite lookup_insert_ne; [done|congruence].
  - intros sid' s. rewrite lookup_insert. case_decide as Hd; [intros [= <-]; done|].
    intros Hs Hk. destruct (tw_private _ Hwf _ _ Hs Hk) as [Hp Hq]. split; [done|].
    intros sid2 s2. rewrite lookup_insert. case_decide; [|by apply Hq].
    intros [= <-]. cbn. intros Heq. exfalso. apply (Hp key). by rewrite <- Heq.
  - intros sid' s. rewrite lookup_alter_is_Some, lookup_insert_is_Some, lookup_insert.
    case_decide; [intros [= <-]; cbn; right; split; [done|by eapply registered_alloc]|].
    intros Hs%(tw_alloc _ Hwf). destruct (decide (c = ts_state s)); auto.
Qed.

Lemma accept_new_wf w sid c key :
  Transport_wf w -> streams w !! sid = None -> conns w !! c = None ->
  by_peer w !! key = None ->
  Transport_wf (MkTransport (<[c := ConnectionState_new]> (conns w))
    (<[key := c]> (by_peer w)) (<[sid := MkStream c (Some key) Open]> (streams w))).
Proof.
  intros Hwf Hsid Hc Hkey.
  assert (Hnoreg : forall k, by_peer w !! k <> Some c).
  { intros k Hk. destruct (registered_alloc _ _ _ Hwf Hk). congruence. }
  split; cbn.
  - intros k c'. rewrite lookup_insert, shares_new by done. case_decide as Hd.
    + intros [= <-]. subst k. rewrite lookup_insert_eq, decide_True by done.
      exists ConnectionState_new. rewrite shares_unallocated by done. done.
    + intros Hk. destruct (tw_registered _ Hwf _ _ Hk) as (st & Hst & Hcl & Hlive).
      rewrite decide_False by (intros (_ & ? & _); cbn in *; congruence).
      exists st. rewrite lookup_insert_ne by congruence. repeat split; [done..|lia].
  - intros k1 k2 c'. rewrite !lookup_insert. repeat case_decide; subst; try done.
    + intros [= <-] Hk. by apply Hnoreg in Hk.
    + intros Hk [= <-]. by apply Hnoreg in Hk.
    + apply (tw_unique _ Hwf).
  - intros sid' s. rewrite lookup_insert. case_decide.
    + intros [= <-] _. cbn. by rewrite lookup_insert_eq.
    + intros Hs Hop. pose proof (tw_open _ Hwf _ _ Hs Hop) as Ho.
      destruct (ts_peer_key s) eqn:Ek.
      * rewrite lookup_insert_ne; [done|congruence].
      * destruct Ho as (st & Hst & Hcl). exists st. rewrite lookup_insert_ne; [done|congruence].
  - intros k c'. rewrite lookup_insert, shares_new by done. case_decide as Hd.
    + intros [= <-]. subst k. rewrite decide_True by done. lia.
    + intros Hk Hsh. destruct (tw_idle _ Hwf k c' Hk) as (sid' & s & Hs & Hr); [lia|].
      exists sid', s. split; [|done]. rewrite lookup_insert_ne; [done|congruence].
  - intros sid' s. rewrite lookup_insert. case_decide; [by intros [= <-]|].
    intros Hs Hk. destruct (tw_private _ Hwf _ _ Hs Hk) as [Hp Hq].
    assert (ts_state s <> c).
    { intros <-. destruct (tw_alloc _ Hwf _ _ Hs). congruence. }
    split.
    + intros k. rewrite lookup_insert. case_decide; [congruence|apply Hp].
    + intros sid2 s2. rewrite lookup_insert. case_decide; [|by apply Hq].
      intros [= <-]. cbn. congruence.
  - intros sid' s. rewrite lookup_insert_is_Some, lookup_insert.
    case_decide; [intros [= <-]; by left|].
    intros Hs%(tw_alloc _ Hwf). destruct (decide (c = ts_state s)); auto.
Qed.

Lemma accept_peerless_wf w sid c :
  Transport_wf w -> streams w !! sid = None -> conns w !! c = None ->
  Transport_wf (MkTransport (<[c := ConnectionState_new]> (conns w)) (by_peer w)
    (<[sid := MkStream c None Open]> (streams w))).
Proof.
  intros Hwf Hsid Hc.
  assert (Hnoreg : forall k, by_peer w !! k <> Some c).
  { intros k Hk. destruct (registered_alloc _ _ _ Hwf Hk). congruence. }
  assert (Hnostr : forall sid' s, streams w !! sid' = Some s -> ts_state s <> c).
  { intros sid' s Hs <-. destruct (tw_alloc _ Hwf _ _ Hs). congruence. }
  split; cbn.
  - intros k c' Hk. destruct (tw_registered _ Hwf _ _ Hk) as (st & Hst & Hcl & Hlive).
    exists st. rewrite lookup_insert_ne by congruence. rewrite shares_new by done.
    rewrite decide_False by (intros (_ & ? & _); cbn in *; congruence). repeat split; [done..|lia].
  - apply (tw_unique _ Hwf).
  - intros sid' s. rewrite lookup_insert. case_decide.
    + intros [= <-] _. cbn. rewrite lookup_insert_eq. eauto.
    + intros Hs Hop. pose proof (tw_open _ Hwf _ _ Hs Hop) as Ho.
      destruct (ts_peer_key s); [done|].
      destruct Ho as (st & Hst & Hcl). exists st. rewrite lookup_insert_ne; [done|congruence].
  - intros k c' Hk Hsh. rewrite shares_new in Hsh by done.
    destruct (tw_idle _ Hwf k c' Hk) as (sid' & s & Hs & Hr); [lia|].
    exists sid', s. split; [|done]. rewrite lookup_insert_ne; [done|congruence].
  - intros sid' s. rewrite lookup_insert. case_decide as Hd.
    + intros [= <-] _. cbn. split; [done|]. intros sid2 s2. rewrite lookup_insert.
      case_decide; [congruence|]. intros Hs2 He. by apply Hnostr in Hs2.
    + intros Hs Hk. destruct (tw_private _ Hwf _ _ Hs Hk) as [Hp Hq]. split; [done|].
      intros sid2 s2. rewrite lookup_insert. case_decide; [|by apply Hq].
      intros [= <-]. cbn. intros He. by apply Hnostr in Hs.
  - intros sid' s. rewrite lookup_insert_is_Some, lookup_insert.
    case_decide; [intros [= <-]; by left|].
    intros Hs%(tw_alloc _ Hwf). destruct (decide (c = ts_state s)); auto.
Qed.

Lemma accept_wf w sid c key :
  Transport_wf w -> streams w !! sid = None -> conns w !! c = None ->
  Transport_wf (TrackedStream_new sid c key w).
Proof.
  intros Hwf Hsid Hc. unfold TrackedStream_new, ConnectionRegistry_register.
  destruct key as [key|]; cbn; [|by apply accept_peerless_wf].
  destruct (by_peer w !! key) as [c0|] eqn:Ek; cbn.
  - by apply accept_join_wf.
  - by apply accept_new_wf.
Qed.

(** A phase change of one stream that is not open any more. *)
Lemma drop_private_wf w sid s :
  Transport_wf w -> streams w !! sid = Some s -> ts_phase s = Open -> ts_peer_key s = None ->
  Transport_wf (MkTransport (alter ConnectionState_mark_closed (ts_state s) (conns w))
    (by_peer w) (<[sid := s <| ts_phase := Dropped |>]> (streams w))).
Proof.
  intros Hwf Hs Hop Hk. destruct (tw_private _ Hwf _ _ Hs Hk) as [Hp Hq].
  assert (Hsame : forall key c, shares (<[sid := s <| ts_phase := Dropped |>]> (streams w)) key c
                                = shares (streams w) key c).
  { intros key c. rewrite <- (shares_leave (streams w) sid s (s <| ts_phase := Dropped |>)) by done.
    rewrite decide_False by (intros (_ & ? & _); congruence). lia. }
  split; cbn [conns by_peer streams].
  - intros k c Hk'. rewrite Hsame. rewrite lookup_alter_ne; [by apply (tw_registered _ Hwf)|].
    intros <-. by apply (Hp k).
  - apply (tw_unique _ Hwf).
  - intros sid' s'. rewrite lookup_insert. case_decide; [by intros [= <-]|].
    intros Hs' Hop'. pose proof (tw_open _ Hwf _ _ Hs' Hop') as Ho.
    destruct (ts_peer_key s') eqn:Ek; [done|]. destruct Ho as (st & Hst & Hcl).
    exists st. rewrite lookup_alter_ne; [done|]. intros He. symmetry in He.
    by apply (Hq _ _ Hs') in He.
  - intros k c Hk' Hsh. rewrite Hsame in Hsh.
    destruct (tw_idle _ Hwf k c Hk' Hsh) as (sid' & s' & Hs' & Hr & ? & ?).
    exists sid', s'. split; [|done]. rewrite lookup_insert_ne; [done|congruence].
  - intros sid' s'. rewrite lookup_insert. case_decide as Hd.
    + intros [= <-] _. subst sid'. split; [done|]. intros sid2 s2. rewrite lookup_insert.
      case_decide; [done|]. cbn. apply Hq.
    + intros Hs' Hk'. destruct (tw_private _ Hwf _ _ Hs' Hk') as [Hp' Hq']. split; [done|].
      intros sid2 s2. rewrite lookup_insert. case_decide; [|by apply Hq'].
      intros [= <-]. cbn. subst sid2. intros He. by apply (Hq' _ _ Hs).
  - intros sid' s'. rewrite lookup_alter_is_Some, lookup_insert.
    case_decide; [intros [= <-]; cbn; by eapply tw_alloc|apply (tw_alloc _ Hwf)].
Qed.

(** An open keyed stream leaves its group; the group stays registered. *)
Lemma drop_keyed_wf w sid s key st :
  Transport_wf w -> streams w !! sid = Some s -> ts_phase s = Open -> ts_peer_key s = Some key ->
  conns w !! ts_state s = Some st ->
  Transport_wf (MkTransport
    (<[ts_state s := MkConn (closed st) (live_connections st - 1)]> (conns w)) (by_peer w)
    (<[sid := MkStream (ts_state s) (ts_peer_key s)
                (if live_connections st =? 1 then Releasing else Dropped)]> (streams w))).
Proof.
  intros Hwf Hs Hop Hk Hst.
  pose proof (tw_open _ Hwf _ _ Hs Hop) as Hreg. rewrite Hk in Hreg.
  destruct (tw_registered _ Hwf _ _ Hreg) as (st' & Hst' & Hcl & Hlive).
  rewrite Hst in Hst'. injection Hst' as <-.
  set (s' := MkStream _ _ _).
  assert (Hn : ts_phase s' <> Open) by (cbn; by case_match).
  pose proof (fun k c => shares_leave (streams w) sid s s' k c Hs Hn) as Hsh.
  assert (Hsc : stream_counts key (ts_state s) s) by (split; done).
  split; cbn [conns by_peer streams].
  - intros k c Hkc. specialize (Hsh k c). rewrite lookup_insert.
    destruct (decide (ts_state s = c)) as [<-|Hd].
    + rewrite (tw_unique _ Hwf _ _ _ Hkc Hreg) in *.
      rewrite decide_True in Hsh by done. eexists. split; [done|]. cbn. split; [done|lia].
    + rewrite decide_False in Hsh by (intros (? & _); congruence).
      destruct (tw_registered _ Hwf _ _ Hkc) as (st2 & ? & ? & ?).
      exists st2. repeat split; [done..|lia].
  - apply (tw_unique _ Hwf).
  - intros sid' s2. rewrite lookup_insert. case_decide; [intros [= <-]; intros; by destruct Hn|].
    intros Hs2 Hop2. pose proof (tw_open _ Hwf _ _ Hs2 Hop2) as Ho.
    destruct (ts_peer_key s2) eqn:Ek2; [done|]. destruct Ho as (st2 & Hst2 & Hcl2).
    destruct (tw_private _ Hwf _ _ Hs2 Ek2) as [Hp _].
    exists st2. rewrite lookup_insert_ne; [done|]. intros He. apply (Hp key). by rewrite <- He.
  - intros k c Hkc H0. specialize (Hsh k c). destruct (decide (c = ts_state s)) as [->|Hne].
    + rewrite (tw_unique _ Hwf _ _ _ Hkc Hreg) in *.
      rewrite decide_True in Hsh by done. exists sid, s'. rewrite lookup_insert_eq.
      repeat split; [|done]. cbn. destruct (N.eqb_spec (live_connections st) 1); [done|lia].
    + rewrite decide_False in Hsh by (intros (? & _); congruence).
      destruct (tw_idle _ Hwf k c Hkc) as (sid2 & s2 & Hs2 & Hr & ? & ?); [lia|].
      exists sid2, s2. split; [|done]. rewrite lookup_insert_ne; [done|congruence].
  - intros sid' s2. rewrite lookup_insert. case_decide; [intros [= <-]; cbn; congruence|].
    intros Hs2 Hk2. destruct (tw_private _ Hwf _ _ Hs2 Hk2) as [Hp Hq]. split; [done|].
    intros sid3 s3. rewrite lookup_insert. case_decide; [|by apply Hq].
    intros [= <-]. cbn. subst sid3. intros He. by apply (Hq _ _ Hs).
  - intros sid' s2. rewrite lookup_insert_is_Some, lookup_insert.
    case_decide; [intros [= <-]; by left|].
    intros Hs2%(tw_alloc _ Hwf). destruct (decide (ts_state s = ts_state s2)); auto.
Qed.

Lemma drop_begin_wf w sid : Transport_wf w -> Transport_wf (TrackedStream_drop_begin sid w).
Proof.
  intros Hwf. unfold TrackedStream_drop_begin. destruct (streams w !! sid) as [s|] eqn:Hs; [|done].
  destruct (ts_phase s) eqn:Hop; [|done..].
  destruct (ts_peer_key s) as [key|] eqn:Hk; [|cbn; rewrite Hk; by eapply drop_private_wf in Hs; cbn in Hs; rewrite ?Hk in Hs].
  pose proof (tw_open _ Hwf _ _ Hs Hop) as Hreg. rewrite Hk in Hreg.
  destruct (tw_registered _ Hwf _ _ Hreg) as (st & Hst & Hcl & Hlive).
  assert (shares (streams w) key (ts_state s) <> 0) by (apply shares_pos; exists sid, s; done).
  unfold unregister_leave, ConnectionState_leave_is_last.
  rewrite Hreg, N.eqb_refl, Hst. cbn [negb].
  destruct (N.eqb_spec (live_connections st) 0); [lia|]. cbn.
  by eapply drop_keyed_wf.
Qed.

(** The removal of an idle group: it is unregistered and closed together. *)
Lemma remove_idle_wf w sid s key st :
  Transport_wf w -> streams w !! sid = Some s -> ts_phase s = Releasing ->
  ts_peer_key s = Some key -> by_peer w !! key = Some (ts_state s) ->
  conns w !! ts_state s = Some st -> live_connections st = 0 ->
  Transport_wf (MkTransport (alter ConnectionState_mark_closed (ts_state s) (conns w))
    (delete key (by_peer w)) (<[sid := MkStream (ts_state s) (ts_peer_key s) Dropped]> (streams w))).
Proof.
  intros Hwf Hs Hph Hk Hreg Hst H0.
  destruct (tw_registered _ Hwf _ _ Hreg) as (st' & Hst' & Hcl & Hlive).
  rewrite Hst in Hst'. injection Hst' as <-.
  set (s' := MkStream _ _ _).
  assert (Hsh : forall k c, shares (<[sid := s']> (streams w)) k c = shares (streams w) k c).
  { intros k c. rewrite <- (shares_leave (streams w) sid s s') by done.
    rewrite decide_False by (intros (_ & _ & ?); congruence). lia. }
  split; cbn [conns by_peer streams].
  - intros k c. rewrite lookup_delete_Some. intros [Hne Hkc]. rewrite Hsh, lookup_alter_ne;
      [by apply (tw_registered _ Hwf)|]. intros <-. apply Hne. by apply (tw_unique _ Hwf) with (ts_state s).
  - intros k1 k2 c [_ ?]%lookup_delete_Some [_ ?]%lookup_delete_Some. by apply (tw_unique _ Hwf) with c.
  - intros sid' s2. rewrite lookup_insert. case_decide; [by intros [= <-]|].
    intros Hs2 Hop2. pose proof (tw_open _ Hwf _ _ Hs2 Hop2) as Ho.
    destruct (ts_peer_key s2) as [k2|] eqn:Ek2.
    + rewrite lookup_delete_ne; [done|]. intros <-.
      assert (ts_state s2 = ts_state s) as He by congruence.
      assert (shares (streams w) key (ts_state s) <> 0); [|lia].
      apply shares_pos. exists sid', s2. split; [done|]. split; [congruence|done].
    + destruct Ho as (st2 & Hst2 & Hcl2). destruct (tw_private _ Hwf _ _ Hs2 Ek2) as [Hp _].
      exists st2. rewrite lookup_alter_ne; [done|]. intros He. apply (Hp key). by rewrite <- He.
  - intros k c [Hne Hkc]%lookup_delete_Some. rewrite Hsh. intros Hz.
    destruct (tw_idle _ Hwf k c Hkc Hz) as (sid2 & s2 & Hs2 & Hr & ? & ?).
    exists sid2, s2. split; [|done]. rewrite lookup_insert_ne; [done|congruence].
  - intros sid' s2. rewrite lookup_insert. case_decide; [intros [= <-]; cbn; congruence|].
    intros Hs2 Hk2. destruct (tw_private _ Hwf _ _ Hs2 Hk2) as [Hp Hq]. split.
    + intros k [_ Hkc]%lookup_delete_Some. by apply (Hp k).
    + intros sid3 s3. rewrite lookup_insert. case_decide; [|by apply Hq].
      intros [= <-]. cbn. subst sid3. intros He. by apply (Hq _ _ Hs).
  - intros sid' s2. rewrite lookup_alter_is_Some, lookup_insert.
    case_decide; [intros [= <-]; by eapply tw_alloc in Hs|apply (tw_alloc _ Hwf)].
Qed.

(** A released stream settles without removal: someone joined again, or the
    group was removed by another release. *)
Lemma release_kept_wf w sid s key :
  Transport_wf w -> streams w !! sid = Some s -> ts_phase s = Releasing ->
  ts_peer_key s = Some key ->
  (by_peer w !! key = Some (ts_state s) -> shares (streams w) key (ts_state s) <> 0) ->
  Transport_wf (MkTransport (conns w) (by_peer w)
    (<[sid := MkStream (ts_state s) (ts_peer_key s) Dropped]> (streams w))).
Proof.
  intros Hwf Hs Hph Hk Hkept. set (s' := MkStream _ _ _).
  assert (Hsh : forall k c, shares (<[sid := s']> (streams w)) k c = shares (streams w) k c).
  { intros k c. rewrite <- (shares_leave (streams w) sid s s') by done.
    rewrite decide_False by (intros (_ & _ & ?); congruence). lia. }
  split; cbn [conns by_peer streams].
  - intros k c Hkc. rewrite Hsh. by apply (tw_registered _ Hwf).
  - apply (tw_unique _ Hwf).
  - intros sid' s2. rewrite lookup_insert. case_decide; [by intros [= <-]|]. apply (tw_open _ Hwf).
  - intros k c Hkc. rewrite Hsh. intros Hz.
    destruct (tw_idle _ Hwf k c Hkc Hz) as (sid2 & s2 & Hs2 & Hr & Hk2 & Hc2).
    exists sid2, s2. split; [|done]. rewrite lookup_insert_ne; [done|]. intros ->.
    assert (s2 = s) as -> by congruence. simplify_eq. by apply Hkept in Hkc.
  - intros sid' s2. rewrite lookup_insert. case_decide; [intros [= <-]; cbn; congruence|].
    intros Hs2 Hk2. destruct (tw_private _ Hwf _ _ Hs2 Hk2) as [Hp Hq]. split; [done|].
    intros sid3 s3. rewrite lookup_insert. case_decide; [|by apply Hq].
    intros [= <-]. cbn. subst sid3. intros He. by apply (Hq _ _ Hs).
  - intros sid' s2. rewrite lookup_insert.
    case_decide; [intros [= <-]; by eapply tw_alloc in Hs|apply (tw_alloc _ Hwf)].
Qed.

Lemma drop_finish_wf w sid : Transport_wf w -> Transport_wf (TrackedStream_drop_finish sid w).
Proof.
  intros Hwf. unfold TrackedStream_drop_finish. destruct (streams w !! sid) as [s|] eqn:Hs; [|done].
  destruct (ts_phase s) eqn:Hph; [done| |done]. destruct (ts_peer_key s) as [key|] eqn:Hk; [|done].
  unfold unregister_remove.
  pose proof (release_kept_wf w sid s key Hwf Hs Hph Hk) as Hkept. rewrite Hk in Hkept.
  destruct (by_peer w !! key) as [cur|] eqn:Hreg; [|cbn; rewrite Hk; by apply Hkept].
  destruct (tw_registered _ Hwf _ _ Hreg) as (st & Hst & Hcl & Hlive). rewrite Hst.
  destruct (N.eqb_spec cur (ts_state s)) as [->|Hne]; cbn;
    [|rewrite Hk; apply Hkept; congruence].
  destruct (N.eqb_spec (live_connections st) 0) as [H0|H0]; cbn.
  - by eapply remove_idle_wf.
  - rewrite Hk. apply Hkept. intros _. lia.
Qed.

Lemma transport_step_wf w w' : Transport_wf w -> transport_step w w' -> Transport_wf w'.
Proof.
  intros Hwf []; [by apply accept_wf|by apply drop_begin_wf|by apply drop_finish_wf].
Qed.

Lemma transport_reachable_wf w : transport_reachable w -> Transport_wf w.
Proof. induction 1; [apply Transport_new_wf|by eapply transport_step_wf]. Qed.

(** ** Reclamation *)

Definition closed_at (w : Transport) (c : ConnRef) : Prop :=
  exists st, conns w !! c = Some st /\ closed st = true.

(** No operation reopens a group. *)
Lemma closed_at_step w w' c : transport_step w w' -> closed_at w c -> closed_at w' c.
Proof.
  intros Hst (st & Hc & Hcl). unfold closed_at. destruct Hst as [sid c' key Hs Hc'|sid|sid].
  - assert (c' <> c) by congruence.
    unfold TrackedStream_new, ConnectionRegistry_register. destruct key as [key|]; cbn.
    + destruct (by_peer w !! key) as [c0|]; cbn.
      * rewrite lookup_alter. case_decide; subst; rewrite lookup_insert_ne, Hc by done; cbn; eauto.
      * rewrite lookup_insert_ne by done. eauto.
    + rewrite lookup_insert_ne by done. eauto.
  - unfold TrackedStream_drop_begin, unregister_leave, ConnectionState_leave_is_last.
    repeat (case_match; simplify_eq; cbn; eauto);
      rewrite ?lookup_alter, ?lookup_insert; case_decide; simplify_eq; rewrite ?Hc; eauto.
  - unfold TrackedStream_drop_finish, unregister_remove.
    repeat (case_match; simplify_eq; cbn; eauto);
      rewrite lookup_alter; case_decide; simplify_eq; rewrite ?Hc; eauto.
Qed.

(** A stream that is no longer open leaves its group registered or closed. *)
Definition detached_closed (w : Transport) : Prop :=
  forall sid s, streams w !! sid = Some s -> ts_phase s <> Open ->
    closed_at w (ts_state s) \/
    exists key, ts_peer_key s = Some key /\ by_peer w !! key = Some (ts_state s).

Lemma detached_closed_accept w sid c key :
  detached_closed w -> streams w !! sid = None -> conns w !! c = None ->
  detached_closed (TrackedStream_new sid c key w).
Proof.
  intros Hd Hs Hc sid' s' Hs' Hph.
  assert (Hold : streams w !! sid' = Some s').
  { revert Hs' Hph. unfold TrackedStream_new, ConnectionRegistry_register.
    destruct key as [key|]; cbn; [destruct (by_peer w !! key); cbn|]; rewrite lookup_insert;
      case_decide; try done; intros [= <-] Hno; by destruct Hno. }
  destruct (Hd _ _ Hold Hph) as [Hcl|(k & Hk & Hreg)].
  - left. eapply closed_at_step; [by constructor|done].
  - right. exists k. split; [done|].
    unfold TrackedStream_new, ConnectionRegistry_register.
    destruct key as [key|]; cbn; [|done]. destruct (by_peer w !! key) eqn:Ek; cbn; [done|]. rewrite lookup_insert_ne; [done|congruence].
Qed.

Lemma detached_closed_begin w sid :
  Transport_wf w -> detached_closed w -> detached_closed (TrackedStream_drop_begin sid w).
Proof.
  intros Hwf Hd sid' s'.
  pose proof (closed_at_step w _ (ts_state s') (step_drop_begin w sid)) as Hmono.
  revert Hmono. unfold TrackedStream_drop_begin.
  destruct (streams w !! sid) as [s|] eqn:Hs; [|intros _; apply Hd].
  destruct (ts_phase s) eqn:Hop; [|intros _; apply Hd..].
  pose proof (tw_open _ Hwf _ _ Hs Hop) as Ho.
  destruct (ts_peer_key s) as [key|] eqn:Hk.
  - assert (Hby : by_peer (unregister_leave key (ts_state s) w).2 = by_peer w /\
                  streams (unregister_leave key (ts_state s) w).2 = streams w).
    { unfold unregister_leave. by repeat (case_match; cbn). }
    destruct (unregister_leave key (ts_state s) w) as [last w1]. cbn in Hby |- *.
    destruct Hby as [Hby Hss]. rewrite Hby, Hss, lookup_insert. case_decide.
    + intros _ [= <-] _. right. exists key. by rewrite Hk.
    + intros Hmono Hs' Hph. destruct (Hd _ _ Hs' Hph) as [?|?]; [left|right]; auto.
  - destruct Ho as (st & Hst & _). cbn. rewrite lookup_insert. case_decide.
    + intros _ [= <-] _. left. unfold closed_at. cbn. rewrite lookup_alter_eq, Hst. cbn. eauto.
    + intros Hmono Hs' Hph. destruct (Hd _ _ Hs' Hph) as [?|?]; [left|right]; auto.
Qed.

Lemma detached_closed_finish w sid :
  Transport_wf w -> detached_closed w -> detached_closed (TrackedStream_drop_finish sid w).
Proof.
  intros Hwf Hd sid' s' Hs' Hph.
  assert (exists s, streams w !! sid' = Some s /\ ts_state s = ts_state s' /\
            ts_peer_key s = ts_peer_key s' /\ ts_phase s <> Open) as (s & Hs & Est & Ek & Hph0).
  { revert Hs'. unfold TrackedStream_drop_finish.
    destruct (streams w !! sid) as [s1|] eqn:Hs1; [|by eauto].
    destruct (ts_phase s1) eqn:Hp1; [by eauto| |by eauto].
    destruct (ts_peer_key s1) as [key|] eqn:Hk1; [|by eauto].
    assert (streams (unregister_remove key (ts_state s1) w) = streams w) as Hss.
    { unfold unregister_remove. by repeat case_match. }
    cbn [streams set_field]. rewrite Hss, lookup_insert. case_decide as He; [|by eauto].
    intros [= <-]. subst sid'. exists s1. split; [done|]. split; [done|]. split; [done|congruence]. }
  destruct (Hd _ _ Hs Hph0) as [Hcl|(k & Hk & Hreg)].
  - left. eapply closed_at_step; [apply step_drop_finish|by rewrite <- Est].
  - rewrite Ek in Hk. rewrite Est in Hreg.
    unfold TrackedStream_drop_finish, unregister_remove.
    destruct (streams w !! sid) as [s1|] eqn:Hs1; [|right; eauto].
    destruct (ts_phase s1); [right; eauto| |right; eauto].
    destruct (ts_peer_key s1) as [key|] eqn:Hk1; [|right; eauto].
    destruct (by_peer w !! key) as [cur|] eqn:Hcur; [|right; cbn; eauto].
    destruct (tw_registered _ Hwf _ _ Hcur) as (st & Hst & _). rewrite Hst.
    case_match eqn:Hg; [|right; cbn; eauto].
    apply andb_true_iff in Hg as [->%N.eqb_eq _]. cbn.
    destruct (decide (key = k)) as [->|Hne].
    + left. assert (ts_state s' = ts_state s1) as -> by congruence. unfold closed_at. cbn.
      rewrite lookup_alter_eq, Hst. cbn. eauto.
    + right. exists k. cbn. by rewrite lookup_delete_ne.
Qed.

Lemma transport_reachable_detached w : transport_reachable w -> detached_closed w.
Proof.
  induction 1 as [|w w' Hr IH Hs]; [intros ? ?; cbn; by rewrite lookup_empty|].
  pose proof (transport_reachable_wf _ Hr). destruct Hs.
  - by apply detached_closed_accept.
  - by apply detached_closed_begin.
  - by apply detached_closed_finish.
Qed.

(** ** Properties *)

(** Under any interleaving of accepts and (two-phase) releases, a
    connection group with an open stream is live and, if its peer is keyed,
    is the group the registry returns for that peer; a registered group is
    never closed and its counter is the exact number of open streams that
    share it. *)
Theorem open_stream_group_live w :
  transport_reachable w ->
  (forall sid s, streams w !! sid = Some s -> ts_phase s = Open ->
     conn_live (conns w) (ts_state s) = true /\
     forall key, ts_peer_key s = Some key -> ConnectionRegistry_lookup key w = Some (ts_state s)) /\
  (forall key c, ConnectionRegistry_lookup key w = Some c ->
     exists st, conns w !! c = Some st /\ ConnectionState_is_closed st = false /\
                live_connections st = shares (streams w) key c).
Proof.
  intros Hwf%transport_reachable_wf. split; [|apply (tw_registered _ Hwf)].
  intros sid s Hs Hop. pose proof (tw_open _ Hwf _ _ Hs Hop) as Ho. unfold conn_live.
  destruct (ts_peer_key s) as [key|].
  - destruct (tw_registered _ Hwf _ _ Ho) as (st & -> & Hcl & _).
    unfold ConnectionState_is_closed. rewrite Hcl. split; [done|]. by intros ? [= <-].
  - destruct Ho as (st & -> & Hcl). unfold ConnectionState_is_closed. by rewrite Hcl.
Qed.

(** Once every stream of a group has been dropped for good, the group
    is closed and no peer key names it: contexts bound to it can be reaped
    and the registry keeps no entry for a departed peer. *)
Theorem dropped_group_reclaimed w c :
  transport_reachable w ->
  (exists sid s, streams w !! sid = Some s /\ ts_state s = c) ->
  (forall sid s, streams w !! sid = Some s -> ts_state s = c -> ts_phase s = Dropped) ->
  conn_live (conns w) c = false /\ forall key, ConnectionRegistry_lookup key w <> Some c.
Proof.
  intros Hr (sid & s & Hs & <-) Hall.
  pose proof (transport_reachable_wf _ Hr) as Hwf.
  assert (Hunreg : forall key, by_peer w !! key <> Some (ts_state s)).
  { intros key Hreg.
    destruct (N.eq_dec (shares (streams w) key (ts_state s)) 0) as [H0|Hn].
    - destruct (tw_idle _ Hwf _ _ Hreg H0) as (sid' & s' & Hs' & Hph & _ & He).
      pose proof (Hall _ _ Hs' He). congruence.
    - apply shares_pos in Hn as (sid' & s' & Hs' & He & _ & Hph).
      pose proof (Hall _ _ Hs' He). congruence. }
  split; [|done].
  destruct (transport_reachable_detached _ Hr _ _ Hs) as [(st & Hst & Hcl)|(key & _ & Hreg)].
  - rewrite (Hall _ _ Hs) by done. done.
  - unfold conn_live, ConnectionState_is_closed. by rewrite Hst, Hcl.
  - by apply Hunreg in Hreg.
Qed.

(** Two streams of one peer, the second joining between the halves of the
    first one's release. *)
Definition demo_transport : Transport :=
  TrackedStream_drop_finish 1 (TrackedStream_new 2 11 (Some "uds:pid=7")
    (TrackedStream_drop_begin 1 (TrackedStream_new 1 10 (Some "uds:pid=7") Transport_new))).

Lemma demo_transport_reachable : transport_reachable demo_transport.
Proof.
  unfold demo_transport.
  eapply reach_step, step_drop_finish. eapply reach_step, step_accept; [|done..].
  eapply reach_step, step_drop_begin. eapply reach_step, step_accept; [|done..].
  apply reach_new.
Qed.

Lemma open_stream_group_live_witness :
  transport_reachable demo_transport /\ conn_live (conns demo_transport) 10 = true /\
  ConnectionRegistry_lookup "uds:pid=7" demo_transport = Some 10.
Proof.
  split; [apply demo_transport_reachable|].
  destruct (open_stream_group_live demo_transport demo_transport_reachable) as [H _].
  destruct (H 2 (MkStream 10 (Some "uds:pid=7") Open)) as [H1 H2]; [reflexivity..|].
  split; [exact H1|apply H2; reflexivity].
Defined.

Lemma dropped_group_reclaimed_witness :
  let w := TrackedStream_drop_finish 2 (TrackedStream_drop_begin 2 demo_transport) in
  conn_live (conns w) 10 = false /\ forall key, ConnectionRegistry_lookup key w <> Some 10.
Proof.
  intros w. apply (dropped_group_reclaimed w 10).
  - eapply reach_step, step_drop_finish. eapply reach_step, step_drop_begin.
    apply demo_transport_reachable.
  - exists 1, (MkStream 10 (Some "uds:pid=7") Dropped). split; reflexivity.
  - intros sid s Hs He.
    assert (streams w = {[ 1 := MkStream 10 (Some "uds:pid=7") Dropped;
                           2 := MkStream 10 (Some "uds:pid=7") Dropped ]}) as Hw
      by (vm_compute; reflexivity).
    rewrite Hw in Hs. apply lookup_insert_Some in Hs as [[_ <-]|[_ Hs]]; [done|].
    by apply lookup_singleton_Some in Hs as [_ <-].
Defined.
