(* ===== verification/Context.v ===== *)
(** * One logical client: [LogicalClientInstance]

    Models the first part of [crates/server/src/server/context_manager.rs]:
    the per-client state, the message-operation transition, connection
    bindings, session registration and removal, and teardown.

    Clock readings ([Instant::now]) and generated identifiers are arguments.
    [Arc<AtomicI64>] of [in_flight] is the field itself: a guard outliving
    its context decrements a counter nobody reads.  An [Arc<Mutex<..>>] of
    [message_operations] is the address of its cell. *)

From S2P Require Import Prelude Ck HandleMap SlotMap Connection.
Open Scope N_scope.

(** ** Data *)

Abbreviation ClientContextId := string.

Inductive LoginState := Public | User | So.
#[export] Instance LoginState_eq_dec : EqDecision LoginState.
Proof. solve_decision. Defined.

Inductive MessageOperation := Encrypt | Decrypt | Sign | Verify.
#[export] Instance MessageOperation_eq_dec : EqDecision MessageOperation.
Proof. solve_decision. Defined.
#[export] Instance MessageOperation_countable : Countable MessageOperation.
Proof.
  refine (inj_countable'
    (fun o => match o with Encrypt => 0 | Decrypt => 1 | Sign => 2 | Verify => 3 end)
    (fun n => match n with 0 => Encrypt | 1 => Decrypt | 2 => Sign | _ => Verify end) _).
  by intros [].
Defined.

Inductive MessageParameterShape := Unmodeled | Gcm | Ccm | SalsaChacha.
#[export] Instance MessageParameterShape_eq_dec : EqDecision MessageParameterShape.
Proof. solve_decision. Defined.

Definition MessageParameterShape_from_registry_name (name : option string)
  : MessageParameterShape :=
  match name with
  | Some n =>
      if String.eqb n "gcm" then Gcm
      else if String.eqb n "ccm" then Ccm
      else if String.eqb n "salsa20_chacha20_poly1305" then SalsaChacha
      else Unmodeled
  | None => Unmodeled
  end.

Abbreviation SecretBytes := (list N).
Abbreviation CkObjectClass := N.
Abbreviation CkAttributeType := N.
Abbreviation MsgRef := N.

Record ObjectMetadata := MkObjectMetadata {
  unique_id : SecretBytes;
  class : option CkObjectClass;
  is_token : bool;
}.

Record CachedAttr := MkCachedAttr { value : SecretBytes; ck_rv : N }.

Record GatedObjectMetadata := MkGated { generation : N; meta : ObjectMetadata }.

Record LogicalClientInstance := MkContext {
  id : ClientContextId;
  created_at : N;
  last_active : N;
  session_handles : HandleMap;
  session_slots : gmap VirtualHandle BackendSlotId;
  object_handles : HandleMap;
  object_metadata : gmap VirtualHandle ObjectMetadata;
  token_object_metadata : gmap VirtualHandle GatedObjectMetadata;
  session_objects : gmap VirtualHandle (list VirtualHandle);
  login_state : gmap BackendSlotId LoginState;
  contended_slot_login : gset BackendSlotId;
  authenticated_identity : option string;
  connection_state : option (list ConnRef);
  last_peer_ip : option string;
  created_objects : gset VirtualHandle;
  object_private : gmap VirtualHandle bool;
  destroyed_objects : gset VirtualHandle;
  attr_cache : gmap (VirtualHandle * CkAttributeType) CachedAttr;
  in_flight : Z;
  message_operations : gmap (VirtualHandle * MessageOperation) MsgRef;
}.

#[export] Instance LogicalClientInstance_eta : Eta LogicalClientInstance := fun c =>
  MkContext (id c) (created_at c) (last_active c) (session_handles c) (session_slots c)
    (object_handles c) (object_metadata c) (token_object_metadata c) (session_objects c)
    (login_state c) (contended_slot_login c) (authenticated_identity c) (connection_state c)
    (last_peer_ip c) (created_objects c) (object_private c) (destroyed_objects c)
    (attr_cache c) (in_flight c) (message_operations c).

(** ** Message-operation transitions *)

(** The guarded state and the transition that owns it across the provider
    call; [Drop] gives the state back to the cell. *)
Record MessageOperationState := MkMsgState { shape : option MessageParameterShape }.

Record MessageOperationTransition := MkMsgTransition {
  mt_state : MessageOperationState;
  saved_shape : option MessageParameterShape;
  mt_started : bool;
  mt_settled : bool;
}.
#[export] Instance MessageOperationTransition_eta : Eta MessageOperationTransition := fun t =>
  MkMsgTransition (mt_state t) (saved_shape t) (mt_started t) (mt_settled t).

Definition MessageOperationTransition_begin (state : MessageOperationState)
  : MessageOperationTransition :=
  MkMsgTransition (MkMsgState None) (shape state) false false.

Definition MessageOperationTransition_mark_started (t : MessageOperationTransition)
  : MessageOperationTransition := t <| mt_started := true |>.

Definition MessageOperationTransition_settle {T} (result : CkResult T)
    (successful_shape : option MessageParameterShape) (t : MessageOperationTransition)
  : MessageOperationTransition :=
  let new_shape :=
    match result with
    | Ok _ => successful_shape
    | Err error => if rv_eqb error Rv.DEVICE_ERROR then None else saved_shape t
    end in
  t <| mt_state := MkMsgState new_shape |> <| mt_settled := true |>.

Definition MessageOperationTransition_settle_ambiguous (t : MessageOperationTransition)
  : MessageOperationTransition :=
  t <| mt_state := MkMsgState None |> <| mt_settled := true |>.

Definition MessageOperationTransition_drop (t : MessageOperationTransition)
  : MessageOperationState :=
  if mt_settled t then mt_state t
  else MkMsgState (if mt_started t then None else saved_shape t).

(** ** Construction *)

Definition LogicalClientInstance_new_with_connection (fresh_id : ClientContextId) (now : N)
    (identity : option string) (connection : option ConnRef) : LogicalClientInstance :=
  MkContext fresh_id now now HandleMap_new ∅ HandleMap_new ∅ ∅ ∅ ∅ ∅ identity
    ((fun c => [c]) <$> connection) None ∅ ∅ ∅ ∅ 0 ∅.

Definition LogicalClientInstance_new (fresh_id : ClientContextId) (now : N)
    (identity : option string) : LogicalClientInstance :=
  LogicalClientInstance_new_with_connection fresh_id now identity None.

(** ** Connection bindings

    [h] is the heap of connection groups.  Readers prune dead entries through
    interior mutability; [prune_connections] is that side effect, kept apart
    from the answer it cannot change ([prune_unobservable]). *)

Definition live_connection_bindings (h : gmap ConnRef ConnectionState)
    (ctx : LogicalClientInstance) : bool * list ConnRef :=
  match connection_state ctx with
  | None => (false, [])
  | Some entries => (true, filter (fun c => conn_live h c = true) entries)
  end.

Definition prune_connections (h : gmap ConnRef ConnectionState)
    (ctx : LogicalClientInstance) : LogicalClientInstance :=
  ctx <| connection_state ::= fmap (filter (fun c => conn_live h c = true)) |>.

Definition LogicalClientInstance_rebind_connection (h : gmap ConnRef ConnectionState)
    (connection : option ConnRef) (ctx : LogicalClientInstance) : LogicalClientInstance :=
  match connection with
  | Some state =>
      if conn_live h state then
        match connection_state ctx with
        | None => ctx <| connection_state := Some [state] |>
        | Some entries =>
            let entries := filter (fun c => conn_live h c = true) entries in
            ctx <| connection_state :=
                   Some (if bool_decide (state ∈ entries) then entries
                         else entries ++ [state]) |>
        end
      else ctx
  | None => ctx
  end.

Definition is_transport_dead (h : gmap ConnRef ConnectionState)
    (ctx : LogicalClientInstance) : bool :=
  let '(ever_bound, live) := live_connection_bindings h ctx in
  ever_bound && match live with [] => true | _ => false end.

Definition live_connection_state (h : gmap ConnRef ConnectionState)
    (ctx : LogicalClientInstance) : option ConnRef :=
  head (live_connection_bindings h ctx).2.

Definition same_connection_as (h : gmap ConnRef ConnectionState) (other : option ConnRef)
    (ctx : LogicalClientInstance) : bool :=
  let '(ever_bound, live) := live_connection_bindings h ctx in
  match other with
  | None => negb ever_bound
  | Some other => conn_live h other && bool_decide (other ∈ live)
  end.

Definition LogicalClientInstance_touch (now : N) (ctx : LogicalClientInstance)
  : LogicalClientInstance := ctx <| last_active := now |>.

(** ** Sessions *)

Definition LogicalClientInstance_register_session (backend : BackendHandle)
    (slot : BackendSlotId) (ctx : LogicalClientInstance)
  : VirtualHandle * LogicalClientInstance :=
  let '(virt, hm) := HandleMap_insert backend (session_handles ctx) in
  (virt, ctx <| session_handles := hm |> <| session_slots ::= <[virt := slot]> |>).

Definition LogicalClientInstance_record_session_object (session object : VirtualHandle)
    (ctx : LogicalClientInstance) : LogicalClientInstance :=
  ctx <| session_objects ::=
         partial_alter (fun o => Some (default [] o ++ [object])) session |>.

(** The eviction of one object from every per-handle map. *)
Definition evict_object (object : VirtualHandle) (ctx : LogicalClientInstance)
  : LogicalClientInstance :=
  ctx <| object_handles ::= fun m => (HandleMap_remove object m).2 |>
      <| object_metadata ::= delete object |>
      <| token_object_metadata ::= delete object |>
      <| created_objects ::= fun s => s ∖ {[ object ]} |>
      <| object_private ::= delete object |>
      <| attr_cache ::= map_drop (fun k => bool_decide (k.1 = object)) |>.

Definition evict_objects (objects : list VirtualHandle) (ctx : LogicalClientInstance)
  : LogicalClientInstance := foldl (fun ctx o => evict_object o ctx) ctx objects.

Definition drop_message_operations (session : VirtualHandle) (ctx : LogicalClientInstance)
  : LogicalClientInstance :=
  ctx <| message_operations ::= map_drop (fun k => bool_decide (k.1 = session)) |>.

(** [if let Some(objects) = self.session_objects.remove(&session)] ... *)
Definition evict_session_objects (session : VirtualHandle) (ctx : LogicalClientInstance)
  : LogicalClientInstance :=
  match session_objects ctx !! session with
  | Some objects => evict_objects objects (ctx <| session_objects ::= delete session |>)
  | None => ctx
  end.

Definition clear_slot_login (slot : BackendSlotId) (ctx : LogicalClientInstance)
  : LogicalClientInstance :=
  ctx <| login_state ::= delete slot |> <| contended_slot_login ::= fun s => s ∖ {[ slot ]} |>.

Definition holds_slot (ctx : LogicalClientInstance) (slot : BackendSlotId) : bool :=
  map_any (fun _ s => bool_decide (s = slot)) (session_slots ctx).

Definition LogicalClientInstance_remove_session (session : VirtualHandle)
    (ctx : LogicalClientInstance) : option BackendHandle * LogicalClientInstance :=
  let slot := session_slots ctx !! session in
  let ctx := ctx <| session_slots ::= delete session |> in
  let '(backend_handle, hm) := HandleMap_remove session (session_handles ctx) in
  let ctx := ctx <| session_handles := hm |> in
  let ctx := drop_message_operations session ctx in
  let ctx := evict_session_objects session ctx in
  let ctx :=
    match slot with
    | Some slot => if holds_slot ctx slot then ctx else clear_slot_login slot ctx
    | None => ctx
    end in
  (backend_handle, ctx).

(** One iteration of the loop of [remove_sessions_for_slot]. *)
Definition remove_slot_session (vh : VirtualHandle)
    (acc : list BackendHandle * LogicalClientInstance)
  : list BackendHandle * LogicalClientInstance :=
  let '(backend_handles, ctx) := acc in
  let ctx := ctx <| session_slots ::= delete vh |> in
  let ctx := drop_message_operations vh ctx in
  let ctx := evict_session_objects vh ctx in
  let '(bh, hm) := HandleMap_remove vh (session_handles ctx) in
  (backend_handles ++ option_list bh, ctx <| session_handles := hm |>).

Definition LogicalClientInstance_remove_sessions_for_slot `{HI : HashIter}
    (slot : BackendSlotId) (ctx : LogicalClientInstance)
  : list BackendHandle * LogicalClientInstance :=
  let to_remove := (filter (fun kv => kv.2 = slot) (hiter (session_slots ctx))).*1 in
  let '(backend_handles, ctx) :=
    foldl (fun acc vh => remove_slot_session vh acc) ([], ctx) to_remove in
  (backend_handles, clear_slot_login slot ctx).

Definition has_open_backend_sessions (ctx : LogicalClientInstance) : bool :=
  match elements (HandleMap_backend_handles (session_handles ctx)) with
  | [] => false
  | _ => true
  end.

Definition LogicalClientInstance_teardown (ctx : LogicalClientInstance)
  : list N * LogicalClientInstance :=
  (bh_raw <$> elements (HandleMap_backend_handles (session_handles ctx)),
   ctx <| session_handles ::= HandleMap_clear |> <| session_slots := ∅ |>
       <| object_handles ::= HandleMap_clear |> <| object_metadata := ∅ |>
       <| token_object_metadata := ∅ |> <| session_objects := ∅ |>
       <| created_objects := ∅ |> <| object_private := ∅ |> <| attr_cache := ∅ |>
       <| login_state := ∅ |> <| contended_slot_login := ∅ |>
       <| message_operations := ∅ |>).

(** ** Invariant *)

(** Every session handle in use has a slot and conversely, and
    message-operation cells belong to a session in use. *)
Record ctx_core (c : LogicalClientInstance) : Prop := {
  cw_sessions : HandleMap_wf (session_handles c);
  cw_objects : HandleMap_wf (object_handles c);
  cw_slots : forall v, is_Some (session_slots c !! v) <-> is_Some (owner (session_handles c) v);
  cw_messages : forall v op, is_Some (message_operations c !! (v, op)) -> is_Some (session_slots c !! v);
}.

(** Login markers exist only for slots the client holds a session on. *)
Record ctx_wf (c : LogicalClientInstance) : Prop := {
  cw_core : ctx_core c;
  cw_login : forall slot, is_Some (login_state c !! slot) -> exists v, session_slots c !! v = Some slot;
  cw_contended : forall slot, slot ∈ contended_slot_login c -> exists v, session_slots c !! v = Some slot;
}.

(** ** Lemmas *)

Lemma LogicalClientInstance_new_wf i now ident conn :
  ctx_wf (LogicalClientInstance_new_with_connection i now ident conn).
Proof.
  split; [split|..]; cbn; intros *; rewrite ?lookup_empty; try apply HandleMap_new_wf.
  - split; intros [? H]; discriminate H.
  - intros [? H]; discriminate H.
  - intros [? H]; discriminate H.
  - set_solver.
Qed.

Lemma holds_slot_true c slot :
  holds_slot c slot = true <-> exists v, session_slots c !! v = Some slot.
Proof.
  unfold holds_slot. rewrite map_any_true. setoid_rewrite bool_decide_eq_true. naive_solver.
Qed.

(** What eviction leaves alone. *)
Definition same_but_objects (c c' : LogicalClientInstance) : Prop :=
  id c' = id c /\ created_at c' = created_at c /\ last_active c' = last_active c /\
  session_handles c' = session_handles c /\ session_slots c' = session_slots c /\
  login_state c' = login_state c /\ contended_slot_login c' = contended_slot_login c /\
  authenticated_identity c' = authenticated_identity c /\
  connection_state c' = connection_state c /\ last_peer_ip c' = last_peer_ip c /\
  destroyed_objects c' = destroyed_objects c /\ in_flight c' = in_flight c /\
  message_operations c' = message_operations c.

#[export] Instance same_but_objects_preorder : PreOrder same_but_objects.
Proof.
  split; [intros c; by repeat split|].
  unfold same_but_objects. intros c1 c2 c3 H1 H2.
  destruct_and!. split_and!; congruence.
Qed.

Lemma evict_object_frame o c : same_but_objects c (evict_object o c).
Proof. by repeat split. Qed.

Lemma evict_objects_frame os c : same_but_objects c (evict_objects os c).
Proof.
  revert c. induction os as [|o os IH]; intros c; [done|].
  etransitivity; [apply (evict_object_frame o)|apply IH].
Qed.

Lemma evict_objects_session_objects os c :
  session_objects (evict_objects os c) = session_objects c.
Proof. revert c. induction os as [|o os IH]; intros c; [done|]. apply (IH (evict_object o c)). Qed.

Lemma evict_session_objects_frame v c : same_but_objects c (evict_session_objects v c).
Proof.
  unfold evict_session_objects. destruct (session_objects c !! v); [|done].
  etransitivity; [|apply evict_objects_frame]. by repeat split.
Qed.

(** No map knows the object any more. *)
Definition object_absent (c : LogicalClientInstance) (o : VirtualHandle) : Prop :=
  owner (object_handles c) o = None /\ object_metadata c !! o = None /\
  token_object_metadata c !! o = None /\ o ∉ created_objects c /\
  object_private c !! o = None /\ forall a, attr_cache c !! (o, a) = None.

(** The object's entries agree in both states. *)
Definition object_same (c c' : LogicalClientInstance) (o : VirtualHandle) : Prop :=
  owner (object_handles c') o = owner (object_handles c) o /\
  object_metadata c' !! o = object_metadata c !! o /\
  token_object_metadata c' !! o = token_object_metadata c !! o /\
  (o ∈ created_objects c' <-> o ∈ created_objects c) /\
  object_private c' !! o = object_private c !! o /\
  forall a, attr_cache c' !! (o, a) = attr_cache c !! (o, a).

Lemma evict_object_spec o c o' :
  HandleMap_wf (object_handles c) ->
  if decide (o = o') then object_absent (evict_object o c) o'
  else object_same c (evict_object o c) o'.
Proof.
  intros Hwf. pose proof (owner_remove o (object_handles c) o' Hwf) as [Ho _].
  case_decide as Hd; cbn; unfold object_absent, object_same; cbn; rewrite Ho.
  - subst o'. rewrite !lookup_delete_eq. repeat split; try set_solver.
    intros a. rewrite lookup_map_drop. cbn. by rewrite bool_decide_eq_true_2.
  - rewrite !lookup_delete_ne by done. repeat split; try set_solver.
    intros a. rewrite lookup_map_drop. cbn. by rewrite bool_decide_eq_false_2 by congruence.
Qed.

Lemma object_absent_same c c' o : object_absent c o -> object_same c c' o -> object_absent c' o.
Proof.
  unfold object_absent, object_same. intros (->&->&->&?&->&H) (->&->&->&Hc&->&H').
  repeat split; [by rewrite Hc|]. intros a. by rewrite H', H.
Qed.

Lemma evict_object_wf o c :
  HandleMap_wf (object_handles c) -> HandleMap_wf (object_handles (evict_object o c)).
Proof. apply remove_wf. Qed.

Lemma evict_objects_spec os c o :
  HandleMap_wf (object_handles c) ->
  HandleMap_wf (object_handles (evict_objects os c)) /\
  (o ∈ os -> object_absent (evict_objects os c) o) /\
  (o ∉ os -> object_same c (evict_objects os c) o) /\
  (object_absent c o -> object_absent (evict_objects os c) o).
Proof.
  revert c. induction os as [|x os IH]; intros c Hwf.
  { cbn. split; [done|]. split; [set_solver|]. split; [by repeat split|done]. }
  pose proof (evict_object_spec x c o Hwf) as Hx.
  destruct (IH (evict_object x c) (evict_object_wf x c Hwf)) as (Hwf' & Hin & Hout & Habs).
  change (evict_objects (x :: os) c) with (evict_objects os (evict_object x c)).
  split; [done|]. case_decide as Hd.
  - subst x. split; [by auto|]. split; [set_solver|by auto].
  - split; [intros Ho; apply Hin; set_solver|]. split.
    + intros Hn. destruct Hx as (?&?&?&?&?&Ha1). destruct Hout as (?&?&?&?&?&Ha2); [set_solver|].
      split_and!; [congruence..|set_solver|congruence|]. intros a. by rewrite Ha2, Ha1.
    + intros Ha. apply Habs. by eapply object_absent_same.
Qed.

(** ** Detaching one session *)

(** The common effect of [remove_session] and of one iteration of
    [remove_sessions_for_slot]. *)
Record detached (v : VirtualHandle) (c c' : LogicalClientInstance) : Prop := {
  dt_handles : session_handles c' = (HandleMap_remove v (session_handles c)).2;
  dt_slots : session_slots c' = delete v (session_slots c);
  dt_messages : message_operations c' =
    map_drop (fun k => bool_decide (k.1 = v)) (message_operations c);
  dt_session_objects : session_objects c' = delete v (session_objects c);
  dt_login : login_state c' = login_state c;
  dt_contended : contended_slot_login c' = contended_slot_login c;
  dt_objects : HandleMap_wf (object_handles c) ->
    HandleMap_wf (object_handles c') /\
    forall o, (o ∈ default [] (session_objects c !! v) -> object_absent c' o) /\
              (o ∉ default [] (session_objects c !! v) -> object_same c c' o) /\
              (object_absent c o -> object_absent c' o);
}.

Lemma evict_session_objects_spec v c :
  HandleMap_wf (object_handles c) ->
  HandleMap_wf (object_handles (evict_session_objects v c)) /\
  forall o, (o ∈ default [] (session_objects c !! v) -> object_absent (evict_session_objects v c) o) /\
            (o ∉ default [] (session_objects c !! v) -> object_same c (evict_session_objects v c) o) /\
            (object_absent c o -> object_absent (evict_session_objects v c) o).
Proof.
  intros Hwf. unfold evict_session_objects.
  destruct (session_objects c !! v) as [os|] eqn:E; cbn [default from_option].
  - set (c0 := c <| session_objects ::= delete v |>).
    pose proof (fun o => evict_objects_spec os c0 o Hwf) as H.
    split; [exact (proj1 (H v))|]. intros o. exact (proj2 (H o)).
  - split; [done|]. intros o. split; [set_solver|]. split; [by repeat split|done].
Qed.

Lemma evict_session_objects_delete v c :
  session_objects (evict_session_objects v c) = delete v (session_objects c).
Proof.
  unfold evict_session_objects. destruct (session_objects c !! v) eqn:E.
  - by rewrite evict_objects_session_objects.
  - by rewrite delete_id.
Qed.

Lemma remove_slot_session_detached v bhs c :
  detached v c (remove_slot_session v (bhs, c)).2 /\
  (remove_slot_session v (bhs, c)).1 =
    bhs ++ option_list (HandleMap_remove v (session_handles c)).1.
Proof.
  unfold remove_slot_session.
  set (c0 := drop_message_operations v (c <| session_slots ::= delete v |>)).
  pose proof (evict_session_objects_frame v c0) as Hf. unfold same_but_objects in Hf.
  pose proof (evict_session_objects_spec v c0) as Hs.
  pose proof (evict_session_objects_delete v c0) as Hd.
  set (c1 := evict_session_objects v c0) in *. clearbody c1. destruct_and!.
  assert (session_handles c1 = session_handles c) as Hsh by done.
  rewrite Hsh. destruct (HandleMap_remove v (session_handles c)) as [b hm] eqn:E.
  cbn [fst snd]. split; [|done].
  split; cbn; rewrite ?E; try done.
Qed.

Lemma detached_core v c c' : ctx_core c -> detached v c c' -> ctx_core c'.
Proof.
  intros Hc Hd. split.
  - rewrite (dt_handles _ _ _ Hd). apply remove_wf, Hc.
  - by apply (dt_objects _ _ _ Hd), Hc.
  - intros v'. rewrite (dt_handles _ _ _ Hd), (dt_slots _ _ _ Hd), lookup_delete.
    destruct (owner_remove v (session_handles c) v' (cw_sessions _ Hc)) as [-> _].
    case_decide; [split; intros [? Hx]; discriminate Hx|]. apply (cw_slots _ Hc).
  - intros v' op. rewrite (dt_messages _ _ _ Hd), (dt_slots _ _ _ Hd), lookup_map_drop, lookup_delete.
    cbn. case_bool_decide as Hb; [intros [? Hx]; discriminate Hx|].
    rewrite decide_False by congruence. apply (cw_messages _ Hc).
Qed.

(** [remove_session] is a detachment followed by the login clean-up. *)
Lemma remove_session_split v c :
  exists c', detached v c c' /\
    LogicalClientInstance_remove_session v c =
      ((HandleMap_remove v (session_handles c)).1,
       match session_slots c !! v with
       | Some slot => if holds_slot c' slot then c' else clear_slot_login slot c'
       | None => c'
       end).
Proof.
  unfold LogicalClientInstance_remove_session.
  change (session_handles (c <| session_slots ::= delete v |>)) with (session_handles c).
  destruct (HandleMap_remove v (session_handles c)) as [b hm] eqn:E.
  set (c0 := drop_message_operations v _).
  pose proof (evict_session_objects_frame v c0) as Hf. unfold same_but_objects in Hf.
  pose proof (evict_session_objects_spec v c0) as Hs.
  pose proof (evict_session_objects_delete v c0) as Hd.
  exists (evict_session_objects v c0). cbn [fst]. split; [|done].
  set (c1 := evict_session_objects v c0) in *. clearbody c1. destruct_and!.
  split; rewrite ?E; done.
Qed.

Lemma clear_slot_login_wf slot c :
  ctx_core c ->
  (forall s, s <> slot -> is_Some (login_state c !! s) -> exists v, session_slots c !! v = Some s) ->
  (forall s, s <> slot -> s ∈ contended_slot_login c -> exists v, session_slots c !! v = Some s) ->
  ctx_wf (clear_slot_login slot c).
Proof.
  intros Hc Hl Hk. split.
  - destruct Hc. by split.
  - cbn. intros s. rewrite lookup_delete. case_decide; [intros [? Hx]; discriminate Hx|by auto].
  - cbn. intros s. rewrite elem_of_difference, elem_of_singleton. naive_solver.
Qed.

(** A slot other than the detached session's keeps its sessions. *)
Lemma detached_other_slot v c c' s :
  detached v c c' -> session_slots c !! v <> Some s ->
  (exists x, session_slots c' !! x = Some s) <-> (exists x, session_slots c !! x = Some s).
Proof.
  intros Hd Hne. rewrite (dt_slots _ _ _ Hd). split; intros [x Hx]; exists x.
  - by apply lookup_delete_Some in Hx as [_ ?].
  - apply lookup_delete_Some. split; [congruence|done].
Qed.

Lemma clear_slot_login_core slot c : ctx_core c -> ctx_core (clear_slot_login slot c).
Proof. intros []. by split. Qed.

Lemma remove_session_core v c :
  ctx_core c -> ctx_core (LogicalClientInstance_remove_session v c).2.
Proof.
  intros Hc. destruct (remove_session_split v c) as (c' & Hd & ->). cbn [snd].
  pose proof (detached_core _ _ _ Hc Hd).
  destruct (session_slots c !! v) as [slot|]; [|done].
  destruct (holds_slot c' slot); [done|by apply clear_slot_login_core].
Qed.

Lemma remove_session_wf v c :
  ctx_wf c -> ctx_wf (LogicalClientInstance_remove_session v c).2.
Proof.
  intros Hwf. destruct (remove_session_split v c) as (c' & Hd & ->). cbn [snd].
  pose proof (detached_core _ _ _ (cw_core _ Hwf) Hd) as Hc'.
  assert (Hl : forall s, session_slots c !! v <> Some s -> is_Some (login_state c' !! s) ->
    exists x, session_slots c' !! x = Some s).
  { intros s Hne. rewrite (dt_login _ _ _ Hd), (detached_other_slot _ _ _ _ Hd Hne). apply Hwf. }
  assert (Hk : forall s, session_slots c !! v <> Some s -> s ∈ contended_slot_login c' ->
    exists x, session_slots c' !! x = Some s).
  { intros s Hne. rewrite (dt_contended _ _ _ Hd), (detached_other_slot _ _ _ _ Hd Hne). apply Hwf. }
  destruct (session_slots c !! v) as [slot|] eqn:Ev; [destruct (holds_slot c' slot) eqn:Eh|].
  - apply holds_slot_true in Eh. split; [done|..]; intros s Hs;
      (destruct (decide (s = slot)) as [->|]; [done|]); [apply Hl|apply Hk]; congruence.
  - apply clear_slot_login_wf; [done|..]; intros s Hne Hs; [apply Hl|apply Hk]; congruence.
  - split; [done|..]; intros s Hs; [by apply Hl|by apply Hk].
Qed.

(** ** The slot-wide removal *)

Section remove_slot.
Context `{HI : HashIter}.

Lemma remove_slot_fold vs bhs c :
  ctx_core c -> NoDup vs ->
  exists bhs' c', foldl (fun acc vh => remove_slot_session vh acc) (bhs, c) vs = (bhs', c') /\
    ctx_core c' /\
    bhs' = bhs ++ omap (owner (session_handles c)) vs /\
    (forall v, session_slots c' !! v = if decide (v ∈ vs) then None else session_slots c !! v) /\
    (forall v, owner (session_handles c') v =
               if decide (v ∈ vs) then None else owner (session_handles c) v) /\
    login_state c' = login_state c /\ contended_slot_login c' = contended_slot_login c /\
    (forall v o, v ∈ vs -> o ∈ default [] (session_objects c !! v) -> object_absent c' o) /\
    (forall o, object_absent c o -> object_absent c' o).
Proof.
  revert bhs c. induction vs as [|v vs IH]; intros bhs c Hc Hnd.
  { exists bhs, c. cbn. rewrite app_nil_r. split_and!; try done;
      try (intros v; case_decide; [set_solver|done]). set_solver. }
  apply NoDup_cons in Hnd as [Hv Hnd].
  destruct (remove_slot_session_detached v bhs c) as [Hd Hb].
  cbn [foldl]. destruct (remove_slot_session v (bhs, c)) as [bhs1 c1]. cbn [fst snd] in *.
  destruct (IH bhs1 c1 (detached_core _ _ _ Hc Hd) Hnd)
    as (bhs' & c' & -> & Hc' & -> & Hsl & How & Hlo & Hco & Habs & Hmono).
  destruct (owner_remove v (session_handles c) v (cw_sessions _ Hc)) as [_ Hrm].
  assert (Hown : forall x, owner (session_handles c1) x =
                           if decide (v = x) then None else owner (session_handles c) x).
  { intros x. rewrite (dt_handles _ _ _ Hd). apply (owner_remove v), Hc. }
  destruct (dt_objects _ _ _ Hd (cw_objects _ Hc)) as [_ Hobj].
  eexists _, c'. split; [done|]. split; [done|]. split_and!.
  - rewrite Hb, Hrm, <- app_assoc. f_equal. cbn.
    assert (omap (owner (session_handles c1)) vs = omap (owner (session_handles c)) vs) as ->;
      [|by destruct (owner (session_handles c) v)].
    clear -Hown Hv. induction vs as [|x vs IHv]; [done|]. cbn.
    rewrite Hown, decide_False by set_solver. rewrite IHv by set_solver. done.
  - intros x. rewrite Hsl, (dt_slots _ _ _ Hd), lookup_delete.
    repeat case_decide; subst; set_solver.
  - intros x. rewrite How, Hown. repeat case_decide; subst; set_solver.
  - by rewrite Hlo, (dt_login _ _ _ Hd).
  - by rewrite Hco, (dt_contended _ _ _ Hd).
  - intros x o [->|Hx]%elem_of_cons Ho.
    + apply Hmono. by destruct (Hobj o) as (? & _ & _); auto.
    + apply (Habs x); [done|]. rewrite (dt_session_objects _ _ _ Hd), lookup_delete_ne; [done|].
      congruence.
  - intros o Ho. apply Hmono. by destruct (Hobj o) as (_ & _ & ?); auto.
Qed.

Lemma slot_sessions_list slot c :
  let vs := (filter (fun kv => kv.2 = slot) (hiter (session_slots c))).*1 in
  NoDup vs /\ forall v, v ∈ vs <-> session_slots c !! v = Some slot.
Proof.
  intros vs. split.
  - eapply sublist_NoDup; [apply (hiter_NoDup_keys (session_slots c))|]. apply fmap_sublist, sublist_filter.
  - intros v. unfold vs. rewrite list_elem_of_fmap. split.
    + intros ([v' s] & -> & [Hs Hin]%list_elem_of_filter). cbn in *. subst.
      by apply elem_of_hiter in Hin.
    + intros Hv. exists (v, slot). split; [done|]. apply list_elem_of_filter.
      split; [done|]. by apply elem_of_hiter.
Qed.

Lemma remove_sessions_for_slot_core slot c :
  ctx_core c ->
  exists bhs c', LogicalClientInstance_remove_sessions_for_slot slot c = (bhs, c') /\
    ctx_core c' /\
    (forall b, b ∈ bhs <-> exists v, session_slots c !! v = Some slot /\
                                      owner (session_handles c) v = Some b) /\
    (forall v, session_slots c' !! v =
       if decide (session_slots c !! v = Some slot) then None else session_slots c !! v) /\
    (forall v, owner (session_handles c') v =
       if decide (session_slots c !! v = Some slot) then None else owner (session_handles c) v) /\
    login_state c' = delete slot (login_state c) /\
    contended_slot_login c' = contended_slot_login c ∖ {[ slot ]} /\
    (forall v o, session_slots c !! v = Some slot ->
       o ∈ default [] (session_objects c !! v) -> object_absent c' o).
Proof.
  intros Hc. unfold LogicalClientInstance_remove_sessions_for_slot.
  destruct (slot_sessions_list slot c) as [Hnd Hvs]. set (vs := _.*1) in *.
  destruct (remove_slot_fold vs [] c Hc Hnd)
    as (bhs & c1 & -> & Hc1 & -> & Hsl & How & Hlo & Hco & Habs & _).
  eexists _, _. split; [done|]. split; [by destruct Hc1|]. split_and!.
  - intros b. cbn. rewrite list_elem_of_omap. setoid_rewrite Hvs. done.
  - intros v. cbn. rewrite Hsl. repeat case_decide; naive_solver.
  - intros v. cbn. rewrite How. repeat case_decide; naive_solver.
  - cbn. by rewrite Hlo.
  - cbn. by rewrite Hco.
  - intros v o Hv Ho. by apply (Habs v o); [apply Hvs|].
Qed.

Lemma remove_sessions_for_slot_wf slot c :
  ctx_wf c -> ctx_wf (LogicalClientInstance_remove_sessions_for_slot slot c).2.
Proof.
  intros Hwf.
  destruct (remove_sessions_for_slot_core slot c (cw_core _ Hwf))
    as (bhs & c' & -> & Hc' & _ & Hsl & _ & Hlo & Hco & _).
  split; [done|..]; cbn [snd]; intros s.
  - rewrite Hlo, lookup_delete. case_decide as Hne; [intros [? Hx]; discriminate Hx|].
    intros [v Hv]%(cw_login _ Hwf). exists v. by rewrite Hsl, decide_False by congruence.
  - rewrite Hco, elem_of_difference, elem_of_singleton. intros [[v Hv]%(cw_contended _ Hwf) Hne].
    exists v. by rewrite Hsl, decide_False by congruence.
Qed.
End remove_slot.

(** ** Registration, suspension, teardown *)

(** The freshness a backend owes: an open session's handle is not handed out
    again while this client still maps it. *)
Definition backend_handle_fresh (b : BackendHandle) (c : LogicalClientInstance) : Prop :=
  backend_to_virtual (session_handles c) !! b = None.

Lemma register_session_fresh b c :
  ctx_core c -> backend_handle_fresh b c ->
  (HandleMap_insert b (session_handles c)).1 = VH (next_id (session_handles c)) /\
  session_slots c !! VH (next_id (session_handles c)) = None.
Proof.
  intros Hc Hfresh. split; [unfold HandleMap_insert; by rewrite Hfresh|].
  apply eq_None_not_Some. intros Hs%(cw_slots _ Hc). destruct Hs as [b' Hb'].
  apply owner_old in Hb'; [|apply Hc]. cbn in Hb'. lia.
Qed.

Lemma register_session_core b slot c :
  ctx_core c -> HandleMap_room (session_handles c) ->
  ctx_core (LogicalClientInstance_register_session b slot c).2.
Proof.
  intros Hc Hroom.
  pose proof (insert_wf b (session_handles c) (cw_sessions _ Hc) Hroom) as Hins.
  pose proof (fun v => owner_insert b (session_handles c) v (cw_sessions _ Hc) Hroom) as Hown.
  unfold LogicalClientInstance_register_session.
  destruct (HandleMap_insert b (session_handles c)) as [virt hm]. cbn [fst snd] in *.
  split; cbn.
  - done.
  - apply Hc.
  - intros v. rewrite lookup_insert, Hown. case_decide; [split; by eauto|]. apply (cw_slots _ Hc).
  - intros v op Hm%(cw_messages _ Hc). rewrite lookup_insert. case_decide; eauto.
Qed.

Lemma register_session_wf b slot c :
  ctx_wf c -> HandleMap_room (session_handles c) -> backend_handle_fresh b c ->
  ctx_wf (LogicalClientInstance_register_session b slot c).2.
Proof.
  intros Hwf Hroom Hfresh.
  destruct (register_session_fresh b c (cw_core _ Hwf) Hfresh) as [Hfst Hv].
  split; [by apply register_session_core, Hroom; apply Hwf|..];
    unfold LogicalClientInstance_register_session;
    destruct (HandleMap_insert b (session_handles c)) as [virt hm]; cbn [fst] in *; subst virt; cbn.
  - intros s [v Hs]%(cw_login _ Hwf). exists v. rewrite lookup_insert_ne; [done|congruence].
  - intros s [v Hs]%(cw_contended _ Hwf). exists v. rewrite lookup_insert_ne; [done|congruence].
Qed.

(** Suspending or reactivating a handle keeps every owner. *)
Lemma set_session_handles_core hm c :
  ctx_core c -> HandleMap_wf hm -> (forall v, owner hm v = owner (session_handles c) v) ->
  ctx_core (c <| session_handles := hm |>).
Proof.
  intros [] Hhm Hown. split; cbn; try done. intros v. by rewrite Hown.
Qed.

Lemma drop_message_operations_core v c : ctx_core c -> ctx_core (drop_message_operations v c).
Proof.
  intros [? ? ? Hm]. split; cbn; try done.
  intros v' op. rewrite lookup_map_drop. case_match; [intros [? Hx]; discriminate Hx|apply Hm].
Qed.

Lemma teardown_wf c : ctx_core c -> ctx_wf (LogicalClientInstance_teardown c).2.
Proof.
  intros [Hs Ho _ _]. split; [split|..]; cbn; intros *; rewrite ?lookup_empty.
  - by apply clear_wf.
  - by apply clear_wf.
  - unfold owner. cbn. by rewrite !lookup_empty.
  - intros [? Hx]; discriminate Hx.
  - intros [? Hx]; discriminate Hx.
  - set_solver.
Qed.

Lemma has_open_backend_sessions_spec c :
  ctx_core c -> has_open_backend_sessions c = true <-> exists v, is_Some (session_slots c !! v).
Proof.
  intros Hc. unfold has_open_backend_sessions.
  setoid_rewrite (cw_slots _ Hc). unfold is_Some.
  assert ((exists v b, owner (session_handles c) v = Some b) <->
          exists b, b ∈ elements (HandleMap_backend_handles (session_handles c))) as ->.
  { setoid_rewrite elem_of_elements.
    setoid_rewrite (elem_of_backend_handles _ _ (cw_sessions _ Hc)). naive_solver. }
  destruct (elements _) as [|b l]; split; try done; [set_solver|].
  intros _. exists b. set_solver.
Qed.

#[export] Hint Resolve LogicalClientInstance_new_wf remove_session_core
  clear_slot_login_core register_session_core drop_message_operations_core cw_core : proxy.

(** ** Bindings *)

(** Groups only ever go from live to dead. *)
Definition closes_over (h h' : gmap ConnRef ConnectionState) : Prop :=
  forall c, conn_live h' c = true -> conn_live h c = true.

Lemma prune_unobservable h h' ctx other :
  closes_over h h' ->
  is_transport_dead h' (prune_connections h ctx) = is_transport_dead h' ctx /\
  same_connection_as h' other (prune_connections h ctx) = same_connection_as h' other ctx /\
  live_connection_state h' (prune_connections h ctx) = live_connection_state h' ctx.
Proof.
  intros Hle.
  assert (live_connection_bindings h' (prune_connections h ctx) = live_connection_bindings h' ctx)
    as Heq.
  { unfold live_connection_bindings. cbn. destruct (connection_state ctx) as [es|]; [|done].
    cbn. f_equal. induction es as [|e es IH]; [done|]. rewrite !filter_cons.
    destruct (decide (conn_live h e = true)) as [Hl|Hl].
    - rewrite filter_cons. by rewrite IH.
    - rewrite IH. rewrite (decide_False (P := conn_live h' e = true)); [done|]. by intros ?%Hle. }
  unfold is_transport_dead, same_connection_as, live_connection_state. by rewrite Heq.
Qed.

Lemma is_transport_dead_spec h ctx :
  is_transport_dead h ctx = true <->
  exists es, connection_state ctx = Some es /\ forall c, c ∈ es -> conn_live h c = false.
Proof.
  unfold is_transport_dead, live_connection_bindings.
  destruct (connection_state ctx) as [es|]; [|naive_solver]. cbn.
  destruct (filter _ es) as [|c l] eqn:E.
  - split; [|done]. intros _. exists es. split; [done|]. intros c Hc.
    apply not_true_iff_false. intros Hl.
    assert (c ∈ filter (fun c => conn_live h c = true) es) by (by apply list_elem_of_filter).
    rewrite E in *. set_solver.
  - split; [done|]. intros (es' & [= <-] & Hd).
    assert (c ∈ filter (fun c => conn_live h c = true) es) as Hc by (rewrite E; set_solver).
    apply list_elem_of_filter in Hc as [Hl Hc]. rewrite (Hd c Hc) in Hl. done.
Qed.

(** ** Properties *)

(** Closing one session removes exactly that session: it answers the
    backend handle the session stood for (live or mid-close), every other
    session keeps its backend handle and slot, every session object of the
    closed session disappears from the handle map and from every per-object
    cache while all other objects are untouched, and the slot's login
    marker is cleared exactly when the client holds no further session on
    the slot; the client invariant is kept, and so is the property that
    every login marker is backed by a session. *)
Theorem remove_session_contract v c :
  ctx_core c ->
  let r := LogicalClientInstance_remove_session v c in
  ctx_core r.2 /\ (ctx_wf c -> ctx_wf r.2) /\ r.1 = owner (session_handles c) v /\
  (forall v', owner (session_handles r.2) v' =
     if decide (v = v') then None else owner (session_handles c) v') /\
  session_slots r.2 = delete v (session_slots c) /\
  (forall o, if decide (o ∈ default [] (session_objects c !! v))
             then object_absent r.2 o else object_same c r.2 o) /\
  (forall slot, session_slots c !! v = Some slot ->
     (forall v', v' <> v -> session_slots c !! v' <> Some slot) ->
     login_state r.2 = delete slot (login_state c)) /\
  (forall slot v', session_slots c !! v = Some slot -> v' <> v ->
     session_slots c !! v' = Some slot -> login_state r.2 = login_state c).
Proof.
  intros Hc r. split; [by apply remove_session_core|]. split; [apply remove_session_wf|].
  subst r. destruct (remove_session_split v c) as (c' & Hd & ->). cbn [fst snd].
  destruct (dt_objects _ _ _ Hd (cw_objects _ Hc)) as [_ Hobj].
  set (c2 := match session_slots c !! v with Some _ => _ | None => _ end).
  assert (Hsame : session_handles c2 = session_handles c' /\ session_slots c2 = session_slots c' /\
                  forall o, object_absent c2 o = object_absent c' o /\
                            object_same c c2 o = object_same c c' o).
  { unfold c2. destruct (session_slots c !! v); [destruct (holds_slot c' b)|]; done. }
  destruct Hsame as (Hsh & Hss & Hob). split; [|split; [|split; [|split; [|split]]]].
  - apply (owner_remove v (session_handles c) v), Hc.
  - intros v'. rewrite Hsh, (dt_handles _ _ _ Hd). apply (owner_remove v), Hc.
  - by rewrite Hss, (dt_slots _ _ _ Hd).
  - intros o. destruct (Hob o) as [-> ->]. destruct (Hobj o) as (H1 & H2 & _). case_decide; auto.
  - intros slot Hv Hlast. unfold c2. rewrite Hv.
    destruct (holds_slot c' slot) eqn:Eh; [|cbn; by rewrite (dt_login _ _ _ Hd)].
    apply holds_slot_true in Eh as [x Hx]. rewrite (dt_slots _ _ _ Hd) in Hx.
    apply lookup_delete_Some in Hx as [Hne Hx]. exfalso. by apply (Hlast x).
  - intros slot v' Hv Hne Hv'. unfold c2. rewrite Hv.
    destruct (holds_slot c' slot) eqn:Eh; [by rewrite (dt_login _ _ _ Hd)|].
    apply not_true_iff_false in Eh. destruct Eh. apply holds_slot_true. exists v'.
    rewrite (dt_slots _ _ _ Hd). by apply lookup_delete_Some.
Qed.

(** Closing all sessions of a slot, whatever order the session map is
    iterated in, answers exactly the backend handles of that slot's
    sessions, leaves no session, session object or login marker of the slot
    behind, and leaves the sessions and markers of every other slot alone. *)
Theorem remove_sessions_for_slot_contract `{HI : HashIter} slot c :
  ctx_core c ->
  let r := LogicalClientInstance_remove_sessions_for_slot slot c in
  ctx_core r.2 /\ (ctx_wf c -> ctx_wf r.2) /\
  (forall b, b ∈ r.1 <-> exists v, session_slots c !! v = Some slot /\
                                    owner (session_handles c) v = Some b) /\
  (forall v, session_slots c !! v = Some slot ->
     session_slots r.2 !! v = None /\ HandleMap_is_proven_gone v (session_handles r.2) = true) /\
  (forall v, session_slots c !! v <> Some slot ->
     session_slots r.2 !! v = session_slots c !! v /\
     owner (session_handles r.2) v = owner (session_handles c) v) /\
  (forall v o, session_slots c !! v = Some slot ->
     o ∈ default [] (session_objects c !! v) -> object_absent r.2 o) /\
  login_state r.2 = delete slot (login_state c) /\
  contended_slot_login r.2 = contended_slot_login c ∖ {[ slot ]}.
Proof.
  intros Hc r. pose proof (remove_sessions_for_slot_wf slot c) as Hw.
  destruct (remove_sessions_for_slot_core slot c Hc)
    as (bhs & c' & Hr & Hc' & Hb & Hsl & How & Hlo & Hco & Habs).
  subst r. rewrite Hr in *. cbn [fst snd] in *. split_and!; try done.
  - intros v Hv. specialize (Hsl v). specialize (How v). rewrite decide_True in Hsl by done.
    rewrite decide_True in How by done.
    split; [done|]. unfold HandleMap_is_proven_gone, HandleMap_resolve, HandleMap_suspended_backend.
    unfold owner in How. destruct (virtual_to_backend (session_handles c') !! v); [done|].
    rewrite How. done.
  - intros v Hv. by rewrite Hsl, How, !decide_False.
Qed.

(** The provider-side events of one message operation. *)
Inductive MessageEvent :=
| EvStarted
| EvSettled (result : CkResult unit) (successful : option MessageParameterShape)
| EvAmbiguous.

Definition message_event (t : MessageOperationTransition) (e : MessageEvent)
  : MessageOperationTransition :=
  match e with
  | EvStarted => MessageOperationTransition_mark_started t
  | EvSettled r s => MessageOperationTransition_settle r s t
  | EvAmbiguous => MessageOperationTransition_settle_ambiguous t
  end.

(** The shape the last settlement prescribes, if any event settled. *)
Definition settlement (saved : option MessageParameterShape) (es : list MessageEvent)
  : option (option MessageParameterShape) :=
  foldl (fun acc e =>
    match e with
    | EvStarted => acc
    | EvSettled (Ok _) s => Some s
    | EvSettled (Err rv) _ => Some (if rv_eqb rv Rv.DEVICE_ERROR then None else saved)
    | EvAmbiguous => Some None
    end) None es.

Definition was_started (es : list MessageEvent) : bool :=
  existsb (fun e => match e with EvStarted => true | _ => false end) es.

(** A message operation's parameter shape is hidden from the moment a
    transition begins; whatever the provider call does, the shape left
    behind when the transition is dropped is the one its settlement chose,
    the previous shape if the provider was never invoked, and no shape at
    all (fail closed) if it was invoked and never settled. *)
Theorem message_transition_outcome state es :
  shape (mt_state (MessageOperationTransition_begin state)) = None /\
  shape (MessageOperationTransition_drop
           (foldl message_event (MessageOperationTransition_begin state) es)) =
    match settlement (shape state) es with
    | Some s => s
    | None => if was_started es then None else shape state
    end.
Proof.
  split; [done|].
  enough (forall t, saved_shape t = shape state ->
    let t' := foldl message_event t es in
    shape (MessageOperationTransition_drop t') =
      match foldl (fun acc e => match e with
          | EvStarted => acc
          | EvSettled (Ok _) s => Some s
          | EvSettled (Err rv) _ => Some (if rv_eqb rv Rv.DEVICE_ERROR then None else shape state)
          | EvAmbiguous => Some None end)
        (if mt_settled t then Some (shape (mt_state t)) else None) es with
      | Some s => s
      | None => if mt_started t || was_started es then None else shape state
      end) as Hgen by apply (Hgen (MessageOperationTransition_begin state) eq_refl).
  induction es as [|e es IH]; intros t Ht; cbn.
  - unfold MessageOperationTransition_drop. destruct (mt_settled t); [done|].
    cbn. by rewrite orb_false_r, Ht.
  - rewrite (IH (message_event t e)) by (destruct e; done).
    destruct e as [|[]|]; cbn; rewrite ?Ht, ?orb_true_r; done.
Qed.

(** Using a context over a live connection binds it there: it is not
    transport-dead, no live binding is lost, and it dies only when every
    bound group is dead; a closed or missing connection changes nothing. *)
Theorem rebind_keeps_live_bindings h conn ctx :
  let ctx' := LogicalClientInstance_rebind_connection h conn ctx in
  (forall c, conn = Some c -> conn_live h c = true ->
     is_transport_dead h ctx' = false /\ same_connection_as h (Some c) ctx' = true) /\
  (forall c, conn_live h c = true -> same_connection_as h (Some c) ctx = true ->
     same_connection_as h (Some c) ctx' = true) /\
  (match conn with Some c => conn_live h c | None => false end = false -> ctx' = ctx).
Proof.
  cbn zeta. unfold LogicalClientInstance_rebind_connection.
  assert (Hsame : forall c x, conn_live h c = true ->
    same_connection_as h (Some c) x = true <->
    exists es, connection_state x = Some es /\ c ∈ es).
  { intros c x Hl. unfold same_connection_as, live_connection_bindings. rewrite Hl.
    destruct (connection_state x) as [es|]; cbn; rewrite bool_decide_eq_true.
    - rewrite list_elem_of_filter. naive_solver.
    - split; [set_solver|naive_solver]. }
  assert (Hdead : forall c x, conn_live h c = true -> same_connection_as h (Some c) x = true ->
    is_transport_dead h x = false).
  { intros c x Hl Hs. apply not_true_iff_false. rewrite is_transport_dead_spec.
    intros (es & Hes & Hd). apply Hsame in Hs as (es' & Hes' & Hin); [|done].
    rewrite Hes in Hes'. injection Hes' as <-. specialize (Hd _ Hin). congruence. }
  split; [|split].
  - intros c -> Hl. rewrite Hl.
    enough (forall x, (exists es, connection_state x = Some es /\ c ∈ es) ->
      is_transport_dead h x = false /\ same_connection_as h (Some c) x = true) as Hx.
    { apply Hx. destruct (connection_state ctx) as [es|]; cbn.
      - eexists. split; [done|]. case_bool_decide; [done|set_solver].
      - eexists. split; [done|set_solver]. }
    intros x Hx. apply Hsame in Hx; [|done]. split; [by eapply Hdead|done].
  - intros c Hl. rewrite !Hsame by done. intros (es & Hes & Hin).
    destruct conn as [s|]; [|eauto]. destruct (conn_live h s) eqn:Hls; [|eauto].
    rewrite Hes. cbn. eexists. split; [done|].
    assert (c ∈ filter (fun c => conn_live h c = true) es) by (by apply list_elem_of_filter).
    case_bool_decide; set_solver.
  - intros Hn. destruct conn; [by rewrite Hn|done].
Qed.

(** Two sessions on slot 5 and one on slot 6, a session object in the first. *)
Definition demo_slot (n : N) : BackendSlotId := BSlot (MkSlotId n).
Definition demo_context : LogicalClientInstance :=
  let c := LogicalClientInstance_new "ctx" 0 (Some "alice") in
  let c := (LogicalClientInstance_register_session (BH 71) (demo_slot 5) c).2 in
  let c := (LogicalClientInstance_register_session (BH 72) (demo_slot 5) c).2 in
  let c := (LogicalClientInstance_register_session (BH 73) (demo_slot 6) c).2 in
  let c := c <| object_handles ::= fun m => (HandleMap_insert (BH 900) m).2 |> in
  LogicalClientInstance_record_session_object (VH 1) (VH 1) c.

Lemma demo_context_wf : ctx_wf demo_context.
Proof.
  unfold demo_context. set (c := (LogicalClientInstance_register_session (BH 73) _ _).2).
  assert (ctx_wf c) as Hwf.
  { unfold c. repeat (apply register_session_wf; [|done..]). apply LogicalClientInstance_new_wf. }
  assert (object_handles c = HandleMap_new) as Ho by done.
  clearbody c. destruct Hwf as [[] Hl Hk]. split; [split|..]; cbn; try done.
  rewrite Ho. apply insert_wf; [apply HandleMap_new_wf|done].
Qed.

Lemma remove_session_contract_witness :
  ctx_wf demo_context /\
  (LogicalClientInstance_remove_session (VH 1) demo_context).1 = Some (BH 71) /\
  object_absent (LogicalClientInstance_remove_session (VH 1) demo_context).2 (VH 1).
Proof.
  split; [apply demo_context_wf|].
  pose proof (remove_session_contract (VH 1) demo_context (cw_core _ demo_context_wf)) as H.
  destruct H as (_ & _ & H1 & _ & _ & H2 & _). split; [exact H1|].
  specialize (H2 (VH 1)). rewrite decide_True in H2; [exact H2|vm_compute; left].
Defined.

Lemma remove_sessions_for_slot_contract_witness :
  (exists v, session_slots demo_context !! v = Some (demo_slot 5)) /\
  session_slots (LogicalClientInstance_remove_sessions_for_slot (HI := canonical_iter)
    (demo_slot 5) demo_context).2 !! VH 2 = None.
Proof.
  split; [exists (VH 1); reflexivity|].
  pose proof (remove_sessions_for_slot_contract (HI := canonical_iter) (demo_slot 5)
    demo_context (cw_core _ demo_context_wf)) as H.
  destruct H as (_ & _ & _ & H & _). apply (H (VH 2)). reflexivity.
Defined.
