(* ===== verification/Manager.v ===== *)
(** * The context manager: [ContextManager]

    Models [crates/server/src/server/context_manager.rs], the operations on
    the daemon-wide state: admission and its cap, lookup and lease renewal,
    in-flight guards, the login-holder index, session quotas, suspended
    session closes, the token-information and object-metadata caches, and
    reaping.  Each definition is one critical section; longer methods are
    compositions of them, so that their interleavings can be stated.

    [DashMap]s are [gmap]s visited in an arbitrary order ([HashIter]); clock
    readings and fresh identifiers are arguments; [h] is the heap of
    connection groups. *)

From S2P Require Import Prelude Ck HandleMap SlotMap Connection Context.
Open Scope N_scope.

(** ** Data *)

Record UnresolvedCarrierCleanup := MkCarrierCleanup {
  ucc_slot : BackendSlotId;
  ucc_session : N;
  ucc_rv : option CkRv;
}.

Record ContextManager := MkManager {
  contexts : gmap ClientContextId LogicalClientInstance;
  slot_map : SlotMap;
  lease_duration : N;
  max_contexts : N;
  max_context_lifetime : N;
  token_info_cache : gmap BackendSlotId (N * string * string);
  slot_login_holders : gmap BackendSlotId (gset ClientContextId);
  authz_generation : N;
  session_quota_reservations : gmap string N;
  carrier_cleanup_ledger : list UnresolvedCarrierCleanup;
  total_contexts_created : N;
  total_contexts_removed : N;
  context_admission_reservations : N;
}.

#[export] Instance ContextManager_eta : Eta ContextManager := fun m =>
  MkManager (contexts m) (slot_map m) (lease_duration m) (max_contexts m)
    (max_context_lifetime m) (token_info_cache m) (slot_login_holders m)
    (authz_generation m) (session_quota_reservations m) (carrier_cleanup_ledger m)
    (total_contexts_created m) (total_contexts_removed m) (context_admission_reservations m).

(** Durations in nanoseconds. *)
Definition TOKEN_INFO_CACHE_TTL : N := 5000000000.
Definition MAX_CONTEXT_LIFETIME : N := 86400000000000.

Definition ContextManager_new (lease : N) (max : N) : ContextManager :=
  MkManager ∅ SlotMap_new lease max MAX_CONTEXT_LIFETIME ∅ ∅ 0 ∅ [] 0 0 0.

Definition new_with_max_context_lifetime (lease max lifetime : N) : ContextManager :=
  ContextManager_new lease max <| max_context_lifetime := lifetime |>.

Inductive RemoveIfIdleOutcome :=
| Removed (ctx : LogicalClientInstance)
| Busy
| Missing.

(** ** Access *)

(** [get_context]: touch the lease and run the closure on the context. *)
Definition get_context {R} (now : N) (cid : ClientContextId)
    (f : LogicalClientInstance -> R * LogicalClientInstance) (m : ContextManager)
  : option R * ContextManager :=
  match contexts m !! cid with
  | None => (None, m)
  | Some ctx =>
      let '(r, ctx) := f (LogicalClientInstance_touch now ctx) in
      (Some r, m <| contexts ::= <[cid := ctx]> |>)
  end.

Definition context_count (m : ContextManager) : N := N.of_nat (size (contexts m)).
Definition context_ids (m : ContextManager) : gset ClientContextId := dom (contexts m).
Definition context_identity (cid : ClientContextId) (m : ContextManager) : option string :=
  ctx ← contexts m !! cid; authenticated_identity ctx.

Definition rebind_context_connection (h : gmap ConnRef ConnectionState)
    (cid : ClientContextId) (connection : option ConnRef) (m : ContextManager) : ContextManager :=
  match connection with
  | Some state =>
      if conn_live h state
      then m <| contexts ::= alter (LogicalClientInstance_rebind_connection h (Some state)) cid |>
      else m
  | None => m
  end.

(** ** Login-holder index *)

Definition note_login_acquired (cid : ClientContextId) (slot : BackendSlotId)
    (m : ContextManager) : ContextManager :=
  m <| slot_login_holders ::=
       partial_alter (fun o => Some (default ∅ o ∪ {[ cid ]})) slot |>.

Definition note_login_released (cid : ClientContextId) (slot : BackendSlotId)
    (m : ContextManager) : ContextManager :=
  m <| slot_login_holders ::= fun hs =>
       partial_alter (fun o =>
         match o with
         | Some holders =>
             let holders := holders ∖ {[ cid ]} in
             if bool_decide (holders = ∅) then None else Some holders
         | None => None
         end) slot hs |>.

Definition note_logins_released (cid : ClientContextId) (slots : list BackendSlotId)
    (m : ContextManager) : ContextManager :=
  foldl (fun m slot => note_login_released cid slot m) m slots.

Definition login_slots (ctx : LogicalClientInstance) : list BackendSlotId :=
  (map_to_list (login_state ctx)).*1.

Definition slot_login_holder_ids (slot : BackendSlotId) (m : ContextManager)
  : option (list ClientContextId) := elements <$> slot_login_holders m !! slot.

(** The scan of the indexed fast path: the first live holder other than the
    excluded one, with the stale ids met before it. *)
Fixpoint scan_holders (slot : BackendSlotId) (excluded_id : ClientContextId)
    (m : ContextManager) (candidates : list ClientContextId) (stale : list ClientContextId)
  : LoginState + list ClientContextId :=
  match candidates with
  | [] => inr stale
  | cid :: rest =>
      match ctx ← contexts m !! cid; login_state ctx !! slot with
      | Some state =>
          if bool_decide (cid <> excluded_id) then inl state
          else scan_holders slot excluded_id m rest stale
      | None => scan_holders slot excluded_id m rest (stale ++ [cid])
      end
  end.

Definition first_login_state_for_slot_excluding (slot : BackendSlotId)
    (excluded_id : ClientContextId) (m : ContextManager) : option LoginState * ContextManager :=
  match slot_login_holder_ids slot m with
  | None => (None, m)
  | Some candidates =>
      match scan_holders slot excluded_id m candidates [] with
      | inl state => (Some state, m)
      | inr stale => (None, foldl (fun m cid => note_login_released cid slot m) m stale)
      end
  end.

Definition first_login_state_for_slot_excluding_authoritative `{HI : HashIter}
    (slot : BackendSlotId) (excluded_id : ClientContextId) (m : ContextManager)
  : option LoginState :=
  find_map (fun kv => if bool_decide (kv.1 = excluded_id) then None
                      else login_state kv.2 !! slot) (hiter (contexts m)).

Definition any_login_state_for_slot (slot : BackendSlotId) (m : ContextManager) : bool :=
  map_any (fun _ ctx => bool_decide (is_Some (login_state ctx !! slot))) (contexts m).

Definition other_login_state_for_slot (slot : BackendSlotId) (exclude : ClientContextId)
    (m : ContextManager) : bool :=
  map_any (fun cid ctx => bool_decide (cid <> exclude) &&
                          bool_decide (is_Some (login_state ctx !! slot))) (contexts m).

Definition backend_session_referenced_by_live_context (handle : BackendHandle)
    (m : ContextManager) : bool :=
  map_any (fun _ ctx => HandleMap_references_backend handle (session_handles ctx)) (contexts m).

Definition any_active_backend_session_for_slot `{HI : HashIter} (slot : BackendSlotId)
    (m : ContextManager) : option N :=
  find_map (fun kv =>
    let ctx : LogicalClientInstance := kv.2 in
    match list_find (fun vs => vs.2 = slot) (hiter (session_slots ctx)) with
    | Some (_, (vh, _)) => bh_raw <$> HandleMap_resolve vh (session_handles ctx)
    | None => None
    end) (hiter (contexts m)).

(** ** Reaping *)

Definition is_reapable (h : gmap ConnRef ConnectionState) (m : ContextManager)
    (ctx : LogicalClientInstance) (now : N) : bool :=
  if negb (in_flight ctx =? 0)%Z then false
  else if is_transport_dead h ctx then true
  else (lease_duration m <? duration_since now (last_active ctx)) &&
       (negb (has_open_backend_sessions ctx) ||
        (max_context_lifetime m <? duration_since now (created_at ctx))).

(** [DashMap::remove_if]: the predicate and the removal under one lock. *)
Definition remove_context_when (p : LogicalClientInstance -> bool) (cid : ClientContextId)
    (m : ContextManager) : option LogicalClientInstance * ContextManager :=
  match contexts m !! cid with
  | Some ctx =>
      if p ctx then (Some ctx, m <| contexts ::= delete cid |>) else (None, m)
  | None => (None, m)
  end.

Definition collect_expired_context_ids `{HI : HashIter} (h : gmap ConnRef ConnectionState)
    (now : N) (m : ContextManager) : list ClientContextId :=
  (filter (fun kv => is_reapable h m kv.2 now = true) (hiter (contexts m))).*1.

(** One iteration of the admission-time reclaim. *)
Definition evict_sessionless_candidate (h : gmap ConnRef ConnectionState) (now : N)
    (m : ContextManager) (cid : ClientContextId) : ContextManager :=
  match remove_context_when
          (fun ctx => is_reapable h m ctx now && negb (has_open_backend_sessions ctx)) cid m with
  | (Some ctx, m) =>
      note_logins_released cid (login_slots ctx) m <| total_contexts_removed ::= N.succ |>
  | (None, m) => m
  end.

Definition evict_expired_sessionless_for_admission `{HI : HashIter}
    (h : gmap ConnRef ConnectionState) (now : N) (m : ContextManager) : ContextManager :=
  let expired :=
    (filter (fun kv => is_reapable h m kv.2 now && negb (has_open_backend_sessions kv.2) = true)
       (hiter (contexts m))).*1 in
  foldl (evict_sessionless_candidate h now) m expired.

(** ** Admission *)

Definition at_cap (m : ContextManager) : bool :=
  (0 <? max_contexts m) &&
  (max_contexts m <=? context_count m + context_admission_reservations m).

(** [try_reserve_context]: [true] when a reservation was granted. *)
Definition try_reserve_context `{HI : HashIter} (h : gmap ConnRef ConnectionState) (now : N)
    (m : ContextManager) : bool * ContextManager :=
  let m := if at_cap m then evict_expired_sessionless_for_admission h now m else m in
  if at_cap m then (false, m)
  else (true, if 0 <? max_contexts m
              then m <| context_admission_reservations ::= N.succ |> else m).

(** [Drop for ContextAdmissionReservation]. *)
Definition release_context_reservation (m : ContextManager) : ContextManager :=
  m <| context_admission_reservations ::= N.pred |>.

(** The insertion between reserve and release. *)
Definition admit_context (fresh_id : ClientContextId) (now : N) (identity : option string)
    (connection : option ConnRef) (m : ContextManager) : ContextManager :=
  m <| contexts ::=
       <[fresh_id := LogicalClientInstance_new_with_connection fresh_id now identity connection]> |>
    <| total_contexts_created ::= N.succ |>.

Definition create_context_with_connection `{HI : HashIter} (h : gmap ConnRef ConnectionState)
    (fresh_id : ClientContextId) (now : N) (identity : option string)
    (connection : option ConnRef) (m : ContextManager)
  : CkResult ClientContextId * ContextManager :=
  match try_reserve_context h now m with
  | (false, m) => (Err Rv.HOST_MEMORY, m)
  | (true, m) =>
      (Ok fresh_id, release_context_reservation (admit_context fresh_id now identity connection m))
  end.

Definition create_context `{HI : HashIter} (h : gmap ConnRef ConnectionState)
    (fresh_id : ClientContextId) (now : N) (identity : option string) (m : ContextManager)
  : CkResult ClientContextId * ContextManager :=
  create_context_with_connection h fresh_id now identity None m.

Definition remove_context_if_replaceable (h : gmap ConnRef ConnectionState)
    (cid : ClientContextId) (request_connection : option ConnRef) (m : ContextManager)
  : RemoveIfIdleOutcome * ContextManager :=
  match remove_context_when
          (fun ctx => (in_flight ctx <=? 0)%Z &&
                      (is_transport_dead h ctx || same_connection_as h request_connection ctx))
          cid m with
  | (Some ctx, m) => (Removed ctx, m <| total_contexts_removed ::= N.succ |>)
  | (None, m) => (if bool_decide (is_Some (contexts m !! cid)) then Busy else Missing, m)
  end.

(** The loop over the same-identity candidates, stopping at the first one
    that could be removed. *)
Fixpoint replace_first (h : gmap ConnRef ConnectionState) (connection : option ConnRef)
    (candidates : list ClientContextId) (m : ContextManager)
  : option LogicalClientInstance * ContextManager :=
  match candidates with
  | [] => (None, m)
  | cid :: rest =>
      match remove_context_if_replaceable h cid connection m with
      | (Removed ctx, m) => (Some ctx, m)
      | (_, m) => replace_first h connection rest m
      end
  end.

Definition same_identity_candidates `{HI : HashIter} (want : string) (m : ContextManager)
  : list ClientContextId :=
  (filter (fun kv => authenticated_identity kv.2 = Some want) (hiter (contexts m))).*1.

Definition create_context_replacing_idle_same_identity_on_connection `{HI : HashIter}
    (h : gmap ConnRef ConnectionState) (fresh_id : ClientContextId) (now : N)
    (identity : option string) (connection : option ConnRef) (m : ContextManager)
  : CkResult (ClientContextId * option LogicalClientInstance) * ContextManager :=
  let m := if at_cap m then evict_expired_sessionless_for_admission h now m else m in
  if at_cap m then
    let '(replaced, m) :=
      match identity with
      | Some want => replace_first h connection (same_identity_candidates want m) m
      | None => (None, m)
      end in
    if match replaced with Some _ => false | None => at_cap m end
    then (Err Rv.HOST_MEMORY, m)
    else (Ok (fresh_id, replaced), admit_context fresh_id now identity connection m)
  else (Ok (fresh_id, None), admit_context fresh_id now identity connection m).

Definition create_context_replacing_idle_same_identity `{HI : HashIter}
    (h : gmap ConnRef ConnectionState) (fresh_id : ClientContextId) (now : N)
    (identity : option string) (m : ContextManager)
  : CkResult (ClientContextId * option LogicalClientInstance) * ContextManager :=
  create_context_replacing_idle_same_identity_on_connection h fresh_id now identity None m.

(** ** Removal *)

Definition remove_context (cid : ClientContextId) (m : ContextManager)
  : option LogicalClientInstance * ContextManager :=
  match remove_context_when (fun _ => true) cid m with
  | (Some ctx, m) =>
      (Some ctx, note_logins_released cid (login_slots ctx) m
                   <| total_contexts_removed ::= N.succ |>)
  | (None, m) => (None, m)
  end.

Definition remove_context_if_idle (cid : ClientContextId) (own_guards : Z) (m : ContextManager)
  : RemoveIfIdleOutcome * ContextManager :=
  match remove_context_when (fun ctx => (in_flight ctx <=? own_guards)%Z) cid m with
  | (Some ctx, m) => (Removed ctx, m <| total_contexts_removed ::= N.succ |>)
  | (None, m) => (if bool_decide (is_Some (contexts m !! cid)) then Busy else Missing, m)
  end.

(** ** In-flight guards *)

(** A guard names the context whose counter it holds. *)
Abbreviation OperationGuard := ClientContextId.

Definition begin_operation (cid : ClientContextId) (m : ContextManager)
  : option OperationGuard * ContextManager :=
  match contexts m !! cid with
  | None => (None, m)
  | Some ctx => (Some cid, m <| contexts ::= <[cid := ctx <| in_flight ::= Z.succ |>]> |>)
  end.

(** [begin_operation_capped]: the compare-and-swap loop reserves exactly one
    slot from the value it read. *)
Definition begin_operation_capped (cid : ClientContextId) (max_in_flight : Z) (m : ContextManager)
  : Result (option OperationGuard) unit * ContextManager :=
  match contexts m !! cid with
  | None => (Ok None, m)
  | Some ctx =>
      if (0 <? max_in_flight)%Z && (max_in_flight <=? in_flight ctx)%Z then (Err tt, m)
      else (Ok (Some cid), m <| contexts ::= <[cid := ctx <| in_flight ::= Z.succ |>]> |>)
  end.

(** [Drop for OperationGuardInner]: touch, then decrement, under the lock. *)
Definition OperationGuard_drop (now : N) (g : OperationGuard) (m : ContextManager)
  : ContextManager :=
  m <| contexts ::=
       alter (fun ctx => LogicalClientInstance_touch now ctx <| in_flight ::= Z.pred |>) g |>.

(** ** Session quota *)

Definition principal_matches (principal_key : string) (cid : ClientContextId)
    (ctx : LogicalClientInstance) : bool :=
  bool_decide (authenticated_identity ctx = Some principal_key) ||
  bool_decide (last_peer_ip ctx = Some principal_key) ||
  bool_decide (cid = principal_key).

Definition session_count_for_principal (principal_key : string) (m : ContextManager) : N :=
  N.of_nat (map_sum (fun cid ctx =>
    if principal_matches principal_key cid ctx then size (session_slots ctx) else 0%nat)
    (contexts m)).

Definition outstanding_reservations (principal_key : string) (m : ContextManager) : N :=
  default 0 (session_quota_reservations m !! principal_key).

Definition try_reserve_session_for_principal (principal_key : string) (max : N)
    (m : ContextManager) : bool * ContextManager :=
  let live := session_count_for_principal principal_key m in
  let outstanding := outstanding_reservations principal_key m in
  if max <=? live + outstanding then (false, m)
  else (true, m <| session_quota_reservations ::= <[principal_key := outstanding + 1]> |>).

(** [Drop for SessionQuotaReservation]. *)
Definition release_session_reservation (principal_key : string) (m : ContextManager)
  : ContextManager :=
  m <| session_quota_reservations ::=
       partial_alter (fun o =>
         match o with
         | Some count => let count := N.pred count in
                         if count =? 0 then None else Some count
         | None => None
         end) principal_key |>.

(** ** Suspended session closes *)

Inductive CloseSessionBeginError := ContextMissing | SessionMissing.
Inductive CloseSessionCompletion := Terminal | Transient | Ambiguous.
#[export] Instance CloseSessionCompletion_eq_dec : EqDecision CloseSessionCompletion.
Proof. solve_decision. Defined.

Record CloseSessionTransition := MkCloseTransition {
  ct_context_id : ClientContextId;
  ct_virtual_session : VirtualHandle;
  ct_backend_handle : BackendHandle;
  ct_guard : OperationGuard;
  ct_guard_owned : bool;
  ct_started : bool;
  ct_settled : bool;
}.
#[export] Instance CloseSessionTransition_eta : Eta CloseSessionTransition := fun t =>
  MkCloseTransition (ct_context_id t) (ct_virtual_session t) (ct_backend_handle t)
    (ct_guard t) (ct_guard_owned t) (ct_started t) (ct_settled t).

(** An inherited guard, a clone of the dispatch's own, is used when it
    belongs to this context; a guard taken here is owned by the transition
    and dropped again if the session is missing ([now] is that drop's
    clock). *)
Definition begin_close_session_with_guard (now : N) (cid : ClientContextId)
    (virtual_session : VirtualHandle) (inherited_guard : option OperationGuard)
    (m : ContextManager)
  : Result CloseSessionTransition CloseSessionBeginError * ContextManager :=
  let inherited :=
    match inherited_guard with Some g => bool_decide (g = cid) | None => false end in
  let '(guard, m) := if inherited then (Some cid, m) else begin_operation cid m in
  match guard with
  | None => (Err ContextMissing, m)
  | Some g =>
      let release m := if inherited then m else OperationGuard_drop now g m in
      match contexts m !! cid with
      | None => (Err ContextMissing, release m)
      | Some ctx =>
          match HandleMap_suspend virtual_session (session_handles ctx) with
          | (None, _) => (Err SessionMissing, release m)
          | (Some backend_handle, hm) =>
              (Ok (MkCloseTransition cid virtual_session backend_handle g (negb inherited)
                     false false),
               m <| contexts ::= <[cid := ctx <| session_handles := hm |>]> |>)
          end
      end
  end.

Definition complete_close_session (cid : ClientContextId) (virtual_session : VirtualHandle)
    (expected_backend : BackendHandle) (completion : CloseSessionCompletion)
    (m : ContextManager) : ContextManager :=
  match contexts m !! cid with
  | None => m
  | Some context =>
      if negb (bool_decide (HandleMap_suspended_backend virtual_session (session_handles context)
                            = Some expected_backend))
      then m
      else
        match completion with
        | Terminal =>
            let slot := session_slots context !! virtual_session in
            let context := (LogicalClientInstance_remove_session virtual_session context).2 in
            let m := m <| contexts ::= <[cid := context]> |> in
            match slot with
            | Some slot => if holds_slot context slot then m else note_login_released cid slot m
            | None => m
            end
        | Transient =>
            match HandleMap_reactivate_suspended virtual_session expected_backend
                    (session_handles context) with
            | (true, hm) => m <| contexts ::= <[cid := context <| session_handles := hm |>]> |>
            | (false, _) =>
                m <| contexts ::= <[cid := drop_message_operations virtual_session context]> |>
            end
        | Ambiguous =>
            m <| contexts ::= <[cid := drop_message_operations virtual_session context]> |>
        end
  end.

Definition close_completion (result : CkResult unit) : CloseSessionCompletion :=
  match result with
  | Ok _ => Terminal
  | Err error =>
      if rv_eqb error Rv.SESSION_CLOSED || rv_eqb error Rv.SESSION_HANDLE_INVALID then Terminal
      else if rv_eqb error Rv.DEVICE_ERROR then Ambiguous
      else Transient
  end.

Definition CloseSessionTransition_mark_started (t : CloseSessionTransition)
  : CloseSessionTransition := t <| ct_started := true |>.

Definition CloseSessionTransition_settle (result : CkResult unit) (t : CloseSessionTransition)
    (m : ContextManager) : CloseSessionTransition * ContextManager :=
  (t <| ct_settled := true |>,
   complete_close_session (ct_context_id t) (ct_virtual_session t) (ct_backend_handle t)
     (close_completion result) m).

(** [Drop], then the drop of the operation guard the transition owns. *)
Definition CloseSessionTransition_drop (now : N) (t : CloseSessionTransition)
    (m : ContextManager) : ContextManager :=
  let m :=
    if ct_settled t then m
    else complete_close_session (ct_context_id t) (ct_virtual_session t) (ct_backend_handle t)
           (if ct_started t then Ambiguous else Transient) m in
  if ct_guard_owned t then OperationGuard_drop now (ct_guard t) m else m.

(** ** Caches *)

Definition revoke_authz_generation (m : ContextManager) : ContextManager :=
  m <| authz_generation ::= fun g => wrapping_add64 g 1 |>.

(** The destroy hook of one context: the eviction and the tombstone. *)
Definition evict_backend_object (backend_object : BackendHandle) (ctx : LogicalClientInstance)
  : LogicalClientInstance :=
  match HandleMap_resolve_backend backend_object (object_handles ctx) with
  | None => ctx
  | Some virtual_object =>
      evict_object virtual_object
        (ctx <| destroyed_objects ::= fun s => s ∪ {[ virtual_object ]} |>)
  end.

Definition evict_backend_object_everywhere (backend_object : BackendHandle)
    (m : ContextManager) : ContextManager :=
  m <| contexts ::= fmap (evict_backend_object backend_object) |>.

Definition manager_object_metadata (now : N) (cid : ClientContextId) (virtual_object : N)
    (m : ContextManager) : option ObjectMetadata * ContextManager :=
  let current := authz_generation m in
  let '(r, m) :=
    get_context now cid (fun ctx =>
      let vh := VH virtual_object in
      match object_metadata ctx !! vh with
      | Some meta => (Some meta, ctx)
      | None =>
          match token_object_metadata ctx !! vh with
          | Some gated =>
              if generation gated =? current then (Some (meta gated), ctx)
              else (None, ctx <| token_object_metadata ::= delete vh |>)
          | None => (None, ctx)
          end
      end) m in
  (mjoin r, m).

Definition cache_object_metadata (now : N) (cid : ClientContextId) (virtual_object : N)
    (md : ObjectMetadata) (m : ContextManager) : ContextManager :=
  if is_token md then
    let current := authz_generation m in
    (get_context now cid (fun ctx =>
       (tt, ctx <| token_object_metadata ::= <[VH virtual_object := MkGated current md]> |>)) m).2
  else
    (get_context now cid (fun ctx =>
       (tt, ctx <| object_metadata ::= <[VH virtual_object := md]> |>)) m).2.

Definition attr_cache_get (now : N) (cid : ClientContextId) (object : N)
    (attr : CkAttributeType) (m : ContextManager) : option CachedAttr * ContextManager :=
  let '(r, m) := get_context now cid (fun ctx => (attr_cache ctx !! (VH object, attr), ctx)) m in
  (mjoin r, m).

Definition attr_cache_put (now : N) (cid : ClientContextId) (object : N)
    (attr : CkAttributeType) (entry : CachedAttr) (m : ContextManager) : ContextManager :=
  (get_context now cid (fun ctx =>
     (tt, ctx <| attr_cache ::= <[(VH object, attr) := entry]> |>)) m).2.

Definition attr_cache_invalidate_object (now : N) (cid : ClientContextId) (object : N)
    (m : ContextManager) : ContextManager :=
  (get_context now cid (fun ctx =>
     (tt, ctx <| attr_cache ::= map_drop (fun k => bool_decide (k.1 = VH object)) |>)) m).2.

Definition attr_cache_clear (now : N) (cid : ClientContextId) (m : ContextManager)
  : ContextManager :=
  (get_context now cid (fun ctx => (tt, ctx <| attr_cache := ∅ |>)) m).2.

Definition object_was_created_here (now : N) (cid : ClientContextId) (virtual_object : N)
    (m : ContextManager) : bool * ContextManager :=
  let '(r, m) := get_context now cid (fun ctx =>
    (bool_decide (VH virtual_object ∈ created_objects ctx), ctx)) m in
  (default false r, m).

Definition mint_recorded_private (now : N) (cid : ClientContextId)
    (backend_object : CkObjectHandle) (m : ContextManager) : option bool * ContextManager :=
  let '(r, m) := get_context now cid (fun ctx =>
    (virtual_object ← HandleMap_resolve_backend (BH (object_raw backend_object)) (object_handles ctx);
     object_private ctx !! virtual_object, ctx)) m in
  (mjoin r, m).

Definition slot_for_session (now : N) (cid : ClientContextId) (virtual_session : VirtualHandle)
    (m : ContextManager) : option BackendSlotId * ContextManager :=
  let '(r, m) := get_context now cid (fun ctx => (session_slots ctx !! virtual_session, ctx)) m in
  (mjoin r, m).

Definition sole_session_holder_for_session (now : N) (exclude : ClientContextId)
    (virtual_session : N) (m : ContextManager) : bool * ContextManager :=
  match slot_for_session now exclude (VH virtual_session) m with
  | (None, m) => (false, m)
  | (Some slot, m) =>
      (negb (map_any (fun cid ctx => bool_decide (cid <> exclude) && holds_slot ctx slot)
               (contexts m)), m)
  end.

(** [message_operation_lock]: the cell of a live session, allocated at
    [fresh_ref] on first use. *)
Definition message_operation_lock (now : N) (cid : ClientContextId)
    (virtual_session : VirtualHandle) (operation : MessageOperation) (fresh_ref : MsgRef)
    (m : ContextManager) : CkResult MsgRef * ContextManager :=
  match get_context now cid (fun ctx =>
    match HandleMap_resolve virtual_session (session_handles ctx) with
    | None => (Err Rv.SESSION_HANDLE_INVALID, ctx)
    | Some _ =>
        match message_operations ctx !! (virtual_session, operation) with
        | Some cell => (Ok cell, ctx)
        | None =>
            (Ok fresh_ref,
             ctx <| message_operations ::= <[(virtual_session, operation) := fresh_ref]> |>)
        end
    end) m with
  | (Some result, m) => (result, m)
  | (None, m) => (Err Rv.CRYPTOKI_NOT_INITIALIZED, m)
  end.

(** ** Token information *)

Definition cached_token_info (now : N) (backend_slot : BackendSlotId) (m : ContextManager)
  : option (string * string) :=
  match token_info_cache m !! backend_slot with
  | Some (cached_at, label, serial) =>
      if duration_since now cached_at <? TOKEN_INFO_CACHE_TTL then Some (label, serial) else None
  | None => None
  end.

Definition cache_token_info (now : N) (backend_slot : BackendSlotId) (label serial : string)
    (m : ContextManager) : ContextManager :=
  m <| token_info_cache ::= <[backend_slot := (now, label, serial)]> |>.

Definition cache_token_info_if_generation (now : N) (backend_slot : BackendSlotId)
    (label serial : string) (gen : N) (m : ContextManager) : bool * ContextManager :=
  if negb (authz_generation m =? gen) then (false, m)
  else (true, cache_token_info now backend_slot label serial m).

Definition invalidate_token_info (backend_slot : BackendSlotId) (m : ContextManager)
  : ContextManager := m <| token_info_cache ::= delete backend_slot |>.

Definition invalidate_token_info_on_reinit (backend_slot : BackendSlotId) (m : ContextManager)
  : ContextManager := revoke_authz_generation (invalidate_token_info backend_slot m).

Definition populate_slots (slots : CkResult (list CkSlotId)) (m : ContextManager)
  : CkResult unit * ContextManager :=
  match slots with
  | Ok slots => (Ok tt, m <| slot_map ::= SlotMap_populate slots |>)
  | Err rv => (Err rv, m)
  end.

Definition register_slot (backend_slot : BackendSlotId) (m : ContextManager) : ContextManager :=
  invalidate_token_info backend_slot m <| slot_map ::= fun s => (SlotMap_register backend_slot s).2 |>.

Definition resolve_slot (virtual_slot : VirtualSlotId) (m : ContextManager)
  : option BackendSlotId := SlotMap_resolve virtual_slot (slot_map m).

(** ** Lemmas *)

Lemma get_context_present {R} now cid (f : LogicalClientInstance -> R * LogicalClientInstance) m c :
  contexts m !! cid = Some c ->
  get_context now cid f m =
    (Some (f (LogicalClientInstance_touch now c)).1,
     m <| contexts ::= <[cid := (f (LogicalClientInstance_touch now c)).2]> |>).
Proof. intros Hc. unfold get_context. rewrite Hc. by destruct (f _). Qed.

Lemma get_context_absent {R} now cid (f : LogicalClientInstance -> R * LogicalClientInstance) m :
  contexts m !! cid = None -> get_context now cid f m = (None, m).
Proof. intros Hc. unfold get_context. by rewrite Hc. Qed.
