(* ===== verification/Reach.v ===== *)
(** * Reachable daemon states

    The critical sections of the context manager interleave freely.  A
    [System] is the manager with the ghost state the invariants need: the
    in-flight guards alive per context, the admission reservations granted
    but not yet used, those used but not yet dropped, and the identifiers
    ever handed out.  [system_step] has one constructor per critical section
    of [context_manager.rs]; the invariant [System_wf] is proved by induction
    over reachability. *)

From S2P Require Import Prelude Ck HandleMap SlotMap Connection Context Manager.
Open Scope N_scope.

(** ** Steps of one context *)

(** What a handler does to the context it holds, under the shard lock: object
    handles are allocated and evicted one at a time; [cs_object_records] is any
    update of the other per-object maps (metadata, privacy, creation, session
    objects, cached attributes). *)
Inductive context_step (c : LogicalClientInstance) : LogicalClientInstance -> Prop :=
| cs_touch now : context_step c (LogicalClientInstance_touch now c)
| cs_register b slot : context_step c (LogicalClientInstance_register_session b slot c).2
| cs_remove_slot `{HI : HashIter} slot :
    context_step c (LogicalClientInstance_remove_sessions_for_slot slot c).2
| cs_record session object :
    context_step c (LogicalClientInstance_record_session_object session object c)
| cs_rebind h conn : context_step c (LogicalClientInstance_rebind_connection h conn c)
| cs_prune h : context_step c (prune_connections h c)
| cs_peer_ip ip : context_step c (c <| last_peer_ip := ip |>)
| cs_cell v op cell b :
    HandleMap_resolve v (session_handles c) = Some b ->
    context_step c (c <| message_operations ::= <[(v, op) := cell]> |>)
| cs_login slot st : context_step c (c <| login_state ::= <[slot := st]> |>)
| cs_contended slot :
    context_step c (c <| contended_slot_login ::= fun s => s ∪ {[ slot ]} |>)
| cs_logout slot : context_step c (clear_slot_login slot c)
| cs_object_insert b :
    context_step c (c <| object_handles ::= fun m => (HandleMap_insert b m).2 |>)
| cs_object_evict o : context_step c (evict_object o c)
| cs_object_records c' :
    same_but_objects c c' -> object_handles c' = object_handles c -> context_step c c'
| cs_destroyed o : context_step c (c <| destroyed_objects ::= fun s => s ∪ {[ o ]} |>).

(** What no handler step changes. *)
Definition context_frame (c c' : LogicalClientInstance) : Prop :=
  id c' = id c /\ created_at c' = created_at c /\ in_flight c' = in_flight c /\
  authenticated_identity c' = authenticated_identity c.

#[export] Instance context_frame_preorder : PreOrder context_frame.
Proof.
  split; [by repeat split|]. unfold context_frame. intros c1 c2 c3 H1 H2.
  destruct_and!. split_and!; congruence.
Qed.

Lemma evict_session_objects_ctx v c : context_frame c (evict_session_objects v c).
Proof.
  pose proof (evict_session_objects_frame v c) as Hf. unfold same_but_objects in Hf.
  destruct_and!. by split_and!.
Qed.

Lemma remove_session_frame v c :
  context_frame c (LogicalClientInstance_remove_session v c).2.
Proof.
  unfold LogicalClientInstance_remove_session. destruct (HandleMap_remove v _) as [b hm].
  cbn [snd]. set (c0 := drop_message_operations _ _).
  assert (context_frame c c0) as H0 by done.
  pose proof (evict_session_objects_ctx v c0) as H1.
  set (c1 := evict_session_objects v c0) in *. clearbody c0 c1.
  assert (context_frame c c1) as Hc by (by etransitivity).
  destruct (session_slots c !! v); [|done]. by destruct (holds_slot c1 b0).
Qed.

Lemma remove_slot_session_frame v acc : context_frame acc.2 (remove_slot_session v acc).2.
Proof.
  destruct acc as [bhs c]. unfold remove_slot_session. set (c0 := drop_message_operations _ _).
  assert (context_frame c c0) as H0 by done.
  pose proof (evict_session_objects_ctx v c0) as H1.
  set (c1 := evict_session_objects v c0) in *. clearbody c0 c1.
  destruct (HandleMap_remove v (session_handles c1)). cbn [snd]. by etransitivity.
Qed.

Lemma context_step_frame c c' : context_step c c' -> context_frame c c'.
Proof.
  intros []; try done.
  - unfold LogicalClientInstance_register_session. by destruct (HandleMap_insert _ _).
  - unfold LogicalClientInstance_remove_sessions_for_slot. set (vs := _.*1). clearbody vs.
    assert (forall acc, context_frame acc.2
      (foldl (fun acc vh => remove_slot_session vh acc) acc vs).2) as Hf.
    { induction vs as [|v vs IH]; intros acc; [done|]. cbn.
      etransitivity; [apply (remove_slot_session_frame v)|apply IH]. }
    specialize (Hf ([], c)). by destruct (foldl _ _ _).
  - unfold LogicalClientInstance_rebind_connection. by repeat case_match.
  - match goal with H : same_but_objects _ _ |- _ => unfold same_but_objects in H end.
    destruct_and!. by split_and!.
Qed.

Lemma context_step_core c c' :
  ctx_core c -> HandleMap_room (session_handles c) -> HandleMap_room (object_handles c) ->
  context_step c c' -> ctx_core c'.
Proof.
  intros Hc Hrs Hro Hs. pose proof Hc as [Hse Hob Hsl Hme].
  destruct Hs; eauto with proxy; try (by split).
  - destruct (remove_sessions_for_slot_core slot c Hc) as (bhs & c' & -> & ? & _). done.
  - unfold LogicalClientInstance_rebind_connection. repeat case_match; by split.
  - split; cbn; try done. intros v' op'. rewrite lookup_insert.
    case_decide as Hd; [|apply Hme]. injection Hd as -> ->. intros _. apply Hsl.
    unfold HandleMap_resolve in *. exists b. unfold owner. by rewrite H.
  - split; cbn; try done. by apply insert_wf.
  - split; cbn; try done. by apply remove_wf.
  - match goal with H : same_but_objects _ _ |- _ =>
      destruct H as (_ & _ & _ & Esh & Esl & _ & _ & _ & _ & _ & _ & _ & Eme) end.
    match goal with H : object_handles c' = _ |- _ => rename H into Eob end.
    by split; rewrite ?Esh, ?Esl, ?Eme, ?Eob.
Qed.

Lemma in_flight_core f c : ctx_core c -> ctx_core (c <| in_flight ::= f |>).
Proof. intros []. by split. Qed.

(** *** The allocators *)

Definition next_ids (c : LogicalClientInstance) : N * N := (next_id (session_handles c), next_id (object_handles c)).

Lemma evict_objects_ids os c : next_ids (evict_objects os c) = next_ids c.
Proof.
  revert c. induction os as [|o os IH]; intros c; [done|].
  change (evict_objects (o :: os) c) with (evict_objects os (evict_object o c)).
  rewrite IH. unfold next_ids. cbn. by rewrite next_id_remove.
Qed.

Lemma evict_session_objects_ids v c : next_ids (evict_session_objects v c) = next_ids c.
Proof. unfold evict_session_objects. destruct (session_objects c !! v); [|done]. by rewrite evict_objects_ids. Qed.

Lemma remove_session_ids v c : next_ids (LogicalClientInstance_remove_session v c).2 = next_ids c.
Proof.
  unfold LogicalClientInstance_remove_session. pose proof (next_id_remove v (session_handles c)) as Hr.
  change (session_handles (c <| session_slots ::= delete v |>)) with (session_handles c).
  destruct (HandleMap_remove v (session_handles c)) as [b hm]. cbn [snd] in *.
  match goal with |- context [evict_session_objects v ?c0] => set (c1 := c0) end.
  assert (next_ids c1 = next_ids c) as H1 by (unfold next_ids; cbn; by rewrite Hr).
  rewrite <- H1, <- (evict_session_objects_ids v c1). clearbody c1.
  destruct (session_slots c !! v); [|done]. by destruct (holds_slot _ _).
Qed.

Lemma remove_slot_session_ids v acc : next_ids (remove_slot_session v acc).2 = next_ids acc.2.
Proof.
  destruct acc as [bhs c]. unfold remove_slot_session.
  match goal with |- context [evict_session_objects v ?c0] => set (c1 := c0) end.
  transitivity (next_ids c1); [|done]. rewrite <- (evict_session_objects_ids v c1).
  pose proof (next_id_remove v (session_handles (evict_session_objects v c1))) as Hr.
  destruct (HandleMap_remove v _) as [b hm]. cbn [snd] in *. unfold next_ids. cbn. by rewrite Hr.
Qed.

Lemma insert_next_id b m : next_id (HandleMap_insert b m).2 <= next_id m + 1.
Proof.
  unfold HandleMap_insert. destruct (backend_to_virtual m !! b); cbn; [lia|]. unfold wrapping_add64. apply N.Div0.mod_le.
Qed.

(** A step allocates at most one identifier of each map. *)
Lemma context_step_ids c c' : context_step c c' ->
  next_id (session_handles c') <= next_id (session_handles c) + 1 /\ next_id (object_handles c') <= next_id (object_handles c) + 1.
Proof.
  intros Hs. destruct Hs; try (cbn; lia).
  - pose proof (insert_next_id b (session_handles c)). unfold LogicalClientInstance_register_session.
    destruct (HandleMap_insert _ _). cbn in *. lia.
  - unfold LogicalClientInstance_remove_sessions_for_slot. set (vs := _.*1). clearbody vs.
    assert (forall acc, next_ids (foldl (fun acc vh => remove_slot_session vh acc) acc vs).2 = next_ids acc.2) as Hf.
    { induction vs as [|v vs IH]; intros acc; [done|]. cbn. rewrite IH. apply remove_slot_session_ids. }
    specialize (Hf ([], c)). destruct (foldl _ _ _) as [bs c1]. unfold next_ids in Hf. cbn in *. injection Hf as -> ->. lia.
  - unfold LogicalClientInstance_rebind_connection. repeat case_match; cbn; lia.
  - pose proof (insert_next_id b (object_handles c)). cbn. lia.
  - cbn. rewrite next_id_remove. lia.
  - match goal with H : same_but_objects _ _ |- _ => unfold same_but_objects in H end. destruct_and!.
    match goal with H : session_handles c' = _ |- _ => rewrite H end.
    match goal with H : object_handles c' = _ |- _ => rewrite H end. lia.
Qed.

(** ** Steps of the daemon *)

Record System := MkSystem {
  sys_mgr : ContextManager;
  sys_guards : gmap ClientContextId N;
  sys_pending : N;
  sys_inserted : N;
  sys_used : gset ClientContextId;
}.
#[export] Instance System_eta : Eta System := fun s =>
  MkSystem (sys_mgr s) (sys_guards s) (sys_pending s) (sys_inserted s) (sys_used s).

Definition guards_of (s : System) (cid : ClientContextId) : N := default 0 (sys_guards s !! cid).

Definition add_guard (cid : ClientContextId) (s : System) : System :=
  s <| sys_guards ::= <[cid := guards_of s cid + 1]> |>.
Definition drop_guard (cid : ClientContextId) (s : System) : System :=
  s <| sys_guards ::= <[cid := guards_of s cid - 1]> |>.

Inductive system_step (s : System) : System -> Prop :=
| ss_context cid c c' :
    contexts (sys_mgr s) !! cid = Some c -> context_step c c' ->
    system_step s (s <| sys_mgr := sys_mgr s <| contexts ::= <[cid := c']> |> |>)
| ss_begin cid g m' :
    begin_operation cid (sys_mgr s) = (Some g, m') ->
    system_step s (add_guard cid (s <| sys_mgr := m' |>))
| ss_begin_capped cid max g m' :
    begin_operation_capped cid max (sys_mgr s) = (Ok (Some g), m') ->
    system_step s (add_guard cid (s <| sys_mgr := m' |>))
| ss_guard_drop now cid :
    0 < guards_of s cid ->
    system_step s (drop_guard cid (s <| sys_mgr ::= OperationGuard_drop now cid |>))
| ss_suspend cid c v :
    contexts (sys_mgr s) !! cid = Some c ->
    system_step s (s <| sys_mgr := sys_mgr s <| contexts ::=
      <[cid := c <| session_handles ::= fun hm => (HandleMap_suspend v hm).2 |>]> |> |>)
| ss_complete cid v b k :
    system_step s (s <| sys_mgr ::= complete_close_session cid v b k |>)
| ss_reserve `{HI : HashIter} h now m' :
    try_reserve_context h now (sys_mgr s) = (true, m') ->
    system_step s (s <| sys_mgr := m' |> <| sys_pending ::= N.succ |>)
| ss_refuse `{HI : HashIter} h now m' :
    try_reserve_context h now (sys_mgr s) = (false, m') ->
    system_step s (s <| sys_mgr := m' |>)
| ss_abandon :
    0 < sys_pending s ->
    system_step s (s <| sys_mgr ::= release_context_reservation |> <| sys_pending ::= N.pred |>)
| ss_insert cid now identity conn :
    0 < sys_pending s -> cid ∉ sys_used s ->
    system_step s (s <| sys_mgr ::= admit_context cid now identity conn |>
                     <| sys_pending ::= N.pred |> <| sys_inserted ::= N.succ |>
                     <| sys_used ::= fun u => u ∪ {[ cid ]} |>)
| ss_release :
    0 < sys_inserted s ->
    system_step s (s <| sys_mgr ::= release_context_reservation |> <| sys_inserted ::= N.pred |>)
| ss_replace `{HI : HashIter} h cid now identity conn r m' :
    cid ∉ sys_used s ->
    create_context_replacing_idle_same_identity_on_connection h cid now identity conn (sys_mgr s)
      = (r, m') ->
    system_step s (s <| sys_mgr := m' |> <| sys_used ::= fun u => u ∪ {[ cid ]} |>)
| ss_remove_idle cid own r m' :
    remove_context_if_idle cid own (sys_mgr s) = (r, m') ->
    system_step s (s <| sys_mgr := m' |>)
| ss_reap h now cid r m' :
    remove_context_when (fun c => is_reapable h (sys_mgr s) c now) cid (sys_mgr s) = (r, m') ->
    system_step s (s <| sys_mgr := m' |>)
| ss_evict_object b :
    system_step s (s <| sys_mgr ::= evict_backend_object_everywhere b |>)
| ss_aux m' :
    contexts m' = contexts (sys_mgr s) -> max_contexts m' = max_contexts (sys_mgr s) ->
    context_admission_reservations m' = context_admission_reservations (sys_mgr s) ->
    system_step s (s <| sys_mgr := m' |>).

Definition System_new (lease max : N) : System :=
  MkSystem (ContextManager_new lease max) ∅ 0 0 ∅.

Inductive system_reachable (lease max : N) : System -> Prop :=
| sr_new : system_reachable lease max (System_new lease max)
| sr_step s s' : system_reachable lease max s -> system_step s s' -> system_reachable lease max s'.

(** ** Invariant *)

Record System_wf (max : N) (s : System) : Prop := {
  sw_max : max_contexts (sys_mgr s) = max;
  sw_ctx : forall cid c, contexts (sys_mgr s) !! cid = Some c ->
    id c = cid /\ cid ∈ sys_used s /\ in_flight c = Z.of_N (guards_of s cid);
  sw_guards : forall cid, cid ∉ sys_used s -> guards_of s cid = 0;
  sw_reservations : 0 < max ->
    context_admission_reservations (sys_mgr s) = sys_pending s + sys_inserted s;
  sw_cap : 0 < max -> context_count (sys_mgr s) + sys_pending s <= max;
}.

(** A manager step that only removes contexts or keeps them as they are. *)
Definition shrinks (m m' : ContextManager) : Prop :=
  contexts m' ⊆ contexts m /\ max_contexts m' = max_contexts m /\
  context_admission_reservations m' = context_admission_reservations m.

#[export] Instance shrinks_preorder : PreOrder shrinks.
Proof.
  split; [by intros m|]. intros m1 m2 m3 (H1 & ? & ?) (H2 & ? & ?).
  split_and!; [by etransitivity|congruence..].
Qed.

Lemma context_count_mono m m' :
  contexts m' ⊆ contexts m -> context_count m' <= context_count m.
Proof. intros H%map_subseteq_size. unfold context_count. lia. Qed.

(** The fields of the manager the admission argument reads. *)
Lemma shrinks_wf max s m' : System_wf max s -> shrinks (sys_mgr s) m' ->
  System_wf max (s <| sys_mgr := m' |>).
Proof.
  intros Hwf (Hc & Hm & Hr). split; cbn.
  - by rewrite Hm, (sw_max _ _ Hwf).
  - intros cid c Hcid. apply (sw_ctx _ _ Hwf). by eapply lookup_weaken.
  - apply Hwf.
  - intros Hp. rewrite Hr. by apply (sw_reservations _ _ Hwf).
  - intros Hp. pose proof (sw_cap _ _ Hwf Hp). apply context_count_mono in Hc. lia.
Qed.

(** Replacing one context by another with the same counters. *)
Lemma update_wf max s cid c c' :
  System_wf max s -> contexts (sys_mgr s) !! cid = Some c ->
  id c' = id c -> in_flight c' = in_flight c ->
  System_wf max (s <| sys_mgr := sys_mgr s <| contexts ::= <[cid := c']> |> |>).
Proof.
  intros Hwf Hcid Hid Hfl. split; cbn; try apply Hwf.
  - intros cid' c0. rewrite lookup_insert. case_decide as Hd; [|apply (sw_ctx _ _ Hwf)].
    intros [= <-]. subst cid'. destruct (sw_ctx _ _ Hwf _ _ Hcid) as (Hi & Hu & Hg).
    split_and!; [congruence|done|]. rewrite Hfl. exact Hg.
  - intros Hp. pose proof (sw_cap _ _ Hwf Hp). unfold context_count in *. cbn.
    rewrite map_size_insert_Some; [done|eauto].
Qed.

Lemma note_login_released_shrinks cid slot m : shrinks m (note_login_released cid slot m).
Proof. by split_and!. Qed.

Lemma note_logins_released_shrinks cid slots m : shrinks m (note_logins_released cid slots m).
Proof.
  revert m. induction slots as [|x xs IH]; intros m; [done|]. cbn.
  etransitivity; [apply (note_login_released_shrinks cid x)|apply IH].
Qed.

Lemma remove_when_shrinks p cid m : shrinks m (remove_context_when p cid m).2.
Proof.
  unfold remove_context_when. destruct (contexts m !! cid); [|done]. case_match; [|done].
  split_and!; [apply delete_subseteq|done..].
Qed.

Lemma evict_sessionless_candidate_shrinks h now m cid :
  shrinks m (evict_sessionless_candidate h now m cid).
Proof.
  unfold evict_sessionless_candidate. set (p := fun ctx => _).
  pose proof (remove_when_shrinks p cid m) as H.
  destruct (remove_context_when p cid m) as [[ctx|] m']; [|done]. cbn [snd] in H.
  etransitivity; [exact H|]. etransitivity; [apply (note_logins_released_shrinks cid (login_slots ctx))|].
  by split_and!.
Qed.

Lemma evict_sessionless_shrinks `{HI : HashIter} h now m :
  shrinks m (evict_expired_sessionless_for_admission h now m).
Proof.
  unfold evict_expired_sessionless_for_admission. set (l := _.*1). clearbody l.
  revert m. induction l as [|cid l IH]; intros m; [done|]. cbn.
  etransitivity; [apply (evict_sessionless_candidate_shrinks h now m cid)|apply IH].
Qed.

(** ** Preservation *)

Lemma set_guard_wf max s cid n :
  System_wf max s -> cid ∈ sys_used s ->
  (forall c, contexts (sys_mgr s) !! cid = Some c -> in_flight c = Z.of_N n) ->
  (forall c, contexts (sys_mgr s) !! cid = Some c -> id c = cid) ->
  System_wf max (s <| sys_guards ::= <[cid := n]> |>).
Proof.
  intros Hwf Hu Hn Hc. split; cbn; try apply Hwf.
  - intros cid' c Hc'. unfold guards_of. cbn. rewrite lookup_insert. case_decide as Hd.
    + subst cid'. split_and!; [by apply Hc|done|by apply Hn].
    + by apply (sw_ctx _ _ Hwf).
  - intros cid' Hn'. unfold guards_of. cbn. rewrite lookup_insert_ne by congruence.
    by apply (sw_guards _ _ Hwf).
Qed.

(** Updating a context's counter together with the ghost count. *)
Lemma count_wf max s cid c c' n :
  System_wf max s -> contexts (sys_mgr s) !! cid = Some c ->
  id c' = id c -> in_flight c' = Z.of_N n ->
  System_wf max (s <| sys_mgr := sys_mgr s <| contexts ::= <[cid := c']> |> |>
                   <| sys_guards ::= <[cid := n]> |>).
Proof.
  intros Hwf Hcid Hid Hfl.
  destruct (sw_ctx _ _ Hwf _ _ Hcid) as (Hi & Hu & _).
  split; cbn; try apply Hwf.
  - intros cid' c0. unfold guards_of. cbn. rewrite !lookup_insert.
    case_decide as Hd; [|apply (sw_ctx _ _ Hwf)].
    intros [= <-]. subst cid'. cbn. split_and!; congruence.
  - intros cid' Hn'. unfold guards_of. cbn. rewrite lookup_insert_ne by congruence.
    by apply (sw_guards _ _ Hwf).
  - intros Hp. pose proof (sw_cap _ _ Hwf Hp). unfold context_count in *. cbn.
    rewrite map_size_insert_Some; [done|eauto].
Qed.

Lemma begin_wf max s cid c :
  System_wf max s -> contexts (sys_mgr s) !! cid = Some c ->
  System_wf max (add_guard cid (s <| sys_mgr := sys_mgr s
    <| contexts ::= <[cid := c <| in_flight ::= Z.succ |>]> |> |>)).
Proof.
  intros Hwf Hc. destruct (sw_ctx _ _ Hwf _ _ Hc) as (_ & _ & Hg).
  apply (count_wf max s cid c); try done.
  cbn. rewrite Hg. unfold guards_of. cbn. lia.
Qed.

Lemma guard_drop_wf max s now cid :
  System_wf max s -> 0 < guards_of s cid ->
  System_wf max (drop_guard cid (s <| sys_mgr ::= OperationGuard_drop now cid |>)).
Proof.
  intros Hwf Hg.
  assert (cid ∈ sys_used s) as Hu.
  { destruct (decide (cid ∈ sys_used s)); [done|]. apply (sw_guards _ _ Hwf) in n. lia. }
  destruct (contexts (sys_mgr s) !! cid) as [c|] eqn:Hc.
  - destruct (sw_ctx _ _ Hwf _ _ Hc) as (_ & _ & Hf).
    set (c' := LogicalClientInstance_touch now c <| in_flight ::= Z.pred |>).
    assert (drop_guard cid (s <| sys_mgr ::= OperationGuard_drop now cid |>) =
      s <| sys_mgr := sys_mgr s <| contexts ::= <[cid := c']> |> |>
        <| sys_guards ::= <[cid := guards_of s cid - 1]> |>) as ->.
    { unfold drop_guard, OperationGuard_drop. cbn. f_equal. f_equal.
      apply map_eq. intros k. rewrite lookup_alter, lookup_insert. case_decide; [subst|done].
      by rewrite Hc. }
    apply (count_wf max s cid c); try done.
    cbn. rewrite Hf. lia.
  - assert (sys_mgr s <| contexts ::=
      alter (fun ctx => LogicalClientInstance_touch now ctx <| in_flight ::= Z.pred |>) cid |>
      = sys_mgr s) as Heq.
    { destruct (sys_mgr s). cbn in *. f_equal. apply map_eq. intros k.
      rewrite lookup_alter. case_decide; [subst; by rewrite Hc|done]. }
    unfold drop_guard, OperationGuard_drop. cbn in Heq |- *. rewrite Heq.
    destruct s as [m g p i u]. cbn in *. apply (set_guard_wf max (MkSystem m g p i u)); try done;
      cbn; intros c Hc'; congruence.
Qed.

Lemma complete_close_wf max s cid v b k :
  System_wf max s -> System_wf max (s <| sys_mgr ::= complete_close_session cid v b k |>).
Proof.
  intros Hwf. cbn. unfold complete_close_session.
  destruct (contexts (sys_mgr s) !! cid) as [c|] eqn:Hc; [|by destruct s].
  case_match; [by destruct s|].
  destruct k.
  - destruct (remove_session_frame v c) as (Hid & _ & Hfl & _).
    set (c' := (LogicalClientInstance_remove_session v c).2) in *.
    pose proof (update_wf max s cid c c' Hwf Hc Hid Hfl) as Hwf'.
    repeat case_match; try done.
    apply (shrinks_wf _ _ _ Hwf'), note_login_released_shrinks.
  - destruct (HandleMap_reactivate_suspended v b (session_handles c)) as [[] hm]; cbn [snd] in *.
    all: by apply (update_wf max s cid c).
  - by apply (update_wf max s cid c).
Qed.

Lemma at_cap_false m :
  at_cap m = false -> 0 < max_contexts m ->
  context_count m + context_admission_reservations m < max_contexts m.
Proof.
  unfold at_cap. rewrite andb_false_iff, N.ltb_ge, N.leb_gt. lia.
Qed.

Lemma reserve_wf `{HI : HashIter} max s h now ok m' :
  System_wf max s -> try_reserve_context h now (sys_mgr s) = (ok, m') ->
  System_wf max (if ok then s <| sys_mgr := m' |> <| sys_pending ::= N.succ |>
                 else s <| sys_mgr := m' |>).
Proof.
  intros Hwf. unfold try_reserve_context.
  set (m1 := if at_cap (sys_mgr s) then _ else _).
  assert (shrinks (sys_mgr s) m1) as Hs.
  { unfold m1. case_match; [apply evict_sessionless_shrinks|done]. }
  pose proof (shrinks_wf max s m1 Hwf Hs) as Hwf1. clearbody m1.
  destruct (at_cap m1) eqn:Hcap; intros [= <- <-]; [done|].
  pose proof (sw_max _ _ Hwf1) as Hmax. cbn in Hmax.
  destruct (N.ltb_spec 0 (max_contexts m1)) as [Hp|Hp].
  - pose proof (at_cap_false _ Hcap Hp).
    pose proof (sw_reservations _ _ Hwf1) as Hr. pose proof (sw_cap _ _ Hwf1) as Hc. cbn in Hr, Hc.
    split; cbn; try apply Hwf1; intros Hp'.
    + rewrite Hr by done. lia.
    + unfold context_count in *. cbn. specialize (Hr Hp'). lia.
  - split; cbn; try apply Hwf1; lia.
Qed.

Lemma admit_lookup cid now ident conn m k :
  contexts (admit_context cid now ident conn m) !! k =
  if decide (cid = k) then Some (LogicalClientInstance_new_with_connection cid now ident conn)
  else contexts m !! k.
Proof. unfold admit_context. cbn. apply lookup_insert. Qed.

(** Inserting a context under a never used identifier. *)
Lemma admit_wf max s cid now ident conn pend ins :
  System_wf max s -> cid ∉ sys_used s ->
  (0 < max -> context_count (sys_mgr s) + 1 + pend <= max) ->
  (0 < max -> context_admission_reservations (sys_mgr s) = pend + ins) ->
  System_wf max (MkSystem (admit_context cid now ident conn (sys_mgr s)) (sys_guards s) pend ins
                          (sys_used s ∪ {[ cid ]})).
Proof.
  intros Hwf Hu Hcap Hres. split; cbn [sys_mgr sys_guards sys_pending sys_inserted sys_used].
  - apply Hwf.
  - intros k c. rewrite admit_lookup. case_decide as Hd.
    + intros [= <-]. subst k. split_and!; [done|set_solver|].
      cbn. pose proof (sw_guards _ _ Hwf _ Hu) as Hg. unfold guards_of in *. cbn. by rewrite Hg.
    + intros Hk. destruct (sw_ctx _ _ Hwf _ _ Hk) as (? & ? & ?). split_and!; [done|set_solver|done].
  - intros k Hk. apply (sw_guards _ _ Hwf). set_solver.
  - done.
  - intros Hp. unfold context_count, admit_context. cbn.
    rewrite map_size_insert_None.
    + unfold context_count in Hcap. specialize (Hcap Hp). lia.
    + destruct (contexts (sys_mgr s) !! cid) eqn:Hc; [|done].
      by apply (sw_ctx _ _ Hwf) in Hc as (_ & ? & _).
Qed.

Lemma remove_when_count p cid m ctx m' :
  remove_context_when p cid m = (Some ctx, m') ->
  contexts m !! cid = Some ctx /\ p ctx = true /\ context_count m' + 1 = context_count m.
Proof.
  unfold remove_context_when, context_count. destruct (contexts m !! cid) as [c|] eqn:Hc; [|done].
  destruct (p c) eqn:Hp; [|done]. intros [= <- <-]. cbn. split_and!; [done..|].
  rewrite map_size_delete_Some by eauto.
  assert (size (contexts m) <> 0)%nat; [|lia].
  intros H0%map_size_empty_inv. rewrite H0, lookup_empty in Hc. done.
Qed.

Lemma replaceable_shrinks h cid conn m :
  shrinks m (remove_context_if_replaceable h cid conn m).2 /\
  forall ctx, (remove_context_if_replaceable h cid conn m).1 = Removed ctx ->
    contexts m !! cid = Some ctx /\ (in_flight ctx <= 0)%Z /\
    (is_transport_dead h ctx = true \/ same_connection_as h conn ctx = true) /\
    context_count (remove_context_if_replaceable h cid conn m).2 + 1 = context_count m.
Proof.
  unfold remove_context_if_replaceable. set (p := fun ctx => _).
  pose proof (remove_when_shrinks p cid m) as Hs. pose proof (remove_when_count p cid m) as Hn.
  destruct (remove_context_when p cid m) as [[c|] m']; cbn [fst snd] in *.
  - destruct (Hn c m' eq_refl) as (Hc & Hp & Hcount). split.
    + etransitivity; [exact Hs|]. by split_and!.
    + intros ctx [= <-]. unfold p in Hp. apply andb_true_iff in Hp as [Hf Hp].
      apply orb_true_iff in Hp. split_and!; [done|lia|done|exact Hcount].
  - split; [done|]. intros ctx. by case_match.
Qed.

Lemma replace_first_spec h conn cids m :
  shrinks m (replace_first h conn cids m).2 /\
  forall ctx, (replace_first h conn cids m).1 = Some ctx ->
    (exists cid, cid ∈ cids /\ contexts m !! cid = Some ctx) /\ (in_flight ctx <= 0)%Z /\
    (is_transport_dead h ctx = true \/ same_connection_as h conn ctx = true) /\
    context_count (replace_first h conn cids m).2 + 1 <= context_count m.
Proof.
  revert m. induction cids as [|cid cids IH]; intros m; [done|]. cbn [replace_first].
  destruct (replaceable_shrinks h cid conn m) as [Hs Hr].
  destruct (remove_context_if_replaceable h cid conn m) as [[c| |] m1]; cbn [fst snd] in *.
  - split; [done|]. intros ctx [= <-]. destruct (Hr c eq_refl) as (Hc & Hf & Hd & Hn).
    split_and!; [exists cid; split; [set_solver|done]|done..|lia].
  - destruct (IH m1) as [Hs1 Hr1]. split; [by etransitivity|]. intros ctx Hx.
    destruct (Hr1 _ Hx) as ((cid' & Hin & Hc) & Hf & Hd & Hn).
    pose proof (context_count_mono m m1 (proj1 Hs)).
    split_and!; [exists cid'; split; [set_solver|by eapply lookup_weaken, Hs]|done..|lia].
  - destruct (IH m1) as [Hs1 Hr1]. split; [by etransitivity|]. intros ctx Hx.
    destruct (Hr1 _ Hx) as ((cid' & Hin & Hc) & Hf & Hd & Hn).
    pose proof (context_count_mono m m1 (proj1 Hs)).
    split_and!; [exists cid'; split; [set_solver|by eapply lookup_weaken, Hs]|done..|lia].
Qed.

Lemma use_id_wf max s cid :
  System_wf max s -> System_wf max (s <| sys_used ::= fun u => u ∪ {[ cid ]} |>).
Proof.
  intros Hwf. split; cbn; try apply Hwf.
  - intros k c Hk. destruct (sw_ctx _ _ Hwf _ _ Hk) as (? & ? & ?).
    split_and!; [done|set_solver|done].
  - intros k Hk. apply (sw_guards _ _ Hwf). set_solver.
Qed.

Lemma replace_wf `{HI : HashIter} max s h cid now ident conn r m' :
  System_wf max s -> cid ∉ sys_used s ->
  create_context_replacing_idle_same_identity_on_connection h cid now ident conn (sys_mgr s)
    = (r, m') ->
  System_wf max (s <| sys_mgr := m' |> <| sys_used ::= fun u => u ∪ {[ cid ]} |>).
Proof.
  intros Hwf Hu. unfold create_context_replacing_idle_same_identity_on_connection.
  set (m1 := if at_cap (sys_mgr s) then _ else _).
  assert (shrinks (sys_mgr s) m1) as Hs.
  { unfold m1. case_match; [apply evict_sessionless_shrinks|done]. }
  pose proof (shrinks_wf max s m1 Hwf Hs) as Hwf1. clearbody m1.
  assert (Hadmit : forall m2, System_wf max (s <| sys_mgr := m2 |>) ->
    (0 < max -> context_count m2 + 1 + sys_pending s <= max) ->
    System_wf max (s <| sys_mgr := admit_context cid now ident conn m2 |>
                     <| sys_used ::= fun u => u ∪ {[ cid ]} |>)).
  { intros m2 Hw2 Hc. set (s2 := s <| sys_mgr := m2 |>) in Hw2.
    exact (admit_wf max s2 cid now ident conn (sys_pending s) (sys_inserted s) Hw2 Hu Hc
             (sw_reservations _ _ Hw2)). }
  assert (Hroom : forall m2, System_wf max (s <| sys_mgr := m2 |>) -> at_cap m2 = false ->
    0 < max -> context_count m2 + 1 + sys_pending s <= max).
  { intros m2 Hw2 Hcap Hp. pose proof (sw_max _ _ Hw2) as Hm. cbn in Hm.
    pose proof (at_cap_false _ Hcap). pose proof (sw_reservations _ _ Hw2 Hp) as Hr. cbn in Hr. lia. }
  destruct (at_cap m1) eqn:Hcap; [|intros [= <- <-]; by apply Hadmit, Hroom].
  set (q := match ident with Some _ => _ | None => _ end).
  assert (shrinks m1 q.2 /\ (is_Some q.1 -> context_count q.2 + 1 <= context_count m1)) as [Hs2 Hn2].
  { unfold q. destruct ident as [w|]; [|split; [done|by intros [? ?]]].
    destruct (replace_first_spec h conn (same_identity_candidates w m1) m1) as [H1 H2].
    split; [done|]. intros [ctx Hx]. by destruct (H2 ctx Hx) as (_ & _ & _ & ?). }
  destruct q as [rep m2]. cbn [fst snd] in *.
  pose proof (shrinks_wf max _ m2 Hwf1 Hs2) as Hwf2. cbn in Hwf2.
  destruct rep as [ctx|].
  - intros [= <- <-]. apply Hadmit; [done|]. intros Hp.
    pose proof (sw_cap _ _ Hwf1 Hp) as Hc. cbn in Hc. specialize (Hn2 ltac:(eauto)). lia.
  - destruct (at_cap m2) eqn:Hcap2; intros [= <- <-].
    + apply (use_id_wf max (s <| sys_mgr := m2 |>)). done.
    + by apply Hadmit, Hroom.
Qed.

Lemma evict_backend_object_frame b c :
  (ctx_core c -> ctx_core (evict_backend_object b c)) /\ context_frame c (evict_backend_object b c).
Proof.
  unfold evict_backend_object. destruct (HandleMap_resolve_backend b _); [|done].
  split; [|done]. intros []. split; cbn; try done. by apply remove_wf.
Qed.

Lemma evict_everywhere_wf max s b :
  System_wf max s -> System_wf max (s <| sys_mgr ::= evict_backend_object_everywhere b |>).
Proof.
  intros Hwf. split; cbn; try apply Hwf.
  - intros cid c. rewrite lookup_fmap, fmap_Some. intros (c0 & Hc & ->).
    destruct (sw_ctx _ _ Hwf _ _ Hc) as (Hid & Hu & Hf).
    destruct (evict_backend_object_frame b c0) as [_ (H2 & _ & H3 & _)].
    split_and!; [congruence|done|]. rewrite H3. exact Hf.
  - intros Hp. unfold context_count. cbn. rewrite map_size_fmap. by apply (sw_cap _ _ Hwf).
Qed.

Lemma system_step_wf max s s' : System_wf max s -> system_step s s' -> System_wf max s'.
Proof.
  intros Hwf [cid c c' Hc Hst|cid g m' Hb|cid mx g m' Hb|now cid Hg|cid c v Hc|cid v b k
    |HI h now m' Hr|HI h now m' Hr|Hp|cid now ident conn Hp Hu|Hp|HI h cid now ident conn r m' Hu Hr
    |cid own r m' Hr|h now cid r m' Hr|b|m' H1 H2 H3].
  - destruct (context_step_frame _ _ Hst) as (? & _ & ? & _). by apply (update_wf max s cid c).
  - unfold begin_operation in Hb. destruct (contexts (sys_mgr s) !! cid) eqn:Hc; [|done].
    injection Hb as <- <-. by apply begin_wf.
  - unfold begin_operation_capped in Hb. destruct (contexts (sys_mgr s) !! cid) eqn:Hc; [|done].
    case_match; [done|]. injection Hb as <- <-. by apply begin_wf.
  - by apply guard_drop_wf.
  - by apply (update_wf max s cid c).
  - by apply complete_close_wf.
  - by apply (reserve_wf max s h now true m').
  - by apply (reserve_wf max s h now false m').
  - split; cbn; try apply Hwf; intros Hm.
    + rewrite (sw_reservations _ _ Hwf Hm). lia.
    + pose proof (sw_cap _ _ Hwf Hm). unfold context_count in *. cbn. lia.
  - apply (admit_wf max s cid now ident conn (N.pred (sys_pending s)) (N.succ (sys_inserted s)));
      try done; intros Hm.
    + pose proof (sw_cap _ _ Hwf Hm). lia.
    + rewrite (sw_reservations _ _ Hwf Hm). lia.
  - split; cbn; try apply Hwf. intros Hm. rewrite (sw_reservations _ _ Hwf Hm). lia.
  - by eapply replace_wf.
  - apply (shrinks_wf _ _ _ Hwf). revert Hr. unfold remove_context_if_idle. set (p := fun _ => _).
    pose proof (remove_when_shrinks p cid (sys_mgr s)) as Hs.
    destruct (remove_context_when p cid (sys_mgr s)) as [[]]; intros [= <- <-]; [|done].
    etransitivity; [exact Hs|by split_and!].
  - apply (shrinks_wf _ _ _ Hwf).
    pose proof (remove_when_shrinks (fun c => is_reapable h (sys_mgr s) c now) cid (sys_mgr s)) as Hs.
    by rewrite Hr in Hs.
  - by apply evict_everywhere_wf.
  - apply (shrinks_wf _ _ _ Hwf). split_and!; [by rewrite H1|done..].
Qed.

Lemma system_reachable_wf lease max s : system_reachable lease max s -> System_wf max s.
Proof.
  induction 1 as [|s s' _ IH Hs]; [|by eapply system_step_wf].
  split; cbn; try done. intros Hp. unfold context_count. cbn. rewrite map_size_empty. lia.
Qed.

(** ** Who survives a removal *)

Lemma remove_when_keeps p cid m k c :
  contexts m !! k = Some c -> (k = cid -> p c = false) ->
  contexts (remove_context_when p cid m).2 !! k = Some c.
Proof.
  intros Hk Hp. unfold remove_context_when. destruct (contexts m !! cid) as [c0|] eqn:Hc; [|done].
  destruct (p c0) eqn:Hp0; [|done]. cbn. rewrite lookup_delete_ne; [done|].
  intros ->. rewrite Hk in Hc. injection Hc as <-. rewrite Hp in Hp0; done.
Qed.

Lemma not_reapable_in_flight h m c now : in_flight c <> 0%Z -> is_reapable h m c now = false.
Proof. unfold is_reapable. intros Hf. destruct (Z.eqb_spec (in_flight c) 0); done. Qed.

Lemma note_logins_released_contexts cid slots m :
  contexts (note_logins_released cid slots m) = contexts m.
Proof. revert m. induction slots as [|x xs IH]; intros m; [done|].
  apply (IH (note_login_released cid x m)).
Qed.

Lemma evict_sessionless_keeps `{HI : HashIter} h now m k c :
  contexts m !! k = Some c ->
  in_flight c <> 0%Z \/ has_open_backend_sessions c = true ->
  contexts (evict_expired_sessionless_for_admission h now m) !! k = Some c.
Proof.
  intros Hk Hc. unfold evict_expired_sessionless_for_admission. set (l := _.*1). clearbody l.
  revert m Hk. induction l as [|cid l IH]; intros m Hk; [done|]. cbn. apply IH.
  unfold evict_sessionless_candidate. set (p := fun ctx => _).
  assert (p c = false) as Hp.
  { unfold p. destruct Hc as [Hf|Ho]; [by rewrite not_reapable_in_flight|].
    rewrite Ho. apply andb_false_r. }
  pose proof (remove_when_keeps p cid m k c Hk (fun _ => Hp)) as Hkeep.
  destruct (remove_context_when p cid m) as [[]]; [|done]. cbn. by rewrite note_logins_released_contexts.
Qed.

Lemma replace_first_keeps h conn cids m k c :
  contexts m !! k = Some c -> (0 < in_flight c)%Z ->
  contexts (replace_first h conn cids m).2 !! k = Some c.
Proof.
  intros Hk Hf. revert m Hk. induction cids as [|cid cids IH]; intros m Hk; [done|].
  cbn. unfold remove_context_if_replaceable. set (p := fun ctx => _).
  assert (p c = false) as Hp.
  { unfold p. apply andb_false_iff. left. lia. }
  pose proof (remove_when_keeps p cid m k c Hk (fun _ => Hp)) as Hkeep.
  destruct (remove_context_when p cid m) as [[]]; cbn in *; [done|]. case_bool_decide; by apply IH.
Qed.

Lemma replacing_keeps `{HI : HashIter} h cid now ident conn m k c :
  contexts m !! k = Some c -> k <> cid -> (0 < in_flight c)%Z ->
  contexts (create_context_replacing_idle_same_identity_on_connection h cid now ident conn m).2
    !! k = Some c.
Proof.
  intros Hk Hne Hf. unfold create_context_replacing_idle_same_identity_on_connection.
  set (m1 := if at_cap m then _ else _).
  assert (contexts m1 !! k = Some c) as Hk1.
  { unfold m1. case_match; [|done]. apply evict_sessionless_keeps; [done|left; lia]. }
  clearbody m1.
  assert (forall m2, contexts m2 !! k = Some c ->
            contexts (admit_context cid now ident conn m2) !! k = Some c) as Hadm.
  { intros m2 H2. rewrite admit_lookup. by rewrite decide_False. }
  destruct (at_cap m1); [|by apply Hadm].
  set (q := match ident with Some _ => _ | None => _ end).
  assert (contexts q.2 !! k = Some c) as Hq.
  { unfold q. destruct ident; [by apply replace_first_keeps|done]. }
  destruct q as [rep m2]. case_match; [done|by apply Hadm].
Qed.

(** ** Properties *)

(** C30: In every interleaving of the daemon's critical sections the number
    of live contexts never exceeds the configured cap, not even counted
    together with the admission reservations granted but not yet used. *)
Theorem admission_cap lease max s :
  system_reachable lease max s -> 0 < max ->
  context_count (sys_mgr s) + sys_pending s <= max.
Proof. intros Hr. apply (sw_cap _ _ (system_reachable_wf _ _ _ Hr)). Qed.

(** While any backend operation of a context is in flight the context
    stays where it is: neither the reaper, nor the admission-time reclaim,
    nor a same-identity replacement removes it, and a finalize that owns
    fewer guards than are alive is refused as busy. *)
Theorem in_flight_context_survives `{HI : HashIter} lease max s cid c :
  system_reachable lease max s -> contexts (sys_mgr s) !! cid = Some c -> 0 < guards_of s cid ->
  (forall h now k, contexts (remove_context_when
     (fun x => is_reapable h (sys_mgr s) x now) k (sys_mgr s)).2 !! cid = Some c) /\
  (forall h now, contexts (evict_expired_sessionless_for_admission h now (sys_mgr s)) !! cid = Some c) /\
  (forall h k now ident conn, k <> cid ->
     contexts (create_context_replacing_idle_same_identity_on_connection h k now ident conn
                 (sys_mgr s)).2 !! cid = Some c) /\
  (forall own, (own < Z.of_N (guards_of s cid))%Z ->
     remove_context_if_idle cid own (sys_mgr s) = (Busy, sys_mgr s)).
Proof.
  intros Hr Hc Hg. pose proof (system_reachable_wf _ _ _ Hr) as Hwf.
  destruct (sw_ctx _ _ Hwf _ _ Hc) as (_ & _ & Hf). split_and!.
  - intros h now k. apply remove_when_keeps; [done|]. intros _. apply not_reapable_in_flight. lia.
  - intros h now. apply evict_sessionless_keeps; [done|]. left. lia.
  - intros h k now ident conn Hne. apply replacing_keeps; [done|done|lia].
  - intros own Ho. unfold remove_context_if_idle, remove_context_when. rewrite Hc.
    destruct (Z.leb_spec (in_flight c) own); [lia|]. by rewrite Hc, bool_decide_eq_true_2.
Qed.

(** ** The invariant of every context

    The allocators of virtual handles are 64-bit counters, so the statement is
    about the states reached in fewer steps than a counter has values; a step
    allocates at most one session and one object handle per context. *)

Inductive system_reached_in (lease max : N) : N -> System -> Prop :=
| sri_new : system_reached_in lease max 0 (System_new lease max)
| sri_step n s s' : system_reached_in lease max n s -> system_step s s' -> system_reached_in lease max (n + 1) s'.

Lemma reached_in_reachable lease max n s : system_reached_in lease max n s -> system_reachable lease max s.
Proof. induction 1; [apply sr_new|by eapply sr_step]. Qed.

Definition context_ok (n : N) (c : LogicalClientInstance) : Prop :=
  ctx_core c /\ next_id (session_handles c) <= n + 1 /\ next_id (object_handles c) <= n + 1.

Definition contexts_ok (n : N) (m : ContextManager) : Prop := forall cid c, contexts m !! cid = Some c -> context_ok n c.

Lemma context_ok_mono n n' c : n <= n' -> context_ok n c -> context_ok n' c.
Proof. intros Hn (? & ? & ?). split_and!; [done|lia..]. Qed.

Lemma contexts_ok_shrink n m m' : contexts m' ⊆ contexts m -> contexts_ok n m -> contexts_ok n m'.
Proof. intros Hs H cid c Hc. apply (H cid). by eapply lookup_weaken. Qed.

Lemma contexts_ok_insert n m m' cid c :
  contexts m' = <[cid := c]> (contexts m) -> context_ok n c -> contexts_ok n m -> contexts_ok n m'.
Proof. intros He Hc H k c'. rewrite He, lookup_insert. case_decide; [by intros [= <-]|apply H]. Qed.

Lemma context_step_ok n c c' : n < u64_MAX - 1 -> context_ok n c -> context_step c c' -> context_ok (n + 1) c'.
Proof.
  intros Hn (Hc & H1 & H2) Hs. destruct (context_step_ids _ _ Hs) as [H3 H4]. split_and!; [|lia..].
  eapply context_step_core; [done| | |done]; unfold HandleMap_room; lia.
Qed.

Lemma in_flight_ok n f c : context_ok n c -> context_ok n (c <| in_flight ::= f |>).
Proof. intros ([] & ? & ?). by split_and!. Qed.

Lemma new_context_ok n cid now ident conn : context_ok n (LogicalClientInstance_new_with_connection cid now ident conn).
Proof. split_and!; [apply cw_core, LogicalClientInstance_new_wf|cbn; lia..]. Qed.

Lemma complete_close_ok n cid v b k m : contexts_ok n m -> contexts_ok n (complete_close_session cid v b k m).
Proof.
  intros Hm. unfold complete_close_session. destruct (contexts m !! cid) as [c|] eqn:Hc; [|done].
  case_match; [done|]. destruct (Hm _ _ Hc) as (Hcore & H1 & H2). destruct k.
  - assert (contexts_ok n (m <| contexts ::= <[cid := (LogicalClientInstance_remove_session v c).2]> |>)) as Hok.
    { eapply contexts_ok_insert; [done| |done]. pose proof (remove_session_ids v c) as [= E1 E2].
      split_and!; [by apply remove_session_core|lia..]. }
    repeat case_match; try done; by eapply contexts_ok_shrink; [|exact Hok].
  - pose proof (reactivate_wf v b _ (cw_sessions _ Hcore)) as Hr.
    pose proof (fun v' => owner_reactivate v b _ v' (cw_sessions _ Hcore)) as Ho.
    pose proof (next_id_reactivate v b (session_handles c)) as Hi.
    destruct (HandleMap_reactivate_suspended v b (session_handles c)) as [[] hm]; cbn [snd] in *.
    + eapply contexts_ok_insert; [done| |done]. split_and!; [by apply set_session_handles_core|cbn; lia..].
    + eapply contexts_ok_insert; [done| |done]. split_and!; [by apply drop_message_operations_core|cbn; lia..].
  - eapply contexts_ok_insert; [done| |done]. split_and!; [by apply drop_message_operations_core|cbn; lia..].
Qed.

Lemma guard_drop_ok n now cid m : contexts_ok n m -> contexts_ok n (OperationGuard_drop now cid m).
Proof.
  intros Hm k c. unfold OperationGuard_drop. cbn. rewrite lookup_alter. case_decide; [|apply Hm].
  rewrite fmap_Some. intros (c0 & Hc & ->). destruct (Hm _ _ Hc) as ([] & ? & ?). by split_and!.
Qed.

Lemma evict_everywhere_ok n b m : contexts_ok n m -> contexts_ok n (evict_backend_object_everywhere b m).
Proof.
  intros Hm k c. cbn. rewrite lookup_fmap, fmap_Some. intros (c0 & Hc & ->). destruct (Hm _ _ Hc) as (Hcore & H1 & H2).
  split_and!; [by apply evict_backend_object_frame|..]; unfold evict_backend_object;
    (destruct (HandleMap_resolve_backend _ _); [|done]); cbn; rewrite ?next_id_remove; lia.
Qed.

Lemma replacing_ok `{HI : HashIter} n h cid now ident conn m :
  contexts_ok n m -> contexts_ok n (create_context_replacing_idle_same_identity_on_connection h cid now ident conn m).2.
Proof.
  intros Hm. unfold create_context_replacing_idle_same_identity_on_connection. set (m1 := if at_cap m then _ else _).
  assert (contexts_ok n m1) as H1.
  { unfold m1. case_match; [|done]. eapply contexts_ok_shrink; [apply evict_sessionless_shrinks|done]. }
  clearbody m1. assert (forall m2, contexts_ok n m2 -> contexts_ok n (admit_context cid now ident conn m2)) as Hadm.
  { intros m2 H2. eapply contexts_ok_insert; [done|apply new_context_ok|done]. }
  destruct (at_cap m1); [|by apply Hadm]. set (q := match ident with Some _ => _ | None => _ end).
  assert (contexts_ok n q.2) as Hq.
  { unfold q. destruct ident; [|done]. eapply contexts_ok_shrink; [apply replace_first_spec|done]. }
  destruct q as [rep m2]. case_match; [done|by apply Hadm].
Qed.

Lemma system_step_ok n s s' :
  n < u64_MAX - 1 -> contexts_ok n (sys_mgr s) -> system_step s s' -> contexts_ok (n + 1) (sys_mgr s').
Proof.
  intros Hn Hok Hst. assert (forall m, contexts_ok n m -> contexts_ok (n + 1) m) as Hup.
  { intros m Hm cid c Hc. eapply context_ok_mono; [|by eapply Hm]. lia. }
  destruct Hst as [cid c c' Hc Hst|cid g m' Hb|cid mx g m' Hb|now cid Hg|cid c v Hc|cid v b k
    |HI h now m' Hr|HI h now m' Hr|Hp|cid now ident conn Hp Hu|Hp|HI h cid now ident conn r m' Hu Hr
    |cid own r m' Hr|h now cid r m' Hr|b|m' H1 H2 H3]; cbn [sys_mgr].
  - eapply contexts_ok_insert; [done| |by apply Hup]. eapply context_step_ok; [done|by eapply Hok|done].
  - apply Hup. unfold begin_operation in Hb. destruct (contexts (sys_mgr s) !! cid) eqn:Hc; [|done].
    injection Hb as <- <-. eapply contexts_ok_insert; [done| |done]. by eapply in_flight_ok, Hok.
  - apply Hup. unfold begin_operation_capped in Hb. destruct (contexts (sys_mgr s) !! cid) eqn:Hc; [|done].
    case_match; [done|]. injection Hb as <- <-. eapply contexts_ok_insert; [done| |done]. by eapply in_flight_ok, Hok.
  - by apply Hup, guard_drop_ok.
  - apply Hup. eapply contexts_ok_insert; [done| |done]. destruct (Hok _ _ Hc) as (Hcore & ? & ?).
    split_and!; [|cbn; rewrite ?next_id_suspend; lia..]. apply set_session_handles_core; [done|apply suspend_wf, Hcore|].
    intros v'. apply owner_suspend, Hcore.
  - by apply Hup, complete_close_ok.
  - apply Hup. eapply contexts_ok_shrink; [|done]. unfold try_reserve_context in Hr. repeat case_match; simplify_eq/=; try done; apply evict_sessionless_shrinks.
  - apply Hup. eapply contexts_ok_shrink; [|done]. unfold try_reserve_context in Hr. repeat case_match; simplify_eq/=; try done; apply evict_sessionless_shrinks.
  - by apply Hup.
  - apply Hup. eapply contexts_ok_insert; [done|apply new_context_ok|done].
  - by apply Hup.
  - apply Hup. pose proof (replacing_ok n h cid now ident conn _ Hok) as H. by rewrite Hr in H.
  - apply Hup. eapply contexts_ok_shrink; [|done]. revert Hr. unfold remove_context_if_idle. set (p := fun _ => _).
    pose proof (remove_when_shrinks p cid (sys_mgr s)) as [Hs _].
    destruct (remove_context_when p cid (sys_mgr s)) as [[]]; intros [= <- <-]; [|done]. exact Hs.
  - apply Hup. eapply contexts_ok_shrink; [|done].
    pose proof (remove_when_shrinks (fun c => is_reapable h (sys_mgr s) c now) cid (sys_mgr s)) as [Hs _]. by rewrite Hr in Hs.
  - by apply Hup, evict_everywhere_ok.
  - apply Hup. intros k c Hc. apply (Hok k). by rewrite <- H1.
Qed.

Lemma reached_in_ok lease max n s : system_reached_in lease max n s -> n < u64_MAX -> contexts_ok n (sys_mgr s).
Proof.
  induction 1 as [|n s s' _ IH Hs]; intros Hn; [by intros cid c|]. eapply system_step_ok; [lia| |done]. apply IH. lia.
Qed.

(** C1: In every daemon state reached in fewer than 2^64 - 1 critical sections
    (the range of the handle counters), whatever their interleaving, each context
    is stored under its own identifier, its in-flight counter is the number of
    guards alive, its session and object handle maps are partial bijections, a
    session handle has a slot exactly when it is in use (live or mid-close), and
    a message-operation cell belongs to a session in use. *)
Theorem reachable_context_invariant lease max n s cid c :
  system_reached_in lease max n s -> n < u64_MAX -> contexts (sys_mgr s) !! cid = Some c ->
  ctx_core c /\ id c = cid /\ in_flight c = Z.of_N (guards_of s cid).
Proof.
  intros Hr Hn Hc. destruct (reached_in_ok _ _ _ _ Hr Hn _ _ Hc) as [? _].
  destruct (sw_ctx _ _ (system_reachable_wf _ _ _ (reached_in_reachable _ _ _ _ Hr)) _ _ Hc) as (? & _ & ?). done.
Qed.

(** ** A context keeps its identity *)

(** Where the context is in [m'], it was in [m], bound to the same identity. *)
Definition keeps_identity (cid : ClientContextId) (m m' : ContextManager) : Prop :=
  forall c', contexts m' !! cid = Some c' ->
    exists c, contexts m !! cid = Some c /\ authenticated_identity c' = authenticated_identity c.

#[export] Instance keeps_identity_preorder cid : PreOrder (keeps_identity cid).
Proof.
  split; [intros m c; eauto|]. intros m1 m2 m3 H1 H2 c3 (c2 & (c1 & ? & ?)%H1 & ?)%H2. exists c1. split; congruence.
Qed.

Lemma keeps_identity_subseteq cid m m' : contexts m' ⊆ contexts m -> keeps_identity cid m m'.
Proof. intros Hs c' Hc. exists c'. split; [by eapply lookup_weaken|done]. Qed.

Lemma keeps_identity_update cid k c c' m m' :
  contexts m !! k = Some c -> authenticated_identity c' = authenticated_identity c ->
  contexts m' = <[k := c']> (contexts m) -> keeps_identity cid m m'.
Proof. intros Hk Hi He c''. rewrite He, lookup_insert. case_decide; [intros [= <-]; subst; eauto|eauto]. Qed.

Lemma keeps_identity_fmap cid f m m' :
  (forall c, authenticated_identity (f c) = authenticated_identity c) -> contexts m' = f <$> contexts m -> keeps_identity cid m m'.
Proof. intros Hf He c'. rewrite He, lookup_fmap, fmap_Some. intros (c & ? & ->). exists c. auto. Qed.

Lemma keeps_identity_admit cid k now ident conn m : k <> cid -> keeps_identity cid m (admit_context k now ident conn m).
Proof. intros Hne c. rewrite admit_lookup, decide_False by done. eauto. Qed.

Lemma complete_close_identity cid k v b kind m : keeps_identity cid m (complete_close_session k v b kind m).
Proof.
  unfold complete_close_session. destruct (contexts m !! k) as [c|] eqn:Hc; [|done]. case_match; [done|]. destruct kind.
  - destruct (remove_session_frame v c) as (_ & _ & _ & Hi).
    repeat case_match; by (eapply (keeps_identity_update cid k); [eassumption| |reflexivity]).
  - destruct (HandleMap_reactivate_suspended _ _ _) as [[] hm]; by (eapply (keeps_identity_update cid k); [eassumption| |reflexivity]).
  - by (eapply (keeps_identity_update cid k); [eassumption| |reflexivity]).
Qed.

Lemma replacing_identity `{HI : HashIter} cid h k now ident conn m : k <> cid ->
  keeps_identity cid m (create_context_replacing_idle_same_identity_on_connection h k now ident conn m).2.
Proof.
  intros Hne. unfold create_context_replacing_idle_same_identity_on_connection. set (m1 := if at_cap m then _ else _).
  assert (keeps_identity cid m m1) as H1.
  { unfold m1. case_match; [|done]. apply keeps_identity_subseteq, evict_sessionless_shrinks. }
  clearbody m1. destruct (at_cap m1); [|etransitivity; [exact H1|by apply keeps_identity_admit]].
  set (q := match ident with Some _ => _ | None => _ end).
  assert (keeps_identity cid m q.2) as Hq.
  { etransitivity; [exact H1|]. unfold q. destruct ident; [|done]. apply keeps_identity_subseteq, replace_first_spec. }
  destruct q as [rep m2]. case_match; [done|]. etransitivity; [exact Hq|by apply keeps_identity_admit].
Qed.

Lemma system_step_identity cid s s' :
  cid ∈ sys_used s -> system_step s s' -> keeps_identity cid (sys_mgr s) (sys_mgr s') /\ cid ∈ sys_used s'.
Proof.
  intros Hin Hst. destruct Hst as [k c c' Hc Hst|k g m' Hb|k mx g m' Hb|now k Hg|k c v Hc|k v b kind
    |HI h now m' Hr|HI h now m' Hr|Hp|k now ident conn Hp Hu|Hp|HI h k now ident conn r m' Hu Hr
    |k own r m' Hr|h now k r m' Hr|b|m' H1 H2 H3]; (split; [|cbn; set_solver]).
  - destruct (context_step_frame _ _ Hst) as (_ & _ & _ & ?). by (eapply (keeps_identity_update cid k); [eassumption| |reflexivity]).
  - unfold begin_operation in Hb. destruct (contexts (sys_mgr s) !! k) eqn:Hc; [|done].
    injection Hb as <- <-. by (eapply (keeps_identity_update cid k); [eassumption| |reflexivity]).
  - unfold begin_operation_capped in Hb. destruct (contexts (sys_mgr s) !! k) eqn:Hc; [|done].
    case_match; [done|]. injection Hb as <- <-. by (eapply (keeps_identity_update cid k); [eassumption| |reflexivity]).
  - intros c'. cbn. rewrite lookup_alter. case_decide; [|eauto]. rewrite fmap_Some. intros (c & ? & ->). subst k. exists c. auto.
  - by (eapply (keeps_identity_update cid k); [eassumption| |reflexivity]).
  - apply complete_close_identity.
  - apply keeps_identity_subseteq. unfold try_reserve_context in Hr.
    repeat case_match; simplify_eq/=; try done; apply evict_sessionless_shrinks.
  - apply keeps_identity_subseteq. unfold try_reserve_context in Hr.
    repeat case_match; simplify_eq/=; try done; apply evict_sessionless_shrinks.
  - by apply keeps_identity_subseteq.
  - apply keeps_identity_admit. by intros ->.
  - by apply keeps_identity_subseteq.
  - pose proof (replacing_identity cid h k now ident conn (sys_mgr s)) as H. rewrite Hr in H. apply H. by intros ->.
  - apply keeps_identity_subseteq. revert Hr. unfold remove_context_if_idle. set (p := fun _ => _).
    pose proof (remove_when_shrinks p k (sys_mgr s)) as [Hs _].
    destruct (remove_context_when p k (sys_mgr s)) as [[]]; intros [= <- <-]; [|done]. exact Hs.
  - apply keeps_identity_subseteq.
    pose proof (remove_when_shrinks (fun c => is_reapable h (sys_mgr s) c now) k (sys_mgr s)) as [Hs _]. by rewrite Hr in Hs.
  - eapply keeps_identity_fmap; [|done]. intros c. apply evict_backend_object_frame.
  - apply keeps_identity_subseteq. cbn. by rewrite H1.
Qed.

(** What the daemon's tasks make of [m], none of them drawing the identifier
    [cid], which is taken. *)
Definition daemon_steps (cid : ClientContextId) (m m' : ContextManager) : Prop :=
  exists s s', sys_mgr s = m /\ sys_mgr s' = m' /\ cid ∈ sys_used s /\ rtc system_step s s'.

Lemma daemon_steps_refl cid m : daemon_steps cid m m.
Proof. exists (MkSystem m ∅ 0 0 {[ cid ]}), (MkSystem m ∅ 0 0 {[ cid ]}). split_and!; [done..|set_solver|apply rtc_refl]. Qed.

Lemma daemon_steps_identity cid m m' : daemon_steps cid m m' -> keeps_identity cid m m'.
Proof.
  intros (s & s' & <- & <- & Hin & Hs). induction Hs as [s|s s1 s' Hst _ IH]; [done|].
  destruct (system_step_identity _ _ _ Hin Hst) as [H1 Hin']. etransitivity; [exact H1|by apply IH].
Qed.

(** ** A concrete daemon *)

(** One context admitted under a cap of one, with an operation in flight. *)
Definition demo_reserved : System :=
  System_new 60 1
    <| sys_mgr := (try_reserve_context (HI := canonical_iter) ∅ 0 (ContextManager_new 60 1)).2 |>
    <| sys_pending ::= N.succ |>.
Definition demo_admitted : System :=
  demo_reserved <| sys_mgr ::= admit_context "ctx" 0 (Some "alice") None |>
    <| sys_pending ::= N.pred |> <| sys_inserted ::= N.succ |>
    <| sys_used ::= fun u => u ∪ {[ "ctx" ]} |>.
Definition demo_system : System :=
  add_guard "ctx" (demo_admitted <| sys_mgr := (begin_operation "ctx" (sys_mgr demo_admitted)).2 |>).

Lemma demo_system_reached : system_reached_in 60 1 3 demo_system.
Proof.
  apply (sri_step _ _ 2 demo_admitted); [apply (sri_step _ _ 1 demo_reserved)|].
  - apply (sri_step _ _ 0 (System_new 60 1)); [apply sri_new|].
    apply (ss_reserve _ (HI := canonical_iter) ∅ 0). reflexivity.
  - apply ss_insert; [reflexivity|]. cbn. set_solver.
  - apply (ss_begin _ "ctx" "ctx"). reflexivity.
Qed.

Lemma demo_system_reachable : system_reachable 60 1 demo_system.
Proof. eapply reached_in_reachable, demo_system_reached. Qed.

Lemma admission_cap_witness :
  system_reachable 60 1 demo_system /\ context_count (sys_mgr demo_system) + sys_pending demo_system <= 1.
Proof.
  split; [apply demo_system_reachable|].
  apply (admission_cap 60 1); [apply demo_system_reachable|reflexivity].
Defined.

Definition demo_in_flight : LogicalClientInstance :=
  LogicalClientInstance_new_with_connection "ctx" 0 (Some "alice") None <| in_flight := 1%Z |>.

Lemma in_flight_context_survives_witness :
  remove_context_if_idle "ctx" 0 (sys_mgr demo_system) = (Busy, sys_mgr demo_system).
Proof.
  destruct (in_flight_context_survives (HI := canonical_iter) 60 1 demo_system "ctx" demo_in_flight)
    as (_ & _ & _ & H).
  - apply demo_system_reachable.
  - reflexivity.
  - reflexivity.
  - apply H. vm_compute. reflexivity.
Defined.

Lemma reachable_context_invariant_witness : ctx_core demo_in_flight /\ id demo_in_flight = "ctx".
Proof.
  destruct (reachable_context_invariant 60 1 3 demo_system "ctx" demo_in_flight) as (H1 & H2 & _).
  - apply demo_system_reached.
  - reflexivity.
  - reflexivity.
  - split; [exact H1|exact H2].
Defined.
