(* ===== verification/ManagerProps.v ===== *)
(** * What the context manager guarantees

    Theorems about single operations of [Manager]: same-identity
    replacement, lease renewal, session-close transitions, the login-holder
    index, the generation-gated caches and the session quota. *)

From S2P Require Import Prelude Ck HandleMap SlotMap Connection Context Manager Reach.
Open Scope N_scope.

(** ** Same-identity replacement *)

Definition replaceable (h : gmap ConnRef ConnectionState) (conn : option ConnRef)
    (ctx : LogicalClientInstance) : Prop :=
  (in_flight ctx <= 0)%Z /\
  (is_transport_dead h ctx = true \/ same_connection_as h conn ctx = true).

Lemma replaceable_bool h conn ctx :
  (in_flight ctx <=? 0)%Z && (is_transport_dead h ctx || same_connection_as h conn ctx) = true
  <-> replaceable h conn ctx.
Proof. unfold replaceable. rewrite andb_true_iff, orb_true_iff, Z.leb_le. done. Qed.

Lemma replace_first_none h conn cids m :
  (replace_first h conn cids m).1 = None ->
  contexts (replace_first h conn cids m).2 = contexts m /\
  forall k c, k ∈ cids -> contexts m !! k = Some c -> ~ replaceable h conn c.
Proof.
  revert m. induction cids as [|cid cids IH]; intros m; [cbn; split; [done|set_solver]|].
  cbn. unfold remove_context_if_replaceable, remove_context_when.
  destruct (contexts m !! cid) as [c|] eqn:Hc.
  - destruct ((in_flight c <=? 0)%Z && _) eqn:Hp; [done|].
    rewrite Hc, bool_decide_eq_true_2 by done. intros Hn. destruct (IH m Hn) as [Heq Hall].
    split; [done|]. intros k c' [->|Hk]%elem_of_cons Hk'; [|by eapply Hall].
    rewrite Hc in Hk'. injection Hk' as <-. rewrite <- replaceable_bool. by rewrite Hp.
  - rewrite Hc, bool_decide_eq_false_2 by (by intros [? ?]). intros Hn.
    destruct (IH m Hn) as [Heq Hall]. split; [done|].
    intros k c' [->|Hk]%elem_of_cons Hk'; [congruence|by eapply Hall].
Qed.

Lemma elem_of_candidates `{HI : HashIter} want m k :
  k ∈ same_identity_candidates want m <->
  exists c, contexts m !! k = Some c /\ authenticated_identity c = Some want.
Proof.
  unfold same_identity_candidates. rewrite list_elem_of_fmap. split.
  - intros ([k' c] & -> & [Hi Hin]%list_elem_of_filter). exists c.
    split; [by apply elem_of_hiter|done].
  - intros (c & Hc & Hi). exists (k, c). split; [done|]. apply list_elem_of_filter.
    split; [done|]. by apply elem_of_hiter.
Qed.

(** The state in which admission decides: expired sessionless contexts have
    been reclaimed if the daemon was full. *)
Definition after_reclaim `{HI : HashIter} (h : gmap ConnRef ConnectionState) (now : N)
    (m : ContextManager) : ContextManager :=
  if at_cap m then evict_expired_sessionless_for_admission h now m else m.

(** Admission at the cap replaces at most one context, and only one that
    belongs to the same authenticated identity, has no operation in flight,
    and is either transport-dead or bound to the caller's own connection
    group; the caller is refused with [HOST_MEMORY] only if the daemon is
    full and no such context exists, and then nothing is removed. *)
Theorem replacement_contract `{HI : HashIter} h cid now ident conn m :
  let m1 := after_reclaim h now m in
  match create_context_replacing_idle_same_identity_on_connection h cid now ident conn m with
  | (Ok (new_id, replaced), m') =>
      new_id = cid /\
      contexts m' !! cid = Some (LogicalClientInstance_new_with_connection cid now ident conn) /\
      match replaced with
      | Some ctx =>
          at_cap m1 = true /\ is_Some ident /\ authenticated_identity ctx = ident /\
          replaceable h conn ctx /\ exists k, contexts m1 !! k = Some ctx
      | None => at_cap m1 = false
      end
  | (Err rv, m') =>
      rv = Rv.HOST_MEMORY /\ at_cap m1 = true /\ contexts m' = contexts m1 /\
      forall k ctx, contexts m1 !! k = Some ctx -> is_Some ident ->
        authenticated_identity ctx = ident -> ~ replaceable h conn ctx
  end.
Proof.
  cbn zeta. unfold create_context_replacing_idle_same_identity_on_connection.
  fold (after_reclaim h now m). set (m1 := after_reclaim h now m). clearbody m1.
  destruct (at_cap m1) eqn:Hcap.
  2:{ split_and!; [done| |done]. by rewrite admit_lookup, decide_True. }
  destruct ident as [want|].
  2:{ rewrite Hcap. split_and!; [done..|]. by intros k ctx _ [? ?]. }
  pose proof (replace_first_spec h conn (same_identity_candidates want m1) m1) as [Hs Hr].
  pose proof (replace_first_none h conn (same_identity_candidates want m1) m1) as Hn.
  destruct (replace_first h conn _ m1) as [[ctx|] m2]; cbn [fst snd] in *.
  - destruct (Hr ctx eq_refl) as ((k & Hk & Hc) & Hf & Hd & _).
    split_and!; [done|by rewrite admit_lookup, decide_True|done..| |done|by exists k].
    apply elem_of_candidates in Hk as (c & Hc' & Hi). congruence.
  - destruct (Hn eq_refl) as [Heq Hall].
    assert (at_cap m2 = true) as ->.
    { destruct Hs as (_ & Hm & Hres). unfold at_cap, context_count in *.
      by rewrite Heq, Hm, Hres. }
    split_and!; [done..|]. intros k ctx Hk _ Hi. apply (Hall k); [|done].
    apply elem_of_candidates. eauto.
Qed.

(** ** Leases *)

(** Activity renews the lease: after a request or the end of a long
    backend call at [now], a context whose transport is alive cannot be
    reaped before a full lease has passed; and while it holds a session it
    cannot be reaped before its absolute lifetime has passed either. *)
Theorem activity_defers_reaping h m cid c now t :
  contexts m !! cid = Some c -> is_transport_dead h c = false ->
  (t <= now + lease_duration m \/
   (ctx_core c /\ (exists v, is_Some (session_slots c !! v)) /\
    t <= created_at c + max_context_lifetime m)) ->
  exists c', contexts (OperationGuard_drop now cid m) !! cid = Some c' /\
    is_reapable h (OperationGuard_drop now cid m) c' t = false /\
  exists c'', contexts (get_context now cid (fun c => (tt, c)) m).2 !! cid = Some c'' /\
    is_reapable h (get_context now cid (fun c => (tt, c)) m).2 c'' t = false.
Proof.
  intros Hc Hlive Ht.
  assert (Hgen : forall c', connection_state c' = connection_state c ->
    last_active c' = now -> created_at c' = created_at c ->
    session_handles c' = session_handles c -> is_reapable h m c' t = false).
  { intros c' Hcs Hla Hca Hsh. unfold is_reapable. case_match; [done|].
    assert (is_transport_dead h c' = false) as ->.
    { unfold is_transport_dead, live_connection_bindings in *. by rewrite Hcs. }
    rewrite Hla, Hca. unfold duration_since.
    apply andb_false_iff. destruct Ht as [Ht|(Hcore & Hv & Ht)]; [left; apply N.ltb_ge; lia|right].
    apply orb_false_iff. split; [|apply N.ltb_ge; lia].
    apply (has_open_backend_sessions_spec _ Hcore) in Hv. unfold has_open_backend_sessions in *.
    rewrite Hsh. by rewrite Hv. }
  eexists. split; [unfold OperationGuard_drop; cbn; by rewrite lookup_alter_eq, Hc|].
  split; [by apply Hgen|].
  unfold get_context. rewrite Hc. cbn. eexists. split; [by rewrite lookup_insert_eq|]. by apply Hgen.
Qed.

(** ** Session-close transitions *)

(** Removing, suspending or reactivating one handle leaves the others. *)
Lemma resolve_remove_ne v v' m :
  v <> v' -> HandleMap_resolve v' (HandleMap_remove v m).2 = HandleMap_resolve v' m.
Proof.
  intros Hne. unfold HandleMap_remove, HandleMap_resolve, unbind_reverse.
  destruct (virtual_to_backend m !! v); cbn;
    [|destruct (suspended_virtual_to_backend m !! v); cbn; [|done]];
    case_bool_decide; cbn; rewrite ?lookup_delete_ne by done; done.
Qed.

Lemma resolve_suspend v v' m :
  HandleMap_resolve v' (HandleMap_suspend v m).2 =
  if decide (v = v') then None else HandleMap_resolve v' m.
Proof.
  unfold HandleMap_suspend, HandleMap_resolve, unbind_reverse.
  destruct (virtual_to_backend m !! v) eqn:Ev; cbn; [case_bool_decide; cbn; by rewrite lookup_delete|].
  case_decide; [by subst|done].
Qed.

Lemma resolve_remove_session_ne v v' c :
  v <> v' ->
  HandleMap_resolve v' (session_handles (LogicalClientInstance_remove_session v c).2) =
  HandleMap_resolve v' (session_handles c).
Proof.
  intros Hne. destruct (remove_session_split v c) as (c' & Hd & ->). cbn [snd].
  assert (forall x, session_handles x = session_handles c' ->
    HandleMap_resolve v' (session_handles x) = HandleMap_resolve v' (session_handles c)) as Hx.
  { intros x ->. rewrite (dt_handles _ _ _ Hd). by apply resolve_remove_ne. }
  destruct (session_slots c !! v); [destruct (holds_slot c' b)|]; by apply Hx.
Qed.

(** The status of a handle after a completed close. *)
Definition close_outcome (k : CloseSessionCompletion) (v : VirtualHandle) (b : BackendHandle)
    (c c' : LogicalClientInstance) : Prop :=
  match k with
  | Terminal => HandleMap_is_proven_gone v (session_handles c') = true /\
                session_slots c' !! v = None
  | Transient =>
      (exists v', v' <> v /\ HandleMap_resolve v' (session_handles c) = Some b /\
                  HandleMap_resolve v (session_handles c') = None) \/
      (HandleMap_resolve v (session_handles c') = Some b /\
       message_operations c' = message_operations c)
  | Ambiguous => HandleMap_resolve v (session_handles c') = None /\
                 HandleMap_suspended_backend v (session_handles c') = Some b
  end.

Lemma proven_gone_owner v m : owner m v = None -> HandleMap_is_proven_gone v m = true.
Proof.
  unfold owner, HandleMap_is_proven_gone, HandleMap_resolve, HandleMap_suspended_backend.
  destruct (virtual_to_backend m !! v); [done|]. by intros ->.
Qed.

Lemma complete_close_spec m cid v b k :
  (forall c, contexts m !! cid = Some c -> ctx_core c) ->
  let m' := complete_close_session cid v b k m in
  (forall cid', cid' <> cid -> contexts m' !! cid' = contexts m !! cid') /\
  match contexts m !! cid with
  | None => m' = m
  | Some c =>
      if decide (HandleMap_suspended_backend v (session_handles c) = Some b) then
        exists c', contexts m' !! cid = Some c' /\ ctx_core c' /\ close_outcome k v b c c' /\
          forall v', v' <> v ->
            HandleMap_resolve v' (session_handles c') = HandleMap_resolve v' (session_handles c) /\
            session_slots c' !! v' = session_slots c !! v'
      else m' = m
  end.
Proof.
  intros Hcore. cbn zeta. unfold complete_close_session.
  destruct (contexts m !! cid) as [c|] eqn:Hc; [|done].
  specialize (Hcore c eq_refl). pose proof (cw_sessions _ Hcore) as Hhm.
  destruct (decide (HandleMap_suspended_backend v (session_handles c) = Some b)) as [Hs|Hs];
    [rewrite (bool_decide_eq_true_2 _ Hs)|by rewrite (bool_decide_eq_false_2 _ Hs)].
  cbn [negb].
  assert (Hsusp : HandleMap_resolve v (session_handles c) = None) by (by eapply hm_disj).
  assert (Hcell : forall c', c' = drop_message_operations v c ->
    ctx_core c' /\ HandleMap_resolve v (session_handles c') = None /\
    HandleMap_suspended_backend v (session_handles c') = Some b /\
    forall v', v' <> v ->
      HandleMap_resolve v' (session_handles c') = HandleMap_resolve v' (session_handles c) /\
      session_slots c' !! v' = session_slots c !! v').
  { intros c' ->. split_and!; try done. by apply drop_message_operations_core. }
  destruct k.
  - set (c' := (LogicalClientInstance_remove_session v c).2).
    assert (forall m', contexts m' = <[cid := c']> (contexts m) ->
      (forall cid', cid' <> cid -> contexts m' !! cid' = contexts m !! cid') /\
      exists c'', contexts m' !! cid = Some c'' /\ ctx_core c'' /\ close_outcome Terminal v b c c'' /\
        forall v', v' <> v ->
          HandleMap_resolve v' (session_handles c'') = HandleMap_resolve v' (session_handles c) /\
          session_slots c'' !! v' = session_slots c !! v') as Hgen.
    { intros m' ->. split; [intros; by rewrite lookup_insert_ne|].
      exists c'. rewrite lookup_insert_eq. unfold c'.
      destruct (remove_session_split v c) as (c2 & Hd & Heq).
      assert (session_slots c' = delete v (session_slots c) /\
              session_handles c' = (HandleMap_remove v (session_handles c)).2) as [Hsl Hsh].
      { unfold c'. rewrite Heq. cbn [snd].
        destruct (session_slots c !! v); [destruct (holds_slot c2 _)|]; cbn;
          by rewrite (dt_slots _ _ _ Hd), (dt_handles _ _ _ Hd). }
      unfold c' in *. split_and!; [done|by apply remove_session_core|..].
      - unfold close_outcome. rewrite Hsl, Hsh. split; [|apply lookup_delete_eq]. apply proven_gone_owner.
        destruct (owner_remove v _ v Hhm) as [-> _]. by rewrite decide_True.
      - intros v' Hne. rewrite Hsl, lookup_delete_ne by done.
        split; [by apply resolve_remove_session_ne|done]. }
    destruct (session_slots c !! v); [case_match|]; by apply Hgen.
  - destruct (reactivate_cases v b _ Hhm) as [[Hr Hcase]|(Hr & _ & Hb)]; rewrite Hr.
    + destruct (Hcell _ eq_refl) as (H1 & H2 & H3 & H4).
      split; [intros; cbn; by rewrite lookup_insert_ne|].
      eexists. cbn [contexts]. cbn. rewrite lookup_insert_eq. split_and!; [done..| |done].
      left. destruct Hcase as [?|(v' & ? & ?)]; [done|]. exists v'. done.
    + split; [intros; cbn; by rewrite lookup_insert_ne|].
      eexists. cbn. rewrite lookup_insert_eq. split_and!; [done|..].
      * apply (set_session_handles_core _ c Hcore).
        -- pose proof (reactivate_wf v b _ Hhm) as Hw. by rewrite Hr in Hw.
        -- intros v'. pose proof (owner_reactivate v b _ v' Hhm) as Ho. by rewrite Hr in Ho.
      * right. split; [|done]. unfold HandleMap_resolve. cbn. by rewrite lookup_insert_eq.
      * intros v' Hne. split; [|done]. unfold HandleMap_resolve. cbn. by rewrite lookup_insert_ne.
  - destruct (Hcell _ eq_refl) as (H1 & H2 & H3 & H4).
    split; [intros; cbn; by rewrite lookup_insert_ne|].
    eexists. cbn [contexts]. cbn. rewrite lookup_insert_eq. by split_and!.
Qed.

(** A close completion acts only on the tuple it was started for.  If
    the session is no longer suspended with that backend handle the
    completion changes nothing; otherwise a terminal completion removes the
    session for good, a transient one makes it usable again with the same
    backend handle (unless the provider has already handed that handle to a
    newer session, which is then left alone), and an ambiguous one keeps it
    quarantined.  No other session of the client and no other client is
    touched. *)
Theorem close_completion_contract m cid v b k :
  (forall c, contexts m !! cid = Some c -> ctx_core c) ->
  let m' := complete_close_session cid v b k m in
  (forall cid', cid' <> cid -> contexts m' !! cid' = contexts m !! cid') /\
  match contexts m !! cid with
  | None => m' = m
  | Some c =>
      if decide (HandleMap_suspended_backend v (session_handles c) = Some b) then
        exists c', contexts m' !! cid = Some c' /\ ctx_core c' /\ close_outcome k v b c c' /\
          forall v', v' <> v ->
            HandleMap_resolve v' (session_handles c') = HandleMap_resolve v' (session_handles c) /\
            session_slots c' !! v' = session_slots c !! v'
      else m' = m
  end.
Proof. apply complete_close_spec. Qed.

(** A context with an in-flight close of one session. *)
Definition closing (v : VirtualHandle) (c : LogicalClientInstance) : LogicalClientInstance :=
  c <| in_flight ::= Z.succ |> <| session_handles ::= fun hm => (HandleMap_suspend v hm).2 |>.

Lemma closing_core v c : ctx_core c -> ctx_core (closing v c).
Proof.
  intros Hc. set (c0 := c <| in_flight ::= Z.succ |>).
  apply (set_session_handles_core (HandleMap_suspend v (session_handles c)).2 c0);
    [by apply in_flight_core|apply suspend_wf, Hc|intros v'; apply owner_suspend, Hc].
Qed.

Lemma begin_close_spec now m cid v c b :
  contexts m !! cid = Some c -> HandleMap_resolve v (session_handles c) = Some b ->
  exists m1,
    begin_close_session_with_guard now cid v None m
      = (Ok (MkCloseTransition cid v b cid true false false), m1) /\
    contexts m1 = <[cid := closing v c]> (contexts m).
Proof.
  intros Hc Hres. unfold begin_close_session_with_guard, begin_operation. rewrite Hc.
  cbn [contexts set_field]. rewrite lookup_insert_eq. cbn [session_handles set_field].
  unfold closing. cbn [session_handles set_field].
  assert ((HandleMap_suspend v (session_handles c)).1 = Some b) as Hfst.
  { unfold HandleMap_suspend, HandleMap_resolve in *. by rewrite Hres. }
  destruct (HandleMap_suspend v (session_handles c)) as [o hm]. cbn in Hfst. subst o.
  eexists. split; [done|]. cbn. apply insert_insert_eq.
Qed.

(** Beginning to close a live session hides it at once, pins the
    context with an in-flight guard, and leaves the other sessions alone;
    the verdict of the provider then decides: success and the two
    session-is-gone codes are terminal, [DEVICE_ERROR] is ambiguous, every
    other error gives the session back. *)
Theorem close_begin_contract now m cid v c b :
  contexts m !! cid = Some c -> ctx_core c ->
  HandleMap_resolve v (session_handles c) = Some b ->
  exists m1 c1,
    begin_close_session_with_guard now cid v None m
      = (Ok (MkCloseTransition cid v b cid true false false), m1) /\
    contexts m1 = <[cid := c1]> (contexts m) /\
    in_flight c1 = (in_flight c + 1)%Z /\
    HandleMap_resolve v (session_handles c1) = None /\
    HandleMap_suspended_backend v (session_handles c1) = Some b /\
    (forall v', v' <> v ->
       HandleMap_resolve v' (session_handles c1) = HandleMap_resolve v' (session_handles c)) /\
    forall result, contexts (CloseSessionTransition_settle result
        (CloseSessionTransition_mark_started (MkCloseTransition cid v b cid true false false)) m1).2
      = contexts (complete_close_session cid v b
          (match result with
           | Ok _ => Terminal
           | Err rv => if decide (rv = Rv.SESSION_CLOSED \/ rv = Rv.SESSION_HANDLE_INVALID)
                       then Terminal
                       else if decide (rv = Rv.DEVICE_ERROR) then Ambiguous else Transient
           end) m1).
Proof.
  intros Hc Hcore Hres. pose proof (cw_sessions _ Hcore) as Hhm.
  destruct (begin_close_spec now m cid v c b Hc Hres) as (m1 & Hb & Hm1).
  destruct (table_suspend _ v b Hhm Hres) as [Hs _].
  exists m1, (closing v c). split; [done|]. split; [done|].
  assert (session_handles (closing v c) = (HandleMap_suspend v (session_handles c)).2) as Hsh by done.
  rewrite Hsh, Hs. split_and!.
  - cbn. lia.
  - unfold HandleMap_resolve. cbn. apply lookup_delete_eq.
  - unfold HandleMap_suspended_backend. cbn. apply lookup_insert_eq.
  - intros v' Hne. unfold HandleMap_resolve. cbn. by rewrite lookup_delete_ne.
  - intros result. unfold CloseSessionTransition_settle. cbn [snd].
    assert (close_completion result = match result with
       | Ok _ => Terminal
       | Err rv => if decide (rv = Rv.SESSION_CLOSED \/ rv = Rv.SESSION_HANDLE_INVALID)
                   then Terminal else if decide (rv = Rv.DEVICE_ERROR) then Ambiguous else Transient
       end) as ->; [|done].
    destruct result as [u|rv]; [done|]. unfold close_completion.
    destruct (rv_eqb rv Rv.SESSION_CLOSED) eqn:E1; [apply rv_eqb_eq in E1; by rewrite decide_True by auto|].
    destruct (rv_eqb rv Rv.SESSION_HANDLE_INVALID) eqn:E2;
      [apply rv_eqb_eq in E2; by rewrite decide_True by auto|].
    apply rv_eqb_neq in E1, E2. cbn [orb]. rewrite decide_False by tauto.
    destruct (rv_eqb rv Rv.DEVICE_ERROR) eqn:E3.
    + apply rv_eqb_eq in E3. by rewrite decide_True.
    + apply rv_eqb_neq in E3. by rewrite decide_False.
Qed.

(** ** The login-holder index *)

Definition indexed (m : ContextManager) (slot : BackendSlotId) (cid : ClientContextId) : Prop :=
  cid ∈ default ∅ (slot_login_holders m !! slot).

Definition holds_login (m : ContextManager) (slot : BackendSlotId) (cid : ClientContextId) : Prop :=
  exists c, contexts m !! cid = Some c /\ is_Some (login_state c !! slot).

#[export] Instance holds_login_dec m slot cid : Decision (holds_login m slot cid).
Proof.
  unfold holds_login. destruct (contexts m !! cid) as [c|].
  - destruct (decide (is_Some (login_state c !! slot))); [left; eauto|right; naive_solver].
  - right. naive_solver.
Defined.

(** Every logical holder of the slot is indexed. *)
Definition index_covers (m : ContextManager) (slot : BackendSlotId) : Prop :=
  forall cid, holds_login m slot cid -> indexed m slot cid.

Lemma indexed_released m cid slot s x :
  indexed (note_login_released cid slot m) s x <->
  indexed m s x /\ ~ (s = slot /\ x = cid).
Proof.
  unfold indexed, note_login_released. cbn. rewrite lookup_partial_alter.
  case_decide as Hs; [subst s|naive_solver].
  destruct (slot_login_holders m !! slot) as [hs|]; cbn; [|set_solver].
  case_bool_decide as Hb; cbn; set_solver.
Qed.

Lemma indexed_acquired m cid slot s x :
  indexed (note_login_acquired cid slot m) s x <-> indexed m s x \/ (s = slot /\ x = cid).
Proof.
  unfold indexed, note_login_acquired. cbn. rewrite lookup_partial_alter.
  case_decide as Hs; [subst s|naive_solver]. cbn. set_solver.
Qed.

Lemma released_all_spec slot stale m :
  let m' := foldl (fun m cid => note_login_released cid slot m) m stale in
  contexts m' = contexts m /\
  forall s x, indexed m' s x <-> indexed m s x /\ ~ (s = slot /\ x ∈ stale).
Proof.
  revert m. induction stale as [|cid stale IH]; intros m; cbn.
  - split; [done|]. intros s x. set_solver.
  - destruct (IH (note_login_released cid slot m)) as [Hc Hi]. split; [done|].
    intros s x. rewrite Hi, indexed_released, elem_of_cons. naive_solver.
Qed.

Lemma scan_lookup m slot cid :
  (ctx ← contexts m !! cid; login_state ctx !! slot) = None <-> ~ holds_login m slot cid.
Proof.
  unfold holds_login. destruct (contexts m !! cid) as [c|]; cbn; [|naive_solver].
  rewrite eq_None_not_Some. naive_solver.
Qed.

Lemma scan_holders_spec slot ex m cands stale :
  match scan_holders slot ex m cands stale with
  | inl st => exists cid c, cid ∈ cands /\ cid <> ex /\ contexts m !! cid = Some c /\
                            login_state c !! slot = Some st
  | inr stale' =>
      (forall cid, cid ∈ cands -> holds_login m slot cid -> cid = ex) /\
      (forall x, x ∈ stale' <-> x ∈ stale \/ (x ∈ cands /\ ~ holds_login m slot x))
  end.
Proof.
  revert stale. induction cands as [|cid cands IH]; intros stale; cbn [scan_holders].
  { split; [set_solver|set_solver]. }
  destruct (ctx ← contexts m !! cid; login_state ctx !! slot) as [st|] eqn:E.
  - assert (holds_login m slot cid) as Hl.
    { destruct (decide (holds_login m slot cid)) as [?|Hn]; [done|]. apply scan_lookup in Hn. congruence. }
    case_bool_decide as Hne.
    + apply bind_Some in E as (c & Hc & Hst). exists cid, c. set_solver.
    + assert (cid = ex) as -> by (destruct (decide (cid = ex)); done).
      specialize (IH stale). destruct (scan_holders _ _ _ _ _); [set_solver|].
      destruct IH as [H1 H2]. split; [set_solver|]. intros x. rewrite H2. set_solver.
  - apply scan_lookup in E. specialize (IH (stale ++ [cid])).
    destruct (scan_holders _ _ _ _ _); [set_solver|]. destruct IH as [H1 H2].
    split; [set_solver|]. intros x. rewrite H2. set_solver.
Qed.

Lemma authoritative_spec `{HI : HashIter} slot ex m :
  is_Some (first_login_state_for_slot_excluding_authoritative slot ex m) <->
  exists cid, cid <> ex /\ holds_login m slot cid.
Proof.
  unfold first_login_state_for_slot_excluding_authoritative, holds_login. split.
  - intros [st Hst]. apply find_map_Some in Hst as ([cid c] & Hin & Hc).
    apply elem_of_hiter in Hin. cbn in Hc. case_bool_decide; [done|]. exists cid. eauto.
  - intros (cid & Hne & c & Hc & [st Hst]). apply not_eq_None_Some. intros Hn.
    apply elem_of_hiter in Hc. apply (proj1 (find_map_None _ _) Hn) in Hc. cbn in Hc.
    rewrite bool_decide_eq_false_2 in Hc by done. congruence.
Qed.

(** The indexed fast path finds another holder of the slot's login only
    if one exists (its answer is verified against the live context), and
    finds one whenever the authoritative scan would, as long as the index
    covers the holders; pruning never loses a holder, and after a miss the
    index of the slot names live holders only. *)
Theorem holder_index_agrees `{HI : HashIter} slot ex m :
  let r := first_login_state_for_slot_excluding slot ex m in
  contexts r.2 = contexts m /\
  (forall st, r.1 = Some st -> exists cid c, cid <> ex /\ contexts m !! cid = Some c /\
                                             login_state c !! slot = Some st) /\
  (index_covers m slot ->
     (is_Some r.1 <-> is_Some (first_login_state_for_slot_excluding_authoritative slot ex m)) /\
     index_covers r.2 slot) /\
  (r.1 = None -> forall cid, indexed r.2 slot cid -> holds_login m slot cid).
Proof.
  cbn zeta. unfold first_login_state_for_slot_excluding, slot_login_holder_ids.
  rewrite authoritative_spec.
  destruct (slot_login_holders m !! slot) as [hs|] eqn:Eh; cbn [fmap option_fmap option_map].
  - pose proof (scan_holders_spec slot ex m (elements hs) []) as Hs.
    destruct (scan_holders slot ex m (elements hs) []) as [st|stale]; cbn [fst snd].
    + destruct Hs as (cid & c & Hin & Hne & Hc & Hst). split_and!; [done| | |done].
      * intros st' [= <-]. eauto.
      * intros Hcov. split; [|done]. split; [|eauto]. intros _. exists cid. split; [done|].
        exists c. eauto.
    + destruct Hs as [Hex Hst]. destruct (released_all_spec slot stale m) as [Hc Hi].
      assert (Hidx : forall x, indexed m slot x <-> x ∈ elements hs).
      { intros x. unfold indexed. rewrite Eh. cbn. by rewrite elem_of_elements. }
      split_and!; [done|done| |].
      * intros Hcov. split.
        -- split; [by intros [? ?]|]. intros (cid & Hne & Hl). exfalso. apply Hne.
           apply Hex; [|done]. by apply Hidx, Hcov.
        -- intros cid Hl. apply Hi. assert (holds_login m slot cid) as Hl'.
           { unfold holds_login in *. by rewrite Hc in Hl. }
           split; [by apply Hcov|]. intros [_ Hin]. apply Hst in Hin as [?|[_ ?]]; [set_solver|done].
      * intros _ cid [Hin Hn]%Hi. apply Hidx in Hin.
        destruct (decide (holds_login m slot cid)); [done|]. exfalso. apply Hn. split; [done|].
        apply Hst. by right.
  - cbn [fst snd]. split_and!; [done|done| |].
    + intros Hcov. split; [|done]. split; [by intros [? ?]|].
      intros (cid & _ & Hl). apply Hcov in Hl. unfold indexed in Hl. rewrite Eh in Hl. set_solver.
    + intros _ cid Hl. unfold indexed in Hl. rewrite Eh in Hl. set_solver.
Qed.

(** ** Generation-gated caches *)

(** Cached object metadata is served to an authorization check only if
    it is a session object's, or a token object's tagged with the current
    generation; so one revocation (object destroyed, token reinitialised)
    makes every cached token-object entry unusable, in every context. *)
Theorem metadata_generation_gate now cid vo m :
  (forall md m', manager_object_metadata now cid vo m = (Some md, m') ->
     exists c, contexts m !! cid = Some c /\
       (object_metadata c !! VH vo = Some md \/
        token_object_metadata c !! VH vo = Some (MkGated (authz_generation m) md))) /\
  (forall c, contexts m !! cid = Some c ->
     (forall vh g, token_object_metadata c !! vh = Some g -> generation g <= authz_generation m) ->
     authz_generation m < u64_MAX -> object_metadata c !! VH vo = None ->
     (manager_object_metadata now cid vo (revoke_authz_generation m)).1 = None).
Proof.
  split.
  - intros md m'. unfold manager_object_metadata.
    destruct (contexts m !! cid) as [c|] eqn:Hc;
      [rewrite (get_context_present _ _ _ _ c Hc)|by rewrite get_context_absent].
    cbn. intros Heq. exists c. split; [done|].
    destruct (object_metadata c !! VH vo) as [md0|]; [left; cbn in Heq; congruence|right].
    destruct (token_object_metadata c !! VH vo) as [[g md0]|]; [|done]. cbn in Heq.
    destruct (N.eqb_spec g (authz_generation m)) as [->|]; cbn in Heq; congruence.
  - intros c Hc Hold Hroom Hs. unfold manager_object_metadata.
    rewrite (get_context_present _ _ _ (revoke_authz_generation m) c) by done. cbn. rewrite Hs.
    destruct (token_object_metadata c !! VH vo) as [g|] eqn:Hg; [|done].
    specialize (Hold _ _ Hg). destruct (N.eqb_spec (generation g) (wrapping_add64 (authz_generation m) 1)) as [He|];
      [|done]. rewrite wrapping_succ in He by done. lia.
Qed.

(** Metadata fetched for a token object before a token reinitialisation
    but cached after it is tagged with the generation current at caching
    time, so it is served as current afterwards. *)
Theorem late_metadata_served_as_current now now' cid vo slot m c md :
  contexts m !! cid = Some c -> object_metadata c !! VH vo = None -> is_token md = true ->
  (manager_object_metadata now' cid vo
     (cache_object_metadata now cid vo md (invalidate_token_info_on_reinit slot m))).1 = Some md.
Proof.
  intros Hc Hs Ht. unfold cache_object_metadata. rewrite Ht.
  rewrite (get_context_present _ _ _ (invalidate_token_info_on_reinit slot m) c) by done. cbn [snd].
  unfold manager_object_metadata.
  erewrite (get_context_present _ _ _ _ _) by (cbn; apply lookup_insert_eq).
  cbn. rewrite Hs, lookup_insert_eq. cbn. by rewrite N.eqb_refl.
Qed.

(** Operations on the token-information cache between a fetch and its
    publication. *)
Inductive TokenCacheOp :=
| TcPublish (now : N) (slot : BackendSlotId) (label serial : string) (gen : N)
| TcInvalidate (slot : BackendSlotId)
| TcReinit (slot : BackendSlotId)
| TcRegister (slot : BackendSlotId)
| TcRevoke.

Definition token_cache_run (m : ContextManager) (op : TokenCacheOp) : ContextManager :=
  match op with
  | TcPublish now slot label serial gen =>
      (cache_token_info_if_generation now slot label serial gen m).2
  | TcInvalidate slot => invalidate_token_info slot m
  | TcReinit slot => invalidate_token_info_on_reinit slot m
  | TcRegister slot => register_slot slot m
  | TcRevoke => revoke_authz_generation m
  end.

(** Publications of fetches that captured a generation up to [g]. *)
Definition captured_by (g : N) (op : TokenCacheOp) : Prop :=
  match op with TcPublish _ _ _ _ gen => gen <= g | _ => True end.

Lemma token_cache_run_generation m op :
  authz_generation m < u64_MAX ->
  authz_generation m <= authz_generation (token_cache_run m op) <= authz_generation m + 1.
Proof.
  intros Hroom. destruct op; cbn; try lia;
    try (unfold cache_token_info_if_generation; case_match; cbn; lia);
    rewrite wrapping_succ by done; lia.
Qed.

Lemma token_cache_stays_empty g slot m ops :
  g < authz_generation m -> authz_generation m + N.of_nat (length ops) <= u64_MAX ->
  token_info_cache m !! slot = None -> Forall (captured_by g) ops ->
  token_info_cache (foldl token_cache_run m ops) !! slot = None.
Proof.
  revert m. induction ops as [|op ops IH]; intros m Hg Hroom Hn Hops; [done|].
  apply Forall_cons in Hops as [Hop Hops]. cbn [foldl]. cbn in Hroom.
  pose proof (token_cache_run_generation m op ltac:(lia)).
  apply IH; [lia|lia| |done].
  destruct op; cbn in *; try (rewrite lookup_delete; by case_decide); [|done].
  unfold cache_token_info_if_generation. destruct (N.eqb_spec (authz_generation m) gen); [lia|done].
Qed.

(** After a token has been reinitialised, no label and serial fetched
    before that can reappear in the authorization cache: whatever
    publications of earlier fetches and whatever invalidations follow, a
    lookup of the slot misses (and in any case nothing older than the
    five-second limit is ever served). *)
Theorem no_stale_token_info now slot m ops :
  authz_generation m + N.of_nat (length ops) + 1 <= u64_MAX ->
  Forall (captured_by (authz_generation m)) ops ->
  cached_token_info now slot
    (foldl token_cache_run (invalidate_token_info_on_reinit slot m) ops) = None /\
  (forall m' l s, cached_token_info now slot m' = Some (l, s) ->
     exists at_, token_info_cache m' !! slot = Some (at_, l, s) /\ now < at_ + TOKEN_INFO_CACHE_TTL).
Proof.
  intros Hroom Hops. split.
  - unfold cached_token_info.
    rewrite (token_cache_stays_empty (authz_generation m)); [done|..| |done]; cbn;
      rewrite ?wrapping_succ by lia; try lia. apply lookup_delete_eq.
  - intros m' l s. unfold cached_token_info.
    destruct (token_info_cache m' !! slot) as [[[at_ l'] s']|]; [|done].
    destruct (N.ltb_spec (duration_since now at_) TOKEN_INFO_CACHE_TTL) as [Hlt|]; [|done].
    intros [= -> ->]. exists at_. split; [done|]. unfold duration_since in Hlt. lia.
Qed.

(** Destroying a backend object forgets it in every client: afterwards
    no context maps the backend handle, every client that did has the
    handle tombstoned and all cached state about it dropped, its other
    objects are unchanged, and other clients are untouched. *)
Theorem destroyed_object_forgotten b m cid c' :
  (forall k c, contexts m !! k = Some c -> ctx_core c) ->
  contexts (evict_backend_object_everywhere b m) !! cid = Some c' ->
  HandleMap_resolve_backend b (object_handles c') = None /\
  exists c, contexts m !! cid = Some c /\
    match HandleMap_resolve_backend b (object_handles c) with
    | None => c' = c
    | Some o => object_absent c' o /\ o ∈ destroyed_objects c' /\
                forall o', o' <> o -> object_same c c' o'
    end.
Proof.
  intros Hcore. unfold evict_backend_object_everywhere. cbn. rewrite lookup_fmap, fmap_Some.
  intros (c & Hc & ->). pose proof (cw_objects _ (Hcore _ _ Hc)) as Hwf. unfold evict_backend_object.
  destruct (HandleMap_resolve_backend b (object_handles c)) as [o|] eqn:Ho; [|split; eauto].
  2:{ exists c. by rewrite Ho. }
  set (c0 := c <| destroyed_objects ::= fun s => s ∪ {[ o ]} |>).
  pose proof (fun o' => evict_object_spec o c0 o' Hwf) as Hspec.
  split.
  - unfold HandleMap_resolve_backend in *. apply (hm_bij _ Hwf) in Ho as Hv.
    cbn. unfold HandleMap_remove. rewrite Hv. cbn [snd]. rewrite unbind_reverse_live by done.
    cbn. apply lookup_delete_eq.
  - exists c. split; [done|]. rewrite Ho. split_and!.
    + specialize (Hspec o). by rewrite decide_True in Hspec.
    + cbn. set_solver.
    + intros o' Hne. specialize (Hspec o'). rewrite decide_False in Hspec by done. exact Hspec.
Qed.

(** ** The session quota *)

Lemma map_sum_update {K V} `{Countable K} (f : K -> V -> nat) (m : gmap K V) k v v0 :
  m !! k = Some v0 -> (map_sum f (<[k := v]> m) + f k v0 = map_sum f m + f k v)%nat.
Proof.
  intros Hk. rewrite <- (insert_delete_id m k v0 Hk) at 2. rewrite <- insert_delete_eq.
  rewrite !map_sum_insert by apply lookup_delete_eq. lia.
Qed.

Lemma map_sum_delete {K V} `{Countable K} (f : K -> V -> nat) (m : gmap K V) k :
  (map_sum f (delete k m) <= map_sum f m)%nat.
Proof.
  destruct (m !! k) as [v|] eqn:Hk; [|by rewrite delete_id].
  rewrite <- (insert_delete_id m k v Hk) at 2. rewrite map_sum_insert by apply lookup_delete_eq. lia.
Qed.

(** The manager together with the reservations of [principal] that are held
    by an open in progress ([q_held]) or registered but not yet dropped. *)
Record Quota := MkQuota { q_mgr : ContextManager; q_held : N; q_registered : N }.

(** The keys a context's sessions are attributed to. *)
Definition same_attribution (c c' : LogicalClientInstance) : Prop :=
  authenticated_identity c' = authenticated_identity c /\ last_peer_ip c' = last_peer_ip c.

Inductive quota_step (p : string) (max : N) (q : Quota) : Quota -> Prop :=
| q_reserve m' :
    try_reserve_session_for_principal p max (q_mgr q) = (true, m') ->
    quota_step p max q (MkQuota m' (q_held q + 1) (q_registered q))
| q_reserve_other p' max' ok m' :
    p' <> p -> try_reserve_session_for_principal p' max' (q_mgr q) = (ok, m') ->
    quota_step p max q (MkQuota m' (q_held q) (q_registered q))
| q_failed :
    0 < q_held q ->
    quota_step p max q (MkQuota (release_session_reservation p (q_mgr q))
                          (q_held q - 1) (q_registered q))
| q_register cid c b slot :
    contexts (q_mgr q) !! cid = Some c -> principal_matches p cid c = true -> 0 < q_held q ->
    quota_step p max q (MkQuota (q_mgr q <| contexts ::=
        <[cid := (LogicalClientInstance_register_session b slot c).2]> |>)
      (q_held q - 1) (q_registered q + 1))
| q_dropped :
    0 < q_registered q ->
    quota_step p max q (MkQuota (release_session_reservation p (q_mgr q))
                          (q_held q) (q_registered q - 1))
| q_release_other p' :
    p' <> p ->
    quota_step p max q (MkQuota (release_session_reservation p' (q_mgr q))
                          (q_held q) (q_registered q))
| q_update cid c c' :
    contexts (q_mgr q) !! cid = Some c -> same_attribution c c' ->
    principal_matches p cid c = false \/ (size (session_slots c') <= size (session_slots c))%nat ->
    quota_step p max q (MkQuota (q_mgr q <| contexts ::= <[cid := c']> |>)
                          (q_held q) (q_registered q))
| q_admit cid now identity conn :
    contexts (q_mgr q) !! cid = None ->
    quota_step p max q (MkQuota (admit_context cid now identity conn (q_mgr q))
                          (q_held q) (q_registered q))
| q_remove cid :
    quota_step p max q (MkQuota (q_mgr q <| contexts ::= delete cid |>)
                          (q_held q) (q_registered q)).

Inductive quota_reachable (p : string) (max : N) : Quota -> Prop :=
| qr_new lease cap : quota_reachable p max (MkQuota (ContextManager_new lease cap) 0 0)
| qr_step q q' : quota_reachable p max q -> quota_step p max q q' -> quota_reachable p max q'.

Definition quota_inv (p : string) (max : N) (q : Quota) : Prop :=
  session_count_for_principal p (q_mgr q) + q_held q <= max /\
  outstanding_reservations p (q_mgr q) = q_held q + q_registered q.

Lemma outstanding_release p m :
  outstanding_reservations p (release_session_reservation p m) = outstanding_reservations p m - 1.
Proof.
  unfold outstanding_reservations, release_session_reservation. cbn.
  rewrite lookup_partial_alter_eq. destruct (session_quota_reservations m !! p) as [n|]; cbn; [|lia].
  destruct (N.eqb_spec (N.pred n) 0); cbn; lia.
Qed.

Lemma outstanding_release_ne p p' m :
  p' <> p ->
  outstanding_reservations p (release_session_reservation p' m) = outstanding_reservations p m.
Proof.
  intros Hne. unfold outstanding_reservations, release_session_reservation. cbn.
  by rewrite lookup_partial_alter_ne.
Qed.

(** How the live count moves when one context changes. *)
Lemma session_count_update p m cid c c' :
  contexts m !! cid = Some c -> same_attribution c c' ->
  session_count_for_principal p (m <| contexts ::= <[cid := c']> |>) +
    (if principal_matches p cid c then N.of_nat (size (session_slots c)) else 0) =
  session_count_for_principal p m +
    (if principal_matches p cid c then N.of_nat (size (session_slots c')) else 0).
Proof.
  intros Hc [Hi Hp]. unfold session_count_for_principal. cbn.
  pose proof (map_sum_update (fun cid ctx => if principal_matches p cid ctx
    then size (session_slots ctx) else 0%nat) (contexts m) cid c' c Hc) as Hs. cbn in Hs.
  assert (principal_matches p cid c' = principal_matches p cid c) as He.
  { unfold principal_matches. by rewrite Hi, Hp. }
  rewrite He in Hs. destruct (principal_matches p cid c); lia.
Qed.

Lemma register_session_size b slot c :
  (size (session_slots (LogicalClientInstance_register_session b slot c).2)
   <= size (session_slots c) + 1)%nat /\
  same_attribution c (LogicalClientInstance_register_session b slot c).2.
Proof.
  unfold LogicalClientInstance_register_session. destruct (HandleMap_insert _ _) as [v hm]. cbn.
  split; [|done]. rewrite map_size_insert.
  destruct (session_slots c !! v); unfold Datatypes.id; lia.
Qed.

Lemma quota_step_inv p max q q' : quota_inv p max q -> quota_step p max q q' -> quota_inv p max q'.
Proof.
  unfold quota_inv. intros [Hcap Hout] Hs.
  destruct Hs as [m' Hr|p' max' ok m' Hne Hr|Hp|cid c b slot Hc Hm Hp|Hp|p' Hne|cid c c' Hc Ha Hle
    |cid now ident conn Hc|cid]; cbn [q_mgr q_held q_registered].
  - unfold try_reserve_session_for_principal in Hr.
    destruct (N.leb_spec max (session_count_for_principal p (q_mgr q) +
      outstanding_reservations p (q_mgr q))); [done|]. injection Hr as <-.
    unfold outstanding_reservations, session_count_for_principal in *. cbn.
    rewrite lookup_insert_eq. cbn. lia.
  - unfold try_reserve_session_for_principal in Hr.
    destruct (max' <=? _); injection Hr as <- <-; [done|].
    unfold outstanding_reservations, session_count_for_principal in *. cbn.
    by rewrite lookup_insert_ne.
  - rewrite outstanding_release. unfold session_count_for_principal in *. cbn. lia.
  - destruct (register_session_size b slot c) as [Hsz Ha].
    pose proof (session_count_update p (q_mgr q) cid c _ Hc Ha) as Hu. rewrite Hm in Hu.
    split; [lia|]. change (outstanding_reservations p (q_mgr q) = q_held q - 1 + (q_registered q + 1)). lia.
  - rewrite outstanding_release. unfold session_count_for_principal in *. cbn. lia.
  - rewrite outstanding_release_ne by done. unfold session_count_for_principal in *. done.
  - pose proof (session_count_update p (q_mgr q) cid c c' Hc Ha) as Hu.
    split; [|exact Hout]. destruct (principal_matches p cid c); destruct Hle; try done; lia.
  - unfold outstanding_reservations, session_count_for_principal, admit_context in *. cbn.
    rewrite map_sum_insert by done.
    change (session_slots (LogicalClientInstance_new_with_connection _ _ _ _))
      with (∅ : gmap VirtualHandle BackendSlotId).
    rewrite map_size_empty. case_match; lia.
  - unfold outstanding_reservations, session_count_for_principal in *. cbn.
    pose proof (map_sum_delete (fun cid ctx => if principal_matches p cid ctx
      then size (session_slots ctx) else 0%nat) (contexts (q_mgr q)) cid). lia.
Qed.

(** However opens, failures, registrations, closes and context removals
    interleave, the live sessions attributed to a principal never exceed
    the configured per-principal maximum, even counted together with the
    opens in progress; the reservation table is exact. *)
Theorem session_quota_cap p max q :
  quota_reachable p max q ->
  session_count_for_principal p (q_mgr q) + q_held q <= max /\
  outstanding_reservations p (q_mgr q) = q_held q + q_registered q.
Proof.
  intros Hr. change (quota_inv p max q).
  induction Hr as [lease cap|q q' _ IH Hs]; [|by eapply quota_step_inv].
  split; [|done]. cbn. unfold session_count_for_principal, map_sum. cbn.
  rewrite map_to_list_empty. cbn. lia.
Qed.

(** ** Concrete instances *)

Definition demo_manager : ContextManager :=
  ContextManager_new 60 4 <| contexts := {[ "ctx" := demo_context ]} |>.

Lemma demo_manager_core k c : contexts demo_manager !! k = Some c -> ctx_core c.
Proof.
  change (contexts demo_manager) with ({[ "ctx" := demo_context ]} : gmap string LogicalClientInstance).
  intros [_ <-]%lookup_singleton_Some. apply demo_context_wf.
Qed.

Lemma activity_defers_reaping_witness :
  exists c', contexts (OperationGuard_drop 1000 "ctx" demo_manager) !! "ctx" = Some c' /\
    is_reapable ∅ (OperationGuard_drop 1000 "ctx" demo_manager) c' 1060 = false.
Proof.
  destruct (activity_defers_reaping ∅ demo_manager "ctx" demo_context 1000 1060)
    as (c' & H1 & H2 & _).
  - reflexivity.
  - reflexivity.
  - left. vm_compute. discriminate.
  - exists c'. split; [exact H1|exact H2].
Defined.

(** The first session of the client mid-close. *)
Definition demo_closing : ContextManager :=
  (begin_close_session_with_guard 5 "ctx" (VH 1) None demo_manager).2.

Lemma demo_closing_core k c : contexts demo_closing !! k = Some c -> ctx_core c.
Proof.
  unfold demo_closing.
  destruct (begin_close_spec 5 demo_manager "ctx" (VH 1) demo_context (BH 71)) as (m1 & -> & Hm);
    [done..|]. cbn [snd]. rewrite Hm, lookup_insert. case_decide; [|apply demo_manager_core].
  intros [= <-]. apply closing_core, demo_context_wf.
Qed.

Lemma close_completion_contract_witness :
  HandleMap_is_proven_gone (VH 1)
    (session_handles (default demo_context
       (contexts (complete_close_session "ctx" (VH 1) (BH 71) Terminal demo_closing) !! "ctx"))) = true /\
  HandleMap_resolve (VH 1)
    (session_handles (default demo_context
       (contexts (complete_close_session "ctx" (VH 1) (BH 71) Transient demo_closing) !! "ctx")))
    = Some (BH 71).
Proof.
  pose proof (fun k => close_completion_contract demo_closing "ctx" (VH 1) (BH 71) k
    (fun c => demo_closing_core "ctx" c)) as H.
  split; [|vm_compute; reflexivity].
  destruct (H Terminal) as [_ Ht].
  destruct (contexts demo_closing !! "ctx") as [c|] eqn:Hc; [|vm_compute in Hc; discriminate].
  rewrite decide_True in Ht.
  - destruct Ht as (c' & Hc' & _ & [Hg _] & _). rewrite Hc'. exact Hg.
  - vm_compute in Hc. injection Hc as <-. reflexivity.
Defined.

Lemma close_begin_contract_witness :
  exists m1, begin_close_session_with_guard 5 "ctx" (VH 1) None demo_manager
    = (Ok (MkCloseTransition "ctx" (VH 1) (BH 71) "ctx" true false false), m1).
Proof.
  destruct (close_begin_contract 5 demo_manager "ctx" (VH 1) demo_context (BH 71))
    as (m1 & c1 & H & _).
  - reflexivity.
  - apply demo_context_wf.
  - reflexivity.
  - exists m1. exact H.
Defined.

Lemma late_metadata_served_as_current_witness :
  let md := MkObjectMetadata [1] (Some 2) true in
  (manager_object_metadata 9 "ctx" 1
     (cache_object_metadata 8 "ctx" 1 md (invalidate_token_info_on_reinit (demo_slot 5) demo_manager))).1
  = Some md.
Proof.
  apply (late_metadata_served_as_current 8 9 "ctx" 1 (demo_slot 5) demo_manager demo_context);
    reflexivity.
Defined.

Lemma no_stale_token_info_witness :
  cached_token_info 9 (demo_slot 5)
    (foldl token_cache_run (invalidate_token_info_on_reinit (demo_slot 5) demo_manager)
       [TcPublish 8 (demo_slot 5) "old" "1" 0; TcRevoke]) = None.
Proof.
  apply (no_stale_token_info 9 (demo_slot 5) demo_manager
    [TcPublish 8 (demo_slot 5) "old" "1" 0; TcRevoke]).
  - vm_compute. discriminate.
  - repeat constructor. vm_compute. discriminate.
Defined.

Lemma destroyed_object_forgotten_witness :
  exists c', contexts (evict_backend_object_everywhere (BH 900) demo_manager) !! "ctx" = Some c' /\
    HandleMap_resolve_backend (BH 900) (object_handles c') = None.
Proof.
  eexists. split; [reflexivity|].
  apply (destroyed_object_forgotten (BH 900) demo_manager "ctx"
    (evict_backend_object (BH 900) demo_context)).
  - exact demo_manager_core.
  - reflexivity.
Defined.

Lemma session_quota_cap_witness :
  let q := MkQuota (try_reserve_session_for_principal "alice" 1 (ContextManager_new 60 4)).2 1 0 in
  session_count_for_principal "alice" (q_mgr q) + q_held q <= 1.
Proof.
  intros q. apply (session_quota_cap "alice" 1 q).
  eapply qr_step; [apply (qr_new _ _ 60 4)|]. apply q_reserve. reflexivity.
Defined.
