(* ===== verification/Teardown.v ===== *)
(** * Teardown of departed contexts

    Models the shared-tenancy teardown of
    [crates/server/src/server/context_manager.rs]
    ([plan_removed_context_teardown] to [close_backend_sessions]): which
    backend sessions are closed, when the shared backend login is released,
    through which carrier, and in which order.

    A backend call is an event of a trace; its reply, as seen through
    [spawn_backend_with_timeout], is an argument: an oracle answers each call
    of the trace in turn.  A call that times out still runs to completion in
    the source, so its effects (the ledger) are kept. *)

From S2P Require Import Prelude Ck HandleMap SlotMap Connection Context Manager Reach.
Open Scope N_scope.

(** ** Backend calls *)

Inductive BackendCall :=
| CallOpen (slot : CkSlotId) (flags : N)
| CallClose (session : N)
| CallLogin (session : N) (user : CkUserType) (pin : option SecretBytes)
| CallLogout (session : N).

(** How a call routed through [spawn_backend] ends. *)
Inductive Reply :=
| Done (r : CkResult N)
| TimedOut (late : CkResult N)
| Refused
| Panicked.

(** The oracle: the reply to the next call, given the calls made so far. *)
Abbreviation Oracle := (list BackendCall -> Reply).

(** What the awaiting code sees: [None] is a transport [Status]. *)
Definition observed (r : Reply) : option (CkResult N) :=
  match r with
  | Done r => Some r
  | TimedOut _ => Some (Err Rv.FUNCTION_FAILED)
  | Refused => Some (Err Rv.HOST_MEMORY)
  | Panicked => None
  end.

(** ** Plans *)

Record SlotLogout := MkSlotLogout {
  sl_slot : BackendSlotId;
  sl_via_session : N;
  sl_login : LoginState;
}.

Record ContextTeardownPlan := MkPlan {
  sessions_to_close : list N;
  slot_logouts : list SlotLogout;
}.

(** A still-open session of the departed context on the slot. *)
Definition own_carrier `{HI : HashIter} (departed : LogicalClientInstance) (slot : BackendSlotId)
  : option N :=
  find_map (fun vs : VirtualHandle * BackendSlotId =>
    if bool_decide (vs.2 = slot)
    then bh_raw <$> HandleMap_resolve vs.1 (session_handles departed) else None)
    (hiter (session_slots departed)).

Definition plan_slot_logout `{HI : HashIter} (m : ContextManager)
    (departed : LogicalClientInstance) (sl : BackendSlotId * LoginState) : option SlotLogout :=
  let '(slot, login) := sl in
  match first_login_state_for_slot_excluding_authoritative slot (id departed) m with
  | Some _ => None
  | None =>
      let carrier :=
        match own_carrier departed slot with
        | Some via => Some via
        | None => any_active_backend_session_for_slot slot m
        end in
      (fun via => MkSlotLogout slot via login) <$> carrier
  end.

Definition plan_removed_context_teardown `{HI : HashIter} (departed : LogicalClientInstance)
    (m : ContextManager) : ContextTeardownPlan * LogicalClientInstance * ContextManager :=
  let sessions :=
    filter (fun h => backend_session_referenced_by_live_context (BH h) m = false)
      (bh_raw <$> elements (HandleMap_backend_handles (session_handles departed))) in
  let logouts := omap (plan_slot_logout m departed) (hiter (login_state departed)) in
  (MkPlan sessions logouts, (LogicalClientInstance_teardown departed).2,
   note_logins_released (id departed) (login_slots departed) m).

(** ** Last-holder logout *)

Definition slot_login_held (slot : BackendSlotId) (m : ContextManager) : bool :=
  any_login_state_for_slot slot m.

Definition carrier_flags (departed_login : LoginState) : N :=
  if decide (departed_login = So) then N.lor RW_SESSION SERIAL_SESSION else SERIAL_SESSION.

Definition record_unresolved (slot : BackendSlotId) (session : N) (rv : option CkRv)
    (m : ContextManager) : ContextManager :=
  m <| carrier_cleanup_ledger ::= fun l => l ++ [MkCarrierCleanup slot session rv] |>.

(** The owned open, logout, close sequence: the native calls always run to
    completion ([late] or not) unless the spawn was refused; a panic in the
    logout or the close leaves the carrier recorded without a return value. *)
Definition native (r : Reply) : option (CkResult N) :=
  match r with
  | Done r | TimedOut r => Some r
  | Refused | Panicked => None
  end.

Definition last_holder_logout_via_transient_carrier (o : Oracle) (refused timed_out : bool)
    (slot : BackendSlotId) (departed_login : LoginState)
    (tr : list BackendCall) (m : ContextManager) : bool * list BackendCall * ContextManager :=
  if refused then (false, tr, m)
  else
    let tr := tr ++ [CallOpen (bslot_raw slot) (carrier_flags departed_login)] in
    match native (o tr) with
    | None | Some (Err _) => (false, tr, m)
    | Some (Ok temp) =>
        let tr := tr ++ [CallLogout temp] in
        match native (o tr) with
        | None => (false, tr, record_unresolved slot temp None m)
        | Some logout =>
            let tr := tr ++ [CallClose temp] in
            match native (o tr) with
            | None => (false, tr, record_unresolved slot temp None m)
            | Some close =>
                let m := match close with
                         | Ok _ => m
                         | Err rv => record_unresolved slot temp (Some rv) m
                         end in
                (negb timed_out && Result_is_ok logout, tr, m)
            end
        end
    end.

(** The loop over the carriers. *)
Fixpoint logout_via (o : Oracle) (carriers : list N) (tr : list BackendCall)
  : bool * list BackendCall :=
  match carriers with
  | [] => (false, tr)
  | via :: rest =>
      let tr := tr ++ [CallLogout via] in
      match observed (o tr) with
      | Some (Ok _) => (true, tr)
      | Some (Err rv) =>
          if rv_eqb rv Rv.SESSION_HANDLE_INVALID || rv_eqb rv Rv.SESSION_CLOSED
          then logout_via o rest tr else (false, tr)
      | None => (false, tr)
      end
  end.

(** [backend_logout_if_last_holder_out_inner].  [interfere] is what other
    tasks did between the fast path and the acquisition of the slot lock. *)
Definition backend_logout_if_last_holder_out `{HI : HashIter} (o : Oracle)
    (lock_free : bool) (interfere : ContextManager -> ContextManager)
    (refused timed_out : bool) (slot : BackendSlotId) (preferred_session : option N)
    (departed_login : LoginState) (tr : list BackendCall) (m : ContextManager)
  : bool * list BackendCall * ContextManager :=
  if slot_login_held slot m then (false, tr, m)
  else
    let m := interfere m in
    if negb lock_free then (false, tr, m)
    else if slot_login_held slot m then (false, tr, m)
    else
      let live := any_active_backend_session_for_slot slot m in
      let carriers :=
        option_list preferred_session ++
        match live with
        | Some via => if bool_decide (Some via = preferred_session) then [] else [via]
        | None => []
        end in
      match carriers with
      | [] => last_holder_logout_via_transient_carrier o refused timed_out slot departed_login tr m
      | _ => let '(r, tr) := logout_via o carriers tr in (r, tr, m)
      end.

(** ** Execution *)

(** Deduplication of the logouts by slot; an SO departure wins. *)
Definition merge_logout (acc : gmap BackendSlotId (N * LoginState)) (l : SlotLogout)
  : gmap BackendSlotId (N * LoginState) :=
  match acc !! sl_slot l with
  | Some _ => if decide (sl_login l = So)
              then <[sl_slot l := (sl_via_session l, sl_login l)]> acc else acc
  | None => <[sl_slot l := (sl_via_session l, sl_login l)]> acc
  end.

Definition merge_plans (plans : list ContextTeardownPlan)
  : gmap BackendSlotId (N * LoginState) * list N :=
  (foldl merge_logout ∅ (mjoin (slot_logouts <$> plans)),
   mjoin (sessions_to_close <$> plans)).

(** The environment of each logout attempt: whether its slot lock was free,
    what interleaved, and how the carrier's spawn went. *)
Record LogoutEnv := MkLogoutEnv {
  le_lock_free : bool;
  le_interfere : ContextManager -> ContextManager;
  le_refused : bool;
  le_timed_out : bool;
}.

Definition execute_logouts `{HI : HashIter} (o : Oracle) (env : BackendSlotId -> LogoutEnv)
    (logouts : list (BackendSlotId * (N * LoginState)))
    (st : list BackendCall * ContextManager) : list BackendCall * ContextManager :=
  foldl (fun st l =>
    let '(slot, (via, login)) := l in
    let e := env slot in
    let '(_, tr, m) :=
      backend_logout_if_last_holder_out o (le_lock_free e) (le_interfere e) (le_refused e)
        (le_timed_out e) slot (Some via) login st.1 st.2 in
    (tr, m)) st logouts.

Definition close_backend_sessions (sessions : list N) (tr : list BackendCall)
  : list BackendCall := tr ++ (CallClose <$> sessions).

Definition execute_teardown_plans `{HI : HashIter} (o : Oracle) (env : BackendSlotId -> LogoutEnv)
    (plans : list ContextTeardownPlan) (tr : list BackendCall) (m : ContextManager)
  : list BackendCall * ContextManager :=
  let '(logouts, closes) := merge_plans plans in
  let '(tr, m) := execute_logouts o env (hiter logouts) (tr, m) in
  (close_backend_sessions closes tr, m).

(** ** Eviction *)

(** One candidate of [evict_expired]: recheck and remove, then plan. *)
Definition evict_candidate `{HI : HashIter} (h : gmap ConnRef ConnectionState) (now : N)
    (acc : list ClientContextId * list ContextTeardownPlan * ContextManager)
    (cid : ClientContextId)
  : list ClientContextId * list ContextTeardownPlan * ContextManager :=
  let '(evicted, plans, m) := acc in
  match remove_context_when (fun ctx => is_reapable h m ctx now) cid m with
  | (Some ctx, m) =>
      let m := m <| total_contexts_removed ::= N.succ |> in
      let '(plan, _, m) := plan_removed_context_teardown ctx m in
      (evicted ++ [cid], plans ++ [plan], m)
  | (None, m) => (evicted, plans, m)
  end.

Definition evict_expired `{HI : HashIter} (h : gmap ConnRef ConnectionState) (now : N)
    (o : Oracle) (env : BackendSlotId -> LogoutEnv) (m : ContextManager)
  : list ClientContextId * list BackendCall * ContextManager :=
  let expired := collect_expired_context_ids h now m in
  let '(evicted, plans, m) := foldl (evict_candidate h now) ([], [], m) expired in
  let '(tr, m) := execute_teardown_plans o env plans [] m in
  (evicted, tr, m).

(** ** Lemmas *)

(** Some live context still maps the backend session, live or mid-close. *)
Definition referenced (m : ContextManager) (b : BackendHandle) : Prop :=
  exists cid c, contexts m !! cid = Some c /\
    HandleMap_references_backend b (session_handles c) = true.

Lemma referenced_bool m b :
  backend_session_referenced_by_live_context b m = true <-> referenced m b.
Proof. unfold backend_session_referenced_by_live_context, referenced. apply map_any_true. Qed.

Lemma slot_login_held_spec slot m :
  slot_login_held slot m = true <->
  exists cid c, contexts m !! cid = Some c /\ is_Some (login_state c !! slot).
Proof.
  unfold slot_login_held, any_login_state_for_slot. rewrite map_any_true.
  setoid_rewrite bool_decide_eq_true. done.
Qed.

Section plans.
Context `{HI : HashIter}.

Lemma no_other_holder slot ex m :
  first_login_state_for_slot_excluding_authoritative slot ex m = None <->
  forall cid c, contexts m !! cid = Some c -> cid <> ex -> login_state c !! slot = None.
Proof.
  unfold first_login_state_for_slot_excluding_authoritative. rewrite find_map_None. split.
  - intros H cid c Hc Hne. apply elem_of_hiter in Hc. specialize (H _ Hc). cbn in H.
    by rewrite bool_decide_eq_false_2 in H.
  - intros H [cid c] Hin. apply elem_of_hiter in Hin. cbn. case_bool_decide; [done|]. by eapply H.
Qed.

Lemma own_carrier_Some d slot via :
  own_carrier d slot = Some via ->
  exists v, session_slots d !! v = Some slot /\
            HandleMap_resolve v (session_handles d) = Some (BH via).
Proof.
  intros ([v s] & Hin & Hv)%find_map_Some. apply elem_of_hiter in Hin. cbn in Hv.
  case_bool_decide; [|done]. subst s. exists v. split; [done|].
  by apply fmap_Some in Hv as ([b] & Hb & ->).
Qed.

Lemma own_carrier_None d slot :
  own_carrier d slot = None <->
  forall v, session_slots d !! v = Some slot -> HandleMap_resolve v (session_handles d) = None.
Proof.
  unfold own_carrier. rewrite find_map_None. split.
  - intros H v Hv. apply elem_of_hiter in Hv. specialize (H _ Hv). cbn in H.
    rewrite bool_decide_eq_true_2 in H by done. by apply fmap_None in H.
  - intros H [v s] Hin. apply elem_of_hiter in Hin. cbn [fst snd]. case_bool_decide; [subst|done].
    by rewrite (H v Hin).
Qed.

Lemma any_active_Some slot m via :
  any_active_backend_session_for_slot slot m = Some via ->
  exists cid c v, contexts m !! cid = Some c /\ session_slots c !! v = Some slot /\
                  HandleMap_resolve v (session_handles c) = Some (BH via).
Proof.
  intros ([cid c] & Hin & Hv)%find_map_Some. apply elem_of_hiter in Hin. cbn in Hv.
  destruct (list_find _ (hiter (session_slots c))) as [[i [v s]]|] eqn:Ef; [|done].
  apply list_find_Some in Ef as (Hl & Hs & _). cbn in Hs. subst s.
  apply list_elem_of_lookup_2, elem_of_hiter in Hl.
  exists cid, c, v. split; [done|]. split; [done|].
  by apply fmap_Some in Hv as ([b] & Hb & ->).
Qed.

Lemma elem_of_sessions_to_close d m b :
  HandleMap_wf (session_handles d) ->
  b ∈ sessions_to_close (plan_removed_context_teardown d m).1.1 <->
  HandleMap_references_backend (BH b) (session_handles d) = true /\ ~ referenced m (BH b).
Proof.
  intros Hwf. cbn. rewrite list_elem_of_filter, list_elem_of_fmap, <- referenced_bool, not_true_iff_false.
  rewrite (references_backend_owner _ _ Hwf), <- (elem_of_backend_handles _ _ Hwf). split.
  - intros [Hr ([b'] & -> & Hin%elem_of_elements)]. cbn in *. done.
  - intros [Hin Hr]. split; [done|]. exists (BH b). split; [done|]. by apply elem_of_elements.
Qed.

Lemma note_logins_released_index cid slots m slot x :
  x ∈ default ∅ (slot_login_holders (note_logins_released cid slots m) !! slot) <->
  x ∈ default ∅ (slot_login_holders m !! slot) /\ ~ (x = cid /\ slot ∈ slots).
Proof.
  revert m. induction slots as [|s slots IH]; intros m; [cbn; set_solver|].
  change (note_logins_released cid (s :: slots) m)
    with (note_logins_released cid slots (note_login_released cid s m)).
  rewrite IH. unfold note_login_released. cbn. rewrite lookup_partial_alter.
  case_decide as Hs; [subst s|set_solver].
  destruct (slot_login_holders m !! slot) as [hs|]; cbn; [|set_solver].
  case_bool_decide as Hb; cbn; set_solver.
Qed.
End plans.

(** ** Properties *)

(** The teardown plan of a departed context closes exactly its backend
    sessions that no live context still maps, and asks for a backend logout
    of a slot exactly when the departed context held its login, no live
    context holds it any more, and some open session can carry the call;
    the context itself is emptied and purged from the holder index, and no
    live context is touched. *)
Theorem teardown_plan_contract `{HI : HashIter} departed m :
  ctx_core departed ->
  let '(plan, d', m') := plan_removed_context_teardown departed m in
  (forall b, b ∈ sessions_to_close plan <->
     (exists v, owner (session_handles departed) v = Some (BH b)) /\ ~ referenced m (BH b)) /\
  (forall l, l ∈ slot_logouts plan ->
     login_state departed !! sl_slot l = Some (sl_login l) /\
     (forall cid c, contexts m !! cid = Some c -> cid <> id departed ->
        login_state c !! sl_slot l = None) /\
     exists c v, (c = departed \/ exists cid, contexts m !! cid = Some c) /\
       session_slots c !! v = Some (sl_slot l) /\
       HandleMap_resolve v (session_handles c) = Some (BH (sl_via_session l))) /\
  (forall slot v b, is_Some (login_state departed !! slot) ->
     session_slots departed !! v = Some slot ->
     HandleMap_resolve v (session_handles departed) = Some b ->
     (forall cid c, contexts m !! cid = Some c -> cid <> id departed ->
        login_state c !! slot = None) ->
     exists l, l ∈ slot_logouts plan /\ sl_slot l = slot) /\
  has_open_backend_sessions d' = false /\ login_state d' = ∅ /\
  contexts m' = contexts m /\
  (forall slot, is_Some (login_state departed !! slot) ->
     id departed ∉ default ∅ (slot_login_holders m' !! slot)).
Proof.
  intros Hcore. pose proof (cw_sessions _ Hcore) as Hhm.
  pose proof (fun b => elem_of_sessions_to_close departed m b Hhm) as Hclose.
  unfold plan_removed_context_teardown in *. cbn [fst sessions_to_close slot_logouts] in *.
  split_and!.
  - intros b. rewrite Hclose. by rewrite (references_backend_owner _ _ Hhm).
  - intros l ([slot login] & Hin & Hl)%list_elem_of_omap. apply elem_of_hiter in Hin.
    cbn in Hl. destruct (first_login_state_for_slot_excluding_authoritative slot _ m) eqn:Ha; [done|].
    rewrite no_other_holder in Ha.
    destruct (own_carrier departed slot) as [via|] eqn:Ec.
    + injection Hl as <-. cbn. apply own_carrier_Some in Ec as (v & ? & ?).
      split_and!; [done..|]. exists departed, v. auto.
    + destruct (any_active_backend_session_for_slot slot m) as [via|] eqn:Ea; [|done].
      injection Hl as <-. cbn. apply any_active_Some in Ea as (cid & c & v & ? & ? & ?).
      split_and!; [done..|]. exists c, v. eauto.
  - intros slot v b [login Hlogin] Hv Hr Hno.
    destruct (own_carrier departed slot) as [via|] eqn:Ec.
    + exists (MkSlotLogout slot via login). split; [|done]. apply list_elem_of_omap.
      exists (slot, login). split; [by apply elem_of_hiter|]. cbn.
      rewrite (proj2 (no_other_holder _ _ _) Hno), Ec. done.
    + rewrite own_carrier_None in Ec. rewrite (Ec v Hv) in Hr. done.
  - apply not_true_iff_false. rewrite has_open_backend_sessions_spec by (apply teardown_wf, Hcore).
    cbn. intros [v [? Hx]]. by rewrite lookup_empty in Hx.
  - done.
  - apply note_logins_released_contexts.
  - intros slot [st Hst]. rewrite note_logins_released_index. intros [_ Hn]. apply Hn.
    split; [done|]. unfold login_slots. apply list_elem_of_fmap. exists (slot, st).
    split; [done|]. by apply elem_of_map_to_list.
Qed.

(** A call of the trace suffix was answered OK. *)
Definition logged_out (o : Oracle) (tr tr' : list BackendCall) : Prop :=
  exists mid via r, mid `prefix_of` tr' /\ tr `prefix_of` mid /\ last mid = Some (CallLogout via) /\
    native (o mid) = Some (Ok r).

Lemma logged_out_mono o tr tr1 tr2 :
  tr1 `prefix_of` tr2 -> logged_out o tr tr1 -> logged_out o tr tr2.
Proof. intros H (mid & via & r & ? & ?). exists mid, via, r. split; [by etransitivity|done]. Qed.

Lemma logout_via_spec o carriers tr :
  let '(r, tr') := logout_via o carriers tr in
  tr `prefix_of` tr' /\ (r = true -> logged_out o tr tr').
Proof.
  revert tr. induction carriers as [|via rest IH]; intros tr; cbn; [done|].
  assert (tr `prefix_of` tr ++ [CallLogout via]) as Hp by (by apply prefix_app_r).
  destruct (observed (o (tr ++ [CallLogout via]))) as [[n|rv]|] eqn:Eo.
  - split; [done|]. intros _. exists (tr ++ [CallLogout via]), via, n.
    split_and!; [done..|apply last_snoc|]. by destruct (o _); cbn in *; simplify_eq.
  - destruct (_ || _); [|done]. specialize (IH (tr ++ [CallLogout via])).
    destruct (logout_via o rest _) as [r tr']. destruct IH as [H1 H2].
    split; [by etransitivity|]. intros (mid & v & r' & ? & ? & ? & ?)%H2.
    exists mid, v, r'. split_and!; [done|by etransitivity|done..].
  - done.
Qed.

Lemma transient_carrier_spec o refused timed_out slot login tr m :
  let '(r, tr', m') :=
    last_holder_logout_via_transient_carrier o refused timed_out slot login tr m in
  tr `prefix_of` tr' /\ contexts m' = contexts m /\ (r = true -> logged_out o tr tr').
Proof.
  unfold last_holder_logout_via_transient_carrier. destruct refused; [done|].
  set (tr1 := tr ++ [CallOpen _ _]).
  assert (tr `prefix_of` tr1) as H1 by by eexists.
  destruct (native (o tr1)) as [[temp|rv]|]; [|done..].
  set (tr2 := tr1 ++ [CallLogout temp]).
  assert (tr1 `prefix_of` tr2) as H2 by by eexists.
  assert (tr `prefix_of` tr2) by (by etransitivity).
  destruct (native (o tr2)) as [logout|] eqn:El; [|done].
  set (tr3 := tr2 ++ [CallClose temp]).
  assert (tr2 `prefix_of` tr3) as H3 by by eexists.
  assert (tr `prefix_of` tr3) by (by etransitivity).
  destruct (native (o tr3)) as [close|]; [|done].
  split_and!; [done|by destruct close|]. intros [_ Hok]%andb_true_iff.
  destruct logout as [n|]; [|done]. exists tr2, temp, n. split_and!; [done..|apply last_snoc|done].
Qed.

Lemma last_holder_out_spec `{HI : HashIter} o lock_free interfere refused timed_out
    slot preferred login tr m :
  let '(r, tr', m') := backend_logout_if_last_holder_out o lock_free interfere refused timed_out
                         slot preferred login tr m in
  tr `prefix_of` tr' /\
  (tr' <> tr ->
     lock_free = true /\
     (forall cid c, contexts m !! cid = Some c -> login_state c !! slot = None) /\
     (forall cid c, contexts (interfere m) !! cid = Some c -> login_state c !! slot = None)) /\
  (contexts m' = contexts m \/ contexts m' = contexts (interfere m)) /\
  (r = true -> logged_out o tr tr').
Proof.
  unfold backend_logout_if_last_holder_out.
  assert (Hfree : forall m0, slot_login_held slot m0 = false ->
    forall cid c, contexts m0 !! cid = Some c -> login_state c !! slot = None).
  { intros m0 Hh cid c Hc. apply eq_None_not_Some. intros Hs.
    apply not_true_iff_false in Hh. apply Hh, slot_login_held_spec. eauto. }
  destruct (slot_login_held slot m) eqn:Hh1; [by split_and!; [| |left|]|].
  destruct lock_free; cbn [negb]; [|by split_and!; [| |right|]].
  destruct (slot_login_held slot (interfere m)) eqn:Hh2; [by split_and!; [| |right|]|].
  set (carriers := option_list preferred ++ _).
  destruct carriers as [|x xs].
  - pose proof (transient_carrier_spec o refused timed_out slot login tr (interfere m)) as Hs.
    destruct (last_holder_logout_via_transient_carrier _ _ _ _ _ _ _) as [[r tr'] m'].
    destruct Hs as (? & ? & ?). split_and!; eauto.
  - pose proof (logout_via_spec o (x :: xs) tr) as Hs.
    destruct (logout_via o (x :: xs) tr) as [r tr']. destruct Hs. split_and!; eauto.
Qed.

(** C39: The shared backend login of a slot is touched only when no live
    client holds a logical login for it, both before and after the slot
    lock was obtained; in every other case no backend call is made at all.
    Live contexts are never modified, and success is reported only after a
    backend logout answered OK. *)
Theorem held_login_never_released `{HI : HashIter} o lock_free interfere refused timed_out
    slot preferred login tr m :
  let '(r, tr', m') := backend_logout_if_last_holder_out o lock_free interfere refused timed_out
                         slot preferred login tr m in
  tr `prefix_of` tr' /\
  (tr' <> tr ->
     lock_free = true /\
     (forall cid c, contexts m !! cid = Some c -> login_state c !! slot = None) /\
     (forall cid c, contexts (interfere m) !! cid = Some c -> login_state c !! slot = None)) /\
  (contexts m' = contexts m \/ contexts m' = contexts (interfere m)) /\
  (r = true -> logged_out o tr tr').
Proof. apply last_holder_out_spec. Qed.

(** ** Execution order *)

Lemma execute_logouts_prefix `{HI : HashIter} o env ls st :
  st.1 `prefix_of` (execute_logouts o env ls st).1 /\
  ((forall s m, le_interfere (env s) m = m) ->
   contexts (execute_logouts o env ls st).2 = contexts st.2).
Proof.
  revert st. induction ls as [|[slot [via login]] ls IH]; intros st; [done|].
  unfold execute_logouts. cbn [foldl].
  set (e := env slot).
  pose proof (last_holder_out_spec o (le_lock_free e) (le_interfere e) (le_refused e)
    (le_timed_out e) slot (Some via) login st.1 st.2) as Hs.
  destruct (backend_logout_if_last_holder_out _ _ _ _ _ _ _ _ _ _) as [[r tr] m].
  destruct Hs as (Hp & _ & Hc & _). destruct (IH (tr, m)) as [H1 H2].
  split; [by etransitivity|]. intros Hid. etransitivity; [by apply H2|]. cbn.
  destruct Hc as [Hc|Hc]; [done|]. rewrite Hc. unfold e. by rewrite Hid.
Qed.

(** What a merged logout entry comes from. *)
Definition merged_ok (ls : list SlotLogout) (acc : gmap BackendSlotId (N * LoginState)) : Prop :=
  (forall slot via login, acc !! slot = Some (via, login) ->
     MkSlotLogout slot via login ∈ ls) /\
  (forall l, l ∈ ls -> is_Some (acc !! sl_slot l)) /\
  (forall l via login, l ∈ ls -> sl_login l = So -> acc !! sl_slot l = Some (via, login) -> login = So).

Lemma merge_logout_ok ls acc l : merged_ok ls acc -> merged_ok (ls ++ [l]) (merge_logout acc l).
Proof.
  intros (H1 & H2 & H3). destruct l as [slot via login]. unfold merge_logout. cbn.
  assert (Hnew : forall acc', (forall s, acc' !! s = if decide (slot = s) then Some (via, login) else acc !! s) ->
    (is_Some (acc !! slot) -> login = So) -> merged_ok (ls ++ [MkSlotLogout slot via login]) acc').
  { intros acc' Ha Hso. split_and!.
    - intros s v st. rewrite Ha. case_decide; [intros [= <- <-]; subst; set_solver|].
      intros ?%H1. set_solver.
    - intros l. rewrite elem_of_app, list_elem_of_singleton. intros Hl. rewrite Ha.
      case_decide; [eauto|]. destruct Hl as [Hl| ->]; [by apply H2|done].
    - intros l v st. rewrite elem_of_app, list_elem_of_singleton. intros Hl Hso'. rewrite Ha.
      case_decide as Hd; [|destruct Hl as [Hl| ->]; [by apply H3|done]].
      intros [= <- <-]. destruct Hl as [Hl| ->]; [|done]. apply Hso. rewrite Hd. by apply H2. }
  assert (Hkeep : is_Some (acc !! slot) -> login <> So ->
    merged_ok (ls ++ [MkSlotLogout slot via login]) acc).
  { intros Hs Hne. split_and!.
    - intros s v st ?%H1. set_solver.
    - intros l. rewrite elem_of_app, list_elem_of_singleton. intros [Hl| ->]; [by apply H2|done].
    - intros l v st. rewrite elem_of_app, list_elem_of_singleton. intros [Hl| ->]; [by apply H3|done]. }
  destruct (acc !! slot) as [e|] eqn:Es; [case_decide|].
  - apply Hnew; [intros; apply lookup_insert|done].
  - apply Hkeep; [eauto|done].
  - apply Hnew; [intros; apply lookup_insert|]. by intros [? ?].
Qed.

Lemma merge_plans_ok plans :
  merged_ok (mjoin (slot_logouts <$> plans)) (merge_plans plans).1.
Proof.
  cbn. assert (forall ls ls0 acc, merged_ok ls0 acc -> merged_ok (ls0 ++ ls) (foldl merge_logout acc ls))
    as Hgen.
  { induction ls as [|l ls IH]; intros ls0 acc Hok; cbn; [by rewrite app_nil_r|].
    rewrite cons_middle, app_assoc. by apply IH, merge_logout_ok. }
  apply (Hgen _ [] ∅). split_and!; [intros *; by rewrite lookup_empty|set_solver..].
Qed.

Lemma execute_trace `{HI : HashIter} o env plans tr m :
  exists mid, (execute_teardown_plans o env plans tr m).1 =
    tr ++ mid ++ (CallClose <$> mjoin (sessions_to_close <$> plans)).
Proof.
  unfold execute_teardown_plans, merge_plans.
  set (ls := hiter _). pose proof (execute_logouts_prefix o env ls (tr, m)) as [[mid Hp] _].
  destruct (execute_logouts o env ls (tr, m)) as [tr' m']. cbn in Hp |- *.
  exists mid. unfold close_backend_sessions. by rewrite Hp, <- app_assoc.
Qed.

(** Teardown releases the shared logins before it closes any of the
    departed clients' sessions (so a carrier is still open), merges the
    logouts to one per slot, and lets an SO departure decide the kind of
    carrier whenever one is among them. *)
Theorem teardown_order `{HI : HashIter} o env plans tr m :
  (exists mid, (execute_teardown_plans o env plans tr m).1 =
     tr ++ mid ++ (CallClose <$> mjoin (sessions_to_close <$> plans))) /\
  (forall slot via login, (merge_plans plans).1 !! slot = Some (via, login) ->
     exists plan, plan ∈ plans /\ MkSlotLogout slot via login ∈ slot_logouts plan) /\
  (forall plan l, plan ∈ plans -> l ∈ slot_logouts plan ->
     exists via login, (merge_plans plans).1 !! sl_slot l = Some (via, login) /\
       (sl_login l = So -> login = So)).
Proof.
  destruct (merge_plans_ok plans) as (H1 & H2 & H3). split_and!.
  - apply execute_trace.
  - intros slot via login Hl%H1. apply list_elem_of_join in Hl as (ls & Hl & Hin).
    apply list_elem_of_fmap in Hin as (plan & -> & Hp). eauto.
  - intros plan l Hp Hl.
    assert (l ∈ mjoin (slot_logouts <$> plans)) as Hin.
    { apply list_elem_of_join. exists (slot_logouts plan). split; [done|].
      apply list_elem_of_fmap. eauto. }
    destruct (H2 _ Hin) as [[via login] Hs]. exists via, login. split; [done|].
    intros Hso. by eapply H3.
Qed.

(** ** Eviction *)

Section evict.
Context `{HI : HashIter} (h : gmap ConnRef ConnectionState) (now : N).
Implicit Types m : ContextManager.

Definition reapable_in m (k : ClientContextId) : Prop :=
  exists c, contexts m !! k = Some c /\ is_reapable h m c now = true.

#[export] Instance reapable_in_dec m k : Decision (reapable_in m k).
Proof.
  unfold reapable_in. destruct (contexts m !! k) as [c|].
  - destruct (decide (is_reapable h m c now = true)); [left; eauto|right; naive_solver].
  - right. naive_solver.
Defined.

Definition same_limits m m' : Prop :=
  lease_duration m' = lease_duration m /\ max_context_lifetime m' = max_context_lifetime m.

Lemma is_reapable_limits m m' c :
  same_limits m m' -> is_reapable h m' c now = is_reapable h m c now.
Proof. intros [H1 H2]. unfold is_reapable. by rewrite H1, H2. Qed.

Lemma note_logins_released_limits cid slots m : same_limits m (note_logins_released cid slots m).
Proof.
  revert m. induction slots as [|x xs IH]; intros m; [done|].
  destruct (IH (note_login_released cid x m)) as [H1 H2]. by split.
Qed.

(** One eviction step: the candidate is removed if it is reapable, together
    with the sessions nobody else maps. *)
Lemma evict_candidate_spec ev pl m k :
  (forall k c, contexts m !! k = Some c -> ctx_core c) ->
  let '(ev', pl', m') := evict_candidate h now (ev, pl, m) k in
  same_limits m m' /\
  if decide (reapable_in m k) then
    ev' = ev ++ [k] /\ contexts m' = delete k (contexts m) /\
    exists plan c, pl' = pl ++ [plan] /\ contexts m !! k = Some c /\
      forall b, b ∈ sessions_to_close plan <->
        HandleMap_references_backend (BH b) (session_handles c) = true /\ ~ referenced m' (BH b)
  else ev' = ev /\ pl' = pl /\ m' = m.
Proof.
  intros Hcore. unfold evict_candidate, remove_context_when.
  destruct (contexts m !! k) as [c|] eqn:Hc.
  2:{ split; [done|]. rewrite decide_False; [done|]. intros (? & ? & _). congruence. }
  destruct (is_reapable h m c now) eqn:Hr.
  2:{ split; [done|]. rewrite decide_False; [done|]. intros (? & ? & ?). congruence. }
  cbv beta iota zeta. set (m1 := m <| contexts ::= delete k |> <| total_contexts_removed ::= N.succ |>).
  pose proof (fun b => elem_of_sessions_to_close c m1 b (cw_sessions _ (Hcore _ _ Hc))) as Hcl.
  unfold plan_removed_context_teardown in *. cbn [fst] in Hcl. cbv beta iota zeta.
  rewrite decide_True by (exists c; done).
  pose proof (note_logins_released_limits (id c) (login_slots c) m1) as [L1 L2].
  pose proof (note_logins_released_contexts (id c) (login_slots c) m1) as Hctx.
  split; [by split|]. split; [done|]. split; [done|].
  eexists _, c. split; [done|]. split; [done|]. intros b. rewrite Hcl.
  unfold referenced. by rewrite Hctx.
Qed.

Definition closes (pl : list ContextTeardownPlan) : list N := mjoin (sessions_to_close <$> pl).

Lemma closes_snoc pl plan b : b ∈ closes (pl ++ [plan]) <-> b ∈ closes pl \/ b ∈ sessions_to_close plan.
Proof. unfold closes. rewrite fmap_app, join_app. cbn. rewrite app_nil_r. apply elem_of_app. Qed.

Lemma referenced_delete m k m' b :
  contexts m' = delete k (contexts m) -> referenced m' b -> referenced m b.
Proof.
  intros Heq (k' & c & Hc & Hr). rewrite Heq in Hc. apply lookup_delete_Some in Hc as [_ Hc].
  exists k', c. done.
Qed.

Lemma evict_fold_spec l ev pl m :
  (forall k c, contexts m !! k = Some c -> ctx_core c) ->
  let '(ev', pl', m') := foldl (evict_candidate h now) (ev, pl, m) l in
  same_limits m m' /\
  (forall k, k ∈ ev' <-> k ∈ ev \/ (k ∈ l /\ reapable_in m k)) /\
  (forall k, contexts m' !! k =
     if decide (k ∈ l /\ reapable_in m k) then None else contexts m !! k) /\
  (forall b, b ∈ closes pl -> b ∈ closes pl') /\
  (forall b, b ∈ closes pl' -> b ∈ closes pl \/ ~ referenced m' (BH b)) /\
  (forall b, referenced m (BH b) -> b ∈ closes pl' \/ referenced m' (BH b)).
Proof.
  revert ev pl m. induction l as [|k l IH]; intros ev pl m Hcore; cbn [foldl].
  { split_and!; [done|set_solver| |auto..]. intros k. rewrite decide_False; [done|set_solver]. }
  pose proof (evict_candidate_spec ev pl m k Hcore) as Hs.
  destruct (evict_candidate h now (ev, pl, m) k) as [[ev1 pl1] m1]. destruct Hs as [Hlim Hs].
  assert (Hcore1 : forall k c, contexts m1 !! k = Some c -> ctx_core c).
  { case_decide; [|destruct Hs as (_ & _ & ->); done]. destruct Hs as (_ & Hctx & _).
    intros k' c. rewrite Hctx. intros [_ Hc]%lookup_delete_Some. by eapply Hcore. }
  assert (Hre : forall k', reapable_in m1 k' <-> reapable_in m k' /\ contexts m1 !! k' = contexts m !! k').
  { intros k'. unfold reapable_in. split.
    - intros (c & Hc & Hr). rewrite (is_reapable_limits m m1 c Hlim) in Hr.
      assert (contexts m !! k' = Some c) as Hc'.
      { case_decide; [|by destruct Hs as (_ & _ & ->)]. destruct Hs as (_ & Hctx & _).
        rewrite Hctx in Hc. by apply lookup_delete_Some in Hc as [_ ?]. }
      split; [eauto|congruence].
    - intros [(c & Hc & Hr) Heq]. exists c. rewrite Heq, (is_reapable_limits m m1 c Hlim). done. }
  specialize (IH ev1 pl1 m1 Hcore1).
  destruct (foldl (evict_candidate h now) (ev1, pl1, m1) l) as [[ev' pl'] m'].
  destruct IH as (Hlim' & Hev & Hctx' & Hcl & Hsound & Hcomp).
  split; [destruct Hlim, Hlim'; by split; congruence|].
  case_decide as Hd.
  - destruct Hs as (-> & Hctx & plan & c & -> & Hc & Hplan).
    assert (Hk : forall k', contexts m1 !! k' = contexts m !! k' <-> k' <> k).
    { intros k'. rewrite Hctx, lookup_delete. case_decide; subst; split; try done; congruence. }
    split_and!.
    + intros k'. rewrite Hev, Hre, Hk. destruct (decide (k' = k)) as [->|]; set_solver.
    + intros k'. rewrite Hctx'. destruct (decide (k' = k)) as [->|Hne].
      * rewrite (decide_True (P := k ∈ k :: l /\ _)) by (split; [set_solver|done]).
        case_decide; [done|]. by rewrite Hctx, lookup_delete_eq.
      * apply Hk in Hne as Heq. case_decide as H1; case_decide as H2; try done.
        -- exfalso. apply H2. rewrite Hre in H1. set_solver.
        -- exfalso. apply H1. rewrite Hre. set_solver.
    + intros b Hb. apply Hcl, closes_snoc. by left.
    + intros b [Hb|?]%Hsound; [|by right]. apply closes_snoc in Hb as [?|Hb]; [by left|right].
      apply Hplan in Hb as [_ Hn]. intros (k' & c' & Hc' & Hr'). apply Hn. exists k', c'.
      rewrite Hctx' in Hc'. case_decide; done.
    + intros b Hb. destruct (decide (backend_session_referenced_by_live_context (BH b) m1 = true)) as [Hr|Hr].
      * apply Hcomp. by apply referenced_bool.
      * rewrite referenced_bool in Hr. left. apply Hcl, closes_snoc. right. apply Hplan.
        split; [|done]. destruct Hb as (k' & c' & Hc' & Href). destruct (decide (k' = k)) as [->|Hne].
        -- congruence.
        -- exfalso. apply Hr. exists k', c'. apply Hk in Hne. by rewrite Hne.
  - destruct Hs as (-> & -> & ->). split_and!; try done.
    + intros k'. rewrite Hev. destruct (decide (k' = k)) as [->|]; set_solver.
    + intros k'. rewrite Hctx'. case_decide as H1; case_decide as H2; try done; set_solver.
Qed.
End evict.

(** One reaper pass removes exactly the contexts that are reapable at
    its instant and leaves every other context as it was; every backend
    session of a removed context that no survivor maps is closed, no
    session a survivor still maps is, and all closes come after the
    login releases. *)
Theorem evict_expired_contract `{HI : HashIter} h now o env m :
  (forall k c, contexts m !! k = Some c -> ctx_core c) ->
  (forall s m, le_interfere (env s) m = m) ->
  let '(evicted, tr, m') := evict_expired h now o env m in
  (forall k, k ∈ evicted <-> exists c, contexts m !! k = Some c /\ is_reapable h m c now = true) /\
  (forall k, contexts m' !! k = if decide (k ∈ evicted) then None else contexts m !! k) /\
  exists mid cl, tr = mid ++ (CallClose <$> cl) /\
    (forall b, b ∈ cl -> ~ referenced m' (BH b)) /\
    (forall b, referenced m (BH b) -> ~ referenced m' (BH b) -> b ∈ cl).
Proof.
  intros Hcore Henv. unfold evict_expired. set (l := collect_expired_context_ids h now m).
  assert (Hl : forall k, k ∈ l <-> reapable_in h now m k).
  { intros k. unfold l, collect_expired_context_ids. rewrite list_elem_of_fmap. split.
    - intros ([k' c] & -> & [Hr Hin]%list_elem_of_filter). apply elem_of_hiter in Hin. by exists c.
    - intros (c & Hc & Hr). exists (k, c). split; [done|]. apply list_elem_of_filter.
      split; [done|]. by apply elem_of_hiter. }
  pose proof (evict_fold_spec h now l [] [] m Hcore) as Hf.
  destruct (foldl (evict_candidate h now) ([], [], m) l) as [[ev pl] m1].
  destruct Hf as (_ & Hev & Hctx & _ & Hsound & Hcomp).
  destruct (execute_trace o env pl [] m1) as [mid Htr].
  assert (contexts (execute_teardown_plans o env pl [] m1).2 = contexts m1) as Hsame.
  { unfold execute_teardown_plans, merge_plans. set (ls := hiter _).
    pose proof (execute_logouts_prefix o env ls ([], m1)) as [_ Hc].
    destruct (execute_logouts o env ls ([], m1)) as [tr' m']. cbn. by apply Hc. }
  destruct (execute_teardown_plans o env pl [] m1) as [tr m']. cbn in Htr, Hsame. split_and!.
  - intros k. rewrite Hev, Hl. unfold reapable_in. set_solver.
  - intros k. rewrite Hsame, Hctx. case_decide as H1; case_decide as H2; set_solver.
  - assert (Href : forall b, referenced m' b <-> referenced m1 b) by (intros b; unfold referenced; by rewrite Hsame).
    exists mid, (closes pl). split; [done|]. split.
    + intros b Hb. rewrite Href. apply Hsound in Hb as [Hb|]; [by apply not_elem_of_nil in Hb|done].
    + intros b Hb Hn. rewrite Href in Hn. by destruct (Hcomp b Hb).
Qed.

(** ** Concrete instances *)

Definition demo_departed : LogicalClientInstance :=
  demo_context <| login_state := {[ demo_slot 5 := User ]} |>.

Lemma demo_departed_core : ctx_core demo_departed.
Proof. pose proof (cw_core _ demo_context_wf) as []. by split. Qed.

Lemma teardown_plan_contract_witness :
  has_open_backend_sessions
    (plan_removed_context_teardown (HI := canonical_iter) demo_departed (ContextManager_new 60 4)).1.2
  = false.
Proof.
  pose proof (teardown_plan_contract (HI := canonical_iter) demo_departed (ContextManager_new 60 4)
    demo_departed_core) as H.
  destruct (plan_removed_context_teardown (HI := canonical_iter) demo_departed
    (ContextManager_new 60 4)) as [[plan d'] m'].
  destruct H as (_ & _ & _ & H & _). exact H.
Defined.

(** A daemon whose only client is past its lifetime. *)
Definition demo_stale : ContextManager :=
  ContextManager_new 60 4 <| contexts := {[ "ctx" := demo_departed ]} |>.
Definition demo_env (s : BackendSlotId) : LogoutEnv := MkLogoutEnv true (fun m => m) false false.
Definition demo_oracle : Oracle := fun _ => Done (Ok 0).

Lemma evict_expired_contract_witness :
  "ctx" ∈ (evict_expired (HI := canonical_iter) ∅ (MAX_CONTEXT_LIFETIME + 1) demo_oracle demo_env
             demo_stale).1.1.
Proof.
  pose proof (evict_expired_contract (HI := canonical_iter) ∅ (MAX_CONTEXT_LIFETIME + 1)
    demo_oracle demo_env demo_stale) as H.
  destruct (evict_expired _ _ _ _ _) as [[ev tr] m']. destruct H as [H _].
  - intros k c. change (contexts demo_stale)
      with ({[ "ctx" := demo_departed ]} : gmap string LogicalClientInstance).
    intros [_ <-]%lookup_singleton_Some. apply demo_departed_core.
  - reflexivity.
  - apply H. exists demo_departed. split; reflexivity.
Defined.

(** Slot 5 has a live session and one mid-close, visited first. *)
Definition demo_half_closed : ContextManager :=
  ContextManager_new 60 4 <| contexts := {[ "ctx" := demo_context
    <| session_handles ::= fun hm => (HandleMap_suspend (VH 2) hm).2 |> ]} |>.

(** The carrier search looks at one session per client only: when that
    one is mid-close it reports no live session for the slot although
    another session of the same client is open. *)
Theorem carrier_scan_can_miss :
  exists (HI : HashIter) c,
    contexts demo_half_closed !! "ctx" = Some c /\
    session_slots c !! VH 1 = Some (demo_slot 5) /\
    HandleMap_resolve (VH 1) (session_handles c) = Some (BH 71) /\
    any_active_backend_session_for_slot (demo_slot 5) demo_half_closed = None.
Proof.
  exists canonical_iter. eexists. split; [reflexivity|]. split; [reflexivity|].
  split; vm_compute; reflexivity.
Qed.
