(* ===== verification/Session.v ===== *)
(** * Login and logout

    Models [crates/server/src/server/grpc_service/session_handlers/auth.rs]
    ([login], [logout]), with [resolve_session_slot_login],
    [resolve_session] and [register_session_handle] of [service_utils.rs].

    A handler suspends at every await; what other tasks do to the manager
    there is an argument of the handler ([ContextManager -> ContextManager]),
    and so are the backend's replies, the outcome of a lock acquisition and
    the cooldown verdict.  The backend calls a handler makes are its trace. *)

From S2P Require Import Prelude Ck HandleMap SlotMap Connection Context Manager Teardown.
Open Scope N_scope.

(** ** Resolution *)

Definition resolve_session (now : N) (cid : ClientContextId) (session_handle : N)
    (m : ContextManager) : CkResult CkSessionHandle * ContextManager :=
  let '(r, m) := get_context now cid (fun ctx =>
    let virt := VH session_handle in
    ((HandleMap_resolve virt (session_handles ctx),
      HandleMap_suspended_backend virt (session_handles ctx)), ctx)) m in
  (match r with
   | None => Err Rv.CRYPTOKI_NOT_INITIALIZED
   | Some (Some backend_session, _) => Ok (MkSession (bh_raw backend_session))
   | Some (None, Some _) => Err Rv.FUNCTION_FAILED
   | Some (None, None) => Err Rv.SESSION_HANDLE_INVALID
   end, m).

Definition resolve_session_slot_login (now : N) (cid : ClientContextId) (session_handle : N)
    (m : ContextManager)
  : CkResult (CkSessionHandle * BackendSlotId * option LoginState) * ContextManager :=
  let '(resolved, m) := get_context now cid (fun ctx =>
    let virtual_session := VH session_handle in
    let slot := session_slots ctx !! virtual_session in
    ((HandleMap_resolve virtual_session (session_handles ctx), slot,
      slot ← slot; login_state ctx !! slot), ctx)) m in
  (match resolved with
   | None => Err Rv.CRYPTOKI_NOT_INITIALIZED
   | Some (Some backend_session, Some slot, current_login_state) =>
       Ok (MkSession (bh_raw backend_session), slot, current_login_state)
   | Some _ => Err Rv.SESSION_HANDLE_INVALID
   end, m).

(** [register_session_handle]. *)
Definition register_session_handle (now : N) (cid : ClientContextId)
    (backend_handle : CkSessionHandle) (slot : BackendSlotId) (m : ContextManager)
  : option N * ContextManager :=
  let '(r, m) := get_context now cid
    (fun ctx => LogicalClientInstance_register_session (BH (session_raw backend_handle)) slot ctx) m in
  (vh_raw <$> r, m).

(** ** Login *)

Definition login_state_for_user_type (user_type : CkUserType) : option LoginState :=
  match user_type with
  | UserSo => Some So
  | UserUser => Some User
  | UserContextSpecific => None
  end.

Record LoginRequest := MkLoginRequest {
  lr_context : ClientContextId;
  lr_session : N;
  lr_user_type : N;
  lr_pin : option SecretBytes;
}.

(** Everything the login handler meets at its suspension points. *)
Record LoginEnv := MkLoginEnv {
  env_now : N;
  env_lock : bool;                              (* slot lock acquired in time *)
  env_at_lock : ContextManager -> ContextManager;
  env_cooldown : bool;                          (* login_slot_in_cooldown *)
  env_login : option (CkResult N);              (* observed reply to C_Login *)
  env_at_login : ContextManager -> ContextManager;
  env_logout : option (CkResult N);             (* reconcile logout *)
  env_at_logout : ContextManager -> ContextManager;
  env_relock : bool;
  env_retry : option (CkResult N);
  env_at_retry : ContextManager -> ContextManager;
  env_at_verify : ContextManager -> ContextManager;
}.

(** What the handler reports to the failed-login budget of the slot. *)
Inductive BudgetEvent := BudgetNone | BudgetFailure | BudgetSuccess.

(** The outcome: the response code ([None] is a transport [Status]), the
    backend calls, the budget event, and the manager. *)
Record LoginOutcome := MkLoginOutcome {
  lo_rv : option CkRv;
  lo_trace : list BackendCall;
  lo_budget : BudgetEvent;
  lo_mgr : ContextManager;
}.

Definition is_already (rv : CkRv) : bool :=
  rv_eqb rv Rv.USER_ALREADY_LOGGED_IN || rv_eqb rv Rv.USER_ANOTHER_ALREADY_LOGGED_IN.

(** The mapping still is the one the handler started with. *)
Definition still_bound (session : CkSessionHandle) (slot : BackendSlotId)
    (r : CkResult (CkSessionHandle * BackendSlotId * option LoginState)) : bool :=
  match r with
  | Ok (fresh_session, fresh_slot, _) =>
      bool_decide (fresh_session = session) && bool_decide (fresh_slot = slot)
  | Err _ => false
  end.

(** The mint: the login state, then the holder index. *)
Definition mint_login (now : N) (cid : ClientContextId) (slot : BackendSlotId) (st : LoginState)
    (m : ContextManager) : ContextManager :=
  match get_context now cid (fun ctx => (tt, ctx <| login_state ::= <[slot := st]> |>)) m with
  | (Some _, m) => note_login_acquired cid slot m
  | (None, m) => m
  end.

(** The tail of [login] once the final backend verdict is known. *)
Definition login_settle (req : LoginRequest) (env : LoginEnv) (requested : option LoginState)
    (session : CkSessionHandle) (slot : BackendSlotId) (result : CkResult N)
    (tr : list BackendCall) (m : ContextManager) : LoginOutcome :=
  let cid := lr_context req in
  match result with
  | Ok _ =>
      let '(r, m) := resolve_session_slot_login (env_now env) cid (lr_session req) m in
      if still_bound session slot r then
        let m := env_at_verify env m in
        let m := match requested with
                 | Some st => mint_login (env_now env) cid slot st m
                 | None => m
                 end in
        MkLoginOutcome (Some Rv.OK) tr BudgetSuccess m
      else MkLoginOutcome (Some Rv.SESSION_HANDLE_INVALID) tr BudgetNone m
  | Err error =>
      let budget :=
        if rv_eqb error Rv.PIN_INCORRECT || rv_eqb error Rv.PIN_INVALID ||
           rv_eqb error Rv.PIN_LEN_RANGE
        then BudgetFailure else BudgetNone in
      let m :=
        if is_already error && bool_decide (is_Some (lr_pin req)) &&
           bool_decide (is_Some requested)
        then (get_context (env_now env) cid
               (fun ctx => (tt, ctx <| contended_slot_login ::= fun s => s ∪ {[ slot ]} |>)) m).2
        else m in
      MkLoginOutcome (Some error) tr budget m
  end.

Definition login (env : LoginEnv) (req : LoginRequest) (m : ContextManager) : LoginOutcome :=
  let cid := lr_context req in
  let now := env_now env in
  match CkUserType_from_raw (lr_user_type req) with
  | None => MkLoginOutcome (Some Rv.USER_TYPE_INVALID) [] BudgetNone m
  | Some user_type =>
    let requested := login_state_for_user_type user_type in
    match resolve_session_slot_login now cid (lr_session req) m with
    | (Err rv, m) => MkLoginOutcome (Some rv) [] BudgetNone m
    | (Ok (_, slot, _), m) =>
      let m := env_at_lock env m in
      if negb (env_lock env) then MkLoginOutcome (Some Rv.GENERAL_ERROR) [] BudgetNone m
      else
      match resolve_session_slot_login now cid (lr_session req) m with
      | (Err rv, m) => MkLoginOutcome (Some rv) [] BudgetNone m
      | (Ok (session, resolved_slot, _), m) =>
        if negb (bool_decide (resolved_slot = slot))
        then MkLoginOutcome (Some Rv.SESSION_HANDLE_INVALID) [] BudgetNone m
        else if env_cooldown env then MkLoginOutcome (Some Rv.PIN_LOCKED) [] BudgetNone m
        else
          let tr := [CallLogin (session_raw session) user_type (lr_pin req)] in
          let m := env_at_login env m in
          match env_login env with
          | None => MkLoginOutcome None tr BudgetNone m
          | Some result =>
            if match result with
               | Err rv => is_already rv && negb (any_login_state_for_slot slot m)
               | Ok _ => false
               end
            then
              let tr := tr ++ [CallLogout (session_raw session)] in
              let m := env_at_logout env m in
              match env_logout env with
              | None => MkLoginOutcome None tr BudgetNone m
              | Some _ =>
                if negb (env_relock env) then MkLoginOutcome (Some Rv.GENERAL_ERROR) tr BudgetNone m
                else
                let '(r, m) := resolve_session_slot_login now cid (lr_session req) m in
                if negb (still_bound session slot r)
                then MkLoginOutcome (Some Rv.SESSION_HANDLE_INVALID) tr BudgetNone m
                else
                  let tr := tr ++ [CallLogin (session_raw session) user_type (lr_pin req)] in
                  let m := env_at_retry env m in
                  match env_retry env with
                  | None => MkLoginOutcome None tr BudgetNone m
                  | Some result => login_settle req env requested session slot result tr m
                  end
              end
            else login_settle req env requested session slot result tr m
          end
      end
    end
  end.

(** ** Logout *)

Record LogoutHandlerEnv := MkLogoutHandlerEnv {
  lge_now : N;
  lge_lock : bool;
  lge_at_lock : ContextManager -> ContextManager;
  lge_logout : option (CkResult N);
  lge_at_logout : ContextManager -> ContextManager;
}.

Definition drop_login (now : N) (cid : ClientContextId) (slot : BackendSlotId)
    (m : ContextManager) : ContextManager :=
  let m := (get_context now cid (fun ctx => (tt, clear_slot_login slot ctx)) m).2 in
  let m := note_login_released cid slot m in
  attr_cache_clear now cid m.

Definition logout `{HI : HashIter} (env : LogoutHandlerEnv) (cid : ClientContextId)
    (session_handle : N) (m : ContextManager)
  : option CkRv * list BackendCall * ContextManager :=
  let now := lge_now env in
  match resolve_session_slot_login now cid session_handle m with
  | (Err rv, m) => (Some rv, [], m)
  | (Ok (_, slot, _), m) =>
    let m := lge_at_lock env m in
    if negb (lge_lock env) then (Some Rv.GENERAL_ERROR, [], m)
    else
    match resolve_session_slot_login now cid session_handle m with
    | (Err rv, m) => (Some rv, [], m)
    | (Ok (session, resolved_slot, current), m) =>
      if negb (bool_decide (resolved_slot = slot)) then (Some Rv.SESSION_HANDLE_INVALID, [], m)
      else
        let other := first_login_state_for_slot_excluding_authoritative slot cid m in
        match current, other with
        | None, Some _ =>
            (Some Rv.USER_NOT_LOGGED_IN, [],
             (get_context now cid
                (fun ctx => (tt, ctx <| contended_slot_login ::= fun s => s ∖ {[ slot ]} |>)) m).2)
        | Some _, Some _ => (Some Rv.OK, [], drop_login now cid slot m)
        | _, None =>
            let tr := [CallLogout (session_raw session)] in
            let m := lge_at_logout env m in
            match lge_logout env with
            | None => (None, tr, m)
            | Some (Ok _) => (Some Rv.OK, tr, drop_login now cid slot m)
            | Some (Err error) => (Some error, tr, m)
            end
        end
    end
  end.

(** ** Lemmas *)

(** Resolution reads the context and renews its lease. *)
Definition touched (now : N) (cid : ClientContextId) (m : ContextManager) : ContextManager :=
  m <| contexts ::= alter (LogicalClientInstance_touch now) cid |>.

Definition session_binding (cid : ClientContextId) (session_handle : N) (m : ContextManager)
  : CkResult (CkSessionHandle * BackendSlotId * option LoginState) :=
  match contexts m !! cid with
  | None => Err Rv.CRYPTOKI_NOT_INITIALIZED
  | Some c =>
      match HandleMap_resolve (VH session_handle) (session_handles c),
            session_slots c !! VH session_handle with
      | Some b, Some slot => Ok (MkSession (bh_raw b), slot, login_state c !! slot)
      | _, _ => Err Rv.SESSION_HANDLE_INVALID
      end
  end.

Lemma alter_absent {K A} `{Countable K} (f : A -> A) (k : K) (x : gmap K A) :
  x !! k = None -> alter f k x = x.
Proof.
  intros Hk. apply map_eq. intros i. rewrite lookup_alter. case_decide; [subst|done].
  by rewrite Hk.
Qed.

Lemma alter_present {K A} `{Countable K} (f : A -> A) (k : K) (x : gmap K A) v :
  x !! k = Some v -> alter f k x = <[k := f v]> x.
Proof.
  intros Hk. apply map_eq. intros i. rewrite lookup_alter, lookup_insert. case_decide; [subst|done].
  by rewrite Hk.
Qed.

Lemma resolve_session_slot_login_eq now cid sh m :
  resolve_session_slot_login now cid sh m = (session_binding cid sh m, touched now cid m).
Proof.
  unfold resolve_session_slot_login, get_context, session_binding, touched.
  destruct (contexts m !! cid) as [c|] eqn:Hc.
  - cbn -[HandleMap_resolve]. rewrite (alter_present _ _ _ _ Hc). f_equal.
    destruct (HandleMap_resolve (VH sh) (session_handles c)); [|done].
    by destruct (session_slots c !! VH sh).
  - f_equal. destruct m. cbn in *. by rewrite alter_absent.
Qed.

Lemma session_binding_Ok cid sh m s slot st :
  session_binding cid sh m = Ok (s, slot, st) ->
  exists c, contexts m !! cid = Some c /\ session_slots c !! VH sh = Some slot /\
    HandleMap_resolve (VH sh) (session_handles c) = Some (BH (session_raw s)) /\
    st = login_state c !! slot.
Proof.
  unfold session_binding. destruct (contexts m !! cid) as [c|]; [|done].
  destruct (HandleMap_resolve (VH sh) (session_handles c)) as [[b]|] eqn:Hr; [|done].
  destruct (session_slots c !! VH sh) as [sl|] eqn:Hs; [|done].
  intros [= <- <- <-]. eauto.
Qed.

(** The same context up to its lease. *)
Definition same_but_lease (c c' : LogicalClientInstance) : Prop :=
  exists t, c' = c <| last_active := t |>.

Lemma touched_lookup now cid m k :
  contexts (touched now cid m) !! k =
  if decide (cid = k) then LogicalClientInstance_touch now <$> contexts m !! k else contexts m !! k.
Proof. unfold touched. cbn. rewrite lookup_alter. by case_decide; subst. Qed.

Lemma session_binding_touched cid sh now k m :
  session_binding cid sh (touched now k m) = session_binding cid sh m.
Proof.
  unfold session_binding. rewrite touched_lookup. case_decide; [subst|done].
  by destruct (contexts m !! cid).
Qed.

Lemma touched_twice now cid m : touched now cid (touched now cid m) = touched now cid m.
Proof.
  unfold touched. cbn. f_equal. apply map_eq. intros k. rewrite !lookup_alter.
  case_decide; [subst|done]. rewrite decide_True by done. by destruct (contexts m !! k).
Qed.

Lemma any_login_touched slot now k m :
  any_login_state_for_slot slot (touched now k m) = any_login_state_for_slot slot m.
Proof.
  apply eq_true_iff_eq. unfold any_login_state_for_slot. rewrite !map_any_true.
  setoid_rewrite bool_decide_eq_true. split.
  - intros (c & v & Hv & Hs). rewrite touched_lookup in Hv. case_decide; [|eauto].
    apply fmap_Some in Hv as (v0 & Hv0 & ->). eauto.
  - intros (c & v & Hv & Hs). exists c. rewrite touched_lookup. case_decide; [|eauto].
    exists (LogicalClientInstance_touch now v). rewrite Hv. eauto.
Qed.

(** ** Properties of login *)

(** The response a backend reply leads to: an error verbatim, a success only
    while the session is still bound as it was. *)
Definition verdict_of (reply : option (CkResult N)) (rv : option CkRv) : Prop :=
  match reply with
  | None => rv = None
  | Some (Err e) => rv = Some e
  | Some (Ok _) => rv = Some Rv.OK \/ rv = Some Rv.SESSION_HANDLE_INVALID
  end.

Lemma login_settle_verdict req env requested s slot r tr m :
  verdict_of (Some r) (lo_rv (login_settle req env requested s slot r tr m)) /\
  lo_trace (login_settle req env requested s slot r tr m) = tr.
Proof.
  unfold login_settle. rewrite resolve_session_slot_login_eq. destruct r as [n|e]; [|done].
  destruct (still_bound _ _ _); cbn; auto.
Qed.

Lemma session_binding_Err cid sh m e :
  session_binding cid sh m = Err e -> e <> Rv.OK.
Proof.
  unfold session_binding. intros H. by repeat case_match; simplify_eq.
Qed.

(** Whatever other tasks do meanwhile, the backend is the only judge of
    a PIN.  No backend call is made without the slot lock or during a
    cooldown; the request's own PIN and user type are forwarded unchanged;
    the backend's final verdict is returned verbatim, so OK is answered only
    if the backend answered OK; and a login is retried at most once, only
    after an ALREADY verdict for which no client held the slot, with one
    logout in between. *)
Theorem login_verdict_is_backends env req m :
  let out := login env req m in
  (lo_trace out = [] /\ lo_rv out <> None /\ lo_rv out <> Some Rv.OK) \/
  (env_lock env = true /\ env_cooldown env = false /\
   exists s u, CkUserType_from_raw (lr_user_type req) = Some u /\
     let call := CallLogin s u (lr_pin req) in
     ((lo_trace out = [call] /\ verdict_of (env_login env) (lo_rv out)) \/
      exists e, env_login env = Some (Err e) /\ is_already e = true /\
        ((lo_trace out = [call; CallLogout s] /\ lo_rv out <> Some Rv.OK) \/
         (lo_trace out = [call; CallLogout s; call] /\ verdict_of (env_retry env) (lo_rv out))))).
Proof.
  cbn zeta. unfold login.
  destruct (CkUserType_from_raw (lr_user_type req)) as [u|]; [|by left].
  rewrite resolve_session_slot_login_eq.
  destruct (session_binding _ _ m) as [[[s0 slot] st0]|e0] eqn:Hb0;
    [|left; cbn; apply session_binding_Err in Hb0; split_and!; congruence].
  destruct (env_lock env); cbn [negb]; [|by left].
  rewrite resolve_session_slot_login_eq.
  destruct (session_binding _ _ (env_at_lock env _)) as [[[s rs] st]|e1] eqn:Hb1;
    [|left; cbn; apply session_binding_Err in Hb1; split_and!; congruence].
  case_bool_decide; cbn [negb]; [|by left].
  destruct (env_cooldown env); [by left|]. right. split; [done|]. split; [done|].
  exists (session_raw s), u. split; [done|].
  destruct (env_login env) as [r|] eqn:El; [|by left].
  match goal with |- context [if ?b then _ else _] => destruct b eqn:Hal end.
  - destruct r as [n|e]; [done|]. apply andb_true_iff in Hal as [Hal _]. right. exists e.
    split; [done|]. split; [done|].
    destruct (env_logout env); [|by left].
    destruct (env_relock env); cbn [negb]; [|by left].
    rewrite resolve_session_slot_login_eq.
    destruct (still_bound _ _ _); cbn [negb]; [|by left].
    destruct (env_retry env) as [r'|]; [|by right]. right.
    match goal with |- context [login_settle ?a ?b ?c ?d ?f ?g ?t ?mm] =>
      destruct (login_settle_verdict a b c d f g t mm) as [Hv Ht] end.
    by rewrite Ht.
  - left. match goal with |- context [login_settle ?a ?b ?c ?d ?f ?g ?t ?mm] =>
      destruct (login_settle_verdict a b c d f g t mm) as [Hv Ht] end.
    by rewrite Ht.
Qed.

(** No other task interferes at the suspension points. *)
Definition quiet (env : LoginEnv) : Prop :=
  forall m, env_at_lock env m = m /\ env_at_login env m = m /\ env_at_logout env m = m /\
            env_at_retry env m = m /\ env_at_verify env m = m.

(** The login states and the holder index are those of [m]. *)
Definition logins_unchanged (m m' : ContextManager) : Prop :=
  slot_login_holders m' = slot_login_holders m /\
  forall k, login_state <$> contexts m' !! k = login_state <$> contexts m !! k.

Lemma touched_logins now cid m : logins_unchanged m (touched now cid m).
Proof.
  split; [done|]. intros k. rewrite touched_lookup. case_decide; [subst|done].
  by destruct (contexts m !! k).
Qed.

Lemma get_context_logins {R} now cid (f : LogicalClientInstance -> R * LogicalClientInstance) m :
  (forall c, login_state (f c).2 = login_state c) ->
  logins_unchanged m (get_context now cid f m).2.
Proof.
  intros Hf. unfold get_context. destruct (contexts m !! cid) as [c|] eqn:Hc; [|done].
  specialize (Hf (LogicalClientInstance_touch now c)).
  destruct (f (LogicalClientInstance_touch now c)) as [r c']. cbn in Hf.
  split; [done|]. intros k. cbn. rewrite lookup_insert. case_decide; [subst|done].
  rewrite Hc. cbn. by rewrite Hf.
Qed.

(** What a settled login does to the manager it finds. *)
Lemma login_settle_logins req env requested s slot r tr m :
  (forall m, env_at_verify env m = m) ->
  let out := login_settle req env requested s slot r tr m in
  (lo_rv out <> Some Rv.OK -> logins_unchanged m (lo_mgr out)) /\
  (lo_rv out = Some Rv.OK -> (exists n, r = Ok n) ->
     still_bound s slot (session_binding (lr_context req) (lr_session req) m) = true /\
     lo_mgr out = match requested with
                  | Some st => mint_login (env_now env) (lr_context req) slot st
                                 (touched (env_now env) (lr_context req) m)
                  | None => touched (env_now env) (lr_context req) m
                  end).
Proof.
  intros Hq. cbn zeta. unfold login_settle. rewrite resolve_session_slot_login_eq.
  destruct r as [n|e].
  - destruct (still_bound _ _ _); cbn.
    + split; [done|]. intros _ _. by rewrite Hq.
    + split; [|done]. intros _. apply touched_logins.
  - cbn [lo_rv lo_mgr]. split; [|by intros _ [? ?]]. intros _.
    destruct (_ && _); [|done]. by apply get_context_logins.
Qed.

Lemma mint_login_lookup now cid slot st m c :
  contexts m !! cid = Some c ->
  let m' := mint_login now cid slot st m in
  (exists c', contexts m' !! cid = Some c' /\ login_state c' = <[slot := st]> (login_state c) /\
              session_slots c' = session_slots c) /\
  (forall k, k <> cid -> contexts m' !! k = contexts m !! k) /\
  cid ∈ default ∅ (slot_login_holders m' !! slot).
Proof.
  intros Hc. unfold mint_login, get_context. rewrite Hc. cbn. split_and!.
  - eexists. rewrite lookup_insert_eq. split_and!; done.
  - intros k Hk. by rewrite lookup_insert_ne.
  - rewrite lookup_partial_alter_eq. cbn. set_solver.
Qed.

(** A [CkResult] error is never [CKR_OK]. *)
Definition replies_ok (env : LoginEnv) : Prop :=
  env_login env <> Some (Err Rv.OK) /\ env_retry env <> Some (Err Rv.OK).

(** With the lease renewals folded together, a quiet login either leaves the
    logins alone or settles an OK verdict on the session it resolved. *)
Lemma quiet_login_cases env req m :
  quiet env -> replies_ok env ->
  let cid := lr_context req in
  let out := login env req m in
  (lo_rv out <> Some Rv.OK /\ logins_unchanged m (lo_mgr out)) \/
  exists u s slot cur, CkUserType_from_raw (lr_user_type req) = Some u /\
    session_binding cid (lr_session req) m = Ok (s, slot, cur) /\
    lo_rv out = Some Rv.OK /\ last (lo_trace out) = Some (CallLogin (session_raw s) u (lr_pin req)) /\
    lo_mgr out = match login_state_for_user_type u with
                 | Some st => mint_login (env_now env) cid slot st (touched (env_now env) cid m)
                 | None => touched (env_now env) cid m
                 end.
Proof.
  intros Hq [Hr1 Hr2]. cbn zeta. unfold login. set (now := env_now env). set (cid := lr_context req).
  assert (forall m, env_at_lock env m = m) as Q1 by apply Hq.
  assert (forall m, env_at_login env m = m) as Q2 by apply Hq.
  assert (forall m, env_at_logout env m = m) as Q3 by apply Hq.
  assert (forall m, env_at_retry env m = m) as Q4 by apply Hq.
  assert (forall m, env_at_verify env m = m) as Q5 by apply Hq.
  pose proof (touched_logins now cid m) as Ht.
  destruct (CkUserType_from_raw (lr_user_type req)) as [u|] eqn:Hu; [|by left].
  rewrite resolve_session_slot_login_eq.
  destruct (session_binding cid (lr_session req) m) as [[[s slot] cur]|e0] eqn:Hb;
    [|left; cbn; apply session_binding_Err in Hb; split; [congruence|done]].
  rewrite Q1. destruct (env_lock env); cbn [negb]; [|by left].
  rewrite resolve_session_slot_login_eq, session_binding_touched, Hb, touched_twice.
  rewrite bool_decide_eq_true_2 by done. cbn [negb].
  destruct (env_cooldown env); [by left|]. rewrite Q2.
  assert (Hsettle : forall r tr, last tr = Some (CallLogin (session_raw s) u (lr_pin req)) ->
    r <> Err Rv.OK ->
    let out := login_settle req env (login_state_for_user_type u) s slot r tr (touched now cid m) in
    (lo_rv out <> Some Rv.OK /\ logins_unchanged m (lo_mgr out)) \/
    exists u' s' slot' cur', Some u = Some u' /\
      (Ok (s, slot, cur) : CkResult _) = Ok (s', slot', cur') /\ lo_rv out = Some Rv.OK /\
      last (lo_trace out) = Some (CallLogin (session_raw s') u' (lr_pin req)) /\
      lo_mgr out = match login_state_for_user_type u' with
                   | Some st => mint_login now cid slot' st (touched now cid m)
                   | None => touched now cid m
                   end).
  { intros r tr Hlast Hne out.
    destruct (login_settle_logins req env (login_state_for_user_type u) s slot r tr
                (touched now cid m) Q5) as [H1 H2].
    destruct (login_settle_verdict req env (login_state_for_user_type u) s slot r tr
                (touched now cid m)) as [Hv Htr].
    fold out in H1, H2, Hv, Htr. destruct (decide (lo_rv out = Some Rv.OK)) as [Hok|Hok].
    - right. exists u, s, slot, cur. split_and!; try done; [by rewrite Htr|].
      destruct H2 as [_ ->]; [done| |].
      + destruct r as [n|e]; [eauto|]. change (lo_rv out = Some e) in Hv.
        rewrite Hok in Hv. injection Hv as <-. done.
      + fold now cid. by rewrite touched_twice.
    - left. split; [done|]. destruct (H1 Hok) as [Ha Hb']. destruct Ht as [Ha2 Hb2].
      split; [congruence|]. intros k. by rewrite Hb', Hb2. }
  destruct (env_login env) as [r|]; [|by left].
  match goal with |- context [if ?b then _ else _] => destruct b end.
  - rewrite Q3. destruct (env_logout env); [|by left].
    destruct (env_relock env); cbn [negb]; [|by left].
    rewrite resolve_session_slot_login_eq, touched_twice, session_binding_touched, Hb.
    unfold still_bound. rewrite !bool_decide_eq_true_2 by done. cbn [negb andb].
    rewrite Q4. destruct (env_retry env) as [r'|]; [|by left].
    apply Hsettle; [apply last_snoc|congruence].
  - apply Hsettle; [done|congruence].
Qed.

(** A login mints state exactly when the backend accepted the PIN.  On
    an OK response the requesting client, and only it, gains the requested
    login (User or SO) for the slot of the session the request named, and is
    entered in the holder index; a context-specific login gains nothing; on
    every other response no client's login and no index entry changes. *)
Theorem login_mints_exactly_on_ok env req m :
  quiet env -> replies_ok env ->
  let cid := lr_context req in
  let out := login env req m in
  (lo_rv out <> Some Rv.OK -> logins_unchanged m (lo_mgr out)) /\
  (lo_rv out = Some Rv.OK ->
   exists u c b slot, CkUserType_from_raw (lr_user_type req) = Some u /\
     contexts m !! cid = Some c /\ session_slots c !! VH (lr_session req) = Some slot /\
     HandleMap_resolve (VH (lr_session req)) (session_handles c) = Some b /\
     last (lo_trace out) = Some (CallLogin (bh_raw b) u (lr_pin req)) /\
     (forall k, k <> cid -> contexts (lo_mgr out) !! k = contexts m !! k) /\
     exists c', contexts (lo_mgr out) !! cid = Some c' /\
       match login_state_for_user_type u with
       | Some st => login_state c' = <[slot := st]> (login_state c) /\
                    cid ∈ default ∅ (slot_login_holders (lo_mgr out) !! slot)
       | None => login_state c' = login_state c
       end).
Proof.
  intros Hq Hr. cbn zeta.
  destruct (quiet_login_cases env req m Hq Hr)
    as [[Hne Hun]|(u & s & slot & cur & Hu & Hb & Hok & Htr & Hm)]; [by split|].
  split; [done|]. intros _. apply session_binding_Ok in Hb as (c & Hc & Hs & Hres & _).
  set (cid := lr_context req) in *. set (now := env_now env) in *.
  assert (contexts (touched now cid m) !! cid = Some (LogicalClientInstance_touch now c)) as Hc'.
  { by rewrite touched_lookup, decide_True, Hc by done. }
  assert (forall k, k <> cid -> contexts (touched now cid m) !! k = contexts m !! k) as Hk.
  { intros k Hne. by rewrite touched_lookup, decide_False by congruence. }
  exists u, c, (BH (session_raw s)), slot. split_and!; try done.
  - intros k Hne. rewrite Hm. destruct (login_state_for_user_type u) as [st|]; [|by auto].
    destruct (mint_login_lookup now cid slot st _ _ Hc') as (_ & H2 & _). rewrite H2; auto.
  - rewrite Hm. destruct (login_state_for_user_type u) as [st|].
    + destruct (mint_login_lookup now cid slot st _ _ Hc') as ((c' & H1 & H2 & _) & _ & H3).
      exists c'. auto.
    + eexists. split; [exact Hc'|done].
Qed.

(** ** Properties of logout *)

Lemma drop_login_lookup now cid slot m c :
  contexts m !! cid = Some c ->
  let m' := drop_login now cid slot m in
  (exists c', contexts m' !! cid = Some c' /\ login_state c' = delete slot (login_state c) /\
     slot ∉ contended_slot_login c' /\ attr_cache c' = ∅ /\ session_slots c' = session_slots c /\
     session_handles c' = session_handles c) /\
  (forall k, k <> cid -> contexts m' !! k = contexts m !! k) /\
  cid ∉ default ∅ (slot_login_holders m' !! slot).
Proof.
  intros Hc. unfold drop_login, attr_cache_clear. rewrite (get_context_present _ _ _ _ _ Hc).
  cbn [snd]. set (m1 := note_login_released _ _ _).
  assert (contexts m1 !! cid = Some (clear_slot_login slot (LogicalClientInstance_touch now c))) as Hc1.
  { unfold m1, note_login_released. cbn. apply lookup_insert_eq. }
  rewrite (get_context_present _ _ _ _ _ Hc1). unfold m1. cbn. split_and!.
  - eexists. rewrite lookup_insert_eq. split; [done|]. cbn. split_and!; try done. set_solver.
  - intros k Hk. by rewrite !lookup_insert_ne.
  - rewrite lookup_partial_alter_eq. destruct (slot_login_holders m !! slot); cbn; [|set_solver].
    case_bool_decide; cbn; set_solver.
Qed.

Lemma authoritative_touched `{HI : HashIter} slot ex now cid m :
  first_login_state_for_slot_excluding_authoritative slot ex (touched now cid m) = None <->
  first_login_state_for_slot_excluding_authoritative slot ex m = None.
Proof.
  rewrite !no_other_holder. split; intros H k c Hk Hne.
  - specialize (H k). rewrite touched_lookup in H. case_decide; [|by eapply H].
    rewrite Hk in H. by apply (H _ eq_refl).
  - rewrite touched_lookup in Hk. case_decide; [|by eapply H].
    apply fmap_Some in Hk as (c0 & Hc0 & ->). by apply (H k c0).
Qed.

(** Logout never disturbs another tenant.  While another live client
    holds the slot's login no backend call is made: a logged-in caller is
    logged out logically only, one that is not logged in is told so.  Without
    another holder the backend is asked and its verdict is returned, and the
    caller's login is dropped exactly when the answer is OK.  Whenever the
    caller's login is dropped its holder-index entry and its cached
    attributes go with it; no other client changes in any case. *)
Theorem logout_contract `{HI : HashIter} env cid sh m c b slot :
  (forall m, lge_at_lock env m = m /\ lge_at_logout env m = m) -> lge_lock env = true ->
  contexts m !! cid = Some c ->
  HandleMap_resolve (VH sh) (session_handles c) = Some b ->
  session_slots c !! VH sh = Some slot ->
  let '(rv, tr, m') := logout env cid sh m in
  let others := exists k ck, contexts m !! k = Some ck /\ k <> cid /\ is_Some (login_state ck !! slot) in
  let dropped := exists c', contexts m' !! cid = Some c' /\
    login_state c' = delete slot (login_state c) /\ attr_cache c' = ∅ /\
    cid ∉ default ∅ (slot_login_holders m' !! slot) in
  (forall k, k <> cid -> contexts m' !! k = contexts m !! k) /\
  (others -> tr = [] /\
     (is_Some (login_state c !! slot) -> rv = Some Rv.OK /\ dropped) /\
     (login_state c !! slot = None -> rv = Some Rv.USER_NOT_LOGGED_IN)) /\
  (~ others -> tr = [CallLogout (bh_raw b)] /\ rv = (ck_rv_of <$> lge_logout env) /\
     (forall n, lge_logout env = Some (Ok n) -> dropped) /\
     (forall e, lge_logout env = Some (Err e) -> logins_unchanged m m')).
Proof.
  intros Hq Hlock Hc Hres Hs. unfold logout. set (now := lge_now env).
  assert (forall m, lge_at_lock env m = m) as Q1 by apply Hq.
  assert (forall m, lge_at_logout env m = m) as Q2 by apply Hq.
  assert (session_binding cid sh m = Ok (MkSession (bh_raw b), slot, login_state c !! slot)) as Hb.
  { unfold session_binding. by rewrite Hc, Hres, Hs. }
  rewrite resolve_session_slot_login_eq, Hb, Q1, Hlock. cbn [negb].
  rewrite resolve_session_slot_login_eq, session_binding_touched, Hb, touched_twice.
  rewrite bool_decide_eq_true_2 by done. cbn [negb]. fold now.
  set (m1 := touched now cid m).
  assert (contexts m1 !! cid = Some (LogicalClientInstance_touch now c)) as Hc1.
  { unfold m1. by rewrite touched_lookup, decide_True, Hc by done. }
  assert (forall k, k <> cid -> contexts m1 !! k = contexts m !! k) as Hk1.
  { intros k Hne. unfold m1. by rewrite touched_lookup, decide_False by congruence. }
  pose proof (touched_logins now cid m) as Htl. fold m1 in Htl.
  set (others := exists k ck, _).
  assert (first_login_state_for_slot_excluding_authoritative slot cid m1 = None <-> ~ others) as Hoth.
  { unfold m1. rewrite authoritative_touched, no_other_holder. unfold others. split.
    - intros H (k & ck & Hk & Hne & [st Hst]). rewrite (H k ck Hk Hne) in Hst. done.
    - intros H k ck Hk Hne. apply eq_None_not_Some. intros Hst. apply H. eauto 6. }
  destruct (drop_login_lookup now cid slot m1 _ Hc1) as ((c' & Hc' & Hl' & _ & Ha' & _) & Hk' & Hi').
  assert (Hdrop : (forall k, k <> cid -> contexts (drop_login now cid slot m1) !! k = contexts m !! k) /\
    exists c', contexts (drop_login now cid slot m1) !! cid = Some c' /\
      login_state c' = delete slot (login_state c) /\ attr_cache c' = ∅ /\
      cid ∉ default ∅ (slot_login_holders (drop_login now cid slot m1) !! slot)).
  { split; [intros k Hne; rewrite Hk'; auto|]. exists c'. done. }
  destruct Hdrop as [Hd1 Hd2]. rewrite Q2.
  destruct (first_login_state_for_slot_excluding_authoritative slot cid m1) as [ost|] eqn:Ho.
  - assert (~ ~ others) as Hn by (intros H%Hoth; discriminate H).
    destruct (login_state c !! slot) as [st|] eqn:Est.
    + split_and!; [done| |done]. intros _. split_and!; [done..|by intros [=]].
    + split_and!; [| |done].
      * intros k Hne. unfold get_context. rewrite Hc1. cbn. rewrite lookup_insert_ne by done. auto.
      * intros _. split_and!; [done|by intros [? ?]|done].
  - assert (~ others) as Hn by by apply Hoth.
    assert (forall r : option CkRv * list BackendCall * ContextManager,
      (match login_state c !! slot with Some _ => r | None => r end) = r) as Hm by (intros r; by case_match).
    destruct (lge_logout env) as [[n|e]|]; destruct (login_state c !! slot); cbn;
      (split_and!; [auto|done|]; intros _; split_and!; try done; naive_solver).
Qed.

(** ** Minting races closing *)

Definition quiet_env (verify : ContextManager -> ContextManager) : LoginEnv :=
  MkLoginEnv 7 true (fun m => m) false (Some (Ok 0)) (fun m => m) (Some (Ok 0)) (fun m => m)
    true (Some (Ok 0)) (fun m => m) verify.

Definition demo_login : LoginRequest := MkLoginRequest "ctx" 3 1 (Some [49]).
Definition demo_before_login : ContextManager :=
  ContextManager_new 60 4 <| contexts := {[ "ctx" := demo_context ]} |>.

(** A concurrent C_CloseAllSessions settles the only session of slot 6. *)
Definition close_last (m : ContextManager) : ContextManager :=
  let m := (begin_close_session_with_guard 7 "ctx" (VH 3) None m).2 in
  complete_close_session "ctx" (VH 3) (BH 73) Terminal m.

(** The post-call check of a login and the mint are two critical
    sections: if the last session of the slot is closed between them, the
    client ends up holding a login for a slot it has no session on. *)
Theorem login_mint_race :
  let out := login (quiet_env close_last) demo_login demo_before_login in
  lo_rv out = Some Rv.OK /\
  exists c, contexts (lo_mgr out) !! "ctx" = Some c /\
    login_state c !! demo_slot 6 = Some User /\ holds_slot c (demo_slot 6) = false.
Proof.
  split; [vm_compute; reflexivity|]. eexists. split; [vm_compute; reflexivity|].
  split; vm_compute; reflexivity.
Qed.

Lemma login_mints_exactly_on_ok_witness :
  let out := login (quiet_env (fun m => m)) demo_login demo_before_login in
  exists c', contexts (lo_mgr out) !! "ctx" = Some c' /\
             login_state c' = <[demo_slot 6 := User]> (login_state demo_context).
Proof.
  destruct (login_mints_exactly_on_ok (quiet_env (fun m => m)) demo_login demo_before_login)
    as [_ H].
  - intros m. cbn. repeat split.
  - split; discriminate.
  - destruct H as (u & c & b & slot & Hu & Hc & Hs & _ & _ & _ & c' & Hc' & Hl).
    + vm_compute. reflexivity.
    + vm_compute in Hu. injection Hu as <-. vm_compute in Hc. injection Hc as <-.
      vm_compute in Hs. injection Hs as <-. exists c'. split; [exact Hc'|]. apply Hl.
Defined.

Lemma logout_contract_witness :
  let env := MkLogoutHandlerEnv 7 true (fun m => m) (Some (Ok 0)) (fun m => m) in
  (logout (HI := canonical_iter) env "ctx" 3 demo_before_login).1.2 = [CallLogout 73].
Proof.
  intros env.
  pose proof (logout_contract (HI := canonical_iter) env "ctx" 3 demo_before_login demo_context
    (BH 73) (demo_slot 6)) as H.
  destruct (logout env "ctx" 3 demo_before_login) as [[rv tr] m'].
  destruct H as (_ & _ & H); [repeat split|reflexivity..|].
  apply H. intros (k & ck & Hk & Hne & _).
  change (contexts demo_before_login)
    with ({[ "ctx" := demo_context ]} : gmap string LogicalClientInstance) in Hk.
  apply lookup_singleton_Some in Hk as [Hk _]. apply Hne. symmetry. exact Hk.
Defined.
