(* ===== verification/RateLimit.v ===== *)
(** * Fixed-window peer limiter

    Models [crates/server/src/server/rate_limit.rs]: [check_against] with its
    opportunistic garbage collection, shared by the discovery and the
    initialize limiters. *)

From S2P Require Import Prelude.
Open Scope N_scope.

(** ** Data *)

Record PeerCell := MkPeerCell { count : N; window_start : N }.

Record LimiterState := MkLimiter {
  window : N;
  max_per_window : N;
  peers : gmap string PeerCell;
  last_gc : N;
}.
#[export] Instance LimiterState_eta : Eta LimiterState := fun s =>
  MkLimiter (window s) (max_per_window s) (peers s) (last_gc s).

(** Nanoseconds. *)
Definition INIT_THROTTLE_WINDOW : N := 60000000000.
Definition INIT_THROTTLE_MAX_PER_WINDOW : N := 600.

Definition limiter_configure (window max : N) (now : N) : LimiterState := MkLimiter window max ∅ now.

(** ** Operations *)

(** The critical section on the peer's entry. *)
Definition check_entry (peer : string) (now : N) (s : LimiterState)
  : Result unit N * LimiterState :=
  let entry := default (MkPeerCell 0 now) (peers s !! peer) in
  let entry := if window s <=? duration_since now (window_start entry)
               then MkPeerCell 0 now else entry in
  if max_per_window s <=? count entry then
    let elapsed := duration_since now (window_start entry) in
    (Err (window s - elapsed), s <| peers ::= <[peer := entry]> |>)
  else (Ok tt, s <| peers ::= <[peer := MkPeerCell (count entry + 1) (window_start entry)]> |>).

(** The sweep; [gc_lock] is whether [try_lock] succeeded. *)
Definition limiter_gc (gc_lock : bool) (now : N) (s : LimiterState) : LimiterState :=
  if (1024 <? N.of_nat (size (peers s))) && gc_lock &&
     (window s <=? duration_since now (last_gc s))
  then s <| peers ::= filter (fun kv => duration_since now (window_start kv.2) < window s * 5) |>
         <| last_gc := now |>
  else s.

Definition check_against (state : option LimiterState) (gc_lock : bool) (peer : string) (now : N)
  : Result unit N * option LimiterState :=
  match state with
  | Some s =>
      if 0 <? max_per_window s then
        match check_entry peer now s with
        | (Err retry_after, s) => (Err retry_after, Some s)
        | (Ok _, s) => (Ok tt, Some (limiter_gc gc_lock now s))
        end
      else (Ok tt, Some s)
  | None => (Ok tt, None)
  end.

(** ** Lemmas *)

Lemma limiter_gc_fields g now s :
  window (limiter_gc g now s) = window s /\ max_per_window (limiter_gc g now s) = max_per_window s.
Proof. unfold limiter_gc. by case_match. Qed.

(** The sweep keeps an entry or drops one whose window is long over. *)
Lemma limiter_gc_lookup g now s p :
  peers (limiter_gc g now s) !! p = peers s !! p \/
  (peers (limiter_gc g now s) !! p = None /\
   forall c, peers s !! p = Some c -> window s * 5 <= duration_since now (window_start c)).
Proof.
  unfold limiter_gc. case_match; [|by left]. cbn.
  destruct (peers s !! p) as [c|] eqn:Hc.
  - destruct (decide (duration_since now (window_start c) < window s * 5)) as [Hd|Hd].
    + left. by apply map_lookup_filter_Some.
    + right. split; [|intros c' [= <-]; lia]. apply map_lookup_filter_None. right.
      intros c' Hc' HP. rewrite Hc in Hc'. injection Hc' as <-. by apply Hd.
  - left. apply map_lookup_filter_None. by left.
Qed.

(** Same budget, same configuration. *)
Lemma check_fields gc p now s r s' :
  check_against (Some s) gc p now = (r, Some s') ->
  window s' = window s /\ max_per_window s' = max_per_window s.
Proof.
  unfold check_against. destruct (0 <? max_per_window s); [|intros Heq; by injection Heq as _ <-].
  assert (window (check_entry p now s).2 = window s /\
          max_per_window (check_entry p now s).2 = max_per_window s) as [Hw Hm].
  { unfold check_entry. by case_match. }
  destruct (check_entry p now s) as [[u|d] s1]; cbn in Hw, Hm; intros Heq; injection Heq as _ <-.
  - destruct (limiter_gc_fields gc now s1). split; congruence.
  - done.
Qed.

(** How one check moves the cell of the peer and of the others. *)
Lemma check_cell gc p now s r s' q :
  0 < max_per_window s ->
  check_against (Some s) gc p now = (r, Some s') ->
  let s1 := (check_entry p now s).2 in
  r = (check_entry p now s).1 /\
  (peers s' !! q = peers s1 !! q \/
   (peers s' !! q = None /\
    forall c, peers s1 !! q = Some c -> window s * 5 <= duration_since now (window_start c))).
Proof.
  intros Hm. unfold check_against. rewrite (proj2 (N.ltb_lt _ _) Hm).
  assert (window (check_entry p now s).2 = window s) as Hw.
  { unfold check_entry. by case_match. }
  destruct (check_entry p now s) as [[[]|d] s1]; cbn in *.
  - intros [= <- <-]. split; [done|]. rewrite <- Hw. apply limiter_gc_lookup.
  - intros [= <- <-]. auto.
Qed.

(** ** Histories *)

(** One check: who, when, and whether the sweep lock was free. *)
Record CheckEvent := MkCheck { ce_peer : string; ce_now : N; ce_gc : bool }.

Fixpoint run_checks (s : option LimiterState) (es : list CheckEvent)
  : list (Result unit N) * option LimiterState :=
  match es with
  | [] => ([], s)
  | e :: es =>
      let '(r, s1) := check_against s (ce_gc e) (ce_peer e) (ce_now e) in
      let '(rs, s2) := run_checks s1 es in (r :: rs, s2)
  end.

(** Admissions of one peer in a history. *)
Definition admitted (p : string) (s : option LimiterState) (es : list CheckEvent) : N :=
  N.of_nat (length (filter (fun er => ce_peer er.1 = p /\ Result_is_ok er.2 = true)
                      (zip es (run_checks s es).1))).

Lemma admitted_cons p s e es :
  admitted p s (e :: es) =
  (if decide (ce_peer e = p /\ Result_is_ok (check_against s (ce_gc e) (ce_peer e) (ce_now e)).1 = true)
   then 1 else 0) +
  admitted p (check_against s (ce_gc e) (ce_peer e) (ce_now e)).2 es.
Proof.
  unfold admitted. cbn [run_checks]. destruct (check_against _ _ _ _) as [r s1]. cbn [fst snd].
  destruct (run_checks s1 es) as [rs s2]. cbn [zip zip_with fst]. rewrite filter_cons. cbn [fst snd].
  case_decide; cbn [length]; lia.
Qed.

Lemma check_is_Some s gc p now : exists s', (check_against (Some s) gc p now).2 = Some s'.
Proof.
  unfold check_against. case_match; [|by eexists].
  destruct (check_entry p now s) as [[]]; by eexists.
Qed.

(** The admissions still possible before instant [until]: a cell whose
    window outlives [until] cannot be reset any more. *)
Definition allowance (s : LimiterState) (until : N) (cell : option PeerCell) : N :=
  match cell with
  | None => max_per_window s
  | Some c => (max_per_window s - count c) +
              (if until <? window_start c + window s then 0 else max_per_window s)
  end.

Lemma allowance_step s s' gc p q now until r :
  0 < max_per_window s -> 0 < window s -> now <= until -> until < now + window s ->
  check_against (Some s) gc p now = (r, Some s') ->
  (if decide (p = q /\ Result_is_ok r = true) then 1 else 0) +
    allowance s' until (peers s' !! q) <= allowance s until (peers s !! q).
Proof.
  intros Hm Hw Hle Hlt Hch.
  destruct (check_fields _ _ _ _ _ _ Hch) as [Hws Hms].
  destruct (check_cell _ _ _ _ _ _ q Hm Hch) as [-> Hcell].
  set (s1 := (check_entry p now s).2) in *.
  assert (Hgc : allowance s until (peers s' !! q) <= allowance s until (peers s1 !! q)).
  { destruct Hcell as [->|[-> Hold]]; [done|]. destruct (peers s1 !! q) as [c|]; [|done].
    specialize (Hold c eq_refl). unfold duration_since in Hold. cbn.
    destruct (N.ltb_spec until (window_start c + window s)); lia. }
  assert (Hall : allowance s' until (peers s' !! q) = allowance s until (peers s' !! q)).
  { unfold allowance. by rewrite Hws, Hms. }
  rewrite Hall. etransitivity; [apply N.add_le_mono_l, Hgc|]. clear Hgc Hall Hcell.
  unfold s1, check_entry, duration_since.
  destruct (decide (p = q)) as [->|Hne].
  2:{ rewrite decide_False by tauto. case_match; cbn; rewrite lookup_insert_ne by done; lia. }
  destruct (peers s !! q) as [[n ws]|] eqn:Ec; cbn [default from_option id window_start count].
  - destruct (N.leb_spec (window s) (now - ws)); cbn [window_start count].
    + rewrite (proj2 (N.leb_gt (max_per_window s) 0)) by lia. cbn. rewrite lookup_insert_eq. cbn.
      rewrite decide_True by done.
      destruct (N.ltb_spec until (now + window s)), (N.ltb_spec until (ws + window s)); lia.
    + destruct (N.leb_spec (max_per_window s) n); cbn; rewrite lookup_insert_eq; cbn.
      * rewrite decide_False by (intros [_ ?]; done). lia.
      * rewrite decide_True by done. lia.
  - rewrite N.sub_diag, (proj2 (N.leb_gt (window s) 0)) by lia. cbn [count window_start].
    rewrite (proj2 (N.leb_gt (max_per_window s) 0)) by lia. cbn. rewrite lookup_insert_eq. cbn.
    rewrite decide_True by done. destruct (N.ltb_spec until (now + window s)); lia.
Qed.

(** ** Properties *)

(** In any history of checks whose instants span less than one window,
    whatever the other peers do and whenever the garbage collector runs, a
    peer is admitted at most twice its per-window budget. *)
Theorem limiter_window_budget p s es since until :
  0 < max_per_window s -> 0 < window s -> until < since + window s ->
  Forall (fun e => since <= ce_now e <= until) es ->
  admitted p (Some s) es <= 2 * max_per_window s.
Proof.
  intros Hm Hw Hspan Hes.
  enough (admitted p (Some s) es <= allowance s until (peers s !! p)) as Hle.
  { etransitivity; [exact Hle|]. unfold allowance. repeat case_match; lia. }
  revert s Hm Hw Hspan. induction es as [|e es IH]; intros s Hm Hw Hspan.
  { unfold admitted. cbn. lia. }
  apply Forall_cons in Hes as [He Hes]. rewrite admitted_cons.
  destruct (check_is_Some s (ce_gc e) (ce_peer e) (ce_now e)) as [s' Hs'].
  destruct (check_against (Some s) (ce_gc e) (ce_peer e) (ce_now e)) as [r o] eqn:Hch.
  cbn in Hs'. subst o. cbn [fst snd].
  destruct (check_fields _ _ _ _ _ _ Hch) as [Hws Hms].
  pose proof (allowance_step s s' (ce_gc e) (ce_peer e) p (ce_now e) until r Hm Hw
    ltac:(lia) ltac:(lia) Hch) as Hstep.
  specialize (IH Hes s' ltac:(lia) ltac:(lia) ltac:(rewrite Hws; lia)). lia.
Qed.

(** A refusal names a positive delay of at most one window, and a peer
    that waits that long is admitted (on a monotonic clock). *)
Theorem limiter_retry_after s gc p now d s' now' gc' :
  (forall c, peers s !! p = Some c -> window_start c <= now) ->
  check_against (Some s) gc p now = (Err d, s') -> now + d <= now' ->
  0 < d <= window s /\ (check_against s' gc' p now').1 = Ok tt.
Proof.
  intros Hmono. unfold check_against. destruct (N.ltb_spec 0 (max_per_window s)); [|done].
  unfold check_entry at 1. set (entry := if window s <=? _ then _ else _).
  destruct (N.leb_spec (max_per_window s) (count entry)) as [Hfull|]; [|done].
  intros [= <- <-] Hnow. cbn.
  assert (duration_since now (window_start entry) < window s) as Hyoung.
  { unfold entry in *. destruct (N.leb_spec (window s)
      (duration_since now (window_start (default (MkPeerCell 0 now) (peers s !! p))))); [|done].
    cbn in Hfull. lia. }
  assert (window_start entry <= now) as Hws.
  { unfold entry. case_match; [done|]. destruct (peers s !! p) as [c|]; cbn; [by apply Hmono|done]. }
  split; [lia|]. rewrite (proj2 (N.ltb_lt _ _)) by done.
  unfold check_entry. cbn. rewrite lookup_insert_eq. cbn.
  unfold duration_since in *. rewrite (proj2 (N.leb_le (window s) (now' - window_start entry))) by lia.
  cbn. by rewrite (proj2 (N.leb_gt _ _)).
Qed.

Definition demo_limiter : LimiterState := MkLimiter 60 1 ∅ 0.

Lemma limiter_window_budget_witness :
  admitted "10.0.0.1" (Some demo_limiter)
    [MkCheck "10.0.0.1" 5 true; MkCheck "10.0.0.1" 6 true; MkCheck "10.0.0.2" 7 false] <= 2 /\
  admitted "10.0.0.1" (Some demo_limiter)
    [MkCheck "10.0.0.1" 5 true; MkCheck "10.0.0.1" 6 true] = 1.
Proof.
  split; [|vm_compute; reflexivity].
  apply (limiter_window_budget "10.0.0.1" demo_limiter _ 5 60); [reflexivity..|].
  repeat constructor; vm_compute; discriminate.
Defined.

Lemma limiter_retry_after_witness :
  let s := (check_against (Some demo_limiter) true "10.0.0.1" 5).2 in
  exists s', check_against s true "10.0.0.1" 6 = (Err 59, s') /\
             (check_against s' true "10.0.0.1" 65).1 = Ok tt.
Proof.
  eexists. split; [reflexivity|].
  eapply (limiter_retry_after (default demo_limiter (check_against (Some demo_limiter) true "10.0.0.1" 5).2)
    true "10.0.0.1" 6 59); [|reflexivity|vm_compute; discriminate].
  intros c Hc. vm_compute in Hc. injection Hc as <-. vm_compute. discriminate.
Defined.
