(* ===== verification/RateQuota.v ===== *)
(** * Per-principal in-flight quota and per-slot login budget

    Models [crates/server/src/server/rate_quota.rs]. *)

From S2P Require Import Prelude Ck SlotMap.
Open Scope N_scope.

(** ** Data *)

Record FailedLoginState := MkFailedLogin {
  fl_count : N;
  cooldown_until : option N;
}.

Record RateQuota := MkRateQuota {
  rq_max_in_flight : option N;
  rq_max_sessions : option N;
  login_budget : option N;
  login_cooldown : N;
  rq_in_flight : gmap string Z;
  last_inflight_gc : N;
  rq_login_state : gmap BackendSlotId FailedLoginState;
}.
#[export] Instance RateQuota_eta : Eta RateQuota := fun q =>
  MkRateQuota (rq_max_in_flight q) (rq_max_sessions q) (login_budget q) (login_cooldown q)
    (rq_in_flight q) (last_inflight_gc q) (rq_login_state q).

Definition INFLIGHT_GC_INTERVAL : N := 60000000000.
Definition DEFAULT_COOLDOWN_SECS : N := 60.

(** [usize as i64]. *)
Definition usize_as_i64 (n : N) : Z :=
  if n <? 9223372036854775808 then Z.of_N n else (Z.of_N n - 18446744073709551616)%Z.

(** ** In-flight quota *)

Inductive GuardKind := NoOp | Active (key : string).

(** [begin_op_on]: the increment and its roll-back happen under the entry's
    shard lock; a refused principal keeps its entry. *)
Definition begin_op_on (max_in_flight : option N) (in_flight : gmap string Z) (principal : string)
  : option GuardKind * gmap string Z :=
  match max_in_flight with
  | None => (Some NoOp, in_flight)
  | Some max =>
      let prev := default 0%Z (in_flight !! principal) in
      if (usize_as_i64 max <=? prev)%Z then (None, <[principal := prev]> in_flight)
      else (Some (Active principal), <[principal := (prev + 1)%Z]> in_flight)
  end.

(** [Drop for PrincipalOpGuard]. *)
Definition PrincipalOpGuard_drop (g : GuardKind) (in_flight : gmap string Z) : gmap string Z :=
  match g with
  | NoOp => in_flight
  | Active key =>
      alter (fun prev => if (prev <=? 0)%Z then 0%Z else (prev - 1)%Z) key in_flight
  end.

Definition maybe_gc_inflight (gc_lock : bool) (now : N) (q : RateQuota) : RateQuota :=
  if (1024 <? N.of_nat (size (rq_in_flight q))) && gc_lock &&
     (INFLIGHT_GC_INTERVAL <=? duration_since now (last_inflight_gc q))
  then q <| rq_in_flight ::= filter (fun kv => (0 < kv.2)%Z) |> <| last_inflight_gc := now |>
  else q.

(** ** Login budget *)

(** [record_failure_on] reads the clock twice: [now] decides whether a
    cooldown is running, [now'] starts a new one. *)
Definition record_failure_on (budget : option N) (cooldown : N)
    (states : gmap BackendSlotId FailedLoginState) (slot : BackendSlotId) (now now' : N)
  : bool * gmap BackendSlotId FailedLoginState :=
  match budget with
  | None => (false, states)
  | Some budget =>
      let entry := default (MkFailedLogin 0 None) (states !! slot) in
      let count := if fl_count entry <? budget then N.min (fl_count entry + 1) u32_MAX
                   else fl_count entry in
      if budget <=? count then
        let active := match cooldown_until entry with Some t => now <? t | None => false end in
        let until := if active then cooldown_until entry else Some (now' + cooldown) in
        (true, <[slot := MkFailedLogin count until]> states)
      else (false, <[slot := MkFailedLogin count (cooldown_until entry)]> states)
  end.

Definition record_success_on (states : gmap BackendSlotId FailedLoginState) (slot : BackendSlotId)
  : gmap BackendSlotId FailedLoginState :=
  alter (fun _ => MkFailedLogin 0 None) slot states.

Definition in_cooldown_on (states : gmap BackendSlotId FailedLoginState) (slot : BackendSlotId)
    (now : N) : bool :=
  match states !! slot with
  | Some e => match cooldown_until e with Some t => now <? t | None => false end
  | None => false
  end.

(** ** The public functions *)

(** The [OnceLock]: unset before [configure]; the first [configure] wins. *)
Definition QuotaState : Type := option RateQuota.

Definition configure (per_principal_max_in_flight per_principal_max_sessions
    per_slot_failed_login_budget per_slot_failed_login_cooldown_secs : option N)
    (now : N) (STATE : QuotaState) : QuotaState :=
  match STATE with
  | Some q => Some q
  | None =>
      Some (MkRateQuota per_principal_max_in_flight per_principal_max_sessions
        per_slot_failed_login_budget
        (default DEFAULT_COOLDOWN_SECS per_slot_failed_login_cooldown_secs * 1000000000)
        ∅ now ∅)
  end.

Definition try_begin_principal_op (gc_lock : bool) (now : N) (principal : string) (STATE : QuotaState)
  : option GuardKind * QuotaState :=
  match STATE with
  | None => (Some NoOp, None)
  | Some q =>
      match begin_op_on (rq_max_in_flight q) (rq_in_flight q) principal with
      | (None, cells) => (None, Some (q <| rq_in_flight := cells |>))
      | (Some g, cells) => (Some g, Some (maybe_gc_inflight gc_lock now (q <| rq_in_flight := cells |>)))
      end
  end.

Definition per_principal_max_sessions (STATE : QuotaState) : option N :=
  q ← STATE; rq_max_sessions q.

Definition record_login_failure (slot : BackendSlotId) (now now' : N) (STATE : QuotaState)
  : bool * QuotaState :=
  match STATE with
  | None => (false, None)
  | Some q =>
      let '(tripped, st) :=
        record_failure_on (login_budget q) (login_cooldown q) (rq_login_state q) slot now now' in
      (tripped, Some (q <| rq_login_state := st |>))
  end.

Definition record_login_success (slot : BackendSlotId) (STATE : QuotaState) : QuotaState :=
  match STATE with
  | None => None
  | Some q =>
      match login_budget q with
      | None => Some q
      | Some _ => Some (q <| rq_login_state ::= fun st => record_success_on st slot |>)
      end
  end.

Definition login_slot_in_cooldown (slot : BackendSlotId) (now : N) (STATE : QuotaState) : bool :=
  match STATE with
  | None => false
  | Some q =>
      match login_budget q with
      | None => false
      | Some _ => in_cooldown_on (rq_login_state q) slot now
      end
  end.

Definition configured_login_budget (STATE : QuotaState) : option N :=
  q ← STATE; login_budget q.

(** ** Interleavings of the in-flight quota *)

(** The quota with the guards alive per principal. *)
Record QuotaSystem := MkQuotaSystem { qs_quota : RateQuota; qs_guards : gmap string N }.

Definition live_guards (s : QuotaSystem) (p : string) : N := default 0 (qs_guards s !! p).

Inductive op_quota_step (s : QuotaSystem) : QuotaSystem -> Prop :=
| oq_begin p g cells :
    begin_op_on (rq_max_in_flight (qs_quota s)) (rq_in_flight (qs_quota s)) p = (Some g, cells) ->
    op_quota_step s (MkQuotaSystem (qs_quota s <| rq_in_flight := cells |>)
      (match g with Active k => <[k := live_guards s k + 1]> (qs_guards s) | NoOp => qs_guards s end))
| oq_refuse p cells :
    begin_op_on (rq_max_in_flight (qs_quota s)) (rq_in_flight (qs_quota s)) p = (None, cells) ->
    op_quota_step s (MkQuotaSystem (qs_quota s <| rq_in_flight := cells |>) (qs_guards s))
| oq_drop p :
    0 < live_guards s p ->
    op_quota_step s (MkQuotaSystem
      (qs_quota s <| rq_in_flight ::= PrincipalOpGuard_drop (Active p) |>)
      (<[p := live_guards s p - 1]> (qs_guards s)))
| oq_gc lock now :
    op_quota_step s (MkQuotaSystem (maybe_gc_inflight lock now (qs_quota s)) (qs_guards s)).

Inductive op_quota_reachable (max : N) : QuotaSystem -> Prop :=
| oqr_new sessions budget cooldown now :
    op_quota_reachable max
      (MkQuotaSystem (MkRateQuota (Some max) sessions budget cooldown ∅ now ∅) ∅)
| oqr_step s s' : op_quota_reachable max s -> op_quota_step s s' -> op_quota_reachable max s'.

Definition op_quota_inv (max : N) (s : QuotaSystem) : Prop :=
  rq_max_in_flight (qs_quota s) = Some max /\
  forall p, default 0%Z (rq_in_flight (qs_quota s) !! p) = Z.of_N (live_guards s p) /\
            live_guards s p <= max.

Lemma op_quota_step_inv max s s' :
  max < 9223372036854775808 -> op_quota_inv max s -> op_quota_step s s' -> op_quota_inv max s'.
Proof.
  intros Hmax [Hm Hinv] Hs. unfold op_quota_inv.
  destruct Hs as [p g cells Hb|p cells Hb|p Hg|lock now]; cbn.
  - split; [done|]. rewrite Hm in Hb. unfold begin_op_on in Hb.
    destruct (Z.leb_spec (usize_as_i64 max) (default 0%Z (rq_in_flight (qs_quota s) !! p))) as [|Hlt];
      [done|]. injection Hb as <- <-. unfold usize_as_i64 in Hlt.
    rewrite (proj2 (N.ltb_lt _ _) Hmax) in Hlt. intros p'. unfold live_guards. cbn.
    destruct (Hinv p) as [He Hle]. destruct (Hinv p') as [He' Hle']. rewrite !lookup_insert.
    case_decide; cbn; [subst p'|done]. unfold live_guards in *. lia.
  - split; [done|]. rewrite Hm in Hb. unfold begin_op_on in Hb. case_match; [|done].
    injection Hb as <-. intros p'. rewrite lookup_insert. case_decide; [subst|apply Hinv].
    cbn. apply (Hinv p').
  - split; [done|]. intros p'. unfold live_guards in *. cbn. rewrite lookup_alter, lookup_insert.
    destruct (Hinv p) as [He Hle]. case_decide; [subst p'|apply Hinv]. unfold live_guards in *.
    destruct (rq_in_flight (qs_quota s) !! p) as [z|]; cbn in *; [|lia].
    destruct (Z.leb_spec z 0); lia.
  - unfold maybe_gc_inflight. case_match; [|by split]. cbn. split; [done|]. intros p.
    destruct (Hinv p) as [He Hle]. unfold live_guards in *. cbn.
    split; [|done]. rewrite <- He.
    destruct (rq_in_flight (qs_quota s) !! p) as [z|] eqn:Ez; cbn in He.
    + destruct (decide (0 < z)%Z) as [Hz|Hz].
      * by rewrite (proj2 (map_lookup_filter_Some _ _ _ _) (conj Ez Hz)).
      * rewrite (proj2 (map_lookup_filter_None _ _ _)); [cbn; lia|]. right. intros z' Hz'. cbn. congruence.
    + by rewrite (proj2 (map_lookup_filter_None _ _ _)) by (by left).
Qed.

(** ** Properties *)

(** In every interleaving of admissions, refusals, completions and
    sweeps, a principal's counter is exactly its number of operations in
    flight, which never exceeds the quota. *)
Theorem principal_in_flight_cap max s p :
  max < 9223372036854775808 -> op_quota_reachable max s ->
  default 0%Z (rq_in_flight (qs_quota s) !! p) = Z.of_N (live_guards s p) /\
  live_guards s p <= max.
Proof.
  intros Hmax Hr. enough (op_quota_inv max s) as [_ H] by apply H.
  induction Hr as [ss bb cc now|s s' _ IH Hs]; [|by eapply op_quota_step_inv].
  split; [done|]. intros p'. unfold live_guards. cbn. rewrite !lookup_empty. cbn. lia.
Qed.

(** Failures of one slot, one after the other. *)
Definition failures (budget cooldown : N) (slot : BackendSlotId)
    (st : gmap BackendSlotId FailedLoginState) (ts : list (N * N))
  : gmap BackendSlotId FailedLoginState :=
  foldl (fun st t => (record_failure_on (Some budget) cooldown st slot t.1 t.2).2) st ts.

Lemma failures_count budget cooldown slot st ts :
  budget <= u32_MAX ->
  default 0 (fl_count <$> st !! slot) <= budget ->
  let st' := failures budget cooldown slot st ts in
  (ts <> [] -> exists e, st' !! slot = Some e /\
     fl_count e = N.min budget (default 0 (fl_count <$> st !! slot) + N.of_nat (length ts))).
Proof.
  intros Hb Hc. cbn zeta. induction ts as [|t ts IH] using rev_ind; [done|]. intros _.
  unfold failures in *. rewrite foldl_app. cbn.
  set (st1 := foldl _ st ts) in *.
  assert (default 0 (fl_count <$> st1 !! slot) =
    N.min budget (default 0 (fl_count <$> st !! slot) + N.of_nat (length ts))) as He.
  { destruct ts as [|t0 ts0] eqn:Ets; [unfold st1; cbn; unfold Datatypes.id in *; lia|].
    destruct IH as (e & He1 & He2); [done|]. rewrite He1. exact He2. }
  assert (default 0 (fl_count <$> st1 !! slot) = fl_count (default (MkFailedLogin 0 None) (st1 !! slot)))
    as Hd by (by destruct (st1 !! slot)).
  rewrite length_app. cbn [length]. rewrite <- Hd, He.
  set (k := default 0 (fl_count <$> st !! slot) + N.of_nat (length ts)) in *.
  assert (default 0 (fl_count <$> st !! slot) + N.of_nat (length ts + 1) = k + 1) as Hk by lia.
  rewrite Hk. destruct (N.ltb_spec (N.min budget k) budget); cbn;
    (case_match; cbn; rewrite lookup_insert_eq; eexists; (split; [done|]); cbn; lia).
Qed.

(** A slot whose failure count is clean survives fewer than [budget]
    wrong PINs without a cooldown; the attempt that reaches the budget (and
    every later one outside a running cooldown) starts a cooldown of the
    configured length, during which the slot refuses logins; a success
    clears the slot, and no other slot is affected. *)
Theorem login_budget_trips budget cooldown slot st ts t t2 :
  0 < budget <= u32_MAX -> 0 < cooldown -> t <= t2 -> st !! slot = None ->
  let st0 := failures budget cooldown slot st ts in
  let '(tripped, st') := record_failure_on (Some budget) cooldown st0 slot t t2 in
  (tripped = true <-> budget <= N.of_nat (length ts) + 1) /\
  (tripped = true -> in_cooldown_on st' slot t = true /\
     (in_cooldown_on st0 slot t = false ->
        forall t', in_cooldown_on st' slot t' = true <-> t' < t2 + cooldown)) /\
  (tripped = false -> forall t', in_cooldown_on st' slot t' = false) /\
  (forall t', in_cooldown_on (record_success_on st' slot) slot t' = false) /\
  (forall s, s <> slot -> st' !! s = st0 !! s).
Proof.
  intros Hb Hcd Htt Hclean. cbn zeta. set (st0 := failures budget cooldown slot st ts).
  assert (fl_count (default (MkFailedLogin 0 None) (st0 !! slot)) =
          N.min budget (N.of_nat (length ts))) as Hcount.
  { destruct ts as [|t0 ts0] eqn:Ets; [unfold st0; cbn; rewrite Hclean; cbn; lia|].
    destruct (failures_count budget cooldown slot st ts) as (e & He1 & He2); subst ts;
      [lia|rewrite Hclean; cbn; lia|done|]. unfold st0. rewrite He1. cbn [default from_option].
    rewrite Hclean in He2. cbn in He2 |- *. exact He2. }
  assert (Hquiet : N.of_nat (length ts) < budget ->
    cooldown_until (default (MkFailedLogin 0 None) (st0 !! slot)) = None).
  { clear -Hclean Hb. unfold st0. induction ts as [|t0 ts IH] using rev_ind; [intros _; cbn; by rewrite Hclean|].
    intros Hlen. rewrite length_app in Hlen. cbn in Hlen. unfold failures in *. rewrite foldl_app.
    assert (fl_count (default (MkFailedLogin 0 None)
      (foldl (fun st t => (record_failure_on (Some budget) cooldown st slot t.1 t.2).2) st ts !! slot)) + 1 < budget)
      as Hlt.
    { destruct ts as [|t1 ts1] eqn:Ets; [cbn; rewrite Hclean; cbn in *; lia|].
      destruct (failures_count budget cooldown slot st ts) as (e & He1 & He2); subst ts;
        [lia|rewrite Hclean; cbn; lia|done|]. unfold failures in He1. rewrite He1. cbn [default from_option].
      rewrite Hclean in He2. cbn in *. unfold Datatypes.id. lia. }
    cbn. set (e := default _ _) in *.
    rewrite (proj2 (N.ltb_lt _ _)) by lia. rewrite (proj2 (N.leb_gt budget _)) by (unfold u32_MAX; lia).
    cbn. rewrite lookup_insert_eq. cbn. apply IH. lia. }
  unfold record_failure_on. rewrite Hcount.
  set (until := cooldown_until (default (MkFailedLogin 0 None) (st0 !! slot))) in *.
  assert (in_cooldown_on st0 slot t = match until with Some u => t <? u | None => false end) as Hact.
  { unfold in_cooldown_on, until. by destruct (st0 !! slot). }
  set (n := if N.min budget (N.of_nat (length ts)) <? budget then _ else _).
  assert (n = N.min budget (N.of_nat (length ts) + 1)) as Hn.
  { unfold n, u32_MAX in *. destruct (N.ltb_spec (N.min budget (N.of_nat (length ts))) budget); lia. }
  assert (Hsucc : forall e t', in_cooldown_on (record_success_on (<[slot := e]> st0) slot) slot t' = false).
  { intros e t'. unfold in_cooldown_on, record_success_on. by rewrite lookup_alter_eq, lookup_insert_eq. }
  destruct (N.leb_spec budget n) as [Hge|Hlt].
  - split_and!; [split; [lia|done]| |done|by intros|by intros; rewrite lookup_insert_ne].
    intros _. unfold in_cooldown_on at 1 3. rewrite lookup_insert_eq. cbn. rewrite Hact.
    destruct until as [u|]; [destruct (N.ltb_spec t u) as [Hu|Hu]|]; cbn.
    + split; [by apply N.ltb_lt|done].
    + split; [apply N.ltb_lt; lia|]. intros _ t'. apply N.ltb_lt.
    + split; [apply N.ltb_lt; lia|]. intros _ t'. apply N.ltb_lt.
  - split_and!; [split; [done|lia]|done| |by intros|by intros; rewrite lookup_insert_ne].
    intros _ t'. unfold in_cooldown_on. rewrite lookup_insert_eq. cbn.
    rewrite Hquiet by lia. done.
Qed.

Lemma principal_in_flight_cap_witness :
  let s := MkQuotaSystem (MkRateQuota (Some 1) None None 0 {[ "alice" := 1%Z ]} 0 ∅) {[ "alice" := 1 ]} in
  default 0%Z (rq_in_flight (qs_quota s) !! "alice") = 1%Z /\ live_guards s "alice" <= 1.
Proof.
  intros s. apply (principal_in_flight_cap 1 s "alice"); [reflexivity|].
  eapply oqr_step; [apply (oqr_new _ None None 0 0)|].
  exact (oq_begin (MkQuotaSystem (MkRateQuota (Some 1) None None 0 ∅ 0 ∅) ∅) "alice" (Active "alice")
           {[ "alice" := 1%Z ]} eq_refl).
Defined.

Lemma login_budget_trips_witness :
  let slot := BSlot (MkSlotId 4) in
  (record_failure_on (Some 2) 60 (failures 2 60 slot ∅ [(10, 10)]) slot 11 12).1 = true.
Proof.
  intros slot.
  assert (0 < 2 <= u32_MAX) as Hb by (split; [reflexivity|discriminate]).
  assert (11 <= 12) as Hle by discriminate.
  pose proof (login_budget_trips 2 60 slot ∅ [(10, 10)] 11 12 Hb eq_refl Hle eq_refl) as H.
  cbn zeta in H. destruct (record_failure_on _ _ _ _ _ _) as [b st'].
  apply (proj1 H). discriminate.
Defined.
