(* ===== verification/Health.v ===== *)
(** * The readiness gate

    Models [report_backend_outcome] of
    [crates/server/src/server/grpc_service/service_utils.rs] (the producer
    that coalesces successes onto a bounded channel) and
    [spawn_backend_health_gate] of [crates/server/src/main.rs] (the consumer
    that flips the daemon between SERVING and NOT_SERVING).

    The state holds the channel's buffer, the [LAST_SENT_HEALTHY] flag and the
    consumer's two locals.  A run is a sequence of reports and receives in any
    order; one report (the flag update and its [try_send]) is one step. *)

From S2P Require Import Prelude Ck.
Open Scope N_scope.

Inductive BackendHealthEvent := Success | Failure.

#[export] Instance BackendHealthEvent_eq_dec : EqDecision BackendHealthEvent.
Proof. solve_decision. Defined.

Record HealthGate := MkHealthGate { consecutive_failures : N; currently_serving : bool }.

Record HealthSystem := MkHealthSystem {
  health_tx : option (list BackendHealthEvent);   (* HEALTH_EVENT_TX and its buffer *)
  last_sent_healthy : bool;                       (* LAST_SENT_HEALTHY *)
  health_gate : HealthGate;
}.

(** The buffer [async_main] creates. *)
Definition HEALTH_CHANNEL_CAPACITY : N := 256.

Definition health_init : HealthSystem := MkHealthSystem (Some []) true (MkHealthGate 0 true).

(** [Sender::try_send] with its result ignored. *)
Definition try_send (e : BackendHealthEvent) (buf : list BackendHealthEvent) : list BackendHealthEvent :=
  if N.of_nat (length buf) <? HEALTH_CHANNEL_CAPACITY then buf ++ [e] else buf.

Definition report_backend_outcome (success : bool) (s : HealthSystem) : HealthSystem :=
  match health_tx s with
  | None => s
  | Some buf =>
      if success then
        if negb (last_sent_healthy s)
        then MkHealthSystem (Some (try_send Success buf)) true (health_gate s)
        else MkHealthSystem (Some buf) true (health_gate s)
      else MkHealthSystem (Some (try_send Failure buf)) false (health_gate s)
  end.

(** The body of the gate's [while let] loop. *)
Definition gate_event (threshold : N) (g : HealthGate) (event : BackendHealthEvent) : HealthGate :=
  match event with
  | Success => MkHealthGate 0 true
  | Failure =>
      let n := N.min (consecutive_failures g + 1) u32_MAX in
      MkHealthGate n (if currently_serving g && (threshold <=? n) then false else currently_serving g)
  end.

Definition gate_recv (threshold : N) (s : HealthSystem) : HealthSystem :=
  match health_tx s with
  | Some (e :: buf) => MkHealthSystem (Some buf) (last_sent_healthy s) (gate_event threshold (health_gate s) e)
  | _ => s
  end.

Inductive HealthInput := Report (success : bool) | Recv.

Definition health_step (threshold : N) (s : HealthSystem) (i : HealthInput) : HealthSystem :=
  match i with
  | Report b => report_backend_outcome b s
  | Recv => gate_recv threshold s
  end.

Definition health_run (threshold : N) (s : HealthSystem) (ins : list HealthInput) : HealthSystem :=
  foldl (health_step threshold) s ins.

(** ** What the gate should show *)

Definition reports (ins : list HealthInput) : list bool :=
  omap (fun i => match i with Report b => Some b | Recv => None end) ins.

(** Failures since the last success. *)
Definition failure_run (bs : list bool) : N :=
  foldl (fun n (b : bool) => if b then 0 else n + 1) 0 bs.

(** No report of the run finds the buffer full. *)
Fixpoint never_full (threshold : N) (s : HealthSystem) (ins : list HealthInput) : bool :=
  match ins with
  | [] => true
  | i :: ins =>
      (match i, health_tx s with
       | Report _, Some buf => N.of_nat (length buf) <? HEALTH_CHANNEL_CAPACITY
       | _, _ => true
       end) && never_full threshold (health_step threshold s i) ins
  end.

Definition gate_verdict (threshold n : N) : HealthGate := MkHealthGate (N.min n u32_MAX) (n <? threshold).

Definition health_inv (threshold n : N) (s : HealthSystem) : Prop :=
  exists buf, health_tx s = Some buf /\
    foldl (gate_event threshold) (health_gate s) buf = gate_verdict threshold n /\
    (last_sent_healthy s = true -> n = 0).

Lemma gate_verdict_failure threshold n :
  0 < threshold <= u32_MAX ->
  gate_event threshold (gate_verdict threshold n) Failure = gate_verdict threshold (n + 1).
Proof.
  intros Ht. unfold gate_event, gate_verdict. cbn. unfold u32_MAX in *. f_equal; [lia|].
  destruct (N.ltb_spec n threshold), (N.ltb_spec (n + 1) threshold); cbn; try done; try lia.
  - destruct (N.leb_spec threshold (N.min (N.min n 4294967295 + 1) 4294967295)); [lia|done].
  - destruct (N.leb_spec threshold (N.min (N.min n 4294967295 + 1) 4294967295)); [done|lia].
Qed.

Lemma gate_verdict_success threshold g :
  0 < threshold -> gate_event threshold g Success = gate_verdict threshold 0.
Proof. intros Ht. unfold gate_verdict. cbn. by rewrite (proj2 (N.ltb_lt _ _) Ht). Qed.

Lemma health_step_inv threshold n s i :
  0 < threshold <= u32_MAX -> health_inv threshold n s -> never_full threshold s [i] = true ->
  health_inv threshold (match i with Report true => 0 | Report false => n + 1 | Recv => n end)
    (health_step threshold s i).
Proof.
  intros Ht (buf & Hb & Hf & Hl) Hn. cbn in Hn. rewrite Hb in Hn.
  destruct i as [[|]|]; cbn; unfold report_backend_outcome, gate_recv, try_send; rewrite ?Hb.
  - rewrite andb_true_r in Hn. rewrite Hn. destruct (last_sent_healthy s); cbn.
    + exists buf. cbn [health_tx health_gate last_sent_healthy]. rewrite Hf, Hl; done.
    + eexists. split; [done|]. cbn. rewrite foldl_app. cbn. split; [|done].
      exact (gate_verdict_success threshold (MkHealthGate 0 true) (proj1 Ht)).
  - rewrite andb_true_r in Hn. rewrite Hn. eexists. split; [done|]. cbn [health_gate last_sent_healthy].
    rewrite foldl_app, Hf. cbn [foldl]. split; [by apply gate_verdict_failure|done].
  - destruct buf as [|e buf]; cbn; [by exists []|]. by exists buf.
Qed.

Lemma health_run_inv threshold ins : forall n s,
  0 < threshold <= u32_MAX -> health_inv threshold n s -> never_full threshold s ins = true ->
  health_inv threshold (foldl (fun n (b : bool) => if b then 0 else n + 1) n (reports ins))
    (health_run threshold s ins).
Proof.
  induction ins as [|i ins IH]; intros n s Ht Hinv Hn; [done|].
  cbn in Hn. apply andb_prop in Hn as [Hi Hn].
  pose proof (health_step_inv threshold n s i Ht Hinv ltac:(cbn; by rewrite andb_true_r)) as Hs.
  specialize (IH _ _ Ht Hs Hn). by destruct i as [[|]|].
Qed.

(** ** Properties *)

(** As long as no report finds the channel full, coalescing successes and
    delaying consumption are invisible: whenever the buffer has drained, the
    gate shows NOT_SERVING exactly when at least [threshold] failures were
    reported since the last reported success, and its counter is that number
    of failures. *)
Theorem health_gate_verdict threshold ins :
  0 < threshold <= u32_MAX ->
  never_full threshold health_init ins = true ->
  health_tx (health_run threshold health_init ins) = Some [] ->
  health_gate (health_run threshold health_init ins) =
    MkHealthGate (N.min (failure_run (reports ins)) u32_MAX) (failure_run (reports ins) <? threshold).
Proof.
  intros Ht Hn Hd.
  destruct (health_run_inv threshold ins 0 health_init Ht) as (buf & Hb & Hf & _).
  - exists []. split; [done|]. cbn. split; [|done]. unfold gate_verdict.
    by rewrite (proj2 (N.ltb_lt _ _) (proj1 Ht)).
  - done.
  - rewrite Hd in Hb. injection Hb as <-. exact Hf.
Qed.

Lemma health_gate_verdict_witness :
  health_gate (health_run 2 health_init [Report false; Report false; Recv; Report true; Recv; Report false; Recv; Recv])
    = MkHealthGate 1 true.
Proof.
  rewrite (health_gate_verdict 2); [reflexivity|split; [reflexivity|discriminate]|reflexivity|reflexivity].
Defined.

Lemma suppressed_successes threshold k : forall g,
  let s := MkHealthSystem (Some []) true g in
  health_run threshold s (mjoin (replicate k [Report true; Recv])) = s.
Proof. induction k as [|k IH]; intros g; [done|]. exact (IH g). Qed.

Lemma health_run_app threshold s a b :
  health_run threshold s (a ++ b) = health_run threshold (health_run threshold s a) b.
Proof. apply foldl_app. Qed.

(** A burst of failures that fills the buffer, one success, then a drain. *)
Definition failure_storm : list HealthInput :=
  replicate 256 (Report false) ++ [Report true] ++ replicate 256 Recv.

Lemma failure_storm_outcome :
  health_run 3 health_init failure_storm = MkHealthSystem (Some []) true (MkHealthGate 256 false).
Proof. vm_compute. reflexivity. Qed.

(** When a burst of failures fills the channel, the first success after it
    is dropped, yet the producer records it as sent: the gate goes to
    NOT_SERVING and stays there however many successful calls follow. *)
Theorem dropped_success_strands_gate k :
  currently_serving (health_gate
    (health_run 3 health_init (failure_storm ++ mjoin (replicate k [Report true; Recv])))) = false.
Proof.
  rewrite health_run_app, failure_storm_outcome.
  exact (f_equal (fun s => currently_serving (health_gate s)) (suppressed_successes 3 k (MkHealthGate 256 false))).
Qed.
