(* ===== verification/Breaker.v ===== *)
(** * The backend-call breaker

    Models the part of [crates/server/src/server/grpc_service/service_utils.rs]
    every backend call goes through: [spawn_backend_core_classified] with
    [try_acquire_backend_call] and [InFlightGuard], the per-peer admission
    table ([try_admit_peer], [PeerAdmissionGuard]), [StuckCallAccounting] with
    its completion guard, and the outcome classifier.

    Any number of calls interleave.  A call is a small program counter; every
    atomic access to a shared cell (an atomic load, a compare-exchange, a
    [DashMap] entry access, a critical section of the accounting mutex) is one
    step, so the interleavings are those of the code.  The async caller and
    the blocking task of one call advance independently: the caller may time
    out or be cancelled while the task runs on. *)

From S2P Require Import Prelude Ck Health.
Open Scope N_scope.

(** ** Limits *)

Definition max_concurrent_backend_calls (MAX_BACKEND_CALLS : option N) : N :=
  default 200 MAX_BACKEND_CALLS.

Definition per_context_max_in_flight (MAX_BACKEND_CALLS : option N) : N :=
  N.max (max_concurrent_backend_calls MAX_BACKEND_CALLS / 4) 1.

Definition per_connection_max_in_flight (MAX_BACKEND_CALLS : option N) : N :=
  N.max (max_concurrent_backend_calls MAX_BACKEND_CALLS / 4) 1.

(** [AtomicUsize::fetch_add(1)] and [fetch_sub(1)] wrap. *)
Definition fetch_add1 (n : N) : N := wrapping_add64 n 1.
Definition fetch_sub1 (n : N) : N := if n =? 0 then u64_MAX else n - 1.

(** ** Stuck-call accounting *)

Inductive StuckCallState := Running | TimedOut | Completed.

#[export] Instance StuckCallState_eq_dec : EqDecision StuckCallState.
Proof. solve_decision. Defined.

(** [StuckCallAccounting::timeout]: the value logged, the gauge, the state. *)
Definition accounting_timeout (gauge : N) (state : StuckCallState) : N * N * StuckCallState :=
  if bool_decide (state = Running) then (fetch_add1 gauge, fetch_add1 gauge, TimedOut)
  else (gauge, gauge, state).

(** [StuckCallAccounting::complete]. *)
Definition accounting_complete (gauge : N) (state : StuckCallState) : option N * N * StuckCallState :=
  match state with
  | TimedOut => (Some (fetch_sub1 gauge), fetch_sub1 gauge, Completed)
  | Running => (None, gauge, Completed)
  | Completed => (None, gauge, Completed)
  end.

(** ** Outcomes *)

(** [tonic::Status] of a panicked blocking task; only its presence matters. *)
Inductive Status := SpawnBlockingPanic.

(** What the blocking task ends with. *)
Inductive TaskOutcome := TaskReturned (r : CkResult unit) | TaskPanicked.

Definition provider_rv_is_healthy (rv : CkRv) : bool :=
  negb (bool_decide (rv = Rv.DEVICE_REMOVED)) && negb (bool_decide (rv = Rv.HOST_MEMORY)).

Definition classify_backend_outcome {T} (result : Result (CkResult T) Status) : bool :=
  match result with
  | Ok (Ok _) => true
  | Ok (Err rv) => if negb (provider_rv_is_healthy rv) then false else true
  | Err _ => false
  end.

(** [spawn_task]: a panic becomes an internal status. *)
Definition task_result (o : TaskOutcome) : Result (CkResult unit) Status :=
  match o with TaskReturned r => Ok r | TaskPanicked => Err SpawnBlockingPanic end.

(** ** One call *)

(** The blocking task: its locals drop in reverse order of declaration, the
    completion guard first, then the peer guard (a decrement, then the removal
    of a drained entry), then the breaker's guard. *)
Inductive TaskPc :=
| Executing
| DropPeer (o : TaskOutcome)
| RemovePeer (o : TaskOutcome)
| DropGlobal (o : TaskOutcome)
| Finished (o : TaskOutcome).

(** The async side at [tokio::time::timeout(..).await]. *)
Inductive CallerPc :=
| Waiting
| Elapsed
| CallerTimedOut                         (* answered CKR_FUNCTION_FAILED *)
| Answered (r : Result (CkResult unit) Status)
| Cancelled.

Inductive CallPc :=
| Load                                   (* before [counter.load] *)
| Acquire (current : N)                  (* in the loop of try_acquire_backend_call *)
| PeerEntry                              (* before [PEER_IN_FLIGHT.entry(peer)] *)
| PeerLoad (cell : nat)                  (* the Arc is cloned *)
| PeerAcquire (cell : nat) (current : N) (* in the loop of try_admit_peer *)
| PeerRefused                            (* at the per-peer cap; breaker slot still held *)
| Live (cell : option nat) (acct : StuckCallState) (task : TaskPc) (caller : CallerPc)
| BreakerTripped                         (* answered CKR_HOST_MEMORY: no slot *)
| PeerRejected.                          (* answered CKR_HOST_MEMORY: peer at its cap *)

Definition SocketAddr : Type := string.

(** [call_report] records the call's [report_backend_outcome]. *)
Record Call := MkCall {
  call_peer : option SocketAddr;
  call_pc : CallPc;
  call_report : option bool;
}.

(** [IN_FLIGHT], [STUCK_CALLS], [PEER_IN_FLIGHT] and the counters its [Arc]s
    point to, in order of allocation. *)
Record Shared := MkShared {
  IN_FLIGHT : N;
  STUCK_CALLS : N;
  PEER_IN_FLIGHT : gmap SocketAddr nat;
  peer_cells : list N;
}.
#[export] Instance Shared_eta : Eta Shared := fun s =>
  MkShared (IN_FLIGHT s) (STUCK_CALLS s) (PEER_IN_FLIGHT s) (peer_cells s).

Definition backend_in_flight (sh : Shared) : N := IN_FLIGHT sh.
Definition stuck_backend_calls (sh : Shared) : N := STUCK_CALLS sh.

Record BreakerCfg := MkBreakerCfg { max_calls : N; peer_max : N }.

(** What may happen next to a call: the request side takes its next atomic
    step (a weak compare-exchange may fail spuriously), the operation returns,
    the task runs its next guard drop, the timer fires with the task not
    ready, the timeout branch runs, the caller takes the result, or the
    caller's future is dropped. *)
Inductive CallAction :=
| Step (spurious : bool)
| OperationReturns (o : TaskOutcome)
| TaskAdvances
| TimerFires
| TimeoutBranch
| TakeResult
| Cancel.

(** [try_acquire_backend_call], one atomic access at a time: [inl] is a
    success, [inr (Some c)] another round with [c] loaded, [inr None] a
    refusal. *)
Definition cas_round (counter limit current : N) (spurious : bool) : N * (unit + option N) :=
  if limit <=? current then (counter, inr None)
  else if (counter =? current) && negb spurious then (current + 1, inl tt)
  else (counter, inr (Some counter)).

(** The closure's guards once [operation] returned or panicked. *)
Definition after_operation (cell : option nat) (o : TaskOutcome) : TaskPc :=
  match cell with Some _ => DropPeer o | None => DropGlobal o end.

(** The start of the blocking task, once every admission passed. *)
Definition submitted (cell : option nat) : CallPc := Live cell Running Executing Waiting.

(** The next atomic step of the request before the task is submitted. *)
Definition admission_step (cfg : BreakerCfg) (sh : Shared) (c : Call) (spurious : bool)
  : option (Shared * Call) :=
  match call_pc c with
  | Load => Some (sh, MkCall (call_peer c) (Acquire (IN_FLIGHT sh)) (call_report c))
  | Acquire current =>
      match cas_round (IN_FLIGHT sh) (max_calls cfg) current spurious with
      | (n, inl _) =>
          Some (sh <| IN_FLIGHT := n |>,
                MkCall (call_peer c)
                  (match call_peer c with Some _ => PeerEntry | None => submitted None end) (call_report c))
      | (_, inr (Some actual)) => Some (sh, MkCall (call_peer c) (Acquire actual) (call_report c))
      | (_, inr None) => Some (sh, MkCall (call_peer c) BreakerTripped (Some false))
      end
  | PeerEntry =>
      match call_peer c with
      | None => None
      | Some peer =>
          match PEER_IN_FLIGHT sh !! peer with
          | Some cell => Some (sh, MkCall (call_peer c) (PeerLoad cell) (call_report c))
          | None =>
              let cell := length (peer_cells sh) in
              Some (sh <| PEER_IN_FLIGHT := <[peer := cell]> (PEER_IN_FLIGHT sh) |>
                       <| peer_cells := peer_cells sh ++ [0] |>,
                    MkCall (call_peer c) (PeerLoad cell) (call_report c))
          end
      end
  | PeerLoad cell =>
      n ← peer_cells sh !! cell;
      Some (sh, MkCall (call_peer c) (PeerAcquire cell n) (call_report c))
  | PeerAcquire cell current =>
      n ← peer_cells sh !! cell;
      match cas_round n (peer_max cfg) current spurious with
      | (n', inl _) =>
          Some (sh <| peer_cells := <[cell := n']> (peer_cells sh) |>,
                MkCall (call_peer c) (submitted (Some cell)) (call_report c))
      | (_, inr (Some actual)) => Some (sh, MkCall (call_peer c) (PeerAcquire cell actual) (call_report c))
      | (_, inr None) => Some (sh, MkCall (call_peer c) PeerRefused (call_report c))
      end
  | PeerRefused =>
      Some (sh <| IN_FLIGHT := fetch_sub1 (IN_FLIGHT sh) |>, MkCall (call_peer c) PeerRejected (call_report c))
  | Live _ _ _ _ | BreakerTripped | PeerRejected => None
  end.

(** The next guard drop of the blocking task. *)
Definition task_step (sh : Shared) (peer : option SocketAddr) (cell : option nat) (task : TaskPc)
  : option (Shared * TaskPc) :=
  match task, cell with
  | DropPeer o, Some cell =>
      previous ← peer_cells sh !! cell;
      Some (sh <| peer_cells := <[cell := fetch_sub1 previous]> (peer_cells sh) |>,
            if previous =? 1 then RemovePeer o else DropGlobal o)
  | RemovePeer o, Some mine =>
      peer ← peer;
      let remove :=
        match PEER_IN_FLIGHT sh !! peer with
        | Some count => bool_decide (count = mine) && bool_decide (peer_cells sh !! count = Some 0)
        | None => false
        end in
      Some (if remove then sh <| PEER_IN_FLIGHT := delete peer (PEER_IN_FLIGHT sh) |> else sh, DropGlobal o)
  | DropGlobal o, _ => Some (sh <| IN_FLIGHT := fetch_sub1 (IN_FLIGHT sh) |>, Finished o)
  | _, _ => None
  end.

Definition call_step (cfg : BreakerCfg) (sh : Shared) (c : Call) (a : CallAction) : option (Shared * Call) :=
  match a, call_pc c with
  | Step spurious, _ => admission_step cfg sh c spurious
  | OperationReturns o, Live cell acct Executing caller =>
      let '(_, gauge, acct') := accounting_complete (STUCK_CALLS sh) acct in
      Some (sh <| STUCK_CALLS := gauge |>,
            MkCall (call_peer c) (Live cell acct' (after_operation cell o) caller) (call_report c))
  | TaskAdvances, Live cell acct task caller =>
      '(sh', task') ← task_step sh (call_peer c) cell task;
      Some (sh', MkCall (call_peer c) (Live cell acct task' caller) (call_report c))
  | TimerFires, Live cell acct (Finished _) Waiting => None
  | TimerFires, Live cell acct task Waiting =>
      Some (sh, MkCall (call_peer c) (Live cell acct task Elapsed) (call_report c))
  | TimeoutBranch, Live cell acct task Elapsed =>
      let '(_, gauge, acct') := accounting_timeout (STUCK_CALLS sh) acct in
      Some (sh <| STUCK_CALLS := gauge |>,
            MkCall (call_peer c) (Live cell acct' task CallerTimedOut) (Some false))
  | TakeResult, Live cell acct (Finished o) Waiting =>
      let result := task_result o in
      Some (sh, MkCall (call_peer c) (Live cell acct (Finished o) (Answered result))
                  (Some (classify_backend_outcome result)))
  | Cancel, Live cell acct task Waiting =>
      Some (sh, MkCall (call_peer c) (Live cell acct task Cancelled) (call_report c))
  | _, _ => None
  end.

(** ** Interleavings *)

Record BreakerSystem := MkBreakerSystem { bs_shared : Shared; bs_calls : list Call }.

Inductive BreakerMove := Spawn (peer : option SocketAddr) | Act (i : nat) (a : CallAction).

Definition breaker_move (cfg : BreakerCfg) (s : BreakerSystem) (m : BreakerMove) : option BreakerSystem :=
  match m with
  | Spawn peer => Some (MkBreakerSystem (bs_shared s) (bs_calls s ++ [MkCall peer Load None]))
  | Act i a =>
      c ← bs_calls s !! i;
      '(sh, c') ← call_step cfg (bs_shared s) c a;
      Some (MkBreakerSystem sh (<[i := c']> (bs_calls s)))
  end.

Definition breaker_init : BreakerSystem := MkBreakerSystem (MkShared 0 0 ∅ []) [].

Fixpoint breaker_run (cfg : BreakerCfg) (s : BreakerSystem) (ms : list BreakerMove) : option BreakerSystem :=
  match ms with
  | [] => Some s
  | m :: ms => s' ← breaker_move cfg s m; breaker_run cfg s' ms
  end.

Definition breaker_reachable (cfg : BreakerCfg) (s : BreakerSystem) : Prop :=
  exists ms, breaker_run cfg breaker_init ms = Some s.

(** ** Observations *)

(** A breaker slot is held from the successful compare-exchange until the
    task's last guard drops, or the per-peer refusal returns. *)
Definition holds_breaker_slot (c : Call) : bool :=
  match call_pc c with
  | PeerEntry | PeerLoad _ | PeerAcquire _ _ | PeerRefused => true
  | Live _ _ (Finished _) _ => false
  | Live _ _ _ _ => true
  | Load | Acquire _ | BreakerTripped | PeerRejected => false
  end.

(** A blocking task is executing the operation. *)
Definition executing (c : Call) : bool :=
  match call_pc c with Live _ _ Executing _ => true | _ => false end.

(** Timed out for its caller, still executing. *)
Definition is_stuck (c : Call) : bool :=
  match call_pc c with Live _ _ Executing CallerTimedOut => true | _ => false end.

Definition peer_guard_on (cell : nat) (c : Call) : bool :=
  match call_pc c with
  | Live (Some k) _ Executing _ | Live (Some k) _ (DropPeer _) _ => bool_decide (k = cell)
  | _ => false
  end.

Definition call_over (c : Call) : bool :=
  match call_pc c with
  | BreakerTripped | PeerRejected | Live _ _ (Finished _) _ => true
  | _ => false
  end.

(** ** Invariants by rule induction *)

Lemma breaker_invariant cfg (I : BreakerSystem -> Prop) :
  I breaker_init ->
  (forall s m s', I s -> breaker_move cfg s m = Some s' -> I s') ->
  forall s, breaker_reachable cfg s -> I s.
Proof.
  intros H0 Hstep s [ms Hms]. revert H0 Hms. generalize breaker_init as s0.
  induction ms as [|m ms IH]; intros s0 H0 Hms; cbn in Hms; [by injection Hms as <-|].
  destruct (breaker_move cfg s0 m) as [s1|] eqn:E; [|done]. eapply IH; [by eapply Hstep|done].
Qed.

(** *** The breaker's counter and the stuck gauge *)

(** A state of the accounting that matches what the two sides have done. *)
Definition acct_wf (c : Call) : Prop :=
  match call_pc c with
  | Live _ acct Executing CallerTimedOut => acct = TimedOut
  | Live _ acct Executing _ => acct = Running
  | Live _ acct _ _ => acct = Completed
  | _ => True
  end.

Definition slot_delta (max before after : N) (held held' : bool) : Prop :=
  (after = before /\ held' = held) \/
  (after = before + 1 /\ before < max /\ held = false /\ held' = true) \/
  (after = fetch_sub1 before /\ held = true /\ held' = false).

Definition gauge_delta (before after : N) (c c' : Call) : Prop :=
  (after = before /\ is_stuck c' = is_stuck c) \/
  (after = fetch_add1 before /\ is_stuck c = false /\ is_stuck c' = true) \/
  (after = fetch_sub1 before /\ is_stuck c = true /\ is_stuck c' = false).

Lemma cas_round_cases counter limit current spurious :
  (cas_round counter limit current spurious = (counter, inr None) /\ limit <= current) \/
  (cas_round counter limit current spurious = (counter + 1, inl tt) /\ counter < limit) \/
  (cas_round counter limit current spurious = (counter, inr (Some counter)) /\ current < limit).
Proof.
  unfold cas_round. destruct (N.leb_spec limit current); [by left|right].
  destruct (N.eqb_spec counter current) as [->|]; [|by right]. destruct spurious; [by right|by left].
Qed.

Lemma admission_step_global cfg sh c sp sh' c' :
  admission_step cfg sh c sp = Some (sh', c') ->
  acct_wf c' /\ slot_delta (max_calls cfg) (IN_FLIGHT sh) (IN_FLIGHT sh') (holds_breaker_slot c) (holds_breaker_slot c') /\
  STUCK_CALLS sh' = STUCK_CALLS sh /\ is_stuck c = false /\ is_stuck c' = false.
Proof.
  destruct c as [peer pc rep]. unfold admission_step, slot_delta. cbn [call_pc call_peer call_report].
  destruct pc as [|cur| |cell|cell cur| | | |]; try discriminate.
  - intros [= <- <-]. cbn. tauto.
  - destruct (cas_round_cases (IN_FLIGHT sh) (max_calls cfg) cur sp) as [[-> ?]|[[-> ?]|[-> ?]]];
      intros [= <- <-]; cbn; try tauto.
    destruct peer; cbn; (split; [done|]); (split; [|done]); right; left; done.
  - destruct peer as [p|]; [|done]. destruct (PEER_IN_FLIGHT sh !! p); intros [= <- <-]; cbn; tauto.
  - destruct (peer_cells sh !! cell); [|done]. intros [= <- <-]. cbn. tauto.
  - destruct (peer_cells sh !! cell) as [n|]; [|done]. cbn [mbind option_bind].
    destruct (cas_round_cases n (peer_max cfg) cur sp) as [[-> ?]|[[-> ?]|[-> ?]]];
      intros [= <- <-]; cbn; tauto.
  - intros [= <- <-]. cbn. tauto.
Qed.

Lemma task_step_global sh peer cell task sh' task' :
  task_step sh peer cell task = Some (sh', task') ->
  STUCK_CALLS sh' = STUCK_CALLS sh /\ task <> Executing /\ task' <> Executing /\
  ((exists o o', task = DropGlobal o /\ task' = Finished o' /\ IN_FLIGHT sh' = fetch_sub1 (IN_FLIGHT sh)) \/
   (IN_FLIGHT sh' = IN_FLIGHT sh /\ (forall o, task <> Finished o) /\ (forall o, task' <> Finished o))).
Proof.
  unfold task_step. destruct task as [|o|o|o|o], cell as [k|]; try discriminate.
  - destruct (peer_cells sh !! k) as [n|]; [|done]. intros [= <- <-]. cbn.
    destruct (n =? 1); (split; [done|]); (split; [done|]); (split; [done|]); by right.
  - destruct peer as [p|]; [|done]. intros [= <- <-]. cbn. case_match; cbn;
      (split; [done|]); (split; [done|]); (split; [done|]); by right.
  - intros [= <- <-]. cbn. split_and!; try done. left. by exists o, o.
  - intros [= <- <-]. cbn. split_and!; try done. left. by exists o, o.
Qed.

Lemma call_step_global cfg sh c a sh' c' :
  acct_wf c -> call_step cfg sh c a = Some (sh', c') ->
  acct_wf c' /\ slot_delta (max_calls cfg) (IN_FLIGHT sh) (IN_FLIGHT sh') (holds_breaker_slot c) (holds_breaker_slot c') /\
  gauge_delta (STUCK_CALLS sh) (STUCK_CALLS sh') c c'.
Proof.
  intros Hwf Hs. destruct a as [sp|o| | | | |]; cbn in Hs.
  - apply admission_step_global in Hs as (Hw & Hd & He & Hb & Ha). split; [done|]. split; [done|].
    left. by rewrite Ha, Hb.
  - destruct c as [peer pc rep]. cbn in *. destruct pc as [| | | | | |cell acct task caller| |]; try done.
    destruct task; try done. unfold acct_wf, slot_delta, gauge_delta in *. cbn in *.
    destruct caller; subst acct; injection Hs as <- <-; destruct cell; cbn; tauto.
  - destruct c as [peer pc rep]. cbn in *. destruct pc as [| | | | | |cell acct task caller| |]; try done.
    destruct (task_step sh peer cell task) as [[sh1 task1]|] eqn:Et; [|done]. injection Hs as <- <-.
    apply task_step_global in Et as (Hst & Hn1 & Hn2 & Hcase).
    unfold acct_wf, slot_delta, gauge_delta in *. rewrite Hst. cbn in *.
    assert (acct = Completed) as -> by (destruct task, caller; done).
    split; [by destruct task1, caller|]. split.
    + destruct Hcase as [(o & o' & -> & -> & He)|(He & Hf1 & Hf2)].
      * right. right. by rewrite He.
      * left. split; [done|].
        destruct task, task1; try done; first [by destruct (Hf1 o)|by destruct (Hf2 o)|by destruct (Hf2 o0)].
    + left. split; [done|]. by destruct task, task1.
  - destruct c as [peer pc rep]. cbn in *. destruct pc as [| | | | | |cell acct task caller| |]; try done.
    unfold acct_wf, slot_delta, gauge_delta in *. cbn in *.
    destruct task, caller; try done; injection Hs as <- <-; cbn; tauto.
  - destruct c as [peer pc rep]. cbn in *. destruct pc as [| | | | | |cell acct task caller| |]; try done.
    unfold acct_wf, slot_delta, gauge_delta in *. cbn in *.
    destruct task, caller; try done; subst acct; injection Hs as <- <-; cbn; tauto.
  - destruct c as [peer pc rep]. cbn in *. destruct pc as [| | | | | |cell acct task caller| |]; try done.
    unfold acct_wf, slot_delta, gauge_delta in *. cbn in *.
    destruct task, caller; try done; injection Hs as <- <-; cbn; tauto.
  - destruct c as [peer pc rep]. cbn in *. destruct pc as [| | | | | |cell acct task caller| |]; try done.
    unfold acct_wf, slot_delta, gauge_delta in *. cbn in *.
    destruct task, caller; try done; injection Hs as <- <-; cbn; tauto.
Qed.

Definition global_inv (cfg : BreakerCfg) (s : BreakerSystem) : Prop :=
  IN_FLIGHT (bs_shared s) = count_if holds_breaker_slot (bs_calls s) /\
  IN_FLIGHT (bs_shared s) <= max_calls cfg /\
  STUCK_CALLS (bs_shared s) = count_if is_stuck (bs_calls s) /\
  Forall acct_wf (bs_calls s).

Lemma is_stuck_holds c : is_stuck c = true -> holds_breaker_slot c = true.
Proof. unfold is_stuck, holds_breaker_slot. by destruct (call_pc c) as [| | | | | |? ? [] []| |]. Qed.

Lemma global_inv_move cfg s m s' :
  max_calls cfg <= u64_MAX ->
  global_inv cfg s -> breaker_move cfg s m = Some s' -> global_inv cfg s'.
Proof.
  intros Hmax (Hi & Hle & Hg & Hwf) Hm. destruct m as [peer|i a]; cbn in Hm.
  - injection Hm as <-. unfold global_inv. cbn. rewrite !count_if_app, !count_if_cons. cbn.
    change (count_if _ []) with 0. split_and!; try lia. apply Forall_app. split; [done|]. by apply Forall_singleton.
  - destruct (bs_calls s !! i) as [c|] eqn:Hc; [|done]. cbn in Hm.
    destruct (call_step cfg (bs_shared s) c a) as [[sh c']|] eqn:Hs; [|done]. injection Hm as <-.
    pose proof (call_step_global _ _ _ _ _ _ (Forall_lookup_1 _ _ _ _ Hwf Hc) Hs) as (Hw & Hd & Hgd).
    pose proof (count_if_update holds_breaker_slot _ _ _ c' Hc) as Hn.
    pose proof (count_if_update is_stuck _ _ _ c' Hc) as Hk.
    assert (count_if is_stuck (<[i := c']> (bs_calls s)) <= count_if holds_breaker_slot (<[i := c']> (bs_calls s)))
      as Hsub by (apply count_if_le; intros x _; apply is_stuck_holds).
    assert (IN_FLIGHT sh = count_if holds_breaker_slot (<[i := c']> (bs_calls s)) /\
            IN_FLIGHT sh <= max_calls cfg) as [Hi' Hle'].
    { destruct Hd as [[-> Ho]|[(-> & Hlt & Ho & Ho')|(-> & Ho & Ho')]]; rewrite Ho, ?Ho' in Hn; [|lia|].
      - destruct (holds_breaker_slot c); lia.
      - unfold fetch_sub1. destruct (N.eqb_spec (IN_FLIGHT (bs_shared s)) 0); lia. }
    unfold global_inv. cbn. split_and!; [done|done| |by apply Forall_insert].
    destruct Hgd as [[-> Ho]|[(-> & Ho & Ho')|(-> & Ho & Ho')]]; rewrite Ho, ?Ho' in Hk.
    + destruct (is_stuck c); lia.
    + unfold fetch_add1. rewrite wrapping_add64_small; [lia|]. unfold u64_modulus, u64_MAX in *. lia.
    + unfold fetch_sub1. destruct (N.eqb_spec (STUCK_CALLS (bs_shared s)) 0); lia.
Qed.

(** *** The per-peer admission table *)

(** The counter a call holds an [Arc] to. *)
Definition mentions (c : Call) : option nat :=
  match call_pc c with
  | PeerLoad k | PeerAcquire k _ | Live (Some k) _ _ _ => Some k
  | _ => None
  end.

(** A call that will still raise a zero counter or remove its entry. *)
Definition pending (cfg : BreakerCfg) (k : nat) (c : Call) : Prop :=
  match call_pc c with
  | PeerLoad k' => k' = k
  | PeerAcquire k' current => k' = k /\ current < peer_max cfg
  | Live (Some k') _ (RemovePeer _) _ => k' = k
  | _ => False
  end.

(** [owner] is the peer each counter was allocated for. *)
Record peer_inv (cfg : BreakerCfg) (owner : list SocketAddr) (sh : Shared) (cs : list Call) : Prop := {
  pi_length : length owner = length (peer_cells sh);
  pi_entry p k : PEER_IN_FLIGHT sh !! p = Some k -> owner !! k = Some p;
  pi_mentions c k : c ∈ cs -> mentions c = Some k ->
    exists p, call_peer c = Some p /\ owner !! k = Some p;
  pi_count k v : peer_cells sh !! k = Some v ->
    v = count_if (peer_guard_on k) cs /\ v <= peer_max cfg;
  pi_zero p k : PEER_IN_FLIGHT sh !! p = Some k -> peer_cells sh !! k = Some 0 ->
    exists c, c ∈ cs /\ pending cfg k c;
}.

(** The step of one call, as the invariant sees it. *)
Record peer_effect (cfg : BreakerCfg) (sh sh' : Shared) (c c' : Call) : Prop := {
  pe_length : length (peer_cells sh') = length (peer_cells sh);
  pe_entry p k : PEER_IN_FLIGHT sh' !! p = Some k -> PEER_IN_FLIGHT sh !! p = Some k;
  pe_peer : call_peer c' = call_peer c;
  pe_mentions k : mentions c' = Some k ->
    mentions c = Some k \/ exists p, call_peer c = Some p /\ PEER_IN_FLIGHT sh !! p = Some k;
  pe_count k v' : peer_cells sh' !! k = Some v' -> exists v, peer_cells sh !! k = Some v /\
    (0 < v \/ peer_guard_on k c = false ->
     v' + (if peer_guard_on k c then 1 else 0) = v + (if peer_guard_on k c' then 1 else 0)) /\
    (v' <= v \/ v' <= peer_max cfg \/ v = 0);
  pe_zero p k : PEER_IN_FLIGHT sh' !! p = Some k -> peer_cells sh' !! k = Some 0 ->
    (mentions c = Some k -> call_peer c = Some p) ->
    pending cfg k c' \/ (peer_cells sh !! k = Some 0 /\ ~ pending cfg k c);
}.

Lemma elem_of_insert_inv (cs : list Call) i c' x :
  x ∈ <[i := c']> cs -> x = c' \/ x ∈ cs.
Proof.
  intros [j Hj]%list_elem_of_lookup. destruct (decide (i = j)) as [->|Hne].
  - left. apply list_lookup_insert_Some in Hj as [(_ & -> & _)|[]]; done.
  - right. rewrite list_lookup_insert_ne in Hj by done. by eapply list_elem_of_lookup_2.
Qed.

Lemma elem_of_insert_other (cs : list Call) i c c' x :
  cs !! i = Some c -> x ∈ cs -> x = c \/ x ∈ <[i := c']> cs.
Proof.
  intros Hi [j Hj]%list_elem_of_lookup. destruct (decide (i = j)) as [->|Hne].
  - left. congruence.
  - right. apply (list_elem_of_lookup_2 _ j). by rewrite list_lookup_insert_ne.
Qed.

Lemma elem_of_insert_new (cs : list Call) i c c' : cs !! i = Some c -> c' ∈ <[i := c']> cs.
Proof. intros Hi. apply (list_elem_of_lookup_2 _ i). apply list_lookup_insert_eq. by eapply lookup_lt_Some. Qed.

Lemma peer_inv_update cfg owner sh sh' cs i c c' :
  0 < peer_max cfg ->
  peer_inv cfg owner sh cs -> cs !! i = Some c -> peer_effect cfg sh sh' c c' ->
  peer_inv cfg owner sh' (<[i := c']> cs).
Proof.
  intros Hpos HI Hi HE. pose proof (list_elem_of_lookup_2 _ _ _ Hi) as Hin. constructor.
  - rewrite (pi_length _ _ _ _ HI). symmetry. apply HE.
  - intros p k Hp. by apply (pi_entry _ _ _ _ HI), (pe_entry _ _ _ _ _ HE).
  - intros x k [->|Hx]%elem_of_insert_inv Hm; [|by eapply pi_mentions].
    rewrite (pe_peer _ _ _ _ _ HE). destruct (pe_mentions _ _ _ _ _ HE k Hm) as [Hm'|(p & Hp & Hk)].
    + by eapply pi_mentions.
    + exists p. split; [done|]. by eapply pi_entry.
  - intros k v' Hv'. destruct (pe_count _ _ _ _ _ HE k v' Hv') as (v & Hv & Heq & Hle).
    destruct (pi_count _ _ _ _ HI k v Hv) as [Hc Hcap].
    pose proof (count_if_update (peer_guard_on k) _ _ _ c' Hi) as Hn.
    destruct (peer_guard_on k c) eqn:Hg.
    + pose proof (count_if_pos _ _ _ Hin Hg). specialize (Heq ltac:(left; lia)).
      split; [lia|]. destruct Hle as [|[|]]; lia.
    + specialize (Heq (or_intror eq_refl)). split; [lia|].
      destruct Hle as [|[|]]; [lia..|]. destruct (peer_guard_on k c'); lia.
  - intros p k Hp Hz.
    destruct (pe_zero _ _ _ _ _ HE p k Hp Hz) as [Hpd|[Hz0 Hnp]].
    + intros Hm. destruct (pi_mentions _ _ _ _ HI c k Hin Hm) as (q & Hq & Hown).
      pose proof (pi_entry _ _ _ _ HI _ _ (pe_entry _ _ _ _ _ HE _ _ Hp)). congruence.
    + exists c'. split; [by eapply elem_of_insert_new|done].
    + destruct (pi_zero _ _ _ _ HI p k (pe_entry _ _ _ _ _ HE _ _ Hp) Hz0) as (x & Hx & Hpx).
      exists x. split; [|done]. by destruct (elem_of_insert_other _ _ _ c' _ Hi Hx) as [->|].
Qed.

Ltac neutral lem :=
  apply lem; try solve [cbn; (tauto || by intros)];
  try solve [intros; cbn; match goal with |- ?A \/ ~ ?A => destruct (decide A); tauto end].

(** Steps that touch neither the table nor a counter. *)
Lemma peer_effect_neutral cfg sh sh' c c' :
  PEER_IN_FLIGHT sh' = PEER_IN_FLIGHT sh -> peer_cells sh' = peer_cells sh ->
  call_peer c' = call_peer c ->
  (forall k, peer_guard_on k c' = peer_guard_on k c) ->
  (forall k, mentions c' = Some k ->
     mentions c = Some k \/ exists p, call_peer c = Some p /\ PEER_IN_FLIGHT sh !! p = Some k) ->
  (forall k, peer_cells sh !! k = Some 0 -> pending cfg k c' \/ ~ pending cfg k c) ->
  peer_effect cfg sh sh' c c'.
Proof.
  intros Ht Hc Hp Hg Hm Hz. constructor; rewrite ?Ht, ?Hc; try done.
  - intros k v Hv. exists v. rewrite Hg. split; [done|]. split; [done|by left].
  - intros p k _ Hk _. destruct (Hz k Hk); tauto.
Qed.

Lemma admission_effect cfg sh c sp sh' c' :
  0 < peer_max cfg ->
  admission_step cfg sh c sp = Some (sh', c') ->
  (exists p, call_pc c = PeerEntry /\ call_peer c = Some p /\ PEER_IN_FLIGHT sh !! p = None) \/
  peer_effect cfg sh sh' c c'.
Proof.
  intros Hpos. destruct c as [peer pc rep]. unfold admission_step. cbn [call_pc call_peer call_report].
  destruct pc as [|cur| |cell|cell cur| | | |]; try discriminate.
  - intros [= <- <-]. right. neutral peer_effect_neutral.
  - destruct (cas_round_cases (IN_FLIGHT sh) (max_calls cfg) cur sp) as [[-> ?]|[[-> ?]|[-> ?]]];
      intros [= <- <-]; right; destruct peer; neutral peer_effect_neutral.
  - destruct peer as [p|]; [|done]. destruct (PEER_IN_FLIGHT sh !! p) as [k|] eqn:Hk; [|by left; exists p].
    intros [= <- <-]. right. neutral peer_effect_neutral.
    intros k' [= <-]. right. by exists p.
  - destruct (peer_cells sh !! cell) as [n|] eqn:Hn; [|done]. intros [= <- <-]. right.
    neutral peer_effect_neutral.
    intros k Hk. unfold pending. cbn. destruct (decide (cell = k)) as [->|]; [left|tauto].
    rewrite Hn in Hk. injection Hk as ->. done.
  - destruct (peer_cells sh !! cell) as [n|] eqn:Hn; [|done]. cbn [mbind option_bind]. intros H. right. revert H.
    destruct (cas_round_cases n (peer_max cfg) cur sp) as [[-> Hl]|[[-> Hl]|[-> Hl]]]; intros [= <- <-].
    + neutral peer_effect_neutral. intros k _. right. unfold pending. cbn. intros [_ ?]. lia.
    + constructor; cbn; try tauto.
      * apply length_insert.
      * intros k v'. intros [(<- & <- & Hlt)|[Hne Hv]]%list_lookup_insert_Some.
        -- exists n. split; [done|]. rewrite bool_decide_true by done. split; [lia|right; left; lia].
        -- exists v'. rewrite bool_decide_false by done. split; [done|]. split; [done|by left].
      * intros p k _ Hz _. right. apply list_lookup_insert_Some in Hz as [(_ & Hz & _)|[Hne Hz]]; [lia|].
        split; [done|]. unfold pending. cbn. by intros [-> _].
    + neutral peer_effect_neutral. intros k Hk. unfold pending. cbn.
      destruct (decide (cell = k)) as [->|]; [left|tauto]. rewrite Hn in Hk. injection Hk as ->. done.
  - intros [= <- <-]. right. neutral peer_effect_neutral.
Qed.

Lemma drop_peer_effect cfg sh peer acct o caller rep k previous :
  peer_cells sh !! k = Some previous ->
  peer_effect cfg sh (sh <| peer_cells := <[k := fetch_sub1 previous]> (peer_cells sh) |>)
    (MkCall peer (Live (Some k) acct (DropPeer o) caller) rep)
    (MkCall peer (Live (Some k) acct (if previous =? 1 then RemovePeer o else DropGlobal o) caller) rep).
Proof.
  intros Hk. set (t := if previous =? 1 then _ else _).
  assert (forall k', peer_guard_on k' (MkCall peer (Live (Some k) acct t caller) rep) = false) as Hg.
  { intros k'. unfold t. by destruct (previous =? 1). }
  constructor; try solve [cbn; tauto].
  - apply length_insert.
  - intros k' v' Hv'. cbn in Hv'. rewrite Hg. unfold peer_guard_on. cbn. apply list_lookup_insert_Some in Hv' as [(<- & <- & Hlt)|[Hne Hv]].
    + exists previous. rewrite bool_decide_true by done. split; [done|]. unfold fetch_sub1.
      destruct (N.eqb_spec previous 0); split; lia || (intros []; [lia|done]) || (right; right; lia).
    + exists v'. rewrite bool_decide_false by done. split; [done|]. split; [done|by left].
  - intros p k' _ Hz _. cbn in Hz. apply list_lookup_insert_Some in Hz as [(<- & Hz & _)|[Hne Hz]].
    + left. unfold t. unfold fetch_sub1, u64_MAX in Hz. destruct (N.eqb_spec previous 0); [done|].
      assert (previous = 1) as -> by lia. done.
    + right. split; [done|]. cbn. tauto.
Qed.

Lemma remove_peer_effect cfg sh p acct o caller rep k :
  let remove := match PEER_IN_FLIGHT sh !! p with
                | Some count => bool_decide (count = k) && bool_decide (peer_cells sh !! count = Some 0)
                | None => false end in
  peer_effect cfg sh (if remove then sh <| PEER_IN_FLIGHT := delete p (PEER_IN_FLIGHT sh) |> else sh)
    (MkCall (Some p) (Live (Some k) acct (RemovePeer o) caller) rep)
    (MkCall (Some p) (Live (Some k) acct (DropGlobal o) caller) rep).
Proof.
  cbn zeta. destruct (PEER_IN_FLIGHT sh !! p) as [count|] eqn:Hp;
    [destruct (bool_decide_reflect (count = k)) as [->|Hne];
      [destruct (bool_decide_reflect (peer_cells sh !! k = Some 0)) as [Hz|Hz]|]|]; cbn.
  - constructor; cbn; try tauto.
    + intros p' k' Hp'. by apply lookup_delete_Some in Hp' as [_ ?].
    + intros k' v Hv. exists v. split; [done|]. split; [done|by left].
    + intros p' k' Hp' Hz' Hm. right. split; [done|]. unfold pending. cbn. intros <-.
      specialize (Hm eq_refl). injection Hm as <-. by rewrite lookup_delete_eq in Hp'.
  - neutral peer_effect_neutral. intros k' Hk'. right. unfold pending. cbn. congruence.
  - constructor; cbn; try tauto.
    + intros k' v Hv. exists v. split; [done|]. split; [done|by left].
    + intros p' k' Hp' Hz' Hm. right. split; [done|]. unfold pending. cbn. intros <-.
      specialize (Hm eq_refl). injection Hm as <-. congruence.
  - constructor; cbn; try tauto.
    + intros k' v Hv. exists v. split; [done|]. split; [done|by left].
    + intros p' k' Hp' Hz' Hm. right. split; [done|]. unfold pending. cbn. intros <-.
      specialize (Hm eq_refl). injection Hm as <-. congruence.
Qed.

Lemma call_step_effect cfg sh c a sh' c' :
  0 < peer_max cfg ->
  call_step cfg sh c a = Some (sh', c') ->

  (exists sp p, a = Step sp /\ call_pc c = PeerEntry /\ call_peer c = Some p /\ PEER_IN_FLIGHT sh !! p = None) \/
  peer_effect cfg sh sh' c c'.
Proof.
  intros Hpos Hs. destruct a as [sp|o| | | | |]; cbn in Hs.
  - destruct (admission_effect _ _ _ _ _ _ Hpos Hs) as [(p & Hp)|]; [left; by exists sp, p|by right].
  - right. destruct c as [peer pc rep]. cbn in *. destruct pc as [| | | | | |cell acct task caller| |]; try done.
    destruct task; try done. destruct (accounting_complete (STUCK_CALLS sh) acct) as [[x g] acct'].
    injection Hs as <- <-. destruct cell; neutral peer_effect_neutral.
  - right. destruct c as [peer pc rep]. cbn in *. destruct pc as [| | | | | |cell acct task caller| |]; try done.
    destruct (task_step sh peer cell task) as [[sh1 task1]|] eqn:Et; [|done]. injection Hs as <- <-.
    unfold task_step in Et. destruct task as [|o|o|o|o], cell as [k|]; try discriminate.
    + destruct (peer_cells sh !! k) as [previous|] eqn:Hk; [|done]. injection Et as <- <-.
      by apply drop_peer_effect.
    + destruct peer as [p|]; [|done]. injection Et as <- <-. apply remove_peer_effect.
    + injection Et as <- <-. neutral peer_effect_neutral.
    + injection Et as <- <-. neutral peer_effect_neutral.
  - right. destruct c as [peer pc rep]. cbn in *. destruct pc as [| | | | | |cell acct task caller| |]; try done.
    destruct task, caller; try done; injection Hs as <- <-; destruct cell; neutral peer_effect_neutral.
  - right. destruct c as [peer pc rep]. cbn in *. destruct pc as [| | | | | |cell acct task caller| |]; try done.
    destruct caller; try done. destruct (accounting_timeout (STUCK_CALLS sh) acct) as [[x g] acct'].
    injection Hs as <- <-. destruct cell, task; neutral peer_effect_neutral.
  - right. destruct c as [peer pc rep]. cbn in *. destruct pc as [| | | | | |cell acct task caller| |]; try done.
    destruct task, caller; try done; injection Hs as <- <-; destruct cell; neutral peer_effect_neutral.
  - right. destruct c as [peer pc rep]. cbn in *. destruct pc as [| | | | | |cell acct task caller| |]; try done.
    destruct task, caller; try done; injection Hs as <- <-; destruct cell; neutral peer_effect_neutral.
Qed.

(** The first admission of a peer allocates its counter. *)
Lemma peer_inv_alloc cfg owner sh cs i c p rep' :
  peer_inv cfg owner sh cs -> cs !! i = Some c -> call_pc c = PeerEntry -> call_peer c = Some p ->
  PEER_IN_FLIGHT sh !! p = None ->
  let cell := length (peer_cells sh) in
  peer_inv cfg (owner ++ [p])
    (sh <| PEER_IN_FLIGHT := <[p := cell]> (PEER_IN_FLIGHT sh) |> <| peer_cells := peer_cells sh ++ [0] |>)
    (<[i := MkCall (Some p) (PeerLoad cell) rep']> cs).
Proof.
  intros HI Hi Hpc Hp Hnone cell. pose proof (list_elem_of_lookup_2 _ _ _ Hi) as Hin.
  pose proof (pi_length _ _ _ _ HI) as Hlen.
  assert (forall q k, owner !! k = Some q -> (k < cell)%nat /\ (owner ++ [p]) !! k = Some q) as Hown.
  { intros q k Hk. pose proof (lookup_lt_Some _ _ _ Hk). split; [unfold cell; lia|].
    by rewrite lookup_app_l. }
  assert ((owner ++ [p]) !! cell = Some p) as Hnew.
  { unfold cell. rewrite <- Hlen. by apply list_lookup_middle. }
  assert (forall k, peer_guard_on k c = false) as Hg by (intros k; unfold peer_guard_on; by rewrite Hpc).
  assert (forall k, count_if (peer_guard_on k) (<[i := MkCall (Some p) (PeerLoad cell) rep']> cs)
                    = count_if (peer_guard_on k) cs) as Hcnt.
  { intros k. pose proof (count_if_update (peer_guard_on k) cs i c (MkCall (Some p) (PeerLoad cell) rep') Hi) as H.
    rewrite Hg in H. change (peer_guard_on k (MkCall (Some p) (PeerLoad cell) rep')) with false in H.
    rewrite !N.add_0_r in H. exact H. }
  constructor; cbn.
  - rewrite !length_app. cbn. lia.
  - intros q k Hq. rewrite lookup_insert in Hq. case_decide; [by simplify_eq|].
    by apply Hown, (pi_entry _ _ _ _ HI).
  - intros x k [->|Hx]%elem_of_insert_inv Hm; [injection Hm as <-; by exists p|].
    destruct (pi_mentions _ _ _ _ HI x k Hx Hm) as (q & Hq & Hk). exists q. split; [done|]. by apply Hown.
  - intros k v Hv. rewrite Hcnt. apply lookup_app_Some in Hv as [Hv|[Hge Hv]]; [by apply (pi_count _ _ _ _ HI)|].
    apply list_lookup_singleton_Some in Hv as [Hk <-]. split; [|lia].
    symmetry. apply count_if_zero. intros x Hx. destruct (peer_guard_on k x) eqn:E; [|done].
    assert (mentions x = Some k) as Hm.
    { unfold peer_guard_on, mentions in *. destruct (call_pc x) as [| | | | | |[?|] ? [] ?| |]; try done;
        by apply bool_decide_eq_true in E as ->. }
    destruct (pi_mentions _ _ _ _ HI x k Hx Hm) as (q & _ & Hk'%lookup_lt_Some). lia.
  - intros q k Hq Hz. rewrite lookup_insert in Hq. case_decide.
    + simplify_eq. eexists. split; [by eapply elem_of_insert_new|done].
    + pose proof (pi_entry _ _ _ _ HI _ _ Hq) as Hk%lookup_lt_Some.
      rewrite lookup_app_l in Hz by lia.
      destruct (pi_zero _ _ _ _ HI q k Hq Hz) as (x & Hx & Hpx).
      destruct (elem_of_insert_other _ _ _ (MkCall (Some p) (PeerLoad cell) rep') _ Hi Hx) as [->|Hx'];
        [|by exists x]. exfalso. unfold pending in Hpx. by rewrite Hpc in Hpx.
Qed.

Lemma peer_inv_move cfg s m s' :
  0 < peer_max cfg ->
  (exists owner, peer_inv cfg owner (bs_shared s) (bs_calls s)) ->
  breaker_move cfg s m = Some s' ->
  exists owner, peer_inv cfg owner (bs_shared s') (bs_calls s').
Proof.
  intros Hpos [owner HI] Hm. destruct m as [peer|i a]; cbn in Hm.
  - injection Hm as <-. exists owner. destruct HI as [H1 H2 H3 H4 H5]. constructor; cbn; try done.
    + intros c k [Hc| ->%list_elem_of_singleton]%elem_of_app Hk; [by apply H3|done].
    + intros k v Hv. rewrite count_if_app, count_if_cons. cbn. change (count_if _ []) with 0.
      rewrite !N.add_0_r. by apply H4.
    + intros p k Hp Hz. destruct (H5 p k Hp Hz) as (x & Hx & Hpx). exists x. split; [|done].
      apply elem_of_app. by left.
  - destruct (bs_calls s !! i) as [c|] eqn:Hc; [|done]. cbn in Hm.
    destruct (call_step cfg (bs_shared s) c a) as [[sh c']|] eqn:Hs; [|done]. injection Hm as <-. cbn.
    destruct (call_step_effect _ _ _ _ _ _ Hpos Hs) as [(sp & p & -> & Hpc & Hp & Hnone)|HE].
    + exists (owner ++ [p]). cbn in Hs. unfold admission_step in Hs. rewrite Hpc, Hp, Hnone in Hs.
      injection Hs as <- <-. by eapply peer_inv_alloc.
    + exists owner. by eapply peer_inv_update.
Qed.

(** *** Health reports *)

Definition provider_down (o : TaskOutcome) : bool :=
  match o with
  | TaskPanicked => true
  | TaskReturned (Ok _) => false
  | TaskReturned (Err rv) => bool_decide (rv = Rv.DEVICE_REMOVED) || bool_decide (rv = Rv.HOST_MEMORY)
  end.

Lemma classify_task_result o : classify_backend_outcome (task_result o) = negb (provider_down o).
Proof.
  destruct o as [[u|rv]|]; [done| |done]. cbn. unfold provider_rv_is_healthy. rewrite <- negb_orb.
  by destruct (_ || _).
Qed.

(** The report a call has made, given how far it got. *)
Definition report_wf (c : Call) : Prop :=
  match call_pc c with
  | BreakerTripped => call_report c = Some false
  | Live _ _ _ CallerTimedOut => call_report c = Some false
  | Live _ _ task (Answered r) =>
      exists o, task = Finished o /\ r = task_result o /\ call_report c = Some (negb (provider_down o))
  | _ => call_report c = None
  end.

Lemma admission_report cfg sh c sp sh' c' :
  report_wf c -> admission_step cfg sh c sp = Some (sh', c') -> report_wf c'.
Proof.
  destruct c as [peer pc rep]. unfold admission_step, report_wf. cbn [call_pc call_peer call_report].
  destruct pc as [|cur| |cell|cell cur| | | |]; try discriminate; intros ->.
  - by intros [= <- <-].
  - destruct (cas_round_cases (IN_FLIGHT sh) (max_calls cfg) cur sp) as [[-> ?]|[[-> ?]|[-> ?]]];
      intros [= <- <-]; by try destruct peer.
  - destruct peer as [p|]; [|done]. destruct (PEER_IN_FLIGHT sh !! p); by intros [= <- <-].
  - destruct (peer_cells sh !! cell); [|done]. by intros [= <- <-].
  - destruct (peer_cells sh !! cell) as [n|]; [|done]. cbn [mbind option_bind].
    destruct (cas_round_cases n (peer_max cfg) cur sp) as [[-> ?]|[[-> ?]|[-> ?]]]; by intros [= <- <-].
  - by intros [= <- <-].
Qed.

Lemma call_step_report cfg sh c a sh' c' :
  report_wf c -> call_step cfg sh c a = Some (sh', c') -> report_wf c'.
Proof.
  intros Hwf Hs. destruct a as [sp|o| | | | |]; cbn in Hs; [by eapply admission_report|..];
    destruct c as [peer pc rep]; cbn in Hs;
    destruct pc as [| | | | | |cell acct task caller| |]; try discriminate; unfold report_wf in *; cbn in *.
  - destruct task; try done. destruct (accounting_complete (STUCK_CALLS sh) acct) as [[x g] acct'].
    injection Hs as <- <-. cbn. destruct caller; try done. by destruct Hwf as (? & ? & _).
  - destruct (task_step sh peer cell task) as [[sh1 task1]|] eqn:Et; [|done]. injection Hs as <- <-. cbn.
    destruct caller; try done. destruct Hwf as (o & -> & _). by destruct cell.
  - destruct task, caller; try done; by injection Hs as <- <-.
  - destruct caller; try done. destruct (accounting_timeout (STUCK_CALLS sh) acct) as [[x g] acct'].
    by injection Hs as <- <-.
  - destruct task, caller; try done. injection Hs as <- <-. exists o. cbn.
    by rewrite <- classify_task_result.
  - destruct task, caller; try done; by injection Hs as <- <-.
Qed.

Lemma report_wf_move cfg s m s' :
  Forall report_wf (bs_calls s) -> breaker_move cfg s m = Some s' -> Forall report_wf (bs_calls s').
Proof.
  intros HI Hm. destruct m as [peer|i a]; cbn in Hm.
  - injection Hm as <-. apply Forall_app. split; [done|]. by apply Forall_singleton.
  - destruct (bs_calls s !! i) as [c|] eqn:Hc; [|done]. cbn in Hm.
    destruct (call_step cfg (bs_shared s) c a) as [[sh c']|] eqn:Hs; [|done]. injection Hm as <-. cbn.
    apply Forall_insert; [done|]. eapply call_step_report; [|done]. by eapply Forall_lookup_1.
Qed.

(** ** Properties *)

Lemma reachable_global cfg (Hmax : max_calls cfg <= u64_MAX) s : breaker_reachable cfg s -> global_inv cfg s.
Proof.
  refine (breaker_invariant cfg (global_inv cfg) _ _ s); [|intros s0 m s1; by apply global_inv_move].
  split; [done|]. split; [cbn; lia|]. split; [done|]. constructor.
Qed.

Lemma reachable_peer cfg (Hpeer : 0 < peer_max cfg) s :
  breaker_reachable cfg s -> exists owner, peer_inv cfg owner (bs_shared s) (bs_calls s).
Proof.
  refine (breaker_invariant cfg (fun s => exists owner, peer_inv cfg owner (bs_shared s) (bs_calls s)) _ _ s);
    [|intros s0 m s1; by apply peer_inv_move].
  exists []. constructor; cbn; try done; intros; set_solver.
Qed.

Lemma reachable_report cfg s : breaker_reachable cfg s -> Forall report_wf (bs_calls s).
Proof.
  refine (breaker_invariant cfg (fun s => Forall report_wf (bs_calls s)) _ _ s); [constructor|].
  intros s0 m s1. apply report_wf_move.
Qed.

(** C31: Whatever the interleaving of admissions, timeouts, cancellations,
    panics and late returns, the breaker's counter is exactly the number of
    calls holding a slot and never passes [max_calls]; the number of blocking
    tasks inside the backend is bounded by it; and the stuck gauge is exactly
    the number of calls that timed out for their caller and still execute. *)
Theorem breaker_exact cfg s :
  max_calls cfg <= u64_MAX -> breaker_reachable cfg s ->
  backend_in_flight (bs_shared s) = count_if holds_breaker_slot (bs_calls s) /\
  backend_in_flight (bs_shared s) <= max_calls cfg /\
  count_if executing (bs_calls s) <= max_calls cfg /\
  stuck_backend_calls (bs_shared s) = count_if is_stuck (bs_calls s).
Proof.
  intros Hmax Hr. destruct (reachable_global cfg Hmax s Hr) as (Hi & Hle & Hg & _).
  split_and!; [done|done| |done]. unfold backend_in_flight in *. rewrite Hi in Hle.
  etransitivity; [|exact Hle]. apply count_if_le. intros c _.
  unfold executing, holds_breaker_slot. by destruct (call_pc c) as [| | | | | |? ? [] ?| |].
Qed.

(** Once every call is over, nothing is leaked: the breaker's counter and
    the stuck gauge are zero and the per-peer table is empty. *)
Theorem breaker_drains cfg s :
  max_calls cfg <= u64_MAX -> 0 < peer_max cfg -> breaker_reachable cfg s ->
  (forall c, c ∈ bs_calls s -> call_over c = true) ->
  backend_in_flight (bs_shared s) = 0 /\ stuck_backend_calls (bs_shared s) = 0 /\
  PEER_IN_FLIGHT (bs_shared s) = ∅.
Proof.
  intros Hmax Hpos Hr Hover. destruct (reachable_global cfg Hmax s Hr) as (Hi & _ & Hg & _).
  destruct (reachable_peer cfg Hpos s Hr) as [owner HI].
  unfold backend_in_flight, stuck_backend_calls. rewrite Hi, Hg. split_and!.
  - apply count_if_zero. intros c Hc%Hover. unfold call_over, holds_breaker_slot in *.
    by destruct (call_pc c) as [| | | | | |? ? [] ?| |].
  - apply count_if_zero. intros c Hc%Hover. unfold call_over, is_stuck in *.
    by destruct (call_pc c) as [| | | | | |? ? [] ?| |].
  - apply map_empty. intros p. destruct (PEER_IN_FLIGHT (bs_shared s) !! p) as [k|] eqn:Hk; [|done]. exfalso.
    pose proof (pi_entry _ _ _ _ HI _ _ Hk) as Hlt%lookup_lt_Some. rewrite (pi_length _ _ _ _ HI) in Hlt.
    destruct (lookup_lt_is_Some_2 _ _ Hlt) as [v Hv].
    destruct (pi_count _ _ _ _ HI k v Hv) as [Hc _].
    rewrite count_if_zero in Hc.
    + subst v. destruct (pi_zero _ _ _ _ HI p k Hk Hv) as (x & Hx%Hover & Hpx).
      unfold call_over, pending in *. by destruct (call_pc x) as [| | | | | |[] ? [] ?| |].
    + intros x Hx%Hover. unfold call_over, peer_guard_on in *.
      by destruct (call_pc x) as [| | | | | |[] ? [] ?| |].
Qed.

(** Every per-peer counter is exactly the number of admissions counted
    on it, never passes the per-connection cap, and no table entry outlives
    the calls that use it: an entry with no admission left has a call that is
    about to raise or remove it. *)
Theorem peer_counter_exact cfg s p cell :
  0 < peer_max cfg -> breaker_reachable cfg s ->
  PEER_IN_FLIGHT (bs_shared s) !! p = Some cell ->
  exists v, peer_cells (bs_shared s) !! cell = Some v /\
    v = count_if (peer_guard_on cell) (bs_calls s) /\ v <= peer_max cfg /\
    (v = 0 -> exists c, c ∈ bs_calls s /\ call_peer c = Some p /\ pending cfg cell c).
Proof.
  intros Hpos Hr Hk. destruct (reachable_peer cfg Hpos s Hr) as [owner HI].
  pose proof (pi_entry _ _ _ _ HI _ _ Hk) as Hown. pose proof (lookup_lt_Some _ _ _ Hown) as Hlt.
  rewrite (pi_length _ _ _ _ HI) in Hlt. destruct (lookup_lt_is_Some_2 _ _ Hlt) as [v Hv].
  destruct (pi_count _ _ _ _ HI cell v Hv) as [Hc Hcap]. exists v. split_and!; [done..|].
  intros ->. destruct (pi_zero _ _ _ _ HI p cell Hk Hv) as (x & Hx & Hpx). exists x. split; [done|].
  split; [|done]. assert (mentions x = Some cell) as Hm.
  { unfold pending, mentions in *. destruct (call_pc x) as [| | |?|? ?| |[] ? [] ?| |]; try done;
      destruct Hpx; by subst. }
  destruct (pi_mentions _ _ _ _ HI x cell Hx Hm) as (q & Hq & Hown'). congruence.
Qed.

(** A call reports the daemon unhealthy exactly when the breaker had no
    slot for it, its caller timed out, its task panicked or the provider
    answered DEVICE_REMOVED or HOST_MEMORY; a refusal by the per-peer cap, a
    cancelled caller and every other provider answer never do. *)
Theorem unhealthy_report_cause cfg s c :
  breaker_reachable cfg s -> c ∈ bs_calls s ->
  (call_report c = Some false <->
   call_pc c = BreakerTripped \/
   (exists cell acct task, call_pc c = Live cell acct task CallerTimedOut) \/
   (exists cell acct o r, call_pc c = Live cell acct (Finished o) (Answered r) /\ provider_down o = true)).
Proof.
  intros Hr Hc. pose proof (proj1 (Forall_forall _ _) (reachable_report cfg s Hr) c Hc) as Hwf.
  unfold report_wf in Hwf. split.
  - intros Hf. destruct (call_pc c) as [| | | | | |cell acct task caller| |]; try congruence; [|by left].
    right. destruct caller as [| | |r|]; try congruence; [left; by eexists _, _, _|right].
    destruct Hwf as (o & -> & -> & Hrep). exists cell, acct, o, (task_result o). split; [done|].
    rewrite Hf in Hrep. injection Hrep as Hrep. by destruct (provider_down o).
  - intros [Hp|[(cell & acct & task & Hp)|(cell & acct & o & r & Hp & Hd)]]; rewrite Hp in Hwf; [done|done|].
    destruct Hwf as (o' & [= <-] & _ & ->). by rewrite Hd.
Qed.

(** *** A run for the witnesses *)

Definition demo_cfg : BreakerCfg := MkBreakerCfg 4 1.

(** One call of a peer is admitted, times out and is still executing. *)
Definition stuck_run : list BreakerMove :=
  [Spawn (Some "10.0.0.1:5000"); Act 0 (Step false); Act 0 (Step false); Act 0 (Step false);
   Act 0 (Step false); Act 0 (Step false); Act 0 TimerFires; Act 0 TimeoutBranch].

(** It returns at last and drops its guards. *)
Definition unstuck_run : list BreakerMove :=
  stuck_run ++ [Act 0 (OperationReturns (TaskReturned (Ok tt))); Act 0 TaskAdvances; Act 0 TaskAdvances;
                Act 0 TaskAdvances].

Definition run_of (ms : list BreakerMove) : BreakerSystem :=
  default breaker_init (breaker_run demo_cfg breaker_init ms).

Lemma breaker_exact_witness :
  backend_in_flight (bs_shared (run_of stuck_run)) = 1 /\ stuck_backend_calls (bs_shared (run_of stuck_run)) = 1.
Proof.
  pose proof (breaker_exact demo_cfg (run_of stuck_run)) as H.
  destruct H as (H1 & _ & _ & H2); [discriminate|exists stuck_run; vm_compute; reflexivity|].
  rewrite H1, H2. vm_compute. split; reflexivity.
Defined.

Lemma breaker_drains_witness :
  backend_in_flight (bs_shared (run_of unstuck_run)) = 0 /\ PEER_IN_FLIGHT (bs_shared (run_of unstuck_run)) = ∅.
Proof.
  destruct (breaker_drains demo_cfg (run_of unstuck_run)) as (H1 & _ & H2);
    [discriminate|reflexivity|exists unstuck_run; vm_compute; reflexivity| |by split].
  intros c Hc. apply list_elem_of_singleton in Hc as ->. reflexivity.
Defined.

Lemma peer_counter_exact_witness :
  peer_cells (bs_shared (run_of stuck_run)) !! 0%nat = Some 1.
Proof.
  destruct (peer_counter_exact demo_cfg (run_of stuck_run) "10.0.0.1:5000" 0) as (v & Hv & Hc & _);
    [reflexivity|exists stuck_run; vm_compute; reflexivity|vm_compute; reflexivity|].
  rewrite Hv, Hc. vm_compute. reflexivity.
Defined.

Lemma unhealthy_report_cause_witness :
  exists c, bs_calls (run_of stuck_run) !! 0%nat = Some c /\ call_report c = Some false.
Proof.
  eexists. split; [vm_compute; reflexivity|].
  apply (unhealthy_report_cause demo_cfg (run_of stuck_run));
    [exists stuck_run; vm_compute; reflexivity|vm_compute; left|].
  right. left. eexists _, _, _. reflexivity.
Defined.

(** Two calls of one peer under a cap of one: the first call's guard drops
    between the second call's clone of the [Arc] and its compare-exchange, so
    the second counts on an orphaned counter and a third finds a fresh one. *)
Definition peer_race_run : list BreakerMove :=
  let p := Some "10.0.0.1:5000" in
  [Spawn p; Act 0 (Step false); Act 0 (Step false); Act 0 (Step false); Act 0 (Step false); Act 0 (Step false);
   Act 0 (OperationReturns (TaskReturned (Ok tt))); Act 0 TaskAdvances;
   Spawn p; Act 1 (Step false); Act 1 (Step false); Act 1 (Step false);
   Act 0 TaskAdvances;
   Act 1 (Step false); Act 1 (Step false);
   Spawn p; Act 2 (Step false); Act 2 (Step false); Act 2 (Step false); Act 2 (Step false); Act 2 (Step false)].

(** The per-connection cap is exact per counter but not per connection:
    a drained entry may be removed while another admission holds its [Arc],
    after which two calls of one peer execute under a cap of one. *)
Theorem peer_cap_race :
  exists s, breaker_run (MkBreakerCfg 4 1) breaker_init peer_race_run = Some s /\
    count_if (fun c => executing c && bool_decide (call_peer c = Some "10.0.0.1:5000")) (bs_calls s) = 2.
Proof. eexists. split; vm_compute; reflexivity. Qed.
