(* ===== verification/Identity.v ===== *)
(** * Identities of peers

    Models [server/auth/identity.rs] (the identity type, its string form and
    parser), [server/auth/request_identity.rs] and [server/auth/mtls.rs]
    (deriving it from a transport), and the identity syntax the
    configuration accepts ([normalize_policy_identity] and
    [PolicyIdentitySource::can_produce] of [config.rs]).

    The X.509 parser and the SHA-256 and hex crates are the interface
    [CertReader]; the one fact the code relies on, that a hex digest contains
    no delimiter, is [CertReaderLaws]. *)

From Stdlib Require Import Ascii.
From S2P Require Import Prelude Text.
Open Scope N_scope.

Inductive AuthenticatedIdentity :=
| PeerCred (uid : N)
| Mtls (issuer subject spki_sha256 : string)
| Unauthenticated.

#[export] Instance AuthenticatedIdentity_eq_dec : EqDecision AuthenticatedIdentity.
Proof. solve_decision. Defined.

(** ** Escaping *)

Fixpoint escape_identity_component (value : string) : string :=
  match value with
  | EmptyString => EmptyString
  | String c rest =>
      if bool_decide (c = "\"%char) then String "\" (String "\" (escape_identity_component rest))
      else if bool_decide (c = ";"%char) then String "\" (String ";" (escape_identity_component rest))
      else String c (escape_identity_component rest)
  end.

Fixpoint unescape_identity_component (value : string) : Result string string :=
  match value with
  | EmptyString => Ok EmptyString
  | String c rest =>
      if bool_decide (c = "\"%char) then
        match rest with
        | EmptyString => Err "trailing escape in mTLS identity"
        | String other rest' =>
            if bool_decide (other = "\"%char) || bool_decide (other = ";"%char)
            then let? out := unescape_identity_component rest' in Ok (String other out)
            else Err ("invalid escape '\" +:+ String other "' in mTLS identity")
        end
      else let? out := unescape_identity_component rest in Ok (String c out)
  end.

(** The run of backslashes that ends just before the current byte; the bytes
    already passed are held in reverse. *)
Fixpoint backslash_run (passed : string) : nat :=
  match passed with
  | String c passed => if bool_decide (c = "\"%char) then S (backslash_run passed) else 0%nat
  | EmptyString => 0%nat
  end.

Fixpoint rev_append (a b : string) : string :=
  match a with EmptyString => b | String c a => rev_append a (String c b) end.

Fixpoint split_from (passed rest : string) : option (string * string) :=
  match rest with
  | EmptyString => None
  | String b rest' =>
      if negb (bool_decide (b = ";"%char)) then split_from (String b passed) rest'
      else if Nat.odd (backslash_run passed) then split_from (String b passed) rest'
      else subject ← strip_prefix ";subject=" rest; Some (rev_append passed EmptyString, subject)
  end.

Definition split_escaped_identity_body (rest : string) : option (string * string) :=
  split_from EmptyString rest.

Definition dn_form (issuer subject : string) : string :=
  "x509:issuer=" +:+ escape_identity_component issuer +:+ ";subject=" +:+ escape_identity_component subject.

Definition legacy_dn_key (i : AuthenticatedIdentity) : option string :=
  match i with
  | Mtls issuer subject _ =>
      if negb (bool_decide (issuer = EmptyString)) || negb (bool_decide (subject = EmptyString))
      then Some (dn_form issuer subject) else None
  | _ => None
  end.

(** ** Display and FromStr *)

Definition to_string (i : AuthenticatedIdentity) : string :=
  match i with
  | PeerCred uid => "uid=" +:+ pretty uid
  | Mtls issuer subject spki =>
      if bool_decide (spki = EmptyString) then dn_form issuer subject
      else if bool_decide (issuer = EmptyString) && bool_decide (subject = EmptyString)
      then "x509:spki=" +:+ spki
      else "x509:spki=" +:+ spki +:+ ";issuer=" +:+ escape_identity_component issuer
           +:+ ";subject=" +:+ escape_identity_component subject
  | Unauthenticated => "unauthenticated"
  end.

(** [str::find] of a character, as the text before and after it. *)
Fixpoint split_at_char (c : ascii) (s : string) : option (string * string) :=
  match s with
  | EmptyString => None
  | String a s' =>
      if bool_decide (a = c) then Some (EmptyString, s')
      else '(l, r) ← split_at_char c s'; Some (String a l, r)
  end.

Definition parse_dn (invalid : string) (spki body : string) : Result AuthenticatedIdentity string :=
  match split_escaped_identity_body body with
  | None => Err invalid
  | Some (esc_issuer, esc_subject) =>
      let? issuer := unescape_identity_component esc_issuer in
      let? subject := unescape_identity_component esc_subject in
      Ok (Mtls issuer subject spki)
  end.

Definition from_str (value : string) : Result AuthenticatedIdentity string :=
  if bool_decide (value = "unauthenticated") then Ok Unauthenticated
  else match strip_prefix "uid=" value with
  | Some uid =>
      match parse_u32 uid with
      | Some uid => Ok (PeerCred uid)
      | None => Err ("invalid peer credential identity '" +:+ value +:+ "'")
      end
  | None =>
  match strip_prefix "x509:spki=" value with
  | Some rest =>
      match split_at_char ";" rest with
      | Some (hash, after_semi) =>
          match strip_prefix "issuer=" after_semi with
          | None => Err ("invalid enriched mTLS identity '" +:+ value +:+ "'")
          | Some dn_body => parse_dn ("invalid enriched mTLS identity '" +:+ value +:+ "'") hash dn_body
          end
      | None => Ok (Mtls EmptyString EmptyString rest)
      end
  | None =>
  match strip_prefix "x509:issuer=" value with
  | Some rest => parse_dn ("invalid mTLS identity '" +:+ value +:+ "'") EmptyString rest
  | None => Err ("unknown authenticated identity format '" +:+ value +:+ "'")
  end end end.

(** ** The identities a transport can produce *)

Fixpoint has_char (c : ascii) (s : string) : bool :=
  match s with EmptyString => false | String a s => bool_decide (a = c) || has_char c s end.

Definition wf_identity (i : AuthenticatedIdentity) : Prop :=
  match i with
  | PeerCred uid => uid <= u32_MAX
  | Mtls _ _ spki => has_char ";" spki = false
  | Unauthenticated => True
  end.

(** ** Round trip *)

Lemma unescape_escape x : unescape_identity_component (escape_identity_component x) = Ok x.
Proof.
  induction x as [|c x IH]; [done|]. cbn [escape_identity_component].
  case_bool_decide as Hb; [subst|case_bool_decide as Hs; [subst|]].
  - cbn [unescape_identity_component]. rewrite (bool_decide_true ("\"%char = "\"%char)) by done.
    cbn [orb]. by rewrite IH.
  - cbn [unescape_identity_component]. rewrite (bool_decide_true ("\"%char = "\"%char)) by done.
    rewrite (bool_decide_true (";"%char = ";"%char)) by done. rewrite orb_true_r. by rewrite IH.
  - cbn [unescape_identity_component]. rewrite (bool_decide_false (c = "\"%char)) by done. by rewrite IH.
Qed.

Lemma rev_append_spec a : forall b c, rev_append a b +:+ c = rev_append a (b +:+ c).
Proof. induction a as [|x a IH]; intros b c; [done|]. exact (IH (String x b) c). Qed.

(** Starting after an even run of backslashes, the first structural separator
    of an escaped text is the one that follows it. *)
Lemma split_from_escaped x : forall passed s,
  Nat.odd (backslash_run passed) = false ->
  split_from passed (escape_identity_component x +:+ ";subject=" +:+ s) =
  Some (rev_append passed (escape_identity_component x), s).
Proof.
  induction x as [|c x IH]; intros passed s Hev.
  - change (escape_identity_component EmptyString +:+ ";subject=" +:+ s) with (String ";" ("subject=" +:+ s)).
    cbn [split_from]. rewrite (bool_decide_true (";"%char = ";"%char)) by done. cbn [negb]. rewrite Hev.
    change (String ";" ("subject=" +:+ s)) with (";subject=" +:+ s). by rewrite strip_prefix_app.
  - cbn [escape_identity_component]. case_bool_decide as Hb; [subst|case_bool_decide as Hs; [subst|]].
    + change (split_from (String "\" (String "\" passed)) (escape_identity_component x +:+ ";subject=" +:+ s) =
        Some (rev_append (String "\" (String "\" passed)) (escape_identity_component x), s)).
      apply IH. exact Hev.
    + change ((if Nat.odd (S (backslash_run passed))
               then split_from (String ";" (String "\" passed)) (escape_identity_component x +:+ ";subject=" +:+ s)
               else subject ← strip_prefix ";subject=" (String ";" (escape_identity_component x +:+ ";subject=" +:+ s));
                    Some (rev_append (String "\" passed) EmptyString, subject)) =
        Some (rev_append (String ";" (String "\" passed)) (escape_identity_component x), s)).
      rewrite Nat.odd_succ, <- Nat.negb_odd, Hev. cbn [negb]. apply IH. done.
    + change (String c (escape_identity_component x) +:+ ";subject=" +:+ s)
        with (String c (escape_identity_component x +:+ ";subject=" +:+ s)).
      cbn [split_from]. rewrite (bool_decide_false (c = ";"%char)) by done. cbn [negb].
      rewrite IH; [done|]. cbn [backslash_run]. by rewrite (bool_decide_false (c = "\"%char)).
Qed.

Lemma parse_dn_escaped invalid spki issuer subject :
  parse_dn invalid spki (escape_identity_component issuer +:+ ";subject=" +:+ escape_identity_component subject) =
  Ok (Mtls issuer subject spki).
Proof.
  unfold parse_dn, split_escaped_identity_body. rewrite split_from_escaped by done.
  cbn [rev_append]. by rewrite !unescape_escape.
Qed.

Lemma split_at_char_app c l r : has_char c l = false -> split_at_char c (l +:+ String c r) = Some (l, r).
Proof.
  induction l as [|a l IH]; intros Hl.
  - change (split_at_char c (String c r) = Some (EmptyString, r)). cbn [split_at_char].
    by rewrite (bool_decide_true (c = c)).
  - cbn [has_char] in Hl. apply orb_false_iff in Hl as [Ha Hl].
    change (String a l +:+ String c r) with (String a (l +:+ String c r)). cbn [split_at_char].
    rewrite Ha, (IH Hl). done.
Qed.

Lemma split_at_char_none c s : has_char c s = false -> split_at_char c s = None.
Proof.
  induction s as [|a s IH]; [done|]. cbn [has_char split_at_char]. intros [Ha Hs]%orb_false_iff.
  by rewrite Ha, (IH Hs).
Qed.

(** The prefixes are told apart by their first bytes. *)
Lemma from_str_spki rest :
  from_str ("x509:spki=" +:+ rest) =
  match split_at_char ";" rest with
  | Some (hash, after_semi) =>
      match strip_prefix "issuer=" after_semi with
      | None => Err ("invalid enriched mTLS identity '" +:+ ("x509:spki=" +:+ rest) +:+ "'")
      | Some dn_body => parse_dn ("invalid enriched mTLS identity '" +:+ ("x509:spki=" +:+ rest) +:+ "'") hash dn_body
      end
  | None => Ok (Mtls EmptyString EmptyString rest)
  end.
Proof.
  unfold from_str. rewrite bool_decide_false by done.
  change (strip_prefix "uid=" ("x509:spki=" +:+ rest)) with (@None string). by rewrite strip_prefix_app.
Qed.

Lemma from_str_dn rest :
  from_str ("x509:issuer=" +:+ rest) =
  parse_dn ("invalid mTLS identity '" +:+ ("x509:issuer=" +:+ rest) +:+ "'") EmptyString rest.
Proof.
  unfold from_str. rewrite bool_decide_false by done.
  change (strip_prefix "uid=" ("x509:issuer=" +:+ rest)) with (@None string).
  change (strip_prefix "x509:spki=" ("x509:issuer=" +:+ rest)) with (@None string). by rewrite strip_prefix_app.
Qed.

Lemma from_str_to_string i : wf_identity i -> from_str (to_string i) = Ok i.
Proof.
  destruct i as [uid|issuer subject spki|]; intros Hwf; [| |done].
  - unfold from_str, to_string. rewrite bool_decide_false by done. rewrite strip_prefix_app.
    unfold parse_u32. by rewrite from_str_radix_pretty.
  - cbn in Hwf. unfold to_string. case_bool_decide as Hsp; [subst|].
    + unfold dn_form. rewrite from_str_dn. apply parse_dn_escaped.
    + destruct (bool_decide (issuer = EmptyString) && bool_decide (subject = EmptyString)) eqn:Hdn.
      * apply andb_true_iff in Hdn as [->%bool_decide_eq_true ->%bool_decide_eq_true].
        rewrite from_str_spki. by rewrite split_at_char_none.
      * rewrite from_str_spki.
        change (spki +:+ ";issuer=" +:+ escape_identity_component issuer +:+ ";subject=" +:+ escape_identity_component subject)
          with (spki +:+ String ";" ("issuer=" +:+ escape_identity_component issuer +:+ ";subject=" +:+ escape_identity_component subject)).
        rewrite split_at_char_app, strip_prefix_app by done. apply parse_dn_escaped.
Qed.

Lemma to_string_inj i j : wf_identity i -> wf_identity j -> to_string i = to_string j -> i = j.
Proof.
  intros Hi Hj He. apply (f_equal from_str) in He. rewrite !from_str_to_string in He by done. congruence.
Qed.

(** ** The identity of a request *)

Inductive UnixAuthMode := UnixPeerCred | UnixNone.
Inductive TcpAuthMode := TcpMtls | TcpNone.

(** The [tonic::Code] of an error status; its message is not modelled. *)
Inductive RpcStatus := StUnauthenticated | StPermissionDenied | StResourceExhausted | StInternal.

(** What [x509-parser], [sha2] and [hex] compute. *)
Class CertReader := {
  Cert : Type;
  from_der : list N -> option Cert;
  cert_issuer : Cert -> string;
  cert_subject : Cert -> string;
  cert_spki_raw : Cert -> list N;
  hex_sha256 : list N -> string;
}.

(** A SHA-256 digest in hexadecimal: 64 digits. *)
Fixpoint all_hex (s : string) : bool :=
  match s with
  | EmptyString => true
  | String a s => bool_decide (is_Some (to_digit 16 a)) && all_hex s
  end.

Class CertReaderLaws `{CertReader} := {
  hex_sha256_digits b : all_hex (hex_sha256 b) = true;
  hex_sha256_length b : String.length (hex_sha256 b) = 64%nat;
}.

(** The parts of a request the derivation reads: the [UdsConnectInfo]
    extension (present on a Unix socket) with the kernel's peer uid, and the
    peer's certificate chain in DER. *)
Record TransportInfo := MkTransportInfo {
  uds : option (option N);
  peer_certs : option (list (list N));
}.

Section request_identity.
Context `{CR : CertReader}.

Definition extract_identity (cert_der : list N) : Result (string * string * string) string :=
  match cert_der with
  | [] => Err "empty certificate"
  | _ =>
      match from_der cert_der with
      | None => Err "failed to parse X.509 certificate"
      | Some cert =>
          let issuer := cert_issuer cert in
          let subject := cert_subject cert in
          if bool_decide (subject = EmptyString) then Err "certificate has an empty subject DN"
          else Ok (issuer, subject, hex_sha256 (cert_spki_raw cert))
      end
  end.

Definition identity_from_uds (peer_cred : option N) (unix_auth : UnixAuthMode)
  : Result AuthenticatedIdentity RpcStatus :=
  match unix_auth with
  | UnixNone => Ok Unauthenticated
  | UnixPeerCred =>
      match peer_cred with
      | Some uid => Ok (PeerCred uid)
      | None => Err StUnauthenticated
      end
  end.

Definition identity_from_tcp (request : TransportInfo) (tcp_auth : TcpAuthMode)
  : Result AuthenticatedIdentity RpcStatus :=
  match tcp_auth with
  | TcpNone => Ok Unauthenticated
  | TcpMtls =>
      match peer_certs request with
      | None => Err StUnauthenticated
      | Some [] => Err StUnauthenticated
      | Some (cert :: _) =>
          match extract_identity cert with
          | Err _ => Err StUnauthenticated
          | Ok (issuer, subject, spki) => Ok (Mtls issuer subject spki)
          end
      end
  end.

Definition identity_from_request (request : TransportInfo) (tcp_auth : TcpAuthMode) (unix_auth : UnixAuthMode)
  : Result AuthenticatedIdentity RpcStatus :=
  match uds request with
  | Some peer_cred => identity_from_uds peer_cred unix_auth
  | None => identity_from_tcp request tcp_auth
  end.
End request_identity.

(** ** Identities in the configuration *)

Inductive PolicyIdentitySource := SourcePeerCred | SourceMtls.

Definition normalize_policy_identity (identity : string) : string :=
  match (uid ← strip_prefix "uid=" identity; parse_u32 uid) with
  | Some n => "uid=" +:+ pretty n
  | None => identity
  end.

(** [str::contains] of a string. *)
Fixpoint contains (needle s : string) : bool :=
  bool_decide (is_Some (strip_prefix needle s)) ||
  match s with EmptyString => false | String _ s => contains needle s end.

Definition can_produce (src : PolicyIdentitySource) (identity : string) : bool :=
  match src with
  | SourcePeerCred =>
      match strip_prefix "uid=" (normalize_policy_identity identity) with
      | Some uid => bool_decide (is_Some (parse_u32 uid))
      | None => false
      end
  | SourceMtls =>
      let is_spki_form :=
        match strip_prefix "x509:spki=" identity with
        | Some rest =>
            let head := match split_at_char ";" rest with Some (h, _) => h | None => rest end in
            negb (bool_decide (head = EmptyString))
        | None => false
        end in
      let is_dn_form :=
        match strip_prefix "x509:issuer=" identity with
        | Some rest => contains ";subject=" rest
        | None => false
        end in
      is_spki_form || is_dn_form
  end.

(** ** Theorems *)

Section transport_laws.
Context `{CR : CertReader} `{!CertReaderLaws}.

Lemma all_hex_no_semi s : all_hex s = true -> has_char ";" s = false.
Proof.
  induction s as [|a s IH]; [done|]. cbn [all_hex has_char]. intros [Ha Hs]%andb_true_iff.
  rewrite (IH Hs), orb_false_r. apply bool_decide_eq_false. intros ->.
  apply bool_decide_eq_true in Ha. by destruct Ha.
Qed.

Lemma extract_identity_Ok der issuer subject spki :
  extract_identity der = Ok (issuer, subject, spki) ->
  exists cert, from_der der = Some cert /\ issuer = cert_issuer cert /\ subject = cert_subject cert /\
    spki = hex_sha256 (cert_spki_raw cert) /\ subject <> EmptyString /\ spki <> EmptyString /\
    has_char ";" spki = false.
Proof.
  unfold extract_identity. destruct der as [|b der]; [done|].
  destruct (from_der _) as [cert|]; [|done]. case_bool_decide as Hs; [done|].
  intros [= <- <- <-]. exists cert. split_and!; try done.
  - intros He. pose proof (hex_sha256_length (cert_spki_raw cert)) as Hl. by rewrite He in Hl.
  - apply all_hex_no_semi, hex_sha256_digits.
Qed.

(** A kernel uid is a [u32]. *)
Definition transport_wf (r : TransportInfo) : Prop :=
  forall uid, uds r = Some (Some uid) -> uid <= u32_MAX.

Lemma identity_from_request_wf r tcp unix i :
  transport_wf r -> identity_from_request r tcp unix = Ok i -> wf_identity i.
Proof.
  intros Hr. unfold identity_from_request, identity_from_uds, identity_from_tcp.
  destruct (uds r) as [cred|] eqn:Eu.
  - destruct unix; [|by intros [= <-]]. destruct cred as [uid|]; [|done].
    intros [= <-]. by apply Hr.
  - destruct tcp; [|by intros [= <-]]. destruct (peer_certs r) as [[|der ?]|]; try done.
    destruct (extract_identity der) as [[[issuer subject] spki]|] eqn:Ee; [|done].
    intros [= <-]. cbn. by apply extract_identity_Ok in Ee as (? & ? & ? & ? & ? & ? & ? & ?).
Qed.

(** On listeners that authenticate (mTLS over TCP, peer credentials over a
    Unix socket) a request either yields the identity its transport proves, a
    kernel uid or the subject and key of the leaf certificate with a
    non-empty subject, or is refused with UNAUTHENTICATED: never an
    unauthenticated or a partial identity. *)
Theorem authenticated_transport_fails_closed (r : TransportInfo) :
  (exists uid, uds r = Some (Some uid) /\ identity_from_request r TcpMtls UnixPeerCred = Ok (PeerCred uid)) \/
  (exists der rest cert, uds r = None /\ peer_certs r = Some (der :: rest) /\ from_der der = Some cert /\
     cert_subject cert <> EmptyString /\ hex_sha256 (cert_spki_raw cert) <> EmptyString /\
     identity_from_request r TcpMtls UnixPeerCred =
       Ok (Mtls (cert_issuer cert) (cert_subject cert) (hex_sha256 (cert_spki_raw cert)))) \/
  identity_from_request r TcpMtls UnixPeerCred = Err StUnauthenticated.
Proof.
  unfold identity_from_request, identity_from_uds, identity_from_tcp.
  destruct (uds r) as [[uid|]|] eqn:Eu; [left; eauto|by right; right|].
  destruct (peer_certs r) as [[|der rest]|] eqn:Ec; [by right; right| |by right; right].
  destruct (extract_identity der) as [[[issuer subject] spki]|] eqn:Ee; [|by right; right].
  right. left. apply extract_identity_Ok in Ee as (cert & Hd & -> & -> & -> & ? & ? & ?). naive_solver.
Qed.

End transport_laws.

(** Parsing the string form of an identity gives the identity back, for every
    DN (delimiters and backslashes included) and every fingerprint without
    the delimiter, so no two such identities share a string form. *)
Theorem identity_roundtrip (i : AuthenticatedIdentity) :
  wf_identity i ->
  from_str (to_string i) = Ok i /\ (forall j, wf_identity j -> to_string j = to_string i -> j = i).
Proof.
  intros Hi. split; [by apply from_str_to_string|]. intros j Hj He. by apply to_string_inj.
Qed.

Definition demo_reader : CertReader := {|
  Cert := list N;
  from_der := fun b => Some b;
  cert_issuer := fun _ => "CN=CA";
  cert_subject := fun _ => "CN=client";
  cert_spki_raw := fun b => b;
  hex_sha256 := fun _ => "00000000000000000000000000000000000000000000000000000000000000ff";
|}.

Lemma demo_reader_laws : @CertReaderLaws demo_reader.
Proof. constructor; reflexivity. Qed.

Definition demo_leaf : TransportInfo := MkTransportInfo None (Some [[48; 1]; [48; 2]]).

Lemma authenticated_transport_fails_closed_witness :
  (exists uid, uds demo_leaf = Some (Some uid) /\
     @identity_from_request demo_reader demo_leaf TcpMtls UnixPeerCred = Ok (PeerCred uid)) \/
  (exists der rest cert, uds demo_leaf = None /\ peer_certs demo_leaf = Some (der :: rest) /\
     @from_der demo_reader der = Some cert /\
     @cert_subject demo_reader cert <> EmptyString /\
     @hex_sha256 demo_reader (@cert_spki_raw demo_reader cert) <> EmptyString /\
     @identity_from_request demo_reader demo_leaf TcpMtls UnixPeerCred =
       Ok (Mtls (@cert_issuer demo_reader cert) (@cert_subject demo_reader cert)
             (@hex_sha256 demo_reader (@cert_spki_raw demo_reader cert)))) \/
  @identity_from_request demo_reader demo_leaf TcpMtls UnixPeerCred = Err StUnauthenticated.
Proof. exact (@authenticated_transport_fails_closed demo_reader demo_reader_laws demo_leaf). Defined.

Lemma identity_roundtrip_witness :
  from_str (to_string (Mtls "CN=A;B" "O=C\;subject=x" "ab01")) = Ok (Mtls "CN=A;B" "O=C\;subject=x" "ab01").
Proof. apply (proj1 (identity_roundtrip (Mtls "CN=A;B" "O=C\;subject=x" "ab01") eq_refl)). Defined.

(** A policy identity the configuration accepts for the peer-credential
    listener, whatever its spelling ([uid=01000], [uid=+1000]), is stored
    under the string form of exactly one peer-credential identity. *)
Theorem accepted_uid_entry_matchable (entry : string) :
  can_produce SourcePeerCred entry = true ->
  exists uid, uid <= u32_MAX /\ normalize_policy_identity entry = to_string (PeerCred uid) /\
    from_str (normalize_policy_identity entry) = Ok (PeerCred uid).
Proof.
  unfold can_produce. destruct (uid ← strip_prefix "uid=" entry; parse_u32 uid) as [n|] eqn:E.
  - intros _. exists n.
    assert (n <= u32_MAX) as Hn.
    { destruct (strip_prefix "uid=" entry) as [u|]; [|done]. by apply (parse_u32_le u). }
    assert (normalize_policy_identity entry = to_string (PeerCred n)) as Hk.
    { unfold normalize_policy_identity. by rewrite E. }
    split_and!; [done|done|]. rewrite Hk. by apply (from_str_to_string (PeerCred n)).
  - unfold normalize_policy_identity. rewrite E.
    destruct (strip_prefix "uid=" entry) as [u|]; [|done]. cbn in E. by rewrite E.
Qed.

Lemma accepted_uid_entry_matchable_witness :
  exists uid, uid <= u32_MAX /\ normalize_policy_identity "uid=+01000" = to_string (PeerCred uid) /\
    from_str (normalize_policy_identity "uid=+01000") = Ok (PeerCred uid).
Proof. apply (accepted_uid_entry_matchable "uid=+01000"). vm_compute. reflexivity. Defined.
