(* ===== verification/Mech.v ===== *)
(** * Mechanism types

    The constants of [CkMechanismType] ([types/src/mechanism.rs]) and the
    names the policy parser knows ([parse_mechanism], [server/auth/grant.rs]). *)

From S2P Require Import Prelude.
Open Scope N_scope.

Abbreviation CkMechanismType := N.

(** Every associated constant, with its value. *)
Definition mechanism_constants : list (string * CkMechanismType) := [
  ("VENDOR_DEFINED", 2147483648); ("RSA_PKCS", 1); ("RSA_PKCS_KEY_PAIR_GEN", 0); ("RSA_9796", 2);
  ("RSA_X_509", 3); ("RSA_X9_31_KEY_PAIR_GEN", 10); ("RSA_X9_31", 11); ("SHA256_RSA_PKCS", 64);
  ("SHA384_RSA_PKCS", 65); ("SHA512_RSA_PKCS", 66); ("ECDSA", 4161); ("ECDSA_SHA1", 4162);
  ("ECDSA_SHA224", 4163); ("ECDSA_SHA256", 4164); ("ECDSA_SHA384", 4165); ("ECDSA_SHA512", 4166);
  ("ECDSA_SHA3_224", 4167); ("ECDSA_SHA3_256", 4168); ("ECDSA_SHA3_384", 4169);
  ("ECDSA_SHA3_512", 4170); ("EC_KEY_PAIR_GEN", 4160); ("EC_KEY_PAIR_GEN_W_EXTRA_BITS", 5131);
  ("EC_EDWARDS_KEY_PAIR_GEN", 4181); ("EC_MONTGOMERY_KEY_PAIR_GEN", 4182); ("EDDSA", 4183);
  ("XEDDSA", 16425); ("HKDF_DERIVE", 16426); ("HKDF_DATA", 16427); ("HKDF_KEY_GEN", 16428);
  ("IKE2_PRF_PLUS_DERIVE", 16430); ("IKE_PRF_DERIVE", 16431); ("IKE1_PRF_DERIVE", 16432);
  ("IKE1_EXTENDED_DERIVE", 16433); ("HSS_KEY_PAIR_GEN", 16434); ("HSS", 16435);
  ("XMSS_KEY_PAIR_GEN", 16436); ("XMSSMT_KEY_PAIR_GEN", 16437); ("XMSS", 16438); ("XMSSMT", 16439);
  ("SHA256", 592); ("SHA384", 608); ("SHA512", 624); ("RSA_PKCS_PSS", 13); ("RSA_PKCS_OAEP", 9);
  ("DH_PKCS_KEY_PAIR_GEN", 32); ("DH_PKCS_DERIVE", 33); ("X9_42_DH_KEY_PAIR_GEN", 48);
  ("X9_42_DH_DERIVE", 49); ("X9_42_DH_HYBRID_DERIVE", 50); ("X9_42_MQV_DERIVE", 51);
  ("ML_KEM_KEY_PAIR_GEN", 15); ("ML_KEM", 23); ("ML_DSA_KEY_PAIR_GEN", 28); ("ML_DSA", 29);
  ("HASH_ML_DSA", 31); ("HASH_ML_DSA_SHA224", 35); ("HASH_ML_DSA_SHA256", 36);
  ("HASH_ML_DSA_SHA384", 37); ("HASH_ML_DSA_SHA512", 38); ("HASH_ML_DSA_SHA3_224", 39);
  ("HASH_ML_DSA_SHA3_256", 40); ("HASH_ML_DSA_SHA3_384", 41); ("HASH_ML_DSA_SHA3_512", 42);
  ("HASH_ML_DSA_SHAKE128", 43); ("HASH_ML_DSA_SHAKE256", 44); ("SLH_DSA_KEY_PAIR_GEN", 45);
  ("SLH_DSA", 46); ("HASH_SLH_DSA", 52); ("HASH_SLH_DSA_SHA224", 54); ("HASH_SLH_DSA_SHA256", 55);
  ("HASH_SLH_DSA_SHA384", 56); ("HASH_SLH_DSA_SHA512", 57); ("HASH_SLH_DSA_SHA3_224", 58);
  ("HASH_SLH_DSA_SHA3_256", 59); ("HASH_SLH_DSA_SHA3_384", 60); ("HASH_SLH_DSA_SHA3_512", 61);
  ("HASH_SLH_DSA_SHAKE128", 62); ("HASH_SLH_DSA_SHAKE256", 63); ("AES_XTS", 4209);
  ("AES_XTS_KEY_GEN", 4210); ("AES_KEY_GEN", 4224); ("AES_ECB", 4225); ("AES_MAC", 4227);
  ("AES_MAC_GENERAL", 4228); ("AES_CTR", 4230); ("AES_GCM", 4231); ("AES_CCM", 4232);
  ("AES_CTS", 4233); ("AES_CMAC", 4234); ("AES_CMAC_GENERAL", 4235); ("AES_XCBC_MAC", 4236);
  ("AES_XCBC_MAC_96", 4237); ("AES_GMAC", 4238); ("AES_ECB_ENCRYPT_DATA", 4356);
  ("AES_CBC_ENCRYPT_DATA", 4357); ("DES_ECB_ENCRYPT_DATA", 4352); ("DES_CBC_ENCRYPT_DATA", 4353);
  ("DES3_ECB_ENCRYPT_DATA", 4354); ("DES3_CBC_ENCRYPT_DATA", 4355); ("MD2", 512); ("MD5", 528);
  ("SHA_1", 544); ("SHA_1_HMAC", 545); ("SHA_1_HMAC_GENERAL", 546);
  ("SHAKE_128_KEY_DERIVATION", 923); ("SHAKE_256_KEY_DERIVATION", 924); ("CHACHA20_KEY_GEN", 4645);
  ("CHACHA20", 4646); ("POLY1305_KEY_GEN", 4647); ("POLY1305", 4648); ("ECDH1_DERIVE", 4176);
  ("ECDH1_COFACTOR_DERIVE", 4177); ("ECMQV_DERIVE", 4178); ("ECDH_AES_KEY_WRAP", 4179);
  ("RSA_AES_KEY_WRAP", 4180); ("ECDH_X_AES_KEY_WRAP", 16440); ("ECDH_COF_AES_KEY_WRAP", 16441);
  ("SECURID_KEY_GEN", 640); ("SECURID", 642); ("HOTP_KEY_GEN", 656); ("HOTP", 657);
  ("PBE_SHA1_DES3_EDE_CBC", 936); ("PBE_SHA1_DES2_EDE_CBC", 937); ("SP800_108_COUNTER_KDF", 940);
  ("SP800_108_FEEDBACK_KDF", 941); ("SP800_108_DOUBLE_PIPELINE_KDF", 942); ("PKCS5_PBKD2", 944);
  ("PBA_SHA1_WITH_SHA1_HMAC", 960); ("CMS_SIG", 1280); ("BLOWFISH_KEY_GEN", 4240);
  ("BLOWFISH_CBC", 4241); ("TWOFISH_KEY_GEN", 4242); ("TWOFISH_CBC", 4243);
  ("BLOWFISH_CBC_PAD", 4244); ("TWOFISH_CBC_PAD", 4245); ("GENERIC_SECRET_KEY_GEN", 848);
  ("CONCATENATE_BASE_AND_KEY", 864); ("CONCATENATE_BASE_AND_DATA", 866);
  ("CONCATENATE_DATA_AND_BASE", 867); ("XOR_BASE_AND_DATA", 868); ("EXTRACT_KEY_FROM_KEY", 869);
  ("PUB_KEY_FROM_PRIV_KEY", 16442); ("RC2_KEY_GEN", 256); ("RC2_ECB", 257); ("RC2_CBC", 258);
  ("RC2_MAC", 259); ("RC2_MAC_GENERAL", 260); ("RC2_CBC_PAD", 261); ("RC4_KEY_GEN", 272);
  ("RC4", 273); ("DES_KEY_GEN", 288); ("DES_ECB", 289); ("DES_CBC", 290); ("DES_MAC", 291);
  ("DES_MAC_GENERAL", 292); ("DES_CBC_PAD", 293); ("DES2_KEY_GEN", 304); ("DES3_KEY_GEN", 305);
  ("DES3_ECB", 306); ("DES3_MAC", 308); ("DES3_MAC_GENERAL", 309); ("DES3_CMAC_GENERAL", 311);
  ("DES3_CMAC", 312); ("KIP_DERIVE", 1296); ("KIP_WRAP", 1297); ("KIP_MAC", 1298);
  ("CAMELLIA_KEY_GEN", 1360); ("CAMELLIA_ECB", 1361); ("CAMELLIA_CBC", 1362);
  ("CAMELLIA_MAC", 1363); ("CAMELLIA_MAC_GENERAL", 1364); ("CAMELLIA_CBC_PAD", 1365);
  ("CAMELLIA_ECB_ENCRYPT_DATA", 1366); ("CAMELLIA_CBC_ENCRYPT_DATA", 1367); ("ARIA_KEY_GEN", 1376);
  ("ARIA_ECB", 1377); ("ARIA_CBC", 1378); ("ARIA_MAC", 1379); ("ARIA_MAC_GENERAL", 1380);
  ("ARIA_CBC_PAD", 1381); ("ARIA_ECB_ENCRYPT_DATA", 1382); ("ARIA_CBC_ENCRYPT_DATA", 1383);
  ("SEED_KEY_GEN", 1616); ("SEED_ECB", 1617); ("SEED_CBC", 1618); ("SEED_MAC", 1619);
  ("SEED_MAC_GENERAL", 1620); ("SEED_CBC_PAD", 1621); ("SEED_ECB_ENCRYPT_DATA", 1622);
  ("SEED_CBC_ENCRYPT_DATA", 1623); ("GOSTR3410_KEY_PAIR_GEN", 4608); ("GOSTR3410", 4609);
  ("GOSTR3410_WITH_GOSTR3411", 4610); ("GOSTR3410_KEY_WRAP", 4611); ("GOSTR3410_DERIVE", 4612);
  ("GOSTR3411", 4624); ("GOSTR3411_HMAC", 4625); ("GOST28147_KEY_GEN", 4640);
  ("GOST28147_ECB", 4641); ("GOST28147", 4642); ("GOST28147_MAC", 4643);
  ("GOST28147_KEY_WRAP", 4644); ("AES_CBC", 4226); ("AES_CBC_PAD", 4229); ("AES_OFB", 8452);
  ("AES_CFB64", 8453); ("AES_CFB8", 8454); ("AES_CFB128", 8455); ("AES_CFB1", 8456);
  ("DES_OFB64", 336); ("DES_OFB8", 337); ("DES_CFB64", 338); ("DES_CFB8", 339);
  ("DH_PKCS_PARAMETER_GEN", 8193); ("X9_42_DH_PARAMETER_GEN", 8194); ("AES_KEY_WRAP", 8457);
  ("AES_KEY_WRAP_PAD", 8458); ("AES_KEY_WRAP_KWP", 8459); ("AES_KEY_WRAP_PKCS7", 8460);
  ("RSA_PKCS_TPM_1_1", 16385); ("RSA_PKCS_OAEP_TPM_1_1", 16386); ("NULL", 16395);
  ("BLAKE2B_160", 16396); ("BLAKE2B_160_HMAC", 16397); ("BLAKE2B_160_HMAC_GENERAL", 16398);
  ("BLAKE2B_160_KEY_DERIVE", 16399); ("BLAKE2B_160_KEY_GEN", 16400); ("BLAKE2B_256", 16401);
  ("BLAKE2B_256_HMAC", 16402); ("BLAKE2B_256_HMAC_GENERAL", 16403);
  ("BLAKE2B_256_KEY_DERIVE", 16404); ("BLAKE2B_256_KEY_GEN", 16405); ("BLAKE2B_384", 16406);
  ("BLAKE2B_384_HMAC", 16407); ("BLAKE2B_384_HMAC_GENERAL", 16408);
  ("BLAKE2B_384_KEY_DERIVE", 16409); ("BLAKE2B_384_KEY_GEN", 16410); ("BLAKE2B_512", 16411);
  ("BLAKE2B_512_HMAC", 16412); ("BLAKE2B_512_HMAC_GENERAL", 16413);
  ("BLAKE2B_512_KEY_DERIVE", 16414); ("BLAKE2B_512_KEY_GEN", 16415); ("SALSA20", 16416);
  ("CHACHA20_POLY1305", 16417); ("SALSA20_POLY1305", 16418); ("X3DH_INITIALIZE", 16419);
  ("X3DH_RESPOND", 16420); ("X2RATCHET_INITIALIZE", 16421); ("X2RATCHET_RESPOND", 16422);
  ("X2RATCHET_ENCRYPT", 16423); ("X2RATCHET_DECRYPT", 16424); ("SALSA20_KEY_GEN", 16429);
  ("DES3_CBC", 307); ("DES3_CBC_PAD", 310); ("TLS12_EXTENDED_MASTER_KEY_DERIVE", 86);
  ("TLS12_EXTENDED_MASTER_KEY_DERIVE_DH", 87); ("SSL3_PRE_MASTER_KEY_GEN", 880);
  ("SSL3_MASTER_KEY_DERIVE", 881); ("SSL3_KEY_AND_MAC_DERIVE", 882);
  ("SSL3_MASTER_KEY_DERIVE_DH", 883); ("TLS_PRE_MASTER_KEY_GEN", 884); ("TLS_PRF", 888);
  ("SSL3_MD5_MAC", 896); ("SSL3_SHA1_MAC", 897); ("WTLS_PRE_MASTER_KEY_GEN", 976);
  ("WTLS_MASTER_KEY_DERIVE", 977); ("WTLS_MASTER_KEY_DERIVE_DH_ECC", 978); ("WTLS_PRF", 979);
  ("WTLS_SERVER_KEY_AND_MAC_DERIVE", 980); ("WTLS_CLIENT_KEY_AND_MAC_DERIVE", 981);
  ("TLS12_MAC", 984); ("TLS12_KDF", 985); ("TLS12_MASTER_KEY_DERIVE", 992);
  ("TLS12_KEY_AND_MAC_DERIVE", 993); ("TLS12_MASTER_KEY_DERIVE_DH", 994);
  ("TLS12_KEY_SAFE_DERIVE", 995); ("TLS_MAC", 996); ("TLS_KDF", 997)
].

(** The constants whose [CKM_] name the policy parser accepts. *)
Definition mechanism_names : list string := [
  "RSA_PKCS_KEY_PAIR_GEN"; "RSA_PKCS"; "RSA_9796"; "RSA_X_509"; "RSA_X9_31_KEY_PAIR_GEN";
  "RSA_X9_31"; "RSA_PKCS_PSS"; "RSA_PKCS_OAEP"; "SHA256_RSA_PKCS"; "SHA384_RSA_PKCS";
  "SHA512_RSA_PKCS"; "ECDSA"; "ECDSA_SHA1"; "ECDSA_SHA224"; "ECDSA_SHA256"; "ECDSA_SHA384";
  "ECDSA_SHA512"; "ECDSA_SHA3_224"; "ECDSA_SHA3_256"; "ECDSA_SHA3_384"; "ECDSA_SHA3_512";
  "EC_KEY_PAIR_GEN"; "EC_KEY_PAIR_GEN_W_EXTRA_BITS"; "EC_EDWARDS_KEY_PAIR_GEN";
  "EC_MONTGOMERY_KEY_PAIR_GEN"; "EDDSA"; "XEDDSA"; "HKDF_DERIVE"; "HKDF_DATA"; "HKDF_KEY_GEN";
  "IKE2_PRF_PLUS_DERIVE"; "IKE_PRF_DERIVE"; "IKE1_PRF_DERIVE"; "IKE1_EXTENDED_DERIVE";
  "HSS_KEY_PAIR_GEN"; "HSS"; "XMSS_KEY_PAIR_GEN"; "XMSSMT_KEY_PAIR_GEN"; "XMSS"; "XMSSMT";
  "SHA256"; "SHA384"; "SHA512"; "DH_PKCS_KEY_PAIR_GEN"; "DH_PKCS_DERIVE"; "X9_42_DH_KEY_PAIR_GEN";
  "X9_42_DH_DERIVE"; "X9_42_DH_HYBRID_DERIVE"; "X9_42_MQV_DERIVE"; "AES_XTS"; "AES_XTS_KEY_GEN";
  "AES_KEY_GEN"; "AES_ECB"; "AES_CBC"; "AES_CBC_PAD"; "AES_MAC"; "AES_MAC_GENERAL"; "AES_CTR";
  "AES_GCM"; "AES_CCM"; "AES_CTS"; "AES_CMAC"; "AES_CMAC_GENERAL"; "AES_XCBC_MAC";
  "AES_XCBC_MAC_96"; "AES_GMAC"; "AES_OFB"; "AES_CFB64"; "AES_CFB8"; "AES_CFB128"; "AES_CFB1";
  "AES_KEY_WRAP"; "AES_KEY_WRAP_PAD"; "AES_KEY_WRAP_KWP"; "AES_KEY_WRAP_PKCS7";
  "AES_ECB_ENCRYPT_DATA"; "AES_CBC_ENCRYPT_DATA"; "MD2"; "MD5"; "SHAKE_128_KEY_DERIVATION";
  "SHAKE_256_KEY_DERIVATION"; "CHACHA20_KEY_GEN"; "CHACHA20"; "POLY1305_KEY_GEN"; "POLY1305";
  "ECDH1_DERIVE"; "ECDH1_COFACTOR_DERIVE"; "ECMQV_DERIVE"; "ECDH_AES_KEY_WRAP"; "RSA_AES_KEY_WRAP";
  "ECDH_X_AES_KEY_WRAP"; "ECDH_COF_AES_KEY_WRAP"; "SECURID_KEY_GEN"; "SECURID"; "HOTP_KEY_GEN";
  "HOTP"; "PBE_SHA1_DES3_EDE_CBC"; "PBE_SHA1_DES2_EDE_CBC"; "PKCS5_PBKD2";
  "PBA_SHA1_WITH_SHA1_HMAC"; "CMS_SIG"; "BLOWFISH_KEY_GEN"; "BLOWFISH_CBC"; "TWOFISH_KEY_GEN";
  "TWOFISH_CBC"; "BLOWFISH_CBC_PAD"; "TWOFISH_CBC_PAD"; "GENERIC_SECRET_KEY_GEN";
  "CONCATENATE_BASE_AND_KEY"; "CONCATENATE_BASE_AND_DATA"; "CONCATENATE_DATA_AND_BASE";
  "XOR_BASE_AND_DATA"; "EXTRACT_KEY_FROM_KEY"; "PUB_KEY_FROM_PRIV_KEY"; "DES_KEY_GEN"; "DES_ECB";
  "DES_MAC"; "DES_CBC_PAD"; "DES2_KEY_GEN"; "DES3_KEY_GEN"; "DES3_ECB"; "DES3_CBC"; "DES3_CBC_PAD";
  "DES3_MAC"; "DES3_MAC_GENERAL"; "DES3_CMAC_GENERAL"; "DES3_CMAC"; "KIP_DERIVE"; "KIP_WRAP";
  "KIP_MAC"; "CAMELLIA_KEY_GEN"; "CAMELLIA_ECB"; "CAMELLIA_CBC"; "CAMELLIA_MAC";
  "CAMELLIA_MAC_GENERAL"; "CAMELLIA_CBC_PAD"; "CAMELLIA_ECB_ENCRYPT_DATA";
  "CAMELLIA_CBC_ENCRYPT_DATA"; "ARIA_KEY_GEN"; "ARIA_ECB"; "ARIA_CBC"; "ARIA_MAC";
  "ARIA_MAC_GENERAL"; "ARIA_CBC_PAD"; "ARIA_ECB_ENCRYPT_DATA"; "ARIA_CBC_ENCRYPT_DATA";
  "SEED_KEY_GEN"; "SEED_ECB"; "SEED_CBC"; "SEED_MAC"; "SEED_MAC_GENERAL"; "SEED_CBC_PAD";
  "SEED_ECB_ENCRYPT_DATA"; "SEED_CBC_ENCRYPT_DATA"; "GOSTR3410_KEY_PAIR_GEN"; "GOSTR3410";
  "GOSTR3410_WITH_GOSTR3411"; "GOSTR3410_KEY_WRAP"; "GOSTR3410_DERIVE"; "GOSTR3411";
  "GOSTR3411_HMAC"; "GOST28147_KEY_GEN"; "GOST28147_ECB"; "GOST28147"; "GOST28147_MAC";
  "GOST28147_KEY_WRAP"; "DES_ECB_ENCRYPT_DATA"; "DES_CBC_ENCRYPT_DATA"; "DES3_ECB_ENCRYPT_DATA";
  "DES3_CBC_ENCRYPT_DATA"; "NULL"; "SALSA20"; "CHACHA20_POLY1305"; "SALSA20_POLY1305";
  "X3DH_INITIALIZE"; "X3DH_RESPOND"; "X2RATCHET_INITIALIZE"; "X2RATCHET_RESPOND";
  "X2RATCHET_ENCRYPT"; "X2RATCHET_DECRYPT"; "SALSA20_KEY_GEN"; "DH_PKCS_PARAMETER_GEN";
  "X9_42_DH_PARAMETER_GEN"; "RSA_PKCS_TPM_1_1"; "RSA_PKCS_OAEP_TPM_1_1";
  "TLS12_EXTENDED_MASTER_KEY_DERIVE"; "TLS12_EXTENDED_MASTER_KEY_DERIVE_DH";
  "SSL3_PRE_MASTER_KEY_GEN"; "SSL3_MASTER_KEY_DERIVE"; "SSL3_KEY_AND_MAC_DERIVE";
  "SSL3_MASTER_KEY_DERIVE_DH"; "TLS_PRE_MASTER_KEY_GEN"; "TLS_PRF"; "SSL3_MD5_MAC";
  "SSL3_SHA1_MAC"; "WTLS_PRE_MASTER_KEY_GEN"; "WTLS_MASTER_KEY_DERIVE";
  "WTLS_MASTER_KEY_DERIVE_DH_ECC"; "WTLS_PRF"; "WTLS_SERVER_KEY_AND_MAC_DERIVE";
  "WTLS_CLIENT_KEY_AND_MAC_DERIVE"; "TLS12_MAC"; "TLS12_KDF"; "TLS12_MASTER_KEY_DERIVE";
  "TLS12_KEY_AND_MAC_DERIVE"; "TLS12_MASTER_KEY_DERIVE_DH"; "TLS12_KEY_SAFE_DERIVE"; "TLS_MAC";
  "TLS_KDF"; "DES_OFB64"; "DES_OFB8"; "DES_CFB64"; "DES_CFB8"
].

Definition mechanism_constant (name : string) : option CkMechanismType :=
  find_map (fun e => if bool_decide (e.1 = name) then Some e.2 else None) mechanism_constants.

(** The [match] of [parse_mechanism] on a name. *)
Definition named_mechanism (t : string) : option CkMechanismType :=
  find_map (fun n => if bool_decide (t = "CKM_" +:+ n) then mechanism_constant n else None) mechanism_names.
