(* ===== verification/Grant.v ===== *)
(** * Token selectors and grants

    Models [server/auth/token_selector.rs] and [server/auth/grant.rs]: the
    selector syntax and its matching, the grant record, and the parsers of
    object classes, mechanisms and object identifiers.

    Errors are constructors; their wording is not modelled.  [hex::decode] is
    code of another crate: an argument. *)

From Stdlib Require Import Ascii.
From S2P Require Import Prelude Text Context Mech.
Open Scope N_scope.

(** ** Selectors *)

Inductive PolicyError :=
| EmptySelector
| EmptyLabelValue
| EmptySerialValue
| UriUnsupported
| UnknownPrefix (prefix : string)
| UnknownClass (t : string)
| UnknownMechanism (t : string)
| InvalidObjectId (t : string)
| InvalidScalar (keyword : string)
| DuplicateIdentity (identity : string).

Inductive TokenSelector :=
| Label (label : string)
| Serial (serial : string).

#[export] Instance TokenSelector_eq_dec : EqDecision TokenSelector.
Proof. solve_decision. Defined.

Definition is_padding (a : ascii) : bool :=
  bool_decide (a = " "%char) || bool_decide (a = "000"%char).

(** [trim_end_matches]. *)
Fixpoint trim_field_padding (s : string) : string :=
  match s with
  | EmptyString => EmptyString
  | String a s =>
      match trim_field_padding s with
      | EmptyString => if is_padding a then EmptyString else String a EmptyString
      | t => String a t
      end
  end.

Fixpoint before_colon (s : string) : string :=
  match s with
  | EmptyString => EmptyString
  | String a s => if bool_decide (a = ":"%char) then EmptyString else String a (before_colon s)
  end.

Fixpoint has_colon (s : string) : bool :=
  match s with EmptyString => false | String a s => bool_decide (a = ":"%char) || has_colon s end.

Definition TokenSelector_parse (selector : string) : Result TokenSelector PolicyError :=
  let trimmed := trim_field_padding selector in
  if bool_decide (trimmed = EmptyString) then Err EmptySelector
  else match strip_prefix "label:" trimmed with
  | Some label =>
      let label := trim_field_padding label in
      if bool_decide (label = EmptyString) then Err EmptyLabelValue else Ok (Label label)
  | None =>
  match strip_prefix "serial:" trimmed with
  | Some serial =>
      let serial := trim_field_padding serial in
      if bool_decide (serial = EmptyString) then Err EmptySerialValue else Ok (Serial serial)
  | None =>
      if bool_decide (is_Some (strip_prefix "pkcs11:" trimmed)) then Err UriUnsupported
      else if has_colon trimmed then Err (UnknownPrefix (before_colon trimmed))
      else Ok (Label trimmed)
  end end.

Definition TokenSelector_matches (s : TokenSelector) (token_label token_serial : string) : bool :=
  match s with
  | Label label => bool_decide (trim_field_padding label = trim_field_padding token_label)
  | Serial serial => bool_decide (trim_field_padding serial = trim_field_padding token_serial)
  end.

(** ** Grants *)

Inductive ExtractPolicy := Allow | DenyExtract.

#[export] Instance ExtractPolicy_eq_dec : EqDecision ExtractPolicy.
Proof. solve_decision. Defined.

Record ObjectAcl := MkObjectAcl { acl_unique_id : list N; acl_extract : option ExtractPolicy }.

Record TokenGrant := MkTokenGrant {
  selector : TokenSelector;
  classes : option (list CkObjectClass);
  mechanisms : option (list CkMechanismType);
  extract : ExtractPolicy;
  objects : option (list ObjectAcl);
}.

Definition TokenGrant_simple (s : TokenSelector) : TokenGrant :=
  MkTokenGrant s None None Allow None.

Definition matches_token (g : TokenGrant) (token_label token_serial : string) : bool :=
  TokenSelector_matches (selector g) token_label token_serial.

(** ** Parsers *)

Definition CKO_DATA : CkObjectClass := 0.
Definition CKO_CERTIFICATE : CkObjectClass := 1.
Definition CKO_PUBLIC_KEY : CkObjectClass := 2.
Definition CKO_PRIVATE_KEY : CkObjectClass := 3.
Definition CKO_SECRET_KEY : CkObjectClass := 4.
Definition CKO_VENDOR_DEFINED : CkObjectClass := 2147483648.

Definition strip_0x (t : string) : option string :=
  match strip_prefix "0x" t with Some hex => Some hex | None => strip_prefix "0X" t end.

(** The numeric fallback both parsers share. *)
Definition parse_number (t : string) : option N :=
  match strip_0x t with
  | Some hex => from_str_radix 16 u64_MAX hex
  | None => parse_u64 t
  end.

Definition parse_class (s : string) : Result CkObjectClass PolicyError :=
  let t := trim s in
  let named (a b : string) := bool_decide (t = a) || bool_decide (t = b) in
  if named "data" "CKO_DATA" then Ok CKO_DATA
  else if named "certificate" "CKO_CERTIFICATE" then Ok CKO_CERTIFICATE
  else if named "public_key" "CKO_PUBLIC_KEY" then Ok CKO_PUBLIC_KEY
  else if named "private_key" "CKO_PRIVATE_KEY" then Ok CKO_PRIVATE_KEY
  else if named "secret_key" "CKO_SECRET_KEY" then Ok CKO_SECRET_KEY
  else if named "vendor_defined" "CKO_VENDOR_DEFINED" then Ok CKO_VENDOR_DEFINED
  else match parse_number t with Some n => Ok n | None => Err (UnknownClass t) end.

Definition parse_mechanism (s : string) : Result CkMechanismType PolicyError :=
  let t := trim s in
  match named_mechanism t with
  | Some m => Ok m
  | None => match parse_number t with Some n => Ok n | None => Err (UnknownMechanism t) end
  end.

Definition parse_object_unique_id (hex_decode : string -> option (list N)) (s : string)
  : Result (list N) PolicyError :=
  let t := trim s in
  if bool_decide (t = EmptyString) then Err (InvalidObjectId t)
  else match hex_decode t with Some b => Ok b | None => Err (InvalidObjectId t) end.

(** ** Lemmas *)

Lemma trim_field_padding_idem s : trim_field_padding (trim_field_padding s) = trim_field_padding s.
Proof.
  induction s as [|a s IH]; [done|]. cbn [trim_field_padding].
  destruct (trim_field_padding s) as [|b t] eqn:E.
  - destruct (is_padding a) eqn:Ea; [done|]. cbn [trim_field_padding]. by rewrite Ea.
  - change (match trim_field_padding (String b t) with
            | EmptyString => if is_padding a then EmptyString else String a EmptyString
            | t => String a t end = String a (String b t)). by rewrite IH.
Qed.

Fixpoint all_padding (s : string) : bool :=
  match s with EmptyString => true | String a s => is_padding a && all_padding s end.

Lemma trim_field_padding_all s : all_padding s = true -> trim_field_padding s = EmptyString.
Proof.
  induction s as [|a s IH]; [done|]. cbn [all_padding trim_field_padding]. intros [Ha Hs]%andb_true_iff.
  by rewrite (IH Hs), Ha.
Qed.

Lemma trim_field_padding_app s pad :
  all_padding pad = true -> trim_field_padding (s +:+ pad) = trim_field_padding s.
Proof.
  intros Hp. induction s as [|a s IH]; [by apply trim_field_padding_all|].
  change (String a s +:+ pad) with (String a (s +:+ pad)). cbn [trim_field_padding]. by rewrite IH.
Qed.

(** Trimming never turns a labelled selector into another one: it acts on the
    value alone. *)
Lemma trim_field_padding_prefix p s :
  trim_field_padding s <> EmptyString -> trim_field_padding (p +:+ s) = p +:+ trim_field_padding s.
Proof.
  intros Hs. induction p as [|a p IH]; [done|].
  change (String a p +:+ s) with (String a (p +:+ s)). cbn [trim_field_padding]. rewrite IH.
  change (String a p +:+ trim_field_padding s) with (String a (p +:+ trim_field_padding s)).
  destruct (p +:+ trim_field_padding s) as [|b t] eqn:E; [|done].
  destruct p; [by destruct (trim_field_padding s)|done].
Qed.

(** The written form of a selector. *)
Definition selector_text (s : TokenSelector) : string :=
  match s with Label l => "label:" +:+ l | Serial l => "serial:" +:+ l end.

Definition selector_value (s : TokenSelector) : string :=
  match s with Label l => l | Serial l => l end.

(** A selector written with its prefix parses to the selector with its
    trailing padding removed, whatever its value contains (colons and leading
    spaces included), and then matches exactly the tokens whose field equals
    the value up to trailing spaces and NULs. *)
Theorem selector_roundtrip (s : TokenSelector) (token_label token_serial pad1 pad2 : string) :
  trim_field_padding (selector_value s) <> EmptyString ->
  all_padding pad1 = true -> all_padding pad2 = true ->
  exists s', TokenSelector_parse (selector_text s) = Ok s' /\
    TokenSelector_matches s' (token_label +:+ pad1) (token_serial +:+ pad2) =
    TokenSelector_matches s token_label token_serial /\
    (TokenSelector_matches s' token_label token_serial = true <->
     trim_field_padding (selector_value s) =
     trim_field_padding (match s with Label _ => token_label | Serial _ => token_serial end)).
Proof.
  intros Hv Hp1 Hp2. destruct s as [l|l]; cbn [selector_value selector_text] in *.
  - exists (Label (trim_field_padding l)). split_and!.
    + unfold TokenSelector_parse. rewrite trim_field_padding_prefix by done.
      rewrite bool_decide_false by done. rewrite strip_prefix_app, trim_field_padding_idem.
      by rewrite bool_decide_false.
    + cbn [TokenSelector_matches]. by rewrite trim_field_padding_idem, trim_field_padding_app.
    + cbn [TokenSelector_matches]. rewrite trim_field_padding_idem. apply bool_decide_eq_true.
  - exists (Serial (trim_field_padding l)). split_and!.
    + unfold TokenSelector_parse. rewrite trim_field_padding_prefix by done.
      rewrite bool_decide_false by done.
      change (strip_prefix "label:" ("serial:" +:+ trim_field_padding l)) with (@None string).
      rewrite strip_prefix_app, trim_field_padding_idem. by rewrite bool_decide_false.
    + cbn [TokenSelector_matches]. by rewrite trim_field_padding_idem, trim_field_padding_app.
    + cbn [TokenSelector_matches]. rewrite trim_field_padding_idem. apply bool_decide_eq_true.
Qed.

Lemma selector_roundtrip_witness :
  exists s', TokenSelector_parse (selector_text (Label " a:b ")) = Ok s' /\
    TokenSelector_matches s' (" a:b" +:+ "  ") ("1" +:+ "") = TokenSelector_matches (Label " a:b ") " a:b" "1" /\
    (TokenSelector_matches s' " a:b" "1" = true <-> trim_field_padding " a:b " = trim_field_padding " a:b").
Proof. apply (selector_roundtrip (Label " a:b ") " a:b" "1" "  " ""); [discriminate|reflexivity|reflexivity]. Defined.

(** Every name the parser knows denotes the constant of that name, which is a
    64-bit value; but not every constant is reachable by name. *)
Definition name_agrees (n : string) : bool :=
  match parse_mechanism ("CKM_" +:+ n), mechanism_constant n with
  | Ok a, Some b => bool_decide (a = b) && (b <=? u64_MAX)
  | _, _ => false
  end.

Lemma mechanism_names_agree : forallb name_agrees mechanism_names = true.
Proof. vm_compute. reflexivity. Qed.

(** [parse_mechanism] is documented to accept the [CKM_] name of every
    constant of [CkMechanismType]; the constants added later are refused. *)
Theorem unnamed_mechanism_constants :
  mechanism_constant "ML_DSA" <> None /\ parse_mechanism "CKM_ML_DSA" = Err (UnknownMechanism "CKM_ML_DSA") /\
  length (filter (fun e => e.1 ∉ mechanism_names) mechanism_constants) = 65%nat.
Proof. vm_compute. done. Qed.
