(* ===== verification/Policy.v ===== *)
(** * The token policy

    Models [server/auth/policy.rs]: building the policy from the
    configuration, the deny-by-default token gate [TokenPolicy::allows] with
    its log de-duplication, and the refinements by extract policy, mechanism,
    object class and object.

    The configuration structures of [config.rs] are the inputs of
    [from_config]; [hex_decode] stands for [hex::decode]. *)

From S2P Require Import Prelude Text Context Identity Mech Grant.
Open Scope N_scope.

(** ** Configuration *)

Inductive ObjectAclSpec :=
| ObjectBare (id : string)
| ObjectRich (id : string) (extract : option ExtractPolicy).

Record RichGrantConfig := MkRichGrant {
  rg_token : string;
  rg_classes : option (list string);
  rg_mechanisms : option (list string);
  rg_extract : ExtractPolicy;
  rg_objects : option (list ObjectAclSpec);
}.

Inductive GrantSpec :=
| GrantBare (selector_str : string)
| GrantRich (rich : RichGrantConfig).

Inductive TokenAccessSpec :=
| SpecAll (keyword : string)
| SpecSpecific (grants : list GrantSpec).

Record PolicyEntry := MkPolicyEntry { entry_identity : string; entry_tokens : TokenAccessSpec }.

Record AuthConfig := MkAuthConfig {
  cfg_allow_all_authenticated : bool;
  cfg_policy : list PolicyEntry;
  cfg_anonymous_principal : option string;
}.

(** ** The policy *)

Inductive TokenAccess :=
| AccessAll
| AccessSpecific (grants : list TokenGrant).

Record TokenPolicy := MkTokenPolicy {
  rules : gmap string TokenAccess;
  allow_all_authenticated : bool;
  has_policy : bool;
  anonymous_principal : option string;
  per_object_active_cache : bool;
  per_class_active_cache : bool;
  per_mechanism_active_cache : bool;
}.

Definition TokenPolicy_default : TokenPolicy := MkTokenPolicy ∅ false false None false false false.

(** *** Log de-duplication *)

Definition LOG_DEDUP_CAP : nat := 1024.

Record LogDedupSet := MkLogDedupSet { seen : gset string; order : list string }.

Definition LogDedupSet_new : LogDedupSet := MkLogDedupSet ∅ [].

(** The [while] loop that drops the oldest keys. *)
Fixpoint evict_oldest (cap : nat) (seen : gset string) (order : list string) : LogDedupSet :=
  match order with
  | oldest :: rest =>
      if bool_decide (cap < length order)%nat then evict_oldest cap (seen ∖ {[oldest]}) rest
      else MkLogDedupSet seen order
  | [] => MkLogDedupSet seen order
  end.

Definition LogDedupSet_insert (key : string) (s : LogDedupSet) : bool * LogDedupSet :=
  if bool_decide (key ∈ seen s) then (false, s)
  else (true, evict_oldest LOG_DEDUP_CAP ({[key]} ∪ seen s) (order s ++ [key])).

(** The two process-wide sets [LOGGED_SPKI] and [WARNED_LEGACY]. *)
Record LogState := MkLogState { logged_spki : LogDedupSet; warned_legacy : LogDedupSet }.

(** *** Parsing a configuration *)

Fixpoint collect {A B E} (f : A -> Result B E) (l : list A) : Result (list B) E :=
  match l with
  | [] => Ok []
  | x :: l => let? y := f x in let? ys := collect f l in Ok (y :: ys)
  end.

Definition collect_opt {A B E} (f : A -> Result B E) (o : option (list A)) : Result (option (list B)) E :=
  match o with
  | None => Ok None
  | Some l => let? ys := collect f l in Ok (Some ys)
  end.

Section config.
Context (hex_decode : string -> option (list N)).

Definition parse_object_acl (spec : ObjectAclSpec) : Result ObjectAcl PolicyError :=
  match spec with
  | ObjectBare s => let? uid := parse_object_unique_id hex_decode s in Ok (MkObjectAcl uid None)
  | ObjectRich s ex => let? uid := parse_object_unique_id hex_decode s in Ok (MkObjectAcl uid ex)
  end.

Definition parse_grant (spec : GrantSpec) : Result TokenGrant PolicyError :=
  match spec with
  | GrantBare selector_str =>
      let? sel := TokenSelector_parse selector_str in Ok (TokenGrant_simple sel)
  | GrantRich rich =>
      let? sel := TokenSelector_parse (rg_token rich) in
      let? cls := collect_opt parse_class (rg_classes rich) in
      let? mechs := collect_opt parse_mechanism (rg_mechanisms rich) in
      let? objs := collect_opt parse_object_acl (rg_objects rich) in
      Ok (MkTokenGrant sel cls mechs (rg_extract rich) objs)
  end.

Definition parse_access (spec : TokenAccessSpec) : Result TokenAccess PolicyError :=
  match spec with
  | SpecAll keyword =>
      let keyword := trim keyword in
      if bool_decide (keyword = "all") || bool_decide (keyword = "*") then Ok AccessAll
      else Err (InvalidScalar keyword)
  | SpecSpecific specs => let? grants := collect parse_grant specs in Ok (AccessSpecific grants)
  end.

Fixpoint build_rules (entries : list PolicyEntry) (rules : gmap string TokenAccess)
  : Result (gmap string TokenAccess) PolicyError :=
  match entries with
  | [] => Ok rules
  | entry :: entries =>
      let? access := parse_access (entry_tokens entry) in
      let key := normalize_policy_identity (entry_identity entry) in
      if bool_decide (is_Some (rules !! key)) then Err (DuplicateIdentity (entry_identity entry))
      else build_rules entries (<[key := access]> rules)
  end.

(** [rules.values().any(|access| grants.iter().any(..))]. *)
Definition any_grant (p : TokenGrant -> bool) (rules : gmap string TokenAccess) : bool :=
  map_any (fun _ access =>
    match access with AccessSpecific grants => existsb p grants | AccessAll => false end) rules.

Definition from_config (auth : AuthConfig) : Result TokenPolicy PolicyError :=
  let? rules := build_rules (cfg_policy auth) ∅ in
  Ok {| rules := rules;
        allow_all_authenticated := cfg_allow_all_authenticated auth;
        has_policy := negb (bool_decide (rules = ∅));
        anonymous_principal := cfg_anonymous_principal auth;
        per_object_active_cache := any_grant (fun g => bool_decide (is_Some (objects g))) rules;
        per_class_active_cache := any_grant (fun g => bool_decide (is_Some (classes g))) rules;
        per_mechanism_active_cache := any_grant (fun g => bool_decide (is_Some (mechanisms g))) rules |}.
End config.

(** *** The gate *)

Definition allows_unauthenticated (p : TokenPolicy) : bool :=
  negb (has_policy p) || bool_decide (is_Some (anonymous_principal p)).

Definition audit_identity (stored : option string) (p : TokenPolicy) : option string :=
  if bool_decide (stored = Some "unauthenticated") || bool_decide (stored = None)
  then match anonymous_principal p with Some a => Some a | None => stored end
  else stored.

Definition check_access (access : TokenAccess) (token_label token_serial : string) : bool :=
  match access with
  | AccessAll => true
  | AccessSpecific grants => existsb (fun g => matches_token g token_label token_serial) grants
  end.

Definition spki_key (spki : string) : string := "x509:spki=" +:+ spki.

Definition resolve_access (p : TokenPolicy) (identity : AuthenticatedIdentity) : option TokenAccess :=
  match identity with
  | Unauthenticated => None
  | Mtls _ _ spki =>
      match (if negb (bool_decide (spki = EmptyString)) then rules p !! spki_key spki else None) with
      | Some access => Some access
      | None => key ← legacy_dn_key identity; rules p !! key
      end
  | PeerCred _ => rules p !! to_string identity
  end.

(** [allows]: the token-level decision, and the keys logged on the way. *)
Definition allows (p : TokenPolicy) (identity : AuthenticatedIdentity) (token_label token_serial : string)
    (st : LogState) : bool * LogState :=
  match identity with
  | Unauthenticated => (allows_unauthenticated p, st)
  | _ =>
      if allow_all_authenticated p then (true, st)
      else match identity with
      | Mtls _ _ spki =>
          let st1 := if negb (bool_decide (spki = EmptyString))
                     then MkLogState (LogDedupSet_insert spki (logged_spki st)).2 (warned_legacy st) else st in
          match (if negb (bool_decide (spki = EmptyString)) then rules p !! spki_key spki else None) with
          | Some access => (check_access access token_label token_serial, st1)
          | None =>
              match (key ← legacy_dn_key identity; access ← rules p !! key; Some (key, access)) with
              | Some (key, access) =>
                  (check_access access token_label token_serial,
                   MkLogState (logged_spki st1) (LogDedupSet_insert key (warned_legacy st1)).2)
              | None => (false, st1)
              end
          end
      | _ =>
          (match rules p !! to_string identity with
           | Some AccessAll => true
           | Some (AccessSpecific grants) => existsb (fun g => matches_token g token_label token_serial) grants
           | None => false
           end, st)
      end
  end.

(** *** The refinements, asked after the gate *)

Definition matching (token_label token_serial : string) (grants : list TokenGrant) : list TokenGrant :=
  List.filter (fun g => matches_token g token_label token_serial) grants.

(** The early returns the queries share: [None] is no restriction. *)
Definition restricting (p : TokenPolicy) (identity : AuthenticatedIdentity) : option (list TokenGrant) :=
  match identity with
  | Unauthenticated => None
  | _ =>
      if allow_all_authenticated p then None
      else match resolve_access p identity with
           | None | Some AccessAll => None
           | Some (AccessSpecific grants) => Some grants
           end
  end.

Definition denies_extract (g : TokenGrant) : bool := bool_decide (extract g = DenyExtract).

Definition extract_allowed (p : TokenPolicy) (identity : AuthenticatedIdentity) (token_label token_serial : string)
  : bool :=
  match restricting p identity with
  | None => true
  | Some grants => negb (existsb denies_extract (matching token_label token_serial grants))
  end.

(** The object's overrides in one grant. *)
Definition has_override (v : ExtractPolicy) (unique_id : list N) (g : TokenGrant) : bool :=
  match objects g with
  | Some acls =>
      existsb (fun acl => bool_decide (acl_unique_id acl = unique_id) && bool_decide (acl_extract acl = Some v)) acls
  | None => false
  end.

Definition extract_allowed_for_object (p : TokenPolicy) (identity : AuthenticatedIdentity)
    (token_label token_serial : string) (unique_id : list N) : bool :=
  match restricting p identity with
  | None => true
  | Some grants =>
      match matching token_label token_serial grants with
      | [] => true
      | ms =>
          let has_explicit_deny := existsb (has_override DenyExtract unique_id) ms in
          let has_explicit_allow := existsb (has_override Allow unique_id) ms in
          if has_explicit_deny then false
          else if has_explicit_allow then true
          else negb (existsb denies_extract ms)
      end
  end.

(** A list restriction passes when some matching grant has no list or lists
    the item; no matching grant means no restriction. *)
Definition some_grant_permits (p : TokenPolicy) (identity : AuthenticatedIdentity)
    (token_label token_serial : string) (permits : TokenGrant -> bool) : bool :=
  match restricting p identity with
  | None => true
  | Some grants =>
      match matching token_label token_serial grants with
      | [] => true
      | ms => existsb permits ms
      end
  end.

Definition permits_mechanism (mech : CkMechanismType) (g : TokenGrant) : bool :=
  match mechanisms g with None => true | Some ms => bool_decide (mech ∈ ms) end.
Definition permits_class (cls : CkObjectClass) (g : TokenGrant) : bool :=
  match classes g with None => true | Some cs => bool_decide (cls ∈ cs) end.
Definition permits_object (unique_id : list N) (g : TokenGrant) : bool :=
  match objects g with None => true | Some acls => existsb (fun acl => bool_decide (acl_unique_id acl = unique_id)) acls end.

Definition allows_mechanism p identity token_label token_serial mech : bool :=
  some_grant_permits p identity token_label token_serial (permits_mechanism mech).
Definition allows_class p identity token_label token_serial cls : bool :=
  some_grant_permits p identity token_label token_serial (permits_class cls).
Definition allows_object_use p identity token_label token_serial unique_id : bool :=
  some_grant_permits p identity token_label token_serial (permits_object unique_id).

Definition per_object_active (p : TokenPolicy) : bool := per_object_active_cache p.
Definition per_class_active (p : TokenPolicy) : bool := per_class_active_cache p.
Definition per_mechanism_active (p : TokenPolicy) : bool := per_mechanism_active_cache p.

Definition has_object_extract_override (p : TokenPolicy) (identity : AuthenticatedIdentity)
    (token_label token_serial : string) : bool :=
  match restricting p identity with
  | None => false
  | Some grants =>
      existsb (fun g => match objects g with
                        | Some acls => existsb (fun acl => bool_decide (is_Some (acl_extract acl))) acls
                        | None => false
                        end) (matching token_label token_serial grants)
  end.

(** ** Log de-duplication is bounded and exact *)

Definition dedup_inv (s : LogDedupSet) : Prop :=
  NoDup (order s) /\ seen s = list_to_set (order s) /\ (length (order s) <= LOG_DEDUP_CAP)%nat.

Lemma evict_oldest_drop cap order : forall seen,
  NoDup order -> seen = list_to_set order ->
  let s := evict_oldest cap seen order in
  Policy.order s = drop (length order - cap) order /\
  Policy.seen s = list_to_set (Policy.order s).
Proof.
  induction order as [|o rest IH]; intros seen Hnd Hs; [done|]. cbn [evict_oldest].
  case_bool_decide as Hc.
  - apply NoDup_cons in Hnd as [Ho Hnd].
    destruct (IH (seen ∖ {[o]}) Hnd) as (Hord & Hseen); [subst; set_solver|].
    split; [|done]. rewrite Hord.
    cbn [length] in *. by replace (S (length rest) - cap)%nat with (S (length rest - cap))%nat by lia.
  - cbn. split; [|done]. cbn [length] in *.
    by replace (S (length rest) - cap)%nat with 0%nat by lia.
Qed.

Lemma dedup_insert_inv key s : dedup_inv s -> dedup_inv (LogDedupSet_insert key s).2.
Proof.
  intros (Hnd & Hs & Hl). unfold LogDedupSet_insert. case_bool_decide as Hk; [done|]. cbn [snd].
  assert (NoDup (order s ++ [key])) as Hnd'.
  { apply NoDup_app. split_and!; [done| |apply NoDup_singleton].
    intros x Hx ->%list_elem_of_singleton. apply Hk. rewrite Hs. by apply elem_of_list_to_set. }
  destruct (evict_oldest_drop LOG_DEDUP_CAP (order s ++ [key]) ({[key]} ∪ seen s) Hnd') as (Ho & Hse).
  { rewrite Hs, list_to_set_app_L. set_solver. }
  split_and!.
  - rewrite Ho. eapply sublist_NoDup; [exact Hnd'|apply sublist_drop].
  - done.
  - rewrite Ho, length_drop. lia.
Qed.

(** Whatever the peers, a log set stays within its cap without losing or
    repeating a key; a key is reported new exactly when it is not held, and is
    held afterwards. *)
Theorem log_dedup_bounded (keys : list string) (key : string) :
  let s := foldl (fun s k => (LogDedupSet_insert k s).2) LogDedupSet_new keys in
  dedup_inv s /\
  ((LogDedupSet_insert key s).1 = true <-> key ∉ order s) /\
  key ∈ order (LogDedupSet_insert key s).2.
Proof.
  intros s. assert (dedup_inv s) as Hinv.
  { unfold s. clear. assert (dedup_inv LogDedupSet_new) as H0 by (split_and!; [constructor|done|cbn; lia]).
    revert H0. generalize LogDedupSet_new. induction keys as [|k keys IH]; intros s0 H0; [done|].
    apply IH. by apply dedup_insert_inv. }
  destruct Hinv as (Hnd & Hs & Hl). split; [done|].
  assert (key ∈ seen s <-> key ∈ order s) as Hk by (rewrite Hs; apply elem_of_list_to_set).
  unfold LogDedupSet_insert. case_bool_decide as Hb; cbn [fst snd].
  - split; [|by apply Hk]. split; [done|]. intros Hn. by rewrite <- Hk in Hn.
  - split; [split; [by rewrite <- Hk|done]|].
    destruct (evict_oldest_drop LOG_DEDUP_CAP (order s ++ [key]) ({[key]} ∪ seen s)) as (Ho & _).
    + apply NoDup_app. split_and!; [done| |apply NoDup_singleton].
      intros x Hx ->%list_elem_of_singleton. by rewrite <- Hk in Hx.
    + rewrite Hs, list_to_set_app_L. set_solver.
    + rewrite Ho, length_app. cbn [length]. unfold LOG_DEDUP_CAP in *.
      rewrite drop_app_le by lia. set_solver.
Qed.

(** ** Building the policy *)

Section build.
Context (hex_decode : string -> option (list N)).

Definition entry_key (e : PolicyEntry) : string := normalize_policy_identity (entry_identity e).

(** The entry the policy stores for a key. *)
Definition entry_for (entries : list PolicyEntry) (key : string) (access : TokenAccess) : Prop :=
  exists e, e ∈ entries /\ entry_key e = key /\ parse_access hex_decode (entry_tokens e) = Ok access.

Lemma build_rules_Ok entries : forall r r',
  build_rules hex_decode entries r = Ok r' ->
  (forall k a, r' !! k = Some a <-> r !! k = Some a \/ entry_for entries k a) /\
  NoDup (entry_key <$> entries) /\ (forall e, e ∈ entries -> r !! entry_key e = None) /\
  (forall e, e ∈ entries -> exists a, parse_access hex_decode (entry_tokens e) = Ok a).
Proof.
  induction entries as [|e entries IH]; intros r r'; cbn [build_rules].
  - intros [= <-]. split_and!; [|constructor|set_solver|set_solver].
    intros k a. split; [by left|]. intros [?|(e & He & _)]; [done|set_solver].
  - destruct (parse_access hex_decode (entry_tokens e)) as [acc|] eqn:Ep; [|done].
    case_bool_decide as Hd; [done|]. fold (entry_key e) in *.
    assert (r !! entry_key e = None) as Hn by (by apply eq_None_not_Some).
    intros (Hr & Hnd & Hdis & Hpa)%IH. split_and!.
    + intros k a. rewrite Hr. rewrite lookup_insert. case_decide as Hk.
      * subst k. split.
        -- intros [[= <-]|(e' & He' & Hke & Hp)].
           ++ right. exists e. set_solver.
           ++ right. exists e'. set_solver.
        -- rewrite Hn. intros [?|(e' & [->|He']%elem_of_cons & Hke & Hp)]; [done|left; congruence|right].
           by exists e'.
      * split.
        -- intros [?|(e' & He' & Hke & Hp)]; [by left|right; exists e'; set_solver].
        -- intros [?|(e' & [->|He']%elem_of_cons & Hke & Hp)]; [by left|done|right; by exists e'].
    + rewrite fmap_cons. apply NoDup_cons. split; [|done].
      intros (e' & He' & Hin)%list_elem_of_fmap. pose proof (Hdis e' Hin) as Hx.
      rewrite <- He', lookup_insert_eq in Hx. done.
    + intros e' [->|Hin]%elem_of_cons; [done|]. pose proof (Hdis e' Hin) as Hx.
      rewrite lookup_insert in Hx. case_decide; [done|done].
    + intros e' [->|Hin]%elem_of_cons; [by exists acc|by apply Hpa].
Qed.

Lemma build_rules_succeeds entries : forall r,
  NoDup (entry_key <$> entries) -> (forall e, e ∈ entries -> r !! entry_key e = None) ->
  (forall e, e ∈ entries -> exists a, parse_access hex_decode (entry_tokens e) = Ok a) ->
  exists r', build_rules hex_decode entries r = Ok r'.
Proof.
  induction entries as [|e entries IH]; intros r Hnd Hdis Hpa; [by eexists|]. cbn [build_rules].
  destruct (Hpa e ltac:(set_solver)) as [a ->]. fold (entry_key e).
  rewrite bool_decide_false by (rewrite (Hdis e ltac:(set_solver)); by intros []).
  rewrite fmap_cons in Hnd. apply NoDup_cons in Hnd as [Hk Hnd]. apply IH; [done| |set_solver].
  intros e' He'. rewrite lookup_insert_ne; [apply Hdis; set_solver|]. intros Heq. apply Hk.
  rewrite Heq. by apply list_elem_of_fmap_2.
Qed.

Definition some_grant (p : TokenGrant -> Prop) (pol : TokenPolicy) : Prop :=
  exists key grants g, rules pol !! key = Some (AccessSpecific grants) /\ g ∈ grants /\ p g.

Lemma any_grant_true (q : TokenGrant -> bool) r :
  any_grant q r = true <-> exists key grants g, r !! key = Some (AccessSpecific grants) /\ g ∈ grants /\ q g = true.
Proof.
  unfold any_grant. rewrite map_any_true. split.
  - intros (k & [|grants] & Hk & Hq); [done|]. apply existsb_exists in Hq as (g & Hg%list_elem_of_In & Hq). eauto 10.
  - intros (k & grants & g & Hk & Hg & Hq). exists k, (AccessSpecific grants). split; [done|].
    apply existsb_exists. exists g. split; [by apply list_elem_of_In|done].
Qed.

Lemma cache_exact (q : TokenGrant -> Prop) `{!forall g, Decision (q g)} r :
  any_grant (fun g => bool_decide (q g)) r = true <->
  exists key grants g, r !! key = Some (AccessSpecific grants) /\ g ∈ grants /\ q g.
Proof.
  rewrite any_grant_true. split; intros (k & gs & g & Hk & Hg & Hq); exists k, gs, g.
  - by apply bool_decide_eq_true in Hq.
  - by rewrite bool_decide_eq_true.
Qed.

(** The configuration is refused exactly when two entries name the same
    identity (up to the spelling of a uid) or some entry does not parse.  An
    accepted one becomes the rule table that holds exactly its entries, and
    the three cached flags say exactly whether some grant restricts objects,
    classes or mechanisms. *)
Theorem from_config_exact (auth : AuthConfig) :
  ((exists p, from_config hex_decode auth = Ok p) <->
   NoDup (entry_key <$> cfg_policy auth) /\
   forall e, e ∈ cfg_policy auth -> exists a, parse_access hex_decode (entry_tokens e) = Ok a) /\
  (forall p, from_config hex_decode auth = Ok p ->
   (forall key access, rules p !! key = Some access <-> entry_for (cfg_policy auth) key access) /\
   (has_policy p = true <-> cfg_policy auth <> []) /\
   (per_object_active p = true <-> some_grant (fun g => is_Some (objects g)) p) /\
   (per_class_active p = true <-> some_grant (fun g => is_Some (classes g)) p) /\
   (per_mechanism_active p = true <-> some_grant (fun g => is_Some (mechanisms g)) p)).
Proof.
  unfold from_config. split; [split|].
  - intros [p Hp]. destruct (build_rules hex_decode (cfg_policy auth) ∅) as [r|] eqn:Eb; [|done].
    by apply build_rules_Ok in Eb as (_ & ? & _ & ?).
  - intros [Hnd Hpa]. destruct (build_rules_succeeds (cfg_policy auth) ∅ Hnd) as [r ->]; [|done|by eexists].
    intros e _. apply lookup_empty.
  - intros p. destruct (build_rules hex_decode (cfg_policy auth) ∅) as [r|] eqn:Eb; [|done].
    intros [= <-]. apply build_rules_Ok in Eb as (Hr & _ & _ & Hpa). unfold some_grant. cbn. split_and!.
    + intros key access. rewrite Hr, lookup_empty. naive_solver.
    + rewrite negb_true_iff, bool_decide_eq_false. split.
      * intros Hne Hnil. apply Hne. apply map_eq. intros k. rewrite lookup_empty. apply eq_None_not_Some.
        intros [a Ha]. apply Hr in Ha as [Ha|(e & He & _)]; [by rewrite lookup_empty in Ha|].
        rewrite Hnil in He. set_solver.
      * intros Hne ->. destruct (cfg_policy auth) as [|e es]; [done|].
        destruct (Hpa e ltac:(set_solver)) as [a Ha].
        assert ((∅ : gmap string TokenAccess) !! entry_key e = Some a) as Hx.
        { apply Hr. right. exists e. set_solver. }
        by rewrite lookup_empty in Hx.
    + apply cache_exact.
    + apply cache_exact.
    + apply cache_exact.
Qed.
End build.

(** ** The gate *)

(** The keys an identity is looked up under, in order: the key fingerprint
    before the DN. *)
Definition lookup_keys (i : AuthenticatedIdentity) : list string :=
  match i with
  | Unauthenticated => []
  | PeerCred _ => [to_string i]
  | Mtls _ _ spki =>
      (if bool_decide (spki = EmptyString) then [] else [spki_key spki])
      ++ match legacy_dn_key i with Some k => [k] | None => [] end
  end.

Lemma resolve_access_keys p i : resolve_access p i = find_map (fun k => rules p !! k) (lookup_keys i).
Proof.
  destruct i as [uid|issuer subject spki|]; cbn [resolve_access lookup_keys find_map]; [by destruct (_ !! _)| |done].
  case_bool_decide; cbn [negb find_map app].
  - destruct (legacy_dn_key _) as [k|]; [|done]. cbn. by destruct (_ !! _).
  - destruct (rules p !! spki_key spki); [done|].
    destruct (legacy_dn_key _) as [k|]; [|done]. cbn. by destruct (_ !! _).
Qed.

Definition covers (access : TokenAccess) (token_label token_serial : string) : Prop :=
  access = AccessAll \/
  exists grants g, access = AccessSpecific grants /\ g ∈ grants /\ matches_token g token_label token_serial = true.

Lemma check_access_true access l s : check_access access l s = true <-> covers access l s.
Proof.
  destruct access as [|grants]; cbn [check_access]; [split; [by left|done]|].
  rewrite existsb_exists. split.
  - intros (g & Hg%list_elem_of_In & Hm). right. eauto.
  - intros [|(gs & g & [= <-] & Hg & Hm)]; [done|]. exists g. split; [by apply list_elem_of_In|done].
Qed.

(** The logging gate decides as the side-effect-free lookup of the queries. *)
Lemma allows_resolve p i l s st :
  i <> Unauthenticated ->
  (allows p i l s st).1 = allow_all_authenticated p ||
    match resolve_access p i with Some access => check_access access l s | None => false end.
Proof.
  intros Hi. destruct i as [uid|issuer subject spki|]; [| |done]; cbn [allows].
  - destruct (allow_all_authenticated p); [done|]. cbn [resolve_access orb fst].
    by destruct (rules p !! to_string (PeerCred uid)) as [[]|].
  - destruct (allow_all_authenticated p); [done|]. cbn [resolve_access orb].
    case_bool_decide; cbn [negb].
    + destruct (legacy_dn_key _) as [k|]; [|done]. cbn. by destruct (rules p !! k).
    + destruct (rules p !! spki_key spki); [done|]. destruct (legacy_dn_key _) as [k|]; [|done]. cbn.
      by destruct (rules p !! k).
Qed.

Lemma find_map_split {A B} (f : A -> option B) l y :
  find_map f l = Some y <-> exists pre x post, l = pre ++ x :: post /\ f x = Some y /\ forall z, z ∈ pre -> f z = None.
Proof.
  induction l as [|a l IH]; cbn [find_map].
  - split; [done|]. by intros ([] & x & post & Hl & _).
  - destruct (f a) as [b|] eqn:Ea.
    + split.
      * intros [= ->]. exists [], a, l. set_solver.
      * intros ([|c pre] & x & post & Hl & Hx & Hpre); injection Hl as -> ->; [congruence|].
        by rewrite (Hpre c ltac:(set_solver)) in Ea.
    + rewrite IH. split.
      * intros (pre & x & post & -> & Hx & Hpre). exists (a :: pre), x, post. split_and!; [done|done|set_solver].
      * intros ([|c pre] & x & post & Hl & Hx & Hpre); injection Hl as -> ->; [congruence|].
        exists pre, x, post. split_and!; [done|done|set_solver].
Qed.

(** C4: Deny by default: with a policy built from a configuration, an
    unauthenticated peer passes only when no policy entry exists or an
    anonymous principal is named, and an authenticated peer passes exactly
    when everyone authenticated is allowed or the first of its keys that has
    an entry has one covering the token.  An entry for the key fingerprint
    shadows one for the DN. *)
Theorem token_gate_exact (hex_decode : string -> option (list N)) (auth : AuthConfig) (p : TokenPolicy)
    (i : AuthenticatedIdentity) (token_label token_serial : string) (st : LogState) :
  from_config hex_decode auth = Ok p ->
  (allows p i token_label token_serial st).1 = true <->
  match i with
  | Unauthenticated => cfg_policy auth = [] \/ is_Some (cfg_anonymous_principal auth)
  | _ =>
      cfg_allow_all_authenticated auth = true \/
      exists pre key post access, lookup_keys i = pre ++ key :: post /\
        entry_for hex_decode (cfg_policy auth) key access /\ covers access token_label token_serial /\
        forall k a, k ∈ pre -> ~ entry_for hex_decode (cfg_policy auth) k a
  end.
Proof.
  intros Hp. unfold from_config in Hp. destruct (build_rules hex_decode (cfg_policy auth) ∅) as [r|] eqn:Eb; [|done].
  injection Hp as <-. apply build_rules_Ok in Eb as (Hr & _ & _ & Hpa).
  assert (forall k a, r !! k = Some a <-> entry_for hex_decode (cfg_policy auth) k a) as He.
  { intros k a. rewrite Hr, lookup_empty. naive_solver. }
  destruct (decide (i = Unauthenticated)) as [->|Hi].
  - cbn [allows fst]. unfold allows_unauthenticated. cbn. rewrite negb_involutive, orb_true_iff, !bool_decide_eq_true.
    enough (r = ∅ <-> cfg_policy auth = []) as -> by done. split.
    + intros ->. destruct (cfg_policy auth) as [|e es]; [done|]. destruct (Hpa e ltac:(set_solver)) as [a Ha].
      assert ((∅ : gmap string TokenAccess) !! entry_key e = Some a) as Hx by (apply He; exists e; set_solver).
      by rewrite lookup_empty in Hx.
    + intros Hnil. apply map_eq. intros k. rewrite lookup_empty. apply eq_None_not_Some. intros [a Ha].
      apply He in Ha as (e & Hin & _). rewrite Hnil in Hin. set_solver.
  - rewrite allows_resolve, orb_true_iff by done. cbn [allow_all_authenticated].
    rewrite resolve_access_keys. cbn [rules].
    assert (match find_map (fun k => r !! k) (lookup_keys i) with
            | Some access => check_access access token_label token_serial | None => false end = true <->
      exists pre key post access, lookup_keys i = pre ++ key :: post /\
        entry_for hex_decode (cfg_policy auth) key access /\ covers access token_label token_serial /\
        forall k a, k ∈ pre -> ~ entry_for hex_decode (cfg_policy auth) k a) as Hiff.
    { split.
      - destruct (find_map _ _) as [access|] eqn:Ef; [|done]. intros Hc%check_access_true.
        apply find_map_split in Ef as (pre & key & post & Hl & Hk & Hpre).
        exists pre, key, post, access. split_and!; [done|by apply He|done|].
        intros k a Hin Ha%He. by rewrite (Hpre k Hin) in Ha.
      - intros (pre & key & post & access & Hl & Hk%He & Hc & Hpre).
        assert (find_map (fun k => r !! k) (lookup_keys i) = Some access) as ->; [|by apply check_access_true].
        apply find_map_split. exists pre, key, post. split_and!; [done|done|].
        intros k Hin. apply eq_None_not_Some. intros [a Ha%He]. by apply (Hpre k a Hin). }
    rewrite Hiff. by destruct i.
Qed.

Definition demo_auth : AuthConfig :=
  MkAuthConfig false [MkPolicyEntry "uid=01000" (SpecSpecific [GrantBare "label:Audit"]);
                      MkPolicyEntry "x509:spki=ab" (SpecAll "all")] None.

Definition demo_policy : TokenPolicy :=
  match from_config (fun _ => None) demo_auth with Ok p => p | Err _ => TokenPolicy_default end.

Definition demo_logs : LogState := MkLogState LogDedupSet_new LogDedupSet_new.

Lemma token_gate_exact_witness :
  exists pre key post access, lookup_keys (PeerCred 1000) = pre ++ key :: post /\
    entry_for (fun _ => None) (cfg_policy demo_auth) key access /\ covers access "Audit  " "1" /\
    forall k a, k ∈ pre -> ~ entry_for (fun _ => None) (cfg_policy demo_auth) k a.
Proof.
  destruct (proj1 (token_gate_exact (fun _ => None) demo_auth demo_policy (PeerCred 1000) "Audit  " "1" demo_logs eq_refl))
    as [H|H]; [vm_compute; reflexivity|discriminate H|exact H].
Defined.

(** The configuration accepts an mTLS identity in its enriched form, the form
    the daemon itself prints for a fresh peer, but no lookup ever uses that
    key: the entry grants nothing, to that very peer included. *)
Theorem enriched_policy_entry_is_dead :
  let i := Mtls "CN=CA" "CN=client" "ab12" in
  let auth := MkAuthConfig false [MkPolicyEntry (to_string i) (SpecAll "all")] None in
  can_produce SourceMtls (to_string i) = true /\
  exists p, from_config (fun _ => None) auth = Ok p /\ (allows p i "Audit" "1" demo_logs).1 = false.
Proof. split; [vm_compute; reflexivity|]. eexists. split; vm_compute; reflexivity. Qed.

(** ** The refinements *)

Lemma matching_elem l s grants g : g ∈ matching l s grants <-> g ∈ grants /\ matches_token g l s = true.
Proof. unfold matching. rewrite !list_elem_of_In. apply filter_In. Qed.

Lemma restricting_rule p i grants :
  restricting p i = Some grants -> exists key, key ∈ lookup_keys i /\ rules p !! key = Some (AccessSpecific grants).
Proof.
  unfold restricting. intros H. assert (resolve_access p i = Some (AccessSpecific grants)) as Hr.
  { destruct i; [..|done]; destruct (allow_all_authenticated p); try done;
      destruct (resolve_access p _) as [[]|]; congruence. }
  rewrite resolve_access_keys in Hr. apply find_map_Some in Hr as (k & Hk & Hr). eauto.
Qed.

(** When no grant has the list a layer restricts by, the layer never denies. *)
Lemma some_grant_permits_inactive p i l s permits :
  (forall key grants g, rules p !! key = Some (AccessSpecific grants) -> g ∈ grants -> permits g = true) ->
  some_grant_permits p i l s permits = true.
Proof.
  intros Hp. unfold some_grant_permits. destruct (restricting p i) as [grants|] eqn:Er; [|done].
  apply restricting_rule in Er as (k & _ & Hk).
  destruct (matching l s grants) as [|g ms] eqn:Em; [done|]. cbn [existsb].
  rewrite (Hp k grants g Hk); [done|]. eapply (matching_elem l s). rewrite Em. set_solver.
Qed.

Lemma some_grant_permits_true p i l s permits grants g :
  restricting p i = Some grants -> g ∈ grants -> matches_token g l s = true -> permits g = true ->
  some_grant_permits p i l s permits = true.
Proof.
  intros Hr Hg Hm Hp. unfold some_grant_permits. rewrite Hr.
  assert (g ∈ matching l s grants) as Hin by (by apply matching_elem).
  destruct (matching l s grants) as [|g' ms]; [done|]. apply existsb_exists. exists g.
  split; [by apply list_elem_of_In|done].
Qed.

(** A list restriction denies exactly when grants match the token and none of
    them is unrestricted or lists the item. *)
Lemma some_grant_permits_false p i l s permits :
  some_grant_permits p i l s permits = false <->
  exists grants, restricting p i = Some grants /\ (exists g, g ∈ matching l s grants) /\
    forall g, g ∈ matching l s grants -> permits g = false.
Proof.
  unfold some_grant_permits. destruct (restricting p i) as [grants|]; [|split; [done|by intros (? & ? & _)]].
  split.
  - destruct (matching l s grants) as [|g ms] eqn:Em; [done|]. intros Hx. exists grants. split; [done|].
    rewrite Em. split; [exists g; set_solver|]. intros g' Hg'. apply not_true_iff_false. intros Hp.
    apply not_true_iff_false in Hx. apply Hx, existsb_exists. exists g'. split; [by apply list_elem_of_In|done].
  - intros (gs & [= <-] & [g Hg] & Hall). destruct (matching l s grants) as [|g' ms]; [set_solver|].
    apply not_true_iff_false. intros (x & Hx%list_elem_of_In & Hp)%existsb_exists.
    by rewrite (Hall x Hx) in Hp.
Qed.

Lemma has_override_none p i l s v uid grants :
  has_object_extract_override p i l s = false -> restricting p i = Some grants ->
  existsb (has_override v uid) (matching l s grants) = false.
Proof.
  unfold has_object_extract_override. intros H Hr. rewrite Hr in H. apply not_true_iff_false.
  intros (g & Hg & Ho)%existsb_exists. apply not_true_iff_false in H. apply H, existsb_exists.
  exists g. split; [done|]. unfold has_override in Ho. destruct (objects g) as [acls|]; [|done].
  apply existsb_exists in Ho as (acl & Hacl & [_ Hv%bool_decide_eq_true]%andb_true_iff).
  apply existsb_exists. exists acl. split; [done|]. apply bool_decide_eq_true. rewrite Hv. eauto.
Qed.

(** Without a per-object override the per-object extract decision is the
    grant-level one, whatever the object. *)
Lemma extract_without_override p i l s uid :
  has_object_extract_override p i l s = false ->
  extract_allowed_for_object p i l s uid = extract_allowed p i l s.
Proof.
  intros H. unfold extract_allowed_for_object, extract_allowed.
  destruct (restricting p i) as [grants|] eqn:Er; [|done].
  pose proof (has_override_none p i l s DenyExtract uid grants H Er) as Hd.
  pose proof (has_override_none p i l s Allow uid grants H Er) as Ha.
  destruct (matching l s grants) as [|g ms]; [done|]. by rewrite Hd, Ha.
Qed.

(** A flag computed by [from_config] is off only if no grant has the list. *)
Lemma any_grant_false (f : TokenGrant -> bool) r key grants g :
  any_grant f r = false -> r !! key = Some (AccessSpecific grants) -> g ∈ grants -> f g = false.
Proof.
  intros Hf Hk Hg. apply not_true_iff_false. intros Ht. apply not_true_iff_false in Hf.
  apply Hf, any_grant_true. eauto 10.
Qed.

Section inactive.
Context (hex_decode : string -> option (list N)) (auth : AuthConfig) (p : TokenPolicy).
Context (Hp : from_config hex_decode auth = Ok p).

Lemma active_flags :
  per_object_active p = any_grant (fun g => bool_decide (is_Some (objects g))) (rules p) /\
  per_class_active p = any_grant (fun g => bool_decide (is_Some (classes g))) (rules p) /\
  per_mechanism_active p = any_grant (fun g => bool_decide (is_Some (mechanisms g))) (rules p).
Proof using Hp.
  unfold from_config in Hp. destruct (build_rules _ _ _) as [r|]; [|done]. by injection Hp as <-.
Qed.

Lemma inactive_override i l s : per_object_active p = false -> has_object_extract_override p i l s = false.
Proof using Hp.
  intros Ho. rewrite (proj1 active_flags) in Ho. unfold has_object_extract_override.
  destruct (restricting p i) as [grants|] eqn:Er; [|done].
  apply restricting_rule in Er as (k & _ & Hk). apply not_true_iff_false.
  intros (g & Hg%list_elem_of_In%matching_elem & Ht)%existsb_exists.
  pose proof (any_grant_false _ _ _ _ _ Ho Hk (proj1 Hg)) as Hf. apply bool_decide_eq_false in Hf.
  destruct (objects g); [by destruct Hf|done].
Qed.

Lemma inactive_object i l s uid : per_object_active p = false -> allows_object_use p i l s uid = true.
Proof using Hp.
  intros Ho. rewrite (proj1 active_flags) in Ho. apply some_grant_permits_inactive. intros key grants g Hk Hg.
  pose proof (any_grant_false _ _ _ _ _ Ho Hk Hg) as Hf. apply bool_decide_eq_false in Hf.
  unfold permits_object. destruct (objects g); [by destruct Hf|done].
Qed.

Lemma inactive_class i l s cls : per_class_active p = false -> allows_class p i l s cls = true.
Proof using Hp.
  intros Ho. rewrite (proj1 (proj2 active_flags)) in Ho. apply some_grant_permits_inactive. intros key grants g Hk Hg.
  pose proof (any_grant_false _ _ _ _ _ Ho Hk Hg) as Hf. apply bool_decide_eq_false in Hf.
  unfold permits_class. destruct (classes g); [by destruct Hf|done].
Qed.

Lemma inactive_mechanism i l s mech : per_mechanism_active p = false -> allows_mechanism p i l s mech = true.
Proof using Hp.
  intros Ho. rewrite (proj2 (proj2 active_flags)) in Ho. apply some_grant_permits_inactive. intros key grants g Hk Hg.
  pose proof (any_grant_false _ _ _ _ _ Ho Hk Hg) as Hf. apply bool_decide_eq_false in Hf.
  unfold permits_mechanism. destruct (mechanisms g); [by destruct Hf|done].
Qed.
End inactive.

(** Skipping an inactive layer changes no decision: when the cached flag is
    off, the per-object, per-class and per-mechanism queries all answer yes
    and the per-object extract decision is the grant-level one. *)
Theorem inactive_layers_transparent (hex_decode : string -> option (list N)) (auth : AuthConfig) (p : TokenPolicy)
    (i : AuthenticatedIdentity) (l s : string) :
  from_config hex_decode auth = Ok p ->
  (per_object_active p = false -> forall uid,
     allows_object_use p i l s uid = true /\ has_object_extract_override p i l s = false /\
     extract_allowed_for_object p i l s uid = extract_allowed p i l s) /\
  (per_class_active p = false -> forall cls, allows_class p i l s cls = true) /\
  (per_mechanism_active p = false -> forall mech, allows_mechanism p i l s mech = true).
Proof.
  intros Hp. split_and!.
  - intros Ho uid. pose proof (inactive_override _ _ _ Hp i l s Ho) as Hov. split_and!; [|done|].
    + by eapply inactive_object.
    + by apply extract_without_override.
  - intros Hc cls. by eapply inactive_class.
  - intros Hm mech. by eapply inactive_mechanism.
Qed.

Lemma inactive_layers_transparent_witness :
  allows_object_use demo_policy (PeerCred 1000) "Audit" "1" [1] = true /\
  allows_class demo_policy (PeerCred 1000) "Audit" "1" CKO_SECRET_KEY = true.
Proof.
  destruct (inactive_layers_transparent (fun _ => None) demo_auth demo_policy (PeerCred 1000) "Audit" "1" eq_refl)
    as (Ho & Hc & _).
  split; [exact (proj1 (Ho eq_refl [1]))|exact (Hc eq_refl CKO_SECRET_KEY)].
Defined.

(** Some matching grant lists the object with this override. *)
Definition overridden (v : ExtractPolicy) (uid : list N) (ms : list TokenGrant) : Prop :=
  exists g acls acl, g ∈ ms /\ objects g = Some acls /\ acl ∈ acls /\ acl_unique_id acl = uid /\ acl_extract acl = Some v.

Lemma existsb_override v uid ms : existsb (has_override v uid) ms = true <-> overridden v uid ms.
Proof.
  rewrite existsb_exists. unfold has_override. split.
  - intros (g & Hg%list_elem_of_In & Ho). destruct (objects g) as [acls|] eqn:Eo; [|done].
    apply existsb_exists in Ho as (acl & Ha%list_elem_of_In & [Hu%bool_decide_eq_true Hv%bool_decide_eq_true]%andb_true_iff).
    by exists g, acls, acl.
  - intros (g & acls & acl & Hg & Ho & Ha & Hu & Hv). exists g. split; [by apply list_elem_of_In|]. rewrite Ho.
    apply existsb_exists. exists acl. split; [by apply list_elem_of_In|].
    by rewrite !bool_decide_true.
Qed.

Lemma existsb_denies l s grants :
  existsb denies_extract (matching l s grants) = true <->
  exists g, g ∈ grants /\ matches_token g l s = true /\ extract g = DenyExtract.
Proof.
  rewrite existsb_exists. unfold denies_extract. split.
  - intros (g & [Hg Hm]%list_elem_of_In%matching_elem & He%bool_decide_eq_true). eauto.
  - intros (g & Hg & Hm & He). exists g. rewrite bool_decide_true by done.
    split; [by apply list_elem_of_In, matching_elem|done].
Qed.

(** Extraction of an object is denied exactly when some matching grant denies
    it for that object, or, with no grant allowing it for that object, some
    matching grant denies extraction on the token: an explicit deny beats an
    explicit allow, which beats the grant default. *)
Theorem extract_decision_exact (p : TokenPolicy) (i : AuthenticatedIdentity) (l s : string) (uid : list N) :
  extract_allowed_for_object p i l s uid = false <->
  exists grants, restricting p i = Some grants /\
    (overridden DenyExtract uid (matching l s grants) \/
     ~ overridden Allow uid (matching l s grants) /\
     exists g, g ∈ grants /\ matches_token g l s = true /\ extract g = DenyExtract).
Proof.
  unfold extract_allowed_for_object. destruct (restricting p i) as [grants|]; [|split; [done|by intros (? & ? & _)]].
  set (ms := matching l s grants).
  transitivity (existsb (has_override DenyExtract uid) ms = true \/
    existsb (has_override Allow uid) ms <> true /\ existsb denies_extract ms = true).
  - destruct ms as [|g ms']; [split; [done|by intros [H|[_ H]]]|]; cbv zeta.
    generalize (g :: ms'). intros ms.
    destruct (existsb (has_override DenyExtract uid) ms); [split; [eauto|done]|].
    destruct (existsb (has_override Allow uid) ms); [split; [done|by intros [H|[H _]]]|].
    rewrite negb_false_iff. split; [eauto|by intros [H|[_ H]]].
  - rewrite !existsb_override, (existsb_denies l s grants : existsb denies_extract ms = true <-> _). split.
    + intros H. by exists grants.
    + by intros (gs & [= <-] & H).
Qed.
