(* ===== verification/Handler.v ===== *)
(** * A monad for request handlers

    A gRPC handler is a sequence of critical sections on the context manager
    and of backend calls.  Other tasks run between any two of them, and the
    backend answers as it likes.  Both are the environment: a step-indexed
    sequence, read one entry per critical section or call, of what the other
    tasks do just before, the clock, and the backend's answer.  A handler
    runs to completion in every environment. *)

From S2P Require Import Prelude Ck HandleMap SlotMap Connection Context Manager Teardown Policy.
Open Scope N_scope.

(** ** Attribute values *)

Inductive CkAttributeValue :=
| AvBool (b : bool)
| AvUlong (u : N)
| AvBytes (bytes : SecretBytes)
| AvString (bytes : SecretBytes)
| AvNestedTemplate (sub : list (CkAttributeType * option CkAttributeValue)).

Abbreviation CkAttribute := (CkAttributeType * option CkAttributeValue)%type.

(** ** Environments *)

(** The backend queries of the authorization code, all read-only. *)
Inductive ReadCall :=
| GetTokenInfo (slot : BackendSlotId)
| GetAttributeValue (session : CkSessionHandle) (object : CkObjectHandle) (types : list CkAttributeType).

(** One entry of the environment: the clock, what the other tasks do to the
    manager, and, for the construct that reads it, the answer to a token or
    attribute query, which depends on what is asked about ([None] is a
    transport error; attribute answers list the template's values after the
    call), whether a bounded lock acquisition succeeded, the reply to a
    session call, and the oracle and outcome of a last-holder logout. *)
Record EnvStep := MkEnvStep {
  es_now : N;
  es_others : ContextManager -> ContextManager;
  es_token_info : BackendSlotId -> option (CkResult (string * string));
  es_attributes : CkSessionHandle -> CkObjectHandle -> list CkAttributeType -> option (CkResult (list (option CkAttributeValue)));
  es_lock : bool;
  es_reply : Reply;
  es_oracle : Oracle;
  es_logout : LogoutEnv;
}.

Definition Env : Type := nat -> EnvStep.

(** The manager and the log sets, the step the environment is at, the calls
    made, and, for the statements, the manager as every step found it. *)
Record World := MkWorld {
  w_mgr : ContextManager;
  w_logs : LogState;
  w_step : nat;
  w_calls : list ReadCall;
  w_trace : list BackendCall;
  w_seen : list (nat * ContextManager);
}.
#[export] Instance World_eta : Eta World := fun w =>
  MkWorld (w_mgr w) (w_logs w) (w_step w) (w_calls w) (w_trace w) (w_seen w).

Definition Handler (A : Type) : Type := Env -> World -> A * World.

Definition ret {A} (a : A) : Handler A := fun _ w => (a, w).

Definition bind {A B} (h : Handler A) (k : A -> Handler B) : Handler B := fun env w =>
  let '(a, w) := h env w in k a env w.

Declare Scope handler_scope.
Delimit Scope handler_scope with handler.
Notation "x <- h ;; k" := (bind h (fun x => k))
  (at level 100, h at next level, k at level 200, right associativity) : handler_scope.
Notation "h ;;; k" := (bind h (fun _ => k))
  (at level 100, k at level 200, right associativity) : handler_scope.
Open Scope handler_scope.

(** The other tasks go first; then the step finds the manager as they left it. *)
Definition advance (env : Env) (w : World) : World :=
  let m := es_others (env (w_step w)) (w_mgr w) in
  w <| w_mgr := m |> <| w_step ::= S |> <| w_seen ::= fun l => l ++ [(w_step w, m)] |>.

(** A critical section on the manager. *)
Definition critical {A} (f : N -> ContextManager -> A * ContextManager) : Handler A := fun env w =>
  let e := env (w_step w) in
  let '(a, m) := f (es_now e) (es_others e (w_mgr w)) in
  (a, advance env w <| w_mgr := m |>).

(** A critical section that reads. *)
Definition read {A} (f : N -> ContextManager -> A) : Handler A := critical (fun now m => (f now m, m)).

(** The process-wide log sets have their own mutexes. *)
Definition with_logs {A} (f : LogState -> A * LogState) : Handler A := fun _ w =>
  let '(a, l) := f (w_logs w) in (a, w <| w_logs := l |>).

(** A backend call: recorded, then answered; the other tasks run meanwhile. *)
Definition backend_call {A} (c : ReadCall) (answer : EnvStep -> A) : Handler A := fun env w =>
  let e := env (w_step w) in
  (answer e, advance env w <| w_calls ::= fun l => l ++ [c] |>).

Definition query_token_info (slot : BackendSlotId) : Handler (option (CkResult (string * string))) :=
  backend_call (GetTokenInfo slot) (fun e => es_token_info e slot).

Definition query_attributes (session : CkSessionHandle) (object : CkObjectHandle) (types : list CkAttributeType)
  : Handler (option (CkResult (list (option CkAttributeValue)))) :=
  backend_call (GetAttributeValue session object types) (fun e => es_attributes e session object types).

(** A session call through [spawn_backend]: a refused one never reaches the
    backend. *)
Definition session_call (c : BackendCall) : Handler Reply := fun env w =>
  let e := env (w_step w) in
  (es_reply e, advance env w <| w_trace ::= fun l => match es_reply e with Refused => l | _ => l ++ [c] end |>).

(** A bounded lock acquisition. *)
Definition acquire : Handler bool := fun env w =>
  (es_lock (env (w_step w)), advance env w).

(** A multi-call teardown step on the manager and the trace. *)
Definition teardown_step (f : EnvStep -> list BackendCall -> ContextManager -> list BackendCall * ContextManager)
  : Handler unit := fun env w =>
  let e := env (w_step w) in
  let '(tr, m) := f e (w_trace w) (es_others e (w_mgr w)) in
  (tt, advance env w <| w_mgr := m |> <| w_trace := tr |>).

(** ** What a run saw

    A statement that holds whatever the other tasks and the backend do refers
    to the moments of a run: the steps between its first and its last world,
    each with the manager it found. *)

Definition later (w w' : World) : Prop := w_seen w `prefix_of` w_seen w'.

#[export] Instance later_preorder : PreOrder later.
Proof. split; [intros w; exists []; by rewrite app_nil_r|]. intros w1 w2 w3 [l H] [l' H']. exists (l ++ l'). by rewrite H', H, app_assoc. Qed.

Definition during (w w' : World) (n : nat) (m : ContextManager) : Prop :=
  exists l, w_seen w' = w_seen w ++ l /\ (n, m) ∈ l.

Lemma during_widen w0 w w' w1 n m : later w0 w -> later w' w1 -> during w w' n m -> during w0 w1 n m.
Proof.
  intros [l0 H0] [l1 H1] (l & Hl & Hin). exists (l0 ++ l ++ l1). rewrite H1, Hl, H0, <- !app_assoc.
  split; [done|]. set_solver.
Qed.

Lemma later_advance env w : later w (advance env w).
Proof. by eexists. Qed.

Lemma during_advance env w : during w (advance env w) (w_step w) (es_others (env (w_step w)) (w_mgr w)).
Proof. eexists. split; [done|]. by left. Qed.

Class Advances {A} (h : Handler A) : Prop := advances env w : later w (h env w).2.

#[export] Instance advances_ret {A} (a : A) : Advances (ret a).
Proof. by intros env w. Qed.

#[export] Instance advances_bind {A B} (h : Handler A) (k : A -> Handler B) :
  Advances h -> (forall a, Advances (k a)) -> Advances (bind h k).
Proof. intros Hh Hk env w. unfold bind. specialize (Hh env w). destruct (h env w). by etransitivity; [|apply Hk]. Qed.

#[export] Instance advances_critical {A} (f : N -> ContextManager -> A * ContextManager) : Advances (critical f).
Proof. intros env w. unfold critical. destruct (f _ _). apply (later_advance env w). Qed.

#[export] Instance advances_read {A} (f : N -> ContextManager -> A) : Advances (read f).
Proof. unfold read. apply _. Qed.

#[export] Instance advances_with_logs {A} (f : LogState -> A * LogState) : Advances (with_logs f).
Proof. intros env w. unfold with_logs. destruct (f _). exists []. by rewrite app_nil_r. Qed.

#[export] Instance advances_backend_call {A} (c : ReadCall) (answer : EnvStep -> A) : Advances (backend_call c answer).
Proof. intros env w. apply (later_advance env w). Qed.

(** A handler built from these advances. *)
Ltac advancing :=
  repeat first
    [ apply _
    | apply advances_bind; [|intros ?]
    | match goal with |- Advances (match ?x with _ => _ end) => destruct x end ].

(** Taking a run apart. *)
Lemma bind_ok {A B} (h : Handler A) (k : A -> Handler B) env w b w' :
  bind h k env w = (b, w') -> exists a w1, h env w = (a, w1) /\ k a env w1 = (b, w').
Proof. unfold bind. destruct (h env w) as [a w1]. eauto. Qed.

Lemma ret_ok {A} (r a : A) env w w' : ret r env w = (a, w') -> r = a /\ w' = w.
Proof. by intros [= -> ->]. Qed.

Lemma advances_ok {A} (h : Handler A) `{!Advances h} env w a w' : h env w = (a, w') -> later w w'.
Proof. intros H. pose proof (advances env w) as Hl. by rewrite H in Hl. Qed.

(** What a critical section and a query found. *)
Lemma critical_ok {A} (f : N -> ContextManager -> A * ContextManager) env w a w' :
  critical f env w = (a, w') ->
  let m := es_others (env (w_step w)) (w_mgr w) in
  during w w' (w_step w) m /\ a = (f (es_now (env (w_step w))) m).1.
Proof. unfold critical. destruct (f _ _) as [r m']. intros [= <- <-]. split; [apply (during_advance env w)|done]. Qed.

Lemma read_ok {A} (f : N -> ContextManager -> A) env w a w' :
  read f env w = (a, w') ->
  let m := es_others (env (w_step w)) (w_mgr w) in during w w' (w_step w) m /\ a = f (es_now (env (w_step w))) m.
Proof. apply critical_ok. Qed.

Lemma backend_call_ok {A} (c : ReadCall) (answer : EnvStep -> A) env w a w' :
  backend_call c answer env w = (a, w') ->
  (exists m, during w w' (w_step w) m) /\ a = answer (env (w_step w)).
Proof. intros [= <- <-]. split; [eexists; apply (during_advance env w)|done]. Qed.

(** Facts about a run hold of every run that contains it. *)
Class Widens (P : World -> World -> Prop) : Prop :=
  widens w0 w w' w1 : later w0 w -> later w' w1 -> P w w' -> P w0 w1.

(** Takes a run apart, one step, and notes the order of the worlds. *)
Ltac observe H x w :=
  let Hx := fresh "H" x in let Hl := fresh "Hl" x in
  apply bind_ok in H as (x & w & Hx & H); pose proof (advances_ok _ _ _ _ _ Hx) as Hl.

(** [w'] is after [w] by a chain of the hypotheses. *)
Ltac chain :=
  match goal with
  | |- later ?w ?w => reflexivity
  | H : later ?w ?x |- later ?w _ => solve [transitivity x; [exact H|chain]]
  end.

Ltac widen :=
  match goal with
  | H : _ |- _ => first [eapply during_widen | eapply widens]; [| |exact H]; chain
  end.

(** ** Reasoning with an invariant

    [upheld env I h Q]: if the other tasks uphold [I] of the manager, so does
    the handler, and its result satisfies [Q]. *)

Definition stable (env : Env) (I : ContextManager -> Prop) : Prop :=
  forall n m, I m -> I (es_others (env n) m).

Definition upheld {A} (env : Env) (I : ContextManager -> Prop) (h : Handler A) (Q : A -> Prop) : Prop :=
  forall w, I (w_mgr w) -> I (w_mgr (h env w).2) /\ Q (h env w).1.

Section upheld_rules.
Context (env : Env) (I : ContextManager -> Prop) (Hst : stable env I).

Lemma upheld_ret {A} (a : A) (Q : A -> Prop) : Q a -> upheld env I (ret a) Q.
Proof. intros HQ w Hw. by split. Qed.

Lemma upheld_bind {A B} (h : Handler A) (k : A -> Handler B) (P : A -> Prop) (Q : B -> Prop) :
  upheld env I h P -> (forall a, P a -> upheld env I (k a) Q) -> upheld env I (bind h k) Q.
Proof.
  intros Hh Hk w Hw. unfold bind. destruct (Hh w Hw) as [Hw' HP]. destruct (h env w) as [a w'].
  by apply Hk.
Qed.

Lemma upheld_conseq {A} (h : Handler A) (P Q : A -> Prop) :
  upheld env I h P -> (forall a, P a -> Q a) -> upheld env I h Q.
Proof. intros Hh HPQ w Hw. destruct (Hh w Hw). auto. Qed.

Lemma upheld_critical {A} (f : N -> ContextManager -> A * ContextManager) (Q : A -> Prop) :
  (forall now m, I m -> I (f now m).2 /\ Q (f now m).1) -> upheld env I (critical f) Q.
Proof using Hst.
  intros Hf w Hw. unfold critical.
  pose proof (Hf (es_now (env (w_step w))) _ (Hst (w_step w) _ Hw)) as [HI HQ].
  by destruct (f _ _).
Qed.

Lemma upheld_read {A} (f : N -> ContextManager -> A) (Q : A -> Prop) :
  (forall now m, I m -> Q (f now m)) -> upheld env I (read f) Q.
Proof using Hst. intros Hf. apply upheld_critical. intros now m Hm. split; [done|by apply Hf]. Qed.

Lemma upheld_logs {A} (f : LogState -> A * LogState) (Q : A -> Prop) :
  (forall l, Q (f l).1) -> upheld env I (with_logs f) Q.
Proof. intros Hf w Hw. unfold with_logs. pose proof (Hf (w_logs w)). by destruct (f (w_logs w)). Qed.

Lemma upheld_call {A} (c : ReadCall) (answer : EnvStep -> A) (Q : A -> Prop) :
  (forall n, Q (answer (env n))) -> upheld env I (backend_call c answer) Q.
Proof using Hst. intros Ha w Hw. split; [by apply Hst|apply Ha]. Qed.
End upheld_rules.
