(* ===== verification/Authorize.v ===== *)
(** * Authorization of requests and objects

    Models [grpc_service/authorization.rs] and the object-resolution part of
    [grpc_service/service_utils.rs]: the identity bound to a context, context
    ownership, the token gate, the mechanism, class and extract gates, the
    per-object gate, the gate on private objects, and the resolution and
    registration of object handles.

    Handlers are written in the monad of [Handler]; each read or update of
    the manager is one critical section, as in the code. *)

From S2P Require Import Prelude Ck Width HandleMap SlotMap Connection Context Manager.
From S2P Require Import Teardown Session Identity Mech Grant Policy Handler.
Open Scope N_scope.

(** ** Identity and ownership *)

Definition context_exists (cid : ClientContextId) : Handler bool :=
  r <- critical (fun now => get_context now cid (fun ctx => (tt, ctx)));;
  ret (bool_decide (is_Some r)).

(** [authorization::context_identity]. *)
Definition authz_context_identity (cid : ClientContextId) : Handler (CkResult AuthenticatedIdentity) :=
  exists_ <- context_exists cid;;
  if negb exists_ then ret (Err Rv.CRYPTOKI_NOT_INITIALIZED)
  else
    identity <- read (fun _ => context_identity cid);;
    match identity with
    | None => ret (Ok Unauthenticated)
    | Some s => ret (match from_str s with Ok i => Ok i | Err _ => Err Rv.GENERAL_ERROR end)
    end.

Definition context_owner_allowed (stored : option string) (live : AuthenticatedIdentity) : bool :=
  match stored with
  | None => true
  | Some expected => bool_decide (expected = to_string live)
  end.

Definition enforce_context_owner `{CertReader} (request : TransportInfo) (cid : ClientContextId)
    (tcp_auth : TcpAuthMode) (unix_auth : UnixAuthMode) : Handler (Result unit RpcStatus) :=
  stored <- read (fun _ => context_identity cid);;
  ret (let? live := identity_from_request request tcp_auth unix_auth in
       if context_owner_allowed stored live then Ok tt else Err StPermissionDenied).

(** ** Token information *)

(** The label and serial of a slot's token: from the cache when fresh,
    otherwise from the backend, published only if no reinitialisation came
    in between.  The same lines appear in [slot_is_authorized],
    [extract_is_permitted] and [resolve_object_authz_context], which differ
    in how they treat a failure. *)
Definition token_info (slot : BackendSlotId) : Handler (option (CkResult (string * string))) :=
  cached <- read (fun now => cached_token_info now slot);;
  match cached with
  | Some info => ret (Some (Ok info))
  | None =>
      generation <- read (fun _ => authz_generation);;
      reply <- query_token_info slot;;
      match reply with
      | Some (Ok (label, serial)) =>
          critical (fun now => cache_token_info_if_generation now slot label serial generation);;;
          ret (Some (Ok (label, serial)))
      | other => ret other
      end
  end.

(** [slot_is_authorized]; [None] is a transport error. *)
Definition slot_is_authorized (policy : TokenPolicy) (cid : ClientContextId) (slot : BackendSlotId)
  : Handler (option (CkResult bool)) :=
  identity <- authz_context_identity cid;;
  match identity with
  | Err error => ret (Some (Err error))
  | Ok Unauthenticated => ret (Some (Ok (allows_unauthenticated policy)))
  | Ok identity =>
      info <- token_info slot;;
      match info with
      | None => ret None
      | Some (Err error) =>
          ret (Some (if rv_eqb error Rv.TOKEN_NOT_PRESENT then Ok false else Err error))
      | Some (Ok (label, serial)) =>
          allowed <- with_logs (allows policy identity label serial);;
          ret (Some (Ok allowed))
      end
  end.

(** [resolve_object_authz_context]: [None] fails closed. *)
Definition resolve_object_authz_context (cid : ClientContextId) (virtual_session : N)
  : Handler (option (AuthenticatedIdentity * string * string)) :=
  identity <- authz_context_identity cid;;
  match identity with
  | Err _ => ret None
  | Ok identity =>
      slot <- critical (fun now => slot_for_session now cid (VH virtual_session));;
      match slot with
      | None => ret None
      | Some slot =>
          info <- token_info slot;;
          match info with
          | Some (Ok (label, serial)) => ret (Some (identity, label, serial))
          | _ => ret None
          end
      end
  end.

Definition mechanism_permitted (policy : TokenPolicy) (cid : ClientContextId) (virtual_session : N)
    (mech : CkMechanismType) : Handler bool :=
  if negb (per_mechanism_active policy) then ret true
  else
    r <- resolve_object_authz_context cid virtual_session;;
    match r with
    | None => ret false
    | Some (identity, label, serial) => ret (allows_mechanism policy identity label serial mech)
    end.

(** ** Templates *)

Definition CKA_CLASS : CkAttributeType := 0.
Definition CKA_TOKEN : CkAttributeType := 1.
Definition CKA_PRIVATE : CkAttributeType := 2.
Definition CKA_UNIQUE_ID : CkAttributeType := 4.

Definition template_declared_class (template : list CkAttribute) : option CkObjectClass :=
  find_map (fun attr =>
    if negb (attr.1 =? CKA_CLASS) then None
    else match attr.2 with Some (AvUlong c) => Some c | _ => None end) template.

(** The encodings of a boolean. *)
Definition first_nonzero (bytes : SecretBytes) : bool :=
  match bytes with b :: _ => negb (b =? 0) | [] => false end.

Definition declares_true (attr_type : CkAttributeType) (template : list CkAttribute) : bool :=
  existsb (fun attr => (attr.1 =? attr_type) &&
    match attr.2 with
    | Some (AvBool b) => b
    | Some (AvBytes bytes) => first_nonzero bytes
    | Some (AvUlong u) => negb (u =? 0)
    | _ => false
    end) template.

Definition template_declares_token_object (template : list CkAttribute) : bool := declares_true CKA_TOKEN template.
Definition template_declares_private_object (template : list CkAttribute) : bool := declares_true CKA_PRIVATE template.
Definition template_has_private_attr (template : list CkAttribute) : bool :=
  existsb (fun attr => attr.1 =? CKA_PRIVATE) template.

Definition class_mint_permitted (policy : TokenPolicy) (cid : ClientContextId) (virtual_session : N)
    (template : list CkAttribute) (default_class : option CkObjectClass) : Handler bool :=
  if negb (per_class_active policy) then ret true
  else match (match template_declared_class template with Some c => Some c | None => default_class end) with
  | None => ret true
  | Some cls =>
      r <- resolve_object_authz_context cid virtual_session;;
      match r with
      | None => ret false
      | Some (identity, label, serial) => ret (allows_class policy identity label serial cls)
      end
  end.

(** ** Object metadata *)

Section handlers.
(** The byte order of the host. *)
Context (native : ByteOrder).

Definition decode_class (v : option CkAttributeValue) : option CkObjectClass :=
  match v with
  | Some (AvUlong u) => Some u
  | Some (AvBytes bytes) =>
      if bool_decide (length bytes = 8%nat) || bool_decide (length bytes = 4%nat)
      then Some (read_uint bytes native) else None
  | _ => None
  end.

Definition decode_token (v : option CkAttributeValue) : bool :=
  match v with
  | Some (AvBool b) => b
  | Some (AvBytes bytes) => first_nonzero bytes
  | Some (AvUlong u) => negb (u =? 0)
  | _ => false
  end.

Definition nonempty_bytes (v : option CkAttributeValue) : option SecretBytes :=
  match v with Some (AvBytes (b :: bytes)) => Some (b :: bytes) | _ => None end.

(** [fetch_object_metadata]: one call for identifier, class and token flag,
    a second one for the identifier when the first left it empty.  Every
    error ends in [None]. *)
Definition fetch_object_metadata (session : CkSessionHandle) (object : CkObjectHandle)
  : Handler (option ObjectMetadata) :=
  r1 <- query_attributes session object [CKA_UNIQUE_ID; CKA_CLASS; CKA_TOKEN];;
  match r1 with
  | Some (Ok values) =>
      let cls := decode_class (mjoin (values !! 1%nat)) in
      let tok := decode_token (mjoin (values !! 2%nat)) in
      match nonempty_bytes (mjoin (values !! 0%nat)) with
      | Some uid => ret (Some (MkObjectMetadata uid cls tok))
      | None =>
          r2 <- query_attributes session object [CKA_UNIQUE_ID];;
          match r2 with
          | Some (Ok values) =>
              match nonempty_bytes (mjoin (values !! 0%nat)) with
              | Some uid => ret (Some (MkObjectMetadata uid cls tok))
              | None => ret None
              end
          | _ => ret None
          end
      end
  | _ => ret None
  end.

(** The fetched metadata is cached under the virtual handle. *)
Definition fetch_and_cache (cid : ClientContextId) (virtual_object : N) (session : CkSessionHandle)
    (object : CkObjectHandle) : Handler (option ObjectMetadata) :=
  fetched <- fetch_object_metadata session object;;
  match fetched with
  | Some md =>
      critical (fun now m => (tt, cache_object_metadata now cid virtual_object md m));;;
      ret fetched
  | None => ret None
  end.

Definition resolve_uid_for_extract (cid : ClientContextId) (virtual_session virtual_object : N)
  : Handler (option SecretBytes) :=
  cached <- critical (fun now => manager_object_metadata now cid virtual_object);;
  match cached with
  | Some md => ret (Some (unique_id md))
  | None =>
      r <- critical (fun now => get_context now cid (fun c =>
             ((HandleMap_resolve (VH virtual_session) (session_handles c),
               HandleMap_resolve (VH virtual_object) (object_handles c)), c)));;
      match r with
      | Some (Some bs, Some bo) =>
          fetched <- fetch_and_cache cid virtual_object (MkSession (bh_raw bs)) (MkObject (bh_raw bo));;
          ret (unique_id <$> fetched)
      | _ => ret None
      end
  end.

(** [extract_is_permitted]; [None] is a transport error. *)
Definition extract_is_permitted (policy : TokenPolicy) (cid : ClientContextId) (virtual_session virtual_object : N)
  : Handler (option bool) :=
  identity <- authz_context_identity cid;;
  match identity with
  | Err _ => ret (Some false)
  | Ok Unauthenticated => ret (Some true)
  | Ok identity =>
      slot <- critical (fun now => slot_for_session now cid (VH virtual_session));;
      match slot with
      | None => ret (Some false)
      | Some slot =>
          info <- token_info slot;;
          match info with
          | None => ret None
          | Some (Err _) => ret (Some false)
          | Some (Ok (label, serial)) =>
              if negb (per_object_active policy) then ret (Some (extract_allowed policy identity label serial))
              else
                uid <- resolve_uid_for_extract cid virtual_session virtual_object;;
                match uid with
                | Some uid => ret (Some (extract_allowed_for_object policy identity label serial uid))
                | None =>
                    if has_object_extract_override policy identity label serial then ret (Some false)
                    else ret (Some (extract_allowed policy identity label serial))
                end
          end
      end
  end.

(** ** The per-object gate *)

Definition class_allowed (policy : TokenPolicy) (identity : AuthenticatedIdentity) (label serial : string)
    (md : ObjectMetadata) : bool :=
  match class md with Some c => allows_class policy identity label serial c | None => false end.

Definition gate_object_handle (policy : TokenPolicy) (cid : ClientContextId) (virtual_session virtual_object : N)
    (backend_session : BackendHandle) (backend_object : CkObjectHandle) : Handler CkObjectHandle :=
  let session := MkSession (bh_raw backend_session) in
  let denied := MkObject 0 in
  r <- resolve_object_authz_context cid virtual_session;;
  match r with
  | None => ret denied
  | Some (identity, label, serial) =>
      created <- critical (fun now => object_was_created_here now cid virtual_object);;
      if created : bool then
        if negb (per_class_active policy) then ret backend_object
        else
          fetched <- fetch_and_cache cid virtual_object session backend_object;;
          match fetched with
          | Some md => ret (if class_allowed policy identity label serial md then backend_object else denied)
          | None => ret denied
          end
      else
        cached <- critical (fun now => manager_object_metadata now cid virtual_object);;
        md <- match cached with
              | Some md => ret (Some md)
              | None => fetch_and_cache cid virtual_object session backend_object
              end;;
        match md with
        | None => ret denied
        | Some md =>
            if bool_decide (unique_id md = []) then ret denied
            else if negb (allows_object_use policy identity label serial (unique_id md)) then ret denied
            else if per_class_active policy && negb (class_allowed policy identity label serial md)
            then ret denied
            else ret backend_object
        end
  end.

(** ** Private objects *)

Definition session_slot_login_state (cid : ClientContextId) (virtual_session : N) : Handler (option LoginState) :=
  r <- critical (fun now => get_context now cid (fun ctx =>
         (slot ← session_slots ctx !! VH virtual_session; login_state ctx !! slot, ctx)));;
  ret (mjoin r).

Definition session_slot_contended_login (cid : ClientContextId) (slot : BackendSlotId) : Handler bool :=
  r <- critical (fun now => get_context now cid (fun ctx =>
         (bool_decide (slot ∈ contended_slot_login ctx), ctx)));;
  ret (default false r).

(** A logged-out caller whose slot is logged in by somebody else, and who
    has not presented a PIN for it: the condition both private gates refuse on
    ([&&] stops at the first that fails). *)
Definition rides_other_login (cid : ClientContextId) (slot : BackendSlotId) : Handler bool :=
  contended <- session_slot_contended_login cid slot;;
  if contended : bool then ret false
  else read (fun _ => other_login_state_for_slot slot cid).

Definition ensure_private_mint_allowed (cid : ClientContextId) (virtual_session : N) (template : list CkAttribute)
  : Handler (CkResult unit) :=
  if negb (template_declares_private_object template) then ret (Ok tt)
  else
    r <- critical (fun now => resolve_session_slot_login now cid virtual_session);;
    match r with
    | Err _ => ret (Err Rv.USER_NOT_LOGGED_IN)
    | Ok (_, slot, Some _) => ret (Ok tt)
    | Ok (_, slot, None) =>
        rides <- rides_other_login cid slot;;
        ret (if rides : bool then Err Rv.USER_NOT_LOGGED_IN else Ok tt)
    end.

Inductive BoolAttrProbe := Present (b : bool) | AttrAbsent | ProbeFailed.

(** What a reply to a query of one boolean attribute says. *)
Definition probe_of_reply (reply : option (CkResult (list (option CkAttributeValue)))) : BoolAttrProbe :=
  match reply with
  | Some (Ok values) =>
      match mjoin (values !! 0%nat) with
      | None => AttrAbsent
      | Some (AvBool b) => Present b
      | Some (AvBytes bytes) => Present (first_nonzero bytes)
      | Some (AvUlong u) => Present (negb (u =? 0))
      | Some _ => ProbeFailed
      end
  | Some (Err e) => if rv_eqb e Rv.ATTRIBUTE_TYPE_INVALID then AttrAbsent else ProbeFailed
  | None => ProbeFailed
  end.

Definition probe_bool_attr (session : CkSessionHandle) (object : CkObjectHandle) (attr_type : CkAttributeType)
  : Handler BoolAttrProbe :=
  reply <- query_attributes session object [attr_type];;
  ret (probe_of_reply reply).

Definition backend_object_is_private (session : CkSessionHandle) (object : CkObjectHandle) : Handler bool :=
  p <- probe_bool_attr session object CKA_PRIVATE;;
  ret match p with Present true => true | _ => false end.

Definition CKO_HW_FEATURE : CkObjectClass := 5.
Definition CKO_MECHANISM : CkObjectClass := 7.
Definition CKO_PROFILE : CkObjectClass := 9.
Definition CKO_VALIDATION : CkObjectClass := 10.

Definition is_other_object_class (c : CkObjectClass) : bool :=
  (c =? CKO_HW_FEATURE) || (c =? CKO_MECHANISM) || (c =? CKO_PROFILE) || (c =? CKO_VALIDATION).

Definition probe_object_class (session : CkSessionHandle) (object : CkObjectHandle) : Handler (option CkObjectClass) :=
  reply <- query_attributes session object [CKA_CLASS];;
  ret match reply with
      | Some (Ok values) => decode_class (mjoin (values !! 0%nat))
      | _ => None
      end.

Definition backend_object_has_other_class (session : CkSessionHandle) (object : CkObjectHandle) : Handler bool :=
  c <- probe_object_class session object;;
  ret match c with Some c => is_other_object_class c | None => false end.

Definition backend_object_known_public (cid : ClientContextId) (session : CkSessionHandle) (object : CkObjectHandle)
  : Handler bool :=
  p <- probe_bool_attr session object CKA_PRIVATE;;
  match p with
  | Present private => ret (negb private)
  | AttrAbsent =>
      recorded <- critical (fun now => mint_recorded_private now cid object);;
      if bool_decide (recorded = Some false) then ret true
      else backend_object_has_other_class session object
  | ProbeFailed => ret false
  end.

Definition backend_object_token_state (session : CkSessionHandle) (object : CkObjectHandle) : Handler (option bool) :=
  p <- probe_bool_attr session object CKA_TOKEN;;
  match p with
  | Present token => ret (Some token)
  | AttrAbsent =>
      other <- backend_object_has_other_class session object;;
      ret (if other : bool then Some true else None)
  | ProbeFailed => ret None
  end.

Definition backend_object_known_token (session : CkSessionHandle) (object : CkObjectHandle) : Handler bool :=
  t <- backend_object_token_state session object;;
  ret (default false t).

Definition context_maps_backend_object (cid : ClientContextId) (object : CkObjectHandle) : Handler bool :=
  r <- critical (fun now => get_context now cid (fun c =>
         (bool_decide (is_Some (HandleMap_resolve_backend (BH (object_raw object)) (object_handles c))), c)));;
  ret (default false r).

Definition find_result_visible_to_context (cid : ClientContextId) (session : CkSessionHandle) (object : CkObjectHandle)
  : Handler bool :=
  mapped <- context_maps_backend_object cid object;;
  if mapped : bool then ret true else backend_object_known_token session object.

Definition object_is_private (cid : ClientContextId) (virtual_object : N) (session : CkSessionHandle)
    (object : CkObjectHandle) : Handler bool :=
  known <- critical (fun now => get_context now cid (fun c => (object_private c !! VH virtual_object, c)));;
  match mjoin known with
  | Some private => ret private
  | None => backend_object_is_private session object
  end.

Definition ensure_private_use_allowed (cid : ClientContextId) (virtual_session virtual_object : N)
    (session : CkSessionHandle) (object : CkObjectHandle) : Handler (CkResult unit) :=
  r <- critical (fun now => resolve_session_slot_login now cid virtual_session);;
  match r with
  | Err _ =>
      private <- object_is_private cid virtual_object session object;;
      ret (if private : bool then Err Rv.USER_NOT_LOGGED_IN else Ok tt)
  | Ok (_, _, Some _) => ret (Ok tt)
  | Ok (_, slot, None) =>
      private <- object_is_private cid virtual_object session object;;
      if private : bool then
        rides <- rides_other_login cid slot;;
        ret (if rides : bool then Err Rv.USER_NOT_LOGGED_IN else Ok tt)
      else ret (Ok tt)
  end.

(** ** Resolution of object handles *)

(** The session half of a resolution. *)
Definition session_verdict (session suspended : option BackendHandle) : CkResult BackendHandle :=
  match session, suspended with
  | Some backend, _ => Ok backend
  | None, Some _ => Err Rv.FUNCTION_FAILED
  | None, None => Err Rv.SESSION_HANDLE_INVALID
  end.

(** An unknown handle is forwarded as the invalid handle 0. *)
Definition forwarded (h : option BackendHandle) : CkObjectHandle :=
  match h with Some b => MkObject (bh_raw b) | None => MkObject 0 end.

(** Login gate and policy gate of one resolved object. *)
Definition private_gate (cid : ClientContextId) (session_handle object_handle : N) (session : BackendHandle)
    (object : CkObjectHandle) : Handler (CkResult unit) :=
  if object_raw object =? 0 then ret (Ok tt)
  else ensure_private_use_allowed cid session_handle object_handle (MkSession (bh_raw session)) object.

Definition policy_gate (policy : TokenPolicy) (cid : ClientContextId) (session_handle object_handle : N)
    (session : BackendHandle) (object : CkObjectHandle) : Handler CkObjectHandle :=
  if (per_object_active policy || per_class_active policy) && negb (object_raw object =? 0)
  then gate_object_handle policy cid session_handle object_handle session object
  else ret object.

Definition resolve_session_and_handle (policy : TokenPolicy) (cid : ClientContextId)
    (session_handle object_handle : N) (stale_rv : CkRv)
  : Handler (CkResult (CkSessionHandle * CkObjectHandle)) :=
  r <- critical (fun now => get_context now cid (fun c =>
         ((HandleMap_resolve (VH session_handle) (session_handles c),
           HandleMap_suspended_backend (VH session_handle) (session_handles c),
           HandleMap_resolve (VH object_handle) (object_handles c),
           bool_decide (VH object_handle ∈ destroyed_objects c)), c)));;
  match r with
  | None => ret (Err Rv.CRYPTOKI_NOT_INITIALIZED)
  | Some (session, suspended, key, destroyed) =>
      match session_verdict session suspended with
      | Err rv => ret (Err rv)
      | Ok backend_session =>
          if bool_decide (key = None) && destroyed then ret (Err stale_rv)
          else
            let backend_key := forwarded key in
            authn <- private_gate cid session_handle object_handle backend_session backend_key;;
            match authn with
            | Err rv => ret (Err rv)
            | Ok _ =>
                backend_key <- policy_gate policy cid session_handle object_handle backend_session backend_key;;
                ret (Ok (MkSession (bh_raw backend_session), backend_key))
            end
      end
  end.

Definition resolve_session_and_key (policy : TokenPolicy) (cid : ClientContextId) (session_handle key_handle : N) :=
  resolve_session_and_handle policy cid session_handle key_handle Rv.KEY_HANDLE_INVALID.

Definition resolve_session_and_object (policy : TokenPolicy) (cid : ClientContextId) (session_handle object_handle : N) :=
  resolve_session_and_handle policy cid session_handle object_handle Rv.OBJECT_HANDLE_INVALID.

Definition resolve_session_and_two_objects (policy : TokenPolicy) (cid : ClientContextId)
    (session_handle first_handle second_handle : N)
  : Handler (CkResult (CkSessionHandle * CkObjectHandle * CkObjectHandle)) :=
  r <- critical (fun now => get_context now cid (fun c =>
         ((HandleMap_resolve (VH session_handle) (session_handles c),
           HandleMap_suspended_backend (VH session_handle) (session_handles c),
           HandleMap_resolve (VH first_handle) (object_handles c),
           HandleMap_resolve (VH second_handle) (object_handles c),
           bool_decide (VH first_handle ∈ destroyed_objects c),
           bool_decide (VH second_handle ∈ destroyed_objects c)), c)));;
  match r with
  | None => ret (Err Rv.CRYPTOKI_NOT_INITIALIZED)
  | Some (session, suspended, first, second, first_destroyed, second_destroyed) =>
      match session_verdict session suspended with
      | Err rv => ret (Err rv)
      | Ok backend_session =>
          if bool_decide (first = None) && first_destroyed then ret (Err Rv.KEY_HANDLE_INVALID)
          else if bool_decide (second = None) && second_destroyed then ret (Err Rv.KEY_HANDLE_INVALID)
          else
            a1 <- private_gate cid session_handle first_handle backend_session (forwarded first);;
            match a1 with
            | Err rv => ret (Err rv)
            | Ok _ =>
                a2 <- private_gate cid session_handle second_handle backend_session (forwarded second);;
                match a2 with
                | Err rv => ret (Err rv)
                | Ok _ =>
                    k1 <- policy_gate policy cid session_handle first_handle backend_session (forwarded first);;
                    k2 <- policy_gate policy cid session_handle second_handle backend_session (forwarded second);;
                    ret (Ok (MkSession (bh_raw backend_session), k1, k2))
                end
            end
      end
  end.
End handlers.

(** ** Registration of minted and found objects *)

Definition mint_object (session : VirtualHandle) (backend_handle : CkObjectHandle) (is_token_object : bool)
    (is_private : option bool) (ctx : LogicalClientInstance) : N * LogicalClientInstance :=
  let '(virtual_object, hs) := HandleMap_insert (BH (object_raw backend_handle)) (object_handles ctx) in
  let ctx := ctx <| object_handles := hs |> in
  let ctx := if is_token_object then ctx
             else LogicalClientInstance_record_session_object session virtual_object ctx in
  let ctx := ctx <| created_objects ::= fun s => {[ virtual_object ]} ∪ s |> in
  let ctx := match is_private with
             | Some private => ctx <| object_private ::= <[virtual_object := private]> |>
             | None => ctx
             end in
  (vh_raw virtual_object, ctx).

Definition register_session_object_handle (cid : ClientContextId) (session : VirtualHandle)
    (backend_handle : CkObjectHandle) (is_token_object : bool) (is_private : option bool) : Handler N :=
  r <- critical (fun now => get_context now cid (mint_object session backend_handle is_token_object is_private));;
  ret (default 0 r).

(** Both handles are allocated before either key is recorded. *)
Definition register_session_object_pair (cid : ClientContextId) (session : VirtualHandle)
    (first_backend : CkObjectHandle) (first_is_token first_is_private : bool)
    (second_backend : CkObjectHandle) (second_is_token second_is_private : bool) : Handler (option (N * N)) :=
  critical (fun now => get_context now cid (fun ctx =>
    let '(first, hs) := HandleMap_insert (BH (object_raw first_backend)) (object_handles ctx) in
    let '(second, hs) := HandleMap_insert (BH (object_raw second_backend)) hs in
    let ctx := ctx <| object_handles := hs |> in
    let ctx := if first_is_token then ctx else LogicalClientInstance_record_session_object session first ctx in
    let ctx := if second_is_token then ctx else LogicalClientInstance_record_session_object session second ctx in
    let ctx := ctx <| created_objects ::= fun s => {[ second ]} ∪ ({[ first ]} ∪ s) |>
                   <| object_private ::= fun p => <[second := second_is_private]> (<[first := first_is_private]> p) |> in
    ((vh_raw first, vh_raw second), ctx))).

Definition register_object_handles (cid : ClientContextId) (backend_handles : list CkObjectHandle)
  : Handler (option (list N)) :=
  critical (fun now => get_context now cid (fun ctx =>
    foldl (fun '(vs, ctx) h =>
      let '(v, hs) := HandleMap_insert (BH (object_raw h)) (object_handles ctx) in
      (vs ++ [vh_raw v], ctx <| object_handles := hs |>)) ([], ctx) backend_handles)).
