(* ===== verification/AuthorizeProps.v ===== *)
(** * Authorization: the gates fail closed

    Theorems about [Authorize]: whatever the other tasks and the backend do,
    a gate lets an operation through only if the policy permits it to the
    identity bound to the context, and a resolved object handle is one the
    policy permits.  What the decision rests on is what the run found: in the
    manager at one of its steps, or in the backend's answer about the very
    slot or object. *)

From S2P Require Import Prelude Ck Width HandleMap SlotMap Connection Context Manager.
From S2P Require Import Teardown Session Identity Mech Grant Policy Handler Authorize.
Open Scope N_scope.

(** ** Ownership *)

Section ownership.
Context `{CR : CertReader} `{!CertReaderLaws}.

(** C6: A request may drive a context exactly when the identity its own transport
    proves is the identity the context was created for; any other
    authenticated or unauthenticated caller that presents the context id is
    refused with PERMISSION_DENIED, and a caller whose identity cannot be
    derived with that error. *)
Theorem context_ownership (env : Env) (w : World) (request : TransportInfo) (cid : ClientContextId)
    (tcp : TcpAuthMode) (unix : UnixAuthMode) (owner : AuthenticatedIdentity) :
  wf_identity owner -> transport_wf request ->
  context_identity cid (es_others (env (w_step w)) (w_mgr w)) = Some (to_string owner) ->
  (enforce_context_owner request cid tcp unix env w).1 =
  match identity_from_request request tcp unix with
  | Ok live => if decide (live = owner) then Ok tt else Err StPermissionDenied
  | Err e => Err e
  end.
Proof.
  intros Hwf Hr Hid. unfold enforce_context_owner, bind, read, critical. cbn. rewrite Hid.
  destruct (identity_from_request request tcp unix) as [live|e] eqn:El; [|done].
  apply identity_from_request_wf in El; [|done]. cbn. case_bool_decide as Hs; case_decide as Hl; try done.
  - destruct Hl. symmetry. by apply to_string_inj.
  - by subst.
Qed.
End ownership.

(** ** The gates

    What a gate says depends on what it found while it ran: the identity bound
    to the context, the slot of the session, the label and serial of that
    slot's token, and the metadata of that object.  Each was in the manager at
    a moment of the run, or was the backend's answer about that very slot or
    object at a step of the run.  Nothing is assumed of the other tasks or of
    the backend. *)

Section gates.
Context (native : ByteOrder) (env : Env).
Context (policy : TokenPolicy) (cid : ClientContextId).

(** The identity the context is bound to. *)
Definition identity_found (who : AuthenticatedIdentity) (w w' : World) : Prop :=
  exists n m, during w w' n m /\
    match context_identity cid m with Some s => from_str s = Ok who | None => who = Unauthenticated end.

(** The slot of the session. *)
Definition slot_found (vs : N) (slot : BackendSlotId) (w w' : World) : Prop :=
  exists n m c, during w w' n m /\ contexts m !! cid = Some c /\ session_slots c !! VH vs = Some slot.

(** The token in the slot: cached and fresh, or reported for that slot. *)
Definition token_found (slot : BackendSlotId) (label serial : string) (w w' : World) : Prop :=
  exists n m, during w w' n m /\
    (cached_token_info (es_now (env n)) slot m = Some (label, serial) \/
     es_token_info (env n) slot = Some (Ok (label, serial))).

(** The context made the object itself. *)
Definition created_found (vo : N) (w w' : World) : Prop :=
  exists n m c, during w w' n m /\ contexts m !! cid = Some c /\ VH vo ∈ created_objects c.

(** The context has metadata for the handle, as of the current generation if
    it is a token object's. *)
Definition metadata_cached (vo : N) (md : ObjectMetadata) (w w' : World) : Prop :=
  exists n m c, during w w' n m /\ contexts m !! cid = Some c /\
    (object_metadata c !! VH vo = Some md \/
     object_metadata c !! VH vo = None /\ token_object_metadata c !! VH vo = Some (MkGated (authz_generation m) md)).

(** The backend reported it for that object in that session. *)
Definition metadata_reported (session : CkSessionHandle) (object : CkObjectHandle) (md : ObjectMetadata) (w w' : World) : Prop :=
  exists n m values, during w w' n m /\
    es_attributes (env n) session object [CKA_UNIQUE_ID; CKA_CLASS; CKA_TOKEN] = Some (Ok values) /\
    class md = decode_class native (mjoin (values !! 1%nat)) /\ is_token md = decode_token (mjoin (values !! 2%nat)) /\
    (nonempty_bytes (mjoin (values !! 0%nat)) = Some (unique_id md) \/
     exists n' m' values', during w w' n' m' /\ es_attributes (env n') session object [CKA_UNIQUE_ID] = Some (Ok values') /\
       nonempty_bytes (mjoin (values' !! 0%nat)) = Some (unique_id md)).

#[export] Instance identity_found_widens who : Widens (identity_found who).
Proof. intros w0 w w' w1 H0 H1 (n & m & H & ?). exists n, m. split; [by eapply during_widen|done]. Qed.
#[export] Instance slot_found_widens vs slot : Widens (slot_found vs slot).
Proof. intros w0 w w' w1 H0 H1 (n & m & c & H & ?). exists n, m, c. split; [by eapply during_widen|done]. Qed.
#[export] Instance token_found_widens slot label serial : Widens (token_found slot label serial).
Proof. intros w0 w w' w1 H0 H1 (n & m & H & ?). exists n, m. split; [by eapply during_widen|done]. Qed.
#[export] Instance created_found_widens vo : Widens (created_found vo).
Proof. intros w0 w w' w1 H0 H1 (n & m & c & H & ?). exists n, m, c. split; [by eapply during_widen|done]. Qed.
#[export] Instance metadata_cached_widens vo md : Widens (metadata_cached vo md).
Proof. intros w0 w w' w1 H0 H1 (n & m & c & H & ?). exists n, m, c. split; [by eapply during_widen|done]. Qed.
#[export] Instance metadata_reported_widens session object md : Widens (metadata_reported session object md).
Proof.
  intros w0 w w' w1 H0 H1 (n & m & v & H & Ha & Hc & Ht & Hu). exists n, m, v. split; [by eapply during_widen|].
  split_and!; [done..|]. destruct Hu as [Hu|(n' & m' & v' & H' & ?)]; [by left|right].
  exists n', m', v'. split; [by eapply during_widen|done].
Qed.

#[export] Instance advances_token_info slot : Advances (token_info slot).
Proof. unfold token_info, read. advancing. Qed.
#[export] Instance advances_fetch session object : Advances (fetch_object_metadata native session object).
Proof. unfold fetch_object_metadata, query_attributes. cbv zeta. advancing. Qed.
#[export] Instance advances_fetch_and_cache vo session object : Advances (fetch_and_cache native cid vo session object).
Proof. unfold fetch_and_cache. advancing. Qed.
#[export] Instance advances_identity : Advances (authz_context_identity cid).
Proof. unfold authz_context_identity, context_exists, read. advancing. Qed.
#[export] Instance advances_authz vs : Advances (resolve_object_authz_context cid vs).
Proof. unfold resolve_object_authz_context. advancing. Qed.
#[export] Instance advances_gate vs vo bs bo : Advances (gate_object_handle native policy cid vs vo bs bo).
Proof. unfold gate_object_handle. cbv zeta. advancing. Qed.
#[export] Instance advances_private_gate vs vo bs bo : Advances (private_gate cid vs vo bs bo).
Proof.
  unfold private_gate, ensure_private_use_allowed, object_is_private, backend_object_is_private, probe_bool_attr,
    rides_other_login, session_slot_contended_login, query_attributes, read. advancing.
Qed.

#[export] Instance advances_policy_gate vs vo bs bo : Advances (policy_gate native policy cid vs vo bs bo).
Proof. unfold policy_gate. advancing. Qed.
#[export] Instance advances_uid vs vo : Advances (resolve_uid_for_extract native cid vs vo).
Proof. unfold resolve_uid_for_extract. advancing. Qed.

(** *** One query at a time *)

Lemma identity_run who w w' : authz_context_identity cid env w = (Ok who, w') -> identity_found who w w'.
Proof.
  unfold authz_context_identity. intros H. observe H e w1. destruct e; [|done]. cbn [negb] in H. observe H s w2.
  apply read_ok in Hs as [Hd ->]. eapply widens; [eassumption|reflexivity|].
  assert (w' = w2) as -> by (by destruct (context_identity _ _); injection H).
  eexists _, _. split; [exact Hd|].
  destruct (context_identity _ _) as [t|]; [|by injection H as <-]. apply ret_ok in H as [H _].
  destruct (from_str t) as [i|] eqn:Ei; congruence.
Qed.

Lemma token_run slot label serial w w' :
  token_info slot env w = (Some (Ok (label, serial)), w') -> token_found slot label serial w w'.
Proof.
  unfold token_info. intros H. observe H cached w1. apply read_ok in Hcached as [Hd ->].
  destruct (cached_token_info _ _ _) as [[l s]|] eqn:Ec.
  - injection H as <- <- <-. eexists _, _. split; [exact Hd|by left].
  - observe H before w2. observe H reply w3. apply backend_call_ok in Hreply as [[m Hm] ->].
    destruct (es_token_info _ slot) as [[[l s]|]|] eqn:Et; [|done..]. observe H u w4.
    apply ret_ok in H as [[= <- <-] ->]. eapply widens with (w := w2) (w' := w3); [chain..|].
    eexists _, _. split; [exact Hm|by right].
Qed.

Lemma slot_run vs slot w w' :
  critical (fun now => slot_for_session now cid (VH vs)) env w = (Some slot, w') -> slot_found vs slot w w'.
Proof.
  intros [Hd Hs]%critical_ok. unfold slot_for_session, get_context in Hs.
  destruct (contexts _ !! cid) as [c|] eqn:Ec; [|done]. cbn in Hs. eexists _, _, c. split_and!; [exact Hd|done|done].
Qed.

(** Identity, slot and token, together. *)
Definition holder_found (vs : N) (who : AuthenticatedIdentity) (label serial : string) (w w' : World) : Prop :=
  identity_found who w w' /\ exists slot, slot_found vs slot w w' /\ token_found slot label serial w w'.

#[export] Instance holder_found_widens vs who label serial : Widens (holder_found vs who label serial).
Proof.
  intros w0 w w' w1 H0 H1 (Hi & slot & Hs & Ht). split; [widen|]. exists slot. split; widen.
Qed.

Lemma authz_run vs who label serial w w' :
  resolve_object_authz_context cid vs env w = (Some (who, label, serial), w') -> holder_found vs who label serial w w'.
Proof.
  unfold resolve_object_authz_context. intros H. observe H i w1. destruct i as [i|]; [|done]. observe H slot w2.
  destruct slot as [slot|]; [|done]. observe H info w3. destruct info as [[[l s]|]|]; [|done..].
  apply ret_ok in H as [[= -> -> ->] ->]. apply identity_run in Hi. apply slot_run in Hslot. apply token_run in Hinfo.
  split; [widen|]. exists slot. split; widen.
Qed.

Lemma fetch_run session object md w w' :
  fetch_object_metadata native session object env w = (Some md, w') -> metadata_reported session object md w w'.
Proof.
  unfold fetch_object_metadata. intros H. observe H r1 w1. apply backend_call_ok in Hr1 as [[m1 Hm1] ->].
  destruct (es_attributes _ _ _ _) as [[values|]|] eqn:Ea; [|done..]. cbv zeta in H.
  destruct (nonempty_bytes (mjoin (values !! 0%nat))) as [uid|] eqn:Eu.
  - apply ret_ok in H as [[= <-] ->]. eexists _, _, values. split_and!; [done..|by left].
  - observe H r2 w2. apply backend_call_ok in Hr2 as [[m2 Hm2] ->].
    destruct (es_attributes _ _ _ [CKA_UNIQUE_ID]) as [[values'|]|] eqn:Ea'; [|done..].
    destruct (nonempty_bytes (mjoin (values' !! 0%nat))) as [uid|] eqn:Eu'; [|done]. apply ret_ok in H as [[= <-] ->].
    exists (w_step w), m1, values. split_and!; [widen|done..|right].
    exists (w_step w1), m2, values'. split_and!; [widen|done..].
Qed.

Lemma fetch_and_cache_run vo session object md w w' :
  fetch_and_cache native cid vo session object env w = (Some md, w') -> metadata_reported session object md w w'.
Proof.
  unfold fetch_and_cache. intros H. observe H r w1. destruct r as [md'|]; [|done]. observe H u w2.
  apply ret_ok in H as [[= ->] ->]. apply fetch_run in Hr. widen.
Qed.

Lemma cached_run vo md w w' :
  critical (fun now => manager_object_metadata now cid vo) env w = (Some md, w') -> metadata_cached vo md w w'.
Proof.
  intros [Hd Hs]%critical_ok. unfold manager_object_metadata, get_context in Hs.
  destruct (contexts _ !! cid) as [c|] eqn:Ec; [|done]. cbn in Hs. eexists _, _, c. split_and!; [exact Hd|done|].
  destruct (object_metadata c !! VH vo) as [d|]; [left; cbn in Hs; congruence|right].
  destruct (token_object_metadata c !! VH vo) as [[g d]|]; [|done]. cbn in Hs.
  destruct (N.eqb_spec g (authz_generation (es_others (env (w_step w)) (w_mgr w)))) as [->|]; [|done]. split; [done|]. cbn in Hs. congruence.
Qed.

(** *** The decision *)

(** The metadata of the object behind the handle. *)
Definition metadata_found (vo : N) (session : CkSessionHandle) (object : CkObjectHandle) (md : ObjectMetadata) (w w' : World) : Prop :=
  metadata_cached vo md w w' \/ metadata_reported session object md w w'.

(** The class restriction, where there is one. *)
Definition class_granted (who : AuthenticatedIdentity) (label serial : string) (md : ObjectMetadata) : Prop :=
  exists c, class md = Some c /\ allows_class policy who label serial c = true.

(** The policy permits the object: the context minted it, and under a class
    restriction the backend reported a granted class just now; or its
    identifier is granted, and its class. *)
Definition object_permitted (vs vo : N) (session : CkSessionHandle) (object : CkObjectHandle) (w w' : World) : Prop :=
  exists who label serial, holder_found vs who label serial w w' /\
    ((created_found vo w w' /\
      (per_class_active policy = true -> exists md, metadata_reported session object md w w' /\ class_granted who label serial md)) \/
     exists md, metadata_found vo session object md w w' /\ unique_id md <> [] /\
       allows_object_use policy who label serial (unique_id md) = true /\
       (per_class_active policy = true -> class_granted who label serial md)).

#[export] Instance metadata_found_widens vo session object md : Widens (metadata_found vo session object md).
Proof. intros w0 w w' w1 H0 H1 [H|H]; [left|right]; widen. Qed.

#[export] Instance object_permitted_widens vs vo session object : Widens (object_permitted vs vo session object).
Proof.
  intros w0 w w' w1 H0 H1 (who & label & serial & Hh & Hd). exists who, label, serial. split; [widen|].
  destruct Hd as [[Hc Hk]|(md & Hm & ?)]; [left|right].
  - split; [widen|]. intros Hact. destruct (Hk Hact) as (md & Hm & ?). exists md. split; [widen|done].
  - exists md. split; [widen|done].
Qed.

Lemma class_allowed_granted who label serial md :
  class_allowed policy who label serial md = true -> class_granted who label serial md.
Proof. unfold class_allowed, class_granted. destruct (class md) as [c|]; [eauto|done]. Qed.

Lemma gate_run vs vo bs bo h w w' :
  gate_object_handle native policy cid vs vo bs bo env w = (h, w') ->
  h = MkObject 0 \/ h = bo /\ object_permitted vs vo (MkSession (bh_raw bs)) bo w w'.
Proof.
  unfold gate_object_handle. cbv zeta. intros H. observe H r w1. destruct r as [[[who label] serial]|]; [|injection H; auto].
  apply authz_run in Hr. observe H created w2. destruct created.
  - assert (created_found vo w1 w2) as Hcr.
    { apply critical_ok in Hcreated as [Hd Hs]. unfold object_was_created_here, get_context in Hs.
      destruct (contexts _ !! cid) as [c|] eqn:Ec; [|done]. cbn in Hs. eexists _, _, c. split_and!; [exact Hd|done|].
      by apply (bool_decide_eq_true_1 _ (eq_sym Hs)). }
    destruct (per_class_active policy) eqn:Eact; cbn [negb] in H.
    + observe H md w3. destruct md as [md|]; [|injection H; auto]. apply fetch_and_cache_run in Hmd.
      apply ret_ok in H as [<- ->]. destruct (class_allowed _ _ _ _ md) eqn:Ek; [right|by left]. split; [done|].
      exists who, label, serial. split; [widen|left]. split; [widen|]. intros _. exists md.
      split; [widen|by apply class_allowed_granted].
    + apply ret_ok in H as [<- ->]. right. split; [done|]. exists who, label, serial. split; [widen|left].
      split; [widen|congruence].
  - observe H cached w3. apply bind_ok in H as (md & w4 & Hmd & H).
    assert (later w3 w4 /\ forall d, md = Some d -> metadata_found vo (MkSession (bh_raw bs)) bo d w2 w4) as [Hl4 Hm].
    { destruct cached as [d|].
      - apply ret_ok in Hmd as [<- ->]. split; [done|]. intros d' [= <-]. left. by apply cached_run.
      - assert (later w3 w4) by exact (advances_ok _ _ _ _ _ Hmd). split; [done|]. intros d ->.
        apply fetch_and_cache_run in Hmd. right. widen. }
    destruct md as [md|]; [|injection H; auto]. specialize (Hm md eq_refl).
    case_bool_decide as Hu; [injection H; auto|]. destruct (allows_object_use _ _ _ _ _) eqn:Ea; [|injection H; auto].
    cbn [negb] in H. destruct (per_class_active policy && negb (class_allowed policy who label serial md)) eqn:Ek;
      [injection H; auto|]. apply ret_ok in H as [<- ->].
    right. split; [done|]. exists who, label, serial. split; [widen|right]. exists md. split_and!; [widen|done..|].
    intros Hact. rewrite Hact in Ek. apply negb_false_iff in Ek. by apply class_allowed_granted.
Qed.

(** The caller's map, at the start of the request. *)
Definition names_handles (vs vo : N) (session : CkSessionHandle) (object : CkObjectHandle) (w : World) : Prop :=
  exists c, contexts (es_others (env (w_step w)) (w_mgr w)) !! cid = Some c /\
    HandleMap_resolve (VH vs) (session_handles c) = Some (BH (session_raw session)) /\
    HandleMap_resolve (VH vo) (object_handles c) = Some (BH (object_raw object)).

(** What resolution may hand to an operation. *)
Definition object_admitted (vs vo : N) (session : CkSessionHandle) (object : CkObjectHandle) (w w' : World) : Prop :=
  object = MkObject 0 \/
  names_handles vs vo session object w /\
  (per_object_active policy = true \/ per_class_active policy = true -> object_permitted vs vo session object w w').

Lemma resolve_handle_run vs vo stale session object w w' :
  resolve_session_and_handle native policy cid vs vo stale env w = (Ok (session, object), w') ->
  object_admitted vs vo session object w w'.
Proof.
  unfold resolve_session_and_handle. intros H. observe H r w1. apply critical_ok in Hr as [Hd Hr].
  unfold get_context in Hr. destruct (contexts _ !! cid) as [c|] eqn:Ec; subst r; [|done]. cbn -[HandleMap_resolve HandleMap_suspended_backend] in H.
  destruct (HandleMap_resolve (VH vs) (session_handles c)) as [[bs]|] eqn:Es; cbn [session_verdict] in H.
  2: { by destruct (HandleMap_suspended_backend _ _). }
  destruct (bool_decide (_ = None) && _); [done|]. observe H a w2. destruct a as [u|]; [|done]. observe H k w3.
  apply ret_ok in H as [[= <- <-] ->].
  destruct (HandleMap_resolve (VH vo) (object_handles c)) as [[bo]|] eqn:Eo.
  2: { unfold policy_gate in Hk. cbn [forwarded object_raw] in Hk. rewrite andb_false_r in Hk. apply ret_ok in Hk as [<- _]. by left. }
  unfold policy_gate in Hk. cbn [forwarded object_raw bh_raw] in Hk.
  destruct (N.eqb_spec bo 0) as [->|Hz]; cbn [negb] in Hk.
  { rewrite andb_false_r in Hk. apply ret_ok in Hk as [<- _]. by left. }
  rewrite andb_true_r in Hk. destruct (per_object_active policy || per_class_active policy) eqn:Ea.
  - apply gate_run in Hk as [->|[-> Hk]]; [by left|right]. split; [by exists c|]. intros _. widen.
  - apply ret_ok in Hk as [<- ->]. right. split; [by exists c|]. apply orb_false_iff in Ea as [-> ->]. by intros [|].
Qed.

(** C5: Whatever the other tasks and the backend do, under an object or class
    policy a handle that resolution hands to an operation is either the invalid
    handle, as for an object that does not exist, or the one the caller's map
    named when the request came in, and the policy permits that object: during
    the request the identity bound to the context, the slot of the session and
    the token in that slot were found, and either the context minted the object
    and, under a class policy, the backend reported a granted class for it in
    that session, or the metadata cached under its handle, or reported by the
    backend for that object in that session, has a granted identifier and, under
    a class policy, a granted class. *)
Theorem resolved_object_permitted (vs vo : N) (stale : CkRv) (session : CkSessionHandle) (object : CkObjectHandle) (w w' : World) :
  per_object_active policy = true \/ per_class_active policy = true ->
  resolve_session_and_handle native policy cid vs vo stale env w = (Ok (session, object), w') ->
  object = MkObject 0 \/ names_handles vs vo session object w /\ object_permitted vs vo session object w w'.
Proof. intros Hact [->|[Hn Hp]]%resolve_handle_run; [by left|right]. auto. Qed.

(** *** Token, mechanism, class and extract gates *)

(** The token gate. *)
Definition slot_granted (slot : BackendSlotId) (w w' : World) : Prop :=
  exists who, identity_found who w w' /\
    (who = Unauthenticated /\ allows_unauthenticated policy = true \/
     exists label serial, token_found slot label serial w w' /\ forall logs, (allows policy who label serial logs).1 = true).

(** What a gate that resolves the token first decides on. *)
Definition granted_on_token (vs : N) (decision : AuthenticatedIdentity -> string -> string -> bool) (w w' : World) : Prop :=
  exists who label serial, holder_found vs who label serial w w' /\ decision who label serial = true.

Lemma slot_gate_run slot w w' : slot_is_authorized policy cid slot env w = (Some (Ok true), w') -> slot_granted slot w w'.
Proof.
  unfold slot_is_authorized. intros H. observe H i w1. destruct i as [i|]; [|done]. apply identity_run in Hi.
  destruct (decide (i = Unauthenticated)) as [->|Hne].
  { injection H as Ha <-. exists Unauthenticated. auto. }
  assert (H' : bind (token_info slot) (fun info =>
      match info with
      | None => ret None
      | Some (Err error) => ret (Some (if rv_eqb error Rv.TOKEN_NOT_PRESENT then Ok false else Err error))
      | Some (Ok (label, serial)) => allowed <- with_logs (allows policy i label serial);; ret (Some (Ok allowed))
      end) env w1 = (Some (Ok true), w')) by (by destruct i).
  clear H. observe H' info w2. destruct info as [[[l s]|e]|]; [|by destruct (rv_eqb e _)|done]. apply token_run in Hinfo.
  observe H' allowed w3. apply ret_ok in H' as [[= ->] ->]. exists i. split; [widen|right]. exists l, s. split; [widen|].
  intros logs. unfold with_logs in Hallowed. destruct (allows policy i l s (w_logs w2)) as [b lg] eqn:Ea. injection Hallowed as -> _.
  assert ((allows policy i l s (w_logs w2)).1 = true) as Hb by (by rewrite Ea). rewrite allows_resolve in * by done. done.
Qed.

Lemma after_authz_run vs (decision : AuthenticatedIdentity -> string -> string -> bool) w w' :
  bind (resolve_object_authz_context cid vs) (fun r =>
    match r with None => ret false | Some (i, l, s) => ret (decision i l s) end) env w = (true, w') ->
  granted_on_token vs decision w w'.
Proof.
  intros H. observe H r w1. destruct r as [[[i l] s]|]; [|done]. apply ret_ok in H as [Hd ->]. apply authz_run in Hr. by exists i, l, s.
Qed.

(** The metadata of the object the caller's map names. *)
Definition unique_id_found (vs vo : N) (md : ObjectMetadata) (w w' : World) : Prop :=
  metadata_cached vo md w w' \/
  exists n m c bs bo, during w w' n m /\ contexts m !! cid = Some c /\
    HandleMap_resolve (VH vs) (session_handles c) = Some bs /\ HandleMap_resolve (VH vo) (object_handles c) = Some bo /\
    metadata_reported (MkSession (bh_raw bs)) (MkObject (bh_raw bo)) md w w'.

#[export] Instance unique_id_found_widens vs vo md : Widens (unique_id_found vs vo md).
Proof.
  intros w0 w w' w1 H0 H1 [H|(n & m & c & bs & bo & H & ? & ? & ? & Hm)]; [left; widen|right].
  exists n, m, c, bs, bo. split_and!; [widen|done..|widen].
Qed.

Lemma uid_run vs vo uid w w' :
  resolve_uid_for_extract native cid vs vo env w = (Some uid, w') ->
  exists md, unique_id md = uid /\ unique_id_found vs vo md w w'.
Proof.
  unfold resolve_uid_for_extract. intros H. observe H cached w1. destruct cached as [md|].
  { apply ret_ok in H as [[= <-] ->]. exists md. split; [done|]. left. by apply cached_run. }
  observe H r w2. apply critical_ok in Hr as [Hd Hr]. unfold get_context in Hr.
  destruct (contexts _ !! cid) as [c|] eqn:Ec; subst r; [|done]. cbn -[HandleMap_resolve] in H.
  destruct (HandleMap_resolve (VH vs) (session_handles c)) as [bs|] eqn:Es; [|done].
  destruct (HandleMap_resolve (VH vo) (object_handles c)) as [bo|] eqn:Eo; [|done].
  observe H md w3. apply ret_ok in H as [Hu ->]. destruct md as [md|]; [|done]. injection Hu as <-. apply fetch_and_cache_run in Hmd.
  exists md. split; [done|right]. eexists _, _, c, bs, bo. split_and!; [widen|done..|widen].
Qed.

(** What the extract gate decides on: the extract grant of the token, or, under
    an object policy, that of the object behind the handle; an identifier that
    cannot be read is no way around a per-object deny. *)
Definition extract_granted (vs vo : N) (who : AuthenticatedIdentity) (label serial : string) (w w' : World) : Prop :=
  if per_object_active policy then
    (exists md, unique_id_found vs vo md w w' /\ extract_allowed_for_object policy who label serial (unique_id md) = true) \/
    has_object_extract_override policy who label serial = false /\ extract_allowed policy who label serial = true
  else extract_allowed policy who label serial = true.

Lemma extract_gate_run vs vo w w' :
  extract_is_permitted native policy cid vs vo env w = (Some true, w') ->
  exists who, identity_found who w w' /\
    (who = Unauthenticated \/
     exists label serial, holder_found vs who label serial w w' /\ extract_granted vs vo who label serial w w').
Proof.
  unfold extract_is_permitted. intros H. observe H i w1. destruct i as [i|]; [|done]. apply identity_run in Hi.
  destruct (decide (i = Unauthenticated)) as [->|Hne].
  { injection H as <-. exists Unauthenticated. auto. }
  assert (H' : bind (critical (fun now => slot_for_session now cid (VH vs))) (fun slot =>
      match slot with
      | None => ret (Some false)
      | Some slot =>
          info <- token_info slot;;
          match info with
          | None => ret None
          | Some (Err _) => ret (Some false)
          | Some (Ok (label, serial)) =>
              if negb (per_object_active policy) then ret (Some (extract_allowed policy i label serial))
              else
                uid <- resolve_uid_for_extract native cid vs vo;;
                match uid with
                | Some uid => ret (Some (extract_allowed_for_object policy i label serial uid))
                | None =>
                    if has_object_extract_override policy i label serial then ret (Some false)
                    else ret (Some (extract_allowed policy i label serial))
                end
          end
      end) env w1 = (Some true, w')) by (by destruct i).
  clear H. observe H' slot w2. destruct slot as [slot|]; [|done]. apply slot_run in Hslot. observe H' info w3.
  destruct info as [[[l s]|]|]; [|done..]. apply token_run in Hinfo. unfold extract_granted.
  destruct (per_object_active policy); cbn [negb] in H'.
  - observe H' uid w4. assert (w' = w4 /\ match uid with
      | Some uid => extract_allowed_for_object policy i l s uid = true
      | None => has_object_extract_override policy i l s = false /\ extract_allowed policy i l s = true
      end) as [-> Hd].
    { destruct uid; [by injection H'|]. destruct (has_object_extract_override _ _ _ _); [done|by injection H']. }
    exists i. split; [widen|right]. exists l, s. split; [split; [widen|]; exists slot; split; widen|].
    destruct uid as [uid|]; [left|by right]. apply uid_run in Huid as (md & <- & Hm). exists md. split; [widen|done].
  - injection H' as Hd <-. exists i. split; [widen|right]. exists l, s. split; [split; [widen|]; exists slot; split; widen|done].
Qed.

(** C35: Whatever the other tasks and the backend do, a gate answers yes only
    where the policy does.  Opening a slot, using a mechanism, minting an object
    of a declared or default class and extracting a key pass only if the policy
    allows it to the identity found bound to the context, on the token found in
    the slot asked about or in the session's slot (and, for an extraction under
    an object policy, for the object behind the handle): found, during the gate,
    in the manager or in the backend's answer about that slot or object.  A token
    that cannot be read is a refusal or an error. *)
Theorem gates_fail_closed (slot : BackendSlotId) (vs vo : N) (mech : CkMechanismType) (template : list CkAttribute)
    (default_class : option CkObjectClass) (w : World) :
  (forall w', slot_is_authorized policy cid slot env w = (Some (Ok true), w') -> slot_granted slot w w') /\
  (forall w', mechanism_permitted policy cid vs mech env w = (true, w') ->
     per_mechanism_active policy = false \/
     granted_on_token vs (fun i l s => allows_mechanism policy i l s mech) w w') /\
  (forall w', class_mint_permitted policy cid vs template default_class env w = (true, w') ->
     per_class_active policy = false \/
     match template_declared_class template, default_class with
     | Some cls, _ | None, Some cls => granted_on_token vs (fun i l s => allows_class policy i l s cls) w w'
     | None, None => True
     end) /\
  (forall w', extract_is_permitted native policy cid vs vo env w = (Some true, w') ->
     exists who, identity_found who w w' /\
       (who = Unauthenticated \/
        exists label serial, holder_found vs who label serial w w' /\ extract_granted vs vo who label serial w w')).
Proof.
  split_and!; intros w' H.
  - by apply slot_gate_run.
  - unfold mechanism_permitted in H. destruct (per_mechanism_active policy); [right|by left]. cbn [negb] in H.
    apply (after_authz_run vs (fun i l s => allows_mechanism policy i l s mech)), H.
  - unfold class_mint_permitted in H. destruct (per_class_active policy); [right|by left]. cbn [negb] in H.
    destruct (template_declared_class template) as [cls|]; [|destruct default_class as [cls|]; [|done]].
    all: apply (after_authz_run vs (fun i l s => allows_class policy i l s cls)), H.
  - by apply extract_gate_run.
Qed.
End gates.

(** ** Private objects *)

Lemma read_touched {R} now cid (f : LogicalClientInstance -> R) m c :
  contexts m !! cid = Some c ->
  get_context now cid (fun c => (f c, c)) m = (Some (f (LogicalClientInstance_touch now c)), touched now cid m).
Proof.
  intros Hc. unfold get_context, touched. rewrite Hc. cbn. by rewrite (alter_present _ _ _ _ Hc).
Qed.

Lemma other_login_touched slot cid now k m :
  other_login_state_for_slot slot cid (touched now k m) = other_login_state_for_slot slot cid m.
Proof.
  apply eq_true_iff_eq. unfold other_login_state_for_slot. rewrite !map_any_true. split.
  - intros (x & v & Hv & Hs). rewrite touched_lookup in Hv. destruct (decide (k = x)); [|by exists x, v].
    apply fmap_Some in Hv as (v0 & Hv0 & ->). by exists x, v0.
  - intros (x & v & Hv & Hs). exists x. rewrite touched_lookup. destruct (decide (k = x)); [|by exists v].
    exists (LogicalClientInstance_touch now v). by rewrite Hv.
Qed.

(** No task but this one. *)
Definition quiet (env : Env) : Prop := forall n m, es_others (env n) m = m.

Section private.
Context (env : Env) (cid : ClientContextId) (c : LogicalClientInstance) (slot : BackendSlotId).
Context (Hq : quiet env).

Lemma rides_exact w m c' now :
  w_mgr w = touched now cid m -> contexts m !! cid = Some c' ->
  (rides_other_login cid slot env w).1 =
    negb (bool_decide (slot ∈ contended_slot_login c')) && other_login_state_for_slot slot cid m /\
  w_calls (rides_other_login cid slot env w).2 = w_calls w.
Proof using Hq.
  intros Hw Hc. unfold rides_other_login, session_slot_contended_login, bind, critical, read. rewrite !Hq, Hw.
  assert (contexts (touched now cid m) !! cid = Some (LogicalClientInstance_touch now c')) as Hc'
    by (rewrite touched_lookup, decide_True, Hc by done; done).
  rewrite (read_touched _ _ _ _ _ Hc'). cbn [fst snd default from_option ret].
  change (contended_slot_login (LogicalClientInstance_touch _ (LogicalClientInstance_touch now c')))
    with (contended_slot_login c').
  case_bool_decide; [done|]. cbn. rewrite Hq. by rewrite !other_login_touched.
Qed.

Context (vs vo : N) (b : BackendHandle).

(** The refusal both private gates make: the caller is logged out, has not
    presented a PIN for the slot, and another client holds its login. *)
Definition must_refuse (m : ContextManager) : bool :=
  bool_decide (login_state c !! slot = None) && negb (bool_decide (slot ∈ contended_slot_login c)) &&
  other_login_state_for_slot slot cid m.

Context (w : World).
Context (Hc : contexts (w_mgr w) !! cid = Some c).
Context (Hb : HandleMap_resolve (VH vs) (session_handles c) = Some b) (Hsl : session_slots c !! VH vs = Some slot).

Lemma bound_session now :
  resolve_session_slot_login now cid vs (w_mgr w) =
  (Ok (MkSession (bh_raw b), slot, login_state c !! slot), touched now cid (w_mgr w)).
Proof using Hc Hb Hsl.
  rewrite resolve_session_slot_login_eq. unfold session_binding. by rewrite Hc, Hb, Hsl.
Qed.

Lemma private_use_run (private : bool) (session : CkSessionHandle) (object : CkObjectHandle) :
  object_private c !! VH vo = Some private ->
  (ensure_private_use_allowed cid vs vo session object env w).1 =
    (if private && must_refuse (w_mgr w) then Err Rv.USER_NOT_LOGGED_IN else Ok tt) /\
  w_calls (ensure_private_use_allowed cid vs vo session object env w).2 = w_calls w.
Proof using Hq Hc Hb Hsl.
  intros Hpr. unfold ensure_private_use_allowed, bind, critical. rewrite Hq, bound_session. cbv beta iota.
  unfold must_refuse. destruct (login_state c !! slot) as [st|].
  { rewrite (bool_decide_false (Some st = None)) by done. cbn [andb]. by rewrite andb_false_r. }
  rewrite (bool_decide_true (None = None)) by done.
  unfold object_is_private, bind, critical. rewrite !Hq. cbn [w_mgr w_step w_calls w_logs].
  set (now := es_now (env (w_step w))). set (m := w_mgr w).
  assert (contexts (touched now cid m) !! cid = Some (LogicalClientInstance_touch now c)) as Hc'
    by (rewrite touched_lookup, decide_True by done; by rewrite (Hc : contexts m !! cid = Some c)).
  rewrite (read_touched _ _ _ _ _ Hc'). cbv beta iota.
  change (object_private (LogicalClientInstance_touch _ (LogicalClientInstance_touch _ c))) with (object_private c).
  rewrite Hpr. cbn [mjoin option_join ret]. destruct private; [|done].
  match goal with |- context [rides_other_login cid slot env ?w0] =>
    destruct (rides_exact w0 _ _ _ eq_refl Hc') as [Hr Hk]; destruct (rides_other_login cid slot env w0) as [r w'] end.
  cbn in Hr, Hk |- *. subst r. by rewrite other_login_touched.
Qed.

Lemma private_mint_run (template : list CkAttribute) :
  (ensure_private_mint_allowed cid vs template env w).1 =
    (if template_declares_private_object template && must_refuse (w_mgr w)
     then Err Rv.USER_NOT_LOGGED_IN else Ok tt) /\
  w_calls (ensure_private_mint_allowed cid vs template env w).2 = w_calls w.
Proof using Hq Hc Hb Hsl.
  unfold ensure_private_mint_allowed. destruct (template_declares_private_object template); [|done]. cbn [negb].
  unfold bind, critical. rewrite Hq, bound_session. cbv beta iota.
  unfold must_refuse. destruct (login_state c !! slot) as [st|].
  { rewrite (bool_decide_false (Some st = None)) by done. done. }
  rewrite (bool_decide_true (None = None)) by done.
  match goal with |- context [rides_other_login cid slot env ?w0] =>
    destruct (rides_exact w0 _ _ _ eq_refl Hc) as [Hr Hk]; destruct (rides_other_login cid slot env w0) as [r w'] end.
  cbn in Hr, Hk |- *. by subst r.
Qed.

(** With no concurrent task: a logged-out caller is refused the use and the
    minting of a private object with USER_NOT_LOGGED_IN exactly while another
    client holds the slot's login and the caller has presented no PIN for it.
    The decision on an object with a recorded privacy bit, and the one on a
    template, make no backend call. *)
Theorem private_gates_exact (private : bool) (session : CkSessionHandle) (object : CkObjectHandle)
    (template : list CkAttribute) :
  object_private c !! VH vo = Some private ->
  (ensure_private_use_allowed cid vs vo session object env w).1 =
    (if private && must_refuse (w_mgr w) then Err Rv.USER_NOT_LOGGED_IN else Ok tt) /\
  w_calls (ensure_private_use_allowed cid vs vo session object env w).2 = w_calls w /\
  (ensure_private_mint_allowed cid vs template env w).1 =
    (if template_declares_private_object template && must_refuse (w_mgr w)
     then Err Rv.USER_NOT_LOGGED_IN else Ok tt) /\
  w_calls (ensure_private_mint_allowed cid vs template env w).2 = w_calls w.
Proof using Hq Hc Hb Hsl.
  intros Hpr. destruct (private_use_run private session object Hpr) as [? ?].
  by destruct (private_mint_run template).
Qed.
End private.

(** ** Concrete runs *)

Definition demo_ctx : LogicalClientInstance :=
  let c := LogicalClientInstance_new "ctx" 0 (Some "uid=1000") in
  let c := (LogicalClientInstance_register_session (BH 71) (demo_slot 5) c).2 in
  c <| object_handles ::= fun m => (HandleMap_insert (BH 900) m).2 |>
    <| object_private := {[ VH 1 := true ]} |>.

Definition demo_other : LogicalClientInstance :=
  LogicalClientInstance_new "other" 0 (Some "uid=2000") <| login_state := {[ demo_slot 5 := User ]} |>.

Definition demo_mgr : ContextManager :=
  ContextManager_new 60 4 <| contexts := {[ "ctx" := demo_ctx ]} |>.

Definition demo_mgr_shared : ContextManager :=
  demo_mgr <| contexts := {[ "ctx" := demo_ctx; "other" := demo_other ]} |>.

Definition demo_env : Env := fun _ =>
  MkEnvStep 7 (fun m => m) (fun _ => Some (Ok ("Audit", "1")))
    (fun _ _ _ => Some (Ok [Some (AvBytes [170]); Some (AvUlong 4); Some (AvBool true)]))
    true (Done (Ok 71)) (fun _ => Done (Ok 0)) (MkLogoutEnv true (fun m => m) false false).

Definition demo_world : World := MkWorld demo_mgr demo_logs 0 [] [] [].

Definition demo_grants : AuthConfig :=
  MkAuthConfig false
    [MkPolicyEntry "uid=1000" (SpecSpecific [GrantRich (MkRichGrant "label:Audit" (Some ["secret_key"])
       (Some ["CKM_AES_GCM"]) Allow (Some [ObjectRich "aa" (Some Allow)]))])] None.

Definition demo_hex (s : string) : option (list N) := if bool_decide (s = "aa") then Some [170] else None.

Definition demo_granted : TokenPolicy :=
  match from_config demo_hex demo_grants with Ok p => p | Err _ => TokenPolicy_default end.

Lemma resolved_object_permitted_witness :
  MkObject 900 = MkObject 0 \/
  names_handles demo_env "ctx" 1 1 (MkSession 71) (MkObject 900) demo_world /\
  object_permitted Little demo_env demo_granted "ctx" 1 1 (MkSession 71) (MkObject 900) demo_world
    (resolve_session_and_handle Little demo_granted "ctx" 1 1 Rv.KEY_HANDLE_INVALID demo_env demo_world).2.
Proof.
  apply (resolved_object_permitted Little demo_env demo_granted "ctx" 1 1 Rv.KEY_HANDLE_INVALID (MkSession 71) (MkObject 900)
    demo_world _ (or_introl eq_refl)).
  vm_compute. reflexivity.
Defined.

Lemma gates_fail_closed_witness :
  granted_on_token demo_env "ctx" 1 (fun i l s => allows_mechanism demo_granted i l s 4231) demo_world
    (mechanism_permitted demo_granted "ctx" 1 4231 demo_env demo_world).2.
Proof.
  destruct (proj1 (proj2 (gates_fail_closed Little demo_env demo_granted "ctx" (demo_slot 5) 1 1 4231 [] None demo_world))
    (mechanism_permitted demo_granted "ctx" 1 4231 demo_env demo_world).2) as [H|H].
  - vm_compute. reflexivity.
  - vm_compute in H. discriminate H.
  - exact H.
Defined.

Lemma private_gates_exact_witness :
  (ensure_private_use_allowed "ctx" 1 1 (MkSession 71) (MkObject 900) demo_env
     (MkWorld demo_mgr_shared demo_logs 0 [] [] [])).1 =
  (if true && must_refuse "ctx" demo_ctx (demo_slot 5) demo_mgr_shared then Err Rv.USER_NOT_LOGGED_IN else Ok tt).
Proof.
  apply (private_gates_exact demo_env "ctx" demo_ctx (demo_slot 5) (fun n m => eq_refl) 1 1 (BH 71)
    (MkWorld demo_mgr_shared demo_logs 0 [] [] [])
    eq_refl eq_refl eq_refl true (MkSession 71) (MkObject 900) [] eq_refl).
Defined.

Lemma context_ownership_witness :
  (@enforce_context_owner demo_reader (MkTransportInfo (Some (Some 1000)) None) "ctx" TcpMtls UnixPeerCred
     demo_env demo_world).1 = Ok tt.
Proof.
  refine (@context_ownership demo_reader demo_reader_laws demo_env demo_world
    (MkTransportInfo (Some (Some 1000)) None) "ctx" TcpMtls UnixPeerCred (PeerCred 1000) _ _ _).
  - vm_compute. discriminate.
  - intros uid [= <-]. vm_compute. discriminate.
  - vm_compute. reflexivity.
Defined.
