(* ===== verification/Shapes.v ===== *)
(** * Shapes of mechanism parameters

    Models [crates/types/src/shape_descriptors.rs]: the C layout engine over
    field sequences, the layout fingerprint, the compiled table of parameter
    shapes, the resolver, and the rules that decide whether a parameter may
    travel as flat bytes.

    The depth-one rule for nested structs, which the source enforces by tests
    and panics, is a matter of typing here: the inner sequence of a nested
    field holds leaves only.  Sizes and offsets of the compiled shapes are
    tiny, so [usize] is [N]. *)

From S2P Require Import Prelude Text.
Open Scope N_scope.

(** ** Native ABI *)

Inductive ParamAbi := Lp64NativeLe | Ilp32NativeLe | Llp64Packed1Le | Ilp32Packed1Le.
#[export] Instance ParamAbi_eq_dec : EqDecision ParamAbi.
Proof. solve_decision. Defined.

Definition ulong_size (abi : ParamAbi) : N :=
  match abi with Lp64NativeLe => 8 | Ilp32NativeLe | Llp64Packed1Le | Ilp32Packed1Le => 4 end.
Definition pointer_size (abi : ParamAbi) : N :=
  match abi with Lp64NativeLe | Llp64Packed1Le => 8 | Ilp32NativeLe | Ilp32Packed1Le => 4 end.
Definition packed (abi : ParamAbi) : bool :=
  match abi with Llp64Packed1Le | Ilp32Packed1Le => true | Lp64NativeLe | Ilp32NativeLe => false end.
Definition byte_order_code (abi : ParamAbi) : N := 0.

(** ** Layout engine *)

(** A field that is not a struct. *)
Inductive LeafClass := LUlong | LHandle | LPointer | LU8 | LBytes (n : N).
Inductive FieldClass := Leaf (l : LeafClass) | Nested (inner : list LeafClass).
Abbreviation Ulong := (Leaf LUlong).
Abbreviation Handle := (Leaf LHandle).
Abbreviation Pointer := (Leaf LPointer).
Abbreviation U8 := (Leaf LU8).
Abbreviation Bytes n := (Leaf (LBytes n)).
#[export] Instance LeafClass_eq_dec : EqDecision LeafClass.
Proof. solve_decision. Defined.
#[export] Instance FieldClass_eq_dec : EqDecision FieldClass.
Proof. solve_decision. Defined.

Definition align_up (offset align : N) : N := (offset + (align - 1)) / align * align.

Definition flat_size_align (field : LeafClass) (abi : ParamAbi) : N * N :=
  match field with
  | LUlong | LHandle => let size := ulong_size abi in (size, if packed abi then 1 else size)
  | LPointer => let size := pointer_size abi in (size, if packed abi then 1 else size)
  | LU8 => (1, 1)
  | LBytes n => (n, 1)
  end.

(** One round of the size loop: the end of the field and the largest
    alignment so far. *)
Definition grow (acc sa : N * N) : N * N :=
  (align_up acc.1 sa.2 + sa.1, if acc.2 <? sa.2 then sa.2 else acc.2).

Definition nested_size_align (inner : list LeafClass) (abi : ParamAbi) : N * N :=
  let '(size, align) := foldl (fun acc f => grow acc (flat_size_align f abi)) (0, 1) inner in
  (align_up size align, align).

Definition field_size_align (field : FieldClass) (abi : ParamAbi) : N * N :=
  match field with
  | Nested inner => nested_size_align inner abi
  | Leaf flat => flat_size_align flat abi
  end.

Definition native_size_of (fields : list FieldClass) (abi : ParamAbi) : N :=
  let '(size, align) := foldl (fun acc f => grow acc (field_size_align f abi)) (0, 1) fields in
  align_up size align.

(** [None]: the index is out of range and the source panics. *)
Fixpoint field_offset_from (offset : N) (fields : list FieldClass) (abi : ParamAbi) (index : nat) : option N :=
  match fields, index with
  | [], _ => None
  | f :: _, O => Some (align_up offset (field_size_align f abi).2)
  | f :: fields, S index =>
      field_offset_from (align_up offset (field_size_align f abi).2 + (field_size_align f abi).1) fields abi index
  end.
Definition field_offset_of (fields : list FieldClass) (abi : ParamAbi) (index : nat) : option N :=
  field_offset_from 0 fields abi index.

Definition is_unsafe (l : LeafClass) : bool := match l with LPointer | LHandle => true | _ => false end.

Fixpoint first_unsafe_inner (offset : N) (inner : list LeafClass) (abi : ParamAbi) : option N :=
  match inner with
  | [] => None
  | f :: inner =>
      let '(size, align) := flat_size_align f abi in
      let start := align_up offset align in
      if is_unsafe f then Some start else first_unsafe_inner (start + size) inner abi
  end.

Fixpoint first_unsafe_from (offset : N) (fields : list FieldClass) (abi : ParamAbi) : option N :=
  match fields with
  | [] => None
  | f :: fields =>
      let '(size, align) := field_size_align f abi in
      let start := align_up offset align in
      match f with
      | Leaf l => if is_unsafe l then Some start else first_unsafe_from (start + size) fields abi
      | Nested inner =>
          match first_unsafe_inner 0 inner abi with
          | Some nested => Some (start + nested)
          | None => first_unsafe_from (start + size) fields abi
          end
      end
  end.
Definition first_unsafe_offset_of (fields : list FieldClass) (abi : ParamAbi) : option N := first_unsafe_from 0 fields abi.

Definition is_handle (l : LeafClass) : bool := match l with LHandle => true | _ => false end.
Definition contains_handle_in (fields : list FieldClass) : bool :=
  existsb (fun f => match f with Leaf l => is_handle l | Nested inner => existsb is_handle inner end) fields.

(** ** Layout fingerprint: FNV-1a *)

Definition FNV_OFFSET_BASIS : N := 0xcbf29ce484222325.
Definition FNV_PRIME : N := 0x100000001b3.
Definition ABI_EXEMPT_FINGERPRINT : N := 0x54504d5845494241.

Definition fnv_byte (hash byte : N) : N := (N.lxor hash byte * FNV_PRIME) mod u64_modulus.

Definition fnv_le32 (hash value : N) : N :=
  let hash := fnv_byte hash (N.land value 0xFF) in
  let hash := fnv_byte hash (N.land (N.shiftr value 8) 0xFF) in
  let hash := fnv_byte hash (N.land (N.shiftr value 16) 0xFF) in
  fnv_byte hash (N.land (N.shiftr value 24) 0xFF).

Fixpoint fnv_bytes (hash : N) (bytes : string) : N :=
  match bytes with
  | EmptyString => hash
  | String c bytes => fnv_bytes (fnv_byte hash (Ascii.N_of_ascii c)) bytes
  end.

(** [as u32]. *)
Definition as_u32 (n : N) : N := n mod 2 ^ 32.

Definition leaf_count_of (fields : list FieldClass) : nat :=
  foldl (fun count f => match f with Nested inner => count + length inner | Leaf _ => count + 1 end)%nat 0%nat fields.

(** The inner loop of [hash_leaves]: hash and inner offset. *)
Definition hash_inner (start : N) (abi : ParamAbi) (hash : N) (inner : list LeafClass) : N :=
  (foldl (fun '(hash, offset) f =>
     let '(size, align) := flat_size_align f abi in
     let nested_start := align_up offset align in
     (fnv_le32 (fnv_le32 hash (as_u32 (start + nested_start))) (as_u32 size), nested_start + size)) (hash, 0) inner).1.

Definition hash_leaves (hash : N) (fields : list FieldClass) (abi : ParamAbi) : N :=
  (foldl (fun '(hash, offset) f =>
     let '(size, align) := field_size_align f abi in
     let start := align_up offset align in
     (match f with
      | Nested inner => hash_inner start abi hash inner
      | Leaf _ => fnv_le32 (fnv_le32 hash (as_u32 start)) (as_u32 size)
      end, start + size)) (hash, 0) fields).1.

(** The padding loops of [pad_count_of] and [hash_pads]: what is accumulated
    for a gap is the argument [pad]; the state is the accumulator and the end
    of the previous leaf. *)
Definition pad_inner {A} (pad : A -> N -> N -> A) (start : N) (abi : ParamAbi) (acc : A) (prev_end : N) (inner : list LeafClass) : A * N :=
  (foldl (fun '(acc, prev_end, offset) f =>
     let '(size, align) := flat_size_align f abi in
     let leaf_start := start + align_up offset align in
     ((if prev_end <? leaf_start then pad acc prev_end (leaf_start - prev_end) else acc, leaf_start + size), align_up offset align + size))
     ((acc, prev_end), 0) inner).1.

Definition pad_fold {A} (pad : A -> N -> N -> A) (acc : A) (fields : list FieldClass) (abi : ParamAbi) : A :=
  let native := native_size_of fields abi in
  let '(acc, prev_end) :=
    (foldl (fun '(acc, prev_end, offset) f =>
       let '(size, align) := field_size_align f abi in
       let start := align_up offset align in
       (match f with
        | Nested inner => pad_inner pad start abi acc prev_end inner
        | Leaf _ => (if prev_end <? start then pad acc prev_end (start - prev_end) else acc, start + size)
        end, start + size)) ((acc, 0), 0) fields).1 in
  if prev_end <? native then pad acc prev_end (native - prev_end) else acc.

Definition pad_count_of (fields : list FieldClass) (abi : ParamAbi) : nat := pad_fold (fun n _ _ => S n) 0%nat fields abi.
Definition hash_pads (hash : N) (fields : list FieldClass) (abi : ParamAbi) : N :=
  pad_fold (fun hash at_ size => fnv_le32 (fnv_le32 hash (as_u32 at_)) (as_u32 size)) hash fields abi.

Definition layout_fingerprint (shape form : string) (abi : ParamAbi) (fields : list FieldClass) : N :=
  let hash := FNV_OFFSET_BASIS in
  let hash := fnv_le32 hash (as_u32 (N.of_nat (String.length shape))) in
  let hash := fnv_bytes hash shape in
  let hash := fnv_le32 hash (as_u32 (N.of_nat (String.length form))) in
  let hash := fnv_bytes hash form in
  let hash := fnv_le32 hash (as_u32 (ulong_size abi)) in
  let hash := fnv_le32 hash (byte_order_code abi) in
  let hash := fnv_le32 hash (as_u32 (native_size_of fields abi)) in
  let hash := fnv_le32 hash (as_u32 (N.of_nat (leaf_count_of fields))) in
  let hash := hash_leaves hash fields abi in
  let hash := fnv_le32 hash (as_u32 (N.of_nat (pad_count_of fields abi))) in
  hash_pads hash fields abi.

(** ** Descriptors *)

Inductive OuterKind := Parameterless | ByteBuffer | ScalarStruct | PointerStruct | NestedOrOutput.
#[export] Instance OuterKind_eq_dec : EqDecision OuterKind.
Proof. solve_decision. Defined.

Inductive Operation := General | WrapKey.
#[export] Instance Operation_eq_dec : EqDecision Operation.
Proof. solve_decision. Defined.
Definition ALL_OPERATIONS : list Operation := [General; WrapKey].
Definition WRAP_ONLY_OPERATIONS : list Operation := [WrapKey].

Record SharedLengthGroup := MkSharedLengthGroup { length_field : nat; pointers : list nat }.

Record AlternateForm := MkAlternateForm {
  af_name : string;
  af_outer_kind : OuterKind;
  af_fields : list FieldClass;
  af_shared_length_groups : list SharedLengthGroup;
  af_contains_virtual_handle : bool;
}.

Record ShapeDescriptor := MkShapeDescriptor {
  sd_name : string;
  sd_outer_kind : OuterKind;
  sd_fields : list FieldClass;
  alternate_forms : list AlternateForm;
  sd_operations : list Operation;
  sd_shared_length_groups : list SharedLengthGroup;
  sd_contains_virtual_handle : bool;
}.

Definition GCM_FIELDS : list FieldClass := [Pointer; Ulong; Ulong; Pointer; Ulong; Ulong].
Definition RANDOM_DATA_INNER_FIELDS : list LeafClass := [LPointer; LUlong; LPointer; LUlong].

Definition bare_shape (name : string) (outer_kind : OuterKind) : ShapeDescriptor :=
  MkShapeDescriptor name outer_kind [] [] ALL_OPERATIONS [] false.
Definition scalar_shape (name : string) (fields : list FieldClass) : ShapeDescriptor :=
  MkShapeDescriptor name ScalarStruct fields [] ALL_OPERATIONS [] false.
Definition pointer_shape (name : string) (fields : list FieldClass) : ShapeDescriptor :=
  MkShapeDescriptor name PointerStruct fields [] ALL_OPERATIONS [] false.
Definition pointer_shape_with_handle (name : string) (fields : list FieldClass) : ShapeDescriptor :=
  MkShapeDescriptor name PointerStruct fields [] ALL_OPERATIONS [] true.
Definition nested_shape (name : string) (fields : list FieldClass) : ShapeDescriptor :=
  MkShapeDescriptor name NestedOrOutput fields [] ALL_OPERATIONS [] false.
Definition nested_shape_with_handle (name : string) (fields : list FieldClass) : ShapeDescriptor :=
  MkShapeDescriptor name NestedOrOutput fields [] ALL_OPERATIONS [] true.

Definition SHAPE_DESCRIPTORS : list ShapeDescriptor :=
  [ pointer_shape "aes_cbc_encrypt_data" [Bytes 16; Pointer; Ulong];
    scalar_shape "aes_ctr" [Ulong; Bytes 16];
    pointer_shape "aria_cbc_encrypt_data" [Bytes 16; Pointer; Ulong];
    pointer_shape "camellia_cbc_encrypt_data" [Bytes 16; Pointer; Ulong];
    scalar_shape "camellia_ctr" [Ulong; Bytes 16];
    pointer_shape "ccm" [Ulong; Pointer; Ulong; Pointer; Ulong; Ulong];
    MkShapeDescriptor "ccm_wrap" PointerStruct [Ulong; Pointer; Ulong; Ulong; Ulong; Pointer; Ulong; Ulong] [] WRAP_ONLY_OPERATIONS [] false;
    pointer_shape "chacha20" [Pointer; Ulong; Pointer; Ulong];
    pointer_shape "des_cbc_encrypt_data" [Bytes 8; Pointer; Ulong];
    pointer_shape "ecdh1_derive" [Ulong; Ulong; Pointer; Ulong; Pointer];
    pointer_shape_with_handle "ecdh2_derive" [Ulong; Ulong; Pointer; Ulong; Pointer; Ulong; Handle; Ulong; Pointer];
    pointer_shape "ecdh_aes_key_wrap" [Ulong; Ulong; Ulong; Pointer];
    pointer_shape_with_handle "ecmqv_derive" [Ulong; Ulong; Pointer; Ulong; Pointer; Ulong; Handle; Ulong; Pointer; Handle];
    pointer_shape "eddsa" [U8; Ulong; Pointer];
    scalar_shape "extract" [Ulong];
    pointer_shape "gcm" GCM_FIELDS;
    MkShapeDescriptor "gcm_compat" ByteBuffer [] [MkAlternateForm "struct" PointerStruct GCM_FIELDS [] false] ALL_OPERATIONS [] false;
    MkShapeDescriptor "gcm_wrap" PointerStruct [Pointer; Ulong; Ulong; Ulong; Pointer; Ulong; Ulong] [] WRAP_ONLY_OPERATIONS [] false;
    pointer_shape "gostr3410_derive" [Ulong; Pointer; Ulong; Pointer; Ulong];
    pointer_shape_with_handle "gostr3410_key_wrap" [Pointer; Ulong; Pointer; Ulong; Handle];
    pointer_shape_with_handle "hkdf" [U8; U8; Ulong; Ulong; Pointer; Ulong; Handle; Pointer; Ulong];
    pointer_shape_with_handle "ike1_extended_derive" [Ulong; U8; Handle; Pointer; Ulong];
    pointer_shape_with_handle "ike1_prf_derive" [Ulong; U8; Handle; Handle; Pointer; Ulong; Pointer; Ulong; U8];
    pointer_shape_with_handle "ike2_prf_plus_derive" [Ulong; U8; Handle; Pointer; Ulong];
    pointer_shape_with_handle "ike_prf_derive" [Ulong; U8; U8; Pointer; Ulong; Pointer; Ulong; Handle];
    bare_shape "iv" ByteBuffer;
    MkShapeDescriptor "kea_derive" NestedOrOutput [U8; Ulong; Pointer; Pointer; Ulong; Pointer] [] ALL_OPERATIONS [MkSharedLengthGroup 1 [2; 3]%nat] false;
    pointer_shape "key_derivation_string" [Pointer; Ulong];
    pointer_shape "key_wrap_set_oaep" [U8; Pointer; Ulong];
    nested_shape_with_handle "kip" [Pointer; Handle; Pointer; Ulong];
    pointer_shape_with_handle "kmac" [Handle; Ulong; Pointer; Ulong];
    scalar_shape "mac_general" [Ulong];
    pointer_shape_with_handle "mu_gen" [Handle; Pointer; Ulong; Pointer; Ulong];
    MkShapeDescriptor "object_handle" ScalarStruct [Handle] [] ALL_OPERATIONS [] true;
    nested_shape "otp" [Pointer; Ulong];
    bare_shape "parameterless" Parameterless;
    pointer_shape "pbe" [Pointer; Pointer; Ulong; Pointer; Ulong; Ulong];
    pointer_shape "pkcs5_pbkd2" [Ulong; Pointer; Ulong; Ulong; Ulong; Pointer; Ulong; Pointer; Ulong];
    scalar_shape "rc2_cbc" [Ulong; Bytes 8];
    scalar_shape "rc2_mac_general" [Ulong; Ulong];
    scalar_shape "rc5" [Ulong; Ulong];
    pointer_shape "rc5_cbc" [Ulong; Ulong; Pointer; Ulong];
    scalar_shape "rc5_mac_general" [Ulong; Ulong; Ulong];
    pointer_shape "rsa_aes_key_wrap" [Ulong; Pointer];
    pointer_shape "rsa_oaep" [Ulong; Ulong; Ulong; Pointer; Ulong];
    scalar_shape "rsa_pss" [Ulong; Ulong; Ulong];
    pointer_shape "salsa20" [Pointer; Pointer; Ulong];
    pointer_shape "salsa20_chacha20_poly1305" [Pointer; Ulong; Pointer; Ulong];
    pointer_shape "seed_cbc_encrypt_data" [Bytes 16; Pointer; Ulong];
    MkShapeDescriptor "sign_additional_context" PointerStruct [Ulong; Pointer; Ulong] [MkAlternateForm "hash" PointerStruct [Ulong; Pointer; Ulong; Ulong] [] false] ALL_OPERATIONS [] false;
    MkShapeDescriptor "skipjack_private_wrap" NestedOrOutput [Ulong; Pointer; Ulong; Pointer; Ulong; Ulong; Ulong; Pointer; Pointer; Pointer; Pointer] [] ALL_OPERATIONS [MkSharedLengthGroup 4 [8; 9]%nat] false;
    nested_shape "skipjack_relayx" [Ulong; Pointer; Ulong; Pointer; Ulong; Pointer; Ulong; Pointer; Ulong; Pointer; Ulong; Pointer; Ulong; Pointer];
    nested_shape "sp800_108_feedback_kdf" [Ulong; Ulong; Pointer; Ulong; Pointer; Ulong; Pointer];
    nested_shape "sp800_108_kdf" [Ulong; Ulong; Pointer; Ulong; Pointer];
    MkShapeDescriptor "ssl3_key_mat" NestedOrOutput [Ulong; Ulong; Ulong; U8; Nested RANDOM_DATA_INNER_FIELDS; Pointer] [MkAlternateForm "tls12" NestedOrOutput [Ulong; Ulong; Ulong; U8; Nested RANDOM_DATA_INNER_FIELDS; Pointer; Ulong] [] false] ALL_OPERATIONS [] false;
    pointer_shape "ssl3_master_key_derive" [Nested RANDOM_DATA_INNER_FIELDS; Pointer];
    pointer_shape "tls12_extended_master_key_derive" [Ulong; Pointer; Ulong; Pointer];
    pointer_shape "tls12_master_key_derive" [Nested RANDOM_DATA_INNER_FIELDS; Pointer; Ulong];
    pointer_shape "tls_kdf" [Ulong; Pointer; Ulong; Nested RANDOM_DATA_INNER_FIELDS; Pointer; Ulong];
    scalar_shape "tls_mac" [Ulong; Ulong; Ulong];
    nested_shape "tls_prf" [Pointer; Ulong; Pointer; Ulong; Pointer; Pointer];
    nested_shape "wtls_key_mat" [Ulong; Ulong; Ulong; Ulong; Ulong; U8; Nested RANDOM_DATA_INNER_FIELDS; Pointer];
    pointer_shape "wtls_master_key_derive" [Ulong; Nested RANDOM_DATA_INNER_FIELDS; Pointer];
    nested_shape "wtls_prf" [Ulong; Pointer; Ulong; Pointer; Ulong; Pointer; Pointer];
    pointer_shape "x942_dh1_derive" [Ulong; Ulong; Pointer; Ulong; Pointer];
    pointer_shape_with_handle "x942_dh2_derive" [Ulong; Ulong; Pointer; Ulong; Pointer; Ulong; Handle; Ulong; Pointer];
    pointer_shape_with_handle "x942_mqv_derive" [Ulong; Ulong; Pointer; Ulong; Pointer; Ulong; Handle; Ulong; Pointer; Handle];
    scalar_shape "xeddsa" [Ulong] ].

(** ** The resolver *)

Record OperationContext := MkOperationContext { oc_mechanism : N; oc_operation : Operation; oc_length : N }.

Record ResolvedShape := MkResolvedShape { rs_descriptor : ShapeDescriptor; rs_alternate : option AlternateForm }.
Definition ResolvedShape_primary (d : ShapeDescriptor) : ResolvedShape := MkResolvedShape d None.

Definition outer_kind (r : ResolvedShape) : OuterKind :=
  match rs_alternate r with Some form => af_outer_kind form | None => sd_outer_kind (rs_descriptor r) end.
Definition shape_fields (r : ResolvedShape) : list FieldClass :=
  match rs_alternate r with Some form => af_fields form | None => sd_fields (rs_descriptor r) end.
Definition form_name (r : ResolvedShape) : string :=
  match rs_alternate r with Some form => af_name form | None => EmptyString end.
Definition native_size (r : ResolvedShape) (abi : ParamAbi) : option N :=
  match shape_fields r with [] => None | _ => Some (native_size_of (shape_fields r) abi) end.
Definition first_unsafe_offset (r : ResolvedShape) (abi : ParamAbi) : option N := first_unsafe_offset_of (shape_fields r) abi.
Definition fingerprint (r : ResolvedShape) (abi : ParamAbi) : N :=
  match shape_fields r with
  | [] => ABI_EXEMPT_FINGERPRINT
  | _ => layout_fingerprint (sd_name (rs_descriptor r)) (form_name r) abi (shape_fields r)
  end.
Definition contains_virtual_handle (r : ResolvedShape) : bool :=
  match rs_alternate r with Some form => af_contains_virtual_handle form | None => sd_contains_virtual_handle (rs_descriptor r) end.

(** The binary search over the table, which is sorted by name
    ([table_sorted]), finds the row of that name. *)
Definition descriptor (shape : string) : option ShapeDescriptor :=
  find (fun d => bool_decide (sd_name d = shape)) SHAPE_DESCRIPTORS.

Definition wrap_native_len (name : string) (abi : ParamAbi) : option N :=
  d ← descriptor name; native_size (ResolvedShape_primary d) abi.

Definition CKM_AES_GCM : N := 0x1087.
Definition CKM_AES_CCM : N := 0x1088.

Definition resolve (bound_shape : option string) (ctx : OperationContext) (local_abi : ParamAbi) : option ResolvedShape :=
  let wrap := bool_decide (oc_operation ctx = WrapKey) in
  if wrap && (oc_mechanism ctx =? CKM_AES_GCM) && bool_decide (Some (oc_length ctx) = wrap_native_len "gcm_wrap" local_abi)
  then ResolvedShape_primary <$> descriptor "gcm_wrap"
  else if wrap && (oc_mechanism ctx =? CKM_AES_CCM) && bool_decide (Some (oc_length ctx) = wrap_native_len "ccm_wrap" local_abi)
  then ResolvedShape_primary <$> descriptor "ccm_wrap"
  else
    shape ← bound_shape;
    d ← descriptor shape;
    Some (MkResolvedShape d (find (fun form => native_size_of (af_fields form) local_abi <=? oc_length ctx) (alternate_forms d))).

(** ** Message-opaque admission *)

Definition form_admits (kind : OuterKind) : bool := match kind with ByteBuffer | Parameterless => true | _ => false end.
Definition message_opaque_admits_shape (shape_name : option string) : bool :=
  match shape_name ≫= descriptor with
  | None => false
  | Some d => form_admits (sd_outer_kind d) && forallb (fun form => form_admits (af_outer_kind form)) (alternate_forms d)
  end.

(** ** Flat eligibility *)

Definition FLAT_MAX_BYTES : N := 64 * 1024.
Definition VENDOR_MECHANISM_MIN : N := 0x80000000.
Definition VENDOR_FLAT_ALLOWLIST : list (N * string) := [].
Definition is_vendor_mechanism (mechanism : N) : bool := VENDOR_MECHANISM_MIN <=? mechanism.

Definition vendor_flat_allowed (allowlist : list (N * string)) (mechanism : N) (bound_shape : option string)
    (parameterless_listed : bool) : bool :=
  let effective := match bound_shape, parameterless_listed with
                   | Some shape, _ => Some shape
                   | None, true => Some "parameterless"
                   | None, false => None
                   end in
  match effective with
  | Some shape => existsb (fun '(id, name) => (id =? mechanism) && bool_decide (name = shape)) allowlist
  | None => false
  end.

Record FlatRequest := MkFlatRequest {
  fr_mechanism : N;
  fr_operation : Operation;
  fr_declared_len : N;
  fr_bound_shape : option string;
  fr_parameterless_listed : bool;
  fr_excluded : bool;
  fr_peer_fingerprint : N;
  fr_peer_abi : ParamAbi;
  fr_local_abi : ParamAbi;
}.

Inductive FlatDenyReason :=
| OverCap
| VendorWithoutAllowlist
| UnknownShape
| DenyNestedOrOutput
| FullNativeImage
| AbiMismatch (expected got : ParamAbi)
| FingerprintMismatch (expected got : N)
| PrefixTooLong (declared_len first_unsafe_offset : N).

Record FlatGrant := MkFlatGrant { fg_resolved : ResolvedShape; fg_fingerprint : N; fg_local_abi : ParamAbi }.

Inductive FlatDecision := Eligible (grant : FlatGrant) | Denied (reason : FlatDenyReason) | Excluded.

(** The struct rules, once the shape is resolved. *)
Definition decide_struct (req : FlatRequest) (resolved : ResolvedShape) : FlatDecision :=
  if bool_decide (Some (fr_declared_len req) = native_size resolved (fr_local_abi req)) then Denied FullNativeImage
  else if negb (bool_decide (fr_peer_abi req = fr_local_abi req)) then Denied (AbiMismatch (fr_local_abi req) (fr_peer_abi req))
  else
    let expected := fingerprint resolved (fr_local_abi req) in
    if negb (fr_peer_fingerprint req =? expected) then Denied (FingerprintMismatch expected (fr_peer_fingerprint req))
    else
      match first_unsafe_offset resolved (fr_local_abi req) with
      | Some first =>
          if fr_declared_len req <=? first then Eligible (MkFlatGrant resolved expected (fr_local_abi req))
          else Denied (PrefixTooLong (fr_declared_len req) first)
      | None => Eligible (MkFlatGrant resolved expected (fr_local_abi req))
      end.

Definition decide_flat (req : FlatRequest) : FlatDecision :=
  if fr_excluded req then Excluded
  else if FLAT_MAX_BYTES <? fr_declared_len req then Denied OverCap
  else if is_vendor_mechanism (fr_mechanism req) &&
          negb (vendor_flat_allowed VENDOR_FLAT_ALLOWLIST (fr_mechanism req) (fr_bound_shape req) (fr_parameterless_listed req))
  then Denied VendorWithoutAllowlist
  else
    let ctx := MkOperationContext (fr_mechanism req) (fr_operation req) (fr_declared_len req) in
    match resolve (fr_bound_shape req) ctx (fr_local_abi req) with
    | None =>
        match fr_bound_shape req, fr_parameterless_listed req, descriptor "parameterless" with
        | None, true, Some d => Eligible (MkFlatGrant (ResolvedShape_primary d) ABI_EXEMPT_FINGERPRINT (fr_local_abi req))
        | _, _, _ => Denied UnknownShape
        end
    | Some resolved =>
        match outer_kind resolved with
        | Parameterless | ByteBuffer => Eligible (MkFlatGrant resolved ABI_EXEMPT_FINGERPRINT (fr_local_abi req))
        | NestedOrOutput => Denied DenyNestedOrOutput
        | ScalarStruct | PointerStruct => decide_struct req resolved
        end
    end.
