(* ===== verification/Registry.v ===== *)
(** * The mechanism registry

    Models [crates/types/src/mechanism_registry.rs]: the binding of mechanisms
    to compiled parameter shapes, the operator's exclusions, the discovery
    filter, and loading the embedded default with an override file and its
    includes.  [default_config] is [mechanism_params_default.toml].  The TOML
    reader and the file system are the class [TomlSource].

    [override_binds_compiled_shapes]: an override can bind mechanisms only to
    shapes the proxy compiles.  [exclusion_is_final]: an exclusion wins over
    every other entry, in every operation on the registry. *)

From stdpp Require Import sorting.
From S2P Require Import Prelude Text Ck Shapes.
Open Scope N_scope.

(** ** Data *)

Inductive DiscoveryMode := Transparent | Filtered.
#[export] Instance DiscoveryMode_eq_dec : EqDecision DiscoveryMode.
Proof. solve_decision. Defined.

Definition EMBEDDED_DEFAULT_REVISION : string := "embedded-default".

Record MechanismRegistry := MkMechanismRegistry {
  param_shapes : gmap N string;
  mr_parameterless : gset N;
  disabled : gset N;
  mr_discovery_mode : DiscoveryMode;
  revision : string;
}.
#[export] Instance MechanismRegistry_eta : Eta MechanismRegistry := fun r =>
  MkMechanismRegistry (param_shapes r) (mr_parameterless r) (disabled r) (mr_discovery_mode r) (revision r).

Record TomlParamsEntry := MkTomlParamsEntry { tp_shape : string; tp_mechanisms : list N }.
Record TomlConfig := MkTomlConfig {
  tc_discovery_mode : option DiscoveryMode;
  tc_include : list string;
  tc_parameterless : list N;
  tc_params : list TomlParamsEntry;
  tc_exclude : list N;
}.

(** The embedded default. *)
Definition default_config : TomlConfig :=
  MkTomlConfig (Some Transparent) []
    [
      0x0; 0x1; 0x2; 0x3; 0x4; 0x5; 0x6; 0x7; 0x8; 0xa; 0xb; 0xc; 0x40; 0x41; 0x42; 0x46; 0x60; 0x61; 0x62; 0x66;
      0x10; 0x11; 0x12; 0x13; 0x14; 0x15; 0x16; 0x18; 0x19; 0x1a; 0x1b; 0x2000; 0x2003; 0x2004; 0x2005; 0x20; 0x2001;
      0x30; 0x2002; 0x1040; 0x1041; 0x1042; 0x1043; 0x1044; 0x1045; 0x1046; 0x1047; 0x1048; 0x1049; 0x104a; 0x1055;
      0x1056; 0x1057; 0x1010; 0x1201; 0x350; 0x100; 0x110; 0x111; 0x330; 0x120; 0x121; 0x123; 0x130; 0x131; 0x132;
      0x134; 0x138; 0x140; 0x141; 0x143; 0x300; 0x301; 0x303; 0x310; 0x311; 0x313; 0x320; 0x321; 0x323; 0x340; 0x341;
      0x343; 0x1080; 0x1081; 0x1083; 0x108a; 0x108c; 0x650; 0x651; 0x653; 0x550; 0x551; 0x553; 0x560; 0x561; 0x563;
      0x370; 0x374; 0x380; 0x381; 0x200; 0x201; 0x210; 0x211; 0x220; 0x221; 0x250; 0x251; 0x255; 0x256; 0x260; 0x261;
      0x270; 0x271; 0x2b0; 0x2b1; 0x2b5; 0x2b6; 0x2c0; 0x2c1; 0x2d0; 0x2d1; 0x390; 0x391; 0x392; 0x393; 0x394; 0x395;
      0x396; 0x397; 0x398; 0x399; 0x39a; 0x39b; 0x39c; 0x230; 0x231; 0x240; 0x241; 0x1070; 0x1225; 0x402c; 0x400;
      0x2109; 0x210a; 0x210b; 0x210c; 0x1000; 0x1008; 0x1030; 0x1036; 0x1060; 0x1065; 0x1020; 0xf; 0x17; 0x1c; 0x1d;
      0x2d; 0x2e; 0x23; 0x24; 0x25; 0x26; 0x27; 0x28; 0x29; 0x2a; 0x2b; 0x2c; 0x36; 0x37; 0x38; 0x39; 0x3a; 0x3b;
      0x3c; 0x3d; 0x3e; 0x3f ]
    [
      MkTomlParamsEntry "rsa_pss" [0xd; 0xe; 0x43; 0x44; 0x45; 0x47; 0x63; 0x64; 0x65; 0x67];
      MkTomlParamsEntry "rsa_oaep" [0x9];
      MkTomlParamsEntry "gcm" [0x1087];
      MkTomlParamsEntry "gcm_compat" [0x108e];
      MkTomlParamsEntry "ecdh1_derive" [0x1050; 0x1051];
      MkTomlParamsEntry "iv" [
        0x1082; 0x1085; 0x122; 0x125; 0x150; 0x151; 0x152; 0x153; 0x133; 0x136; 0x142; 0x145; 0x302; 0x305; 0x312;
        0x315; 0x322; 0x325; 0x342; 0x345; 0x552; 0x555; 0x652; 0x655; 0x562; 0x565; 0x21; 0x370; 0x374; 0x1089;
        0x2104; 0x2105; 0x2106; 0x2107; 0x2108; 0x1071];
      MkTomlParamsEntry "ccm" [0x1088];
      MkTomlParamsEntry "aes_ctr" [0x1086];
      MkTomlParamsEntry "eddsa" [0x1057];
      MkTomlParamsEntry "hkdf" [0x402a; 0x402b];
      MkTomlParamsEntry "chacha20" [0x1226];
      MkTomlParamsEntry "salsa20" [0x4020];
      MkTomlParamsEntry "salsa20_chacha20_poly1305" [0x4021; 0x4022];
      MkTomlParamsEntry "aes_cbc_encrypt_data" [0x1105];
      MkTomlParamsEntry "des_cbc_encrypt_data" [0x1101; 0x1103];
      MkTomlParamsEntry "camellia_cbc_encrypt_data" [0x557];
      MkTomlParamsEntry "aria_cbc_encrypt_data" [0x567];
      MkTomlParamsEntry "seed_cbc_encrypt_data" [0x657];
      MkTomlParamsEntry "mac_general" [
        0x202; 0x212; 0x222; 0x232; 0x242; 0x252; 0x257; 0x262; 0x272; 0x2b2; 0x2b7; 0x2c2; 0x2d2; 0x101; 0x103;
        0x124; 0x135; 0x144; 0x304; 0x314; 0x324; 0x344; 0x1084; 0x108b; 0x554; 0x654; 0x564; 0x4a; 0x4e; 0x137;
        0x380; 0x381; 0x400e; 0x4013; 0x4018; 0x401d];
      MkTomlParamsEntry "object_handle" [0x360];
      MkTomlParamsEntry "extract" [0x365];
      MkTomlParamsEntry "key_derivation_string" [
        0x362; 0x363; 0x364; 0x1100; 0x1102; 0x1104; 0x556; 0x566; 0x656; 0x390; 0x391; 0x392; 0x393; 0x394; 0x395;
        0x396; 0x397; 0x398; 0x399; 0x39a; 0x39b; 0x39c];
      MkTomlParamsEntry "rc5" [0x331; 0x333];
      MkTomlParamsEntry "rc5_cbc" [0x332];
      MkTomlParamsEntry "rc5_mac_general" [0x334];
      MkTomlParamsEntry "rc2_cbc" [0x102; 0x105];
      MkTomlParamsEntry "rc2_mac_general" [0x104];
      MkTomlParamsEntry "camellia_ctr" [0x558];
      MkTomlParamsEntry "xeddsa" [0x4029];
      MkTomlParamsEntry "tls_mac" [0x3d8; 0x3e4];
      MkTomlParamsEntry "rsa_aes_key_wrap" [0x1054];
      MkTomlParamsEntry "sign_additional_context" [
        0x1d; 0x2e; 0x23; 0x24; 0x25; 0x26; 0x27; 0x28; 0x29; 0x2a; 0x2b; 0x2c; 0x36; 0x37; 0x38; 0x39; 0x3a; 0x3b;
        0x3c; 0x3d; 0x3e; 0x3f; 0x1f; 0x34];
      MkTomlParamsEntry "pkcs5_pbkd2" [0x3b0];
      MkTomlParamsEntry "tls12_master_key_derive" [0x3e0; 0x3e2];
      MkTomlParamsEntry "tls_prf" [0x378];
      MkTomlParamsEntry "tls_kdf" [0x3d9; 0x3e5];
      MkTomlParamsEntry "ssl3_master_key_derive" [0x371; 0x373; 0x375];
      MkTomlParamsEntry "tls12_extended_master_key_derive" [0x56; 0x57];
      MkTomlParamsEntry "ssl3_key_mat" [0x372; 0x3e1; 0x3e3];
      MkTomlParamsEntry "pbe" [
        0x3a0; 0x3a1; 0x3a2; 0x3a3; 0x3a4; 0x3a5; 0x3a6; 0x3a7; 0x3a8; 0x3a9; 0x3aa; 0x3ab; 0x3c0];
      MkTomlParamsEntry "ecdh_aes_key_wrap" [0x1053; 0x4038; 0x4039];
      MkTomlParamsEntry "ecmqv_derive" [0x1052];
      MkTomlParamsEntry "x942_dh1_derive" [0x31];
      MkTomlParamsEntry "x942_dh2_derive" [0x32];
      MkTomlParamsEntry "gostr3410_derive" [0x1204];
      MkTomlParamsEntry "gostr3410_key_wrap" [0x1203];
      MkTomlParamsEntry "key_wrap_set_oaep" [0x401];
      MkTomlParamsEntry "kea_derive" [0x1011];
      MkTomlParamsEntry "ike_prf_derive" [0x402f];
      MkTomlParamsEntry "ike1_prf_derive" [0x4030];
      MkTomlParamsEntry "ike1_extended_derive" [0x4031];
      MkTomlParamsEntry "ike2_prf_plus_derive" [0x402e];
      MkTomlParamsEntry "sp800_108_kdf" [0x3ac; 0x3ae];
      MkTomlParamsEntry "sp800_108_feedback_kdf" [0x3ad];
      MkTomlParamsEntry "wtls_master_key_derive" [0x3d1; 0x3d2];
      MkTomlParamsEntry "wtls_key_mat" [0x3d4; 0x3d5] ]
    [].

(** What the loader calls: the TOML reader with the schema above (unknown keys
    are errors), reading a file, and resolving an include path against the
    directory of the override. *)
Class TomlSource := {
  toml_parse : string -> option TomlConfig;
  read_to_string : string -> option string;
  resolve_include : string -> string -> string;
}.

(** The error texts, by their cause. *)
Inductive RegistryError :=
| ReadOverride (path : string)
| ParseOverride
| UnknownShapeName (shape : string) (mechanisms : list N)
| ReadInclude (path : string)
| ParseInclude (path : string).

(** ** Loading *)

Definition merge_config (config : TomlConfig) (r : MechanismRegistry) : MechanismRegistry :=
  let r := match tc_discovery_mode config with Some mode => r <| mr_discovery_mode := mode |> | None => r end in
  let r := r <| mr_parameterless ::= union (list_to_set (tc_parameterless config)) |>
             <| disabled ::= union (list_to_set (tc_exclude config)) |> in
  foldl (fun r entry => foldl (fun r mech => r <| param_shapes ::= <[mech := tp_shape entry]> |>) r (tp_mechanisms entry)) r (tc_params config).

Definition load_base : MechanismRegistry :=
  merge_config default_config (MkMechanismRegistry ∅ ∅ ∅ Transparent EMBEDDED_DEFAULT_REVISION).

Definition known_shapes (r : MechanismRegistry) : gset string := map_to_set (fun _ shape => shape) (param_shapes r).

Fixpoint check_shapes_known (params : list TomlParamsEntry) (known : gset string) : Result unit RegistryError :=
  match params with
  | [] => Ok tt
  | entry :: params =>
      if negb (bool_decide (tp_shape entry ∈ known)) then Err (UnknownShapeName (tp_shape entry) (tp_mechanisms entry))
      else check_shapes_known params known
  end.

Section load.
Context `{TS : TomlSource}.

(** Included files, one level deep: their own [include] is ignored. *)
Fixpoint merge_includes (includes : list string) (base_dir : string) (known : gset string) (r : MechanismRegistry)
  : Result MechanismRegistry RegistryError :=
  match includes with
  | [] => Ok r
  | include :: includes =>
      let path := resolve_include base_dir include in
      match read_to_string path with
      | None => Err (ReadInclude path)
      | Some content =>
          match toml_parse content with
          | None => Err (ParseInclude path)
          | Some config =>
              let? _ := check_shapes_known (tc_params config) known in
              merge_includes includes base_dir known (merge_config config r)
          end
      end
  end.

Definition merge_override_content (content base_dir : string) (known : gset string) (r : MechanismRegistry)
  : Result MechanismRegistry RegistryError :=
  match toml_parse content with
  | None => Err ParseOverride
  | Some over =>
      let? _ := check_shapes_known (tc_params over) known in
      let? r := merge_includes (tc_include over) base_dir known r in
      Ok (merge_config over r)
  end.

Definition load_from_content (content base_dir : string) : Result MechanismRegistry RegistryError :=
  merge_override_content content base_dir (known_shapes load_base) load_base.

(** [parent]: the directory of the override path. *)
Definition load (override_path : option (string * string)) : Result MechanismRegistry RegistryError :=
  match override_path with
  | None => Ok load_base
  | Some (path, parent) =>
      match read_to_string path with
      | None => Err (ReadOverride path)
      | Some content => merge_override_content content parent (known_shapes load_base) load_base
      end
  end.

(** Includes are not processed. *)
Definition load_with_override_str (override_toml : option string) : Result MechanismRegistry RegistryError :=
  match override_toml with
  | None => Ok load_base
  | Some toml_str =>
      match toml_parse toml_str with
      | None => Err ParseOverride
      | Some over =>
          let? _ := check_shapes_known (tc_params over) (known_shapes load_base) in
          Ok (merge_config over load_base)
      end
  end.
End load.

(** ** Queries *)

Definition set_revision (revision' : string) (r : MechanismRegistry) : MechanismRegistry := r <| revision := revision' |>.
Definition excluded_view (r : MechanismRegistry) : gset N := disabled r.
Definition param_shape (r : MechanismRegistry) (mech_type : N) : option string := param_shapes r !! mech_type.
Definition is_parameterless (r : MechanismRegistry) (mech_type : N) : bool := bool_decide (mech_type ∈ mr_parameterless r).

Definition check_operation (r : MechanismRegistry) (mech_type : N) (has_params : bool) : CkResult unit :=
  if bool_decide (mech_type ∈ disabled r) then Err Rv.MECHANISM_INVALID
  else if negb has_params then Ok tt
  else if bool_decide (is_Some (param_shapes r !! mech_type)) then Ok tt
  else Err Rv.MECHANISM_PARAM_INVALID.

Definition filter_mechanisms (r : MechanismRegistry) (backend_mechs : list N) : list N :=
  match mr_discovery_mode r with
  | Transparent => filter (fun m => m ∉ disabled r) backend_mechs
  | Filtered =>
      filter (fun m => m ∉ disabled r /\ (m ∈ mr_parameterless r \/ is_Some (param_shapes r !! m))) backend_mechs
  end.

Definition registered_mechanisms (r : MechanismRegistry) : list N :=
  merge_sort (≤) (elements ((mr_parameterless r ∪ dom (param_shapes r)) ∖ disabled r)).

Definition message_opaque_admits_mechanism (r : MechanismRegistry) (mech_type : N) (materialized : bool) : bool :=
  if message_opaque_admits_shape (param_shape r mech_type) then true
  else negb materialized && is_parameterless r mech_type.

Definition decide_flat_for_registry (r : MechanismRegistry) (mechanism : N) (operation : Operation) (declared_len : N)
    (peer_fingerprint : N) (peer_abi local_abi : ParamAbi) : FlatDecision :=
  decide_flat (MkFlatRequest mechanism operation declared_len (param_shape r mechanism) (is_parameterless r mechanism)
    (bool_decide (mechanism ∈ excluded_view r)) peer_fingerprint peer_abi local_abi).

(** ** Merging *)

Lemma bind_entry_lookup mechs shape : forall r m,
  param_shapes (foldl (fun r mech => r <| param_shapes ::= <[mech := shape]> |>) r mechs) !! m =
  if bool_decide (m ∈ mechs) then Some shape else param_shapes r !! m.
Proof.
  induction mechs as [|mech mechs IH]; intros r m; [done|]. cbn [foldl]. rewrite IH. cbn.
  case_bool_decide as H1; [by rewrite bool_decide_true by (by right)|].
  destruct (decide (m = mech)) as [->|Hne].
  - rewrite bool_decide_true by (by left). by rewrite lookup_insert_eq.
  - rewrite bool_decide_false by (rewrite elem_of_cons; naive_solver). by rewrite lookup_insert_ne.
Qed.

Lemma bind_entry_frame mechs shape : forall r,
  let r' := foldl (fun r mech => r <| param_shapes ::= <[mech := shape]> |>) r mechs in
  mr_parameterless r' = mr_parameterless r /\ disabled r' = disabled r /\ mr_discovery_mode r' = mr_discovery_mode r.
Proof.
  induction mechs as [|mech mechs IH]; intros r; [done|]. cbn [foldl]. cbn zeta in *.
  destruct (IH (r <| param_shapes ::= <[mech := shape]> |>)) as (H1 & H2 & H3). split_and!; [by etransitivity|by etransitivity|by etransitivity].
Qed.

Lemma bind_entries_frame es : forall r,
  let r' := foldl (fun r entry => foldl (fun r mech => r <| param_shapes ::= <[mech := tp_shape entry]> |>) r (tp_mechanisms entry)) r es in
  mr_parameterless r' = mr_parameterless r /\ disabled r' = disabled r /\ mr_discovery_mode r' = mr_discovery_mode r.
Proof.
  induction es as [|e es IH]; intros r; [done|]. cbn [foldl]. cbn zeta in *. destruct (IH (foldl (fun r mech => r <| param_shapes ::= <[mech := tp_shape e]> |>) r (tp_mechanisms e))) as (H1 & H2 & H3).
  destruct (bind_entry_frame (tp_mechanisms e) (tp_shape e) r) as (H4 & H5 & H6). split_and!; congruence.
Qed.

Lemma bind_entries_lookup es : forall r m shape,
  param_shapes (foldl (fun r entry => foldl (fun r mech => r <| param_shapes ::= <[mech := tp_shape entry]> |>) r (tp_mechanisms entry)) r es) !! m = Some shape ->
  param_shapes r !! m = Some shape \/ exists e, e ∈ es /\ tp_shape e = shape /\ m ∈ tp_mechanisms e.
Proof.
  induction es as [|e es IH]; intros r m shape; [by left|]. cbn [foldl]. intros H. destruct (IH _ _ _ H) as [Hr|(e' & ? & ? & ?)].
  - rewrite bind_entry_lookup in Hr. case_bool_decide; [|by left]. right. exists e. split; [by left|]. naive_solver.
  - right. exists e'. split; [by right|done].
Qed.

Lemma merge_disabled config r : disabled (merge_config config r) = list_to_set (tc_exclude config) ∪ disabled r.
Proof. unfold merge_config. destruct (bind_entries_frame (tc_params config)) with (r := (match tc_discovery_mode config with Some mode => r <| mr_discovery_mode := mode |> | None => r end) <| mr_parameterless ::= union (list_to_set (tc_parameterless config)) |> <| disabled ::= union (list_to_set (tc_exclude config)) |>) as (_ & H & _). etransitivity; [exact H|]. by destruct (tc_discovery_mode config). Qed.

Lemma merge_shapes config r m shape :
  param_shapes (merge_config config r) !! m = Some shape ->
  param_shapes r !! m = Some shape \/ exists e, e ∈ tc_params config /\ tp_shape e = shape.
Proof.
  unfold merge_config. intros H. apply bind_entries_lookup in H as [H|(e & ? & ? & ?)]; [|right; by exists e].
  left. by destruct (tc_discovery_mode config).
Qed.

Lemma known_checked params known : check_shapes_known params known = Ok tt -> Forall (fun e => tp_shape e ∈ known) params.
Proof.
  induction params as [|e params IH]; cbn; [constructor|]. case_bool_decide as He; cbn [negb]; [|done]. intros H. by constructor; [|apply IH].
Qed.

(** Every bound shape is in [known]. *)
Definition binds_within (known : gset string) (r : MechanismRegistry) : Prop :=
  forall m shape, param_shape r m = Some shape -> shape ∈ known.

Lemma merge_binds config known r :
  check_shapes_known (tc_params config) known = Ok tt -> binds_within known r -> binds_within known (merge_config config r).
Proof.
  intros Hk Hr m shape H. apply merge_shapes in H as [H|(e & He & <-)]; [by apply (Hr m)|].
  apply known_checked in Hk. rewrite Forall_forall in Hk. by apply Hk.
Qed.

Lemma base_binds : binds_within (known_shapes load_base) load_base.
Proof. intros m shape H. unfold known_shapes. apply elem_of_map_to_set. by exists m, shape. Qed.

Lemma known_compiled shape : shape ∈ known_shapes load_base -> is_Some (descriptor shape).
Proof.
  assert (map_Forall (fun _ shape => is_Some (descriptor shape)) (param_shapes load_base)) as H.
  { apply (bool_decide_eq_true_1 _). by vm_compute. }
  unfold known_shapes. intros (m & s & Hl & <-)%elem_of_map_to_set. by apply (H m).
Qed.

#[local] Opaque load_base.

Section loading.
Context `{TS : TomlSource}.

Lemma includes_spec incs dir known : forall r r',
  merge_includes incs dir known r = Ok r' -> binds_within known r ->
  binds_within known r' /\ disabled r ⊆ disabled r' /\
  (forall inc content config m, inc ∈ incs -> read_to_string (resolve_include dir inc) = Some content ->
     toml_parse content = Some config -> m ∈ tc_exclude config -> m ∈ disabled r').
Proof.
  induction incs as [|inc incs IH]; intros r r' H Hr; cbn in H.
  - injection H as <-. split_and!; [done|done|]. intros ???? Hx. by apply not_elem_of_nil in Hx.
  - destruct (read_to_string _) as [content|] eqn:E1; [|done]. destruct (toml_parse content) as [config|] eqn:E2; [|done].
    destruct (check_shapes_known _ _) as [[]|] eqn:E3; [|done]. cbn in H.
    destruct (IH _ _ H) as (H1 & H2 & H3); [by apply merge_binds|]. rewrite merge_disabled in H2. split_and!; [done|set_solver|].
    intros inc' content' config' m Hin He1 He2 Hm. apply elem_of_cons in Hin as [->|Hin]; [|by eapply H3].
    assert (config' = config) as -> by congruence. apply H2. set_solver.
Qed.

Lemma override_spec content dir r :
  load_from_content content dir = Ok r ->
  exists over, toml_parse content = Some over /\ binds_within (known_shapes load_base) r /\
    (forall m, m ∈ tc_exclude over -> m ∈ disabled r) /\
    (forall inc content config m, inc ∈ tc_include over -> read_to_string (resolve_include dir inc) = Some content ->
       toml_parse content = Some config -> m ∈ tc_exclude config -> m ∈ disabled r).
Proof.
  unfold load_from_content, merge_override_content. destruct (toml_parse content) as [over|]; [|done].
  destruct (check_shapes_known _ _) as [[]|] eqn:E1; [|done]. cbn. destruct (merge_includes _ _ _ _) as [r'|] eqn:E2; [|done]. intros [= <-].
  destruct (includes_spec _ _ _ _ _ E2 base_binds) as (H1 & _ & H3). exists over. split_and!.
  - done.
  - by apply merge_binds.
  - intros m Hm. rewrite merge_disabled. set_solver.
  - intros. rewrite merge_disabled. apply elem_of_union. right. by eapply H3.
Qed.

(** TOML binds, it never creates: whatever an override and its includes say,
    if they load, every shape a mechanism is bound to has a compiled
    descriptor; a shape name the proxy does not compile makes the load fail
    with an error that names it. *)
Theorem override_binds_compiled_shapes (content base_dir : string) :
  (forall r m shape, load_from_content content base_dir = Ok r -> param_shape r m = Some shape -> is_Some (descriptor shape)) /\
  (forall over e, toml_parse content = Some over -> e ∈ tc_params over -> descriptor (tp_shape e) = None ->
     exists shape mechs, load_from_content content base_dir = Err (UnknownShapeName shape mechs)).
Proof.
  split.
  - intros r m shape E Hm. destruct (override_spec _ _ _ E) as (over & _ & H & _). apply known_compiled. by apply (H m).
  - intros over e Hp He Hd. unfold load_from_content, merge_override_content. rewrite Hp.
    destruct (check_shapes_known (tc_params over) _) as [[]|err] eqn:Ec.
    + apply known_checked in Ec. rewrite Forall_forall in Ec. destruct (known_compiled _ (Ec e He)) as [d Hd']. congruence.
    + clear -Ec. revert Ec. induction (tc_params over) as [|e l IH]; cbn; [done|]. destruct (negb _); [intros [= <-]; by eexists _, _|exact IH].
Qed.

(** Exclusion is final: a mechanism the override or one of its includes
    excludes is refused by every operation, with and without parameters, is
    never granted flat carriage, and is hidden from discovery in both modes,
    whatever else the registry says about it. *)
Theorem exclusion_is_final (content base_dir : string) (r : MechanismRegistry) (over : TomlConfig) (m : N) :
  load_from_content content base_dir = Ok r -> toml_parse content = Some over ->
  m ∈ tc_exclude over \/
  (exists inc content' config, inc ∈ tc_include over /\ read_to_string (resolve_include base_dir inc) = Some content' /\
     toml_parse content' = Some config /\ m ∈ tc_exclude config) ->
  (forall has_params, check_operation r m has_params = Err Rv.MECHANISM_INVALID) /\
  (forall op len fp peer local, decide_flat_for_registry r m op len fp peer local = Excluded) /\
  (forall mechs, m ∉ filter_mechanisms r mechs) /\ m ∉ registered_mechanisms r.
Proof.
  intros Hl Hp Hm. assert (m ∈ disabled r) as Hd.
  { destruct (override_spec _ _ _ Hl) as (over' & Hp' & _ & H1 & H2). assert (over' = over) as -> by congruence.
    destruct Hm as [Hm|(inc & c & config & ? & ? & ? & ?)]; [by apply H1|by eapply H2]. }
  split_and!.
  - intros b. unfold check_operation. by rewrite bool_decide_true.
  - intros. unfold decide_flat_for_registry, decide_flat, excluded_view. cbn [fr_excluded]. by rewrite bool_decide_true.
  - intros mechs. unfold filter_mechanisms. destruct (mr_discovery_mode r); rewrite list_elem_of_filter; tauto.
  - unfold registered_mechanisms. rewrite merge_sort_Permutation, elem_of_elements. set_solver.
Qed.
End loading.
#[local] Transparent load_base.

(** ** At a concrete override *)

(** A reader that knows one override and one include. *)
Definition demo_override : TomlConfig :=
  MkTomlConfig (Some Filtered) ["vendor"] [0x80000001] [MkTomlParamsEntry "gcm" [0x80000002]] [0x1087].
Definition demo_include : TomlConfig := MkTomlConfig None [] [] [] [0x1085].
Definition demo_toml : TomlSource := {|
  toml_parse := fun s => if bool_decide (s = "override") then Some demo_override else if bool_decide (s = "include") then Some demo_include else None;
  read_to_string := fun p => if bool_decide (p = "/etc/vendor") then Some "include" else None;
  resolve_include := fun dir p => dir +:+ "/" +:+ p;
|}.

Definition demo_registry : MechanismRegistry := merge_config demo_override (merge_config demo_include load_base).
Lemma demo_loaded : load_from_content (TS := demo_toml) "override" "/etc" = Ok demo_registry.
Proof.
  unfold load_from_content, merge_override_content. change (toml_parse (TomlSource := demo_toml) "override") with (Some demo_override). cbv iota beta.
  assert (check_shapes_known (tc_params demo_override) (known_shapes load_base) = Ok tt) as -> by (by vm_compute). reflexivity.
Defined.

Lemma exclusion_is_final_witness :
  check_operation demo_registry 0x1085 false = Err Rv.MECHANISM_INVALID /\ 0x1087 ∉ filter_mechanisms demo_registry [0x1085; 0x1087].
Proof.
  split.
  - apply (exclusion_is_final (TS := demo_toml) "override" "/etc" demo_registry demo_override 0x1085 demo_loaded eq_refl).
    right. exists "vendor", "include", demo_include. split_and!; [by left|done|done|by left].
  - apply (exclusion_is_final (TS := demo_toml) "override" "/etc" demo_registry demo_override 0x1087 demo_loaded eq_refl). left. by left.
Defined.

Lemma override_binds_compiled_shapes_witness : is_Some (descriptor "gcm").
Proof.
  apply (proj1 (override_binds_compiled_shapes (TS := demo_toml) "override" "/etc") demo_registry 0x80000002 "gcm" demo_loaded).
  by vm_compute.
Defined.
