(* ===== verification/Params.v ===== *)
(** * Mechanism parameters

    Models the data and the per-variant functions of
    [crates/types/src/mechanism.rs]: the parameter structs, the enum
    [CkMechanismParams] (its constructors carry the prefix [P_]), pointer
    payloads, the canonical shape of a variant, the output-envelope check, the
    scan for embedded NULLs with a length, and the normalization that forgets
    object handles.  A field [f] of a struct [XParams] is [X_f]. *)

From S2P Require Import Prelude Text Ck Mech Context Handler Shapes Registry.
Open Scope N_scope.

(** Transparent newtypes over [u64]. *)
Definition CkMgf : Type := N.
Definition CkGeneratorFunction : Type := N.
Definition CkKdf : Type := N.
Definition CkOaepSource : Type := N.
Definition CkPbkdf2SaltSource : Type := N.
Definition CkPbkdf2Prf : Type := N.

(** ** Pointer payloads *)

Inductive PointerBytes := PbPresent (bytes : SecretBytes) | PbNull (declared_len : N).
#[export] Instance PointerBytes_eq_dec : EqDecision PointerBytes.
Proof. solve_decision. Defined.

Definition PointerBytes_is_null (p : PointerBytes) : bool := match p with PbNull _ => true | PbPresent _ => false end.
Definition PointerBytes_declared_len (p : PointerBytes) : N :=
  match p with PbPresent bytes => N.of_nat (length bytes) | PbNull n => n end.
Definition PointerBytes_as_present (p : PointerBytes) : option SecretBytes :=
  match p with PbPresent bytes => Some bytes | PbNull _ => None end.
Definition PointerBytes_from_legacy (bytes : list N) (is_null : bool) : PointerBytes :=
  if is_null then PbNull 0 else PbPresent bytes.

Inductive PointerArray (T : Type) := PaPresent (items : list T) | PaNull (declared_count : N).
Arguments PaPresent {T} items.
Arguments PaNull {T} declared_count.

Definition PointerArray_is_null {T} (p : PointerArray T) : bool := match p with PaNull _ => true | PaPresent _ => false end.
Definition PointerArray_declared_count {T} (p : PointerArray T) : N :=
  match p with PaPresent items => N.of_nat (length items) | PaNull n => n end.
Definition PointerArray_as_present {T} (p : PointerArray T) : option (list T) :=
  match p with PaPresent items => Some items | PaNull _ => None end.
(** The elements, none for NULL. *)
Definition present_items {T} (p : PointerArray T) : list T := default [] (PointerArray_as_present p).
Definition map_present {T} (f : list T -> list T) (p : PointerArray T) : PointerArray T :=
  match p with PaPresent items => PaPresent (f items) | PaNull n => PaNull n end.

(** ** Parameter structs *)

Record FlatParams := MkFlatParams {
  Flat_bytes : SecretBytes; Flat_declared_len : N; Flat_source_abi : option ParamAbi; Flat_fingerprint : N; Flat_version : N }.

Record RsaPkcsPssParams := MkRsaPkcsPssParams { RsaPkcsPss_hash_alg : CkMechanismType; RsaPkcsPss_mgf : CkMgf;
    RsaPkcsPss_salt_len : N }.
Record RsaPkcsOaepParams := MkRsaPkcsOaepParams { RsaPkcsOaep_hash_alg : CkMechanismType;
    RsaPkcsOaep_mgf : CkMgf; RsaPkcsOaep_source : CkOaepSource;
    RsaPkcsOaep_source_data_presence : PointerBytes }.
Record GcmParams := MkGcmParams { Gcm_iv_bits : N; Gcm_iv_buffer_len : N; Gcm_tag_bits : N;
    Gcm_iv_presence : PointerBytes; Gcm_aad_presence : PointerBytes }.
Record Ecdh1DeriveParams := MkEcdh1DeriveParams { Ecdh1Derive_kdf : CkKdf;
    Ecdh1Derive_shared_data_presence : PointerBytes; Ecdh1Derive_public_data_presence : PointerBytes }.
Record IvParams := MkIvParams { Iv_iv : list N }.
Record Rc5Params := MkRc5Params { Rc5_word_size : N; Rc5_rounds : N }.
Record Rc5MacGeneralParams := MkRc5MacGeneralParams { Rc5MacGeneral_word_size : N; Rc5MacGeneral_rounds : N;
    Rc5MacGeneral_mac_length : N }.
Record Rc2MacGeneralParams := MkRc2MacGeneralParams { Rc2MacGeneral_effective_bits : N;
    Rc2MacGeneral_mac_length : N }.
Record XeddsaParams := MkXeddsaParams { Xeddsa_hash : CkMechanismType }.
Record TlsMacParams := MkTlsMacParams { TlsMac_prf_hash_mechanism : CkMechanismType; TlsMac_mac_length : N;
    TlsMac_server_or_client : N }.
Record AesCtrParams := MkAesCtrParams { AesCtr_counter_bits : N; AesCtr_cb : list N }.
Record CamelliaCtrParams := MkCamelliaCtrParams { CamelliaCtr_counter_bits : N; CamelliaCtr_cb : list N }.
Record Rc2CbcParams := MkRc2CbcParams { Rc2Cbc_effective_bits : N; Rc2Cbc_iv : list N }.
Record Rc5CbcParams := MkRc5CbcParams { Rc5Cbc_word_size : N; Rc5Cbc_rounds : N; Rc5Cbc_iv_presence : PointerBytes }.
Record AesCbcEncryptDataParams := MkAesCbcEncryptDataParams { AesCbcEncryptData_iv : list N;
    AesCbcEncryptData_data_presence : PointerBytes }.
Record DesCbcEncryptDataParams := MkDesCbcEncryptDataParams { DesCbcEncryptData_iv : list N;
    DesCbcEncryptData_data_presence : PointerBytes }.
Record AriaCbcEncryptDataParams := MkAriaCbcEncryptDataParams { AriaCbcEncryptData_iv : list N;
    AriaCbcEncryptData_data_presence : PointerBytes }.
Record CamelliaCbcEncryptDataParams := MkCamelliaCbcEncryptDataParams { CamelliaCbcEncryptData_iv : list N;
    CamelliaCbcEncryptData_data_presence : PointerBytes }.
Record SeedCbcEncryptDataParams := MkSeedCbcEncryptDataParams { SeedCbcEncryptData_iv : list N;
    SeedCbcEncryptData_data_presence : PointerBytes }.
Record CcmParams := MkCcmParams { Ccm_data_len : N; Ccm_mac_len : N; Ccm_nonce_presence : PointerBytes;
    Ccm_aad_presence : PointerBytes }.
Record ChaCha20Params := MkChaCha20Params { ChaCha20_block_counter_bits : N; ChaCha20_nonce_bits : N;
    ChaCha20_block_counter_presence : PointerBytes; ChaCha20_nonce_presence : PointerBytes }.
Record Salsa20Params := MkSalsa20Params { Salsa20_nonce_bits : N; Salsa20_block_counter_presence : PointerBytes;
    Salsa20_nonce_presence : PointerBytes }.
Record Salsa20ChaCha20Poly1305Params := MkSalsa20ChaCha20Poly1305Params { Salsa20ChaCha20Poly1305_nonce_presence : PointerBytes;
    Salsa20ChaCha20Poly1305_aad_presence : PointerBytes }.
Record GcmWrapParams := MkGcmWrapParams { GcmWrap_iv_fixed_bits : N; GcmWrap_iv_generator : CkGeneratorFunction;
    GcmWrap_tag_bits : N; GcmWrap_iv_presence : PointerBytes; GcmWrap_aad_presence : PointerBytes }.
Record CcmWrapParams := MkCcmWrapParams { CcmWrap_data_len : N; CcmWrap_nonce_fixed_bits : N;
    CcmWrap_nonce_generator : CkGeneratorFunction; CcmWrap_mac_len : N; CcmWrap_nonce_presence : PointerBytes;
    CcmWrap_aad_presence : PointerBytes }.
Record Ecdh2DeriveParams := MkEcdh2DeriveParams { Ecdh2Derive_kdf : CkKdf; Ecdh2Derive_private_data_len : N;
    Ecdh2Derive_private_data_handle : CkObjectHandle; Ecdh2Derive_shared_data_presence : PointerBytes;
    Ecdh2Derive_public_data_presence : PointerBytes; Ecdh2Derive_public_data2_presence : PointerBytes }.
#[export] Instance Ecdh2DeriveParams_eta : Eta Ecdh2DeriveParams := fun p =>
  MkEcdh2DeriveParams (Ecdh2Derive_kdf p) (Ecdh2Derive_private_data_len p) (Ecdh2Derive_private_data_handle p) (Ecdh2Derive_shared_data_presence p) (Ecdh2Derive_public_data_presence p) (Ecdh2Derive_public_data2_presence p).
Record EcmqvDeriveParams := MkEcmqvDeriveParams { EcmqvDerive_kdf : CkKdf; EcmqvDerive_private_data_len : N;
    EcmqvDerive_private_data_handle : CkObjectHandle; EcmqvDerive_public_key_handle : CkObjectHandle;
    EcmqvDerive_shared_data_presence : PointerBytes; EcmqvDerive_public_data_presence : PointerBytes;
    EcmqvDerive_public_data2_presence : PointerBytes }.
#[export] Instance EcmqvDeriveParams_eta : Eta EcmqvDeriveParams := fun p =>
  MkEcmqvDeriveParams (EcmqvDerive_kdf p) (EcmqvDerive_private_data_len p) (EcmqvDerive_private_data_handle p) (EcmqvDerive_public_key_handle p) (EcmqvDerive_shared_data_presence p) (EcmqvDerive_public_data_presence p) (EcmqvDerive_public_data2_presence p).
Record X942Dh1DeriveParams := MkX942Dh1DeriveParams { X942Dh1Derive_kdf : CkKdf;
    X942Dh1Derive_other_info_presence : PointerBytes; X942Dh1Derive_public_data_presence : PointerBytes }.
Record X942Dh2DeriveParams := MkX942Dh2DeriveParams { X942Dh2Derive_kdf : CkKdf;
    X942Dh2Derive_private_data_len : N; X942Dh2Derive_private_data_handle : CkObjectHandle;
    X942Dh2Derive_other_info_presence : PointerBytes; X942Dh2Derive_public_data_presence : PointerBytes;
    X942Dh2Derive_public_data2_presence : PointerBytes }.
#[export] Instance X942Dh2DeriveParams_eta : Eta X942Dh2DeriveParams := fun p =>
  MkX942Dh2DeriveParams (X942Dh2Derive_kdf p) (X942Dh2Derive_private_data_len p) (X942Dh2Derive_private_data_handle p) (X942Dh2Derive_other_info_presence p) (X942Dh2Derive_public_data_presence p) (X942Dh2Derive_public_data2_presence p).
Record X942MqvDeriveParams := MkX942MqvDeriveParams { X942MqvDerive_kdf : CkKdf;
    X942MqvDerive_private_data_len : N; X942MqvDerive_private_data_handle : CkObjectHandle;
    X942MqvDerive_public_key_handle : CkObjectHandle; X942MqvDerive_other_info_presence : PointerBytes;
    X942MqvDerive_public_data_presence : PointerBytes; X942MqvDerive_public_data2_presence : PointerBytes }.
#[export] Instance X942MqvDeriveParams_eta : Eta X942MqvDeriveParams := fun p =>
  MkX942MqvDeriveParams (X942MqvDerive_kdf p) (X942MqvDerive_private_data_len p) (X942MqvDerive_private_data_handle p) (X942MqvDerive_public_key_handle p) (X942MqvDerive_other_info_presence p) (X942MqvDerive_public_data_presence p) (X942MqvDerive_public_data2_presence p).
Record HkdfParams := MkHkdfParams { Hkdf_extract : bool; Hkdf_expand : bool;
    Hkdf_prf_hash_mechanism : CkMechanismType; Hkdf_salt_type : N; Hkdf_salt_key_handle : CkObjectHandle;
    Hkdf_salt_presence : PointerBytes; Hkdf_info_presence : PointerBytes }.
#[export] Instance HkdfParams_eta : Eta HkdfParams := fun p =>
  MkHkdfParams (Hkdf_extract p) (Hkdf_expand p) (Hkdf_prf_hash_mechanism p) (Hkdf_salt_type p) (Hkdf_salt_key_handle p) (Hkdf_salt_presence p) (Hkdf_info_presence p).
Record EddsaParams := MkEddsaParams { Eddsa_ph_flag : bool; Eddsa_context_data_presence : PointerBytes }.
Record Gostr3410DeriveParams := MkGostr3410DeriveParams { Gostr3410Derive_kdf : CkKdf;
    Gostr3410Derive_public_data_presence : PointerBytes; Gostr3410Derive_ukm_presence : PointerBytes }.
Record KeaDeriveParams := MkKeaDeriveParams { KeaDerive_is_sender : bool;
    KeaDerive_random_a_presence : PointerBytes; KeaDerive_random_b_presence : PointerBytes;
    KeaDerive_public_data_presence : PointerBytes }.
Record EcdhAesKeyWrapParams := MkEcdhAesKeyWrapParams { EcdhAesKeyWrap_aes_key_bits : N;
    EcdhAesKeyWrap_kdf : CkKdf; EcdhAesKeyWrap_shared_data_presence : PointerBytes }.
Record RsaAesKeyWrapParams := MkRsaAesKeyWrapParams { RsaAesKeyWrap_aes_key_bits : N;
    RsaAesKeyWrap_oaep_params : RsaPkcsOaepParams }.
Record Gostr3410KeyWrapParams := MkGostr3410KeyWrapParams { Gostr3410KeyWrap_key_handle : CkObjectHandle;
    Gostr3410KeyWrap_wrap_oid_presence : PointerBytes; Gostr3410KeyWrap_ukm_presence : PointerBytes }.
#[export] Instance Gostr3410KeyWrapParams_eta : Eta Gostr3410KeyWrapParams := fun p =>
  MkGostr3410KeyWrapParams (Gostr3410KeyWrap_key_handle p) (Gostr3410KeyWrap_wrap_oid_presence p) (Gostr3410KeyWrap_ukm_presence p).
Record KeyWrapSetOaepParams := MkKeyWrapSetOaepParams { KeyWrapSetOaep_bc : N;
    KeyWrapSetOaep_x_presence : PointerBytes }.
Record PbeParams := MkPbeParams { Pbe_iteration : N; Pbe_init_vector_presence : PointerBytes;
    Pbe_password_presence : PointerBytes; Pbe_salt_presence : PointerBytes }.
Record Pkcs5Pbkd2Params := MkPkcs5Pbkd2Params { Pkcs5Pbkd2_salt_source : CkPbkdf2SaltSource;
    Pkcs5Pbkd2_iterations : N; Pkcs5Pbkd2_prf : CkPbkdf2Prf; Pkcs5Pbkd2_salt_source_data_presence : PointerBytes;
    Pkcs5Pbkd2_prf_data_presence : PointerBytes; Pkcs5Pbkd2_password_presence : PointerBytes }.
Record SslRandomData := MkSslRandomData { SslRandom_client_random_presence : PointerBytes;
    SslRandom_server_random_presence : PointerBytes }.
Record TlsPrfParams := MkTlsPrfParams { TlsPrf_output_len : N; TlsPrf_output : SecretBytes;
    TlsPrf_seed_presence : PointerBytes; TlsPrf_label_presence : PointerBytes; TlsPrf_output_is_null : bool;
    TlsPrf_output_len_is_null : bool }.
Record TlsKdfParams := MkTlsKdfParams { TlsKdf_prf_mechanism : CkMechanismType;
    TlsKdf_random_info : SslRandomData; TlsKdf_label_presence : PointerBytes;
    TlsKdf_context_data_presence : PointerBytes }.
Record Ssl3MasterKeyDeriveParams := MkSsl3MasterKeyDeriveParams { Ssl3MasterKeyDerive_random_info : SslRandomData;
    Ssl3MasterKeyDerive_version_major : N; Ssl3MasterKeyDerive_version_minor : N;
    Ssl3MasterKeyDerive_version_is_null : bool }.
Record Tls12MasterKeyDeriveParams := MkTls12MasterKeyDeriveParams { Tls12MasterKeyDerive_random_info : SslRandomData;
    Tls12MasterKeyDerive_version_major : N; Tls12MasterKeyDerive_version_minor : N;
    Tls12MasterKeyDerive_prf_hash_mechanism : CkMechanismType; Tls12MasterKeyDerive_version_is_null : bool }.
Record Tls12ExtendedMasterKeyDeriveParams := MkTls12ExtendedMasterKeyDeriveParams { Tls12ExtendedMasterKeyDerive_prf_hash_mechanism : CkMechanismType;
    Tls12ExtendedMasterKeyDerive_version_major : N; Tls12ExtendedMasterKeyDerive_version_minor : N;
    Tls12ExtendedMasterKeyDerive_session_hash_presence : PointerBytes;
    Tls12ExtendedMasterKeyDerive_version_is_null : bool }.
Record Ssl3KeyMatParams := MkSsl3KeyMatParams { Ssl3KeyMat_mac_size_bits : N; Ssl3KeyMat_key_size_bits : N;
    Ssl3KeyMat_iv_size_bits : N; Ssl3KeyMat_is_export : bool; Ssl3KeyMat_random_info : SslRandomData;
    Ssl3KeyMat_prf_hash_mechanism : CkMechanismType; Ssl3KeyMat_client_mac_secret_handle : CkObjectHandle;
    Ssl3KeyMat_server_mac_secret_handle : CkObjectHandle; Ssl3KeyMat_client_key_handle : CkObjectHandle;
    Ssl3KeyMat_server_key_handle : CkObjectHandle; Ssl3KeyMat_client_iv_presence : PointerBytes;
    Ssl3KeyMat_server_iv_presence : PointerBytes; Ssl3KeyMat_returned_key_material_is_null : bool }.
#[export] Instance Ssl3KeyMatParams_eta : Eta Ssl3KeyMatParams := fun p =>
  MkSsl3KeyMatParams (Ssl3KeyMat_mac_size_bits p) (Ssl3KeyMat_key_size_bits p) (Ssl3KeyMat_iv_size_bits p) (Ssl3KeyMat_is_export p) (Ssl3KeyMat_random_info p) (Ssl3KeyMat_prf_hash_mechanism p) (Ssl3KeyMat_client_mac_secret_handle p) (Ssl3KeyMat_server_mac_secret_handle p) (Ssl3KeyMat_client_key_handle p) (Ssl3KeyMat_server_key_handle p) (Ssl3KeyMat_client_iv_presence p) (Ssl3KeyMat_server_iv_presence p) (Ssl3KeyMat_returned_key_material_is_null p).
Record WtlsRandomData := MkWtlsRandomData { WtlsRandom_client_random_presence : PointerBytes;
    WtlsRandom_server_random_presence : PointerBytes }.
Record WtlsMasterKeyDeriveParams := MkWtlsMasterKeyDeriveParams { WtlsMasterKeyDerive_digest_mechanism : CkMechanismType;
    WtlsMasterKeyDerive_random_info : WtlsRandomData; WtlsMasterKeyDerive_version : N;
    WtlsMasterKeyDerive_version_is_null : bool }.
Record WtlsPrfParams := MkWtlsPrfParams { WtlsPrf_digest_mechanism : CkMechanismType; WtlsPrf_output_len : N;
    WtlsPrf_output : SecretBytes; WtlsPrf_seed_presence : PointerBytes; WtlsPrf_label_presence : PointerBytes;
    WtlsPrf_output_is_null : bool; WtlsPrf_output_len_is_null : bool }.
Record WtlsKeyMatParams := MkWtlsKeyMatParams { WtlsKeyMat_digest_mechanism : CkMechanismType;
    WtlsKeyMat_mac_size_bits : N; WtlsKeyMat_key_size_bits : N; WtlsKeyMat_iv_size_bits : N;
    WtlsKeyMat_sequence_number : N; WtlsKeyMat_is_export : bool; WtlsKeyMat_random_info : WtlsRandomData;
    WtlsKeyMat_mac_secret_handle : CkObjectHandle; WtlsKeyMat_key_handle : CkObjectHandle;
    WtlsKeyMat_iv_presence : PointerBytes; WtlsKeyMat_returned_key_material_is_null : bool }.
#[export] Instance WtlsKeyMatParams_eta : Eta WtlsKeyMatParams := fun p =>
  MkWtlsKeyMatParams (WtlsKeyMat_digest_mechanism p) (WtlsKeyMat_mac_size_bits p) (WtlsKeyMat_key_size_bits p) (WtlsKeyMat_iv_size_bits p) (WtlsKeyMat_sequence_number p) (WtlsKeyMat_is_export p) (WtlsKeyMat_random_info p) (WtlsKeyMat_mac_secret_handle p) (WtlsKeyMat_key_handle p) (WtlsKeyMat_iv_presence p) (WtlsKeyMat_returned_key_material_is_null p).
Record IkePrfDeriveParams := MkIkePrfDeriveParams { IkePrfDerive_prf_mechanism : CkMechanismType;
    IkePrfDerive_data_as_key : bool; IkePrfDerive_rekey : bool; IkePrfDerive_new_key_handle : CkObjectHandle;
    IkePrfDerive_ni_presence : PointerBytes; IkePrfDerive_nr_presence : PointerBytes }.
#[export] Instance IkePrfDeriveParams_eta : Eta IkePrfDeriveParams := fun p =>
  MkIkePrfDeriveParams (IkePrfDerive_prf_mechanism p) (IkePrfDerive_data_as_key p) (IkePrfDerive_rekey p) (IkePrfDerive_new_key_handle p) (IkePrfDerive_ni_presence p) (IkePrfDerive_nr_presence p).
Record Ike1PrfDeriveParams := MkIke1PrfDeriveParams { Ike1PrfDerive_prf_mechanism : CkMechanismType;
    Ike1PrfDerive_has_prev_key : bool; Ike1PrfDerive_keygxy_handle : CkObjectHandle;
    Ike1PrfDerive_prev_key_handle : CkObjectHandle; Ike1PrfDerive_key_number : N;
    Ike1PrfDerive_ckyi_presence : PointerBytes; Ike1PrfDerive_ckyr_presence : PointerBytes }.
#[export] Instance Ike1PrfDeriveParams_eta : Eta Ike1PrfDeriveParams := fun p =>
  MkIke1PrfDeriveParams (Ike1PrfDerive_prf_mechanism p) (Ike1PrfDerive_has_prev_key p) (Ike1PrfDerive_keygxy_handle p) (Ike1PrfDerive_prev_key_handle p) (Ike1PrfDerive_key_number p) (Ike1PrfDerive_ckyi_presence p) (Ike1PrfDerive_ckyr_presence p).
Record Ike1ExtendedDeriveParams := MkIke1ExtendedDeriveParams { Ike1ExtendedDerive_prf_mechanism : CkMechanismType;
    Ike1ExtendedDerive_has_keygxy : bool; Ike1ExtendedDerive_keygxy_handle : CkObjectHandle;
    Ike1ExtendedDerive_extra_data_presence : PointerBytes }.
#[export] Instance Ike1ExtendedDeriveParams_eta : Eta Ike1ExtendedDeriveParams := fun p =>
  MkIke1ExtendedDeriveParams (Ike1ExtendedDerive_prf_mechanism p) (Ike1ExtendedDerive_has_keygxy p) (Ike1ExtendedDerive_keygxy_handle p) (Ike1ExtendedDerive_extra_data_presence p).
Record Ike2PrfPlusDeriveParams := MkIke2PrfPlusDeriveParams { Ike2PrfPlusDerive_prf_mechanism : CkMechanismType;
    Ike2PrfPlusDerive_has_seed_key : bool; Ike2PrfPlusDerive_seed_key_handle : CkObjectHandle;
    Ike2PrfPlusDerive_seed_data_presence : PointerBytes }.
#[export] Instance Ike2PrfPlusDeriveParams_eta : Eta Ike2PrfPlusDeriveParams := fun p =>
  MkIke2PrfPlusDeriveParams (Ike2PrfPlusDerive_prf_mechanism p) (Ike2PrfPlusDerive_has_seed_key p) (Ike2PrfPlusDerive_seed_key_handle p) (Ike2PrfPlusDerive_seed_data_presence p).
Record PrfDataParam := MkPrfDataParam { PrfData_type_ : N; PrfData_value_presence : PointerBytes }.
Record Sp800108DerivedKey := MkSp800108DerivedKey { Sp800108DerivedKey_key_handle : CkObjectHandle;
    Sp800108DerivedKey_template_presence : PointerArray CkAttribute; Sp800108DerivedKey_ph_key_is_null : bool }.
#[export] Instance Sp800108DerivedKey_eta : Eta Sp800108DerivedKey := fun p =>
  MkSp800108DerivedKey (Sp800108DerivedKey_key_handle p) (Sp800108DerivedKey_template_presence p) (Sp800108DerivedKey_ph_key_is_null p).
Record Sp800108KdfParams := MkSp800108KdfParams { Sp800108Kdf_prf_type : CkMechanismType;
    Sp800108Kdf_data_params_presence : PointerArray PrfDataParam;
    Sp800108Kdf_additional_derived_keys_presence : PointerArray Sp800108DerivedKey }.
Record Sp800108FeedbackKdfParams := MkSp800108FeedbackKdfParams { Sp800108FeedbackKdf_prf_type : CkMechanismType;
    Sp800108FeedbackKdf_data_params_presence : PointerArray PrfDataParam;
    Sp800108FeedbackKdf_iv_presence : PointerBytes;
    Sp800108FeedbackKdf_additional_derived_keys_presence : PointerArray Sp800108DerivedKey }.
Record X3dhInitiateParams := MkX3dhInitiateParams { X3dhInitiate_kdf : N;
    X3dhInitiate_peer_identity_handle : CkObjectHandle; X3dhInitiate_peer_prekey_handle : CkObjectHandle;
    X3dhInitiate_prekey_signature : list N; X3dhInitiate_onetime_key_handle : CkObjectHandle;
    X3dhInitiate_own_identity_handle : CkObjectHandle; X3dhInitiate_own_ephemeral_handle : CkObjectHandle }.
#[export] Instance X3dhInitiateParams_eta : Eta X3dhInitiateParams := fun p =>
  MkX3dhInitiateParams (X3dhInitiate_kdf p) (X3dhInitiate_peer_identity_handle p) (X3dhInitiate_peer_prekey_handle p) (X3dhInitiate_prekey_signature p) (X3dhInitiate_onetime_key_handle p) (X3dhInitiate_own_identity_handle p) (X3dhInitiate_own_ephemeral_handle p).
Record X3dhRespondParams := MkX3dhRespondParams { X3dhRespond_kdf : N;
    X3dhRespond_identity_handle : CkObjectHandle; X3dhRespond_prekey_handle : CkObjectHandle;
    X3dhRespond_onetime_key_handle : CkObjectHandle; X3dhRespond_initiator_identity_handle : CkObjectHandle;
    X3dhRespond_initiator_ephemeral_handle : CkObjectHandle }.
#[export] Instance X3dhRespondParams_eta : Eta X3dhRespondParams := fun p =>
  MkX3dhRespondParams (X3dhRespond_kdf p) (X3dhRespond_identity_handle p) (X3dhRespond_prekey_handle p) (X3dhRespond_onetime_key_handle p) (X3dhRespond_initiator_identity_handle p) (X3dhRespond_initiator_ephemeral_handle p).
Record X2RatchetInitializeParams := MkX2RatchetInitializeParams { X2RatchetInitialize_sk : SecretBytes;
    X2RatchetInitialize_peer_public_prekey_handle : CkObjectHandle;
    X2RatchetInitialize_peer_public_identity_handle : CkObjectHandle;
    X2RatchetInitialize_own_public_identity_handle : CkObjectHandle; X2RatchetInitialize_encrypted_header : bool;
    X2RatchetInitialize_curve : N; X2RatchetInitialize_aead_mechanism : CkMechanismType;
    X2RatchetInitialize_kdf_mechanism : CkKdf }.
#[export] Instance X2RatchetInitializeParams_eta : Eta X2RatchetInitializeParams := fun p =>
  MkX2RatchetInitializeParams (X2RatchetInitialize_sk p) (X2RatchetInitialize_peer_public_prekey_handle p) (X2RatchetInitialize_peer_public_identity_handle p) (X2RatchetInitialize_own_public_identity_handle p) (X2RatchetInitialize_encrypted_header p) (X2RatchetInitialize_curve p) (X2RatchetInitialize_aead_mechanism p) (X2RatchetInitialize_kdf_mechanism p).
Record X2RatchetRespondParams := MkX2RatchetRespondParams { X2RatchetRespond_sk : SecretBytes;
    X2RatchetRespond_own_prekey_handle : CkObjectHandle;
    X2RatchetRespond_initiator_identity_handle : CkObjectHandle;
    X2RatchetRespond_own_identity_handle : CkObjectHandle; X2RatchetRespond_encrypted_header : bool;
    X2RatchetRespond_curve : N; X2RatchetRespond_aead_mechanism : CkMechanismType;
    X2RatchetRespond_kdf_mechanism : CkKdf }.
#[export] Instance X2RatchetRespondParams_eta : Eta X2RatchetRespondParams := fun p =>
  MkX2RatchetRespondParams (X2RatchetRespond_sk p) (X2RatchetRespond_own_prekey_handle p) (X2RatchetRespond_initiator_identity_handle p) (X2RatchetRespond_own_identity_handle p) (X2RatchetRespond_encrypted_header p) (X2RatchetRespond_curve p) (X2RatchetRespond_aead_mechanism p) (X2RatchetRespond_kdf_mechanism p).
Record OtpParam := MkOtpParam { OtpElem_type_ : N; OtpElem_value_presence : PointerBytes }.
Record OtpParams := MkOtpParams { Otp_params_presence : PointerArray OtpParam }.
Record SkipjackPrivateWrapParams := MkSkipjackPrivateWrapParams { SkipjackPrivateWrap_password_length : N;
    SkipjackPrivateWrap_password_presence : PointerBytes;
    SkipjackPrivateWrap_public_data_presence : PointerBytes;
    SkipjackPrivateWrap_random_a_presence : PointerBytes; SkipjackPrivateWrap_prime_p_presence : PointerBytes;
    SkipjackPrivateWrap_base_g_presence : PointerBytes;
    SkipjackPrivateWrap_subprime_q_presence : PointerBytes }.
Record SkipjackRelayxParams := MkSkipjackRelayxParams { SkipjackRelayx_old_wrapped_x_presence : PointerBytes;
    SkipjackRelayx_old_password_presence : PointerBytes; SkipjackRelayx_old_public_data_presence : PointerBytes;
    SkipjackRelayx_old_random_a_presence : PointerBytes; SkipjackRelayx_new_password_presence : PointerBytes;
    SkipjackRelayx_new_public_data_presence : PointerBytes;
    SkipjackRelayx_new_random_a_presence : PointerBytes }.
Record MacGeneralParams := MkMacGeneralParams { MacGeneral_mac_length : N }.
Record ObjectHandleParam := MkObjectHandleParam { ObjectHandle_handle : CkObjectHandle }.
#[export] Instance ObjectHandleParam_eta : Eta ObjectHandleParam := fun p =>
  MkObjectHandleParam (ObjectHandle_handle p).
Record ExtractParams := MkExtractParams { Extract_bit_position : N }.
Record KeyDerivationStringData := MkKeyDerivationStringData { KeyDerivationString_data_presence : PointerBytes }.
Record SignAdditionalContext := MkSignAdditionalContext { SignAdditionalContext_hedge_variant : N;
    SignAdditionalContext_hash : CkMechanismType; SignAdditionalContext_context_presence : PointerBytes }.
Record KmacParams := MkKmacParams { Kmac_key_handle : CkObjectHandle; Kmac_mac_length : N;
    Kmac_customization_string_presence : PointerBytes }.
#[export] Instance KmacParams_eta : Eta KmacParams := fun p =>
  MkKmacParams (Kmac_key_handle p) (Kmac_mac_length p) (Kmac_customization_string_presence p).
Record MuGenParams := MkMuGenParams { MuGen_key_handle : CkObjectHandle; MuGen_tr_presence : PointerBytes;
    MuGen_context_presence : PointerBytes }.
#[export] Instance MuGenParams_eta : Eta MuGenParams := fun p =>
  MkMuGenParams (MuGen_key_handle p) (MuGen_tr_presence p) (MuGen_context_presence p).
Record RawMechanismParams := MkRawMechanismParams { RawMechanism_data : SecretBytes }.
Record AesCmacKeyDerivationParams := MkAesCmacKeyDerivationParams { AesCmacKeyDerivation_context : SecretBytes;
    AesCmacKeyDerivation_label : SecretBytes }.
Record DilithiumParams := MkDilithiumParams { Dilithium_version : N; Dilithium_mode : N }.
Record KyberParams := MkKyberParams { Kyber_version : N; Kyber_mode : N; Kyber_secret_handle : CkObjectHandle;
    Kyber_shared_data : SecretBytes; Kyber_blob : SecretBytes }.
#[export] Instance KyberParams_eta : Eta KyberParams := fun p =>
  MkKyberParams (Kyber_version p) (Kyber_mode p) (Kyber_secret_handle p) (Kyber_shared_data p) (Kyber_blob p).
Record HdKeyDeriveParams := MkHdKeyDeriveParams { HdKeyDerive_derive_type : N; HdKeyDerive_child_key_index : N;
    HdKeyDerive_chain_code : SecretBytes; HdKeyDerive_version : N }.
Record VendorObjectExtractParams := MkVendorObjectExtractParams { VendorObjectExtract_format : N;
    VendorObjectExtract_context : SecretBytes }.
Record VendorObjectInsertParams := MkVendorObjectInsertParams { VendorObjectInsert_format : N;
    VendorObjectInsert_context : SecretBytes; VendorObjectInsert_object_data : SecretBytes }.
(** Mechanisms nest through these three structs. *)
Inductive CkMechanism := MkCkMechanism (type_ : CkMechanismType) (params : option CkMechanismParams)
with CkMechanismParams :=
| P_RsaPkcsPss (p : RsaPkcsPssParams)
| P_RsaPkcsOaep (p : RsaPkcsOaepParams)
| P_Gcm (p : GcmParams)
| P_Ecdh1Derive (p : Ecdh1DeriveParams)
| P_Iv (p : IvParams)
| P_Rc5 (p : Rc5Params)
| P_Rc5MacGeneral (p : Rc5MacGeneralParams)
| P_Rc2MacGeneral (p : Rc2MacGeneralParams)
| P_Xeddsa (p : XeddsaParams)
| P_TlsMac (p : TlsMacParams)
| P_AesCtr (p : AesCtrParams)
| P_CamelliaCtr (p : CamelliaCtrParams)
| P_Rc2Cbc (p : Rc2CbcParams)
| P_Rc5Cbc (p : Rc5CbcParams)
| P_AesCbcEncryptData (p : AesCbcEncryptDataParams)
| P_DesCbcEncryptData (p : DesCbcEncryptDataParams)
| P_AriaCbcEncryptData (p : AriaCbcEncryptDataParams)
| P_CamelliaCbcEncryptData (p : CamelliaCbcEncryptDataParams)
| P_SeedCbcEncryptData (p : SeedCbcEncryptDataParams)
| P_Ccm (p : CcmParams)
| P_ChaCha20 (p : ChaCha20Params)
| P_Salsa20 (p : Salsa20Params)
| P_Salsa20ChaCha20Poly1305 (p : Salsa20ChaCha20Poly1305Params)
| P_GcmWrap (p : GcmWrapParams)
| P_CcmWrap (p : CcmWrapParams)
| P_Ecdh2Derive (p : Ecdh2DeriveParams)
| P_EcmqvDerive (p : EcmqvDeriveParams)
| P_X942Dh1Derive (p : X942Dh1DeriveParams)
| P_X942Dh2Derive (p : X942Dh2DeriveParams)
| P_X942MqvDerive (p : X942MqvDeriveParams)
| P_Hkdf (p : HkdfParams)
| P_Eddsa (p : EddsaParams)
| P_Gostr3410Derive (p : Gostr3410DeriveParams)
| P_KeaDerive (p : KeaDeriveParams)
| P_EcdhAesKeyWrap (p : EcdhAesKeyWrapParams)
| P_RsaAesKeyWrap (p : RsaAesKeyWrapParams)
| P_Gostr3410KeyWrap (p : Gostr3410KeyWrapParams)
| P_KeyWrapSetOaep (p : KeyWrapSetOaepParams)
| P_Pbe (p : PbeParams)
| P_Pkcs5Pbkd2 (p : Pkcs5Pbkd2Params)
| P_TlsPrf (p : TlsPrfParams)
| P_TlsKdf (p : TlsKdfParams)
| P_Ssl3MasterKeyDerive (p : Ssl3MasterKeyDeriveParams)
| P_Tls12MasterKeyDerive (p : Tls12MasterKeyDeriveParams)
| P_Tls12ExtendedMasterKeyDerive (p : Tls12ExtendedMasterKeyDeriveParams)
| P_Ssl3KeyMat (p : Ssl3KeyMatParams)
| P_WtlsMasterKeyDerive (p : WtlsMasterKeyDeriveParams)
| P_WtlsPrf (p : WtlsPrfParams)
| P_WtlsKeyMat (p : WtlsKeyMatParams)
| P_IkePrfDerive (p : IkePrfDeriveParams)
| P_Ike1PrfDerive (p : Ike1PrfDeriveParams)
| P_Ike1ExtendedDerive (p : Ike1ExtendedDeriveParams)
| P_Ike2PrfPlusDerive (p : Ike2PrfPlusDeriveParams)
| P_Sp800108Kdf (p : Sp800108KdfParams)
| P_Sp800108FeedbackKdf (p : Sp800108FeedbackKdfParams)
| P_X3dhInitiate (p : X3dhInitiateParams)
| P_X3dhRespond (p : X3dhRespondParams)
| P_X2RatchetInitialize (p : X2RatchetInitializeParams)
| P_X2RatchetRespond (p : X2RatchetRespondParams)
| P_Otp (p : OtpParams)
| P_Kip (p : KipParams)
| P_CmsSig (p : CmsSigParams)
| P_SkipjackPrivateWrap (p : SkipjackPrivateWrapParams)
| P_SkipjackRelayx (p : SkipjackRelayxParams)
| P_MacGeneral (p : MacGeneralParams)
| P_ObjectHandle (p : ObjectHandleParam)
| P_Extract (p : ExtractParams)
| P_SignAdditionalContext (p : SignAdditionalContext)
| P_Kmac (p : KmacParams)
| P_MuGen (p : MuGenParams)
| P_KeyDerivationString (p : KeyDerivationStringData)
| P_Raw (p : RawMechanismParams)
| P_Flat (p : FlatParams)
| P_Null (declared_len version : N)
| P_Ecies (p : EciesParams)
| P_AesCmacKeyDerivation (p : AesCmacKeyDerivationParams)
| P_Dilithium (p : DilithiumParams)
| P_Kyber (p : KyberParams)
| P_HdKeyDerive (p : HdKeyDeriveParams)
| P_VendorObjectExtract (p : VendorObjectExtractParams)
| P_VendorObjectInsert (p : VendorObjectInsertParams)
with KipParams := MkKipParams (mechanism : option CkMechanism) (key_handle : CkObjectHandle) (seed_presence : PointerBytes)
with CmsSigParams := MkCmsSigParams (certificate_handle : CkObjectHandle)
    (signing_mechanism digest_mechanism : CkMechanism)
    (content_type : string) (requested_attributes required_attributes : SecretBytes)
with EciesParams := MkEciesParams (derivation_mechanism encryption_mechanism mac_mechanism : CkMechanism)
    (shared_data : SecretBytes).
Definition Kip_mechanism (p : KipParams) : option CkMechanism := let 'MkKipParams x _ _ := p in x.
Definition Kip_key_handle (p : KipParams) : CkObjectHandle := let 'MkKipParams _ x _ := p in x.
Definition Kip_seed_presence (p : KipParams) : PointerBytes := let 'MkKipParams _ _ x := p in x.
Definition CmsSig_certificate_handle (p : CmsSigParams) : CkObjectHandle := let 'MkCmsSigParams x _ _ _ _ _ := p in x.
Definition CmsSig_signing_mechanism (p : CmsSigParams) : CkMechanism := let 'MkCmsSigParams _ x _ _ _ _ := p in x.
Definition CmsSig_digest_mechanism (p : CmsSigParams) : CkMechanism := let 'MkCmsSigParams _ _ x _ _ _ := p in x.
Definition CmsSig_content_type (p : CmsSigParams) : string := let 'MkCmsSigParams _ _ _ x _ _ := p in x.
Definition CmsSig_requested_attributes (p : CmsSigParams) : SecretBytes := let 'MkCmsSigParams _ _ _ _ x _ := p in x.
Definition CmsSig_required_attributes (p : CmsSigParams) : SecretBytes := let 'MkCmsSigParams _ _ _ _ _ x := p in x.
Definition Ecies_derivation_mechanism (p : EciesParams) : CkMechanism := let 'MkEciesParams x _ _ _ := p in x.
Definition Ecies_encryption_mechanism (p : EciesParams) : CkMechanism := let 'MkEciesParams _ x _ _ := p in x.
Definition Ecies_mac_mechanism (p : EciesParams) : CkMechanism := let 'MkEciesParams _ _ x _ := p in x.
Definition Ecies_shared_data (p : EciesParams) : SecretBytes := let 'MkEciesParams _ _ _ x := p in x.

Definition mechanism_type (m : CkMechanism) : CkMechanismType := let 'MkCkMechanism t _ := m in t.
Definition mechanism_params (m : CkMechanism) : option CkMechanismParams := let 'MkCkMechanism _ p := m in p.

(** ** Canonical shape *)

Definition canonical_shape_name (params : CkMechanismParams) : option string :=
  match params with
  | P_RsaPkcsPss _ => Some "rsa_pss"
  | P_RsaPkcsOaep _ => Some "rsa_oaep"
  | P_Gcm _ => Some "gcm"
  | P_Ecdh1Derive _ => Some "ecdh1_derive"
  | P_Iv _ => Some "iv"
  | P_Rc5 _ => Some "rc5"
  | P_Rc5MacGeneral _ => Some "rc5_mac_general"
  | P_Rc2MacGeneral _ => Some "rc2_mac_general"
  | P_Xeddsa _ => Some "xeddsa"
  | P_TlsMac _ => Some "tls_mac"
  | P_AesCtr _ => Some "aes_ctr"
  | P_CamelliaCtr _ => Some "camellia_ctr"
  | P_Rc2Cbc _ => Some "rc2_cbc"
  | P_Rc5Cbc _ => Some "rc5_cbc"
  | P_AesCbcEncryptData _ => Some "aes_cbc_encrypt_data"
  | P_DesCbcEncryptData _ => Some "des_cbc_encrypt_data"
  | P_AriaCbcEncryptData _ => Some "aria_cbc_encrypt_data"
  | P_CamelliaCbcEncryptData _ => Some "camellia_cbc_encrypt_data"
  | P_SeedCbcEncryptData _ => Some "seed_cbc_encrypt_data"
  | P_Ccm _ => Some "ccm"
  | P_ChaCha20 _ => Some "chacha20"
  | P_Salsa20 _ => Some "salsa20"
  | P_Salsa20ChaCha20Poly1305 _ => Some "salsa20_chacha20_poly1305"
  | P_GcmWrap _ => Some "gcm_wrap"
  | P_CcmWrap _ => Some "ccm_wrap"
  | P_Ecdh2Derive _ => Some "ecdh2_derive"
  | P_EcmqvDerive _ => Some "ecmqv_derive"
  | P_X942Dh1Derive _ => Some "x942_dh1_derive"
  | P_X942Dh2Derive _ => Some "x942_dh2_derive"
  | P_X942MqvDerive _ => Some "x942_mqv_derive"
  | P_Hkdf _ => Some "hkdf"
  | P_Eddsa _ => Some "eddsa"
  | P_Gostr3410Derive _ => Some "gostr3410_derive"
  | P_KeaDerive _ => Some "kea_derive"
  | P_EcdhAesKeyWrap _ => Some "ecdh_aes_key_wrap"
  | P_RsaAesKeyWrap _ => Some "rsa_aes_key_wrap"
  | P_Gostr3410KeyWrap _ => Some "gostr3410_key_wrap"
  | P_KeyWrapSetOaep _ => Some "key_wrap_set_oaep"
  | P_Pbe _ => Some "pbe"
  | P_Pkcs5Pbkd2 _ => Some "pkcs5_pbkd2"
  | P_TlsPrf _ => Some "tls_prf"
  | P_TlsKdf _ => Some "tls_kdf"
  | P_Ssl3MasterKeyDerive _ => Some "ssl3_master_key_derive"
  | P_Tls12MasterKeyDerive _ => Some "tls12_master_key_derive"
  | P_Tls12ExtendedMasterKeyDerive _ => Some "tls12_extended_master_key_derive"
  | P_Ssl3KeyMat _ => Some "ssl3_key_mat"
  | P_WtlsMasterKeyDerive _ => Some "wtls_master_key_derive"
  | P_WtlsPrf _ => Some "wtls_prf"
  | P_WtlsKeyMat _ => Some "wtls_key_mat"
  | P_IkePrfDerive _ => Some "ike_prf_derive"
  | P_Ike1PrfDerive _ => Some "ike1_prf_derive"
  | P_Ike1ExtendedDerive _ => Some "ike1_extended_derive"
  | P_Ike2PrfPlusDerive _ => Some "ike2_prf_plus_derive"
  | P_Sp800108Kdf _ => Some "sp800_108_kdf"
  | P_Sp800108FeedbackKdf _ => Some "sp800_108_feedback_kdf"
  | P_X3dhInitiate _ => Some "x3dh_initiate"
  | P_X3dhRespond _ => Some "x3dh_respond"
  | P_X2RatchetInitialize _ => Some "x2ratchet_initialize"
  | P_X2RatchetRespond _ => Some "x2ratchet_respond"
  | P_Otp _ => Some "otp"
  | P_Kip _ => Some "kip"
  | P_CmsSig _ => Some "cms_sig"
  | P_SkipjackPrivateWrap _ => Some "skipjack_private_wrap"
  | P_SkipjackRelayx _ => Some "skipjack_relayx"
  | P_MacGeneral _ => Some "mac_general"
  | P_ObjectHandle _ => Some "object_handle"
  | P_Extract _ => Some "extract"
  | P_SignAdditionalContext _ => Some "sign_additional_context"
  | P_Kmac _ => Some "kmac"
  | P_MuGen _ => Some "mu_gen"
  | P_KeyDerivationString _ => Some "key_derivation_string"
  | P_Ecies _ => Some "ecies"
  | P_AesCmacKeyDerivation _ => Some "aes_cmac_key_derivation"
  | P_Dilithium _ => Some "dilithium"
  | P_Kyber _ => Some "kyber"
  | P_HdKeyDerive _ => Some "hd_key_derive"
  | P_VendorObjectExtract _ => Some "vendor_object_extract"
  | P_VendorObjectInsert _ => Some "vendor_object_insert"
  | P_Raw _ | P_Flat _ | P_Null _ _ => None
  end.

(** ** Output envelopes *)

Definition check_null_bit_pair (is_zero is_null : bool) : CkResult unit :=
  if is_null && negb is_zero then Err Rv.MECHANISM_PARAM_INVALID else Ok tt.

Definition is_zero_handle (h : CkObjectHandle) : bool := object_raw h =? 0.
Definition is_empty {A} (l : list A) : bool := match l with [] => true | _ => false end.
(** [as_present().map(is_empty).unwrap_or(true)]. *)
Definition null_or_empty (p : PointerBytes) : bool := default true (is_empty <$> PointerBytes_as_present p).

Definition check_sp800108_derived_key (key : Sp800108DerivedKey) : CkResult unit :=
  check_null_bit_pair (is_zero_handle (Sp800108DerivedKey_key_handle key)) (Sp800108DerivedKey_ph_key_is_null key).

Fixpoint check_derived_keys (keys : list Sp800108DerivedKey) : CkResult unit :=
  match keys with
  | [] => Ok tt
  | key :: keys => let? _ := check_sp800108_derived_key key in check_derived_keys keys
  end.

Definition check_typed_presence (params : CkMechanismParams) : CkResult unit :=
  match params with
  | P_TlsPrf p =>
      let? _ := check_null_bit_pair (is_empty (TlsPrf_output p)) (TlsPrf_output_is_null p) in
      check_null_bit_pair (TlsPrf_output_len p =? 0) (TlsPrf_output_len_is_null p)
  | P_Ssl3MasterKeyDerive p =>
      check_null_bit_pair ((Ssl3MasterKeyDerive_version_major p =? 0) && (Ssl3MasterKeyDerive_version_minor p =? 0))
        (Ssl3MasterKeyDerive_version_is_null p)
  | P_Tls12MasterKeyDerive p =>
      check_null_bit_pair ((Tls12MasterKeyDerive_version_major p =? 0) && (Tls12MasterKeyDerive_version_minor p =? 0))
        (Tls12MasterKeyDerive_version_is_null p)
  | P_Tls12ExtendedMasterKeyDerive p =>
      check_null_bit_pair ((Tls12ExtendedMasterKeyDerive_version_major p =? 0) && (Tls12ExtendedMasterKeyDerive_version_minor p =? 0))
        (Tls12ExtendedMasterKeyDerive_version_is_null p)
  | P_Ssl3KeyMat p =>
      check_null_bit_pair
        (is_zero_handle (Ssl3KeyMat_client_mac_secret_handle p) && is_zero_handle (Ssl3KeyMat_server_mac_secret_handle p) &&
         is_zero_handle (Ssl3KeyMat_client_key_handle p) && is_zero_handle (Ssl3KeyMat_server_key_handle p) &&
         null_or_empty (Ssl3KeyMat_client_iv_presence p) && null_or_empty (Ssl3KeyMat_server_iv_presence p))
        (Ssl3KeyMat_returned_key_material_is_null p)
  | P_WtlsMasterKeyDerive p => check_null_bit_pair (WtlsMasterKeyDerive_version p =? 0) (WtlsMasterKeyDerive_version_is_null p)
  | P_WtlsPrf p =>
      let? _ := check_null_bit_pair (is_empty (WtlsPrf_output p)) (WtlsPrf_output_is_null p) in
      check_null_bit_pair (WtlsPrf_output_len p =? 0) (WtlsPrf_output_len_is_null p)
  | P_WtlsKeyMat p =>
      check_null_bit_pair
        (is_zero_handle (WtlsKeyMat_mac_secret_handle p) && is_zero_handle (WtlsKeyMat_key_handle p) &&
         null_or_empty (WtlsKeyMat_iv_presence p))
        (WtlsKeyMat_returned_key_material_is_null p)
  | P_Sp800108Kdf p => check_derived_keys (present_items (Sp800108Kdf_additional_derived_keys_presence p))
  | P_Sp800108FeedbackKdf p => check_derived_keys (present_items (Sp800108FeedbackKdf_additional_derived_keys_presence p))
  | _ => Ok tt
  end.

(** ** Versions and lengths *)

Definition MECHANISM_PARAMETER_TRANSPORT_VERSION : N := 1.

Definition check_member_version (version : N) : CkResult unit :=
  if version <? MECHANISM_PARAMETER_TRANSPORT_VERSION then Err Rv.MECHANISM_PARAM_INVALID
  else if MECHANISM_PARAMETER_TRANSPORT_VERSION <? version then Err Rv.FUNCTION_NOT_SUPPORTED
  else Ok tt.

Definition narrow_len_for_backend (declared_len : N) (backend_abi : ParamAbi) : CkResult unit :=
  if 8 <=? ulong_size backend_abi then Ok tt
  else if declared_len <? 2 ^ 32 then Ok tt else Err Rv.FUNCTION_FAILED.

(** ** Embedded NULLs *)

Definition is_nonzero_null (peer : PointerBytes) : bool := match peer with PbNull n => negb (n =? 0) | PbPresent _ => false end.
Definition is_nonzero_null_array {T} (peer : PointerArray T) : bool := match peer with PaNull n => negb (n =? 0) | PaPresent _ => false end.
Definition SANITIZE_NESTING_CAP : N := 16.

Record SanitizeNestedCx := MkSanitizeNestedCx { cx_registry : MechanismRegistry; cx_local_abi : ParamAbi }.

Definition nested_flat_violates (mech_type : N) (flat : FlatParams) (cx : SanitizeNestedCx) : bool :=
  match check_member_version (Flat_version flat) with
  | Err _ => true
  | Ok _ =>
      if negb (N.of_nat (length (Flat_bytes flat)) =? Flat_declared_len flat) then true
      else match Flat_source_abi flat with
           | None => true
           | Some peer_abi =>
               match decide_flat_for_registry (cx_registry cx) mech_type General (Flat_declared_len flat) (Flat_fingerprint flat)
                       peer_abi (cx_local_abi cx) with
               | Eligible grant => negb (bool_decide (outer_kind (fg_resolved grant) = ByteBuffer))
               | Excluded | Denied _ => true
               end
           end
  end.

Definition ssl_random_has_nonzero_null (r : SslRandomData) : bool :=
  is_nonzero_null (SslRandom_client_random_presence r) || is_nonzero_null (SslRandom_server_random_presence r).
Definition wtls_random_has_nonzero_null (r : WtlsRandomData) : bool :=
  is_nonzero_null (WtlsRandom_client_random_presence r) || is_nonzero_null (WtlsRandom_server_random_presence r).
Definition sp800_108_data_has_nonzero_null (data : PointerArray PrfDataParam) : bool :=
  is_nonzero_null_array data || existsb (fun e => is_nonzero_null (PrfData_value_presence e)) (present_items data).
Definition sp800_108_keys_has_nonzero_null (keys : PointerArray Sp800108DerivedKey) : bool :=
  is_nonzero_null_array keys ||
  existsb (fun k => is_nonzero_null_array (Sp800108DerivedKey_template_presence k)) (present_items keys).

Fixpoint typed_has_nonzero_embedded_null (cx : SanitizeNestedCx) (depth : N) (params : CkMechanismParams) {struct params} : bool :=
  match params with
  | P_RsaPkcsPss _ => false
  | P_RsaPkcsOaep p => is_nonzero_null (RsaPkcsOaep_source_data_presence p)
  | P_Gcm p => is_nonzero_null (Gcm_iv_presence p) || is_nonzero_null (Gcm_aad_presence p)
  | P_Ecdh1Derive p =>
      is_nonzero_null (Ecdh1Derive_shared_data_presence p) || is_nonzero_null (Ecdh1Derive_public_data_presence p)
  | P_Iv _ => false
  | P_Rc5 _ => false
  | P_Rc5MacGeneral _ => false
  | P_Rc2MacGeneral _ => false
  | P_Xeddsa _ => false
  | P_TlsMac _ => false
  | P_AesCtr _ => false
  | P_CamelliaCtr _ => false
  | P_Rc2Cbc _ => false
  | P_Rc5Cbc p => is_nonzero_null (Rc5Cbc_iv_presence p)
  | P_AesCbcEncryptData p => is_nonzero_null (AesCbcEncryptData_data_presence p)
  | P_DesCbcEncryptData p => is_nonzero_null (DesCbcEncryptData_data_presence p)
  | P_AriaCbcEncryptData p => is_nonzero_null (AriaCbcEncryptData_data_presence p)
  | P_CamelliaCbcEncryptData p => is_nonzero_null (CamelliaCbcEncryptData_data_presence p)
  | P_SeedCbcEncryptData p => is_nonzero_null (SeedCbcEncryptData_data_presence p)
  | P_Ccm p => is_nonzero_null (Ccm_nonce_presence p) || is_nonzero_null (Ccm_aad_presence p)
  | P_ChaCha20 p => is_nonzero_null (ChaCha20_block_counter_presence p) || is_nonzero_null (ChaCha20_nonce_presence p)
  | P_Salsa20 p => is_nonzero_null (Salsa20_block_counter_presence p) || is_nonzero_null (Salsa20_nonce_presence p)
  | P_Salsa20ChaCha20Poly1305 p =>
      is_nonzero_null (Salsa20ChaCha20Poly1305_nonce_presence p) ||
      is_nonzero_null (Salsa20ChaCha20Poly1305_aad_presence p)
  | P_GcmWrap p => is_nonzero_null (GcmWrap_iv_presence p) || is_nonzero_null (GcmWrap_aad_presence p)
  | P_CcmWrap p => is_nonzero_null (CcmWrap_nonce_presence p) || is_nonzero_null (CcmWrap_aad_presence p)
  | P_Ecdh2Derive p =>
      is_nonzero_null (Ecdh2Derive_shared_data_presence p) || is_nonzero_null (Ecdh2Derive_public_data_presence p) ||
      is_nonzero_null (Ecdh2Derive_public_data2_presence p)
  | P_EcmqvDerive p =>
      is_nonzero_null (EcmqvDerive_shared_data_presence p) || is_nonzero_null (EcmqvDerive_public_data_presence p) ||
      is_nonzero_null (EcmqvDerive_public_data2_presence p)
  | P_X942Dh1Derive p =>
      is_nonzero_null (X942Dh1Derive_other_info_presence p) ||
      is_nonzero_null (X942Dh1Derive_public_data_presence p)
  | P_X942Dh2Derive p =>
      is_nonzero_null (X942Dh2Derive_other_info_presence p) ||
      is_nonzero_null (X942Dh2Derive_public_data_presence p) ||
      is_nonzero_null (X942Dh2Derive_public_data2_presence p)
  | P_X942MqvDerive p =>
      is_nonzero_null (X942MqvDerive_other_info_presence p) ||
      is_nonzero_null (X942MqvDerive_public_data_presence p) ||
      is_nonzero_null (X942MqvDerive_public_data2_presence p)
  | P_Hkdf p => is_nonzero_null (Hkdf_salt_presence p) || is_nonzero_null (Hkdf_info_presence p)
  | P_Eddsa p => is_nonzero_null (Eddsa_context_data_presence p)
  | P_Gostr3410Derive p =>
      is_nonzero_null (Gostr3410Derive_public_data_presence p) || is_nonzero_null (Gostr3410Derive_ukm_presence p)
  | P_KeaDerive p =>
      is_nonzero_null (KeaDerive_random_a_presence p) || is_nonzero_null (KeaDerive_random_b_presence p) ||
      is_nonzero_null (KeaDerive_public_data_presence p)
  | P_EcdhAesKeyWrap p => is_nonzero_null (EcdhAesKeyWrap_shared_data_presence p)
  | P_RsaAesKeyWrap p => is_nonzero_null (RsaPkcsOaep_source_data_presence (RsaAesKeyWrap_oaep_params p))
  | P_Gostr3410KeyWrap p =>
      is_nonzero_null (Gostr3410KeyWrap_wrap_oid_presence p) || is_nonzero_null (Gostr3410KeyWrap_ukm_presence p)
  | P_KeyWrapSetOaep p => is_nonzero_null (KeyWrapSetOaep_x_presence p)
  | P_Pbe p =>
      is_nonzero_null (Pbe_init_vector_presence p) || is_nonzero_null (Pbe_password_presence p) ||
      is_nonzero_null (Pbe_salt_presence p)
  | P_Pkcs5Pbkd2 p =>
      is_nonzero_null (Pkcs5Pbkd2_salt_source_data_presence p) || is_nonzero_null (Pkcs5Pbkd2_prf_data_presence p) ||
      is_nonzero_null (Pkcs5Pbkd2_password_presence p)
  | P_TlsPrf p => is_nonzero_null (TlsPrf_seed_presence p) || is_nonzero_null (TlsPrf_label_presence p)
  | P_TlsKdf p =>
      is_nonzero_null (TlsKdf_label_presence p) || is_nonzero_null (TlsKdf_context_data_presence p) ||
      ssl_random_has_nonzero_null (TlsKdf_random_info p)
  | P_Ssl3MasterKeyDerive p => ssl_random_has_nonzero_null (Ssl3MasterKeyDerive_random_info p)
  | P_Tls12MasterKeyDerive p => ssl_random_has_nonzero_null (Tls12MasterKeyDerive_random_info p)
  | P_Tls12ExtendedMasterKeyDerive p => is_nonzero_null (Tls12ExtendedMasterKeyDerive_session_hash_presence p)
  | P_Ssl3KeyMat p =>
      is_nonzero_null (Ssl3KeyMat_client_iv_presence p) || is_nonzero_null (Ssl3KeyMat_server_iv_presence p) ||
      ssl_random_has_nonzero_null (Ssl3KeyMat_random_info p)
  | P_WtlsMasterKeyDerive p => wtls_random_has_nonzero_null (WtlsMasterKeyDerive_random_info p)
  | P_WtlsPrf p => is_nonzero_null (WtlsPrf_seed_presence p) || is_nonzero_null (WtlsPrf_label_presence p)
  | P_WtlsKeyMat p =>
      is_nonzero_null (WtlsKeyMat_iv_presence p) || wtls_random_has_nonzero_null (WtlsKeyMat_random_info p)
  | P_IkePrfDerive p => is_nonzero_null (IkePrfDerive_ni_presence p) || is_nonzero_null (IkePrfDerive_nr_presence p)
  | P_Ike1PrfDerive p =>
      is_nonzero_null (Ike1PrfDerive_ckyi_presence p) || is_nonzero_null (Ike1PrfDerive_ckyr_presence p)
  | P_Ike1ExtendedDerive p => is_nonzero_null (Ike1ExtendedDerive_extra_data_presence p)
  | P_Ike2PrfPlusDerive p => is_nonzero_null (Ike2PrfPlusDerive_seed_data_presence p)
  | P_Sp800108Kdf p =>
      sp800_108_data_has_nonzero_null (Sp800108Kdf_data_params_presence p) ||
      sp800_108_keys_has_nonzero_null (Sp800108Kdf_additional_derived_keys_presence p)
  | P_Sp800108FeedbackKdf p =>
      sp800_108_data_has_nonzero_null (Sp800108FeedbackKdf_data_params_presence p) ||
      is_nonzero_null (Sp800108FeedbackKdf_iv_presence p) ||
      sp800_108_keys_has_nonzero_null (Sp800108FeedbackKdf_additional_derived_keys_presence p)
  | P_X3dhInitiate _ => false
  | P_X3dhRespond _ => false
  | P_X2RatchetInitialize _ => false
  | P_X2RatchetRespond _ => false
  | P_Otp p =>
      is_nonzero_null_array (Otp_params_presence p) ||
      existsb (fun e => is_nonzero_null (OtpElem_value_presence e)) (present_items (Otp_params_presence p))
  | P_Kip (MkKipParams mech _ seed) =>
      is_nonzero_null seed || match mech with Some m => mechanism_has_nonzero_null cx (depth + 1) m | None => false end
  | P_CmsSig (MkCmsSigParams _ signing digest _ _ _) =>
      mechanism_has_nonzero_null cx (depth + 1) signing || mechanism_has_nonzero_null cx (depth + 1) digest
  | P_SkipjackPrivateWrap p =>
      is_nonzero_null (SkipjackPrivateWrap_password_presence p) ||
      is_nonzero_null (SkipjackPrivateWrap_public_data_presence p) ||
      is_nonzero_null (SkipjackPrivateWrap_random_a_presence p) ||
      is_nonzero_null (SkipjackPrivateWrap_prime_p_presence p) ||
      is_nonzero_null (SkipjackPrivateWrap_base_g_presence p) ||
      is_nonzero_null (SkipjackPrivateWrap_subprime_q_presence p)
  | P_SkipjackRelayx p =>
      is_nonzero_null (SkipjackRelayx_old_wrapped_x_presence p) ||
      is_nonzero_null (SkipjackRelayx_old_password_presence p) ||
      is_nonzero_null (SkipjackRelayx_old_public_data_presence p) ||
      is_nonzero_null (SkipjackRelayx_old_random_a_presence p) ||
      is_nonzero_null (SkipjackRelayx_new_password_presence p) ||
      is_nonzero_null (SkipjackRelayx_new_public_data_presence p) ||
      is_nonzero_null (SkipjackRelayx_new_random_a_presence p)
  | P_MacGeneral _ => false
  | P_ObjectHandle _ => false
  | P_Extract _ => false
  | P_SignAdditionalContext p => is_nonzero_null (SignAdditionalContext_context_presence p)
  | P_Kmac p => is_nonzero_null (Kmac_customization_string_presence p)
  | P_MuGen p => is_nonzero_null (MuGen_tr_presence p) || is_nonzero_null (MuGen_context_presence p)
  | P_KeyDerivationString p => is_nonzero_null (KeyDerivationString_data_presence p)
  | P_Raw _ | P_Flat _ | P_Null _ _ => true
  | P_Ecies (MkEciesParams derivation encryption mac _) =>
      mechanism_has_nonzero_null cx (depth + 1) derivation || mechanism_has_nonzero_null cx (depth + 1) encryption ||
      mechanism_has_nonzero_null cx (depth + 1) mac
  | P_AesCmacKeyDerivation _ => false
  | P_Dilithium _ => false
  | P_Kyber _ => false
  | P_HdKeyDerive _ => false
  | P_VendorObjectExtract _ => false
  | P_VendorObjectInsert _ => false
  end
with mechanism_has_nonzero_null (cx : SanitizeNestedCx) (depth : N) (mech : CkMechanism) {struct mech} : bool :=
  if SANITIZE_NESTING_CAP <? depth then true
  else
    match mech with
    | MkCkMechanism _ None => false
    | MkCkMechanism _ (Some (P_Null declared_len _)) => negb (declared_len =? 0)
    | MkCkMechanism t (Some (P_Flat flat)) => nested_flat_violates t flat cx
    | MkCkMechanism _ (Some (P_Raw _)) => true
    | MkCkMechanism _ (Some params) => typed_has_nonzero_embedded_null cx depth params
    end.

(** ** Forgetting handles *)

Definition SP800_108_KEY_HANDLE_TYPE : N := 5.

(** Key-handle values are zero-filled in place. *)
Definition zero_sp800_108_key_handle_values (data_params : list PrfDataParam) : list PrfDataParam :=
  (fun e =>
     if negb (PrfData_type_ e =? SP800_108_KEY_HANDLE_TYPE) then e
     else match PrfData_value_presence e with
          | PbPresent bytes => MkPrfDataParam (PrfData_type_ e) (PbPresent (replicate (length bytes) 0))
          | PbNull _ => e
          end) <$> data_params.

Fixpoint zero_embedded_handles (params : CkMechanismParams) {struct params} : CkMechanismParams :=
  match params with
  | P_Hkdf p => P_Hkdf (p <| Hkdf_salt_key_handle := MkObject 0 |>)
  | P_Ecdh2Derive p => P_Ecdh2Derive (p <| Ecdh2Derive_private_data_handle := MkObject 0 |>)
  | P_EcmqvDerive p =>
      P_EcmqvDerive (p <| EcmqvDerive_private_data_handle := MkObject 0 |>
        <| EcmqvDerive_public_key_handle := MkObject 0 |>)
  | P_X942Dh2Derive p => P_X942Dh2Derive (p <| X942Dh2Derive_private_data_handle := MkObject 0 |>)
  | P_X942MqvDerive p =>
      P_X942MqvDerive (p <| X942MqvDerive_private_data_handle := MkObject 0 |>
        <| X942MqvDerive_public_key_handle := MkObject 0 |>)
  | P_Gostr3410KeyWrap p => P_Gostr3410KeyWrap (p <| Gostr3410KeyWrap_key_handle := MkObject 0 |>)
  | P_Ssl3KeyMat p =>
      P_Ssl3KeyMat (p <| Ssl3KeyMat_client_mac_secret_handle := MkObject 0 |>
        <| Ssl3KeyMat_server_mac_secret_handle := MkObject 0 |> <| Ssl3KeyMat_client_key_handle := MkObject 0 |>
        <| Ssl3KeyMat_server_key_handle := MkObject 0 |>)
  | P_WtlsKeyMat p =>
      P_WtlsKeyMat (p <| WtlsKeyMat_mac_secret_handle := MkObject 0 |> <| WtlsKeyMat_key_handle := MkObject 0 |>)
  | P_IkePrfDerive p => P_IkePrfDerive (p <| IkePrfDerive_new_key_handle := MkObject 0 |>)
  | P_Ike1PrfDerive p =>
      P_Ike1PrfDerive (p <| Ike1PrfDerive_keygxy_handle := MkObject 0 |>
        <| Ike1PrfDerive_prev_key_handle := MkObject 0 |>)
  | P_Ike1ExtendedDerive p => P_Ike1ExtendedDerive (p <| Ike1ExtendedDerive_keygxy_handle := MkObject 0 |>)
  | P_Ike2PrfPlusDerive p => P_Ike2PrfPlusDerive (p <| Ike2PrfPlusDerive_seed_key_handle := MkObject 0 |>)
  | P_X3dhInitiate p =>
      P_X3dhInitiate (p <| X3dhInitiate_peer_identity_handle := MkObject 0 |>
        <| X3dhInitiate_peer_prekey_handle := MkObject 0 |> <| X3dhInitiate_onetime_key_handle := MkObject 0 |>
        <| X3dhInitiate_own_identity_handle := MkObject 0 |> <| X3dhInitiate_own_ephemeral_handle := MkObject 0 |>)
  | P_X3dhRespond p =>
      P_X3dhRespond (p <| X3dhRespond_identity_handle := MkObject 0 |> <| X3dhRespond_prekey_handle := MkObject 0 |>
        <| X3dhRespond_onetime_key_handle := MkObject 0 |> <| X3dhRespond_initiator_identity_handle := MkObject 0 |>
        <| X3dhRespond_initiator_ephemeral_handle := MkObject 0 |>)
  | P_X2RatchetInitialize p =>
      P_X2RatchetInitialize (p <| X2RatchetInitialize_peer_public_prekey_handle := MkObject 0 |>
        <| X2RatchetInitialize_peer_public_identity_handle := MkObject 0 |>
        <| X2RatchetInitialize_own_public_identity_handle := MkObject 0 |>)
  | P_X2RatchetRespond p =>
      P_X2RatchetRespond (p <| X2RatchetRespond_own_prekey_handle := MkObject 0 |>
        <| X2RatchetRespond_initiator_identity_handle := MkObject 0 |>
        <| X2RatchetRespond_own_identity_handle := MkObject 0 |>)
  | P_ObjectHandle p => P_ObjectHandle (p <| ObjectHandle_handle := MkObject 0 |>)
  | P_Kmac p => P_Kmac (p <| Kmac_key_handle := MkObject 0 |>)
  | P_MuGen p => P_MuGen (p <| MuGen_key_handle := MkObject 0 |>)
  | P_Kyber p => P_Kyber (p <| Kyber_secret_handle := MkObject 0 |>)
  | P_Kip (MkKipParams mech _ seed) =>
      P_Kip (MkKipParams match mech with
                         | Some (MkCkMechanism t (Some inner)) => Some (MkCkMechanism t (Some (zero_embedded_handles inner)))
                         | m => m
                         end (MkObject 0) seed)
  | P_Ecies (MkEciesParams derivation encryption mac shared) =>
      P_Ecies (MkEciesParams (zero_nested derivation) (zero_nested encryption) (zero_nested mac) shared)
  | P_CmsSig (MkCmsSigParams _ signing digest content requested required) =>
      P_CmsSig (MkCmsSigParams (MkObject 0) (zero_nested signing) (zero_nested digest) content requested required)
  | P_Sp800108Kdf p =>
      P_Sp800108Kdf (MkSp800108KdfParams (Sp800108Kdf_prf_type p)
        (map_present zero_sp800_108_key_handle_values (Sp800108Kdf_data_params_presence p)) (Sp800108Kdf_additional_derived_keys_presence p))
  | P_Sp800108FeedbackKdf p =>
      P_Sp800108FeedbackKdf (MkSp800108FeedbackKdfParams (Sp800108FeedbackKdf_prf_type p)
        (map_present zero_sp800_108_key_handle_values (Sp800108FeedbackKdf_data_params_presence p))
        (Sp800108FeedbackKdf_iv_presence p) (Sp800108FeedbackKdf_additional_derived_keys_presence p))
  | _ => params
  end
with zero_nested (mech : CkMechanism) {struct mech} : CkMechanism :=
  match mech with
  | MkCkMechanism t (Some inner) => MkCkMechanism t (Some (zero_embedded_handles inner))
  | MkCkMechanism t None => MkCkMechanism t None
  end.

Definition normalized_for_handle_compare (mech : CkMechanism) : CkMechanism := zero_nested mech.
