(* ===== verification/Validate.v ===== *)
(** * Validation of mechanism parameters

    Models [ValidatedMechanismParams] of [crates/types/src/mechanism.rs] (the
    transport checks, the sanitize policy and handle substitution) and the
    entry points of
    [crates/server/src/server/grpc_service/mechanism_input.rs].

    [validate_exact]: what passes transport validation, with the answer for
    everything else.  [sanitize_exact]: with the sanitizer on, what passes has
    no NULL with a length anywhere in the tree of nested mechanisms, no flat
    bytes but byte buffers, and no tree deeper than the cap. *)

From Stdlib Require Import Btauto.
From S2P Require Import Prelude Text Ck Mech Context Handler Shapes ShapeProps Registry Params.
Open Scope N_scope.

(** ** The validated value *)

Record ValidatedMechanismParams := MkValidated {
  vm_mechanism : CkMechanism;
  vm_flat_grant : option FlatGrant;
  vm_registry : MechanismRegistry;
  vm_local_abi : ParamAbi;
  vm_backend_abi : ParamAbi;
}.
#[export] Instance Validated_eta : Eta ValidatedMechanismParams := fun v =>
  MkValidated (vm_mechanism v) (vm_flat_grant v) (vm_registry v) (vm_local_abi v) (vm_backend_abi v).

Definition typed_shape_authorized (registry : MechanismRegistry) (mech_type : N) (variant_shape : string) (operation : Operation) : bool :=
  bool_decide (param_shape registry mech_type = Some variant_shape) ||
  bool_decide (param_shape registry mech_type = Some "gcm_compat") && (bool_decide (variant_shape = "iv") || bool_decide (variant_shape = "gcm")) ||
  bool_decide (operation = WrapKey) &&
    ((mech_type =? CKM_AES_GCM) && bool_decide (variant_shape = "gcm_wrap") || (mech_type =? CKM_AES_CCM) && bool_decide (variant_shape = "ccm_wrap")).

(** [can_reserve]: whether the allocator grants that many bytes. *)
Definition validate (can_reserve : N -> bool) (mech : CkMechanism) (registry : MechanismRegistry) (operation : Operation)
    (local_abi backend_abi : ParamAbi) : CkResult ValidatedMechanismParams :=
  let mech_type := mechanism_type mech in
  let accept grant := Ok (MkValidated mech grant registry local_abi backend_abi) in
  if bool_decide (mech_type ∈ excluded_view registry) then Err Rv.MECHANISM_INVALID
  else
    match mechanism_params mech with
    | None => accept None
    | Some (P_Raw _) => Err Rv.MECHANISM_PARAM_INVALID
    | Some (P_Null declared_len version) =>
        let? _ := check_member_version version in
        let? _ := narrow_len_for_backend declared_len backend_abi in
        accept None
    | Some (P_Flat p) =>
        let? _ := check_member_version (Flat_version p) in
        if negb (N.of_nat (length (Flat_bytes p)) =? Flat_declared_len p) then Err Rv.MECHANISM_PARAM_INVALID
        else
          match Flat_source_abi p with
          | None => Err Rv.MECHANISM_PARAM_INVALID
          | Some peer_abi =>
              match decide_flat_for_registry registry mech_type operation (Flat_declared_len p) (Flat_fingerprint p) peer_abi local_abi with
              | Excluded => Err Rv.MECHANISM_INVALID
              | Denied _ => Err Rv.MECHANISM_PARAM_INVALID
              | Eligible grant =>
                  let? _ := narrow_len_for_backend (Flat_declared_len p) backend_abi in
                  if negb (can_reserve (N.of_nat (length (Flat_bytes p)))) then Err Rv.HOST_MEMORY else accept (Some grant)
              end
          end
    | Some params =>
        let? _ := check_typed_presence params in
        match canonical_shape_name params with
        | Some shape => if typed_shape_authorized registry mech_type shape operation then accept None else Err Rv.MECHANISM_PARAM_INVALID
        | None => Err Rv.MECHANISM_PARAM_INVALID
        end
    end.

Definition check_classic_sanitize_policy (sanitize : bool) (v : ValidatedMechanismParams) : CkResult unit :=
  if negb sanitize then Ok tt
  else
    match mechanism_params (vm_mechanism v) with
    | None => Ok tt
    | Some (P_Flat _) =>
        match (fun grant => outer_kind (fg_resolved grant)) <$> vm_flat_grant v with
        | Some ByteBuffer => Ok tt
        | _ => Err Rv.MECHANISM_PARAM_INVALID
        end
    | Some (P_Null declared_len _) => if declared_len =? 0 then Ok tt else Err Rv.MECHANISM_PARAM_INVALID
    | Some (P_Raw _) => Err Rv.MECHANISM_PARAM_INVALID
    | Some params =>
        let nested := MkSanitizeNestedCx (vm_registry v) (vm_local_abi v) in
        if typed_has_nonzero_embedded_null nested 0 params then Err Rv.MECHANISM_PARAM_INVALID else Ok tt
    end.

(** The debug assertion compares the normalized mechanisms. *)
Definition substitute_handles (f : CkMechanism -> CkMechanism) (v : ValidatedMechanismParams) : ValidatedMechanismParams :=
  v <| vm_mechanism ::= f |>.

(** ** The daemon's entry points *)

Definition check_operator_exclusion (registry : MechanismRegistry) (mech_type : CkMechanismType) : CkResult unit :=
  if bool_decide (mech_type ∈ excluded_view registry) then Err Rv.MECHANISM_INVALID else Ok tt.

(** The build target: its v1 ABI, if it has one, and its [CK_ULONG] width. *)
Definition daemon_validation_abis (native : option ParamAbi) (host_ulong_size : N) : ParamAbi * ParamAbi :=
  let width_abi := if 8 <=? host_ulong_size then Lp64NativeLe else Ilp32NativeLe in
  (default width_abi native, width_abi).

Definition is_flat (mech : CkMechanism) : bool := match mechanism_params mech with Some (P_Flat _) => true | _ => false end.

Definition validate_mechanism_transport (native : option ParamAbi) (can_reserve : N -> bool) (registry : MechanismRegistry)
    (mech : CkMechanism) (operation : Operation) (local_abi backend_abi : ParamAbi) : CkResult ValidatedMechanismParams :=
  if bool_decide (native = None) && is_flat mech then Err Rv.MECHANISM_PARAM_INVALID
  else validate can_reserve mech registry operation local_abi backend_abi.

Definition sanitize_mechanism_input (sanitize : bool) (v : ValidatedMechanismParams) : CkResult ValidatedMechanismParams :=
  let? _ := check_classic_sanitize_policy sanitize v in Ok v.

(** ** What validation accepts *)

(** The variants that are not envelopes. *)
Definition is_typed (params : CkMechanismParams) : bool :=
  match params with P_Raw _ | P_Flat _ | P_Null _ _ => false | _ => true end.

(** A version-1 envelope. *)
Definition current_version (version : N) : Prop := version = MECHANISM_PARAMETER_TRANSPORT_VERSION.
Definition narrows (len : N) (abi : ParamAbi) : Prop := 8 <= ulong_size abi \/ len < 2 ^ 32.

(** The grant a flat envelope obtains, if its metadata is consistent. *)
Definition flat_granted (registry : MechanismRegistry) (mech_type : N) (operation : Operation) (p : FlatParams) (local_abi : ParamAbi)
    (grant : FlatGrant) : Prop :=
  current_version (Flat_version p) /\ N.of_nat (length (Flat_bytes p)) = Flat_declared_len p /\
  exists peer_abi, Flat_source_abi p = Some peer_abi /\
    decide_flat_for_registry registry mech_type operation (Flat_declared_len p) (Flat_fingerprint p) peer_abi local_abi = Eligible grant.

(** A pointer the client declares NULL has nothing behind it. *)
Definition null_is_empty (is_null : bool) (nothing : Prop) : Prop := is_null = true -> nothing.
Definition no_bytes (p : PointerBytes) : Prop := match p with PbPresent (_ :: _) => False | _ => True end.
Definition null_key_unset (key : Sp800108DerivedKey) : Prop :=
  null_is_empty (Sp800108DerivedKey_ph_key_is_null key) (Sp800108DerivedKey_key_handle key = MkObject 0).

Definition presence_consistent (params : CkMechanismParams) : Prop :=
  match params with
  | P_TlsPrf p => null_is_empty (TlsPrf_output_is_null p) (TlsPrf_output p = []) /\ null_is_empty (TlsPrf_output_len_is_null p) (TlsPrf_output_len p = 0)
  | P_WtlsPrf p =>
      null_is_empty (WtlsPrf_output_is_null p) (WtlsPrf_output p = []) /\ null_is_empty (WtlsPrf_output_len_is_null p) (WtlsPrf_output_len p = 0)
  | P_Ssl3MasterKeyDerive p =>
      null_is_empty (Ssl3MasterKeyDerive_version_is_null p) (Ssl3MasterKeyDerive_version_major p = 0 /\ Ssl3MasterKeyDerive_version_minor p = 0)
  | P_Tls12MasterKeyDerive p =>
      null_is_empty (Tls12MasterKeyDerive_version_is_null p) (Tls12MasterKeyDerive_version_major p = 0 /\ Tls12MasterKeyDerive_version_minor p = 0)
  | P_Tls12ExtendedMasterKeyDerive p =>
      null_is_empty (Tls12ExtendedMasterKeyDerive_version_is_null p)
        (Tls12ExtendedMasterKeyDerive_version_major p = 0 /\ Tls12ExtendedMasterKeyDerive_version_minor p = 0)
  | P_WtlsMasterKeyDerive p => null_is_empty (WtlsMasterKeyDerive_version_is_null p) (WtlsMasterKeyDerive_version p = 0)
  | P_Ssl3KeyMat p =>
      null_is_empty (Ssl3KeyMat_returned_key_material_is_null p)
        (Ssl3KeyMat_client_mac_secret_handle p = MkObject 0 /\ Ssl3KeyMat_server_mac_secret_handle p = MkObject 0 /\
         Ssl3KeyMat_client_key_handle p = MkObject 0 /\ Ssl3KeyMat_server_key_handle p = MkObject 0 /\
         no_bytes (Ssl3KeyMat_client_iv_presence p) /\ no_bytes (Ssl3KeyMat_server_iv_presence p))
  | P_WtlsKeyMat p =>
      null_is_empty (WtlsKeyMat_returned_key_material_is_null p)
        (WtlsKeyMat_mac_secret_handle p = MkObject 0 /\ WtlsKeyMat_key_handle p = MkObject 0 /\ no_bytes (WtlsKeyMat_iv_presence p))
  | P_Sp800108Kdf p => Forall null_key_unset (present_items (Sp800108Kdf_additional_derived_keys_presence p))
  | P_Sp800108FeedbackKdf p => Forall null_key_unset (present_items (Sp800108FeedbackKdf_additional_derived_keys_presence p))
  | _ => True
  end.

(** A struct of this shape may go with the mechanism: it is the one the registry
    names; or the registry leaves the choice between an IV and GCM parameters;
    or it is the wrapping form of the mechanism, and a key is wrapped. *)
Definition shape_allowed (registry : MechanismRegistry) (mech_type : N) (shape : string) (operation : Operation) : Prop :=
  param_shape registry mech_type = Some shape \/
  param_shape registry mech_type = Some "gcm_compat" /\ (shape = "iv" \/ shape = "gcm") \/
  operation = WrapKey /\ (mech_type = CKM_AES_GCM /\ shape = "gcm_wrap" \/ mech_type = CKM_AES_CCM /\ shape = "ccm_wrap").

Lemma shape_allowed_ok registry t shape op : typed_shape_authorized registry t shape op = true <-> shape_allowed registry t shape op.
Proof.
  unfold typed_shape_authorized, shape_allowed.
  rewrite !orb_true_iff, !andb_true_iff, !orb_true_iff, !andb_true_iff, !bool_decide_eq_true, !N.eqb_eq. tauto.
Qed.

Lemma null_pair_ok zero null (P : Prop) : (zero = true <-> P) -> check_null_bit_pair zero null = Ok tt <-> null_is_empty null P.
Proof. unfold check_null_bit_pair, null_is_empty. intros <-. destruct zero, null; cbn; naive_solver. Qed.

Lemma zero_handle_ok h : is_zero_handle h = true <-> h = MkObject 0.
Proof. unfold is_zero_handle. destruct h as [n]. cbn. rewrite N.eqb_eq. naive_solver. Qed.
Lemma empty_ok {A} (l : list A) : is_empty l = true <-> l = [].
Proof. by destruct l. Qed.
Lemma null_or_empty_ok p : null_or_empty p = true <-> no_bytes p.
Proof. by destruct p as [[|]|]. Qed.

Lemma derived_keys_ok keys : check_derived_keys keys = Ok tt <-> Forall null_key_unset keys.
Proof.
  induction keys as [|k keys IH]; [by split; [constructor|]|]. cbn. rewrite Forall_cons, <- IH.
  unfold null_key_unset. rewrite <- (null_pair_ok _ _ _ (zero_handle_ok (Sp800108DerivedKey_key_handle k))).
  unfold check_sp800108_derived_key. destruct (check_null_bit_pair _ _) as [[]|]; naive_solver.
Qed.

Lemma and_iff_distr (A B C D : Prop) : (A <-> C) -> (B <-> D) -> A /\ B <-> C /\ D.
Proof. tauto. Qed.

Lemma presence_ok params : check_typed_presence params = Ok tt <-> presence_consistent params.
Proof.
  assert (forall (r : CkResult unit) k, (let? _ := r in k) = Ok tt <-> r = Ok tt /\ k = Ok tt) as Hseq by (intros [[]|] k; naive_solver).
  destruct params; cbn; try done; rewrite ?Hseq; try apply derived_keys_ok.
  all: repeat lazymatch goal with
    | |- _ /\ _ <-> _ /\ _ => apply and_iff_distr
    | |- check_null_bit_pair _ _ = _ <-> _ => apply null_pair_ok
    end; rewrite ?andb_true_iff, ?N.eqb_eq, ?zero_handle_ok, ?empty_ok, ?null_or_empty_ok; tauto.
Qed.

Definition acceptable (can_reserve : N -> bool) (mech : CkMechanism) (registry : MechanismRegistry) (operation : Operation)
    (local_abi backend_abi : ParamAbi) (grant : option FlatGrant) : Prop :=
  mechanism_type mech ∉ excluded_view registry /\
  match mechanism_params mech with
  | None => grant = None
  | Some (P_Raw _) => False
  | Some (P_Null declared_len version) => grant = None /\ current_version version /\ narrows declared_len backend_abi
  | Some (P_Flat p) =>
      can_reserve (Flat_declared_len p) = true /\
      exists g, grant = Some g /\ flat_granted registry (mechanism_type mech) operation p local_abi g
  | Some params =>
      grant = None /\ presence_consistent params /\
      exists shape, canonical_shape_name params = Some shape /\ shape_allowed registry (mechanism_type mech) shape operation
  end.

Lemma member_version_ok version : check_member_version version = Ok tt <-> current_version version.
Proof.
  unfold check_member_version, current_version, MECHANISM_PARAMETER_TRANSPORT_VERSION.
  destruct (N.ltb_spec version 1), (N.ltb_spec 1 version); split; intros; (done || lia).
Qed.

Lemma narrow_ok len abi : narrow_len_for_backend len abi = Ok tt <-> narrows len abi.
Proof.
  unfold narrow_len_for_backend, narrows. destruct (N.leb_spec 8 (ulong_size abi)); [split; auto|].
  destruct (N.ltb_spec len (2 ^ 32)); split; intros; auto; (done || lia).
Qed.

Lemma result_bind_ok {A E} (r : Result unit E) (k : Result A E) x : (let? _ := r in k) = Ok x <-> r = Ok tt /\ k = Ok x.
Proof. destruct r as [[]|]; naive_solver. Qed.

(** A flat length that is granted always narrows. *)
Lemma granted_narrows registry mt op len fp peer local g abi :
  decide_flat_for_registry registry mt op len fp peer local = Eligible g -> narrows len abi.
Proof.
  unfold decide_flat_for_registry. intros (_ & Hlen & _)%flat_eligible_facts. cbn in Hlen. right.
  unfold FLAT_MAX_BYTES in Hlen. lia.
Qed.

(** The branch of the typed variants, once for all of them. *)
Definition validate_typed (params : CkMechanismParams) (registry : MechanismRegistry) (mech_type : N) (operation : Operation)
    (v : ValidatedMechanismParams) : CkResult ValidatedMechanismParams :=
  let? _ := check_typed_presence params in
  match canonical_shape_name params with
  | Some shape => if typed_shape_authorized registry mech_type shape operation then Ok v else Err Rv.MECHANISM_PARAM_INVALID
  | None => Err Rv.MECHANISM_PARAM_INVALID
  end.

Lemma validate_typed_branch cr t params registry op la ba :
  is_typed params = true ->
  validate cr (MkCkMechanism t (Some params)) registry op la ba =
    if bool_decide (t ∈ excluded_view registry) then Err Rv.MECHANISM_INVALID
    else validate_typed params registry t op (MkValidated (MkCkMechanism t (Some params)) None registry la ba).
Proof. by destruct params. Qed.

Lemma acceptable_typed cr t params registry op la ba grant :
  is_typed params = true ->
  acceptable cr (MkCkMechanism t (Some params)) registry op la ba grant <->
  t ∉ excluded_view registry /\ grant = None /\ presence_consistent params /\
    exists shape, canonical_shape_name params = Some shape /\ shape_allowed registry t shape op.
Proof. by destruct params. Qed.

Lemma validate_typed_ok params registry t op v v' :
  validate_typed params registry t op v = Ok v' <->
  v' = v /\ presence_consistent params /\
    exists shape, canonical_shape_name params = Some shape /\ shape_allowed registry t shape op.
Proof.
  unfold validate_typed. rewrite result_bind_ok, presence_ok. setoid_rewrite <- shape_allowed_ok. destruct (canonical_shape_name params) as [shape|].
  - destruct (typed_shape_authorized _ _ shape _) eqn:E.
    + split; [intros [? [= <-]]|intros (-> & ? & _)]; [|done]. split_and!; [done|done|by exists shape].
    + split; [by intros [_ ?]|]. intros (_ & _ & s & [= <-] & Hs). congruence.
  - split; [by intros [_ ?]|]. by intros (_ & _ & s & ? & _).
Qed.

Lemma presence_errors params rv : check_typed_presence params = Err rv -> rv = Rv.MECHANISM_PARAM_INVALID.
Proof.
  assert (forall a b rv, check_null_bit_pair a b = Err rv -> rv = Rv.MECHANISM_PARAM_INVALID) as Hp.
  { intros [] [] ?; cbn; intros [=]; done. }
  assert (forall keys rv, check_derived_keys keys = Err rv -> rv = Rv.MECHANISM_PARAM_INVALID) as Hk.
  { induction keys as [|k keys IH]; cbn; [done|]. intros rv'. destruct (check_sp800108_derived_key k) as [[]|] eqn:E; cbn; [apply IH|].
    intros [= <-]. by apply Hp in E. }
  destruct params; cbn; try done; try apply Hp; try apply Hk.
  all: match goal with |- context [check_null_bit_pair ?a ?b] => destruct (check_null_bit_pair a b) as [[]|] eqn:E end; cbn; [apply Hp|].
  all: intros [= <-]; by apply Hp in E.
Qed.

(** The causes of a refusal that have an answer of their own, for a mechanism that
    is not excluded. *)
Definition newer_encoding (mech : CkMechanism) : Prop :=
  match mechanism_params mech with
  | Some (P_Null _ version) => MECHANISM_PARAMETER_TRANSPORT_VERSION < version
  | Some (P_Flat p) => MECHANISM_PARAMETER_TRANSPORT_VERSION < Flat_version p
  | _ => False
  end.
Definition null_too_wide (mech : CkMechanism) (backend_abi : ParamAbi) : Prop :=
  match mechanism_params mech with
  | Some (P_Null len version) => current_version version /\ ~ narrows len backend_abi
  | _ => False
  end.
Definition unallocated (can_reserve : N -> bool) (mech : CkMechanism) (registry : MechanismRegistry) (operation : Operation)
    (local_abi : ParamAbi) : Prop :=
  match mechanism_params mech with
  | Some (P_Flat p) =>
      (exists grant, flat_granted registry (mechanism_type mech) operation p local_abi grant) /\ can_reserve (Flat_declared_len p) = false
  | _ => False
  end.

(** The answer to a mechanism that is not accepted: one for each cause. *)
Definition refusal (can_reserve : N -> bool) (mech : CkMechanism) (registry : MechanismRegistry) (operation : Operation)
    (local_abi backend_abi : ParamAbi) (rv : CkRv) : Prop :=
  mechanism_type mech ∈ excluded_view registry /\ rv = Rv.MECHANISM_INVALID \/
  mechanism_type mech ∉ excluded_view registry /\
  (newer_encoding mech /\ rv = Rv.FUNCTION_NOT_SUPPORTED \/
   null_too_wide mech backend_abi /\ rv = Rv.FUNCTION_FAILED \/
   unallocated can_reserve mech registry operation local_abi /\ rv = Rv.HOST_MEMORY \/
   ~ newer_encoding mech /\ ~ null_too_wide mech backend_abi /\ ~ unallocated can_reserve mech registry operation local_abi /\
   mechanism_params mech <> None /\ rv = Rv.MECHANISM_PARAM_INVALID).

(** The causes exclude each other: the answer is determined. *)
Lemma refusal_unique cr mech registry op la ba rv rv' :
  refusal cr mech registry op la ba rv -> refusal cr mech registry op la ba rv' -> rv = rv'.
Proof.
  intros H H'.
  assert (~ (newer_encoding mech /\ null_too_wide mech ba)) as H1.
  { unfold newer_encoding, null_too_wide, current_version. destruct (mechanism_params mech) as [[]|]; naive_solver lia. }
  assert (~ (newer_encoding mech /\ unallocated cr mech registry op la)) as H2.
  { unfold newer_encoding, unallocated, flat_granted, current_version. destruct (mechanism_params mech) as [[]|]; naive_solver lia. }
  assert (~ (null_too_wide mech ba /\ unallocated cr mech registry op la)) as H3.
  { unfold null_too_wide, unallocated. destruct (mechanism_params mech) as [[]|]; naive_solver. }
  revert H H'. unfold refusal. generalize dependent (newer_encoding mech). generalize dependent (null_too_wide mech ba).
  generalize dependent (unallocated cr mech registry op la). intros; naive_solver.
Qed.

Lemma member_version_err version rv : check_member_version version = Err rv ->
  rv = Rv.MECHANISM_PARAM_INVALID /\ version < MECHANISM_PARAMETER_TRANSPORT_VERSION \/
  rv = Rv.FUNCTION_NOT_SUPPORTED /\ MECHANISM_PARAMETER_TRANSPORT_VERSION < version.
Proof.
  unfold check_member_version. destruct (N.ltb_spec version MECHANISM_PARAMETER_TRANSPORT_VERSION); [intros [= <-]; auto|].
  destruct (N.ltb_spec MECHANISM_PARAMETER_TRANSPORT_VERSION version); [intros [= <-]; auto|done].
Qed.

Lemma narrow_err len abi rv : narrow_len_for_backend len abi = Err rv -> rv = Rv.FUNCTION_FAILED /\ ~ narrows len abi.
Proof.
  intros H. assert (~ narrows len abi) as Hn by (intros Hn%narrow_ok; congruence). split; [|done].
  revert H. unfold narrow_len_for_backend. repeat case_match; by intros [= <-].
Qed.

(** The last case of [refusal], for envelopes. *)
Lemma param_refusal cr t params registry op la ba :
  t ∉ excluded_view registry ->
  let mech := MkCkMechanism t (Some params) in
  ~ newer_encoding mech -> ~ null_too_wide mech ba -> ~ unallocated cr mech registry op la ->
  refusal cr mech registry op la ba Rv.MECHANISM_PARAM_INVALID.
Proof. intros Hx mech H1 H2 H3. right. split; [done|]. do 3 right. by split_and!. Qed.

Lemma validate_null_case cr t len version registry op la ba :
  let mech := MkCkMechanism t (Some (P_Null len version)) in
  match validate cr mech registry op la ba with
  | Ok v => exists grant, acceptable cr mech registry op la ba grant /\ v = MkValidated mech grant registry la ba
  | Err rv => refusal cr mech registry op la ba rv
  end.
Proof.
  intros mech. unfold validate, acceptable. cbn [mech mechanism_type mechanism_params]. case_bool_decide as Hx; [by left|].
  destruct (check_member_version version) as [[]|rv] eqn:E1; cbn.
  - apply member_version_ok in E1. destruct (narrow_len_for_backend len ba) as [[]|rv] eqn:E2; cbn.
    + apply narrow_ok in E2. by exists None.
    + apply narrow_err in E2 as [-> Hn]. right. split; [done|]. right. by left.
  - apply member_version_err in E1 as [[-> Hv]|[-> Hv]]; [|by right; split; [|left]].
    apply param_refusal; [done|..|by intros []]; cbn; unfold current_version; [lia|intros [? _]; lia].
Qed.

Lemma validate_flat_case cr t p registry op la ba :
  let mech := MkCkMechanism t (Some (P_Flat p)) in
  match validate cr mech registry op la ba with
  | Ok v => exists grant, acceptable cr mech registry op la ba grant /\ v = MkValidated mech grant registry la ba
  | Err rv => refusal cr mech registry op la ba rv
  end.
Proof.
  intros mech. unfold validate, acceptable. cbn [mech mechanism_type mechanism_params]. case_bool_decide as Hx; [by left|].
  assert (~ MECHANISM_PARAMETER_TRANSPORT_VERSION < Flat_version p -> (forall g, ~ flat_granted registry t op p la g) ->
          refusal cr mech registry op la ba Rv.MECHANISM_PARAM_INVALID) as Hbad.
  { intros Hv Hg. apply param_refusal; [done|done|by intros []|]. intros [[g Hg'] _]. by eapply Hg. }
  destruct (check_member_version (Flat_version p)) as [[]|rv] eqn:E1; cbn.
  2: { apply member_version_err in E1 as [[-> Hv]|[-> Hv]]; [|by right; split; [|left]]. apply Hbad; [lia|].
       intros g (Hc & _). unfold current_version in Hc. lia. }
  apply member_version_ok in E1. unfold current_version in E1.
  destruct (N.eqb_spec (N.of_nat (length (Flat_bytes p))) (Flat_declared_len p)) as [Hlen|]; cbn [negb].
  2: { apply Hbad; [lia|]. by intros g (_ & ? & _). }
  destruct (Flat_source_abi p) as [peer|] eqn:E2; [|apply Hbad; [lia|]; intros g (_ & _ & peer & ? & _); congruence].
  destruct (decide_flat_for_registry _ _ _ _ _ _ _) as [g|reason|] eqn:E3.
  2: { apply Hbad; [lia|]. intros g (_ & _ & peer' & ? & ?). simplify_eq. congruence. }
  - assert (flat_granted registry t op p la g) as Hg by (by split_and!; [..|exists peer]).
    pose proof (granted_narrows _ _ _ _ _ _ _ _ ba E3) as ->%narrow_ok. cbn. rewrite Hlen.
    destruct (cr (Flat_declared_len p)) eqn:Hr; cbn [negb].
    + exists (Some g). split_and!; [done|done|by exists g|done].
    + right. split; [done|]. right. right. left. split; [|done]. by split; [exists g|].
  - exfalso. unfold decide_flat_for_registry, decide_flat in E3. cbn [fr_excluded] in E3. rewrite bool_decide_false in E3 by done.
    revert E3. unfold decide_struct. repeat case_match; done.
Qed.

Lemma validate_case cr mech registry op la ba :
  match validate cr mech registry op la ba with
  | Ok v => exists grant, acceptable cr mech registry op la ba grant /\ v = MkValidated mech grant registry la ba
  | Err rv => refusal cr mech registry op la ba rv
  end.
Proof.
  destruct mech as [t [params|]].
  2: { unfold validate, acceptable, refusal. cbn. case_bool_decide; [by left|]. by exists None. }
  destruct (is_typed params) eqn:Ht.
  - rewrite validate_typed_branch by done. case_bool_decide as Hx; [by left|].
    destruct (validate_typed _ _ _ _ _) as [v|rv] eqn:E.
    + apply validate_typed_ok in E as (-> & Hp & Hs). exists None. split; [|done]. by apply acceptable_typed.
    + assert (rv = Rv.MECHANISM_PARAM_INVALID) as ->.
      { revert E. unfold validate_typed. destruct (check_typed_presence params) as [[]|] eqn:Ep; cbn; [|intros [= <-]; by eapply presence_errors].
        repeat case_match; by intros [= <-]. }
      apply param_refusal; [done|..]; destruct params; done || by intros [].
  - destruct params; try done.
    + unfold validate. cbn. case_bool_decide; [by left|]. apply param_refusal; [done|..]; by intros [].
    + apply validate_flat_case.
    + apply validate_null_case.
Qed.

Lemma acceptable_validates cr mech registry op la ba grant :
  acceptable cr mech registry op la ba grant -> validate cr mech registry op la ba = Ok (MkValidated mech grant registry la ba).
Proof.
  destruct mech as [t [params|]]; [|unfold acceptable, validate; cbn; intros [? ->]; by rewrite bool_decide_false].
  destruct (is_typed params) eqn:Ht.
  - rewrite acceptable_typed, validate_typed_branch by done. intros (Hx & -> & Hp & Hs). rewrite bool_decide_false by done.
    by apply validate_typed_ok.
  - destruct params; try done; unfold acceptable, validate; cbn.
    + by intros [_ ?].
    + intros (Hx & Hr & g & -> & Hv & Hlen & peer & Hpeer & Hd). rewrite bool_decide_false by done.
      apply member_version_ok in Hv as ->. cbn. rewrite Hlen, N.eqb_refl. cbn. rewrite Hpeer, Hd.
      pose proof (granted_narrows _ _ _ _ _ _ _ _ ba Hd) as ->%narrow_ok. cbn. by rewrite Hr.
    + intros (Hx & -> & ->%member_version_ok & ->%narrow_ok). cbn. by rewrite bool_decide_false.
Qed.

(** C26: Transport validation, completely.  A mechanism passes exactly when it is
    acceptable, and then unchanged, with the grant of its flat bytes.
    Otherwise the answer is determined by its cause: [MECHANISM_INVALID] for an
    excluded mechanism, whatever its parameters; else
    [FUNCTION_NOT_SUPPORTED] for an envelope of a newer encoding,
    [FUNCTION_FAILED] for a NULL of the current encoding whose length is too
    wide for the backend, [HOST_MEMORY] for flat bytes that would be granted
    but for which there is no memory, and [MECHANISM_PARAM_INVALID] exactly when
    none of these applies.  A mechanism without parameters is refused only
    when it is excluded. *)
Theorem validate_exact (can_reserve : N -> bool) (mech : CkMechanism) (registry : MechanismRegistry) (operation : Operation)
    (local_abi backend_abi : ParamAbi) :
  match validate can_reserve mech registry operation local_abi backend_abi with
  | Ok v => exists grant, acceptable can_reserve mech registry operation local_abi backend_abi grant /\
              v = MkValidated mech grant registry local_abi backend_abi
  | Err rv => (forall rv', refusal can_reserve mech registry operation local_abi backend_abi rv' <-> rv' = rv) /\
              forall grant, ~ acceptable can_reserve mech registry operation local_abi backend_abi grant
  end.
Proof.
  pose proof (validate_case can_reserve mech registry operation local_abi backend_abi) as H.
  destruct (validate _ _ _ _ _ _) as [v|rv] eqn:E; [done|]. split.
  - intros rv'. split; [|by intros ->]. intros H'. by eapply refusal_unique.
  - intros grant Ha%acceptable_validates. congruence.
Qed.

(** ** The tree of nested mechanisms *)

Definition nested_mechanisms (params : CkMechanismParams) : list CkMechanism :=
  match params with
  | P_Kip p => match Kip_mechanism p with Some m => [m] | None => [] end
  | P_CmsSig p => [CmsSig_signing_mechanism p; CmsSig_digest_mechanism p]
  | P_Ecies p => [Ecies_derivation_mechanism p; Ecies_encryption_mechanism p; Ecies_mac_mechanism p]
  | _ => []
  end.

(** Every mechanism of the tree, with its depth. *)
Fixpoint mech_tree (depth : N) (mech : CkMechanism) {struct mech} : list (N * CkMechanism) :=
  (depth, mech) ::
  match mech with
  | MkCkMechanism _ (Some (P_Kip (MkKipParams (Some m) _ _))) => mech_tree (depth + 1) m
  | MkCkMechanism _ (Some (P_CmsSig (MkCmsSigParams _ m1 m2 _ _ _))) => mech_tree (depth + 1) m1 ++ mech_tree (depth + 1) m2
  | MkCkMechanism _ (Some (P_Ecies (MkEciesParams m1 m2 m3 _))) =>
      mech_tree (depth + 1) m1 ++ mech_tree (depth + 1) m2 ++ mech_tree (depth + 1) m3
  | _ => []
  end.

(** Every pointer of a struct, elements of its arrays included: the fields of
    type [PointerBytes], read off the struct definitions. *)
Definition pointer_fields (params : CkMechanismParams) : list PointerBytes :=
  match params with
  | P_RsaPkcsOaep p => [RsaPkcsOaep_source_data_presence p]
  | P_Gcm p => [Gcm_iv_presence p; Gcm_aad_presence p]
  | P_Ecdh1Derive p => [Ecdh1Derive_shared_data_presence p; Ecdh1Derive_public_data_presence p]
  | P_Rc5Cbc p => [Rc5Cbc_iv_presence p]
  | P_AesCbcEncryptData p => [AesCbcEncryptData_data_presence p]
  | P_DesCbcEncryptData p => [DesCbcEncryptData_data_presence p]
  | P_AriaCbcEncryptData p => [AriaCbcEncryptData_data_presence p]
  | P_CamelliaCbcEncryptData p => [CamelliaCbcEncryptData_data_presence p]
  | P_SeedCbcEncryptData p => [SeedCbcEncryptData_data_presence p]
  | P_Ccm p => [Ccm_nonce_presence p; Ccm_aad_presence p]
  | P_ChaCha20 p => [ChaCha20_block_counter_presence p; ChaCha20_nonce_presence p]
  | P_Salsa20 p => [Salsa20_block_counter_presence p; Salsa20_nonce_presence p]
  | P_Salsa20ChaCha20Poly1305 p => [Salsa20ChaCha20Poly1305_nonce_presence p; Salsa20ChaCha20Poly1305_aad_presence p]
  | P_GcmWrap p => [GcmWrap_iv_presence p; GcmWrap_aad_presence p]
  | P_CcmWrap p => [CcmWrap_nonce_presence p; CcmWrap_aad_presence p]
  | P_Ecdh2Derive p =>
      [Ecdh2Derive_shared_data_presence p; Ecdh2Derive_public_data_presence p; Ecdh2Derive_public_data2_presence p]
  | P_EcmqvDerive p =>
      [EcmqvDerive_shared_data_presence p; EcmqvDerive_public_data_presence p; EcmqvDerive_public_data2_presence p]
  | P_X942Dh1Derive p => [X942Dh1Derive_other_info_presence p; X942Dh1Derive_public_data_presence p]
  | P_X942Dh2Derive p =>
      [X942Dh2Derive_other_info_presence p; X942Dh2Derive_public_data_presence p;
       X942Dh2Derive_public_data2_presence p]
  | P_X942MqvDerive p =>
      [X942MqvDerive_other_info_presence p; X942MqvDerive_public_data_presence p;
       X942MqvDerive_public_data2_presence p]
  | P_Hkdf p => [Hkdf_salt_presence p; Hkdf_info_presence p]
  | P_Eddsa p => [Eddsa_context_data_presence p]
  | P_Gostr3410Derive p => [Gostr3410Derive_public_data_presence p; Gostr3410Derive_ukm_presence p]
  | P_KeaDerive p => [KeaDerive_random_a_presence p; KeaDerive_random_b_presence p; KeaDerive_public_data_presence p]
  | P_EcdhAesKeyWrap p => [EcdhAesKeyWrap_shared_data_presence p]
  | P_RsaAesKeyWrap p => [RsaPkcsOaep_source_data_presence (RsaAesKeyWrap_oaep_params p)]
  | P_Gostr3410KeyWrap p => [Gostr3410KeyWrap_wrap_oid_presence p; Gostr3410KeyWrap_ukm_presence p]
  | P_KeyWrapSetOaep p => [KeyWrapSetOaep_x_presence p]
  | P_Pbe p => [Pbe_init_vector_presence p; Pbe_password_presence p; Pbe_salt_presence p]
  | P_Pkcs5Pbkd2 p =>
      [Pkcs5Pbkd2_salt_source_data_presence p; Pkcs5Pbkd2_prf_data_presence p; Pkcs5Pbkd2_password_presence p]
  | P_TlsPrf p => [TlsPrf_seed_presence p; TlsPrf_label_presence p]
  | P_TlsKdf p =>
      [SslRandom_client_random_presence (TlsKdf_random_info p);
       SslRandom_server_random_presence (TlsKdf_random_info p); TlsKdf_label_presence p;
       TlsKdf_context_data_presence p]
  | P_Ssl3MasterKeyDerive p =>
      [SslRandom_client_random_presence (Ssl3MasterKeyDerive_random_info p);
       SslRandom_server_random_presence (Ssl3MasterKeyDerive_random_info p)]
  | P_Tls12MasterKeyDerive p =>
      [SslRandom_client_random_presence (Tls12MasterKeyDerive_random_info p);
       SslRandom_server_random_presence (Tls12MasterKeyDerive_random_info p)]
  | P_Tls12ExtendedMasterKeyDerive p => [Tls12ExtendedMasterKeyDerive_session_hash_presence p]
  | P_Ssl3KeyMat p =>
      [SslRandom_client_random_presence (Ssl3KeyMat_random_info p);
       SslRandom_server_random_presence (Ssl3KeyMat_random_info p); Ssl3KeyMat_client_iv_presence p;
       Ssl3KeyMat_server_iv_presence p]
  | P_WtlsMasterKeyDerive p =>
      [WtlsRandom_client_random_presence (WtlsMasterKeyDerive_random_info p);
       WtlsRandom_server_random_presence (WtlsMasterKeyDerive_random_info p)]
  | P_WtlsPrf p => [WtlsPrf_seed_presence p; WtlsPrf_label_presence p]
  | P_WtlsKeyMat p =>
      [WtlsRandom_client_random_presence (WtlsKeyMat_random_info p);
       WtlsRandom_server_random_presence (WtlsKeyMat_random_info p); WtlsKeyMat_iv_presence p]
  | P_IkePrfDerive p => [IkePrfDerive_ni_presence p; IkePrfDerive_nr_presence p]
  | P_Ike1PrfDerive p => [Ike1PrfDerive_ckyi_presence p; Ike1PrfDerive_ckyr_presence p]
  | P_Ike1ExtendedDerive p => [Ike1ExtendedDerive_extra_data_presence p]
  | P_Ike2PrfPlusDerive p => [Ike2PrfPlusDerive_seed_data_presence p]
  | P_Kip p => [Kip_seed_presence p]
  | P_SkipjackPrivateWrap p =>
      [SkipjackPrivateWrap_password_presence p; SkipjackPrivateWrap_public_data_presence p;
       SkipjackPrivateWrap_random_a_presence p; SkipjackPrivateWrap_prime_p_presence p;
       SkipjackPrivateWrap_base_g_presence p; SkipjackPrivateWrap_subprime_q_presence p]
  | P_SkipjackRelayx p =>
      [SkipjackRelayx_old_wrapped_x_presence p; SkipjackRelayx_old_password_presence p;
       SkipjackRelayx_old_public_data_presence p; SkipjackRelayx_old_random_a_presence p;
       SkipjackRelayx_new_password_presence p; SkipjackRelayx_new_public_data_presence p;
       SkipjackRelayx_new_random_a_presence p]
  | P_SignAdditionalContext p => [SignAdditionalContext_context_presence p]
  | P_Kmac p => [Kmac_customization_string_presence p]
  | P_MuGen p => [MuGen_tr_presence p; MuGen_context_presence p]
  | P_KeyDerivationString p => [KeyDerivationString_data_presence p]
  | P_Sp800108Kdf p => PrfData_value_presence <$> present_items (Sp800108Kdf_data_params_presence p)
  | P_Sp800108FeedbackKdf p =>
      Sp800108FeedbackKdf_iv_presence p :: (PrfData_value_presence <$> present_items (Sp800108FeedbackKdf_data_params_presence p))
  | P_Otp p => OtpElem_value_presence <$> present_items (Otp_params_presence p)
  | _ => []
  end.

Definition null_count {T} (a : PointerArray T) : list N := match a with PaNull n => [n] | PaPresent _ => [] end.
Definition key_null_counts (keys : PointerArray Sp800108DerivedKey) : list N :=
  null_count keys ++ (present_items keys ≫= fun k => null_count (Sp800108DerivedKey_template_presence k)).

(** The counts of the NULL arrays of a struct. *)
Definition null_counts (params : CkMechanismParams) : list N :=
  match params with
  | P_Sp800108Kdf p => null_count (Sp800108Kdf_data_params_presence p) ++ key_null_counts (Sp800108Kdf_additional_derived_keys_presence p)
  | P_Sp800108FeedbackKdf p =>
      null_count (Sp800108FeedbackKdf_data_params_presence p) ++ key_null_counts (Sp800108FeedbackKdf_additional_derived_keys_presence p)
  | P_Otp p => null_count (Otp_params_presence p)
  | _ => []
  end.

(** No pointer of the struct itself is NULL with a length. *)
Definition direct_null (params : CkMechanismParams) : bool :=
  existsb is_nonzero_null (pointer_fields params) || existsb (fun n => negb (n =? 0)) (null_counts params).

Lemma null_count_scan {T} (a : PointerArray T) : existsb (fun n => negb (n =? 0)) (null_count a) = is_nonzero_null_array a.
Proof. destruct a; cbn; [done|]. apply orb_false_r. Qed.

Lemma existsb_fmap {A B} (f : A -> B) (p : B -> bool) l : existsb p (f <$> l) = existsb (fun x => p (f x)) l.
Proof. induction l as [|x l IH]; cbn; [done|]. f_equal. exact IH. Qed.

Lemma existsb_bind {A B} (f : A -> list B) (p : B -> bool) l : existsb p (l ≫= f) = existsb (fun x => existsb p (f x)) l.
Proof. induction l as [|x l IH]; cbn; [done|]. rewrite existsb_app. f_equal. exact IH. Qed.

Lemma key_counts_scan keys : existsb (fun n => negb (n =? 0)) (key_null_counts keys) = sp800_108_keys_has_nonzero_null keys.
Proof.
  unfold key_null_counts, sp800_108_keys_has_nonzero_null. rewrite existsb_app, null_count_scan, existsb_bind. f_equal.
  induction (present_items keys) as [|k l IH]; cbn; [done|]. by rewrite null_count_scan, IH.
Qed.

(** The scan of a typed variant is complete: it looks at every pointer and
    every array of the struct, and at every nested mechanism. *)
Lemma typed_scan cx depth params :
  is_typed params = true ->
  typed_has_nonzero_embedded_null cx depth params =
    direct_null params || existsb (mechanism_has_nonzero_null cx (depth + 1)) (nested_mechanisms params).
Proof.
  intros Ht. unfold direct_null. destruct params; try done.
  all: cbn [typed_has_nonzero_embedded_null pointer_fields null_counts nested_mechanisms].
  all: rewrite ?existsb_app, ?existsb_cons, ?existsb_fmap, ?null_count_scan, ?key_counts_scan;
    unfold ssl_random_has_nonzero_null, wtls_random_has_nonzero_null, sp800_108_data_has_nonzero_null.
  all: try (cbn [existsb]; btauto).
  - cbn [existsb]. rewrite existsb_fmap. btauto.
  - destruct p as [[m|] h seed]; cbn; btauto.
  - destruct p; cbn; btauto.
  - destruct p; cbn; btauto.
Qed.

(** What the sanitizer refuses in one mechanism of the tree. *)
Definition violates (cx : SanitizeNestedCx) (depth : N) (mech : CkMechanism) : bool :=
  (SANITIZE_NESTING_CAP <? depth) ||
  match mechanism_params mech with
  | None => false
  | Some (P_Null declared_len _) => negb (declared_len =? 0)
  | Some (P_Flat flat) => nested_flat_violates (mechanism_type mech) flat cx
  | Some (P_Raw _) => true
  | Some params => direct_null params
  end.

(** Mechanisms under the root of a tree. *)
Definition below (depth : N) (mech : CkMechanism) : list (N * CkMechanism) :=
  match mechanism_params mech with
  | Some params => nested_mechanisms params ≫= mech_tree (depth + 1)
  | None => []
  end.

Lemma mech_tree_eq depth mech : mech_tree depth mech = (depth, mech) :: below depth mech.
Proof.
  destruct mech as [t [params|]]; [|done]. unfold below. cbn [mechanism_params mech_tree]. f_equal.
  destruct params; try done.
  - destruct p as [[m|] h seed]; cbn; by rewrite ?app_nil_r.
  - destruct p. cbn. by rewrite app_nil_r.
  - destruct p. cbn. by rewrite app_nil_r.
Qed.

(** Sizes, for induction on the tree. *)
Fixpoint mech_size (mech : CkMechanism) {struct mech} : nat :=
  S match mech with
    | MkCkMechanism _ (Some (P_Kip (MkKipParams (Some m) _ _))) => mech_size m
    | MkCkMechanism _ (Some (P_CmsSig (MkCmsSigParams _ m1 m2 _ _ _))) => mech_size m1 + mech_size m2
    | MkCkMechanism _ (Some (P_Ecies (MkEciesParams m1 m2 m3 _))) => mech_size m1 + mech_size m2 + mech_size m3
    | _ => 0
    end.

Lemma nested_smaller t params m : m ∈ nested_mechanisms params -> (mech_size m < mech_size (MkCkMechanism t (Some params)))%nat.
Proof.
  intros Hin. destruct params; try by apply not_elem_of_nil in Hin.
  all: destruct p; cbn in Hin; repeat case_match; set_unfold; cbn; naive_solver lia.
Qed.

(** Induction on the tree. *)
Lemma mech_tree_ind (P : CkMechanism -> Prop) :
  (forall mech, (forall params m, mechanism_params mech = Some params -> m ∈ nested_mechanisms params -> P m) -> P mech) ->
  forall mech, P mech.
Proof.
  intros H mech. induction mech as [mech IH] using (well_founded_induction (well_founded_ltof _ mech_size)).
  apply H. intros params m Hp Hm. apply IH. destruct mech as [t ps]. cbn in Hp. subst ps. by apply nested_smaller.
Qed.

Lemma existsb_ext_in {A} (f g : A -> bool) l : (forall x, x ∈ l -> f x = g x) -> existsb f l = existsb g l.
Proof. induction l as [|x l IH]; intros H; cbn; [done|]. rewrite H by (by left). f_equal. apply IH. intros y Hy. apply H. by right. Qed.

(** The scan finds exactly the violations of the tree. *)
Lemma tree_scan cx mech : forall depth,
  mechanism_has_nonzero_null cx depth mech = existsb (fun '(d, m) => violates cx d m) (mech_tree depth mech).
Proof.
  induction mech as [[t ps] IH] using mech_tree_ind. intros depth. rewrite mech_tree_eq. cbn [existsb].
  unfold violates at 1. cbn [mechanism_params mechanism_type].
  assert (forall params, ps = Some params ->
    existsb (mechanism_has_nonzero_null cx (depth + 1)) (nested_mechanisms params) =
    existsb (fun '(d, m) => violates cx d m) (below depth (MkCkMechanism t ps))) as Hn.
  { intros params ->. unfold below. cbn [mechanism_params]. rewrite existsb_bind. apply existsb_ext_in. intros m Hm.
    by apply (IH params). }
  destruct ps as [params|]; cbn [mechanism_has_nonzero_null].
  2: { destruct (SANITIZE_NESTING_CAP <? depth); done. }
  specialize (Hn params eq_refl). destruct (SANITIZE_NESTING_CAP <? depth); [done|]. cbn [orb].
  destruct (is_typed params) eqn:Ht.
  - rewrite <- Hn. pose proof (typed_scan cx depth params Ht) as Hs. by destruct params.
  - rewrite <- Hn. destruct params; try done; cbn; by rewrite orb_false_r.
Qed.

Lemma typed_policy v params :
  mechanism_params (vm_mechanism v) = Some params -> is_typed params = true ->
  check_classic_sanitize_policy true v =
    if typed_has_nonzero_embedded_null (MkSanitizeNestedCx (vm_registry v) (vm_local_abi v)) 0 params
    then Err Rv.MECHANISM_PARAM_INVALID else Ok tt.
Proof. intros Hp Ht. unfold check_classic_sanitize_policy. rewrite Hp. by destruct params. Qed.

(** C27: The sanitizer on a validated mechanism: off, everything passes; on, it
    passes exactly when flat bytes at the root were granted as a byte buffer,
    a NULL at the root has length zero, and no mechanism of the tree violates
    the policy: no pointer and no array NULL with a length, nested flat bytes
    only as byte buffers, no raw bytes, no depth beyond the cap. *)
Theorem sanitize_exact (v : ValidatedMechanismParams) :
  check_classic_sanitize_policy false v = Ok tt /\
  (check_classic_sanitize_policy true v = Ok tt <->
   match mechanism_params (vm_mechanism v) with
   | Some (P_Flat _) => exists g, vm_flat_grant v = Some g /\ outer_kind (fg_resolved g) = ByteBuffer
   | _ => forall d m, (d, m) ∈ mech_tree 0 (vm_mechanism v) ->
            violates (MkSanitizeNestedCx (vm_registry v) (vm_local_abi v)) d m = false
   end).
Proof.
  split; [done|]. set (cx := MkSanitizeNestedCx (vm_registry v) (vm_local_abi v)).
  assert ((forall d m, (d, m) ∈ mech_tree 0 (vm_mechanism v) -> violates cx d m = false) <->
          mechanism_has_nonzero_null cx 0 (vm_mechanism v) = false) as Hiff.
  { rewrite tree_scan. split.
    - intros H. destruct (existsb _ _) eqn:E; [|done]. apply existsb_exists in E as ([d m] & Hin & Hv).
      apply list_elem_of_In in Hin. by rewrite (H d m Hin) in Hv.
    - intros H d m Hin. destruct (violates cx d m) eqn:E; [|done]. rewrite <- H. symmetry. apply existsb_exists.
      exists (d, m). split; [by apply list_elem_of_In|done]. }
  destruct (mechanism_params (vm_mechanism v)) as [params|] eqn:Hp.
  2: { unfold check_classic_sanitize_policy. rewrite Hp. cbn. rewrite Hiff. destruct (vm_mechanism v) as [t ps]. cbn in Hp. by subst ps. }
  destruct (is_typed params) eqn:Ht.
  - transitivity (mechanism_has_nonzero_null cx 0 (vm_mechanism v) = false); [|rewrite <- Hiff; by destruct params].
    rewrite (typed_policy _ params) by done. fold cx.
    assert (mechanism_has_nonzero_null cx 0 (vm_mechanism v) = typed_has_nonzero_embedded_null cx 0 params) as ->
      by (destruct (vm_mechanism v) as [t ps]; cbn in Hp; subst ps; by destruct params).
    by destruct (typed_has_nonzero_embedded_null cx 0 params).
  - unfold check_classic_sanitize_policy. rewrite Hp. destruct params; try done; cbn [negb].
    + rewrite Hiff. destruct (vm_mechanism v) as [t ps]. cbn in Hp. by subst ps.
    + destruct (vm_flat_grant v) as [g|]; cbn; [|split; [done|by intros (g & ? & _)]].
      split; [|by intros (g' & [= <-] & ->)]. intros H. exists g. split; [done|]. by destruct (outer_kind (fg_resolved g)).
    + rewrite Hiff. destruct (vm_mechanism v) as [t ps]. cbn in Hp. subst ps. cbn. destruct (declared_len =? 0); done.
Qed.
