(* ===== verification/Embedded.v ===== *)
(** * Object handles inside mechanism parameters

    Models [crates/server/src/server/grpc_service/mechanism_handles.rs]: the
    walks that collect and replace the object handles a mechanism embeds, and
    [remap_mechanism_handles]; and, of [key_ops/generation.rs], the resolver of
    SP 800-108 byte-encoded key handles and the admission of [C_DeriveKey], from
    the request to the arguments of the backend call. *)

From S2P Require Import Prelude Ck Width HandleMap SlotMap Connection Context Manager Mech Grant Policy Handler Authorize.
From S2P Require Import Shapes ShapeProps Registry Params Validate.
Open Scope N_scope.

(** Sequencing of handlers that fail. *)
Definition bind_result {A B} (h : Handler (CkResult A)) (k : A -> Handler (CkResult B)) : Handler (CkResult B) :=
  r <- h;; match r with Ok a => k a | Err rv => ret (Err rv) end.
Notation "x <-? h ;; k" := (bind_result h (fun x => k))
  (at level 100, h at next level, k at level 200, right associativity) : handler_scope.

(** ** The walks *)

Definition push (h : CkObjectHandle) : list N := if negb (object_raw h =? 0) then [object_raw h] else [].

Fixpoint push_param_handles (params : CkMechanismParams) {struct params} : list N :=
  match params with
  | P_Hkdf p => push (Hkdf_salt_key_handle p)
  | P_Ecdh2Derive p => push (Ecdh2Derive_private_data_handle p)
  | P_EcmqvDerive p => push (EcmqvDerive_private_data_handle p) ++ push (EcmqvDerive_public_key_handle p)
  | P_X942Dh2Derive p => push (X942Dh2Derive_private_data_handle p)
  | P_X942MqvDerive p => push (X942MqvDerive_private_data_handle p) ++ push (X942MqvDerive_public_key_handle p)
  | P_Gostr3410KeyWrap p => push (Gostr3410KeyWrap_key_handle p)
  | P_Ssl3KeyMat p => push (Ssl3KeyMat_client_mac_secret_handle p) ++ push (Ssl3KeyMat_server_mac_secret_handle p) ++ push
      (Ssl3KeyMat_client_key_handle p) ++ push (Ssl3KeyMat_server_key_handle p)
  | P_WtlsKeyMat p => push (WtlsKeyMat_mac_secret_handle p) ++ push (WtlsKeyMat_key_handle p)
  | P_IkePrfDerive p => push (IkePrfDerive_new_key_handle p)
  | P_Ike1PrfDerive p => push (Ike1PrfDerive_keygxy_handle p) ++ push (Ike1PrfDerive_prev_key_handle p)
  | P_Ike1ExtendedDerive p => push (Ike1ExtendedDerive_keygxy_handle p)
  | P_Ike2PrfPlusDerive p => push (Ike2PrfPlusDerive_seed_key_handle p)
  | P_X3dhInitiate p => push (X3dhInitiate_peer_identity_handle p) ++ push (X3dhInitiate_peer_prekey_handle p) ++ push
      (X3dhInitiate_onetime_key_handle p) ++ push (X3dhInitiate_own_identity_handle p) ++ push
      (X3dhInitiate_own_ephemeral_handle p)
  | P_X3dhRespond p => push (X3dhRespond_identity_handle p) ++ push (X3dhRespond_prekey_handle p) ++ push
      (X3dhRespond_onetime_key_handle p) ++ push (X3dhRespond_initiator_identity_handle p) ++ push
      (X3dhRespond_initiator_ephemeral_handle p)
  | P_X2RatchetInitialize p => push (X2RatchetInitialize_peer_public_prekey_handle p) ++ push
      (X2RatchetInitialize_peer_public_identity_handle p) ++ push (X2RatchetInitialize_own_public_identity_handle p)
  | P_X2RatchetRespond p => push (X2RatchetRespond_own_prekey_handle p) ++ push (X2RatchetRespond_initiator_identity_handle
      p) ++ push (X2RatchetRespond_own_identity_handle p)
  | P_ObjectHandle p => push (ObjectHandle_handle p)
  | P_Kmac p => push (Kmac_key_handle p)
  | P_MuGen p => push (MuGen_key_handle p)
  | P_Kyber p => push (Kyber_secret_handle p)
  | P_Kip (MkKipParams mech key_handle _) =>
      push key_handle ++ match mech with Some (MkCkMechanism _ (Some inner)) => push_param_handles inner | _ => [] end
  | P_Ecies (MkEciesParams derivation encryption mac _) =>
      push_nested derivation ++ push_nested encryption ++ push_nested mac
  | P_CmsSig (MkCmsSigParams certificate_handle signing digest _ _ _) =>
      push certificate_handle ++ push_nested signing ++ push_nested digest
  | _ => []
  end
with push_nested (mech : CkMechanism) {struct mech} : list N :=
  match mech with MkCkMechanism _ (Some inner) => push_param_handles inner | MkCkMechanism _ None => [] end.

Definition collect_param_handles (params : CkMechanismParams) : list N := push_param_handles params.

Definition remap_handle (field : CkObjectHandle) (resolve : N -> option N) : CkResult CkObjectHandle :=
  if object_raw field =? 0 then Ok field
  else match resolve (object_raw field) with
       | Some backend => Ok (MkObject backend)
       | None => Err Rv.OBJECT_HANDLE_INVALID
       end.

Fixpoint remap_param_handles (resolve : N -> option N) (params : CkMechanismParams) {struct params} : CkResult CkMechanismParams :=
  match params with
  | P_Hkdf p =>
      let? h0 := remap_handle (Hkdf_salt_key_handle p) resolve in
      Ok (P_Hkdf (p <| Hkdf_salt_key_handle := h0 |>))
  | P_Ecdh2Derive p =>
      let? h0 := remap_handle (Ecdh2Derive_private_data_handle p) resolve in
      Ok (P_Ecdh2Derive (p <| Ecdh2Derive_private_data_handle := h0 |>))
  | P_EcmqvDerive p =>
      let? h0 := remap_handle (EcmqvDerive_private_data_handle p) resolve in
      let? h1 := remap_handle (EcmqvDerive_public_key_handle p) resolve in
      Ok (P_EcmqvDerive (p <| EcmqvDerive_private_data_handle := h0 |> <| EcmqvDerive_public_key_handle := h1 |>))
  | P_X942Dh2Derive p =>
      let? h0 := remap_handle (X942Dh2Derive_private_data_handle p) resolve in
      Ok (P_X942Dh2Derive (p <| X942Dh2Derive_private_data_handle := h0 |>))
  | P_X942MqvDerive p =>
      let? h0 := remap_handle (X942MqvDerive_private_data_handle p) resolve in
      let? h1 := remap_handle (X942MqvDerive_public_key_handle p) resolve in
      Ok (P_X942MqvDerive (p <| X942MqvDerive_private_data_handle := h0 |> <| X942MqvDerive_public_key_handle := h1 |>))
  | P_Gostr3410KeyWrap p =>
      let? h0 := remap_handle (Gostr3410KeyWrap_key_handle p) resolve in
      Ok (P_Gostr3410KeyWrap (p <| Gostr3410KeyWrap_key_handle := h0 |>))
  | P_Ssl3KeyMat p =>
      let? h0 := remap_handle (Ssl3KeyMat_client_mac_secret_handle p) resolve in
      let? h1 := remap_handle (Ssl3KeyMat_server_mac_secret_handle p) resolve in
      let? h2 := remap_handle (Ssl3KeyMat_client_key_handle p) resolve in
      let? h3 := remap_handle (Ssl3KeyMat_server_key_handle p) resolve in
      Ok (P_Ssl3KeyMat (p <| Ssl3KeyMat_client_mac_secret_handle := h0 |> <| Ssl3KeyMat_server_mac_secret_handle := h1 |>
          <| Ssl3KeyMat_client_key_handle := h2 |> <| Ssl3KeyMat_server_key_handle := h3 |>))
  | P_WtlsKeyMat p =>
      let? h0 := remap_handle (WtlsKeyMat_mac_secret_handle p) resolve in
      let? h1 := remap_handle (WtlsKeyMat_key_handle p) resolve in
      Ok (P_WtlsKeyMat (p <| WtlsKeyMat_mac_secret_handle := h0 |> <| WtlsKeyMat_key_handle := h1 |>))
  | P_IkePrfDerive p =>
      let? h0 := remap_handle (IkePrfDerive_new_key_handle p) resolve in
      Ok (P_IkePrfDerive (p <| IkePrfDerive_new_key_handle := h0 |>))
  | P_Ike1PrfDerive p =>
      let? h0 := remap_handle (Ike1PrfDerive_keygxy_handle p) resolve in
      let? h1 := remap_handle (Ike1PrfDerive_prev_key_handle p) resolve in
      Ok (P_Ike1PrfDerive (p <| Ike1PrfDerive_keygxy_handle := h0 |> <| Ike1PrfDerive_prev_key_handle := h1 |>))
  | P_Ike1ExtendedDerive p =>
      let? h0 := remap_handle (Ike1ExtendedDerive_keygxy_handle p) resolve in
      Ok (P_Ike1ExtendedDerive (p <| Ike1ExtendedDerive_keygxy_handle := h0 |>))
  | P_Ike2PrfPlusDerive p =>
      let? h0 := remap_handle (Ike2PrfPlusDerive_seed_key_handle p) resolve in
      Ok (P_Ike2PrfPlusDerive (p <| Ike2PrfPlusDerive_seed_key_handle := h0 |>))
  | P_X3dhInitiate p =>
      let? h0 := remap_handle (X3dhInitiate_peer_identity_handle p) resolve in
      let? h1 := remap_handle (X3dhInitiate_peer_prekey_handle p) resolve in
      let? h2 := remap_handle (X3dhInitiate_onetime_key_handle p) resolve in
      let? h3 := remap_handle (X3dhInitiate_own_identity_handle p) resolve in
      let? h4 := remap_handle (X3dhInitiate_own_ephemeral_handle p) resolve in
      Ok (P_X3dhInitiate (p <| X3dhInitiate_peer_identity_handle := h0 |> <| X3dhInitiate_peer_prekey_handle := h1 |> <|
          X3dhInitiate_onetime_key_handle := h2 |> <| X3dhInitiate_own_identity_handle := h3 |> <|
          X3dhInitiate_own_ephemeral_handle := h4 |>))
  | P_X3dhRespond p =>
      let? h0 := remap_handle (X3dhRespond_identity_handle p) resolve in
      let? h1 := remap_handle (X3dhRespond_prekey_handle p) resolve in
      let? h2 := remap_handle (X3dhRespond_onetime_key_handle p) resolve in
      let? h3 := remap_handle (X3dhRespond_initiator_identity_handle p) resolve in
      let? h4 := remap_handle (X3dhRespond_initiator_ephemeral_handle p) resolve in
      Ok (P_X3dhRespond (p <| X3dhRespond_identity_handle := h0 |> <| X3dhRespond_prekey_handle := h1 |> <|
          X3dhRespond_onetime_key_handle := h2 |> <| X3dhRespond_initiator_identity_handle := h3 |> <|
          X3dhRespond_initiator_ephemeral_handle := h4 |>))
  | P_X2RatchetInitialize p =>
      let? h0 := remap_handle (X2RatchetInitialize_peer_public_prekey_handle p) resolve in
      let? h1 := remap_handle (X2RatchetInitialize_peer_public_identity_handle p) resolve in
      let? h2 := remap_handle (X2RatchetInitialize_own_public_identity_handle p) resolve in
      Ok (P_X2RatchetInitialize (p <| X2RatchetInitialize_peer_public_prekey_handle := h0 |> <|
          X2RatchetInitialize_peer_public_identity_handle := h1 |> <| X2RatchetInitialize_own_public_identity_handle := h2
          |>))
  | P_X2RatchetRespond p =>
      let? h0 := remap_handle (X2RatchetRespond_own_prekey_handle p) resolve in
      let? h1 := remap_handle (X2RatchetRespond_initiator_identity_handle p) resolve in
      let? h2 := remap_handle (X2RatchetRespond_own_identity_handle p) resolve in
      Ok (P_X2RatchetRespond (p <| X2RatchetRespond_own_prekey_handle := h0 |> <|
          X2RatchetRespond_initiator_identity_handle := h1 |> <| X2RatchetRespond_own_identity_handle := h2 |>))
  | P_ObjectHandle p =>
      let? h0 := remap_handle (ObjectHandle_handle p) resolve in
      Ok (P_ObjectHandle (p <| ObjectHandle_handle := h0 |>))
  | P_Kmac p =>
      let? h0 := remap_handle (Kmac_key_handle p) resolve in
      Ok (P_Kmac (p <| Kmac_key_handle := h0 |>))
  | P_MuGen p =>
      let? h0 := remap_handle (MuGen_key_handle p) resolve in
      Ok (P_MuGen (p <| MuGen_key_handle := h0 |>))
  | P_Kyber p =>
      let? h0 := remap_handle (Kyber_secret_handle p) resolve in
      Ok (P_Kyber (p <| Kyber_secret_handle := h0 |>))
  | P_Kip (MkKipParams mech key_handle seed) =>
      let? h := remap_handle key_handle resolve in
      let? mech := match mech with
                   | Some (MkCkMechanism t (Some inner)) =>
                       let? inner := remap_param_handles resolve inner in Ok (Some (MkCkMechanism t (Some inner)))
                   | m => Ok m
                   end in
      Ok (P_Kip (MkKipParams mech h seed))
  | P_Ecies (MkEciesParams derivation encryption mac shared) =>
      let? derivation := remap_nested resolve derivation in
      let? encryption := remap_nested resolve encryption in
      let? mac := remap_nested resolve mac in
      Ok (P_Ecies (MkEciesParams derivation encryption mac shared))
  | P_CmsSig (MkCmsSigParams certificate_handle signing digest content requested required) =>
      let? h := remap_handle certificate_handle resolve in
      let? signing := remap_nested resolve signing in
      let? digest := remap_nested resolve digest in
      Ok (P_CmsSig (MkCmsSigParams h signing digest content requested required))
  | _ => Ok params
  end
with remap_nested (resolve : N -> option N) (mech : CkMechanism) {struct mech} : CkResult CkMechanism :=
  match mech with
  | MkCkMechanism t (Some inner) => let? inner := remap_param_handles resolve inner in Ok (MkCkMechanism t (Some inner))
  | MkCkMechanism t None => Ok (MkCkMechanism t None)
  end.

(** A failed walk drops the value. *)
Definition substitute_validated_handles (v : ValidatedMechanismParams) (resolve : N -> option N) : CkResult ValidatedMechanismParams :=
  let? m := remap_nested resolve (vm_mechanism v) in
  Ok (substitute_handles (fun _ => m) v).

(** ** SP 800-108 key handles *)

Definition read_sp800_108_key_handle_value (native : ByteOrder) (value : list N) : CkResult (N * nat) :=
  match length value with
  | 8%nat => Ok (read_uint value native, 8%nat)
  | 4%nat => Ok (read_uint value native, 4%nat)
  | _ => Err Rv.MECHANISM_PARAM_INVALID
  end.

Definition write_sp800_108_key_handle_value (native : ByteOrder) (handle : N) (width : nat) : CkResult (list N) :=
  match width with
  | 8%nat => Ok (write_uint handle 8 native)
  | 4%nat => if handle <? 2 ^ 32 then Ok (write_uint handle 4 native) else Err Rv.OBJECT_HANDLE_INVALID
  | _ => Err Rv.MECHANISM_PARAM_INVALID
  end.

(** The data parameters of either form. *)
Definition sp800_108_data_params (params : CkMechanismParams) : option (PointerArray PrfDataParam) :=
  match params with
  | P_Sp800108Kdf p => Some (Sp800108Kdf_data_params_presence p)
  | P_Sp800108FeedbackKdf p => Some (Sp800108FeedbackKdf_data_params_presence p)
  | _ => None
  end.

Definition with_sp800_108_data_params (f : list PrfDataParam -> list PrfDataParam) (params : CkMechanismParams) : CkMechanismParams :=
  match params with
  | P_Sp800108Kdf p =>
      P_Sp800108Kdf (MkSp800108KdfParams (Sp800108Kdf_prf_type p) (map_present f (Sp800108Kdf_data_params_presence p))
        (Sp800108Kdf_additional_derived_keys_presence p))
  | P_Sp800108FeedbackKdf p =>
      P_Sp800108FeedbackKdf (MkSp800108FeedbackKdfParams (Sp800108FeedbackKdf_prf_type p)
        (map_present f (Sp800108FeedbackKdf_data_params_presence p)) (Sp800108FeedbackKdf_iv_presence p)
        (Sp800108FeedbackKdf_additional_derived_keys_presence p))
  | _ => params
  end.

(** The writes of the staged slots, at their indices. *)
Definition apply_staged (staged : list (nat * list N)) (data_params : list PrfDataParam) : list PrfDataParam :=
  foldl (fun ds '(index, bytes) =>
    match ds !! index with
    | Some d => <[index := MkPrfDataParam (PrfData_type_ d) (PbPresent bytes)]> ds
    | None => ds
    end) data_params staged.

(** ** The handlers *)

Section handlers.
Context (native : ByteOrder) (policy : TokenPolicy).

(** Virtual handles resolved under one lock. *)
Definition resolve_handles (virtual_handles : list N) (c : LogicalClientInstance) : list (N * option N) :=
  (fun vh => (vh, bh_raw <$> HandleMap_resolve (VH vh) (object_handles c))) <$> virtual_handles.

Fixpoint check_private_uses (cid : ClientContextId) (virtual_session backend_session : N) (resolved : list (N * option N))
  : Handler (CkResult unit) :=
  match resolved with
  | [] => ret (Ok tt)
  | (vh, Some bh) :: resolved =>
      if negb (bh =? 0) then
        _ <-? ensure_private_use_allowed cid virtual_session vh (MkSession backend_session) (MkObject bh);;
        check_private_uses cid virtual_session backend_session resolved
      else check_private_uses cid virtual_session backend_session resolved
  | (_, None) :: resolved => check_private_uses cid virtual_session backend_session resolved
  end.

Fixpoint gate_resolved (cid : ClientContextId) (virtual_session backend_session : N) (resolved : list (N * option N))
    (gated : gmap N N) : Handler (CkResult (gmap N N)) :=
  match resolved with
  | [] => ret (Ok gated)
  | (_, None) :: _ => ret (Err Rv.OBJECT_HANDLE_INVALID)
  | (vh, Some bh) :: resolved =>
      if bh =? 0 then gate_resolved cid virtual_session backend_session resolved (<[vh := 0]> gated)
      else
        _ <-? ensure_private_use_allowed cid virtual_session vh (MkSession backend_session) (MkObject bh);;
        h <- gate_object_handle native policy cid virtual_session vh (BH backend_session) (MkObject bh);;
        gate_resolved cid virtual_session backend_session resolved (<[vh := object_raw h]> gated)
  end.

(** The pairs as a map; a later pair wins. *)
Definition resolved_map (resolved : list (N * option N)) : gmap N N :=
  foldl (fun acc '(vh, bh) => match bh with Some b => <[vh := b]> acc | None => acc end) ∅ resolved.

Definition remap_mechanism_handles (cid : ClientContextId) (virtual_session backend_session : N) (v : ValidatedMechanismParams)
  : Handler (CkResult ValidatedMechanismParams) :=
  match mechanism_params (vm_mechanism v) with
  | None => ret (Ok v)
  | Some params =>
      let virtual_handles := collect_param_handles params in
      if bool_decide (virtual_handles = []) then ret (Ok v)
      else
        r <- critical (fun now => get_context now cid (fun c => (resolve_handles virtual_handles c, c)));;
        match r with
        | None => ret (Err Rv.CRYPTOKI_NOT_INITIALIZED)
        | Some resolved =>
            if negb (per_object_active policy) && negb (per_class_active policy) then
              _ <-? check_private_uses cid virtual_session backend_session resolved;;
              ret (substitute_validated_handles v (fun h => resolved_map resolved !! h))
            else
              gated <-? gate_resolved cid virtual_session backend_session resolved ∅;;
              ret (substitute_validated_handles v (fun h =>
                     match gated !! h with Some 0 | None => None | other => other end))
        end
  end.

Definition resolve_sp800_108_key_handle_slot (cid : ClientContextId) (virtual_session : N) (backend_session : CkSessionHandle)
    (virtual_handle : N) : Handler (CkResult N) :=
  r <- critical (fun now => get_context now cid (fun c => (HandleMap_resolve (VH virtual_handle) (object_handles c), c)));;
  match mjoin r with
  | None => ret (Err Rv.OBJECT_HANDLE_INVALID)
  | Some backend_handle =>
      _ <-? (if negb (bh_raw backend_handle =? 0)
             then ensure_private_use_allowed cid virtual_session virtual_handle backend_session (MkObject (bh_raw backend_handle))
             else ret (Ok tt));;
      final_handle <- (if (per_object_active policy || per_class_active policy) && negb (bh_raw backend_handle =? 0)
                       then gate_object_handle native policy cid virtual_session virtual_handle (BH (session_raw backend_session))
                              (MkObject (bh_raw backend_handle))
                       else ret (MkObject (bh_raw backend_handle)));;
      ret (if negb (virtual_handle =? 0) && (object_raw final_handle =? 0) then Err Rv.OBJECT_HANDLE_INVALID
           else Ok (object_raw final_handle))
  end.

(** The loop over the data parameters; [index] is the position of the head. *)
Fixpoint stage_sp800_108_slots (cid : ClientContextId) (virtual_session : N) (backend_session : CkSessionHandle)
    (index : nat) (data_params : list PrfDataParam) : Handler (CkResult (list (nat * list N))) :=
  match data_params with
  | [] => ret (Ok [])
  | d :: rest =>
      if negb (PrfData_type_ d =? SP800_108_KEY_HANDLE_TYPE)
      then stage_sp800_108_slots cid virtual_session backend_session (S index) rest
      else
        slot <-?
          ret (read_sp800_108_key_handle_value native (default [] (PointerBytes_as_present (PrfData_value_presence d))));;
        final_handle <-? resolve_sp800_108_key_handle_slot cid virtual_session backend_session slot.1;;
        bytes <-? ret (write_sp800_108_key_handle_value native final_handle slot.2);;
        staged <-? stage_sp800_108_slots cid virtual_session backend_session (S index) rest;;
        ret (Ok ((index, bytes) :: staged))
  end.

Definition resolve_sp800_108_key_handle_data_params (cid : ClientContextId) (virtual_session : N) (backend_session : CkSessionHandle)
    (v : ValidatedMechanismParams) : Handler (CkResult ValidatedMechanismParams) :=
  match mechanism_params (vm_mechanism v) ≫= sp800_108_data_params with
  | None => ret (Ok v)
  | Some data_params =>
      staged <-? stage_sp800_108_slots cid virtual_session backend_session 0 (present_items data_params);;
      match staged with
      | [] => ret (Ok v)
      | _ => ret (Ok (substitute_handles (fun mech =>
               let 'MkCkMechanism t params := mech in
               MkCkMechanism t (with_sp800_108_data_params (apply_staged staged) <$> params)) v))
      end
  end.
End handlers.
