(* ===== verification/EmbeddedProps.v ===== *)
(** * Embedded object handles: properties

    [collect_complete] and [remap_exact]: the two walks visit every handle
    field of the tree of nested mechanisms, in the same order; replacing them
    changes nothing else.  [embedded_handles_gated]: what the handler returns
    holds only backend handles the caller's own map named, each past the login
    gate and, under a policy, past the object gate. *)

From S2P Require Import Prelude Ck Width HandleMap SlotMap Connection Context Manager Mech Grant Policy Handler Authorize.
From S2P Require Import Shapes ShapeProps Registry Params Validate Embedded.
Open Scope N_scope.

(** ** Every handle of a mechanism *)

(** The fields of type [CkObjectHandle] of a variant, read off the struct
    definitions. *)
Definition own_handles (params : CkMechanismParams) : list CkObjectHandle :=
  match params with
  | P_Ecdh2Derive p => [Ecdh2Derive_private_data_handle p]
  | P_EcmqvDerive p => [EcmqvDerive_private_data_handle p; EcmqvDerive_public_key_handle p]
  | P_X942Dh2Derive p => [X942Dh2Derive_private_data_handle p]
  | P_X942MqvDerive p => [X942MqvDerive_private_data_handle p; X942MqvDerive_public_key_handle p]
  | P_Hkdf p => [Hkdf_salt_key_handle p]
  | P_Gostr3410KeyWrap p => [Gostr3410KeyWrap_key_handle p]
  | P_Ssl3KeyMat p => [Ssl3KeyMat_client_mac_secret_handle p; Ssl3KeyMat_server_mac_secret_handle p;
        Ssl3KeyMat_client_key_handle p; Ssl3KeyMat_server_key_handle p]
  | P_WtlsKeyMat p => [WtlsKeyMat_mac_secret_handle p; WtlsKeyMat_key_handle p]
  | P_IkePrfDerive p => [IkePrfDerive_new_key_handle p]
  | P_Ike1PrfDerive p => [Ike1PrfDerive_keygxy_handle p; Ike1PrfDerive_prev_key_handle p]
  | P_Ike1ExtendedDerive p => [Ike1ExtendedDerive_keygxy_handle p]
  | P_Ike2PrfPlusDerive p => [Ike2PrfPlusDerive_seed_key_handle p]
  | P_X3dhInitiate p => [X3dhInitiate_peer_identity_handle p; X3dhInitiate_peer_prekey_handle p;
        X3dhInitiate_onetime_key_handle p; X3dhInitiate_own_identity_handle p; X3dhInitiate_own_ephemeral_handle p]
  | P_X3dhRespond p => [X3dhRespond_identity_handle p; X3dhRespond_prekey_handle p; X3dhRespond_onetime_key_handle p;
        X3dhRespond_initiator_identity_handle p; X3dhRespond_initiator_ephemeral_handle p]
  | P_X2RatchetInitialize p => [X2RatchetInitialize_peer_public_prekey_handle p;
        X2RatchetInitialize_peer_public_identity_handle p; X2RatchetInitialize_own_public_identity_handle p]
  | P_X2RatchetRespond p => [X2RatchetRespond_own_prekey_handle p; X2RatchetRespond_initiator_identity_handle p;
        X2RatchetRespond_own_identity_handle p]
  | P_Kip p => [Kip_key_handle p]
  | P_CmsSig p => [CmsSig_certificate_handle p]
  | P_ObjectHandle p => [ObjectHandle_handle p]
  | P_Kmac p => [Kmac_key_handle p]
  | P_MuGen p => [MuGen_key_handle p]
  | P_Kyber p => [Kyber_secret_handle p]
  | _ => []
  end.

Definition handles_of (mech : CkMechanism) : list CkObjectHandle :=
  match mechanism_params mech with Some params => own_handles params | None => [] end.

(** Those of the whole tree, outermost first. *)
Definition embedded_handles (mech : CkMechanism) : list CkObjectHandle := (mech_tree 0 mech).*2 ≫= handles_of.

Definition nested_of (mech : CkMechanism) : list CkMechanism :=
  match mechanism_params mech with Some params => nested_mechanisms params | None => [] end.

Lemma tree_depth_irrelevant mech : forall d d', (mech_tree d mech).*2 = (mech_tree d' mech).*2.
Proof.
  induction mech as [mech IH] using mech_tree_ind. intros d d'. rewrite !mech_tree_eq. unfold below. cbn. f_equal.
  destruct (mechanism_params mech) as [params|] eqn:Ep; [|done]. specialize (IH params).
  induction (nested_mechanisms params) as [|m ms IHms]; [done|]. cbn. rewrite !fmap_app. f_equal.
  - apply IH; [done|by left].
  - apply IHms. intros x Hx Hin. apply IH; [done|by right].
Qed.

Lemma embedded_eq mech : embedded_handles mech = handles_of mech ++ (nested_of mech ≫= embedded_handles).
Proof.
  unfold embedded_handles. rewrite mech_tree_eq. cbn. f_equal. unfold below, nested_of.
  destruct (mechanism_params mech) as [params|]; [|done].
  induction (nested_mechanisms params) as [|m ms IH]; [done|]. cbn.
  rewrite fmap_app, bind_app, IH. f_equal. by rewrite (tree_depth_irrelevant m _ 0).
Qed.

(** ** Collection *)

Lemma bind_push hs : hs ≫= push = filter (.≠ 0) (object_raw <$> hs).
Proof.
  induction hs as [|h hs IH]; [done|]. cbn [mbind list_bind]. rewrite IH, fmap_cons, filter_cons. unfold push.
  destruct (N.eqb_spec (object_raw h) 0) as [E|E]; cbn [negb].
  - by rewrite decide_False by naive_solver.
  - by rewrite decide_True.
Qed.

Lemma push_eq mech : push_nested mech = embedded_handles mech ≫= push.
Proof.
  induction mech as [mech IH] using mech_tree_ind. rewrite embedded_eq, bind_app.
  destruct mech as [t [params|]]; [|done]. unfold handles_of, nested_of. cbn [mechanism_params push_nested].
  specialize (IH params). cbn [mechanism_params] in IH.
  destruct params; try destruct p; cbn [push_param_handles own_handles nested_mechanisms mbind list_bind Kip_mechanism Kip_key_handle
    CmsSig_certificate_handle CmsSig_signing_mechanism CmsSig_digest_mechanism Ecies_derivation_mechanism
    Ecies_encryption_mechanism Ecies_mac_mechanism].
  all: rewrite ?app_nil_r, ?bind_app; try done.
  - destruct mechanism as [m|]; cbn [mbind list_bind]; [|done]. rewrite app_nil_r, <- (IH m eq_refl) by (by left).
    by destruct m as [? [?|]].
  - rewrite <- !IH by (try done; cbn; set_solver). by rewrite ?app_assoc.
  - rewrite <- !IH by (try done; cbn; set_solver). by rewrite ?app_assoc.
Qed.

(** The walk over the parameters collects the value of every object-handle
    field of every mechanism of the tree, outermost first, less the zeros that
    mean no handle. *)
Theorem collect_complete t params :
  collect_param_handles params = filter (.≠ 0) (object_raw <$> embedded_handles (MkCkMechanism t (Some params))).
Proof. rewrite <- bind_push. apply (push_eq (MkCkMechanism t (Some params))). Qed.

(** ** Replacement *)

Section remap.
Context (resolve : N -> option N).

(** Zero stays; another handle must resolve. *)
Definition translate (h : CkObjectHandle) : option CkObjectHandle :=
  if object_raw h =? 0 then Some h else MkObject <$> resolve (object_raw h).

Lemma remap_handle_eq h :
  remap_handle h resolve = match translate h with Some h' => Ok h' | None => Err Rv.OBJECT_HANDLE_INVALID end.
Proof. unfold remap_handle, translate. destruct (_ =? 0); [done|]. by destruct (resolve _). Qed.

(** What the walk does to a mechanism: it fails when a handle does not
    resolve; otherwise every handle is replaced and nothing else changes. *)
Definition remapped (mech : CkMechanism) (r : CkResult CkMechanism) : Prop :=
  match mapM translate (embedded_handles mech) with
  | Some hs => exists mech', r = Ok mech' /\ embedded_handles mech' = hs /\
                 normalized_for_handle_compare mech' = normalized_for_handle_compare mech
  | None => r = Err Rv.OBJECT_HANDLE_INVALID
  end.

Lemma mapM_app_eq {A B} (f : A -> option B) l k :
  mapM f (l ++ k) = (xs ← mapM f l; ys ← mapM f k; Some (xs ++ ys)).
Proof.
  induction l as [|x l IH]; cbn; [by destruct (mapM f k)|]. rewrite IH. destruct (f x); [|done]. cbn.
  destruct (mapM f l); [|done]. cbn. by destruct (mapM f k).
Qed.

Lemma remapped_cases mech r : remapped mech r ->
  (exists mech', mapM translate (embedded_handles mech) = Some (embedded_handles mech') /\ r = Ok mech' /\ zero_nested mech' = zero_nested mech) \/
  (mapM translate (embedded_handles mech) = None /\ r = Err Rv.OBJECT_HANDLE_INVALID).
Proof.
  unfold remapped. destruct (mapM _ _) as [hs|]; [|by right]. intros (mech' & -> & <- & Hz). left. by exists mech'.
Qed.

Lemma kip_walk (mech : option CkMechanism) :
  match mech with
  | Some (MkCkMechanism t (Some inner)) =>
      let? inner := remap_param_handles resolve inner in Ok (Some (MkCkMechanism t (Some inner)))
  | m => Ok m
  end = match mech with Some m => let? m := remap_nested resolve m in Ok (Some m) | None => Ok None end.
Proof. destruct mech as [[t [inner|]]|]; cbn; try done. by destruct (remap_param_handles _ _). Qed.

Lemma kip_zero (mech : option CkMechanism) :
  match mech with
  | Some (MkCkMechanism t (Some inner)) => Some (MkCkMechanism t (Some (zero_embedded_handles inner)))
  | m => m
  end = zero_nested <$> mech.
Proof. by destruct mech as [[t [inner|]]|]. Qed.

Lemma remap_exact mech : remapped mech (remap_nested resolve mech).
Proof.
  induction mech as [mech IH] using mech_tree_ind. unfold remapped. rewrite embedded_eq, mapM_app_eq.
  destruct mech as [t [params|]]; [|by eexists]. unfold handles_of, nested_of. cbn [mechanism_params remap_nested].
  specialize (IH params). cbn [mechanism_params] in IH.
  destruct params; try destruct p;
    cbn [remap_param_handles own_handles nested_mechanisms mbind list_bind Kip_mechanism Kip_key_handle
    CmsSig_certificate_handle CmsSig_signing_mechanism CmsSig_digest_mechanism Ecies_derivation_mechanism
    Ecies_encryption_mechanism Ecies_mac_mechanism].
  all: rewrite ?remap_handle_eq; cbn [mapM]; try (by eexists).
  all: cbn; try (repeat (match goal with |- context [translate ?h] => destruct (translate h) end; cbn); by eauto).
  - rewrite kip_walk, kip_zero. destruct (translate key_handle); [cbn|by destruct (mapM _ _)].
    destruct mechanism as [m|]; cbn; [|by eauto]. rewrite app_nil_r.
    destruct (remapped_cases m _ (IH m eq_refl ltac:(by left))) as [(m1 & -> & -> & Hz1)|[-> ->]]; cbn; [|done].
    eexists. split; [done|]. rewrite embedded_eq. cbn. rewrite app_nil_r. split; [done|].
    unfold normalized_for_handle_compare. cbn. rewrite <- Hz1. by destruct m1 as [? [?|]].
  - destruct (translate certificate_handle); [cbn|by destruct (mapM _ _)]. rewrite app_nil_r, mapM_app_eq.
    destruct (remapped_cases _ _ (IH signing_mechanism eq_refl ltac:(set_solver))) as [(m1 & -> & -> & Hz1)|[-> ->]]; cbn; [|done].
    destruct (remapped_cases _ _ (IH digest_mechanism eq_refl ltac:(set_solver))) as [(m2 & -> & -> & Hz2)|[-> ->]]; cbn; [|done].
    eexists. split; [done|]. rewrite embedded_eq. cbn. rewrite app_nil_r. split; [done|].
    unfold normalized_for_handle_compare. cbn. by rewrite Hz1, Hz2.
  - rewrite app_nil_r, !mapM_app_eq.
    destruct (remapped_cases _ _ (IH derivation_mechanism eq_refl ltac:(set_solver))) as [(m1 & -> & -> & Hz1)|[-> ->]]; cbn; [|done].
    destruct (remapped_cases _ _ (IH encryption_mechanism eq_refl ltac:(set_solver))) as [(m2 & -> & -> & Hz2)|[-> ->]]; cbn; [|done].
    destruct (remapped_cases _ _ (IH mac_mechanism eq_refl ltac:(set_solver))) as [(m3 & -> & -> & Hz3)|[-> ->]]; cbn; [|done].
    eexists. split; [done|]. rewrite embedded_eq. cbn. rewrite app_nil_r. split; [done|].
    unfold normalized_for_handle_compare. cbn. by rewrite Hz1, Hz2, Hz3.
Qed.
End remap.

(** ** The handler *)

Section gated.
Context (native : ByteOrder) (policy : TokenPolicy) (env : Env) (cid : ClientContextId) (vs bs : N).

Definition gating : bool := per_object_active policy || per_class_active policy.

(** The caller's context, as a critical section of world [w] finds it. *)
Definition context_at (w : World) : option LogicalClientInstance := contexts (es_others (env (w_step w)) (w_mgr w)) !! cid.

(** The world after a critical section that reads the context. *)
Definition after_read (w : World) : World :=
  (critical (fun now => get_context now cid (fun c => (tt, c))) env w).2.

(** [h] as the map of [c] translates it. *)
Definition named (c : LogicalClientInstance) (h h' : CkObjectHandle) : Prop :=
  object_raw h = 0 /\ h' = h \/
  object_raw h <> 0 /\ HandleMap_resolve (VH (object_raw h)) (object_handles c) = Some (BH (object_raw h')).

(** The pairs of virtual and nonzero backend handle that [c] holds. *)
Definition held (c : LogicalClientInstance) (handles : list N) : list (N * N) :=
  omap (fun v => match HandleMap_resolve (VH v) (object_handles c) with
                 | Some b => if bh_raw b =? 0 then None else Some (v, bh_raw b)
                 | None => None
                 end) handles.

(** Each pair passes the login gate and, under a policy, the object gate, one
    after another; a denied occurrence of a handle is outvoted by a later one. *)
Inductive admitted : World -> list (N * N) -> World -> Prop :=
| admitted_nil w : admitted w [] w
| admitted_cons w v b w1 w2 w3 rest :
    ensure_private_use_allowed cid vs v (MkSession bs) (MkObject b) env w = (Ok tt, w1) ->
    (if gating then exists g, gate_object_handle native policy cid vs v (BH bs) (MkObject b) env w1 = (g, w2) /\
                              (g = MkObject b \/ v ∈ rest.*1)
     else w2 = w1) ->
    admitted w2 rest w3 ->
    admitted w ((v, b) :: rest) w3.

Lemma private_use_errors v b w rv w' :
  ensure_private_use_allowed cid vs v (MkSession bs) (MkObject b) env w = (Err rv, w') -> rv = Rv.USER_NOT_LOGGED_IN.
Proof.
  unfold ensure_private_use_allowed, bind, ret. destruct (critical _ env w) as [[[[? ?] [?|]]|?] w1]; [done| |].
  all: destruct (object_is_private _ _ _ _ env w1) as [[|] w2]; [|done].
  - destruct (rides_other_login _ _ env w2) as [[|] w3]; congruence.
  - congruence.
Qed.

Lemma gate_cases v b w :
  (gate_object_handle native policy cid vs v (BH bs) (MkObject b) env w).1 = MkObject 0 \/
  (gate_object_handle native policy cid vs v (BH bs) (MkObject b) env w).1 = MkObject b.
Proof.
  unfold gate_object_handle, bind, ret. destruct (resolve_object_authz_context _ _ env w) as [[[[? ?] ?]|] w1]; [|by left].
  destruct (critical _ env w1) as [[|] w2].
  - destruct (per_class_active policy); [|by right]. cbn [negb].
    destruct (fetch_and_cache _ _ _ _ _ env w2) as [[md|] w3]; [|by left]. cbn. destruct (class_allowed _ _ _ _ _); auto.
  - destruct (critical _ env w2) as [cached w3].
    match goal with |- context [match ?x with (a, w0) => _ end] => destruct x as [[md|] w4] end; [|by left].
    repeat case_match; auto.
Qed.

Lemma check_uses_run c hs : forall w r w', gating = false ->
  check_private_uses cid vs bs (resolve_handles hs c) env w = (r, w') ->
  match r with Ok _ => admitted w (held c hs) w' | Err rv => rv = Rv.USER_NOT_LOGGED_IN end.
Proof.
  induction hs as [|v hs IH]; intros w r w' Hg; cbn [resolve_handles fmap list_fmap check_private_uses held omap list_omap].
  { intros [= <- <-]. constructor. }
  destruct (HandleMap_resolve _ _) as [[b]|]; cbn [fmap option_fmap option_map bh_raw]; [|by apply IH].
  destruct (b =? 0); cbn [negb]; [by apply IH|]. unfold bind_result, bind.
  destruct (ensure_private_use_allowed _ _ _ _ _ env w) as [[[]|rv] w1] eqn:Eu.
  - intros H. specialize (IH w1 r w' Hg H). destruct r as [[]|]; [|done]. econstructor; [done| |done]. by rewrite Hg.
  - intros [= <- <-]. by eapply private_use_errors.
Qed.

(** The map the gating loop builds: for each handle what the gate said last. *)
Lemma gate_resolved_run c hs : forall acc w r w', gating = true ->
  gate_resolved native policy cid vs bs (resolve_handles hs c) acc env w = (r, w') ->
  match r with
  | Ok g =>
      (forall v, v ∈ hs -> exists b, HandleMap_resolve (VH v) (object_handles c) = Some (BH b) /\ (g !! v = Some b \/ g !! v = Some 0)) /\
      (forall v, v ∉ hs -> g !! v = acc !! v) /\
      ((forall v, v ∈ hs -> g !! v <> Some 0) -> admitted w (held c hs) w')
  | Err rv => rv = Rv.USER_NOT_LOGGED_IN \/ rv = Rv.OBJECT_HANDLE_INVALID
  end.
Proof.
  induction hs as [|v hs IH]; intros acc w r w' Hg; cbn [resolve_handles fmap list_fmap gate_resolved held omap list_omap].
  { intros [= <- <-]. split_and!; [by intros v ?%not_elem_of_nil|done|]. intros _. constructor. }
  destruct (HandleMap_resolve _ _) as [[b]|] eqn:Er; cbn [fmap option_fmap option_map bh_raw]; [|intros [= <- <-]; by right].
  destruct (N.eqb_spec b 0) as [->|Hb]; cbn [negb].
  - intros H. specialize (IH _ w r w' Hg H). destruct r as [g|]; [|done]. destruct IH as (I1 & I2 & I3).
    assert (v ∉ hs -> g !! v = Some 0) as Hv by (intros Hn; rewrite (I2 v Hn); apply lookup_insert_eq).
    split_and!.
    + intros x [->|Hx]%elem_of_cons; [|by apply I1]. destruct (decide (v ∈ hs)); [by apply I1|]. exists 0. auto.
    + intros x [Hx Hn]%not_elem_of_cons. rewrite (I2 x Hn). by apply lookup_insert_ne.
    + intros Hz. apply I3. intros x Hx. apply Hz. by right.
  - unfold bind_result, bind. destruct (ensure_private_use_allowed _ _ _ _ _ env w) as [[[]|rv] w1] eqn:Eu.
    2: { intros [= <- <-]. left. by eapply private_use_errors. }
    pose proof (gate_cases v b w1) as Hc. destruct (gate_object_handle _ _ _ _ _ _ _ env w1) as [h w2] eqn:Eg. cbn [fst] in Hc.
    intros H. specialize (IH _ w2 r w' Hg H). destruct r as [g|]; [|done]. destruct IH as (I1 & I2 & I3).
    assert (v ∉ hs -> g !! v = Some (object_raw h)) as Hv by (intros Hn; rewrite (I2 v Hn); apply lookup_insert_eq).
    split_and!.
    + intros x [->|Hx]%elem_of_cons; [|by apply I1]. destruct (decide (v ∈ hs)) as [|Hn]; [by apply I1|].
      exists b. split; [done|]. rewrite (Hv Hn). destruct Hc as [-> | ->]; auto.
    + intros x [Hx Hn]%not_elem_of_cons. rewrite (I2 x Hn). by apply lookup_insert_ne.
    + intros Hz. econstructor; [done| |apply I3; intros x Hx; apply Hz; by right]. rewrite Hg. exists h. split; [done|].
      destruct Hc as [-> | ->]; [right|by left]. destruct (decide (v ∈ hs)) as [Hin|Hn].
      * apply list_elem_of_fmap. exists (v, b). split; [done|]. apply list_elem_of_omap. exists v. split; [done|].
        rewrite Er. cbn. destruct (N.eqb_spec b 0); done.
      * destruct (Hz v); [by left|]. by rewrite (Hv Hn).
Qed.

Lemma resolved_fold c hs v : forall acc : gmap N N,
  let fold := foldl (fun acc '(vh, bh) => match bh with Some b => <[vh := b]> acc | None => acc end) acc (resolve_handles hs c) in
  (v ∈ hs -> (forall b, acc !! v = Some b -> HandleMap_resolve (VH v) (object_handles c) = Some (BH b)) ->
    fold !! v = bh_raw <$> HandleMap_resolve (VH v) (object_handles c)) /\
  (v ∉ hs -> fold !! v = acc !! v).
Proof.
  cbv zeta. induction hs as [|x hs IH]; intros acc; [by split; [intros ?%not_elem_of_nil|]|].
  change (resolve_handles (x :: hs) c) with ((x, bh_raw <$> HandleMap_resolve (VH x) (object_handles c)) :: resolve_handles hs c).
  cbn [foldl].
  destruct (IH (match bh_raw <$> HandleMap_resolve (VH x) (object_handles c) with Some b => <[x := b]> acc | None => acc end)) as [I1 I2].
  split.
  - intros Hin Hacc. destruct (decide (v ∈ hs)) as [Hv|Hv].
    + apply I1; [done|]. intros b. destruct (HandleMap_resolve (VH x) _) as [[b']|] eqn:Ex; cbn; [|apply Hacc].
      destruct (decide (x = v)) as [->|]; [rewrite lookup_insert_eq; congruence|rewrite lookup_insert_ne by done; apply Hacc].
    + apply elem_of_cons in Hin as [->|]; [|done]. rewrite (I2 Hv). destruct (HandleMap_resolve (VH x) _) as [[b']|] eqn:Ex; cbn.
      * apply lookup_insert_eq.
      * destruct (acc !! x) as [b|] eqn:Ea; [|done]. by specialize (Hacc b eq_refl).
  - intros [Hx Hv]%not_elem_of_cons. rewrite (I2 Hv). destruct (HandleMap_resolve (VH x) _) as [[b]|]; cbn; [by rewrite lookup_insert_ne by congruence|done].
Qed.

Lemma resolved_map_lookup c hs v : v ∈ hs ->
  resolved_map (resolve_handles hs c) !! v = bh_raw <$> HandleMap_resolve (VH v) (object_handles c).
Proof. intros Hv. apply (resolved_fold c hs v ∅); [done|]. intros b Hb. by rewrite lookup_empty in Hb. Qed.

(** Substitution by a function that agrees with the map of [c] where it
    answers. *)
Lemma substitute_named c v resolve v' :
  (forall h b, resolve h = Some b -> HandleMap_resolve (VH h) (object_handles c) = Some (BH b)) ->
  substitute_validated_handles v resolve = Ok v' ->
  v' = v <| vm_mechanism := vm_mechanism v' |> /\
  normalized_for_handle_compare (vm_mechanism v') = normalized_for_handle_compare (vm_mechanism v) /\
  Forall2 (named c) (embedded_handles (vm_mechanism v)) (embedded_handles (vm_mechanism v')) /\
  (forall h, h ∈ embedded_handles (vm_mechanism v) -> object_raw h <> 0 -> is_Some (resolve (object_raw h))).
Proof.
  intros Hres. unfold substitute_validated_handles.
  destruct (remapped_cases _ _ _ (remap_exact resolve (vm_mechanism v))) as [(m & Hm & -> & Hz)|[_ ->]]; [|done].
  intros [= <-]. cbn. apply mapM_Some in Hm. split_and!; [done|done| |].
  - eapply Forall2_impl; [done|]. intros h h'. unfold translate, named. destruct (N.eqb_spec (object_raw h) 0) as [E|E]; intros H.
    + left. split; [done|congruence].
    + right. split; [done|]. apply fmap_Some in H as (b & Hb & ->). by apply Hres.
  - intros h Hh Hn. apply list_elem_of_lookup in Hh as [i Hi].
    destruct (Forall2_lookup_l _ _ _ _ _ Hm Hi) as (h' & _ & Ht). unfold translate in Ht.
    destruct (N.eqb_spec (object_raw h) 0); [done|]. apply fmap_Some in Ht as (b & -> & _). eauto.
Qed.

Lemma substitute_errors v resolve rv : substitute_validated_handles v resolve = Err rv -> rv = Rv.OBJECT_HANDLE_INVALID.
Proof.
  unfold substitute_validated_handles.
  destruct (remapped_cases _ _ _ (remap_exact resolve (vm_mechanism v))) as [(m & Hm & -> & Hz)|[_ ->]]; cbn; congruence.
Qed.

(** The read of the handles. *)
Lemma read_handles w hs :
  critical (fun now => get_context now cid (fun c => (resolve_handles hs c, c))) env w =
  ((fun c => resolve_handles hs c) <$> context_at w, after_read w).
Proof.
  unfold critical, get_context, context_at, after_read, critical, get_context.
  by destruct (contexts (es_others _ _) !! cid).
Qed.

Lemma resolved_map_notin c hs v : v ∉ hs -> resolved_map (resolve_handles hs c) !! v = None.
Proof. intros Hv. unfold resolved_map. by rewrite (proj2 (resolved_fold c hs v ∅) Hv), lookup_empty. Qed.

Lemma remap_eq v :
  remap_mechanism_handles native policy cid vs bs v =
  let hs := push_nested (vm_mechanism v) in
  if bool_decide (hs = []) then ret (Ok v)
  else
    r <- critical (fun now => get_context now cid (fun c => (resolve_handles hs c, c)));;
    match r with
    | None => ret (Err Rv.CRYPTOKI_NOT_INITIALIZED)
    | Some resolved =>
        if negb (per_object_active policy) && negb (per_class_active policy) then
          _ <-? check_private_uses cid vs bs resolved;;
          ret (substitute_validated_handles v (fun h => resolved_map resolved !! h))
        else
          gated <-? gate_resolved native policy cid vs bs resolved ∅;;
          ret (substitute_validated_handles v (fun h =>
                 match gated !! h with Some 0 | None => None | other => other end))
    end.
Proof. unfold remap_mechanism_handles. by destruct (vm_mechanism v) as [t [params|]]. Qed.

(** The run of the handler. *)
Lemma remap_run v w :
  let result := remap_mechanism_handles native policy cid vs bs v env w in
  match result.1 with
  | Ok v' =>
      v' = v <| vm_mechanism := vm_mechanism v' |> /\
      normalized_for_handle_compare (vm_mechanism v') = normalized_for_handle_compare (vm_mechanism v) /\
      if decide (filter (.≠ 0) (object_raw <$> embedded_handles (vm_mechanism v)) = []) then v' = v /\ result.2 = w
      else exists c, context_at w = Some c /\
             Forall2 (named c) (embedded_handles (vm_mechanism v)) (embedded_handles (vm_mechanism v')) /\
             admitted (after_read w) (held c (filter (.≠ 0) (object_raw <$> embedded_handles (vm_mechanism v)))) result.2
  | Err rv =>
      if decide (context_at w = None) then rv = Rv.CRYPTOKI_NOT_INITIALIZED
      else rv = Rv.USER_NOT_LOGGED_IN \/ rv = Rv.OBJECT_HANDLE_INVALID
  end.
Proof.
  rewrite remap_eq, <- bind_push, <- push_eq. cbv zeta. set (hs := push_nested (vm_mechanism v)).
  assert (forall h, h ∈ embedded_handles (vm_mechanism v) -> object_raw h <> 0 -> object_raw h ∈ hs) as Hin.
  { intros h Hh Hn. unfold hs. rewrite push_eq, bind_push. apply list_elem_of_filter. split; [done|]. by apply list_elem_of_fmap_2. }
  case_bool_decide as Hhs; [cbn; rewrite decide_True by done; by destruct v|].
  destruct (decide (hs = [])) as [|_]; [done|]. unfold bind at 1 2. rewrite read_handles.
  destruct (context_at w) as [c|]; cbn [fmap option_fmap option_map]; [|by cbn; rewrite decide_True].
  destruct (decide (Some c = None)) as [|_]; [done|].
  destruct (negb (per_object_active policy) && negb (per_class_active policy)) eqn:Eg; unfold bind_result, bind.
  - destruct (check_private_uses _ _ _ _ env _) as [[[]|rv] w1] eqn:Ec.
    all: apply check_uses_run in Ec; [|unfold gating; by destruct (per_object_active _), (per_class_active _)]; cbn.
    2: by left.
    destruct (substitute_validated_handles v _) as [v'|rv] eqn:Es; cbn; [|right; by eapply substitute_errors].
    eapply (substitute_named c) in Es as (H1 & H2 & H3 & _); [by eauto 10|].
    intros h b Hb. destruct (decide (h ∈ hs)) as [Hh|Hh].
    + rewrite (resolved_map_lookup c hs h Hh) in Hb. apply fmap_Some in Hb as ([b'] & -> & ->). done.
    + by rewrite (resolved_map_notin c hs h Hh) in Hb.
  - destruct (gate_resolved _ _ _ _ _ _ _ env _) as [[g|rv] w1] eqn:Ec.
    all: apply gate_resolved_run in Ec; [|unfold gating; by destruct (per_object_active _), (per_class_active _)]; cbn.
    2: done.
    destruct Ec as (I1 & I2 & I3).
    destruct (substitute_validated_handles v _) as [v'|rv] eqn:Es; cbn; [|right; by eapply substitute_errors].
    eapply (substitute_named c) in Es as (H1 & H2 & H3 & H4).
    + split_and!; [done|done|]. exists c. split_and!; [done|done|]. apply I3. intros x Hx Hz.
      unfold hs in Hx. rewrite push_eq, bind_push in Hx. apply list_elem_of_filter in Hx as [Hn (h & -> & Hh)%list_elem_of_fmap].
      destruct (H4 h Hh Hn) as [b Hb]. by rewrite Hz in Hb.
    + intros h b Hb. destruct (decide (h ∈ hs)) as [Hh|Hh].
      * destruct (I1 h Hh) as (b' & Hr & [Hl|Hl]); rewrite Hl in Hb; [|done]. destruct b'; [done|]. congruence.
      * rewrite (I2 h Hh), lookup_empty in Hb. done.
Qed.

(** C12: The mechanism the handler returns differs from the validated one in
    object handles only.  Zero stays zero; every other embedded handle, at any
    depth, is the backend handle that the caller's own map gave for it, and each
    passed the login gate and, under a policy, the object gate.  A handle outside
    the map, or a denied one, refuses the request. *)
Theorem embedded_handles_gated v w :
  let result := remap_mechanism_handles native policy cid vs bs v env w in
  match result.1 with
  | Ok v' =>
      v' = v <| vm_mechanism := vm_mechanism v' |> /\
      normalized_for_handle_compare (vm_mechanism v') = normalized_for_handle_compare (vm_mechanism v) /\
      if decide (filter (.≠ 0) (object_raw <$> embedded_handles (vm_mechanism v)) = []) then v' = v /\ result.2 = w
      else exists c, context_at w = Some c /\
             Forall2 (named c) (embedded_handles (vm_mechanism v)) (embedded_handles (vm_mechanism v')) /\
             admitted (after_read w) (held c (filter (.≠ 0) (object_raw <$> embedded_handles (vm_mechanism v)))) result.2
  | Err rv =>
      if decide (context_at w = None) then rv = Rv.CRYPTOKI_NOT_INITIALIZED
      else rv = Rv.USER_NOT_LOGGED_IN \/ rv = Rv.OBJECT_HANDLE_INVALID
  end.
Proof. apply remap_run. Qed.

(** ** SP 800-108 key handles *)

(** The bytes a slot holds, empty for NULL. *)
Definition slot_bytes (d : PrfDataParam) : list N := default [] (PointerBytes_as_present (PrfData_value_presence d)).

(** A nonzero handle is the caller's and passes the gates; zero is refused
    unless the map has an entry for it, and no map allocates one. *)
Definition slot_admitted (w : World) (c : LogicalClientInstance) (vh b : N) (w' : World) : Prop :=
  if vh =? 0 then is_Some (HandleMap_resolve (VH 0) (object_handles c))
  else HandleMap_resolve (VH vh) (object_handles c) = Some (BH b) /\ b <> 0 /\ admitted (after_read w) [(vh, b)] w'.

(** One pass over the data parameters: a key-handle slot of 4 or 8 bytes names
    an object of the caller's map, the object passes the gates, and its backend
    handle is written over the slot at the same width; the rest stays. *)
Inductive slots_replaced : World -> list PrfDataParam -> list PrfDataParam -> World -> Prop :=
| slots_nil w : slots_replaced w [] [] w
| slots_other w d ds ds' w' :
    PrfData_type_ d <> SP800_108_KEY_HANDLE_TYPE ->
    slots_replaced w ds ds' w' -> slots_replaced w (d :: ds) (d :: ds') w'
| slots_key w d ds ds' c b w1 w' :
    let vh := read_uint (slot_bytes d) native in
    let width := length (slot_bytes d) in
    PrfData_type_ d = SP800_108_KEY_HANDLE_TYPE ->
    (width = 8%nat \/ width = 4%nat /\ b < 2 ^ 32) ->
    context_at w = Some c ->
    slot_admitted w c vh b w1 ->
    slots_replaced w1 ds ds' w' ->
    slots_replaced w (d :: ds)
      (MkPrfDataParam (PrfData_type_ d) (PbPresent (write_uint b width native)) :: ds') w'.

Lemma write_uint_length b width : (width <= 8)%nat -> length (write_uint b width native) = width.
Proof. intros Hw. rewrite write_uint_orient by done. unfold orient. destruct native; rewrite ?length_reverse; apply length_le_bytes. Qed.

Lemma read_slot w vh :
  critical (fun now => get_context now cid (fun c => (HandleMap_resolve (VH vh) (object_handles c), c))) env w =
  ((fun c => HandleMap_resolve (VH vh) (object_handles c)) <$> context_at w, after_read w).
Proof.
  unfold critical, get_context, context_at, after_read, critical, get_context.
  by destruct (contexts (es_others _ _) !! cid).
Qed.

Lemma handle_slot_run w vh r w' :
  resolve_sp800_108_key_handle_slot native policy cid vs (MkSession bs) vh env w = (r, w') ->
  match r with
  | Ok b => exists c, context_at w = Some c /\ slot_admitted w c vh b w'
  | Err rv => rv = Rv.USER_NOT_LOGGED_IN \/ rv = Rv.OBJECT_HANDLE_INVALID
  end.
Proof.
  unfold resolve_sp800_108_key_handle_slot, bind at 1, slot_admitted. rewrite read_slot.
  destruct (context_at w) as [c|] eqn:Hc; cbn [fmap option_fmap option_map mjoin option_join]; [|intros [= <- <-]; by right].
  destruct (HandleMap_resolve (VH vh) (object_handles c)) as [[b]|] eqn:Er; [|intros [= <- <-]; by right]. cbn [bh_raw session_raw].
  destruct (N.eqb_spec b 0) as [->|Hb]; cbn [negb].
  { unfold bind_result, bind, ret. rewrite andb_false_r. destruct (N.eqb_spec vh 0) as [->|]; intros [= <- <-]; [|by right].
    exists c. by rewrite Er. }
  unfold bind_result, bind. destruct (ensure_private_use_allowed _ _ _ _ _ env _) as [[[]|rv] w1] eqn:Eu.
  2: { intros [= <- <-]. left. by eapply private_use_errors. }
  rewrite andb_true_r. fold gating. unfold ret.
  destruct (N.eqb_spec vh 0) as [->|Hv]; cbn [negb andb].
  { match goal with |- context [match ?x with (a, w0) => _ end] => destruct x as [h w2] end. intros [= <- <-]. exists c. by rewrite Er. }
  assert (exists g w2, (if gating then gate_object_handle native policy cid vs vh (BH bs) (MkObject b) else fun _ w => (MkObject b, w)) env w1 = (g, w2) /\
            (g = MkObject 0 \/ g = MkObject b /\ admitted (after_read w) [(vh, b)] w2)) as (g & w2 & -> & Hg).
  { destruct gating eqn:Hg.
    - pose proof (gate_cases vh b w1) as Hgc. destruct (gate_object_handle _ _ _ _ _ _ _ env w1) as [h w2] eqn:Eg. cbn [fst] in Hgc.
      exists h, w2. split; [done|]. destruct Hgc as [-> | ->]; [by left|right]. split; [done|].
      econstructor; [done| |constructor]. rewrite Hg. eauto.
    - exists (MkObject b), w1. split; [done|]. right. split; [done|]. econstructor; [done| |constructor]. by rewrite Hg. }
  destruct Hg as [-> | [-> Ha]]; cbn; [intros [= <- <-]; by right|]. destruct (N.eqb_spec b 0); [done|]. intros [= <- <-].
  exists c. by rewrite Er.
Qed.

(** The staged bytes, and where they go. *)
Lemma stage_run ds : forall index w staged w',
  stage_sp800_108_slots native policy cid vs (MkSession bs) index ds env w = (Ok staged, w') ->
  exists ds', slots_replaced w ds ds' w' /\
    forall pre, length pre = index -> apply_staged staged (pre ++ ds) = pre ++ ds'.
Proof.
  induction ds as [|d ds IH]; intros index w staged w'; cbn [stage_sp800_108_slots].
  { intros [= <- <-]. exists []. split; [constructor|done]. }
  destruct (N.eqb_spec (PrfData_type_ d) SP800_108_KEY_HANDLE_TYPE) as [Et|Et]; cbn [negb].
  2: { intros (ds' & Hr & Ha)%IH. exists (d :: ds'). split; [by constructor|]. intros pre Hp.
       specialize (Ha (pre ++ [d])). rewrite <- !app_assoc in Ha. apply Ha. rewrite length_app. cbn. lia. }
  unfold bind_result, bind, ret. fold (slot_bytes d).
  destruct (read_sp800_108_key_handle_value native (slot_bytes d)) as [[vh width]|] eqn:Ed; [|done]. cbn [fst snd].
  destruct (resolve_sp800_108_key_handle_slot _ _ _ _ _ _ env w) as [[b|] w1] eqn:Es; [|done].
  destruct (write_sp800_108_key_handle_value native b width) as [bytes|] eqn:Ew; [|done].
  destruct (stage_sp800_108_slots _ _ _ _ _ _ ds env w1) as [[rest|] w2] eqn:Er; [|done].
  intros [= <- <-]. apply IH in Er as (ds' & Hr & Ha). apply handle_slot_run in Es as (c & Hc & Hm). cbn [fst snd] in *.
  assert (vh = read_uint (slot_bytes d) native /\ width = length (slot_bytes d) /\
          (length (slot_bytes d) = 8%nat \/ length (slot_bytes d) = 4%nat /\ b < 2 ^ 32) /\
          bytes = write_uint b width native) as (-> & -> & Hw & ->).
  { unfold read_sp800_108_key_handle_value in Ed. unfold write_sp800_108_key_handle_value in Ew.
    destruct (length (slot_bytes d)) as [|[|[|[|[|[|[|[|[|?]]]]]]]]] eqn:El; try done; injection Ed as <- <-.
    - destruct (N.ltb_spec b (2 ^ 32)); [|done]. injection Ew as <-. split_and!; [done|done|by right|done].
    - injection Ew as <-. split_and!; [done|done|by left|done]. }
  eexists. split; [by eapply slots_key|]. intros pre Hp. cbn [apply_staged foldl].
  rewrite lookup_app_r by lia. rewrite Hp, Nat.sub_diag. cbn [lookup list_lookup].
  rewrite insert_app_r_alt by lia. rewrite Hp, Nat.sub_diag. cbn [insert list_insert].
  specialize (Ha (pre ++ [MkPrfDataParam (PrfData_type_ d) (PbPresent (write_uint b (length (slot_bytes d)) native))])).
  rewrite <- !app_assoc in Ha. apply Ha. rewrite length_app. cbn. lia.
Qed.

Lemma replaced_normal w ds ds' w' : slots_replaced w ds ds' w' ->
  zero_sp800_108_key_handle_values ds' = zero_sp800_108_key_handle_values ds.
Proof.
  unfold zero_sp800_108_key_handle_values. induction 1 as [|w d ds ds' w' Ht Hs IH|w d ds ds' c b w1 w' vh width Ht Hw Hc Hm Hs IH].
  - done.
  - cbn. by rewrite IH.
  - cbn. rewrite IH. f_equal. rewrite Ht. cbn. rewrite write_uint_length by (destruct Hw as [->|[-> _]]; lia).
    unfold width, slot_bytes in *. destruct (PrfData_value_presence d) as [bytes|n]; cbn in *; [by rewrite <- Ht|].
    destruct Hw as [?|[? _]]; lia.
Qed.

(** What the writes make of the parameters. *)
Lemma staged_params params data w ds' w' staged :
  sp800_108_data_params params = Some data -> slots_replaced w (present_items data) ds' w' ->
  apply_staged staged (present_items data) = ds' ->
  with_sp800_108_data_params (apply_staged staged) params = with_sp800_108_data_params (fun _ => ds') params /\
  (staged = [] -> with_sp800_108_data_params (fun _ => ds') params = params) /\
  zero_embedded_handles (with_sp800_108_data_params (fun _ => ds') params) = zero_embedded_handles params.
Proof.
  intros Ed Hr Ha. pose proof (replaced_normal _ _ _ _ Hr) as Hn.
  destruct params; try done; injection Ed as <-; [destruct p as [? data ?]|destruct p as [? data ? ?]]; cbn in *.
  all: destruct data as [items|n]; cbn in *; rewrite ?Ha, ?Hn; split_and!; try done; try (intros ->; cbn in Ha; by subst).
  all: do 3 f_equal; exact Hn.
Qed.

Lemma stage_errors ds : forall index w rv w',
  stage_sp800_108_slots native policy cid vs (MkSession bs) index ds env w = (Err rv, w') ->
  rv = Rv.USER_NOT_LOGGED_IN \/ rv = Rv.OBJECT_HANDLE_INVALID \/ rv = Rv.MECHANISM_PARAM_INVALID.
Proof.
  induction ds as [|d ds IH]; intros index w rv w'; cbn [stage_sp800_108_slots]; [done|].
  destruct (negb _); [apply IH|]. unfold bind_result, bind, ret.
  destruct (read_sp800_108_key_handle_value _ _) as [[vh width]|rv1] eqn:Ed.
  2: { intros [= <- <-]. unfold read_sp800_108_key_handle_value in Ed. repeat case_match; simplify_eq; auto. }
  destruct (resolve_sp800_108_key_handle_slot _ _ _ _ _ _ env w) as [[b|rv1] w1] eqn:Es; apply handle_slot_run in Es.
  2: { intros [= <- <-]. tauto. }
  destruct (write_sp800_108_key_handle_value _ _ _) as [bytes|rv1] eqn:Ew.
  2: { intros [= <- <-]. unfold write_sp800_108_key_handle_value in Ew. repeat case_match; simplify_eq; auto. }
  destruct (stage_sp800_108_slots _ _ _ _ _ _ ds env w1) as [[rest|rv1] w2] eqn:Er; [done|]. intros [= <- <-]. by eapply IH.
Qed.

(** The run of the resolver. *)
Lemma resolver_run v w :
  let result := resolve_sp800_108_key_handle_data_params native policy cid vs (MkSession bs) v env w in
  match result.1 with
  | Ok v' =>
      v' = v <| vm_mechanism := vm_mechanism v' |> /\
      normalized_for_handle_compare (vm_mechanism v') = normalized_for_handle_compare (vm_mechanism v) /\
      match mechanism_params (vm_mechanism v) ≫= sp800_108_data_params with
      | None => v' = v /\ result.2 = w
      | Some data_params =>
          exists ds', slots_replaced w (present_items data_params) ds' result.2 /\
            mechanism_params (vm_mechanism v') = with_sp800_108_data_params (fun _ => ds') <$> mechanism_params (vm_mechanism v)
      end
  | Err rv => rv = Rv.USER_NOT_LOGGED_IN \/ rv = Rv.OBJECT_HANDLE_INVALID \/ rv = Rv.MECHANISM_PARAM_INVALID
  end.
Proof.
  cbv zeta. unfold resolve_sp800_108_key_handle_data_params.
  destruct (mechanism_params (vm_mechanism v) ≫= sp800_108_data_params) as [data|] eqn:Ed; [|by destruct v].
  unfold bind_result, bind. destruct (stage_sp800_108_slots _ _ _ _ _ _ _ env w) as [[staged|rv] w1] eqn:Es; [|by eapply stage_errors].
  apply stage_run in Es as (ds' & Hr & Ha). specialize (Ha [] eq_refl). cbn [app] in Ha.
  destruct v as [[t [params|]] grant registry la ba]; [|done]. cbn in Ed.
  destruct (staged_params _ _ _ _ _ _ Ed Hr Ha) as (H1 & H2 & H3).
  destruct staged as [|st rest]; cbn.
  - split_and!; [done|done|]. exists ds'. split; [done|]. by rewrite H2.
  - unfold substitute_handles. cbn. rewrite H1, H3. eauto.
Qed.

(** On C_DeriveKey, the key-handle slots of SP 800-108 data parameters are
    replaced the same way: the 4 or 8 bytes of a slot name an object of the
    caller's map, which passed the gates, and become its backend handle at the
    same width; a wider handle than the slot, any other width and the zero handle
    are refused.  Nothing else of the mechanism changes. *)
Theorem sp800_108_handles_gated v w :
  let result := resolve_sp800_108_key_handle_data_params native policy cid vs (MkSession bs) v env w in
  match result.1 with
  | Ok v' =>
      v' = v <| vm_mechanism := vm_mechanism v' |> /\
      normalized_for_handle_compare (vm_mechanism v') = normalized_for_handle_compare (vm_mechanism v) /\
      match mechanism_params (vm_mechanism v) ≫= sp800_108_data_params with
      | None => v' = v /\ result.2 = w
      | Some data_params =>
          exists ds', slots_replaced w (present_items data_params) ds' result.2 /\
            mechanism_params (vm_mechanism v') = with_sp800_108_data_params (fun _ => ds') <$> mechanism_params (vm_mechanism v)
      end
  | Err rv => rv = Rv.USER_NOT_LOGGED_IN \/ rv = Rv.OBJECT_HANDLE_INVALID \/ rv = Rv.MECHANISM_PARAM_INVALID
  end.
Proof. apply resolver_run. Qed.
End gated.
