(* ===== verification/KeyGen.v ===== *)
(** * Key generation and derivation

    Models the handlers of
    [crates/server/src/server/grpc_service/key_ops/generation.rs]
    ([generate_key_pair], [generate_key], [derive_key]), from the decoded request
    to the response, and the completion owner of [service_utils.rs] for minted
    objects ([MintCompletionOwner], [LateMintedObjects]) with the settlement it
    hands objects to.

    The wire decoding is outside: a request holds the decoded mechanism and
    templates, or the error of the decoder.  The module is a function from the
    arguments of the call to a reply; other tasks run meanwhile. *)

From S2P Require Import Prelude Ck Width HandleMap SlotMap Connection Context Manager Session Mech Grant Policy Handler Authorize.
From S2P Require Import Shapes ShapeProps Registry Params Validate Embedded.
Open Scope N_scope.

(** ** The completion owner of minted objects *)

(** What becomes of a call that mints [T]: it returns in time; it times out and
    returns late, or never; it is refused; the worker panics. *)
Inductive MintReply (T : Type) :=
| MintDone (r : CkResult T)
| MintTimedOut (late : option (CkResult T))
| MintRefused
| MintPanicked.
Arguments MintDone {T} r.
Arguments MintTimedOut {T} late.
Arguments MintRefused {T}.
Arguments MintPanicked {T}.

(** What the handler sees: [None] is a transport [Status]. *)
Definition mint_observed {T} (r : MintReply T) : option (CkResult T) :=
  match r with
  | MintDone r => Some r
  | MintTimedOut _ => Some (Err Rv.FUNCTION_FAILED)
  | MintRefused => Some (Err Rv.HOST_MEMORY)
  | MintPanicked => None
  end.

(** [LateMintedObjects::new]: nonzero handles, each once. *)
Definition late_minted (handles : list CkObjectHandle) : list CkObjectHandle :=
  foldl (fun kept handle =>
    if negb (object_raw handle =? 0) && negb (bool_decide (handle ∈ kept)) then kept ++ [handle] else kept) [] handles.

(** The channel of the owner. *)
Inductive MintCopy := MintPending | MintSent (r : CkResult (list CkObjectHandle)) | MintClosed.

Section owner.
(** What the closure reports of an outcome. *)
Context {T : Type} (extract : T -> CkResult (list CkObjectHandle)).

Definition report (r : CkResult T) : MintCopy :=
  MintSent match r with
           | Ok outcome => let? handles := extract outcome in Ok (late_minted handles)
           | Err rv => Err rv
           end.

(** The channel when the error arm looks ([raced]: the worker that timed out
    reported just before), and in the end. *)
Definition mint_copy_at_error (raced : bool) (r : MintReply T) : MintCopy :=
  match r with
  | MintDone r => report r
  | MintTimedOut (Some late) => if raced then report late else MintPending
  | MintTimedOut None => MintPending
  | MintRefused | MintPanicked => MintClosed
  end.
Definition mint_copy_in_the_end (r : MintReply T) : MintCopy :=
  match r with
  | MintDone r | MintTimedOut (Some r) => report r
  | MintTimedOut None => MintPending
  | MintRefused | MintPanicked => MintClosed
  end.

(** [settle_on_error]: whether the owner stays armed, and the handles handed to
    the detached settlement. *)
Definition mint_settle_on_error (copy : MintCopy) : bool * list CkObjectHandle :=
  match copy with
  | MintSent (Err _) => (false, [])
  | MintSent (Ok payload) => (false, payload)
  | MintPending => (true, [])
  | MintClosed => (false, [])
  end.

(** [Drop]: an armed owner hands a success to the settlement, and only that. *)
Definition mint_owner_drop (armed : bool) (eventual : MintCopy) : list CkObjectHandle :=
  if armed then match eventual with MintSent (Ok payload) => payload | _ => [] end else [].

(** The error arm of a handler, to the end of its scope. *)
Definition settled_after_error (raced : bool) (r : MintReply T) : list CkObjectHandle :=
  let '(armed, known) := mint_settle_on_error (mint_copy_at_error raced r) in
  known ++ mint_owner_drop armed (mint_copy_in_the_end r).
End owner.

(** *** The detached settlement *)

(** [LateMintedObjects]: the handles, and for each the object lifetime captured
    while the call ran. *)
Record LateMintedObjects := MkLateMinted {
  lm_session : CkSessionHandle;
  lm_handles : list CkObjectHandle;
  lm_lifetimes : list (option N);
  lm_incarnation : option N;
}.

Definition LateMintedObjects_new (session : CkSessionHandle) (handles : list CkObjectHandle) : LateMintedObjects :=
  let kept := late_minted handles in
  MkLateMinted session kept (replicate (length kept) None) None.

Definition captured_lifetime (captured : list (CkObjectHandle * N)) (handle : CkObjectHandle) : option N :=
  snd <$> head (filter (fun pair : CkObjectHandle * N => pair.1 = handle) captured).

Definition LateMintedObjects_from_captured (session : CkSessionHandle) (handles : list CkObjectHandle)
    (captured : list (CkObjectHandle * N)) : LateMintedObjects :=
  let payload := LateMintedObjects_new session handles in
  MkLateMinted (lm_session payload) (lm_handles payload) (captured_lifetime captured <$> lm_handles payload) (lm_incarnation payload).

(** A call of [destroy_object_if_bound]. *)
Record BoundDestroy := MkBoundDestroy {
  bd_session : CkSessionHandle; bd_handle : CkObjectHandle; bd_incarnation : option N; bd_lifetime : option N }.

(** The backend's replies: to each call, given those before it; [None] is a
    panic of the worker. *)
Definition DestroyReplies : Type := list BoundDestroy -> BoundDestroy -> option (CkResult unit).

(** The loop of [settle]: the calls made, and the result. *)
Fixpoint settle_each (destroy : DestroyReplies) (session : CkSessionHandle) (incarnation : option N) (made : list BoundDestroy)
    (first_error : option CkRv) (todo : list (CkObjectHandle * option N)) : list BoundDestroy * option (CkResult unit) :=
  match todo with
  | [] => (made, Some match first_error with Some rv => Err rv | None => Ok tt end)
  | (handle, lifetime) :: todo =>
      let call := MkBoundDestroy session handle incarnation lifetime in
      match destroy made call with
      | None => (made ++ [call], None)
      | Some (Ok _) => settle_each destroy session incarnation (made ++ [call]) first_error todo
      | Some (Err rv) => settle_each destroy session incarnation (made ++ [call]) (Some (default rv first_error)) todo
      end
  end.

Definition LateMintedObjects_settle (destroy : DestroyReplies) (payload : LateMintedObjects) : list BoundDestroy * option (CkResult unit) :=
  settle_each destroy (lm_session payload) (lm_incarnation payload) [] None (zip (lm_handles payload) (lm_lifetimes payload)).

(** What becomes of the task: it is polled and the breaker admits its call, the
    breaker refuses it, or the runtime is gone. *)
Inductive SettlementFate := SettlementRuns | SettlementRefused | SettlementNeverPolled.

(** [MintCompletionOwner::spawn_settlement]: the destructions, and what is
    logged of them ([None]: no task, or no result). *)
Definition spawn_settlement (fate : SettlementFate) (destroy : DestroyReplies) (payload : LateMintedObjects) (incarnation : option N)
  : list BoundDestroy * option (CkResult unit) :=
  let payload := MkLateMinted (lm_session payload) (lm_handles payload) (lm_lifetimes payload) incarnation in
  match lm_handles payload with
  | [] => ([], None)
  | _ =>
      match fate with
      | SettlementRuns => LateMintedObjects_settle destroy payload
      | SettlementRefused => ([], Some (Err Rv.HOST_MEMORY))
      | SettlementNeverPolled => ([], None)
      end
  end.

(** The end of a handler: its answer ([None]: a transport [Status], or the
    caller is gone) and the handles handed to the detached settlement. *)
Record MintOutcome (R : Type) := MkMintOutcome { mo_answer : option R; mo_settled : list CkObjectHandle }.
Arguments MkMintOutcome {R} mo_answer mo_settled.
Arguments mo_answer {R} m.
Arguments mo_settled {R} m.

Definition answered {R} (r : R) : Handler (MintOutcome R) := ret (MkMintOutcome (Some r) []).

(** *** Audit records *)

(** A record of class [KeyMgmt] that [emit_auth_event] is asked for. *)
Record KeyEvent := MkKeyEvent { ke_method : string; ke_context : ClientContextId; ke_session : N; ke_rv : CkRv }.

(** The end of a request with the records offered to the sink. *)
Record Audited (R : Type) := MkAudited { au_outcome : R; au_events : list KeyEvent }.
Arguments MkAudited {R} au_outcome au_events.
Arguments au_outcome {R} a.
Arguments au_events {R} a.

(** The call: other tasks run until its result is seen. *)
Definition module_call {A} (a : A) : Handler A := fun env w =>
  (a, advance env w).

#[export] Instance advances_module_call {A} (a : A) : Advances (module_call a).
Proof. intros env w. apply (later_advance env w). Qed.

(** ** Admission of a mechanism *)

(** The daemon's configuration: byte order, policy, v1 ABI of the build and its
    [CK_ULONG] width, the allocator and the sanitizer switch. *)
Record HandlerContext := MkHandlerContext {
  hc_native : ByteOrder;
  hc_token_policy : TokenPolicy;
  hc_abi : option ParamAbi;
  hc_ulong_size : N;
  hc_can_reserve : N -> bool;
  hc_sanitize_inputs : bool;
}.

(** [None]: the registry source fails. *)
Definition current_registry_snapshot (source : option MechanismRegistry) : CkResult MechanismRegistry :=
  match source with Some registry => Ok registry | None => Err Rv.DEVICE_ERROR end.

Section handlers.
Context (ctx : HandlerContext).

(** The steps every mechanism passes, in order: snapshot, decoding, operator
    exclusion, policy, transport validation, handle translation. *)
Definition admit_mechanism (cid : ClientContextId) (virtual_session : N) (session : CkSessionHandle)
    (source : option MechanismRegistry) (mechanism : CkResult CkMechanism) (operation : Operation)
  : Handler (CkResult ValidatedMechanismParams) :=
  registry <-? ret (current_registry_snapshot source);;
  mechanism <-? ret mechanism;;
  _ <-? ret (check_operator_exclusion registry (mechanism_type mechanism));;
  permitted <- mechanism_permitted (hc_token_policy ctx) cid virtual_session (mechanism_type mechanism);;
  if negb permitted then ret (Err Rv.MECHANISM_INVALID)
  else
    let abis := daemon_validation_abis (hc_abi ctx) (hc_ulong_size ctx) in
    validated <-? ret (validate_mechanism_transport (hc_abi ctx) (hc_can_reserve ctx) registry mechanism operation abis.1 abis.2);;
    remap_mechanism_handles (hc_native ctx) (hc_token_policy ctx) cid virtual_session (session_raw session) validated.

(** The gates on the template of a new object. *)
Definition mint_class_gate (cid : ClientContextId) (virtual_session : N) (template : list CkAttribute) (default_class : CkObjectClass)
  : Handler (CkResult unit) :=
  permitted <- class_mint_permitted (hc_token_policy ctx) cid virtual_session template (Some default_class);;
  ret (if permitted : bool then Ok tt else Err Rv.ATTRIBUTE_VALUE_INVALID).

(** A NULL template has no attributes. *)
Definition template_view (template : option (list CkAttribute)) : list CkAttribute := default [] template.

(** ** [C_GenerateKeyPair] *)

Record PairRequest := MkPairRequest {
  pr_context : ClientContextId;
  pr_session : N;
  pr_mechanism : CkResult CkMechanism;
  pr_public_template : CkResult (option (list CkAttribute));
  pr_private_template : CkResult (option (list CkAttribute));
}.
Record PairCall := MkPairCall {
  pc_session : CkSessionHandle;
  pc_validated : ValidatedMechanismParams;
  pc_public : option (list CkAttribute);
  pc_private : option (list CkAttribute);
}.
(** [ck_rv], public and private key handle. *)
Definition PairResponse : Type := CkRv * N * N.

Definition prepare_key_pair (source : option MechanismRegistry) (req : PairRequest) : Handler (CkResult PairCall) :=
  let cid := pr_context req in
  session <-? critical (fun now => resolve_session now cid (pr_session req));;
  validated <-? admit_mechanism cid (pr_session req) session source (pr_mechanism req) General;;
  public <-? ret (pr_public_template req);;
  private <-? ret (pr_private_template req);;
  _ <-? ensure_private_mint_allowed cid (pr_session req) (template_view public);;
  _ <-? ensure_private_mint_allowed cid (pr_session req) (template_view private);;
  _ <-? mint_class_gate cid (pr_session req) (template_view public) CKO_PUBLIC_KEY;;
  _ <-? mint_class_gate cid (pr_session req) (template_view private) CKO_PRIVATE_KEY;;
  validated <-? ret (sanitize_mechanism_input (hc_sanitize_inputs ctx) validated);;
  ret (Ok (MkPairCall session validated public private)).

Definition pair_minted (keys : CkObjectHandle * CkObjectHandle) : CkResult (list CkObjectHandle) := Ok [keys.1; keys.2].

(** [cancelled]: the caller drops the request while the call runs. *)
Definition generate_key_pair_impl (module : PairCall -> MintReply (CkObjectHandle * CkObjectHandle)) (raced cancelled : bool)
    (source : option MechanismRegistry) (req : PairRequest) : Handler (MintOutcome PairResponse) :=
  prepared <- prepare_key_pair source req;;
  match prepared with
  | Err rv => answered (rv, 0, 0)
  | Ok call =>
      reply <- module_call (module call);;
      let dropped := mint_owner_drop true (mint_copy_in_the_end pair_minted reply) in
      if cancelled then ret (MkMintOutcome None dropped)
      else
      match mint_observed reply with
      | None => ret (MkMintOutcome None dropped)
      | Some (Ok (public_key, private_key)) =>
          handles <- register_session_object_pair (pr_context req) (VH (pr_session req))
            public_key (template_declares_token_object (template_view (pc_public call)))
            (template_declares_private_object (template_view (pc_public call)))
            private_key (template_declares_token_object (template_view (pc_private call)))
            (template_declares_private_object (template_view (pc_private call)));;
          match handles with
          | Some (public_handle, private_handle) => answered (Rv.OK, public_handle, private_handle)
          | None => ret (MkMintOutcome (Some (Rv.CRYPTOKI_NOT_INITIALIZED, 0, 0)) dropped)
          end
      | Some (Err error) => ret (MkMintOutcome (Some (error, 0, 0)) (settled_after_error pair_minted raced reply))
      end
  end.

(** ** [C_GenerateKey] *)

(** The encoding of an output mechanism for the wire, which can fail. *)
Context {WireMechanism : Type} (encode : CkMechanism -> CkResult WireMechanism).

Definition encode_out (t : CkMechanismType) (params : option CkMechanismParams) : CkResult (option WireMechanism) :=
  match params with
  | None => Ok None
  | Some params => let? m := encode (MkCkMechanism t (Some params)) in Ok (Some m)
  end.

Record KeyRequest := MkKeyRequest {
  kr_context : ClientContextId;
  kr_session : N;
  kr_mechanism : CkResult CkMechanism;
  kr_template : CkResult (option (list CkAttribute));
}.
Record KeyCall := MkKeyCall {
  kc_session : CkSessionHandle;
  kc_validated : ValidatedMechanismParams;
  kc_template : option (list CkAttribute);
}.
Record KeyResponse := MkKeyResponse { ks_rv : CkRv; ks_handle : N; ks_mechanism_out : option WireMechanism }.

Definition key_error (rv : CkRv) : KeyResponse := MkKeyResponse rv 0 None.

(** The gates on the template of a secret key, and the sanitizer. *)
Definition admit_secret_template (cid : ClientContextId) (virtual_session : N)
    (template : CkResult (option (list CkAttribute))) : Handler (CkResult (option (list CkAttribute))) :=
  template <-? ret template;;
  _ <-? ensure_private_mint_allowed cid virtual_session (template_view template);;
  _ <-? mint_class_gate cid virtual_session (template_view template) CKO_SECRET_KEY;;
  ret (Ok template).

Definition prepare_key (source : option MechanismRegistry) (req : KeyRequest) : Handler (CkResult KeyCall) :=
  let cid := kr_context req in
  session <-? critical (fun now => resolve_session now cid (kr_session req));;
  validated <-? admit_mechanism cid (kr_session req) session source (kr_mechanism req) General;;
  template <-? admit_secret_template cid (kr_session req) (kr_template req);;
  validated <-? ret (sanitize_mechanism_input (hc_sanitize_inputs ctx) validated);;
  ret (Ok (MkKeyCall session validated template)).

Definition key_minted (out : CkObjectHandle * option CkMechanismParams) : CkResult (list CkObjectHandle) := Ok [out.1].

Definition generate_key_impl (module : KeyCall -> MintReply (CkObjectHandle * option CkMechanismParams)) (raced cancelled : bool)
    (source : option MechanismRegistry) (req : KeyRequest) : Handler (MintOutcome KeyResponse) :=
  prepared <- prepare_key source req;;
  match prepared with
  | Err rv => answered (key_error rv)
  | Ok call =>
      reply <- module_call (module call);;
      let eventual := mint_copy_in_the_end key_minted reply in
      if cancelled then ret (MkMintOutcome None (mint_owner_drop true eventual))
      else
      match mint_observed reply with
      | None => ret (MkMintOutcome None (mint_owner_drop true eventual))
      | Some (Ok (object, mechanism_out)) =>
          let view := template_view (kc_template call) in
          key_handle <- register_session_object_handle (kr_context req) (VH (kr_session req)) object
            (template_declares_token_object view) (Some (template_declares_private_object view));;
          let armed := key_handle =? 0 in
          let answer := match encode_out (mechanism_type (vm_mechanism (kc_validated call))) mechanism_out with
                        | Ok out => MkKeyResponse Rv.OK key_handle out
                        | Err rv => key_error rv
                        end in
          ret (MkMintOutcome (Some answer) (mint_owner_drop armed eventual))
      | Some (Err error) => ret (MkMintOutcome (Some (key_error error)) (settled_after_error key_minted raced reply))
      end
  end.

(** ** [C_DeriveKey] *)

Record DeriveRequest := MkDeriveRequest {
  dr_key : KeyRequest;
  dr_base_key : N;
}.
Record DeriveCall := MkDeriveCall {
  dc_key : KeyCall;
  dc_base_key : CkObjectHandle;
}.
(** [CkDeriveKeyOutputResult] *)
Record DeriveResult := MkDeriveResult {
  dv_rv : CkRv;
  dv_key_handle : option CkObjectHandle;
  dv_mechanism_out : option CkMechanismParams;
}.

Definition prepare_derive (source : option MechanismRegistry) (req : DeriveRequest) : Handler (CkResult DeriveCall) :=
  let cid := kr_context (dr_key req) in
  let virtual_session := kr_session (dr_key req) in
  handles <-? resolve_session_and_key (hc_native ctx) (hc_token_policy ctx) cid virtual_session (dr_base_key req);;
  validated <-? admit_mechanism cid virtual_session handles.1 source (kr_mechanism (dr_key req)) General;;
  validated <-? resolve_sp800_108_key_handle_data_params (hc_native ctx) (hc_token_policy ctx) cid virtual_session handles.1 validated;;
  template <-? admit_secret_template cid virtual_session (kr_template (dr_key req));;
  validated <-? ret (sanitize_mechanism_input (hc_sanitize_inputs ctx) validated);;
  ret (Ok (MkDeriveCall (MkKeyCall handles.1 validated template) handles.2)).

(** The handles of output parameters that name new objects. *)
Definition output_handles (params : CkMechanismParams) : list CkObjectHandle :=
  match params with
  | P_Sp800108Kdf p => Sp800108DerivedKey_key_handle <$> present_items (Sp800108Kdf_additional_derived_keys_presence p)
  | P_Sp800108FeedbackKdf p => Sp800108DerivedKey_key_handle <$> present_items (Sp800108FeedbackKdf_additional_derived_keys_presence p)
  | P_Ssl3KeyMat p =>
      [Ssl3KeyMat_client_mac_secret_handle p; Ssl3KeyMat_server_mac_secret_handle p; Ssl3KeyMat_client_key_handle p;
       Ssl3KeyMat_server_key_handle p]
  | P_WtlsKeyMat p => [WtlsKeyMat_mac_secret_handle p; WtlsKeyMat_key_handle p]
  | _ => []
  end.

Definition derive_minted_handles (result : DeriveResult) : list CkObjectHandle :=
  if negb (rv_eqb (dv_rv result) Rv.OK) then []
  else option_list (dv_key_handle result) ++ match dv_mechanism_out result with Some params => output_handles params | None => [] end.

Definition derive_minted (result : DeriveResult) : CkResult (list CkObjectHandle) :=
  if rv_eqb (dv_rv result) Rv.OK then Ok (derive_minted_handles result) else Err (dv_rv result).

(** Registration of one output handle; zero stays. *)
Definition virtualize_handle (cid : ClientContextId) (session : VirtualHandle) (is_token : bool) (h : CkObjectHandle)
  : Handler CkObjectHandle :=
  if object_raw h =? 0 then ret h
  else v <- register_session_object_handle cid session h is_token (Some true);; ret (MkObject v).

Fixpoint virtualize_derived_key_handles (cid : ClientContextId) (session : VirtualHandle) (keys : list Sp800108DerivedKey)
  : Handler (list Sp800108DerivedKey) :=
  match keys with
  | [] => ret []
  | key :: keys =>
      h <- virtualize_handle cid session (template_declares_token_object (present_items (Sp800108DerivedKey_template_presence key)))
             (Sp800108DerivedKey_key_handle key);;
      keys <- virtualize_derived_key_handles cid session keys;;
      ret ((key <| Sp800108DerivedKey_key_handle := h |>) :: keys)
  end.

Definition virtualize_keys (cid : ClientContextId) (session : VirtualHandle) (keys : PointerArray Sp800108DerivedKey)
  : Handler (PointerArray Sp800108DerivedKey) :=
  match keys with
  | PaNull n => ret (PaNull n)
  | PaPresent items => items <- virtualize_derived_key_handles cid session items;; ret (PaPresent items)
  end.

Definition virtualize_sp800_108_additional_handles (cid : ClientContextId) (session : VirtualHandle) (params : CkMechanismParams)
  : Handler CkMechanismParams :=
  match params with
  | P_Sp800108Kdf p =>
      keys <- virtualize_keys cid session (Sp800108Kdf_additional_derived_keys_presence p);;
      ret (P_Sp800108Kdf (MkSp800108KdfParams (Sp800108Kdf_prf_type p) (Sp800108Kdf_data_params_presence p) keys))
  | P_Sp800108FeedbackKdf p =>
      keys <- virtualize_keys cid session (Sp800108FeedbackKdf_additional_derived_keys_presence p);;
      ret (P_Sp800108FeedbackKdf (MkSp800108FeedbackKdfParams (Sp800108FeedbackKdf_prf_type p)
             (Sp800108FeedbackKdf_data_params_presence p) (Sp800108FeedbackKdf_iv_presence p) keys))
  | _ => ret params
  end.

Definition virtualize_key_mat_out_handles (cid : ClientContextId) (session : VirtualHandle) (is_token : bool) (params : CkMechanismParams)
  : Handler CkMechanismParams :=
  match params with
  | P_Ssl3KeyMat p =>
      h1 <- virtualize_handle cid session is_token (Ssl3KeyMat_client_mac_secret_handle p);;
      h2 <- virtualize_handle cid session is_token (Ssl3KeyMat_server_mac_secret_handle p);;
      h3 <- virtualize_handle cid session is_token (Ssl3KeyMat_client_key_handle p);;
      h4 <- virtualize_handle cid session is_token (Ssl3KeyMat_server_key_handle p);;
      ret (P_Ssl3KeyMat (p <| Ssl3KeyMat_client_mac_secret_handle := h1 |> <| Ssl3KeyMat_server_mac_secret_handle := h2 |>
             <| Ssl3KeyMat_client_key_handle := h3 |> <| Ssl3KeyMat_server_key_handle := h4 |>))
  | P_WtlsKeyMat p =>
      h1 <- virtualize_handle cid session is_token (WtlsKeyMat_mac_secret_handle p);;
      h2 <- virtualize_handle cid session is_token (WtlsKeyMat_key_handle p);;
      ret (P_WtlsKeyMat (p <| WtlsKeyMat_mac_secret_handle := h1 |> <| WtlsKeyMat_key_handle := h2 |>))
  | _ => ret params
  end.

(** Registration of what a successful derivation minted: the primary handle,
    0 if there is none, and the output parameters. *)
Definition adopt_derived (cid : ClientContextId) (session : VirtualHandle) (template : list CkAttribute) (result : DeriveResult)
  : Handler (N * option CkMechanismParams) :=
  let is_token := template_declares_token_object template in
  key_handle <- match dv_key_handle result with
                | Some object =>
                    register_session_object_handle cid session object is_token (Some (template_declares_private_object template))
                | None => ret 0
                end;;
  out <- match dv_mechanism_out result with
         | Some params =>
             params <- virtualize_sp800_108_additional_handles cid session params;;
             params <- virtualize_key_mat_out_handles cid session is_token params;;
             ret (Some params)
         | None => ret None
         end;;
  ret (key_handle, out).

Definition derive_key_impl (module : DeriveCall -> MintReply DeriveResult) (raced cancelled : bool)
    (source : option MechanismRegistry) (req : DeriveRequest) : Handler (MintOutcome KeyResponse) :=
  prepared <- prepare_derive source req;;
  match prepared with
  | Err rv => answered (key_error rv)
  | Ok call =>
      reply <- module_call (module call);;
      let eventual := mint_copy_in_the_end derive_minted reply in
      if cancelled then ret (MkMintOutcome None (mint_owner_drop true eventual))
      else
      match mint_observed reply with
      | None => ret (MkMintOutcome None (mint_owner_drop true eventual))
      | Some (Ok result) =>
          let ok := rv_eqb (dv_rv result) Rv.OK in
          adopted <- (if ok then adopt_derived (kr_context (dr_key req)) (VH (kr_session (dr_key req)))
                                   (template_view (kc_template (dc_key call))) result
                      else ret (0, dv_mechanism_out result));;
          let armed := ok && negb (bool_decide (dv_key_handle result = None) || negb (adopted.1 =? 0)) in
          let answer := match encode_out (mechanism_type (vm_mechanism (kc_validated (dc_key call)))) adopted.2 with
                        | Ok out => MkKeyResponse (dv_rv result) adopted.1 out
                        | Err rv => key_error rv
                        end in
          ret (MkMintOutcome (Some answer) (mint_owner_drop armed eventual))
      | Some (Err error) => ret (MkMintOutcome (Some (key_error error)) (settled_after_error derive_minted raced reply))
      end
  end.

(** [audit_key_mgmt!]: an answer whose record the sink refuses is replaced; a
    transport [Status] is not recorded.  [emitted]: the sink accepts the record,
    or there is none. *)
Definition audit_key_mgmt {R} (emitted : KeyEvent -> bool) (method : string) (cid : ClientContextId) (session : N) (ck_rv : R -> CkRv)
    (fail_response : R) (outcome : MintOutcome R) : Audited (MintOutcome R) :=
  match mo_answer outcome with
  | Some response =>
      let event := MkKeyEvent method cid session (ck_rv response) in
      MkAudited (if emitted event then outcome else MkMintOutcome (Some fail_response) (mo_settled outcome)) [event]
  | None => MkAudited outcome []
  end.

(** The dispatchers. *)
Definition generate_key_pair (emitted : KeyEvent -> bool) module raced cancelled source req : Handler (Audited (MintOutcome PairResponse)) :=
  outcome <- generate_key_pair_impl module raced cancelled source req;;
  ret (audit_key_mgmt emitted "C_GenerateKeyPair" (pr_context req) (pr_session req) (fun a => a.1.1) (Rv.FUNCTION_FAILED, 0, 0) outcome).
Definition generate_key (emitted : KeyEvent -> bool) module raced cancelled source req : Handler (Audited (MintOutcome KeyResponse)) :=
  outcome <- generate_key_impl module raced cancelled source req;;
  ret (audit_key_mgmt emitted "C_GenerateKey" (kr_context req) (kr_session req) ks_rv (key_error Rv.FUNCTION_FAILED) outcome).
Definition derive_key (emitted : KeyEvent -> bool) module raced cancelled source req : Handler (Audited (MintOutcome KeyResponse)) :=
  outcome <- derive_key_impl module raced cancelled source req;;
  ret (audit_key_mgmt emitted "C_DeriveKey" (kr_context (dr_key req)) (kr_session (dr_key req)) ks_rv (key_error Rv.FUNCTION_FAILED) outcome).
End handlers.
Arguments MkKeyResponse {WireMechanism} ks_rv ks_handle ks_mechanism_out.
Arguments ks_rv {WireMechanism} k.
Arguments ks_handle {WireMechanism} k.
Arguments ks_mechanism_out {WireMechanism} k.
