(* ===== verification/KeyGenProps.v ===== *)
(** * Key generation and derivation: properties

    [derive_admission]: what a derivation sends to the module.
    [minted_keys_owned_once]: a key the module makes is registered, or handed to
    the detached settlement and named by no answer, however the call ends. *)

From S2P Require Import Prelude Ck Width HandleMap SlotMap Connection Context Manager Session Mech Grant Policy Handler Authorize.
From S2P Require Import AuthorizeProps Shapes ShapeProps Registry Params Validate Embedded EmbeddedProps KeyGen.
Open Scope N_scope.

(** ** Runs that succeed *)

Lemma bind_result_ok {A B} (h : Handler (CkResult A)) (k : A -> Handler (CkResult B)) env w b w' :
  bind_result h k env w = (Ok b, w') -> exists a w1, h env w = (Ok a, w1) /\ k a env w1 = (Ok b, w').
Proof. unfold bind_result, bind. destruct (h env w) as [[a|rv] w1]; [eauto|done]. Qed.

(** Takes a successful run apart, one step. *)
Ltac run_step H x w :=
  let Hx := fresh "H" x in
  first [ apply bind_result_ok in H as (x & w & Hx & H) | apply bind_ok in H as (x & w & Hx & H) ];
  try (apply ret_ok in Hx as [Hx ->]).

Section admission.
Context (ctx : HandlerContext) (env : Env) (cid : ClientContextId) (vs : N).

(** The caller's map, as a critical section at [w] sees it, gives [session] for
    the virtual session. *)
Definition own_session (w : World) (session : CkSessionHandle) : Prop :=
  exists c b, context_at env cid w = Some c /\ HandleMap_resolve (VH vs) (session_handles c) = Some b /\ session = MkSession (bh_raw b).

(** Likewise for an object, or the handle is 0. *)
Definition own_object (w : World) (v : N) (object : CkObjectHandle) : Prop :=
  object_raw object = 0 \/
  exists c b, context_at env cid w = Some c /\ HandleMap_resolve (VH v) (object_handles c) = Some b /\ object = MkObject (bh_raw b).

Lemma critical_context {R} (f : LogicalClientInstance -> R) w :
  (forall now c, f (LogicalClientInstance_touch now c) = f c) ->
  (critical (fun now => get_context now cid (fun c => (f c, c))) env w).1 = f <$> context_at env cid w.
Proof.
  intros Hf. unfold critical, get_context, context_at. destruct (contexts _ !! cid) as [c|]; [|done]. cbn. by rewrite Hf.
Qed.

Lemma resolve_session_own w session w' :
  critical (fun now => resolve_session now cid vs) env w = (Ok session, w') -> own_session w session.
Proof.
  unfold critical, resolve_session, get_context, own_session, context_at. destruct (contexts _ !! cid) as [c|]; [|done]. cbn.
  destruct (HandleMap_resolve _ _) as [b|] eqn:Eb; [|by destruct (HandleMap_suspended_backend _ _)]. intros [= <- _]. eauto.
Qed.

Lemma policy_gate_cases v bs object w :
  (policy_gate (hc_native ctx) (hc_token_policy ctx) cid vs v bs object env w).1 = MkObject 0 \/
  (policy_gate (hc_native ctx) (hc_token_policy ctx) cid vs v bs object env w).1 = object.
Proof.
  unfold policy_gate. destruct (_ && _); [|by right]. destruct bs as [bs], object as [b]. apply gate_cases.
Qed.

Lemma gated_own v bs key w w0 k w1 :
  policy_gate (hc_native ctx) (hc_token_policy ctx) cid vs v bs (forwarded key) env w0 = (k, w1) ->
  (forall b, key = Some b -> exists c, context_at env cid w = Some c /\ HandleMap_resolve (VH v) (object_handles c) = Some b) ->
  own_object w v k.
Proof.
  intros Hg Hk. destruct (policy_gate_cases v bs (forwarded key) w0) as [H|H]; rewrite Hg in H; cbn in H; subst k; [by left|].
  destruct key as [b|]; [|by left]. right. destruct (Hk b eq_refl) as (c & Hc & Hb). by exists c, b.
Qed.

(** What a resolution gives is the caller's own. *)
Lemma resolve_handle_own v stale w hs w' :
  resolve_session_and_handle (hc_native ctx) (hc_token_policy ctx) cid vs v stale env w = (Ok hs, w') ->
  own_session w hs.1 /\ own_object w v hs.2.
Proof.
  unfold resolve_session_and_handle. intros H. apply bind_ok in H as (r & w1 & Hr & H).
  apply (f_equal fst) in Hr. rewrite critical_context in Hr by done. destruct (context_at env cid w) as [c|] eqn:Ec; cbn in Hr; subst r; [|done].
  destruct (session_verdict _ _) as [bs|] eqn:Es; [|done]. destruct (_ && _); [done|].
  run_step H authn w2. run_step H k w3. apply ret_ok in H as [[= <-] _]. split.
  - exists c, bs. split_and!; [done| |done]. unfold session_verdict in Es.
    destruct (HandleMap_resolve (VH vs) _); [congruence|]. by destruct (HandleMap_suspended_backend _ _).
  - eapply gated_own; [exact Hk|eauto].
Qed.

Lemma resolve_two_own v1 v2 w hs w' :
  resolve_session_and_two_objects (hc_native ctx) (hc_token_policy ctx) cid vs v1 v2 env w = (Ok hs, w') ->
  own_session w hs.1.1 /\ own_object w v1 hs.1.2 /\ own_object w v2 hs.2.
Proof.
  unfold resolve_session_and_two_objects. intros H. apply bind_ok in H as (r & w1 & Hr & H).
  apply (f_equal fst) in Hr. rewrite critical_context in Hr by done. destruct (context_at env cid w) as [c|] eqn:Ec; cbn in Hr; subst r; [|done].
  destruct (session_verdict _ _) as [bs|] eqn:Es; [|done]. destruct (_ && _); [done|]. destruct (_ && _); [done|].
  run_step H a1 w2. run_step H a2 w3. run_step H k1 w4. run_step H k2 w5.
  apply ret_ok in H as [[= <-] _]. split_and!; [|eapply gated_own; [exact Hk1|eauto]|eapply gated_own; [exact Hk2|eauto]].
  exists c, bs. split_and!; [done| |done]. unfold session_verdict in Es.
  destruct (HandleMap_resolve (VH vs) _); [congruence|]. by destruct (HandleMap_suspended_backend _ _).
Qed.

Definition abis : ParamAbi * ParamAbi := daemon_validation_abis (hc_abi ctx) (hc_ulong_size ctx).

(** [mech'] is [mech] with the handles of a critical section at [w]. *)
Definition owned_handles (w : World) (mech mech' : CkMechanism) : Prop :=
  Forall (fun h => object_raw h = 0) (embedded_handles mech) /\ embedded_handles mech' = embedded_handles mech \/
  exists c, context_at env cid w = Some c /\ Forall2 (named c) (embedded_handles mech) (embedded_handles mech').

Lemma filter_nil_zero (hs : list CkObjectHandle) : filter (.≠ 0) (object_raw <$> hs) = [] -> Forall (fun h => object_raw h = 0) hs.
Proof.
  induction hs as [|h hs IH]; [done|]. rewrite fmap_cons, filter_cons. destruct (decide (object_raw h ≠ 0)) as [|Hn]; [done|].
  intros H. constructor; [by apply dec_stable|auto].
Qed.

Lemma remap_owned session v v' w w' :
  remap_mechanism_handles (hc_native ctx) (hc_token_policy ctx) cid vs session v env w = (Ok v', w') ->
  v' = v <| vm_mechanism := vm_mechanism v' |> /\
  normalized_for_handle_compare (vm_mechanism v') = normalized_for_handle_compare (vm_mechanism v) /\
  owned_handles w (vm_mechanism v) (vm_mechanism v') /\
  (embedded_handles (vm_mechanism v) = [] -> v' = v).
Proof.
  intros H. pose proof (remap_run (hc_native ctx) (hc_token_policy ctx) env cid vs session v w) as Hr. cbv zeta in Hr.
  rewrite H in Hr. cbn [fst snd] in Hr. destruct Hr as (H1 & H2 & H3). split_and!; [done|done| |].
  - destruct (decide _) as [Hz|_].
    + left. destruct H3 as [-> _]. split; [by apply filter_nil_zero|done].
    + right. destruct H3 as (c & Hc & Hf & _). eauto.
  - intros He. rewrite He in H3. cbn in H3. by destruct H3.
Qed.

(** Each nonzero handle of [mech] passed the login gate and, under a policy, the
    object gate, one after another from the read of the caller's map at [w]. *)
Definition gated_handles (session : N) (w : World) (mech : CkMechanism) (w' : World) : Prop :=
  let handles := filter (.≠ 0) (object_raw <$> embedded_handles mech) in
  handles = [] \/
  exists c, context_at env cid w = Some c /\
    admitted (hc_native ctx) (hc_token_policy ctx) env cid vs session (after_read env cid w) (held c handles) w'.

(** An admitted mechanism. *)
Lemma admit_gated session source mechanism operation v w w' :
  admit_mechanism ctx cid vs (MkSession session) source mechanism operation env w = (Ok v, w') ->
  exists mech w1, mechanism = Ok mech /\ mechanism_permitted (hc_token_policy ctx) cid vs (mechanism_type mech) env w = (true, w1) /\
    gated_handles session w1 mech w'.
Proof.
  unfold admit_mechanism. intros H. run_step H registry w1. run_step H mech w2. run_step H u w3. run_step H permitted w4.
  destruct permitted; [|done]. cbn [negb] in H. run_step H v0 w5.
  assert (vm_mechanism v0 = mech) as <-.
  { unfold validate_mechanism_transport in Hv0. destruct (bool_decide _ && is_flat mech); [done|].
    pose proof (validate_case (hc_can_reserve ctx) mech registry operation abis.1 abis.2) as Hc. fold abis in Hv0. rewrite Hv0 in Hc.
    by destruct Hc as (grant & _ & ->). }
  pose proof (remap_run (hc_native ctx) (hc_token_policy ctx) env cid vs session v0 w4) as Hr. cbv zeta in Hr.
  cbn [session_raw] in H. rewrite H in Hr. cbn [fst snd] in Hr. destruct Hr as (_ & _ & H3). exists (vm_mechanism v0), w4. split_and!; [done..|].
  unfold gated_handles. destruct (decide _) as [Hz|_]; [by left|right]. destruct H3 as (c & ? & _ & ?). eauto.
Qed.

Lemma admit_run session source mechanism operation v w w' :
  admit_mechanism ctx cid vs session source mechanism operation env w = (Ok v, w') ->
  exists registry mech grant w1,
    source = Some registry /\ mechanism = Ok mech /\
    acceptable (hc_can_reserve ctx) mech registry operation abis.1 abis.2 grant /\
    mechanism_permitted (hc_token_policy ctx) cid vs (mechanism_type mech) env w = (true, w1) /\
    v = MkValidated (vm_mechanism v) grant registry abis.1 abis.2 /\
    normalized_for_handle_compare (vm_mechanism v) = normalized_for_handle_compare mech /\
    owned_handles w1 mech (vm_mechanism v) /\
    (embedded_handles mech = [] -> vm_mechanism v = mech).
Proof.
  unfold admit_mechanism. intros H. run_step H registry w1. run_step H mech w2. run_step H u w3. run_step H permitted w4.
  destruct permitted; [|done]. cbn [negb] in H. fold abis in H. run_step H v0 w5.
  assert (validate (hc_can_reserve ctx) mech registry operation abis.1 abis.2 = Ok v0) as Hval.
  { unfold validate_mechanism_transport in Hv0. by destruct (bool_decide _ && is_flat mech). }
  pose proof (validate_case (hc_can_reserve ctx) mech registry operation abis.1 abis.2) as Hc. rewrite Hval in Hc.
  destruct Hc as (grant & Hacc & ->). apply remap_owned in H as (H1 & H2 & H3 & H4). cbn [vm_mechanism] in *.
  exists registry, mech, grant, w4. split_and!; try done; [by destruct source; simplify_eq/=|]. intros He. by rewrite (H4 He).
Qed.
End admission.

Section derive.
Context (ctx : HandlerContext) (env : Env).

(** The key-handle slots of [mech], replaced in a pass from [w]. *)
Definition owned_slots (cid : ClientContextId) (vs session : N) (w : World) (mech mech' : CkMechanism) : Prop :=
  match mechanism_params mech ≫= sp800_108_data_params with
  | None => True
  | Some data_params =>
      exists ds' w', slots_replaced (hc_native ctx) (hc_token_policy ctx) env cid vs session w (present_items data_params) ds' w' /\
        mechanism_params mech' = with_sp800_108_data_params (fun _ => ds') <$> mechanism_params mech
  end.

Lemma resolver_owned cid vs session v v' w w' :
  resolve_sp800_108_key_handle_data_params (hc_native ctx) (hc_token_policy ctx) cid vs session v env w = (Ok v', w') ->
  v' = v <| vm_mechanism := vm_mechanism v' |> /\
  normalized_for_handle_compare (vm_mechanism v') = normalized_for_handle_compare (vm_mechanism v) /\
  embedded_handles (vm_mechanism v') = embedded_handles (vm_mechanism v) /\
  owned_slots cid vs (session_raw session) w (vm_mechanism v) (vm_mechanism v').
Proof.
  intros H. destruct session as [session].
  pose proof (resolver_run (hc_native ctx) (hc_token_policy ctx) env cid vs session v w) as Hr. cbv zeta in Hr.
  rewrite H in Hr. cbn [fst snd] in Hr. destruct Hr as (H1 & H2 & H3). unfold owned_slots. cbn [session_raw].
  destruct (mechanism_params (vm_mechanism v) ≫= sp800_108_data_params) as [data|] eqn:Ed.
  2: { destruct H3 as [-> _]. by split_and!. }
  destruct H3 as (ds' & Hs & Hm). split_and!; [done|done| |by exists ds', w'].
  destruct (vm_mechanism v) as [t [params|]], (vm_mechanism v') as [t' params']; [|done]. cbn in Ed, Hm. subst params'.
  rewrite !embedded_eq. by destruct params.
Qed.

Lemma normalized_type mech mech' :
  normalized_for_handle_compare mech' = normalized_for_handle_compare mech -> mechanism_type mech' = mechanism_type mech.
Proof. destruct mech as [t [p|]], mech' as [t' [p'|]]; intros [=]; done. Qed.

(** C13: What [C_DeriveKey] sends to the module.  The session is the one the
    caller's own map gave; the base key is 0, or the one the map gave and, under
    an object or class policy, permitted by it (as found while the handle was
    resolved).  The mechanism is acceptable to transport validation under the
    snapshot, was permitted by the policy right after the handles were resolved,
    and is clean under the sanitizer when it is on; it equals the request's but
    for object handles, each of which the caller's own map gave and which passed
    the login gate and, under a policy, the object gate.  The key-handle slots of
    SP 800-108 parameters of the mechanism itself are replaced likewise; those of
    a mechanism nested in its parameters are neither replaced nor checked. *)
Theorem derive_admission source req call w w' :
  prepare_derive ctx source req env w = (Ok call, w') ->
  let cid := kr_context (dr_key req) in
  let vs := kr_session (dr_key req) in
  let session := kc_session (dc_key call) in
  let sent := kc_validated (dc_key call) in
  own_session env cid vs w session /\
  exists registry mech grant w1 w2 v w3,
    source = Some registry /\ kr_mechanism (dr_key req) = Ok mech /\
    resolve_session_and_key (hc_native ctx) (hc_token_policy ctx) cid vs (dr_base_key req) env w = (Ok (session, dc_base_key call), w1) /\
    object_admitted (hc_native ctx) env (hc_token_policy ctx) cid vs (dr_base_key req) session (dc_base_key call) w w1 /\
    acceptable (hc_can_reserve ctx) mech registry General (abis ctx).1 (abis ctx).2 grant /\
    sent = MkValidated (vm_mechanism sent) grant registry (abis ctx).1 (abis ctx).2 /\
    mechanism_type (vm_mechanism sent) = mechanism_type mech /\
    normalized_for_handle_compare (vm_mechanism sent) = normalized_for_handle_compare mech /\
    check_classic_sanitize_policy (hc_sanitize_inputs ctx) sent = Ok tt /\
    mechanism_permitted (hc_token_policy ctx) cid vs (mechanism_type mech) env w1 = (true, w2) /\
    owned_handles env cid w2 mech (vm_mechanism sent) /\
    gated_handles ctx env cid vs (session_raw session) w2 mech w3 /\
    admit_mechanism ctx cid vs session source (Ok mech) General env w1 = (Ok v, w3) /\
    owned_slots cid vs (session_raw session) w3 mech (vm_mechanism sent).
Proof.
  cbv zeta. unfold prepare_derive. intros H. run_step H hs w1. run_step H v1 w2. run_step H v2 w3. run_step H template w4.
  run_step H v3 w5. apply ret_ok in H as [[= <-] ->]. cbn [dc_key kc_validated kc_session dc_base_key].
  unfold sanitize_mechanism_input in Hv3. destruct (check_classic_sanitize_policy _ v2) as [[]|] eqn:Es; [|done]. injection Hv3 as <-.
  pose proof (resolve_handle_own _ _ _ _ _ _ _ _ _ Hhs) as [Hos _]. split; [done|]. destruct hs as [[session] base]. cbn [fst snd] in *.
  pose proof (resolve_handle_run _ _ _ _ _ _ _ _ _ _ _ Hhs) as Hadmitted. pose proof Hv1 as Hadm.
  apply admit_gated in Hv1 as (mech' & wa' & Hmech' & Hperm' & Hgated). pose proof Hadm as Hv1.
  apply admit_run in Hv1 as (registry & mech & grant & wa & Hsrc & Hmech & Hacc & Hperm & Hv1 & Hn1 & Hown & Hsame).
  rewrite Hmech in Hmech'. injection Hmech' as <-. rewrite Hperm in Hperm'. injection Hperm' as <-.
  apply resolver_owned in Hv2 as (Hv2 & Hn2 & He2 & Hslots). rewrite Hmech in Hadm.
  exists registry, mech, grant, w1, wa, v1, w2. split_and!; try done.
  - rewrite Hv2, Hv1. done.
  - apply normalized_type. congruence.
  - congruence.
  - unfold owned_handles. by rewrite He2.
  - unfold owned_slots in *. destruct (mechanism_params mech ≫= sp800_108_data_params) as [data|] eqn:Ed; [|done].
    rewrite Hsame, Ed in Hslots; [done|]. destruct mech as [t [params|]]; [|done]. rewrite embedded_eq. by destruct params.
Qed.
End derive.

(** ** Minted objects *)

Section owner.
Context {T : Type} (extract : T -> CkResult (list CkObjectHandle)).

(** The handles of the objects a call makes, in time or late. *)
Definition minted_by (reply : MintReply T) : list CkObjectHandle :=
  match reply with
  | MintDone (Ok outcome) | MintTimedOut (Some (Ok outcome)) =>
      match extract outcome with Ok handles => late_minted handles | Err _ => [] end
  | _ => []
  end.

(** An owner that is still armed hands what the call makes to the settlement. *)
Lemma drop_minted reply : mint_owner_drop true (mint_copy_in_the_end extract reply) = minted_by reply.
Proof. destruct reply as [[o|]|[[o|]|]| |]; cbn; try done; by destruct (extract o). Qed.

(** So does the error arm, whether or not the worker raced the timeout. *)
Lemma settled_minted raced reply rv :
  mint_observed reply = Some (Err rv) -> settled_after_error extract raced reply = minted_by reply.
Proof.
  unfold settled_after_error. destruct reply as [[o|]|[[o|]|]| |]; cbn; try done; destruct raced; cbn; try done.
  all: by destruct (extract o); cbn; rewrite ?app_nil_r.
Qed.
End owner.

(** [c] names [object] as [v]. *)
Definition names_object (c : LogicalClientInstance) (v : N) (object : CkObjectHandle) : Prop :=
  HandleMap_resolve_backend (BH (object_raw object)) (object_handles c) = Some (VH v).

(** The caller's context names [object] as [v] in [w]. *)
Definition registered (cid : ClientContextId) (w : World) (v : N) (object : CkObjectHandle) : Prop :=
  exists c, contexts (w_mgr w) !! cid = Some c /\ names_object c v object.

Lemma insert_names b m : backend_to_virtual (HandleMap_insert b m).2 !! b = Some (HandleMap_insert b m).1.
Proof. unfold HandleMap_insert. destruct (backend_to_virtual m !! b) eqn:E; [done|]. cbn. by rewrite lookup_insert_eq. Qed.

Lemma insert_keeps b b' v m : backend_to_virtual m !! b = Some v -> backend_to_virtual (HandleMap_insert b' m).2 !! b = Some v.
Proof.
  intros H. unfold HandleMap_insert. destruct (backend_to_virtual m !! b') eqn:E; [done|]. cbn.
  rewrite lookup_insert_ne; [done|]. intros ->. congruence.
Qed.

Lemma mint_object_names session object tok priv c :
  names_object (mint_object session object tok priv c).2 (mint_object session object tok priv c).1 object.
Proof.
  unfold mint_object, names_object, HandleMap_resolve_backend. pose proof (insert_names (BH (object_raw object)) (object_handles c)) as H.
  destruct (HandleMap_insert _ _) as [[v] hs]. cbn [fst snd] in H. destruct tok, priv; exact H.
Qed.

Section mint.
Context (ctx : HandlerContext) (env : Env) {WireMechanism : Type} (encode : CkMechanism -> CkResult WireMechanism).

Lemma register_cases cid session object tok priv w v w' :
  register_session_object_handle cid session object tok priv env w = (v, w') -> v = 0 \/ registered cid w' v object.
Proof.
  unfold register_session_object_handle, bind, critical, get_context, ret.
  destruct (contexts _ !! cid) as [c|]; [|intros [= <- <-]; by left].
  match goal with |- context [mint_object ?s ?o ?t ?p ?c0] =>
    pose proof (mint_object_names s o t p c0) as Hn; destruct (mint_object s o t p c0) as [v0 c1] end.
  intros [= <- <-]. right. exists c1. cbn. by rewrite lookup_insert_eq.
Qed.

Lemma register_pair_cases cid session k1 t1 p1 k2 t2 p2 w r w' :
  register_session_object_pair cid session k1 t1 p1 k2 t2 p2 env w = (r, w') ->
  match r with Some (v1, v2) => registered cid w' v1 k1 /\ registered cid w' v2 k2 | None => True end.
Proof.
  unfold register_session_object_pair, critical, get_context.
  destruct (contexts _ !! cid) as [c|]; [|by intros [= <- <-]].
  set (c0 := LogicalClientInstance_touch _ c).
  pose proof (insert_names (BH (object_raw k1)) (object_handles c0)) as H1.
  destruct (HandleMap_insert (BH (object_raw k1)) (object_handles c0)) as [[v1] m1]. cbn [fst snd] in H1.
  pose proof (insert_names (BH (object_raw k2)) m1) as H2. pose proof (insert_keeps _ (BH (object_raw k2)) _ _ H1) as H3.
  destruct (HandleMap_insert (BH (object_raw k2)) m1) as [[v2] m2]. cbn [fst snd] in H2, H3. intros [= <- <-].
  split; eexists; cbn; (split; [apply lookup_insert_eq|]); unfold names_object, HandleMap_resolve_backend; destruct t1, t2; done.
Qed.

(** However the call ends, what it makes is the caller's or is handed over. *)
Definition owned_or_handed {R} (o : MintOutcome R) (minted : list CkObjectHandle) (adopted names_nothing : Prop) : Prop :=
  mo_settled o = [] /\ adopted \/ mo_settled o = minted /\ names_nothing.

Lemma key_pair_owned module raced cancelled source req o w w' :
  generate_key_pair_impl ctx module raced cancelled source req env w = (o, w') ->
  match prepare_key_pair ctx source req env w with
  | (Err rv, w1) => o = MkMintOutcome (Some (rv, 0, 0)) [] /\ w' = w1
  | (Ok call, _) =>
      owned_or_handed o (minted_by pair_minted (module call))
        (exists k1 k2 v1 v2, module call = MintDone (Ok (k1, k2)) /\ mo_answer o = Some (Rv.OK, v1, v2) /\
           registered (pr_context req) w' v1 k1 /\ registered (pr_context req) w' v2 k2)
        (forall rv v1 v2, mo_answer o = Some (rv, v1, v2) -> v1 = 0 /\ v2 = 0)
  end.
Proof.
  unfold generate_key_pair_impl, bind at 1.
  destruct (prepare_key_pair ctx source req env w) as [[call|rv] w1]; [|by intros [= <- <-]].
  unfold bind at 1, module_call. rewrite drop_minted. unfold owned_or_handed.
  destruct cancelled; [intros [= <- <-]; by right|].
  destruct (mint_observed (module call)) as [[[k1 k2]|rv]|] eqn:Eo; [| |intros [= <- <-]; by right].
  - unfold bind. destruct (register_session_object_pair _ _ _ _ _ _ _ _ env _) as [[[v1 v2]|] w3] eqn:Er.
    + intros [= <- <-]. apply register_pair_cases in Er as [? ?]. left. split; [done|]. exists k1, k2, v1, v2.
      split_and!; try done. destruct (module call) as [| | |]; cbn in Eo; congruence.
    + intros [= <- <-]. right. split; [done|]. by intros rv' v1 v2 [= <- <- <-].
  - rewrite (settled_minted _ _ _ _ Eo). intros [= <- <-]. right. split; [done|]. by intros rv' v1 v2 [= <- <- <-].
Qed.

Lemma key_owned module raced cancelled source req o w w' :
  generate_key_impl ctx encode module raced cancelled source req env w = (o, w') ->
  match prepare_key ctx source req env w with
  | (Err rv, w1) => o = MkMintOutcome (Some (key_error rv)) [] /\ w' = w1
  | (Ok call, _) =>
      owned_or_handed o (minted_by key_minted (module call))
        (exists k out v, module call = MintDone (Ok (k, out)) /\ v <> 0 /\ registered (kr_context req) w' v k /\
           mo_answer o = Some match encode_out encode (mechanism_type (vm_mechanism (kc_validated call))) out with
                              | Ok wire => MkKeyResponse Rv.OK v wire
                              | Err rv => key_error rv
                              end)
        (forall a, mo_answer o = Some a -> ks_handle a = 0)
  end.
Proof.
  unfold generate_key_impl, bind at 1.
  destruct (prepare_key ctx source req env w) as [[call|rv] w1]; [|by intros [= <- <-]].
  unfold bind at 1, module_call. rewrite drop_minted. unfold owned_or_handed.
  destruct cancelled; [intros [= <- <-]; by right|].
  destruct (mint_observed (module call)) as [[[k out]|rv]|] eqn:Eo; [| |intros [= <- <-]; by right].
  - unfold bind. destruct (register_session_object_handle _ _ _ _ _ env _) as [v w3] eqn:Er. apply register_cases in Er.
    intros [= <- <-]. destruct (N.eqb_spec v 0) as [->|Hv].
    + right. rewrite drop_minted. split; [done|]. cbn. intros a [= <-]. by destruct (encode_out _ _ _).
    + left. split; [done|]. destruct Er as [|Er]; [done|]. exists k, out, v. split_and!; [|done|done|].
      * destruct (module call) as [| | |]; cbn in Eo; congruence.
      * done.
  - rewrite (settled_minted _ _ _ _ Eo). intros [= <- <-]. right. split; [done|]. by intros a [= <-].
Qed.

(** ** The settlement *)

Lemma late_minted_app kept handles : NoDup kept -> Forall (fun h => object_raw h <> 0) kept ->
  let all := foldl (fun kept handle =>
    if negb (object_raw handle =? 0) && negb (bool_decide (handle ∈ kept)) then kept ++ [handle] else kept) kept handles in
  NoDup all /\ Forall (fun h => object_raw h <> 0) all /\ forall h, h ∈ all <-> h ∈ kept \/ h ∈ handles /\ object_raw h <> 0.
Proof.
  revert kept. induction handles as [|x handles IH]; intros kept Hd Hz; cbn; [split_and!; try done; set_solver|].
  destruct (N.eqb_spec (object_raw x) 0) as [E|E]; cbn [negb andb].
  { destruct (IH kept Hd Hz) as (H1 & H2 & H3). split_and!; [done..|]. intros h. rewrite H3. set_solver. }
  destruct (bool_decide_reflect (x ∈ kept)) as [Hx|Hx]; cbn [negb].
  { destruct (IH kept Hd Hz) as (H1 & H2 & H3). split_and!; [done..|]. intros h. rewrite H3. set_solver. }
  destruct (IH (kept ++ [x])) as (H1 & H2 & H3).
  - apply NoDup_app. split_and!; [done|set_solver|apply NoDup_singleton].
  - apply Forall_app. split; [done|by constructor].
  - split_and!; [done..|]. intros h. rewrite H3. set_solver.
Qed.

(** Every nonzero handle of the call, once. *)
Lemma late_minted_once handles :
  NoDup (late_minted handles) /\ forall h, h ∈ late_minted handles <-> h ∈ handles /\ object_raw h <> 0.
Proof.
  destruct (late_minted_app [] handles) as (H1 & _ & H3); [constructor..|]. split; [done|]. intros h. rewrite (H3 h). set_solver.
Qed.

(** The replies to a list of calls, in order. *)
Fixpoint replies (destroy : DestroyReplies) (made calls : list BoundDestroy) : list (option (CkResult unit)) :=
  match calls with [] => [] | c :: calls => destroy made c :: replies destroy (made ++ [c]) calls end.

(** The first error among replies. *)
Definition first_error (rs : list (option (CkResult unit))) : CkResult unit :=
  match head (omap (fun r => match r with Some (Err rv) => Some rv | _ => None end) rs) with Some rv => Err rv | None => Ok tt end.

Lemma settle_each_exact destroy session incarnation todo made e :
  (forall made c, destroy made c <> None) ->
  let calls := (fun hl : CkObjectHandle * option N => MkBoundDestroy session hl.1 incarnation hl.2) <$> todo in
  settle_each destroy session incarnation made e todo =
    (made ++ calls, Some match e with Some rv => Err rv | None => first_error (replies destroy made calls) end).
Proof.
  intros Hd. cbv zeta. revert made e. induction todo as [|[h l] todo IH]; intros made e; cbn.
  { rewrite app_nil_r. by destruct e. }
  destruct (destroy made _) as [[u|rv]|] eqn:E; [..|by destruct (Hd made (MkBoundDestroy session h incarnation l))];
    rewrite IH, <- app_assoc; destruct e; cbn; unfold first_error; cbn; by rewrite ?E.
Qed.

Lemma zip_fmap_r {A B} (f : A -> B) l : zip l (f <$> l) = (fun x => (x, f x)) <$> l.
Proof. induction l as [|x l IH]; [done|]. cbn. by rewrite IH. Qed.

Lemma settlement_exact destroy session handles captured incarnation :
  (forall made c, destroy made c <> None) ->
  let calls := (fun h => MkBoundDestroy session h incarnation (captured_lifetime captured h)) <$> late_minted handles in
  spawn_settlement SettlementRuns destroy (LateMintedObjects_from_captured session handles captured) incarnation =
    (calls, match calls with [] => None | _ => Some (first_error (replies destroy [] calls)) end).
Proof.
  intros Hd. cbv zeta. unfold spawn_settlement, LateMintedObjects_settle. cbn [lm_handles lm_lifetimes lm_session lm_incarnation
    LateMintedObjects_from_captured LateMintedObjects_new]. destruct (late_minted handles) as [|h hs]; [done|].
  rewrite zip_fmap_r, settle_each_exact by done. rewrite <- list_fmap_compose. done.
Qed.

(** What an audited request answers: the record is accepted and the answer is
    [a], or it is refused and the answer is [lost]. *)
Definition answers {R} (emitted : KeyEvent -> bool) (r : Audited (MintOutcome R)) (rv : R -> CkRv) (a lost : R) : Prop :=
  exists e, au_events r = [e] /\ ke_rv e = rv a /\ mo_answer (au_outcome r) = Some (if emitted e then a else lost).

Lemma audited_settled {R} emitted method cid session (rv : R -> CkRv) lost o :
  mo_settled (au_outcome (audit_key_mgmt emitted method cid session rv lost o)) = mo_settled o.
Proof. unfold audit_key_mgmt. destruct (mo_answer o); [|done]. cbn. by destruct (emitted _). Qed.

Lemma audited_answers {R} emitted method cid session (rv : R -> CkRv) lost o a :
  mo_answer o = Some a -> answers emitted (audit_key_mgmt emitted method cid session rv lost o) rv a lost.
Proof.
  intros H. unfold audit_key_mgmt. rewrite H. eexists. split_and!; [done..|]. cbn. by destruct (emitted _); cbn; rewrite ?H.
Qed.

(** A property of every answer of the handler and of [lost]. *)
Lemma audited_names {R} emitted method cid session (rv : R -> CkRv) lost o (P : R -> Prop) a :
  mo_answer (au_outcome (audit_key_mgmt emitted method cid session rv lost o)) = Some a ->
  (forall a, mo_answer o = Some a -> P a) -> P lost -> P a.
Proof.
  unfold audit_key_mgmt. destruct (mo_answer o) eqn:E; cbn; [|rewrite E; done].
  destruct (emitted _); cbn; [rewrite E|]; intros [= <-]; eauto.
Qed.

(** C14: What becomes of the keys that the module makes for [C_GenerateKeyPair]
    and [C_GenerateKey], in time, after the timeout, or for a caller that is
    gone.  Either they are registered in the caller's map and none is handed to
    the settlement: then one record is offered, and the answer names them (no
    handle, if the output parameters of a key cannot be encoded), unless the sink
    refuses the record: then the answer is a failure without handles and the
    keys stay registered.  Or all of them, each nonzero handle once, are
    handed to the detached settlement and no answer names one.  A request
    refused before the call makes none.  A settlement that runs calls the
    bound destruction once per handle, with the captured incarnation and
    lifetime, and goes on after a failure; it reports the first one.  It may
    not run (the breaker refuses it, the daemon ends) and a destruction may
    fail: then the object stays until shutdown. *)
Theorem minted_keys_owned_once emitted (raced cancelled : bool) source w :
  (forall module req r w', generate_key_pair ctx emitted module raced cancelled source req env w = (r, w') ->
     let names_nothing := forall rv v1 v2, mo_answer (au_outcome r) = Some (rv, v1, v2) -> v1 = 0 /\ v2 = 0 in
     match prepare_key_pair ctx source req env w with
     | (Err rv, w1) => answers emitted r (fun a => a.1.1) (rv, 0, 0) (Rv.FUNCTION_FAILED, 0, 0) /\ mo_settled (au_outcome r) = [] /\ w' = w1
     | (Ok call, _) =>
         owned_or_handed (au_outcome r) (minted_by pair_minted (module call))
           (exists k1 k2 v1 v2, module call = MintDone (Ok (k1, k2)) /\
              answers emitted r (fun a => a.1.1) (Rv.OK, v1, v2) (Rv.FUNCTION_FAILED, 0, 0) /\
              registered (pr_context req) w' v1 k1 /\ registered (pr_context req) w' v2 k2)
           names_nothing
     end) /\
  (forall module req r w', generate_key ctx encode emitted module raced cancelled source req env w = (r, w') ->
     match prepare_key ctx source req env w with
     | (Err rv, w1) => answers emitted r ks_rv (key_error rv) (key_error Rv.FUNCTION_FAILED) /\ mo_settled (au_outcome r) = [] /\ w' = w1
     | (Ok call, _) =>
         owned_or_handed (au_outcome r) (minted_by key_minted (module call))
           (exists k out v, module call = MintDone (Ok (k, out)) /\ v <> 0 /\ registered (kr_context req) w' v k /\
              answers emitted r ks_rv
                match encode_out encode (mechanism_type (vm_mechanism (kc_validated call))) out with
                | Ok wire => MkKeyResponse Rv.OK v wire
                | Err rv => key_error rv
                end (key_error Rv.FUNCTION_FAILED))
           (forall a, mo_answer (au_outcome r) = Some a -> ks_handle a = 0)
     end) /\
  (forall handles, NoDup (late_minted handles) /\ forall h, h ∈ late_minted handles <-> h ∈ handles /\ object_raw h <> 0) /\
  (forall destroy session handles captured incarnation, (forall made c, destroy made c <> None) ->
     let calls := (fun h => MkBoundDestroy session h incarnation (captured_lifetime captured h)) <$> late_minted handles in
     spawn_settlement SettlementRuns destroy (LateMintedObjects_from_captured session handles captured) incarnation =
       (calls, match calls with [] => None | _ => Some (first_error (replies destroy [] calls)) end)).
Proof.
  split_and!; [| |exact late_minted_once|intros; by apply settlement_exact].
  - intros module req r w' H. unfold generate_key_pair in H. apply bind_ok in H as (o & w1 & H & Hr). apply ret_ok in Hr as [<- ->].
    apply key_pair_owned in H. cbv zeta. destruct (prepare_key_pair _ _ _ _ _) as [[call|rv] w2]; unfold owned_or_handed; rewrite audited_settled.
    + destruct H as [[Hs (k1 & k2 & v1 & v2 & Hm & Ha & H1 & H2)]|[Hs Hn]]; [left|right]; (split; [done|]).
      * exists k1, k2, v1, v2. split_and!; try done. by apply audited_answers.
      * intros rv v1 v2 Ha. apply (audited_names _ _ _ _ _ _ _ (fun a => a.1.2 = 0 /\ a.2 = 0) _ Ha); [|done]. intros [[rv' v1'] v2'] Ho. by eapply Hn.
    + destruct H as [-> ->]. split_and!; [by apply audited_answers|done..].
  - intros module req r w' H. unfold generate_key in H. apply bind_ok in H as (o & w1 & H & Hr). apply ret_ok in Hr as [<- ->].
    apply key_owned in H. destruct (prepare_key _ _ _ _ _) as [[call|rv] w2]; unfold owned_or_handed; rewrite audited_settled.
    + destruct H as [[Hs (k & out & v & Hm & Hv & Hg & Ha)]|[Hs Hn]]; [left|right]; (split; [done|]).
      * exists k, out, v. split_and!; try done. by apply audited_answers.
      * intros a Ha. by apply (audited_names _ _ _ _ _ _ _ (fun a => ks_handle a = 0) _ Ha).
    + destruct H as [-> ->]. split_and!; [by apply audited_answers|done..].
Qed.
End mint.
