(* ===== verification/KeyGenDemo.v ===== *)
(** * Key generation and derivation: concrete runs

    A derivation with SP 800-108 parameters, the witness of the admission
    theorem, and runs in which the handlers do not do what they mean to:
    [nested_key_handle_unchecked], [derive_answers_backend_handle],
    [derived_keys_orphaned] and [vanished_context_answers_ok]. *)

From S2P Require Import Prelude Ck Width HandleMap SlotMap Connection Context Manager Session Teardown Mech Grant Policy Handler Authorize.
From S2P Require Import AuthorizeProps Shapes ShapeProps Registry Params Validate Embedded EmbeddedProps KeyGen KeyGenProps.
Open Scope N_scope.

Definition CKM_SP800_108_COUNTER_KDF : N := 940.
Definition CKM_AES_KEY_GEN : N := 4224.

Definition keygen_registry : MechanismRegistry :=
  MkMechanismRegistry {[ CKM_SP800_108_COUNTER_KDF := "sp800_108_kdf" ]}
    {[ CKM_AES_KEY_GEN ]} ∅ Transparent "1".

Definition demo_hctx : HandlerContext := MkHandlerContext Little TokenPolicy_default (Some Lp64NativeLe) 8 (fun _ => true) true.

(** Counter mode over a fixed label and the key of the caller's handle 1. *)
Definition counter_kdf (handle : list N) : CkMechanismParams :=
  P_Sp800108Kdf (MkSp800108KdfParams 592 (PaPresent [MkPrfDataParam 4 (PbPresent [108; 97; 98]); MkPrfDataParam 5 (PbPresent handle)])
    (PaPresent [MkSp800108DerivedKey (MkObject 0) (PaPresent []) false])).

Definition demo_derive : DeriveRequest :=
  MkDeriveRequest (MkKeyRequest "ctx" 1 (Ok (MkCkMechanism CKM_SP800_108_COUNTER_KDF (Some (counter_kdf [1; 0; 0; 0; 0; 0; 0; 0]))))
    (Ok (Some []))) 1.


(** A module that derives 910 and one additional key, 911, and returns the
    parameters it was given. *)
Definition demo_module (call : DeriveCall) : MintReply DeriveResult :=
  MintDone (Ok (MkDeriveResult Rv.OK (Some (MkObject 910))
    (match mechanism_params (vm_mechanism (kc_validated (dc_key call))) with
     | Some (P_Sp800108Kdf p) =>
         Some (P_Sp800108Kdf (MkSp800108KdfParams (Sp800108Kdf_prf_type p) (Sp800108Kdf_data_params_presence p)
                 (PaPresent [MkSp800108DerivedKey (MkObject 911) (PaPresent []) false])))
     | _ => None
     end))).

Definition demo_encode (m : CkMechanism) : CkResult CkMechanism := Ok m.

(** The client goes away before step [k]. *)
Definition vanishing_env (k : nat) : Env := fun n =>
  if bool_decide (n = k)
  then MkEnvStep 7 (fun m => m <| contexts ::= delete "ctx" |>) (fun _ => Some (Ok ("Audit", "1"))) (fun _ _ _ => None) true (Done (Ok 71))
         (fun _ => Done (Ok 0)) (MkLogoutEnv true (fun m => m) false false)
  else demo_env n.


Definition demo_answer (k : nat) : MintOutcome (KeyResponse (WireMechanism := CkMechanism)) :=
  (derive_key_impl demo_hctx demo_encode demo_module false false (Some keygen_registry) demo_derive (vanishing_env k) demo_world).1.

(** The handles of the additional keys and the bytes of the second data
    parameter, in an answer. *)
Definition answered_keys (a : KeyResponse (WireMechanism := CkMechanism)) : list N :=
  match ks_mechanism_out a ≫= mechanism_params with
  | Some (P_Sp800108Kdf p) => (fun k => object_raw (Sp800108DerivedKey_key_handle k)) <$> present_items (Sp800108Kdf_additional_derived_keys_presence p)
  | _ => []
  end.
Definition answered_slot (a : KeyResponse (WireMechanism := CkMechanism)) : option PointerBytes :=
  match ks_mechanism_out a ≫= mechanism_params with
  | Some (P_Sp800108Kdf p) => PrfData_value_presence <$> present_items (Sp800108Kdf_data_params_presence p) !! 1%nat
  | _ => None
  end.

(** The answer of a successful derivation names the derived keys by the caller's
    handles, but a key-handle slot by the backend handle: the caller sent the
    handle 1 and reads 900, the module's. *)
Theorem derive_answers_backend_handle :
  exists a, mo_answer (demo_answer 99) = Some a /\ ks_rv a = Rv.OK /\ ks_handle a = 2 /\ answered_keys a = [3] /\
    answered_slot a = Some (PbPresent (write_uint 900 8 Little)).
Proof. vm_compute. eexists. split_and!; reflexivity. Qed.

(** A client that goes away between the registration of the derived key and that
    of an additional key: the additional key is neither registered nor handed
    to the settlement. *)
Theorem derived_keys_orphaned :
  exists a, mo_answer (demo_answer 12) = Some a /\ ks_rv a = Rv.OK /\ ks_handle a = 2 /\ answered_keys a = [0] /\
    mo_settled (demo_answer 12) = [].
Proof. vm_compute. eexists. split_and!; reflexivity. Qed.

(** A client that goes away before the registration: the key is handed to the
    settlement, and the answer is success with the invalid handle. *)
Theorem vanished_context_answers_ok :
  exists a, mo_answer (demo_answer 11) = Some a /\ ks_rv a = Rv.OK /\ ks_handle a = 0 /\
    mo_settled (demo_answer 11) = [MkObject 910; MkObject 911].
Proof. vm_compute. eexists. split_and!; reflexivity. Qed.

(** A key handle in SP 800-108 parameters of a nested mechanism reaches the
    module as the client sent it: neither the translation nor the resolver looks
    there. *)
Theorem nested_key_handle_unchecked native policy env cid vs bs t t' seed prf data keys v w :
  vm_mechanism v =
    MkCkMechanism t (Some (P_Kip (MkKipParams (Some (MkCkMechanism t' (Some (P_Sp800108Kdf (MkSp800108KdfParams prf data keys)))))
      (MkObject 0) seed))) ->
  remap_mechanism_handles native policy cid vs bs v env w = (Ok v, w) /\
  resolve_sp800_108_key_handle_data_params native policy cid vs (MkSession bs) v env w = (Ok v, w).
Proof.
  intros Hv. unfold remap_mechanism_handles, resolve_sp800_108_key_handle_data_params. rewrite Hv. done.
Qed.

Lemma derive_admission_witness :
  match (prepare_derive demo_hctx (Some keygen_registry) demo_derive demo_env demo_world).1 with
  | Ok call => own_session demo_env "ctx" 1 demo_world (kc_session (dc_key call)) /\
               exists mech w1, object_admitted Little demo_env (hc_token_policy demo_hctx) "ctx" 1 1 (kc_session (dc_key call)) (dc_base_key call) demo_world w1 /\ kr_mechanism (dr_key demo_derive) = Ok mech /\
                 normalized_for_handle_compare (vm_mechanism (kc_validated (dc_key call))) = normalized_for_handle_compare mech /\
                 check_classic_sanitize_policy true (kc_validated (dc_key call)) = Ok tt
  | Err _ => False
  end.
Proof.
  destruct (prepare_derive demo_hctx (Some keygen_registry) demo_derive demo_env demo_world) as [[call|rv] w'] eqn:E.
  - destruct (derive_admission demo_hctx demo_env (Some keygen_registry) demo_derive call demo_world w' E)
      as (Hos & registry & mech & grant & w1 & ? & ? & ? & _ & Hm & _ & Hoa & _ & _ & _ & Hn & Hs & _).
    split; [exact Hos|]. exists mech, w1. by split_and!.
  - vm_compute in E. discriminate E.
Defined.
