(* ===== verification/Lifecycle.v ===== *)
(** * Life-cycle handlers

    Models [grpc_service/general/lifecycle.rs] ([initialize], [finalize]) and
    [grpc_service/session_handlers/lifecycle.rs] ([open_session],
    [close_session], [close_all_sessions]), with the completion owner of a
    session open ([MintCompletionOwner], [service_utils.rs]) and the version
    negotiation of [proto/src/version.rs].

    A handler runs until its detached completions have finished: a call that
    times out answers the client early, but its late result is still settled,
    and the world returned is the one after that. *)

From S2P Require Import Prelude Ck HandleMap SlotMap Connection Context Manager Teardown.
From S2P Require Import Session RateLimit Identity Policy Handler Authorize.
Open Scope N_scope.

(** ** Version negotiation *)

Definition EXACT_OUTPUT_EFFECTS_VERSION_MIN : N := 1.
Definition EXACT_OUTPUT_EFFECTS_VERSION_MAX : N := 1.

Definition negotiate_effects_version (local_min local_max : N) (peer_min peer_max : option N) : option N :=
  let peer_min := default EXACT_OUTPUT_EFFECTS_VERSION_MIN peer_min in
  let peer_max := default EXACT_OUTPUT_EFFECTS_VERSION_MIN peer_max in
  let floor := N.max local_min peer_min in
  let ceil := N.min local_max peer_max in
  if floor <=? ceil then Some ceil else None.

(** ** Initialize and finalize *)

Definition check_init_throttle (identity : AuthenticatedIdentity) (peer : option string) (now : N) (gc_lock : bool)
    (limiter : option LimiterState) : Result unit RpcStatus * option LimiterState :=
  if negb (bool_decide (identity = Unauthenticated)) then (Ok tt, limiter)
  else match peer with
  | None => (Ok tt, limiter)
  | Some ip =>
      match check_against limiter gc_lock ip now with
      | (Ok _, limiter) => (Ok tt, limiter)
      | (Err _, limiter) => (Err StResourceExhausted, limiter)
      end
  end.

(** Planning and executing the teardown of a context already removed. *)
Definition teardown_removed `{HI : HashIter} (ctx : LogicalClientInstance) : Handler unit :=
  plan <- critical (fun _ m => let '(plan, _, m) := plan_removed_context_teardown ctx m in (plan, m));;
  teardown_step (fun e tr m => execute_teardown_plans (es_oracle e) (fun _ => es_logout e) [plan] tr m).

Record InitializeRequest := MkInitializeRequest {
  ir_transport : TransportInfo;
  ir_peer_ip : option string;
  ir_version_min : option N;
  ir_version_max : option N;
}.

(** The answer: an error status, or a return value with the new context's id
    (empty on refusal); and the throttle's state. *)
Definition initialize `{HI : HashIter} `{CertReader} (tcp_auth : TcpAuthMode) (unix_auth : UnixAuthMode)
    (h : gmap ConnRef ConnectionState) (connection : option ConnRef) (fresh_id : ClientContextId)
    (gc_lock : bool) (limiter : option LimiterState) (request : InitializeRequest)
  : Handler (Result (CkRv * ClientContextId) RpcStatus * option LimiterState) :=
  match identity_from_request (ir_transport request) tcp_auth unix_auth with
  | Err status => ret (Err status, limiter)
  | Ok identity =>
      now <- read (fun now _ => now);;
      match check_init_throttle identity (ir_peer_ip request) now gc_lock limiter with
      | (Err status, limiter) => ret (Err status, limiter)
      | (Ok _, limiter) =>
          match negotiate_effects_version EXACT_OUTPUT_EFFECTS_VERSION_MIN EXACT_OUTPUT_EFFECTS_VERSION_MAX
                  (ir_version_min request) (ir_version_max request) with
          | None => ret (Ok (Rv.FUNCTION_NOT_SUPPORTED, ""), limiter)
          | Some _ =>
              admitted <- critical (fun now m =>
                create_context_replacing_idle_same_identity_on_connection h fresh_id now
                  (Some (to_string identity)) connection m);;
              match admitted with
              | Err rv => ret (Ok (rv, ""), limiter)
              | Ok (ctx_id, None) => ret (Ok (Rv.OK, ctx_id), limiter)
              | Ok (ctx_id, Some replaced) =>
                  teardown_removed replaced;;;
                  ret (Ok (Rv.OK, ctx_id), limiter)
              end
          end
      end
  end.

(** [own_guard]: the dispatch's own in-flight guard, when it names this
    context. *)
Definition finalize `{HI : HashIter} (own_guard : option OperationGuard) (cid : ClientContextId) : Handler CkRv :=
  let own_guards := if bool_decide (own_guard = Some cid) then 1%Z else 0%Z in
  outcome <- critical (fun _ => remove_context_if_idle cid own_guards);;
  match outcome with
  | Removed ctx => teardown_removed ctx;;; ret Rv.OK
  | Busy => ret Rv.DEVICE_ERROR
  | Missing => ret Rv.CRYPTOKI_NOT_INITIALIZED
  end.

(** ** Opening a session *)

(** The channel on which the worker reports its outcome. *)
Inductive Copy := CopyPending | CopySent (r : CkResult N) | CopyClosed.

(** [settle_on_error]: whether the owner stays armed, and the handle to close. *)
Definition settle_on_error (copy : Copy) : bool * option N :=
  match copy with
  | CopySent (Err _) => (false, None)
  | CopySent (Ok payload) => (false, Some payload)
  | CopyPending => (true, None)
  | CopyClosed => (false, None)
  end.

(** [Drop] of the owner: an armed one closes a late success, and only that. *)
Definition owner_drop (armed : bool) (eventual : Copy) : option N :=
  if armed then match eventual with CopySent (Ok payload) => Some payload | _ => None end else None.

(** What the channel holds when the error arm looks, and what it holds in the
    end; [raced] says that a worker that timed out reported just before. *)
Definition copy_at_error (raced : bool) (r : Reply) : Copy :=
  match r with
  | Done r => CopySent r
  | TimedOut late => if raced then CopySent late else CopyPending
  | Refused | Panicked => CopyClosed
  end.
Definition copy_in_the_end (r : Reply) : Copy :=
  match r with
  | Done r | TimedOut r => CopySent r
  | Refused | Panicked => CopyClosed
  end.

(** The detached close of an orphaned handle. *)
Definition close_orphan (h : option N) : Handler unit :=
  match h with
  | Some payload => session_call (CallClose payload);;; ret tt
  | None => ret tt
  end.

Definition principal_quota_key (peer : option string) (cid : ClientContextId) (m : ContextManager) : string :=
  match context_identity cid m with
  | Some identity => identity
  | None => match peer with Some ip => ip | None => cid end
  end.

(** The quota step: [Ok None] when no quota is configured, [Ok (Some key)]
    with the reservation held, [Err] when the principal is at its cap. *)
Definition reserve_session (max_sessions : option N) (peer : option string) (cid : ClientContextId)
  : Handler (Result (option string) unit) :=
  match max_sessions with
  | None => ret (Ok None)
  | Some max =>
      key <- read (fun _ => principal_quota_key peer cid);;
      identity <- read (fun _ => context_identity cid);;
      match identity, peer with
      | None, Some ip =>
          critical (fun now => get_context now cid (fun ctx => (tt, ctx <| last_peer_ip := Some ip |>)));;; ret tt
      | _, _ => ret tt
      end;;;
      reserved <- critical (fun _ => try_reserve_session_for_principal key max);;
      ret (if reserved : bool then Ok (Some key) else Err tt)
  end.

(** [Drop] of the reservation. *)
Definition release_reservation (reservation : option string) : Handler unit :=
  match reservation with
  | Some key => critical (fun _ m => (tt, release_session_reservation key m))
  | None => ret tt
  end.

(** The native open and what becomes of its handle.  [cancelled]: the caller
    drops the request while the call runs, and gets no answer. *)
Definition open_native (raced cancelled : bool) (cid : ClientContextId) (slot : BackendSlotId) (flags : N)
    (reservation : option string) : Handler (option (CkRv * N)) :=
  reply <- session_call (CallOpen (bslot_raw slot) flags);;
  if cancelled then
    close_orphan (owner_drop true (copy_in_the_end reply));;;
    release_reservation reservation;;;
    ret None
  else
  match observed reply with
  | None =>
      close_orphan (owner_drop true (copy_in_the_end reply));;;
      release_reservation reservation;;;
      ret None
  | Some (Ok backend_session) =>
      virtual_handle <- critical (fun now => register_session_handle now cid (MkSession backend_session) slot);;
      match virtual_handle with
      | Some virtual_handle =>
          release_reservation reservation;;;
          ret (Some (Rv.OK, virtual_handle))
      | None =>
          session_call (CallClose backend_session);;;
          release_reservation reservation;;;
          ret (Some (Rv.CRYPTOKI_NOT_INITIALIZED, 0))
      end
  | Some (Err error) =>
      let '(armed, known) := settle_on_error (copy_at_error raced reply) in
      close_orphan known;;;
      close_orphan (owner_drop armed (copy_in_the_end reply));;;
      release_reservation reservation;;;
      ret (Some (error, 0))
  end.

Definition open_session (policy : TokenPolicy) (max_sessions : option N) (peer : option string)
    (raced cancelled : bool) (cid : ClientContextId) (slot_id flags : N) : Handler (option (CkRv * N)) :=
  exists_ <- context_exists cid;;
  if negb exists_ then ret (Some (Rv.CRYPTOKI_NOT_INITIALIZED, 0))
  else
    slot <- read (fun _ => resolve_slot (VSlot slot_id));;
    match slot with
    | None => ret (Some (Rv.SLOT_ID_INVALID, 0))
    | Some slot =>
        authorized <- slot_is_authorized policy cid slot;;
        match authorized with
        | None => ret None
        | Some (Err error) => ret (Some (error, 0))
        | Some (Ok false) => ret (Some (Rv.SLOT_ID_INVALID, 0))
        | Some (Ok true) =>
            reservation <- reserve_session max_sessions peer cid;;
            match reservation with
            | Err _ => ret (Some (Rv.SESSION_COUNT, 0))
            | Ok reservation => open_native raced cancelled cid slot flags reservation
            end
        end
    end.

(** ** Closing sessions *)

(** [logout_after_close_completion], run once the close has settled: at once,
    or deferred to a task that waits for it. *)
Definition logout_after_close_completion `{HI : HashIter} (held_login : option (BackendSlotId * LoginState))
  : Handler unit :=
  match held_login with
  | None => ret tt
  | Some (slot, login) =>
      teardown_step (fun e tr m =>
        let le := es_logout e in
        let '(_, tr, m) := backend_logout_if_last_holder_out (es_oracle e) (le_lock_free le) (le_interfere le)
                             (le_refused le) (le_timed_out le) slot None login tr m in (tr, m))
  end.

Definition unit_result (r : CkResult N) : CkResult unit := match r with Ok _ => Ok tt | Err e => Err e end.

(** Settling one started transition against the native result. *)
Definition settle_transition (t : CloseSessionTransition) (r : CkResult N) : Handler CloseSessionTransition :=
  critical (fun _ m => CloseSessionTransition_settle (unit_result r) (CloseSessionTransition_mark_started t) m).

Definition drop_transition (t : CloseSessionTransition) : Handler unit :=
  critical (fun now m => (tt, CloseSessionTransition_drop now t m)).

(** Dropping a vector of transitions. *)
Fixpoint drop_transitions (ts : list CloseSessionTransition) : Handler unit :=
  match ts with
  | [] => ret tt
  | t :: ts => drop_transition t;;; drop_transitions ts
  end.

(** What the blocking closure does with the transition: it settles it against
    the native result; a refused closure is dropped before it starts, a
    panicking one after. *)
Definition end_transition (reply : Reply) (transition : CloseSessionTransition) : Handler unit :=
  match native reply with
  | Some r => transition <- settle_transition transition r;; drop_transition transition
  | None =>
      drop_transition (match reply with
                       | Panicked => CloseSessionTransition_mark_started transition
                       | _ => transition
                       end)
  end.

(** The native close of a suspended session, the settlement of its transition
    and the logout after it; [None] is a transport error. *)
Definition close_suspended `{HI : HashIter} (held : option (BackendSlotId * LoginState))
    (transition : CloseSessionTransition) : Handler (option CkRv) :=
  reply <- session_call (CallClose (bh_raw (ct_backend_handle transition)));;
  end_transition reply transition;;;
  match observed reply with
  | None => ret None
  | Some result =>
      logout_after_close_completion held;;;
      ret (Some (ck_rv_of result))
  end.

Definition close_session `{HI : HashIter} (own_guard : option OperationGuard) (cid : ClientContextId)
    (session_handle : N) : Handler (option CkRv) :=
  let vh := VH session_handle in
  exists_ <- context_exists cid;;
  if negb exists_ then ret (Some Rv.CRYPTOKI_NOT_INITIALIZED)
  else
    slot <- critical (fun now => slot_for_session now cid vh);;
    match slot with
    | None => ret (Some Rv.SESSION_HANDLE_INVALID)
    | Some _ =>
        locked <- acquire;;
        if negb locked then ret (Some Rv.GENERAL_ERROR)
        else
          held <- critical (fun now => get_context now cid (fun ctx =>
            (slot ← session_slots ctx !! vh; login ← login_state ctx !! slot; Some (slot, login), ctx)));;
          begun <- critical (fun now => begin_close_session_with_guard now cid vh own_guard);;
          match begun with
          | Err ContextMissing => ret (Some Rv.CRYPTOKI_NOT_INITIALIZED)
          | Err SessionMissing =>
              gone <- critical (fun now => get_context now cid (fun ctx =>
                (HandleMap_is_proven_gone vh (session_handles ctx), ctx)));;
              ret (Some (if default false gone then Rv.SESSION_HANDLE_INVALID else Rv.FUNCTION_FAILED))
          | Ok transition =>
              close_suspended (mjoin held) transition
          end
    end.

(** The suspension of the batch: the transitions begun and the number of
    members owned by another close, or [None] when the context vanished. *)
Fixpoint begin_batch (cid : ClientContextId) (vhs : list VirtualHandle) (ts : list CloseSessionTransition)
    (skipped : N) : Handler (option (list CloseSessionTransition * N)) :=
  match vhs with
  | [] => ret (Some (ts, skipped))
  | vh :: vhs =>
      begun <- critical (fun now => begin_close_session_with_guard now cid vh None);;
      match begun with
      | Ok transition => begin_batch cid vhs (ts ++ [transition]) skipped
      | Err ContextMissing => drop_transitions ts;;; ret None
      | Err SessionMissing =>
          gone <- critical (fun now => get_context now cid (fun ctx =>
            (HandleMap_is_proven_gone vh (session_handles ctx), ctx)));;
          begin_batch cid vhs ts (if default false gone then skipped else skipped + 1)
      end
  end.

(** The blocking closure over the batch: the last error, or [None] when it
    panics.  The vector of transitions, [settled] ones first, is dropped when
    the closure ends either way. *)
Fixpoint close_batch (settled ts : list CloseSessionTransition) (last_error : option CkRv)
  : Handler (option (option CkRv)) :=
  match ts with
  | [] => drop_transitions settled;;; ret (Some last_error)
  | t :: ts =>
      reply <- session_call (CallClose (bh_raw (ct_backend_handle t)));;
      match native reply with
      | Some r =>
          t <- settle_transition t r;;
          close_batch (settled ++ [t]) ts (match r with Ok _ => last_error | Err rv => Some rv end)
      | None =>
          drop_transitions (settled ++ CloseSessionTransition_mark_started t :: ts);;;
          ret None
      end
  end.

(** One [spawn_backend] around the batch: the breaker may refuse it, its wait
    may time out. *)
Definition spawn_batch (ts : list CloseSessionTransition) : Handler (option (CkResult unit)) :=
  spawn <- (fun env w => (es_reply (env (w_step w)), w <| w_step ::= S |>));;
  match spawn with
  | Refused =>
      drop_transitions ts;;;
      ret (Some (Err Rv.HOST_MEMORY))
  | _ =>
      r <- close_batch [] ts None;;
      ret (match spawn, r with
           | TimedOut _, _ => Some (Err Rv.FUNCTION_FAILED)
           | _, None => None
           | _, Some None => Some (Ok tt)
           | _, Some (Some rv) => Some (Err rv)
           end)
  end.

Definition close_all_sessions `{HI : HashIter} (policy : TokenPolicy) (cid : ClientContextId) (slot_id : N)
  : Handler (option CkRv) :=
  exists_ <- context_exists cid;;
  if negb exists_ then ret (Some Rv.CRYPTOKI_NOT_INITIALIZED)
  else
    slot <- read (fun _ => resolve_slot (VSlot slot_id));;
    match slot with
    | None => ret (Some Rv.SLOT_ID_INVALID)
    | Some slot =>
        authorized <- slot_is_authorized policy cid slot;;
        match authorized with
        | None => ret None
        | Some (Err error) => ret (Some error)
        | Some (Ok false) => ret (Some Rv.SLOT_ID_INVALID)
        | Some (Ok true) =>
            held <- critical (fun now => get_context now cid (fun ctx => (login_state ctx !! slot, ctx)));;
            vhs <- critical (fun now => get_context now cid (fun ctx =>
              ((filter (fun vs => vs.2 = slot) (hiter (session_slots ctx))).*1, ctx)));;
            begun <- begin_batch cid (default [] vhs) [] 0;;
            match begun with
            | None => ret (Some Rv.CRYPTOKI_NOT_INITIALIZED)
            | Some (ts, skipped) =>
                let owned := 0 <? skipped in
                verdict <- match ts with
                           | [] => ret (Some (if owned then Rv.FUNCTION_FAILED else Rv.OK))
                           | _ =>
                               r <- spawn_batch ts;;
                               ret (match r with
                                    | None => None
                                    | Some (Ok _) => Some (if owned then Rv.FUNCTION_FAILED else Rv.OK)
                                    | Some (Err rv) =>
                                        Some (if owned && rv_eqb rv Rv.OK then Rv.FUNCTION_FAILED else rv)
                                    end)
                           end;;
                match verdict with
                | None => ret None
                | Some rv =>
                    logout_after_close_completion ((slot,.) <$> mjoin held);;;
                    ret (Some rv)
                end
            end
        end
    end.
