(* ===== verification/LifecycleProps.v ===== *)
(** * Life-cycle handlers: properties

    No native session is lost by an open, a context belongs to the identity
    that initialized it, finalize refuses while operations are in flight, and
    a close leaves the session in the state its backend verdict says. *)

From S2P Require Import Prelude Ck Width HandleMap SlotMap Connection Context Manager Reach ManagerProps Teardown.
From S2P Require Import Session RateLimit Identity Mech Grant Policy Handler Authorize AuthorizeProps Lifecycle.
Open Scope N_scope.

(** ** Opening: every native session is accounted for *)

(** Steps that make no session call. *)
Definition silent {A} (h : Handler A) : Prop := forall env w, w_trace (h env w).2 = w_trace w.

Lemma silent_ret {A} (a : A) : silent (ret a).
Proof. done. Qed.
Lemma silent_critical {A} (f : N -> ContextManager -> A * ContextManager) : silent (critical f).
Proof. intros env w. unfold critical. by destruct (f _ _). Qed.
Lemma silent_release r : silent (release_reservation r).
Proof. destruct r; [apply silent_critical|apply silent_ret]. Qed.

Lemma trace_bind {A B} (h : Handler A) (k : A -> Handler B) env w :
  (bind h k env w) = k (h env w).1 env (h env w).2.
Proof. unfold bind. by destruct (h env w). Qed.

Lemma step_critical {A} (f : N -> ContextManager -> A * ContextManager) env w :
  w_step (critical f env w).2 = S (w_step w).
Proof. unfold critical. by destruct (f _ _). Qed.

Lemma critical_mgr {A} (f : N -> ContextManager -> A * ContextManager) env w :
  w_mgr (critical f env w).2 = (f (es_now (env (w_step w))) (es_others (env (w_step w)) (w_mgr w))).2.
Proof. unfold critical. by destruct (f _ _). Qed.

Lemma critical_val {A} (f : N -> ContextManager -> A * ContextManager) env w :
  (critical f env w).1 = (f (es_now (env (w_step w))) (es_others (env (w_step w)) (w_mgr w))).1.
Proof. unfold critical. by destruct (f _ _). Qed.

(** From here on the breaker refuses nothing. *)
Definition no_refusal (env : Env) (n : nat) : Prop := forall k, (n <= k)%nat -> es_reply (env k) <> Refused.

Lemma close_orphan_trace env w h :
  no_refusal env (w_step w) ->
  w_trace (close_orphan h env w).2 = w_trace w ++ match h with Some b => [CallClose b] | None => [] end /\
  (w_step w <= w_step (close_orphan h env w).2)%nat.
Proof.
  intros Hn. destruct h as [b|]; cbn; [|by rewrite app_nil_r].
  specialize (Hn (w_step w) (le_n _)). destruct (es_reply (env (w_step w))); try done; by split; [|lia].
Qed.

Lemma session_call_trace env w c :
  es_reply (env (w_step w)) <> Refused ->
  w_trace (session_call c env w).2 = w_trace w ++ [c] /\ (session_call c env w).1 = es_reply (env (w_step w)) /\
  w_step (session_call c env w).2 = S (w_step w).
Proof. intros Hn. cbn. by destruct (es_reply _). Qed.

Lemma no_refusal_le env n k : no_refusal env n -> (n <= k)%nat -> no_refusal env k.
Proof. intros H Hle j Hj. apply H. lia. Qed.

(** The handle a finished call produced, late or not. *)
Definition produced (r : Reply) : option N :=
  match native r with Some (Ok h) => Some h | _ => None end.

Lemma owner_settles raced r :
  match observed r with Some (Err _) | None => True | Some (Ok _) => False end ->
  let '(armed, known) := settle_on_error (copy_at_error raced r) in
  match known with Some b => Some b | None => owner_drop armed (copy_in_the_end r) end = produced r /\
  (is_Some known -> owner_drop armed (copy_in_the_end r) = None).
Proof.
  destruct r as [[h|e]|[h|e]| |]; cbn; try done; intros _; destruct raced; cbn; (split; [done|]); intros H; done || by destruct H.
Qed.

(** C36: A native session the backend opens for a request is never lost: it is
    registered and its virtual handle returned with OK, or it is closed.
    That holds when the call times out (whether its late result races the
    error path or arrives afterwards), when the client cancels, and when the
    context vanished meanwhile; and nothing else is ever closed.  (The close
    of an orphan can itself be refused by the breaker; the statement is for
    runs where the calls after the open are not.) *)
Theorem open_session_accounted (env : Env) (w : World) (raced cancelled : bool) (cid : ClientContextId)
    (slot : BackendSlotId) (flags : N) (reservation : option string) :
  no_refusal env (S (w_step w)) ->
  let reply := es_reply (env (w_step w)) in
  let '(answer, w') := open_native raced cancelled cid slot flags reservation env w in
  let opened := match reply with Refused => [] | _ => [CallOpen (bslot_raw slot) flags] end in
  match produced reply with
  | None => w_trace w' = w_trace w ++ opened
  | Some h =>
      (exists vh, answer = Some (Rv.OK, vh) /\ cancelled = false /\ w_trace w' = w_trace w ++ opened /\
         let e := env (S (w_step w)) in
         let m := es_others e (es_others (env (w_step w)) (w_mgr w)) in
         (register_session_handle (es_now e) cid (MkSession h) slot m).1 = Some vh) \/
      (w_trace w' = w_trace w ++ opened ++ [CallClose h] /\ forall vh, answer <> Some (Rv.OK, vh))
  end.
Proof.
  intros Hn. cbn zeta. unfold open_native. rewrite trace_bind.
  set (w1 := (session_call _ env w).2). set (opened := match es_reply (env (w_step w)) with Refused => [] | _ => _ end).
  change ((session_call (CallOpen (bslot_raw slot) flags) env w).1) with (es_reply (env (w_step w))).
  assert (w_trace w1 = w_trace w ++ opened) as Ht1.
  { unfold w1, opened. cbn. destruct (es_reply _); [done|done|by rewrite app_nil_r|done]. }
  assert (no_refusal env (w_step w1)) as Hn1 by done.
  assert (w_step w1 = S (w_step w) /\ w_mgr w1 = es_others (env (w_step w)) (w_mgr w)) as [Hs1 Hm1] by done. clearbody w1.
  generalize dependent (es_reply (env (w_step w))). intros reply opened Ht1.
  destruct cancelled.
  - rewrite !trace_bind. cbn [ret fst snd]. rewrite silent_release.
    destruct (close_orphan_trace env w1 (owner_drop true (copy_in_the_end reply)) Hn1) as [-> _]. rewrite Ht1.
    destruct reply as [[h|e]|[h|e]| |]; cbn; rewrite ?app_nil_r, <- ?app_assoc; try done; by right.
  - destruct (observed reply) as [[h|error]|] eqn:Eo.
    + assert (reply = Done (Ok h)) as -> by (destruct reply as [[?|?]|[?|?]| |]; cbn in Eo; congruence).
      cbn [produced native]. rewrite trace_bind. cbn [fst snd].
      set (w2 := (critical _ env w1).2). assert (w_trace w2 = w_trace w1) as Ht2 by apply silent_critical.
      assert (no_refusal env (w_step w2)) as Hn2.
      { unfold w2. rewrite step_critical. eapply no_refusal_le; [done|lia]. }
      clearbody w2. destruct ((critical _ env w1).1) as [vh|] eqn:Er.
      * rewrite trace_bind. cbn [ret fst snd]. left. exists vh. split_and!; [done|done|by rewrite silent_release, Ht2, Ht1|].
        cbn zeta. rewrite critical_val, Hs1, Hm1 in Er. exact Er.
      * rewrite !trace_bind. cbn [ret fst snd]. rewrite silent_release.
        destruct (session_call_trace env w2 (CallClose h)) as [-> _]; [by apply Hn2|].
        rewrite Ht2, Ht1, <- app_assoc. right. split; [done|]. by intros vh [= ? ?].
    + pose proof (owner_settles raced reply) as Hs. rewrite Eo in Hs. specialize (Hs I).
      destruct (settle_on_error (copy_at_error raced reply)) as [armed known]. destruct Hs as [Hp Hk].
      rewrite !trace_bind. cbn [ret fst snd]. rewrite silent_release.
      destruct (close_orphan_trace env w1 known Hn1) as [Ht2 Hle].
      destruct (close_orphan_trace env (close_orphan known env w1).2 (owner_drop armed (copy_in_the_end reply)))
        as [-> _]; [by eapply no_refusal_le|].
      rewrite Ht2, Ht1. rewrite <- Hp. destruct known as [b|].
      * rewrite Hk by eauto. rewrite app_nil_r, <- app_assoc. right. split; [done|].
        intros vh [= -> ?]. destruct reply as [[?|?]|[?|?]| |]; cbn in Eo; try done; by destruct raced.
      * rewrite app_nil_r. destruct (owner_drop armed _) as [b|]; [|by rewrite app_nil_r].
        rewrite <- app_assoc. right. split; [done|]. intros vh [= -> ?].
        destruct reply as [[?|?]|[?|?]| |]; cbn in Eo; try done; by destruct raced.
    + assert (reply = Panicked) as -> by (destruct reply as [[?|?]|[?|?]| |]; cbn in Eo; congruence).
      cbn [produced native copy_in_the_end owner_drop close_orphan]. rewrite !trace_bind. cbn [ret fst snd].
      by rewrite silent_release.
Qed.

(** ** Teardown leaves the other contexts alone *)

(** No other task, also while a logout waits for its slot lock. *)
Definition undisturbed (env : Env) : Prop :=
  quiet env /\ forall n m, le_interfere (es_logout (env n)) m = m.

Lemma teardown_step_mgr f env w :
  w_mgr (teardown_step f env w).2 =
  (f (env (w_step w)) (w_trace w) (es_others (env (w_step w)) (w_mgr w))).2.
Proof. unfold teardown_step. by destruct (f _ _ _). Qed.

Section teardown_contexts.
Context `{HI : HashIter}.

Lemma transient_contexts o refused timed_out slot login tr m :
  contexts (last_holder_logout_via_transient_carrier o refused timed_out slot login tr m).2 = contexts m.
Proof.
  unfold last_holder_logout_via_transient_carrier. destruct refused; [done|].
  destruct (native _) as [[h|]|]; [|done..]. destruct (native _) as [lo|]; [|done].
  destruct (native _) as [[]|]; done.
Qed.

Lemma last_holder_contexts o lock interfere refused timed_out slot via login tr m :
  (forall m, interfere m = m) ->
  contexts (backend_logout_if_last_holder_out o lock interfere refused timed_out slot via login tr m).2 = contexts m.
Proof.
  intros Hi. unfold backend_logout_if_last_holder_out. rewrite Hi. destruct (slot_login_held slot m); [done|].
  destruct lock; [|done]. cbn [negb]. destruct (_ ++ _); [apply transient_contexts|].
  by destruct (logout_via _ _ _).
Qed.

Lemma execute_contexts o le plans tr m :
  (forall m, le_interfere le m = m) -> contexts (execute_teardown_plans o (fun _ => le) plans tr m).2 = contexts m.
Proof.
  intros Hi. unfold execute_teardown_plans. destruct (merge_plans plans) as [logouts closes].
  unfold execute_logouts. generalize (hiter logouts). intros ls. revert tr m.
  induction ls as [|[slot [via login]] ls IH]; intros tr m; [done|]. cbn [foldl fst snd].
  pose proof (last_holder_contexts o (le_lock_free le) (le_interfere le) (le_refused le) (le_timed_out le)
    slot (Some via) login tr m Hi) as Hm.
  destruct (backend_logout_if_last_holder_out _ _ _ _ _ _ _ _ _ _) as [[r tr'] m']. cbn in Hm.
  rewrite <- Hm. apply (IH tr' m').
Qed.

Lemma note_logins_contexts cid slots m : contexts (note_logins_released cid slots m) = contexts m.
Proof.
  unfold note_logins_released. revert m. induction slots as [|s slots IH]; intros m; [done|]. cbn. by rewrite IH.
Qed.

Lemma teardown_removed_contexts env w ctx :
  undisturbed env -> contexts (w_mgr (teardown_removed ctx env w).2) = contexts (w_mgr w).
Proof.
  intros [Hq Hl]. unfold teardown_removed. rewrite trace_bind, teardown_step_mgr, execute_contexts by apply Hl.
  rewrite Hq, critical_mgr, Hq. apply note_logins_contexts.
Qed.
End teardown_contexts.

(** ** A context belongs to the identity that initialized it *)

Section ownership_from_birth.
Context `{HI : HashIter} `{CR : CertReader} `{!CertReaderLaws}.

Lemma create_replacing_identity h fresh now s conn m cid r m' :
  create_context_replacing_idle_same_identity_on_connection h fresh now (Some s) conn m = (Ok (cid, r), m') ->
  cid = fresh /\ context_identity cid m' = Some s.
Proof.
  unfold create_context_replacing_idle_same_identity_on_connection, context_identity. cbv zeta.
  generalize (if at_cap m then evict_expired_sessionless_for_admission h now m else m). intros m0.
  destruct (at_cap m0).
  - destruct (replace_first _ _ _ _) as [replaced m1].
    destruct (match replaced with Some _ => false | None => at_cap m1 end); [done|].
    intros [= <- <- <-]. split; [done|]. cbn. by rewrite lookup_insert_eq.
  - intros [= <- <- <-]. split; [done|]. cbn. by rewrite lookup_insert_eq.
Qed.

Lemma create_replacing_error h fresh now s conn m rv m' :
  create_context_replacing_idle_same_identity_on_connection h fresh now (Some s) conn m = (Err rv, m') ->
  rv = Rv.HOST_MEMORY.
Proof.
  unfold create_context_replacing_idle_same_identity_on_connection. cbv zeta.
  destruct (at_cap _); [|done]. destruct (replace_first _ _ _ _) as [replaced m1].
  destruct (match replaced with Some _ => false | None => at_cap m1 end); [|done]. by intros [= <- _].
Qed.

(** The other tasks run the daemon's critical sections, also while a logout
    waits for its slot lock, and none of them draws the identifier [cid]. *)
Definition daemon_tasks (env : Env) (cid : ClientContextId) : Prop :=
  forall n m, daemon_steps cid m (es_others (env n) m) /\ daemon_steps cid m (le_interfere (es_logout (env n)) m).

Lemma daemon_tasks_identity env cid : daemon_tasks env cid ->
  (forall n m, keeps_identity cid m (es_others (env n) m)) /\ (forall n m, keeps_identity cid m (le_interfere (es_logout (env n)) m)).
Proof. intros Hd. split; intros n m; apply daemon_steps_identity, Hd. Qed.

Lemma same_contexts_identity cid m m' m'' : contexts m'' = contexts m' -> keeps_identity cid m m' -> keeps_identity cid m m''.
Proof. intros He Hk c. rewrite He. apply Hk. Qed.

Lemma last_holder_identity cid o lock interfere refused timed_out slot via login tr m :
  (forall m, keeps_identity cid m (interfere m)) ->
  keeps_identity cid m (backend_logout_if_last_holder_out o lock interfere refused timed_out slot via login tr m).2.
Proof.
  intros Hi. unfold backend_logout_if_last_holder_out. destruct (slot_login_held slot m); [done|].
  destruct lock; [|apply Hi]. cbn [negb]. destruct (slot_login_held slot (interfere m)); [apply Hi|].
  destruct (_ ++ _); [eapply same_contexts_identity; [apply transient_contexts|apply Hi]|].
  destruct (logout_via _ _ _). apply Hi.
Qed.

Lemma execute_identity cid o le plans tr m :
  (forall m, keeps_identity cid m (le_interfere le m)) -> keeps_identity cid m (execute_teardown_plans o (fun _ => le) plans tr m).2.
Proof.
  intros Hi. unfold execute_teardown_plans. destruct (merge_plans plans) as [logouts closes].
  unfold execute_logouts. generalize (hiter logouts). intros ls. revert tr m.
  induction ls as [|[slot [via login]] ls IH]; intros tr m; [done|]. cbn [foldl fst snd].
  pose proof (last_holder_identity cid o (le_lock_free le) (le_interfere le) (le_refused le) (le_timed_out le)
    slot (Some via) login tr m Hi) as Hm.
  destruct (backend_logout_if_last_holder_out _ _ _ _ _ _ _ _ _ _) as [[r tr'] m']. cbn in Hm.
  etransitivity; [exact Hm|apply (IH tr' m')].
Qed.

Lemma teardown_removed_identity cid env w ctx :
  daemon_tasks env cid -> keeps_identity cid (w_mgr w) (w_mgr (teardown_removed ctx env w).2).
Proof.
  intros [Ho Hl]%daemon_tasks_identity. unfold teardown_removed. rewrite trace_bind, teardown_step_mgr.
  etransitivity; [|apply execute_identity, Hl]. etransitivity; [|apply Ho]. rewrite critical_mgr.
  eapply same_contexts_identity; [apply note_logins_contexts|apply Ho].
Qed.

(** The request's part in the creation of the context. *)
Lemma initialize_admits env w w' tcp unix h connection fresh cid gc_lock limiter limiter' request :
  initialize tcp unix h connection fresh gc_lock limiter request env w = ((Ok (Rv.OK, cid), limiter'), w') ->
  daemon_tasks env fresh ->
  exists owner m1, identity_from_request (ir_transport request) tcp unix = Ok owner /\ cid = fresh /\
    context_identity cid m1 = Some (to_string owner) /\ keeps_identity cid m1 (w_mgr w').
Proof.
  unfold initialize. destruct (identity_from_request (ir_transport request) tcp unix) as [owner|] eqn:Ei; [|done].
  intros Hrun Hd. exists owner. revert Hrun. rewrite trace_bind.
  destruct (check_init_throttle _ _ _ _ _) as [[?|?] lim]; [|done]. destruct (negotiate_effects_version _ _ _ _); [|done].
  rewrite trace_bind, critical_val. set (w1 := (read _ env w).2).
  assert (forall f, w_mgr (critical (fun now m => create_context_replacing_idle_same_identity_on_connection h fresh now f connection m) env w1).2 =
    (create_context_replacing_idle_same_identity_on_connection h fresh (es_now (env (w_step w1))) f connection
      (es_others (env (w_step w1)) (w_mgr w1))).2) as Hm by (intros f; apply critical_mgr).
  specialize (Hm (Some (to_string owner))). set (w2 := (critical _ env w1).2) in *.
  destruct (create_context_replacing_idle_same_identity_on_connection h fresh _ _ _ _) as [[[c r]|rv] m'] eqn:Ec.
  2: { cbn [fst]. intros [= -> _ _ _]. by apply create_replacing_error in Ec. }
  apply create_replacing_identity in Ec as [-> Hc]. cbn [fst snd] in *. intros Hrun. exists m'.
  assert (cid = fresh /\ keeps_identity fresh (w_mgr w2) (w_mgr w')) as [-> Hk].
  { destruct r as [replaced|].
    - revert Hrun. rewrite trace_bind. cbn [ret]. intros [= <- _ <-]. split; [done|]. by apply teardown_removed_identity.
    - injection Hrun as <- _ <-. done. }
  rewrite Hm in Hk. by split_and!.
Qed.

(** C7: End to end: when an initialize succeeds, the new context is bound to the
    identity its own transport proved: after any further critical sections of the
    daemon (none of which draws the same identifier), as long as the context is
    registered, exactly the requests whose transport proves that identity may
    drive it.  The other tasks may interleave with the initialize itself and with
    the later check; they run the daemon's critical sections too. *)
Theorem initialize_binds_owner (env : Env) (w w' : World) (tcp : TcpAuthMode) (unix : UnixAuthMode)
    (h : gmap ConnRef ConnectionState) (connection : option ConnRef) (fresh cid : ClientContextId)
    (gc_lock : bool) (limiter limiter' : option LimiterState) (request : InitializeRequest) :
  daemon_tasks env fresh -> transport_wf (ir_transport request) ->
  initialize tcp unix h connection fresh gc_lock limiter request env w = ((Ok (Rv.OK, cid), limiter'), w') ->
  exists owner, identity_from_request (ir_transport request) tcp unix = Ok owner /\
    forall w2 later, daemon_steps cid (w_mgr w') (w_mgr w2) -> transport_wf later ->
      is_Some (contexts (es_others (env (w_step w2)) (w_mgr w2)) !! cid) ->
      (enforce_context_owner later cid tcp unix env w2).1 = Ok tt <->
      identity_from_request later tcp unix = Ok owner.
Proof.
  intros Hd Htw Hrun. destruct (initialize_admits _ _ _ _ _ _ _ _ _ _ _ _ _ Hrun Hd) as (owner & m1 & Ei & -> & Hid & Hk).
  exists owner. split; [done|]. intros w2 later Hst Hl [c2 Hc2].
  pose proof (identity_from_request_wf _ _ _ _ Htw Ei) as Hwf.
  assert (context_identity fresh (es_others (env (w_step w2)) (w_mgr w2)) = Some (to_string owner)) as Hid2.
  { unfold context_identity in *. rewrite Hc2.
    apply (proj1 (daemon_tasks_identity _ _ Hd)) in Hc2 as (c3 & Hc3 & Hi3).
    apply (daemon_steps_identity _ _ _ Hst) in Hc3 as (c4 & Hc4 & Hi4). apply Hk in Hc4 as (c5 & Hc5 & Hi5).
    rewrite Hc5 in Hid. cbn in *. congruence. }
  unfold enforce_context_owner. rewrite trace_bind. unfold read. rewrite critical_val. cbn [fst]. rewrite Hid2.
  cbn [ret fst]. destruct (identity_from_request later tcp unix) as [live|] eqn:El; [|split; congruence].
  apply identity_from_request_wf in El; [|done]. cbn. case_bool_decide as Hs.
  - split; [|done]. intros _. f_equal. symmetry. by apply to_string_inj.
  - split; [done|]. intros [= ->]. done.
Qed.
End ownership_from_birth.

(** ** Finalize *)

Section finalize.
Context `{HI : HashIter}.

Lemma teardown_removed_trace env w ctx :
  undisturbed env ->
  exists logouts, w_trace (teardown_removed ctx env w).2 =
    w_trace w ++ logouts ++ (CallClose <$> sessions_to_close (plan_removed_context_teardown ctx (w_mgr w)).1.1).
Proof.
  intros [Hq Hl]. unfold teardown_removed. rewrite trace_bind, critical_val, Hq. unfold teardown_step.
  match goal with |- context [execute_teardown_plans ?o ?f ?p ?t ?m] =>
    pose proof (execute_trace o f p t m) as [mid Ht]; destruct (execute_teardown_plans o f p t m) as [tr m'] end.
  exists mid. cbn [snd w_trace set_field fst] in *. rewrite Ht. rewrite silent_critical. f_equal. f_equal.
  cbn. by rewrite app_nil_r.
Qed.

(** Finalize removes the context exactly when no operation but its own is in
    flight on it, answering DEVICE_ERROR and changing nothing otherwise, or
    CRYPTOKI_NOT_INITIALIZED when there is no such context.  On removal no
    other context changes, and the sessions closed are exactly those of the
    departed context that no other context maps. *)
Theorem finalize_contract (env : Env) (w : World) (own_guard : option OperationGuard) (cid : ClientContextId) :
  undisturbed env ->
  let m := w_mgr w in
  let own := if decide (own_guard = Some cid) then 1%Z else 0%Z in
  let r := finalize own_guard cid env w in
  match contexts m !! cid with
  | None => r.1 = Rv.CRYPTOKI_NOT_INITIALIZED /\ w_mgr r.2 = m /\ w_trace r.2 = w_trace w
  | Some c =>
      if decide (in_flight c <= own)%Z then
        r.1 = Rv.OK /\ contexts (w_mgr r.2) = delete cid (contexts m) /\
        (ctx_core c -> exists logouts closes, w_trace r.2 = w_trace w ++ logouts ++ (CallClose <$> closes) /\
           forall b, b ∈ closes <-> HandleMap_references_backend (BH b) (session_handles c) = true /\
             ~ exists cid' c', cid' <> cid /\ contexts m !! cid' = Some c' /\
                 HandleMap_references_backend (BH b) (session_handles c') = true)
      else r.1 = Rv.DEVICE_ERROR /\ w_mgr r.2 = m /\ w_trace r.2 = w_trace w
  end.
Proof.
  intros Hu. pose proof Hu as [Hq _]. cbn zeta. unfold finalize. rewrite trace_bind, critical_val, Hq.
  set (own := if decide (own_guard = Some cid) then 1%Z else 0%Z).
  assert ((if bool_decide (own_guard = Some cid) then 1%Z else 0%Z) = own) as ->
    by (unfold own; case_bool_decide; by case_decide).
  set (w1 := (critical _ env w).2).
  assert (w_mgr w1 = (remove_context_if_idle cid own (w_mgr w)).2) as Hm1 by (unfold w1; by rewrite critical_mgr, Hq).
  assert (w_trace w1 = w_trace w) as Ht1 by apply silent_critical. clearbody w1.
  unfold remove_context_if_idle, remove_context_when in *.
  destruct (contexts (w_mgr w) !! cid) as [c|] eqn:Hc;
    [|rewrite Hc in *; rewrite bool_decide_false in * by (by intros []); by split_and!].
  case_decide as Hf.
  - rewrite (proj2 (Z.leb_le _ _) Hf) in *. cbn [fst snd] in *. rewrite trace_bind. cbn [ret fst snd].
    rewrite teardown_removed_contexts, Hm1 by done. split_and!; [done|done|]. intros Hcore.
    destruct (teardown_removed_trace env w1 c Hu) as [logouts ->]. rewrite Ht1, Hm1.
    eexists logouts, _. split; [done|]. intros b. rewrite elem_of_sessions_to_close by apply Hcore.
    apply and_iff_compat_l, not_iff_compat. unfold referenced. cbn. split.
    + intros (k & c' & Hk & Hr). rewrite lookup_delete in Hk. case_decide; [done|]. by exists k, c'.
    + intros (k & c' & Hne & Hk & Hr). exists k, c'. by rewrite lookup_delete_ne.
  - assert ((in_flight c <=? own)%Z = false) as Hle by (apply Z.leb_gt; lia). rewrite Hle in *. cbn [fst snd] in *.
    rewrite Hc, bool_decide_true in * by eauto. by split_and!.
Qed.
End finalize.

(** ** Closing a session *)

Section close.
Context `{HI : HashIter} (env : Env) (Hu : undisturbed env).

(** What the end of the native call means for the session. *)
Definition reply_completion (r : Reply) : CloseSessionCompletion :=
  match r with
  | Done r | TimedOut r => close_completion (unit_result r)
  | Refused => Transient
  | Panicked => Ambiguous
  end.

Definition fresh_transition (cid : ClientContextId) (v : VirtualHandle) (b : BackendHandle) : CloseSessionTransition :=
  MkCloseTransition cid v b cid true false false.

Lemma logout_after_contexts held w :
  contexts (w_mgr (logout_after_close_completion held env w).2) = contexts (w_mgr w).
Proof using Hu.
  destruct Hu as [Hq Hl]. destruct held as [[slot login]|]; [|done]. cbn [logout_after_close_completion].
  rewrite teardown_step_mgr, Hq.
  match goal with |- context [backend_logout_if_last_holder_out ?a ?b ?c ?d ?e ?f ?g ?h ?i ?j] =>
    pose proof (last_holder_contexts a b c d e f g h i j (Hl _)) as Hm;
    destruct (backend_logout_if_last_holder_out a b c d e f g h i j) as [[r tr] m'] end.
  exact Hm.
Qed.

(** Settling or dropping the transition is completing the close and releasing
    its guard. *)
Lemma transition_end cid v b reply w :
  w_mgr (end_transition reply (fresh_transition cid v b) env w).2 =
  OperationGuard_drop (es_now (env (match native reply with Some _ => S (w_step w) | None => w_step w end))) cid
    (complete_close_session cid v b (reply_completion reply) (w_mgr w)).
Proof using Hu.
  destruct Hu as [Hq _]. unfold end_transition.
  destruct reply as [r|r| |]; cbn [native reply_completion].
  1,2: rewrite trace_bind; unfold drop_transition; rewrite critical_mgr, Hq; unfold settle_transition;
    rewrite critical_mgr, critical_val, Hq, step_critical; reflexivity.
  - unfold drop_transition. by rewrite critical_mgr, Hq.
  - unfold drop_transition. by rewrite critical_mgr, Hq.
Qed.

Lemma guard_drop_lookup now cid m c :
  contexts m !! cid = Some c ->
  contexts (OperationGuard_drop now cid m) !! cid = Some (LogicalClientInstance_touch now c <| in_flight ::= Z.pred |>).
Proof. intros Hc. unfold OperationGuard_drop. cbn. rewrite lookup_alter, decide_True by done. by rewrite Hc. Qed.

Lemma close_outcome_handles k v b c c' c'' :
  session_handles c'' = session_handles c' -> session_slots c'' = session_slots c' ->
  message_operations c'' = message_operations c' -> close_outcome k v b c c' -> close_outcome k v b c c''.
Proof. intros Hh Hs Hm. unfold close_outcome. by rewrite Hh, Hs, Hm. Qed.

Lemma close_suspended_run held cid v b w c :
  contexts (w_mgr w) !! cid = Some c -> ctx_core c ->
  HandleMap_suspended_backend v (session_handles c) = Some b ->
  let reply := es_reply (env (w_step w)) in
  let r := close_suspended held (fresh_transition cid v b) env w in
  r.1 = ck_rv_of <$> observed reply /\
  exists c', contexts (w_mgr r.2) !! cid = Some c' /\ close_outcome (reply_completion reply) v b c c' /\
    forall v', v' <> v -> HandleMap_resolve v' (session_handles c') = HandleMap_resolve v' (session_handles c).
Proof using Hu.
  intros Hc Hcore Hsus. pose proof Hu as [Hq _]. cbn zeta. unfold close_suspended. rewrite trace_bind.
  set (w1 := (session_call _ env w).2).
  change ((session_call (CallClose (bh_raw (ct_backend_handle (fresh_transition cid v b)))) env w).1)
    with (es_reply (env (w_step w))).
  assert (w_mgr w1 = w_mgr w) as Hm1 by (unfold w1; cbn; apply Hq). clearbody w1.
  generalize (es_reply (env (w_step w))). intros reply. rewrite trace_bind.
  pose proof (transition_end cid v b reply w1) as Hend. rewrite Hm1 in Hend.
  set (w2 := (end_transition reply _ env w1).2) in *. clearbody w2.
  destruct (complete_close_spec (w_mgr w) cid v b (reply_completion reply)) as [_ Hs].
  { intros c0 Hc0. rewrite Hc in Hc0. by injection Hc0 as <-. }
  rewrite Hc, decide_True in Hs by done. destruct Hs as (c1 & Hc1 & _ & Ho & Hrest).
  assert (exists c', contexts (w_mgr w2) !! cid = Some c' /\ close_outcome (reply_completion reply) v b c c' /\
    forall v', v' <> v -> HandleMap_resolve v' (session_handles c') = HandleMap_resolve v' (session_handles c)) as Hfin.
  { rewrite Hend. rewrite (guard_drop_lookup _ _ _ _ Hc1). eexists. split; [done|]. split.
    - by eapply close_outcome_handles; [..|exact Ho].
    - intros v' Hne. apply (Hrest v' Hne). }
  destruct (observed reply) as [result|]; [|by split].
  rewrite trace_bind. cbn [ret fst snd]. split; [done|]. by rewrite logout_after_contexts.
Qed.

(** Reading the context under its lock. *)
Lemma read_step {R} (f : LogicalClientInstance -> R) w cid c :
  contexts (w_mgr w) !! cid = Some c -> (forall c', same_but_lease c c' -> f c' = f c) ->
  exists w' c', critical (fun now => get_context now cid (fun c => (f c, c))) env w = (Some (f c), w') /\
    contexts (w_mgr w') !! cid = Some c' /\ same_but_lease c c' /\ w_step w' = S (w_step w).
Proof using Hu.
  intros Hc Hf. destruct Hu as [Hq _]. unfold critical. rewrite Hq. rewrite (read_touched _ _ f _ _ Hc).
  eexists _, (LogicalClientInstance_touch (es_now (env (w_step w))) c). split; [f_equal; f_equal; apply Hf; by eexists|].
  cbn [w_mgr w_step set_field]. cbn. split_and!; [by rewrite lookup_alter, decide_True, Hc|by eexists|done].
Qed.

Lemma context_exists_step w cid c :
  contexts (w_mgr w) !! cid = Some c ->
  exists w' c', context_exists cid env w = (true, w') /\ contexts (w_mgr w') !! cid = Some c' /\
    same_but_lease c c' /\ w_step w' = S (w_step w).
Proof using Hu.
  intros Hc. destruct (read_step (fun _ => tt) w cid c Hc) as (w' & c' & E & H); [done|].
  exists w', c'. split; [|done]. unfold context_exists. by rewrite trace_bind, E.
Qed.

Lemma slot_for_session_step w cid v w' o :
  critical (fun now => get_context now cid (fun ctx => (session_slots ctx !! v, ctx))) env w = (o, w') ->
  critical (fun now => slot_for_session now cid v) env w = (mjoin o, w').
Proof.
  unfold critical, slot_for_session. destruct (get_context _ _ _ _) as [r m]. by intros [= <- <-].
Qed.

(** Closing a live session, with the slot lock acquired: the answer is the
    backend's verdict (a timeout is FUNCTION_FAILED, a refusal by the breaker
    HOST_MEMORY, a panic an error status), and the session ends as that
    verdict says: gone after success and after the two session-is-gone codes,
    quarantined after DEVICE_ERROR and a panic, given back after any other
    error and when the call was never made.  A close that timed out settles by
    its late result.  The client's other sessions stay as they are. *)
Theorem close_session_contract (w : World) (cid : ClientContextId) (sh : N) (c : LogicalClientInstance)
    (b : BackendHandle) (slot : BackendSlotId) :
  contexts (w_mgr w) !! cid = Some c -> ctx_core c ->
  HandleMap_resolve (VH sh) (session_handles c) = Some b -> session_slots c !! VH sh = Some slot ->
  es_lock (env (2 + w_step w)%nat) = true ->
  let reply := es_reply (env (5 + w_step w)%nat) in
  let r := close_session None cid sh env w in
  r.1 = ck_rv_of <$> observed reply /\
  exists c0 c', contexts (w_mgr r.2) !! cid = Some c' /\
    close_outcome (reply_completion reply) (VH sh) b c0 c' /\
    HandleMap_resolve (VH sh) (session_handles c0) = None /\
    forall v', v' <> VH sh ->
      HandleMap_resolve v' (session_handles c0) = HandleMap_resolve v' (session_handles c) /\
      HandleMap_resolve v' (session_handles c') = HandleMap_resolve v' (session_handles c).
Proof using Hu.
  intros Hc Hcore Hres Hsl Hlock. pose proof Hu as [Hq _]. cbn zeta. unfold close_session.
  destruct (context_exists_step w cid c Hc) as (w1 & c1 & E1 & Hc1 & Hl1 & Hs1). rewrite trace_bind, E1. cbn [fst snd negb].
  destruct (read_step (fun ctx => session_slots ctx !! VH sh) w1 cid c1 Hc1) as (w2 & c2 & E2 & Hc2 & Hl2 & Hs2).
  { intros c' [t ->]. done. }
  rewrite trace_bind, (slot_for_session_step _ _ _ _ _ E2). cbn [fst snd mjoin option_join].
  assert (session_slots c1 !! VH sh = Some slot) as -> by (by destruct Hl1 as [t ->]). cbn [fst snd].
  assert ((acquire env w2).1 = true) as Hac by (unfold acquire; cbn [fst]; by rewrite Hs2, Hs1).
  rewrite trace_bind, Hac. cbn [negb].
  set (w3 := (acquire env w2).2).
  assert (contexts (w_mgr w3) !! cid = Some c2) as Hc3 by (unfold w3, acquire; cbn; by rewrite Hq).
  assert (w_step w3 = S (w_step w2)) as Hs3 by done. clearbody w3.
  destruct (read_step (fun ctx => slot ← session_slots ctx !! VH sh; login ← login_state ctx !! slot; Some (slot, login))
    w3 cid c2 Hc3) as (w4 & c4 & E4 & Hc4 & Hl4 & Hs4). { by intros c' [t ->]. }
  rewrite trace_bind, E4. cbn [fst snd].
  assert (same_but_lease c c4) as Hl.
  { destruct Hl1 as [t1 ->], Hl2 as [t2 ->], Hl4 as [t4 ->]. by eexists. }
  assert (ctx_core c4) as Hcore4. { destruct Hl as [t ->]. by destruct Hcore. }
  assert (session_handles c4 = session_handles c) as Hh by (by destruct Hl as [t ->]).
  rewrite <- Hh in Hres.
  destruct (begin_close_spec (es_now (env (w_step w4))) (w_mgr w4) cid (VH sh) c4 b Hc4 Hres) as (m5 & E5 & Hm5).
  assert (forall f, f = (fun now => begin_close_session_with_guard now cid (VH sh) None) ->
    (critical f env w4).1 = Ok (fresh_transition cid (VH sh) b)) as Hbegun.
  { intros f ->. by rewrite critical_val, Hq, E5. }
  rewrite trace_bind, (Hbegun _ eq_refl).
  set (w5 := (critical _ env w4).2).
  assert (contexts (w_mgr w5) !! cid = Some (closing (VH sh) c4)) as Hc5.
  { unfold w5. rewrite critical_mgr, Hq, E5. cbn [snd]. rewrite Hm5. apply lookup_insert_eq. }
  assert (w_step w5 = (5 + w_step w)%nat) as Hs5 by (unfold w5; rewrite step_critical; lia). clearbody w5.
  destruct (table_suspend _ (VH sh) b (cw_sessions _ Hcore4) Hres) as [Hsu _].
  assert (session_handles (closing (VH sh) c4) = (HandleMap_suspend (VH sh) (session_handles c4)).2) as Hsh by done.
  destruct (close_suspended_run (mjoin (Some (slot0 ← session_slots c2 !! VH sh; login ← login_state c2 !! slot0;
    Some (slot0, login)))) cid (VH sh) b w5 _ Hc5) as [Hans (c' & Hc' & Ho & Hrest)].
  { by apply closing_core. }
  { rewrite Hsh, Hsu. unfold HandleMap_suspended_backend. cbn. apply lookup_insert_eq. }
  rewrite Hs5 in *. split; [exact Hans|]. exists (closing (VH sh) c4), c'. split_and!; [exact Hc'|exact Ho|..].
  - rewrite Hsh, Hsu. unfold HandleMap_resolve. cbn. apply lookup_delete_eq.
  - intros v' Hne. rewrite (Hrest v' Hne), <- Hh.
    assert (HandleMap_resolve v' (session_handles (closing (VH sh) c4)) = HandleMap_resolve v' (session_handles c4)) as Hr.
    { rewrite Hsh, Hsu. unfold HandleMap_resolve. cbn. by rewrite lookup_delete_ne. }
    by rewrite Hr.
Qed.
End close.

(** ** Concrete runs *)

Lemma demo_undisturbed : undisturbed demo_env.
Proof. by split. Qed.

(** The open times out and its result arrives after the answer. *)
Definition demo_late_env : Env := fun n =>
  match n with
  | O => MkEnvStep 7 (fun m => m) (fun _ => None) (fun _ _ _ => None) true (TimedOut (Ok 88)) (fun _ => Done (Ok 0))
           (MkLogoutEnv true (fun m => m) false false)
  | _ => demo_env n
  end.

Lemma open_session_accounted_witness :
  (open_native false false "ctx" (demo_slot 5) 4 None demo_late_env demo_world).1 = Some (Rv.FUNCTION_FAILED, 0) /\
  w_trace (open_native false false "ctx" (demo_slot 5) 4 None demo_late_env demo_world).2 =
    [CallOpen (bslot_raw (demo_slot 5)) 4; CallClose 88].
Proof.
  split; [reflexivity|].
  destruct (open_session_accounted demo_late_env demo_world false false "ctx" (demo_slot 5) 4 None) as [H|H].
  - intros [|k] Hk; [inversion Hk|]. vm_compute. discriminate.
  - exfalso. destruct H as (vh & H & _). vm_compute in H. discriminate H.
  - exact (proj1 H).
Defined.

Lemma demo_daemon_tasks cid : daemon_tasks demo_env cid.
Proof. intros n m. split; apply daemon_steps_refl. Qed.

Lemma initialize_binds_owner_witness :
  let request := MkInitializeRequest (MkTransportInfo (Some (Some 1000)) None) None None None in
  let w' := (@initialize canonical_iter demo_reader TcpMtls UnixPeerCred ∅ None "fresh" true None request demo_env demo_world).2 in
  (@enforce_context_owner demo_reader (MkTransportInfo (Some (Some 1000)) None) "fresh" TcpMtls UnixPeerCred demo_env w').1 = Ok tt.
Proof.
  intros request w'.
  refine (match @initialize_binds_owner canonical_iter demo_reader demo_reader_laws demo_env demo_world w' TcpMtls UnixPeerCred ∅
    None "fresh" "fresh" true None None request (demo_daemon_tasks "fresh") _ _ with
    | ex_intro _ owner (conj Hi Hl) => proj2 (Hl w' _ (daemon_steps_refl _ _) _ _) Hi end).
  - intros uid [= <-]. vm_compute. discriminate.
  - vm_compute. reflexivity.
  - intros uid [= <-]. vm_compute. discriminate.
  - eexists. vm_compute. reflexivity.
Defined.

Lemma finalize_contract_witness :
  (@finalize canonical_iter None "ctx" demo_env demo_world).1 = Rv.OK.
Proof.
  exact (proj1 (@finalize_contract canonical_iter demo_env demo_world None "ctx" demo_undisturbed)).
Defined.

Lemma demo_ctx_core : ctx_core demo_ctx.
Proof.
  destruct (register_session_core (BH 71) (demo_slot 5) (LogicalClientInstance_new "ctx" 0 (Some "uid=1000")))
    as [Hs Ho Hl Hm]; [apply cw_core, LogicalClientInstance_new_wf|reflexivity|].
  split; [exact Hs| |exact Hl|exact Hm]. apply insert_wf; [exact Ho|reflexivity].
Qed.

Lemma close_session_contract_witness :
  (@close_session canonical_iter None "ctx" 1 demo_env demo_world).1 = Some Rv.OK.
Proof.
  exact (proj1 (@close_session_contract canonical_iter demo_env demo_undisturbed demo_world "ctx" 1 demo_ctx (BH 71)
    (demo_slot 5) eq_refl demo_ctx_core eq_refl eq_refl eq_refl)).
Defined.
