(* ===== verification/SearchProps.v ===== *)
(** * Object search: properties

    [find_reveals_only_permitted]: an object is answered only past the checks.
    [empty_answer_means_exhausted]: what an empty answer means.
    [search_terminates]: with a bound, or a module that ends its search, so does
    the handler. *)

From S2P Require Import Prelude Ck Width HandleMap SlotMap Connection Context Manager Session Teardown Identity Mech Grant Policy Handler Authorize.
From S2P Require Import AuthorizeProps Shapes ShapeProps Registry Params Validate Embedded EmbeddedProps KeyGen KeyGenProps Search.
Open Scope N_scope.

(** ** Handlers that only look

    Two managers have the same contexts when these agree up to the time of the
    last request. *)

Definition same_contexts (m m' : ContextManager) : Prop :=
  LogicalClientInstance_touch 0 <$> contexts m = LogicalClientInstance_touch 0 <$> contexts m'.

#[export] Instance same_contexts_equivalence : Equivalence same_contexts.
Proof. unfold same_contexts. split; [done|by intros ?? ->|by intros ??? -> ->]. Qed.

Lemma touched_same {R} now cid (f : LogicalClientInstance -> R) m :
  same_contexts (get_context now cid (fun c => (f c, c)) m).2 m.
Proof.
  unfold get_context, same_contexts. destruct (contexts m !! cid) as [c|] eqn:E; [|done]. cbn.
  rewrite fmap_insert. apply insert_id. by rewrite lookup_fmap, E.
Qed.

(** [drift env w w']: from [w] to [w'] only the other tasks and the clock change
    the contexts. *)
Inductive drift (env : Env) (w : World) : World -> Prop :=
| drift_refl : drift env w w
| drift_next w1 w2 : drift env w w1 -> w_step w2 = S (w_step w1) ->
    same_contexts (w_mgr w2) (es_others (env (w_step w1)) (w_mgr w1)) -> drift env w w2.

Lemma drift_trans env w w1 w2 : drift env w w1 -> drift env w1 w2 -> drift env w w2.
Proof. intros H1 H2. induction H2; [done|]. by eapply drift_next. Qed.

(** A handler that changes no context. *)
Definition quiet {A} (h : Handler A) : Prop := forall env w, drift env w (h env w).2.

Lemma quiet_ret {A} (a : A) : quiet (ret a).
Proof. intros env w. apply drift_refl. Qed.

Lemma quiet_bind {A B} (h : Handler A) (k : A -> Handler B) : quiet h -> (forall a, quiet (k a)) -> quiet (bind h k).
Proof.
  intros Hh Hk env w. unfold bind. specialize (Hh env w). destruct (h env w) as [a w1].
  eapply drift_trans; [exact Hh|apply Hk].
Qed.

Lemma quiet_critical {A} (f : N -> ContextManager -> A * ContextManager) :
  (forall now m, same_contexts (f now m).2 m) -> quiet (critical f).
Proof.
  intros Hf env w. unfold critical. specialize (Hf (es_now (env (w_step w))) (es_others (env (w_step w)) (w_mgr w))).
  destruct (f _ _) as [a m]. eapply drift_next; [apply drift_refl|done|exact Hf].
Qed.

Lemma quiet_read {A} (f : N -> ContextManager -> A) : quiet (read f).
Proof. apply quiet_critical. done. Qed.

Lemma quiet_call {A} (c : ReadCall) (answer : EnvStep -> A) : quiet (backend_call c answer).
Proof. intros env w. by eapply drift_next; [apply drift_refl|..]. Qed.

Lemma quiet_query session object types : quiet (query_attributes session object types).
Proof. apply quiet_call. Qed.

Lemma quiet_query_token slot : quiet (query_token_info slot).
Proof. apply quiet_call. Qed.

Lemma quiet_module {A} (a : A) : quiet (module_call a).
Proof. intros env w. by eapply drift_next; [apply drift_refl|..]. Qed.

Create HintDb quiet.
#[export] Hint Resolve quiet_ret quiet_read quiet_call quiet_query quiet_query_token quiet_module touched_same : quiet.

(** Takes a handler apart. *)
Ltac quieten :=
  repeat first
    [ solve [auto with quiet nocore]
    | apply quiet_bind; [|intros ?]
    | match goal with |- quiet (match ?x with _ => _ end) => destruct x end
    | apply quiet_critical; intros ].

Section looks.
Context (native : ByteOrder) (cid : ClientContextId) (vs : N) (session : CkSessionHandle) (object : CkObjectHandle).

Lemma quiet_maps : quiet (context_maps_backend_object cid object).
Proof. unfold context_maps_backend_object. quieten. Qed.

Lemma quiet_probe attr : quiet (probe_bool_attr session object attr).
Proof. unfold probe_bool_attr. quieten. Qed.

Lemma quiet_other_class : quiet (backend_object_has_other_class native session object).
Proof. unfold backend_object_has_other_class, probe_object_class. quieten. Qed.
Hint Resolve quiet_maps quiet_probe quiet_other_class : quiet.

Lemma quiet_token_state : quiet (backend_object_token_state native session object).
Proof. unfold backend_object_token_state. quieten. Qed.
Hint Resolve quiet_token_state : quiet.

Lemma quiet_visible : quiet (find_result_visible_to_context native cid session object).
Proof. unfold find_result_visible_to_context, backend_object_known_token. quieten. Qed.

Lemma quiet_public : quiet (backend_object_known_public native cid session object).
Proof.
  unfold backend_object_known_public. quieten. unfold mint_recorded_private.
  pose proof (touched_same now cid (fun ctx =>
    virtual_object ← HandleMap_resolve_backend (BH (object_raw object)) (object_handles ctx); object_private ctx !! virtual_object) m) as H.
  by destruct (get_context _ _ _ _).
Qed.

Lemma quiet_metadata : quiet (fetch_object_metadata native session object).
Proof. unfold fetch_object_metadata. quieten. Qed.

Lemma slot_same now m : same_contexts (slot_for_session now cid (VH vs) m).2 m.
Proof.
  unfold slot_for_session. pose proof (touched_same now cid (fun ctx => session_slots ctx !! VH vs) m) as H.
  by destruct (get_context _ _ _ _).
Qed.

Lemma quiet_sole : quiet (critical (fun now => sole_session_holder_for_session now cid vs)).
Proof.
  quieten. unfold sole_session_holder_for_session. pose proof (slot_same now m) as H.
  by destruct (slot_for_session now cid (VH vs) m) as [[slot|] m1].
Qed.

Lemma quiet_login : quiet (session_slot_login_state cid vs).
Proof. unfold session_slot_login_state. quieten. Qed.

Lemma quiet_resolve : quiet (critical (fun now => resolve_session now cid vs)).
Proof.
  quieten. unfold resolve_session.
  pose proof (touched_same now cid (fun ctx => (HandleMap_resolve (VH vs) (session_handles ctx),
      HandleMap_suspended_backend (VH vs) (session_handles ctx))) m) as H.
  by destruct (get_context _ _ _ _).
Qed.

Lemma quiet_token_info slot : quiet (token_info slot).
Proof. unfold token_info. quieten. unfold cache_token_info_if_generation. by destruct (_ =? _). Qed.
Hint Resolve quiet_token_info : quiet.

Lemma quiet_authz : quiet (resolve_object_authz_context cid vs).
Proof.
  unfold resolve_object_authz_context, authz_context_identity, context_exists. quieten. apply slot_same.
Qed.
End looks.
#[export] Hint Resolve quiet_maps quiet_token_state quiet_visible quiet_public quiet_metadata quiet_sole quiet_login quiet_resolve quiet_authz : quiet.

(** ** Rounds *)

Section rounds.
Context {K : Type} (batches : Batches) (scan_bound : option N) (filter_batch : list CkObjectHandle -> Handler K) (nonempty : K -> bool).
Context (Hadv : forall batch, Advances (filter_batch batch)) (env : Env).

Definition scan_post (w : World) (r : Scanned K) (w' : World) : Prop :=
  match r with
  | ScanKept kept => exists n batch w0, batches n = Some (Ok batch) /\ later w w0 /\
      filter_batch batch env w0 = (kept, w') /\ nonempty kept = true
  | ScanExhausted => exists n, batches n = Some (Ok [])
  | ScanFailed rv => (exists n, batches n = Some (Err rv)) \/ rv = Rv.DEVICE_ERROR /\ is_Some scan_bound
  | ScanBroken => exists n, batches n = None
  | ScanOutOfFuel => True
  end.

Lemma scan_run fuel : forall call scanned w r w',
  scan batches scan_bound filter_batch nonempty fuel call scanned env w = (r, w') -> later w w' /\ scan_post w r w'.
Proof using Hadv.
  induction fuel as [|fuel IH]; intros call scanned w r w' Hrun; cbn [scan] in Hrun.
  { injection Hrun as <- <-. done. }
  observe Hrun reply w1. injection Hreply as <- _.
  destruct (batches call) as [[[|o batch]|rv]|] eqn:Eb; try (injection Hrun as <- <-; split; [done|]).
  - by exists call.
  - cbv zeta in Hrun. observe Hrun kept w2. destruct (nonempty kept) eqn:En.
    { injection Hrun as <- <-. split; [by etransitivity|]. by exists call, (o :: batch), w1. }
    assert (later w w2) by (by etransitivity).
    destruct (scan_bound_tripped _ scan_bound) eqn:Et.
    { injection Hrun as <- <-. split; [done|]. right. split; [done|]. destruct scan_bound; [eauto|done]. }
    apply IH in Hrun as [Hd2 Hpost]. split; [by etransitivity|]. destruct r; try done.
    destruct Hpost as (n & b & w0 & ? & ? & ? & ?). exists n, b, w0. split_and!; [done|by etransitivity|done..].
  - left. eauto.
  - by exists call.
Qed.

(** A bound, or an answer of the module that is not a batch, ends the loop. *)
Definition ends_within (fuel : nat) (call : nat) (scanned : N) : Prop :=
  (exists limit, scan_bound = Some limit /\ limit < scanned + N.of_nat fuel) \/
  exists n, (call <= n < call + fuel)%nat /\ match batches n with Some (Ok (_ :: _)) => False | _ => True end.

Lemma scan_ends fuel : forall call scanned w, ends_within fuel call scanned -> (fuel <> 0)%nat ->
  (scan batches scan_bound filter_batch nonempty fuel call scanned env w).1 <> ScanOutOfFuel /\
  forall more, scan batches scan_bound filter_batch nonempty (fuel + more) call scanned env w =
    scan batches scan_bound filter_batch nonempty fuel call scanned env w.
Proof.
  induction fuel as [|fuel IH]; intros call scanned w Hends Hfuel; [done|]. cbn [scan Nat.add]. unfold bind, module_call.
  destruct (batches call) as [[[|o batch]|rv]|] eqn:Eb; [done| |done..].
  destruct (filter_batch _ env _) as [kept w2]. destruct (nonempty kept); [done|].
  destruct (scan_bound_tripped _ scan_bound) eqn:Et; [done|].
  assert (Hrest : ends_within fuel (S call) (scanned + N.of_nat (length (o :: batch)))).
  { destruct Hends as [(limit & -> & Hl)|(n & Hn & Hend)]; [left|right].
    - exists limit. split; [done|]. cbn. lia.
    - exists n. split; [|done]. destruct (decide (n = call)) as [->|]; [by rewrite Eb in Hend|lia]. }
  apply IH; [done|]. intros ->. destruct Hrest as [(limit & -> & Hl)|(n & Hn & _)]; [|lia].
  cbn [scan_bound_tripped] in Et. apply N.ltb_ge in Et. lia.
Qed.
End rounds.

(** ** Registration *)

Definition register_one : list N * LogicalClientInstance -> CkObjectHandle -> list N * LogicalClientInstance :=
  fun '(vs, ctx) h =>
    let '(v, hs) := HandleMap_insert (BH (object_raw h)) (object_handles ctx) in
    (vs ++ [vh_raw v], ctx <| object_handles := hs |>).

Lemma register_fold kept : forall vs old c, Forall2 (names_object c) vs old ->
  let r := foldl register_one (vs, c) kept in Forall2 (names_object r.2) r.1 (old ++ kept).
Proof.
  induction kept as [|o kept IH]; intros vs old c Hold; [by rewrite app_nil_r|]. cbn [foldl register_one].
  pose proof (insert_names (BH (object_raw o)) (object_handles c)) as Hn.
  pose proof (fun b v => insert_keeps b (BH (object_raw o)) v (object_handles c)) as Hk.
  destruct (HandleMap_insert (BH (object_raw o)) (object_handles c)) as [[v] hs]. cbn [fst snd] in Hn, Hk.
  rewrite (app_assoc old [o] kept : old ++ o :: kept = _). apply IH. apply Forall2_app; [|by constructor].
  eapply Forall2_impl; [exact Hold|]. intros v' o' H. by apply Hk.
Qed.

(** Each object is named by the handle at its place. *)
Lemma register_handles_run cid kept env w r w' : register_object_handles cid kept env w = (r, w') ->
  match r with
  | Some hs => exists c, contexts (w_mgr w') !! cid = Some c /\ Forall2 (names_object c) hs kept
  | None => True
  end.
Proof.
  unfold register_object_handles, critical, get_context. destruct (contexts _ !! cid) as [c|]; [|by intros [= <- <-]].
  pose proof (register_fold kept [] [] (LogicalClientInstance_touch (es_now (env (w_step w))) c) (List.Forall2_nil _)) as H.
  cbn zeta in H. fold register_one. destruct (foldl register_one _ kept) as [hs c1]. intros [= <- <-].
  exists c1. cbn. by rewrite lookup_insert_eq.
Qed.

(** ** Filters *)

Section filters.
Context (native : ByteOrder) (policy : TokenPolicy) (cid : ClientContextId) (vs : N) (session : CkSessionHandle) (env : Env).

(** What a run found out about an object: the backend's answer about that
    object in that session, or an entry of the context for it. *)
Definition flag_reported (attr : CkAttributeType) (o : CkObjectHandle) (p : BoolAttrProbe) (w w' : World) : Prop :=
  exists n m, during w w' n m /\ probe_of_reply (es_attributes (env n) session o [attr]) = p.

(** A class without [CKA_TOKEN] and [CKA_PRIVATE]. *)
Definition other_class_reported (o : CkObjectHandle) (w w' : World) : Prop :=
  exists n m values c, during w w' n m /\ es_attributes (env n) session o [CKA_CLASS] = Some (Ok values) /\
    decode_class native (mjoin (values !! 0%nat)) = Some c /\ is_other_object_class c = true.

Definition mapped_found (o : CkObjectHandle) (w w' : World) : Prop :=
  exists n m c, during w w' n m /\ contexts m !! cid = Some c /\ is_Some (HandleMap_resolve_backend (BH (object_raw o)) (object_handles c)).

Definition recorded_public (o : CkObjectHandle) (w w' : World) : Prop :=
  exists n m c v, during w w' n m /\ contexts m !! cid = Some c /\
    HandleMap_resolve_backend (BH (object_raw o)) (object_handles c) = Some v /\ object_private c !! v = Some false.

(** The context is the only one with a session on the slot of its session. *)
Definition alone_found (w w' : World) : Prop :=
  exists n m c slot, during w w' n m /\ contexts m !! cid = Some c /\ session_slots c !! VH vs = Some slot /\
    forall other c', contexts m !! other = Some c' -> other <> cid -> holds_slot c' slot = false.

(** A token object, the context's own object, a public object. *)
Definition known_token (o : CkObjectHandle) (w w' : World) : Prop :=
  flag_reported CKA_TOKEN o (Present true) w w' \/
  flag_reported CKA_TOKEN o AttrAbsent w w' /\ other_class_reported o w w'.

Definition seen_visible (o : CkObjectHandle) (w w' : World) : Prop := mapped_found o w w' \/ known_token o w w'.

Definition known_public (o : CkObjectHandle) (w w' : World) : Prop :=
  flag_reported CKA_PRIVATE o (Present false) w w' \/
  flag_reported CKA_PRIVATE o AttrAbsent w w' /\ (recorded_public o w w' \/ other_class_reported o w w').

Definition seen_session (o : CkObjectHandle) (w w' : World) : Prop := flag_reported CKA_TOKEN o (Present false) w w'.
Definition seen_public (o : CkObjectHandle) (w w' : World) : Prop := seen_visible o w w' /\ known_public o w w'.

(** The policy grants it on the metadata the backend reported for it. *)
Definition seen_granted (logged_in : bool) (identity : AuthenticatedIdentity) (label serial : string)
    (x : CkObjectHandle * ObjectMetadata) (w w' : World) : Prop :=
  metadata_reported native env session x.1 x.2 w w' /\
  unique_id x.2 <> [] /\ allows_object_use policy identity label serial (unique_id x.2) = true /\
  (per_class_active policy = true -> class_granted policy identity label serial x.2) /\
  (is_token x.2 = true \/ mapped_found x.1 w w') /\ (logged_in = true \/ known_public x.1 w w').

#[export] Instance flag_reported_widens attr o p : Widens (flag_reported attr o p).
Proof. intros w0 w w' w1 H0 H1 (n & m & ? & ?). exists n, m. split; [widen|done]. Qed.
#[export] Instance other_class_reported_widens o : Widens (other_class_reported o).
Proof. intros w0 w w' w1 H0 H1 (n & m & v & c & ? & ?). exists n, m, v, c. split; [widen|done]. Qed.
#[export] Instance mapped_found_widens o : Widens (mapped_found o).
Proof. intros w0 w w' w1 H0 H1 (n & m & c & ? & ?). exists n, m, c. split; [widen|done]. Qed.
#[export] Instance recorded_public_widens o : Widens (recorded_public o).
Proof. intros w0 w w' w1 H0 H1 (n & m & c & v & ? & ?). exists n, m, c, v. split; [widen|done]. Qed.
#[export] Instance alone_found_widens : Widens alone_found.
Proof. intros w0 w w' w1 H0 H1 (n & m & c & slot & ? & ?). exists n, m, c, slot. split; [widen|done]. Qed.
#[export] Instance known_token_widens o : Widens (known_token o).
Proof. intros w0 w w' w1 H0 H1 [?|[? ?]]; [left; widen|right; split; widen]. Qed.
#[export] Instance seen_visible_widens o : Widens (seen_visible o).
Proof. intros w0 w w' w1 H0 H1 [?|?]; [left|right]; widen. Qed.
#[export] Instance known_public_widens o : Widens (known_public o).
Proof. intros w0 w w' w1 H0 H1 [?|[? [?|?]]]; [left; widen|right; split; [widen|left; widen]|right; split; [widen|right; widen]]. Qed.
#[export] Instance seen_session_widens o : Widens (seen_session o).
Proof. unfold seen_session. apply _. Qed.
#[export] Instance seen_public_widens o : Widens (seen_public o).
Proof. intros w0 w w' w1 H0 H1 [? ?]. split; widen. Qed.
#[export] Instance seen_granted_widens logged_in identity label serial x : Widens (seen_granted logged_in identity label serial x).
Proof.
  intros w0 w w' w1 H0 H1 (Hm & ? & ? & ? & Ho & Hp). split_and!; [widen|done..| |].
  - destruct Ho as [?|?]; [by left|right; widen].
  - destruct Hp as [?|?]; [by left|right; widen].
Qed.

(** *** One probe at a time *)

#[export] Instance advances_probe o attr : Advances (probe_bool_attr session o attr).
Proof. unfold probe_bool_attr, query_attributes. advancing. Qed.
#[export] Instance advances_other_class o : Advances (backend_object_has_other_class native session o).
Proof. unfold backend_object_has_other_class, probe_object_class, query_attributes. advancing. Qed.
#[export] Instance advances_maps o : Advances (context_maps_backend_object cid o).
Proof. unfold context_maps_backend_object. advancing. Qed.
#[export] Instance advances_token_state o : Advances (backend_object_token_state native session o).
Proof. unfold backend_object_token_state. advancing. Qed.
#[export] Instance advances_visible o : Advances (find_result_visible_to_context native cid session o).
Proof. unfold find_result_visible_to_context, backend_object_known_token. advancing. Qed.
#[export] Instance advances_public o : Advances (backend_object_known_public native cid session o).
Proof. unfold backend_object_known_public. advancing. Qed.

Lemma probe_run attr o p w w' : probe_bool_attr session o attr env w = (p, w') -> flag_reported attr o p w w'.
Proof.
  unfold probe_bool_attr. intros H. observe H reply w1. apply ret_ok in H as [<- ->].
  apply backend_call_ok in Hreply as [[m Hm] ->]. eexists _, _. eauto.
Qed.

Lemma other_class_run o w w' : backend_object_has_other_class native session o env w = (true, w') -> other_class_reported o w w'.
Proof.
  unfold backend_object_has_other_class, probe_object_class. intros H. apply bind_ok in H as (c & w1 & Hc & H).
  apply ret_ok in H as [H ->]. apply bind_ok in Hc as (reply & w2 & Hr & Hc). apply ret_ok in Hc as [<- ->].
  apply backend_call_ok in Hr as [[m Hm] ->]. destruct (es_attributes _ _ _ _) as [[values|]|] eqn:Ea; [|done..].
  destruct (decode_class _ _) as [c|] eqn:Ec; [|done]. eexists _, _, values, c. eauto.
Qed.

Lemma maps_run o w w' : context_maps_backend_object cid o env w = (true, w') -> mapped_found o w w'.
Proof.
  unfold context_maps_backend_object. intros H. observe H r w1. apply ret_ok in H as [H ->]. apply critical_ok in Hr as [Hd ->].
  unfold get_context in H. destruct (contexts _ !! cid) as [c|] eqn:Ec; [|done]. cbn in H.
  eexists _, _, c. split_and!; [exact Hd|done|]. by apply (bool_decide_eq_true_1 _ H).
Qed.

Lemma token_state_run o b w w' : backend_object_token_state native session o env w = (Some b, w') ->
  if b then known_token o w w' else seen_session o w w'.
Proof.
  unfold backend_object_token_state. intros H. observe H p w1. apply probe_run in Hp. destruct p as [t| |]; [| |done].
  - apply ret_ok in H as [[= ->] ->]. destruct b; [by left|done].
  - observe H other w2. apply ret_ok in H as [H ->]. destruct other; [|done]. injection H as <-.
    apply other_class_run in Hother. right. split; widen.
Qed.

Lemma visible_run o w w' : find_result_visible_to_context native cid session o env w = (true, w') -> seen_visible o w w'.
Proof.
  unfold find_result_visible_to_context, backend_object_known_token. intros H. observe H mapped w1. destruct mapped.
  - apply ret_ok in H as [_ ->]. left. by apply maps_run.
  - observe H t w2. apply ret_ok in H as [H ->]. destruct t as [[|]|]; [|done..]. apply token_state_run in Ht. right. widen.
Qed.

Lemma public_run o w w' : backend_object_known_public native cid session o env w = (true, w') -> known_public o w w'.
Proof.
  unfold backend_object_known_public. intros H. observe H p w1. apply probe_run in Hp. destruct p as [t| |]; [| |done].
  - apply ret_ok in H as [H ->]. destruct t; [done|]. by left.
  - right. observe H recorded w2. case_bool_decide as Hr.
    + apply ret_ok in H as [_ ->]. split; [widen|left]. subst recorded. apply critical_ok in Hrecorded as [Hd Hr].
      unfold mint_recorded_private, get_context in Hr. destruct (contexts _ !! cid) as [c|] eqn:Ec; [|done]. cbn in Hr.
      destruct (HandleMap_resolve_backend _ _) as [v|] eqn:Ev; [|done]. eexists _, _, c, v. split_and!; [widen|done..].
    + pose proof (advances_ok _ _ _ _ _ H). apply other_class_run in H. split; [widen|right; widen].
Qed.

Lemma alone_run w w' : critical (fun now => sole_session_holder_for_session now cid vs) env w = (true, w') -> alone_found w w'.
Proof.
  intros [Hd H]%critical_ok. unfold sole_session_holder_for_session, slot_for_session, get_context in H.
  destruct (contexts _ !! cid) as [c|] eqn:Ec; [|done]. cbn in H. destruct (session_slots c !! VH vs) as [slot|] eqn:Es; [|done].
  cbn in H. symmetry in H. apply negb_true_iff in H. rewrite map_any_false in H.
  eexists _, _, c, slot. split_and!; [exact Hd|done..|]. intros other c' Hc' Hne. specialize (H other c').
  rewrite lookup_insert_ne in H by done. specialize (H Hc'). rewrite bool_decide_true in H by done. exact H.
Qed.

(** *** The filters *)

#[export] Instance advances_filter_transparent sole_holder batch : Advances (filter_transparent native cid session sole_holder batch).
Proof. induction batch; cbn [filter_transparent]; advancing. Qed.
#[export] Instance advances_filter_logged_out batch : Advances (filter_logged_out native cid session batch).
Proof. induction batch; cbn [filter_logged_out]; advancing. Qed.
#[export] Instance advances_filter_authz logged_in identity label serial batch :
  Advances (filter_authz native policy cid session logged_in identity label serial batch).
Proof. induction batch; cbn [filter_authz]; advancing. Qed.

(** [kept]: elements of the batch with evidence gathered in a run. *)
Definition vouched {A} (E : A -> World -> World -> Prop) (on : A -> CkObjectHandle) (batch : list CkObjectHandle) (kept : list A)
    (w w' : World) : Prop :=
  forall x, x ∈ kept -> on x ∈ batch /\ E x w w'.

Lemma vouched_nil {A} (E : A -> World -> World -> Prop) on batch w w' : vouched E on batch [] w w'.
Proof. intros x []%elem_of_nil. Qed.

Lemma vouched_skip {A} (E : A -> World -> World -> Prop) `{HE : !forall x, Widens (E x)} on w w1 w' o batch kept :
  later w w1 -> vouched E on batch kept w1 w' -> vouched E on (o :: batch) kept w w'.
Proof. intros Hl H x Hx. destruct (H x Hx) as [? ?]. split; [by right|widen]. Qed.

Lemma vouched_cons {A} (E : A -> World -> World -> Prop) `{HE : !forall x, Widens (E x)} on w w1 w' x batch kept :
  later w w1 -> later w1 w' -> E x w w1 -> vouched E on batch kept w1 w' -> vouched E on (on x :: batch) (x :: kept) w w'.
Proof.
  intros Hl Hl' Hx H y [->|Hy]%elem_of_cons; [split; [by left|widen]|]. by apply (vouched_skip E on w w1 w' _ batch kept).
Qed.

#[export] Instance vouched_widens {A} (E : A -> World -> World -> Prop) `{HE : !forall x, Widens (E x)} on batch kept :
  Widens (vouched E on batch kept).
Proof. intros w0 w w' w1 H0 H1 H x Hx. destruct (H x Hx) as [? ?]. split; [done|widen]. Qed.

(** The object at hand is passed over, or kept with the evidence up to [w1]. *)
Ltac skipping := eapply vouched_skip; [apply _| |eassumption]; chain.
Ltac keeping x w1 :=
  match goal with |- vouched ?E ?on _ _ ?w ?w' =>
    apply (vouched_cons E on w w1 w' x); [chain..| |assumption] end.

Lemma filter_transparent_kept sole_holder batch : forall w kept w',
  filter_transparent native cid session sole_holder batch env w = (kept, w') ->
  vouched seen_visible (fun o => o) batch kept.1 w w' /\ vouched seen_session (fun o => o) batch kept.2 w w' /\
  (sole_holder = false -> kept.2 = []).
Proof.
  induction batch as [|o batch IH]; intros w kept w' Hrun; cbn [filter_transparent] in Hrun.
  { injection Hrun as <- <-. split_and!; [apply vouched_nil..|done]. }
  observe Hrun sees w1. destruct sees.
  { observe Hrun rest w2. apply ret_ok in Hrun as [<- ->]. apply IH in Hrest as (H1 & H2 & H3). cbn [fst snd].
    apply visible_run in Hsees. split_and!; [|skipping|done]. by keeping o w1. }
  destruct sole_holder.
  - observe Hrun stat w2. observe Hrun rest w3. apply ret_ok in Hrun as [<- ->].
    assert (later w w2) by (by etransitivity). apply IH in Hrest as (H1 & H2 & H3).
    case_bool_decide as Es; cbn [fst snd]; [subst stat|by split_and!; [skipping..|]].
    split_and!; [skipping| |done]. apply (token_state_run o false) in Hstat. keeping o w2. widen.
  - apply IH in Hrun as (H1 & H2 & H3). by split_and!; [skipping..|].
Qed.

Lemma filter_logged_out_kept batch : forall w kept w',
  filter_logged_out native cid session batch env w = (kept, w') -> vouched seen_public (fun o => o) batch kept w w'.
Proof.
  induction batch as [|o batch IH]; intros w kept w' Hrun; cbn [filter_logged_out] in Hrun.
  { injection Hrun as <- <-. apply vouched_nil. }
  observe Hrun sees w1. apply bind_ok in Hrun as (keep & w2 & Hkeep & Hrun).
  assert (later w1 w2) by (destruct sees; exact (advances_ok _ _ _ _ _ Hkeep)). assert (later w w2) by (by etransitivity).
  observe Hrun rest w3. apply ret_ok in Hrun as [<- ->]. apply IH in Hrest.
  destruct keep; [|skipping]. destruct sees; [|done].
  apply visible_run in Hsees. apply public_run in Hkeep. keeping o w2. split; widen.
Qed.

(** What [filter_authz] asks of an object the policy keeps. *)
Lemma authz_object_run (logged_in : bool) (md : ObjectMetadata) o w w1 w2 owned keep :
  (if is_token md then ret true else context_maps_backend_object cid o) env w = (owned, w1) ->
  (if negb owned then ret false else if logged_in then ret true else backend_object_known_public native cid session o) env w1 = (keep, w2) ->
  later w w2 /\ (keep = true -> (is_token md = true \/ mapped_found o w w2) /\ (logged_in = true \/ known_public o w w2)).
Proof.
  intros H1 H2.
  assert (later w w1) by (destruct (is_token md); exact (advances_ok _ _ _ _ _ H1)).
  assert (later w1 w2) by (destruct owned, logged_in; exact (advances_ok _ _ _ _ _ H2)).
  split; [by etransitivity|]. intros ->. destruct owned; [|done]. split.
  - destruct (is_token md); [by left|right]. apply maps_run in H1. widen.
  - destruct logged_in; [by left|right]. apply public_run in H2. widen.
Qed.

Lemma authz_keeps_granted identity label serial md : authz_keeps policy identity label serial md = true ->
  unique_id md <> [] /\ allows_object_use policy identity label serial (unique_id md) = true /\
  (per_class_active policy = true -> class_granted policy identity label serial md).
Proof.
  unfold authz_keeps. rewrite !andb_true_iff, orb_true_iff, negb_true_iff, bool_decide_eq_false. intros [[? ?] Hc].
  split_and!; [done..|]. intros Hact. rewrite Hact in Hc. destruct Hc as [|Hc]; [done|]. by apply class_allowed_granted.
Qed.

Lemma filter_authz_kept logged_in identity label serial batch : forall w kept w',
  filter_authz native policy cid session logged_in identity label serial batch env w = (kept, w') ->
  vouched (seen_granted logged_in identity label serial) fst batch kept w w'.
Proof.
  induction batch as [|o batch IH]; intros w kept w' Hrun; cbn [filter_authz] in Hrun.
  { injection Hrun as <- <-. apply vouched_nil. }
  observe Hrun fetched w1. destruct fetched as [md|]; [|apply IH in Hrun; skipping].
  destruct (authz_keeps policy identity label serial md) eqn:Ek; [|apply IH in Hrun; skipping].
  apply bind_ok in Hrun as (owned & w2 & Howned & Hrun). apply bind_ok in Hrun as (keep & w3 & Hkeep & Hrun).
  observe Hrun rest w4. apply ret_ok in Hrun as [<- ->].
  destruct (authz_object_run _ _ _ _ _ _ _ _ Howned Hkeep) as [Hl3 Hev].
  assert (later w w3) by (by etransitivity). apply IH in Hrest.
  destruct keep; [|skipping]. destruct (Hev eq_refl) as [H3 H4]. apply fetch_run in Hfetched.
  keeping (o, md) w3.
  destruct (authz_keeps_granted _ _ _ _ Ek) as (? & ? & ?). split_and!; cbn [fst snd]; [widen|done..| |].
  - destruct H3 as [?|?]; [by left|right; widen].
  - destruct H4 as [?|?]; [by left|right; widen].
Qed.
End filters.

Lemma has_items_spec {A} (l : list A) : has_items l = false <-> l = [].
Proof. by destruct l. Qed.

(** ** The handler *)

Section search.
Context (native : ByteOrder) (policy : TokenPolicy) (cid : ClientContextId) (vs : N) (env : Env).
Context (batches : CkSessionHandle -> Batches) (scan_bound : option N).

Abbreviation sole := (critical (fun now => sole_session_holder_for_session now cid vs)).

(** A session object that a slot's only holder finds again: the context is alone
    on the slot before the object is probed and after the scan. *)
Definition rediscovered (session : CkSessionHandle) (o : CkObjectHandle) (w w' : World) : Prop :=
  exists w1 w2, alone_found cid vs w w1 /\ seen_session session env o w1 w2 /\ alone_found cid vs w2 w' /\
    later w w1 /\ later w1 w2 /\ later w2 w'.

(** What must be known of an object before its handle is answered. *)
Definition permitted (session : CkSessionHandle) (logged_in : bool) (o : CkObjectHandle) (w w' : World) : Prop :=
  if negb (per_object_active policy) && negb (per_class_active policy) then
    if logged_in then seen_visible native cid session env o w w' \/ rediscovered session o w w'
    else seen_public native cid session env o w w'
  else exists identity label serial md, holder_found env cid vs identity label serial w w' /\
    seen_granted native policy cid session env logged_in identity label serial (o, md) w w'.

#[export] Instance rediscovered_widens session o : Widens (rediscovered session o).
Proof.
  intros w0 w w' w1 H0 H1 (wa & wb & Ha & Hs & Hb & L1 & L2 & L3). exists wa, wb.
  split_and!; [widen|done|widen|by etransitivity|done|by etransitivity].
Qed.

#[export] Instance permitted_widens session logged_in o : Widens (permitted session logged_in o).
Proof.
  intros w0 w w' w1 H0 H1 H. unfold permitted in *. destruct (negb _ && negb _).
  - destruct logged_in; [|widen]. destruct H as [?|?]; [left|right]; widen.
  - destruct H as (identity & label & serial & md & ? & ?). exists identity, label, serial, md. split; widen.
Qed.

(** The handles of an answer to a request that came in at [w]: those its
    registration gives to permitted objects of one batch of the module. *)
Definition revealed (session : CkSessionHandle) (logged_in : bool) (handles : list N) (w w' : World) : Prop :=
  exists n batch kept w0 w1, batches session n = Some (Ok batch) /\ later w w0 /\ later w1 w' /\
    register_object_handles cid kept env w0 = (Some handles, w1) /\ Forall2 (registered cid w1) handles kept /\
    forall o, o ∈ kept -> o ∈ batch /\ permitted session logged_in o w w0.

(** [h] answered [a] in the course of the run. *)
Definition said {A} (h : Handler A) (a : A) (w w' : World) : Prop :=
  exists w0 w1, later w w0 /\ h env w0 = (a, w1) /\ later w1 w'.

#[export] Instance said_widens {A} (h : Handler A) a : Widens (said h a).
Proof. intros w0 w w' w1 H0 H1 (wa & wb & ? & ? & ?). exists wa, wb. split_and!; [by etransitivity|done|by etransitivity]. Qed.

(** What an empty successful answer means. *)
Definition over (session : CkSessionHandle) (w w' : World) : Prop :=
  (exists n, batches session n = Some (Ok []) \/ batches session n = Some (Err Rv.OK)) \/
  said (resolve_object_authz_context cid vs) None w w' \/ said sole false w w'.

#[export] Instance over_widens session : Widens (over session).
Proof. intros w0 w w' w1 H0 H1 [?|[?|?]]; [by left|right; left; widen|right; right; widen]. Qed.

Definition find_post (session : CkSessionHandle) (logged_in : bool) (r : FindResponse) (w w' : World) : Prop :=
  match r with
  | Found rv handles => (handles = [] \/ rv = Rv.OK /\ revealed session logged_in handles w w') /\
      (rv = Rv.OK -> handles = [] -> over session w w')
  | _ => True
  end.

Lemma registered_all w1 handles kept c : contexts (w_mgr w1) !! cid = Some c -> Forall2 (names_object c) handles kept ->
  Forall2 (registered cid w1) handles kept.
Proof. intros Hc H. eapply Forall2_impl; [exact H|]. intros v o Hv. by exists c. Qed.

Lemma register_empty w0 handles w1 kept : register_object_handles cid kept env w0 = (Some handles, w1) -> handles = [] -> kept = [].
Proof.
  intros H ->. apply register_handles_run in H as (c & _ & H). by inversion H.
Qed.

#[local] Instance advances_register kept : Advances (register_object_handles cid kept).
Proof. unfold register_object_handles. apply _. Qed.

(** The end of each loop: nothing, or a registration. *)
Lemma register_found_post session logged_in w w0 n batch kept r w' :
  batches session n = Some (Ok batch) -> later w w0 -> register_found cid kept env w0 = (r, w') ->
  (forall o, o ∈ kept -> o ∈ batch /\ permitted session logged_in o w w0) -> (kept = [] -> over session w w0) ->
  find_post session logged_in r w w'.
Proof.
  intros Hb Hd Hrun Hkept Hover. unfold register_found in Hrun. observe Hrun handles w1.
  apply ret_ok in Hrun as [<- ->]. destruct handles as [handles|]; cbn [find_post]; [|by split; [left|]].
  split; [right; split; [done|]|].
  - pose proof (register_handles_run _ _ _ _ _ _ Hhandles) as (c & Hc & Hn). exists n, batch, kept, w0, w1.
    split_and!; [done..|by eapply registered_all|done].
  - intros _ ->. specialize (Hover (register_empty _ _ _ _ Hhandles eq_refl)). widen.
Qed.

(** The arms of a loop that end without a registration of what was kept. *)
Lemma scan_end_post {K} (filter_batch : list CkObjectHandle -> Handler K) nonempty session logged_in w w0 w1 (rest : K -> Handler FindResponse) end_ r w' :
  later w w0 -> later w0 w1 ->
  scan_post (batches session) scan_bound filter_batch nonempty env w0 end_ w1 ->
  match end_ with
  | ScanBroken => ret FindStatus
  | ScanOutOfFuel => ret StillScanning
  | ScanFailed rv => ret (Found rv [])
  | ScanExhausted => register_found cid []
  | ScanKept kept => rest kept
  end env w1 = (r, w') ->
  (forall kept n batch w2, end_ = ScanKept kept -> batches session n = Some (Ok batch) -> later w0 w2 ->
     filter_batch batch env w2 = (kept, w1) -> nonempty kept = true -> find_post session logged_in r w w') ->
  find_post session logged_in r w w'.
Proof.
  intros Hd0 Hd1 Hpost Hrun Hkept. destruct end_ as [kept| |rv| |]; cbn in Hpost.
  - destruct Hpost as (n & batch & w2 & ? & ? & ? & ?). eauto.
  - destruct Hpost as (n & Hn). eapply (register_found_post session logged_in w w1 n []); [done| |exact Hrun| |].
    + by etransitivity.
    + intros o []%elem_of_nil.
    + intros _. left. eauto.
  - injection Hrun as <- <-. split; [by left|]. intros -> _. destruct Hpost as [(n & Hn)|[? _]]; [|done]. left. eauto.
  - by injection Hrun as <- <-.
  - by injection Hrun as <- <-.
Qed.

Abbreviation no_policy := (negb (per_object_active policy) && negb (per_class_active policy) = true).

Lemma find_transparent_run session fuel w w0 r w' : no_policy -> later w w0 ->
  find_transparent native cid vs session (batches session) scan_bound fuel env w0 = (r, w') -> find_post session true r w w'.
Proof.
  intros Hp Hd0 Hrun. unfold find_transparent in Hrun. apply bind_ok in Hrun as (end_ & w1 & Hscan & Hrun).
  apply scan_run in Hscan as [Hd1 Hpost]; [|intros batch; unfold filter_transparent_batch; apply _].
  refine (scan_end_post _ _ session true w w0 w1 _ end_ r w' Hd0 Hd1 Hpost Hrun _).
  intros kept n batch w2 -> Hb Hd2 Hf Hne. unfold filter_transparent_batch in Hf. observe Hf alone w3.
  pose proof (advances_ok _ _ _ _ _ Hf) as Hl1. apply filter_transparent_kept in Hf as (Hvis & Hses & Halone0).
  assert (later w w3) by (chain).
  apply bind_ok in Hrun as (still & w4 & Hstill & Hrun).
  assert (later w1 w4) as Hd5 by (destruct (has_items kept.2); exact (advances_ok _ _ _ _ _ Hstill)).
  eapply (register_found_post session true w w4 n batch); [done| |exact Hrun| |].
  - chain.
  - intros o [Ho|Ho]%elem_of_app.
    { destruct (Hvis o Ho) as [? H']. split; [done|]. unfold permitted. rewrite Hp. left. widen. }
    destruct still; [|by apply elem_of_nil in Ho].
    destruct (Hses o Ho) as [Hin Hs]. split; [done|]. unfold permitted. rewrite Hp. right.
    assert (Hitems : has_items kept.2 = true) by (by destruct kept.2; [apply elem_of_nil in Ho|]).
    assert (alone = true) as -> by (destruct alone; [done|]; rewrite Halone0 in Ho by done; by apply elem_of_nil in Ho).
    rewrite Hitems in Hstill. apply alone_run in Halone, Hstill.
    exists w3, w1. split_and!; [widen|done..].
  - intros [Hk1 Hk2]%app_eq_nil. right; right. rewrite Hk1 in Hne. cbn in Hne. rewrite Hne in Hstill.
    destruct still; [by rewrite Hk2 in Hne|]. exists w1, w4. split_and!; [by etransitivity|done..].
Qed.

Lemma find_logged_out_run session fuel w w0 r w' : no_policy -> later w w0 ->
  find_logged_out native cid session (batches session) scan_bound fuel env w0 = (r, w') -> find_post session false r w w'.
Proof.
  intros Hp Hd0 Hrun. unfold find_logged_out in Hrun. apply bind_ok in Hrun as (end_ & w1 & Hscan & Hrun).
  apply scan_run in Hscan as [Hd1 Hpost]; [|apply _].
  refine (scan_end_post _ _ session false w w0 w1 _ end_ r w' Hd0 Hd1 Hpost Hrun _).
  intros kept n batch w2 -> Hb Hd2 Hf Hne. apply filter_logged_out_kept in Hf.
  eapply (register_found_post session false w w1 n batch); [done|by etransitivity|exact Hrun| |].
  - intros o Ho. destruct (Hf o Ho) as [? H]. split; [done|]. unfold permitted. rewrite Hp. widen.
  - by intros ->.
Qed.

#[local] Instance advances_cache_found found : Advances (cache_found cid found).
Proof. induction found as [|[v md] found IH]; cbn [cache_found]; apply _. Qed.

Lemma find_authz_run session logged_in fuel w w0 r w' : ~ no_policy -> later w w0 ->
  find_authz native policy cid vs session logged_in (batches session) scan_bound fuel env w0 = (r, w') -> find_post session logged_in r w w'.
Proof.
  intros Hp Hd0 Hrun. unfold find_authz in Hrun. observe Hrun authz w1. assert (later w w1) as Hw1 by (by etransitivity).
  destruct authz as [[[identity label] serial]|].
  2:{ injection Hrun as <- <-. split; [by left|]. intros _ _. right; left. by exists w0, w1. }
  apply authz_run in Hauthz.
  apply bind_ok in Hrun as (end_ & w2 & Hscan & Hrun). apply scan_run in Hscan as [Hd2 Hpost]; [|apply _].
  refine (scan_end_post _ _ session logged_in w w1 w2 _ end_ r w' Hw1 Hd2 Hpost Hrun _).
  intros kept n batch w3 -> Hb Hd3 Hf Hne. apply filter_authz_kept in Hf.
  observe Hrun handles w4. destruct handles as [handles|]; [|by injection Hrun as <- <-; split; [left|]].
  observe Hrun u w5. injection Hrun as <- <-. split; [right; split; [done|]|].
  - pose proof (register_handles_run _ _ _ _ _ _ Hhandles) as (c & Hc & Hn). exists n, batch, kept.*1, w2, w4.
    split_and!; [done|by etransitivity|done..|by eapply registered_all|].
    intros o ([o' md] & -> & Ho)%list_elem_of_fmap. destruct (Hf _ Ho) as [? H]. split; [done|]. unfold permitted.
    destruct (negb _ && negb _); [done|]. exists identity, label, serial, md. split; widen.
  - intros _ ->. apply register_empty in Hhandles; [|done]. by destruct kept.
Qed.

Lemma resolve_errors now m rv m' : resolve_session now cid vs m = (Err rv, m') -> rv <> Rv.OK.
Proof.
  unfold resolve_session. destruct (get_context _ _ _ _) as [[[s u]|] m1]; [|by intros [= <- _]].
  destruct s; [done|]. destruct u; by intros [= <- _].
Qed.

(** The session and the login of the request, from the caller's context. *)
Definition session_found (session : CkSessionHandle) (w w' : World) : Prop :=
  exists n m c, during w w' n m /\ contexts m !! cid = Some c /\
    HandleMap_resolve (VH vs) (session_handles c) = Some (BH (session_raw session)).

Definition login_found (logged_in : bool) (w w' : World) : Prop :=
  exists n m, during w w' n m /\
    logged_in = bool_decide (is_Some (c ← contexts m !! cid; slot ← session_slots c !! VH vs; login_state c !! slot)).

#[export] Instance session_found_widens session : Widens (session_found session).
Proof. intros w0 w w' w1 H0 H1 (n & m & c & ? & ?). exists n, m, c. split; [widen|done]. Qed.
#[export] Instance login_found_widens logged_in : Widens (login_found logged_in).
Proof. intros w0 w w' w1 H0 H1 (n & m & ? & ?). exists n, m. split; [widen|done]. Qed.

#[local] Instance advances_login_state : Advances (session_slot_login_state cid vs).
Proof. unfold session_slot_login_state. apply _. Qed.

Lemma session_run session w w' : critical (fun now => resolve_session now cid vs) env w = (Ok session, w') -> session_found session w w'.
Proof.
  intros [Hd H]%critical_ok. unfold resolve_session, get_context in H. destruct (contexts _ !! cid) as [c|] eqn:Ec; [|done].
  eexists _, _, c. split_and!; [exact Hd|done|]. cbn -[HandleMap_resolve HandleMap_suspended_backend] in H.
  destruct (HandleMap_resolve (VH vs) (session_handles c)) as [[b]|]; [by injection H as ->|].
  by destruct (HandleMap_suspended_backend _ _).
Qed.

Lemma login_run login w w' : session_slot_login_state cid vs env w = (login, w') -> login_found (bool_decide (is_Some login)) w w'.
Proof.
  unfold session_slot_login_state. intros H. observe H r w1. apply ret_ok in H as [<- ->]. apply critical_ok in Hr as [Hd ->].
  eexists _, _. split; [exact Hd|]. unfold get_context. by destruct (contexts _ !! cid).
Qed.

(** A request that gets past the session answers as [find_post] says. *)
Lemma find_run fuel w r w' : find_objects_with_bound native policy cid vs batches scan_bound fuel env w = (r, w') ->
  (exists rv, r = Found rv [] /\ rv <> Rv.OK) \/
  exists session logged_in w0, session_found session w w0 /\ login_found logged_in w w0 /\ later w w0 /\ find_post session logged_in r w0 w'.
Proof.
  intros Hrun. unfold find_objects_with_bound in Hrun. observe Hrun resolved w0. destruct resolved as [session|rv].
  2:{ left. injection Hrun as <- _. exists rv. split; [done|]. unfold critical in Hresolved.
      destruct (resolve_session _ _ _ _) as [x m1] eqn:E. injection Hresolved as -> _. by eapply resolve_errors. }
  right. observe Hrun st w1. exists session, (bool_decide (is_Some st)), w1.
  apply session_run in Hresolved. apply login_run in Hst. split_and!; [widen|widen|by etransitivity|].
  cbn zeta in Hrun. destruct (negb (per_object_active policy) && _) eqn:Ep.
  - destruct (bool_decide _); [by eapply find_transparent_run|by eapply find_logged_out_run].
  - eapply find_authz_run; [by rewrite Ep|reflexivity|exact Hrun].
Qed.

(** C19: An object is answered by a search only if the module put it in one of
    its batches for the session the caller's map names and, while the request
    ran and before anything was registered, the checks of the caller's case
    passed for that object.  Without an object or class policy: the context
    already names it, or the backend reported it (in that session) to be a token
    object or of a class without that flag; or it reported a session object while
    the context was, before and after, alone on its slot; and for a caller that
    is not logged in it is also known to be public.  With a policy: the backend
    reported metadata for that object whose unique id, and class where classes
    are restricted, the policy grants to the identity bound to the context on
    the session's token, and the ownership and login checks passed.  Its handle
    names it in the context's map.  A failure reveals no handle. *)
Theorem find_reveals_only_permitted fuel w rv handles w' :
  find_objects_with_bound native policy cid vs batches scan_bound fuel env w = (Found rv handles, w') -> handles <> [] ->
  rv = Rv.OK /\ exists session logged_in w0, session_found session w w0 /\ login_found logged_in w w0 /\
    later w w0 /\ revealed session logged_in handles w0 w'.
Proof.
  intros [(rv' & [= <- ->] & _)|(session & login & w0 & Hs & Hl & Hw & [[->|[-> Hr]] _])]%find_run Hne; [done..|].
  split; [done|]. exists session, login, w0. done.
Qed.

(** A search answers success with no handle only when the module's own search is
    over, when the policy's subject cannot be determined, or when another context
    came to the slot during the scan. *)
Theorem empty_answer_means_exhausted fuel w w' :
  find_objects_with_bound native policy cid vs batches scan_bound fuel env w = (Found Rv.OK [], w') ->
  exists session w0, session_found session w w0 /\ later w w0 /\ over session w0 w'.
Proof.
  intros [(rv' & [= <-] & Hrv)|(session & login & w0 & Hs & _ & Hw & [_ Hover])]%find_run; [done|]. exists session, w0. auto.
Qed.

(** A handler, by fuel, that is done and stays so. *)
Definition done_by (fuel : nat) (w : World) (h : nat -> Handler FindResponse) : Prop :=
  (h fuel env w).1 <> StillScanning /\ forall more, h (fuel + more)%nat env w = h fuel env w.

Lemma done_ret fuel w r : r <> StillScanning -> done_by fuel w (fun _ => ret r).
Proof. by split. Qed.

Lemma done_bind {A} fuel w (h : Handler A) (k : A -> nat -> Handler FindResponse) :
  (forall a w1, h env w = (a, w1) -> done_by fuel w1 (k a)) -> done_by fuel w (fun fuel => bind h (fun a => k a fuel)).
Proof. intros H. unfold done_by, bind. destruct (h env w) as [a w1]. by apply H. Qed.

Lemma register_found_done kept w : (register_found cid kept env w).1 <> StillScanning.
Proof. unfold register_found, bind. destruct (register_object_handles _ _ _ _) as [[hs|] w1]; by cbn. Qed.

Definition rounds_suffice (fuel : nat) : Prop :=
  (exists limit, scan_bound = Some limit /\ limit < N.of_nat fuel) \/
  (forall session, exists n, (n < fuel)%nat /\ match batches session n with Some (Ok (_ :: _)) => False | _ => True end).

Lemma loop_done {K} (filter_batch : list CkObjectHandle -> Handler K) nonempty session (rest : K -> Handler FindResponse) fuel w :
  rounds_suffice fuel -> (forall kept w, (rest kept env w).1 <> StillScanning) ->
  done_by fuel w (fun fuel => bind (scan (batches session) scan_bound filter_batch nonempty fuel 0 0) (fun end_ =>
    match end_ with
    | ScanBroken => ret FindStatus
    | ScanOutOfFuel => ret StillScanning
    | ScanFailed rv => ret (Found rv [])
    | ScanExhausted => register_found cid []
    | ScanKept kept => rest kept
    end)).
Proof.
  intros Hsuf Hrest.
  destruct (scan_ends (batches session) scan_bound filter_batch nonempty env fuel 0 0 w) as [Hend Hmore].
  { destruct Hsuf as [(limit & ? & ?)|Hn]; [left; exists limit; split; [done|lia]|right].
    destruct (Hn session) as (n & ? & ?). exists n. split; [lia|done]. }
  { intros ->. destruct Hsuf as [(limit & ? & ?)|Hn]; [lia|]. destruct (Hn session) as (n & ? & ?). lia. }
  split; [|intros more; unfold bind; by rewrite Hmore].
  unfold bind. destruct (scan _ _ _ _ _ _ _ _ _) as [[kept| |rv| |] w1]; first [apply Hrest|apply register_found_done|done].
Qed.

(** C22: The loops of a search end: within one round more than the scan bound, or, for
    a module that ends its search or fails, within the rounds until then.  More
    fuel changes nothing. *)
Theorem search_terminates fuel w :
  rounds_suffice fuel ->
  (find_objects_with_bound native policy cid vs batches scan_bound fuel env w).1 <> StillScanning /\
  forall more, find_objects_with_bound native policy cid vs batches scan_bound (fuel + more) env w =
    find_objects_with_bound native policy cid vs batches scan_bound fuel env w.
Proof.
  intros Hsuf. apply (done_bind fuel w). intros [session|rv] w1 Hres.
  2:{ apply done_ret. done. }
  apply (done_bind fuel w1). intros login w2 _. cbn zeta. destruct (negb (per_object_active policy) && _).
  - destruct (bool_decide _); unfold find_transparent, find_logged_out; apply loop_done; [done| |done|].
    + intros kept w3. unfold bind. match goal with |- context [match ?x with (a, w0) => _ end] => destruct x end. apply register_found_done.
    + intros kept w3. apply register_found_done.
  - unfold find_authz. apply (done_bind fuel w2). intros [[[identity label] serial]|] w3 _; [|by apply done_ret].
    apply loop_done; [done|]. intros kept w4. unfold bind. destruct (register_object_handles _ _ _ _) as [[hs|] w5]; [|done].
    by destruct (cache_found _ _ _ _).
Qed.
End search.

(** ** Concrete runs *)

Lemma run_answers {A B} (p : A * B) a : p.1 = a -> p = (a, p.2).
Proof. by destruct p; cbn; intros ->. Qed.

(** The context is logged in; its handle 1 is object 900. *)
Definition demo_logged_in : World :=
  MkWorld (demo_mgr <| contexts := {[ "ctx" := demo_ctx <| login_state := {[ demo_slot 5 := User ]} |> ]} |>) demo_logs 0 [] [] [].

(** A search that finds [objects] in its first round, and then nothing. *)
Definition finds (objects : list CkObjectHandle) : CkSessionHandle -> Batches := fun _ n =>
  Some (Ok (if bool_decide (n = 0%nat) then objects else [])).

Definition demo_find (policy : TokenPolicy) (batches : CkSessionHandle -> Batches) (env : Env) : FindResponse :=
  (find_objects_with_bound Little policy "ctx" 1 batches (Some 10) 11 env demo_logged_in).1.

Lemma find_reveals_only_permitted_witness :
  demo_find TokenPolicy_default (finds [MkObject 900; MkObject 901]) demo_env = Found Rv.OK [1; 2] /\
  exists session logged_in w0, session_found "ctx" 1 session demo_logged_in w0 /\ login_found "ctx" 1 logged_in demo_logged_in w0 /\
    later demo_logged_in w0 /\
    revealed Little demo_granted "ctx" 1 demo_env (finds [MkObject 900; MkObject 901]) session logged_in [1; 2] w0
      (find_objects_with_bound Little demo_granted "ctx" 1 (finds [MkObject 900; MkObject 901]) (Some 10) 11 demo_env demo_logged_in).2.
Proof.
  split; [vm_compute; reflexivity|].
  refine (proj2 (find_reveals_only_permitted Little demo_granted "ctx" 1 demo_env (finds [MkObject 900; MkObject 901]) (Some 10) 11
    demo_logged_in Rv.OK [1; 2] _ (run_answers _ _ _) _)); [|discriminate]. vm_compute. reflexivity.
Defined.

(** A module that has one more foreign session object in every round. *)
Definition endless : CkSessionHandle -> Batches := fun _ n => Some (Ok [MkObject (1000 + N.of_nat n)]).

(** The attributes of a session object; before step [k] the other context opens
    a session on the slot. *)
Definition session_object_env (k : nat) : Env := fun n =>
  MkEnvStep 7 (if bool_decide (n = k) then fun m => m <| contexts ::= <[ "other" := (LogicalClientInstance_register_session (BH 72) (demo_slot 5) demo_other).2 ]> |> else fun m => m)
    (fun _ => Some (Ok ("Audit", "1"))) (fun _ _ _ => Some (Ok [Some (AvBool false)])) true (Done (Ok 71)) (fun _ => Done (Ok 0)) (MkLogoutEnv true (fun m => m) false false).

Lemma search_terminates_witness :
  demo_find TokenPolicy_default endless (session_object_env 0) = Found Rv.DEVICE_ERROR [] /\
  demo_find TokenPolicy_default endless (session_object_env 0) <> StillScanning.
Proof.
  split; [vm_compute; reflexivity|].
  refine (proj1 (search_terminates Little TokenPolicy_default "ctx" 1 (session_object_env 0) endless (Some 10) 11 demo_logged_in _)).
  left. exists 10. split; reflexivity.
Defined.

(** The second round of the search holds the context's own object 900. *)
Definition two_rounds : CkSessionHandle -> Batches := fun _ n =>
  Some (Ok (if bool_decide (n = 0%nat) then [MkObject 950] else if bool_decide (n = 1%nat) then [MkObject 900] else [])).

(** The scan keeps a session object of a context alone on its slot, another
    context opens a session there, and the check after the loop drops the object:
    the answer is success and no handle, which ends the caller's search, though
    the module's next batch holds an object the context owns. *)
Theorem sole_recheck_ends_search :
  demo_find TokenPolicy_default two_rounds (session_object_env 99) = Found Rv.OK [2] /\
  demo_find TokenPolicy_default two_rounds (session_object_env 7) = Found Rv.OK [] /\
  demo_find TokenPolicy_default (fun s n => two_rounds s (S n)) (session_object_env 99) = Found Rv.OK [1].
Proof. vm_compute. split_and!; reflexivity. Qed.
