(* ===== verification/Attributes.v ===== *)
(** * Object attributes

    Models [crates/server/src/server/grpc_service/object/attributes.rs]: the two
    attribute reads with the coalescing cache, the attribute write and the object
    size; [attr_value_to_bytes] of [grpc_service/mod.rs], [attribute_results] of
    [object/mod.rs] and the classification of secret attributes of
    [crates/types/src/attribute.rs].

    [spawn_task] and [spawn_backend_exact] are a call to the module whose answer
    [None] is a transport [Status]. *)

From S2P Require Import Prelude Ck Width HandleMap SlotMap Connection Context Manager Session Identity Mech Grant Policy Handler Authorize.
From S2P Require Import Shapes Registry Params Validate Embedded KeyGen Lifecycle.
Open Scope N_scope.

(** ** Attribute values *)

Definition CKA_VALUE : CkAttributeType := 17.
Definition CKA_PRIVATE_EXPONENT : CkAttributeType := 291.
Definition CKA_PRIME_1 : CkAttributeType := 292.
Definition CKA_PRIME_2 : CkAttributeType := 293.
Definition CKA_EXPONENT_1 : CkAttributeType := 294.
Definition CKA_EXPONENT_2 : CkAttributeType := 295.
Definition CKA_COEFFICIENT : CkAttributeType := 296.

Definition VALUE_BEARING_SECRET : list CkAttributeType :=
  [CKA_VALUE; CKA_PRIVATE_EXPONENT; CKA_PRIME_1; CKA_PRIME_2; CKA_EXPONENT_1; CKA_EXPONENT_2; CKA_COEFFICIENT].

Definition is_value_bearing_secret (t : CkAttributeType) : bool := bool_decide (t ∈ VALUE_BEARING_SECRET).

(** [AttributeResult] of the wire. *)
Record AttributeResult := MkAttributeResult {
  ar_attr_type : CkAttributeType;
  ar_result : option (list N);
  ar_actual_length : N;
}.

(** [CkAttributeQuery] and [CkAttributeQueryResult], whose wire forms have the
    same fields. *)
Inductive CkAttributeQuery := MkCkAttributeQuery {
  aq_attr_type : CkAttributeType;
  aq_buffer_present : bool;
  aq_buffer_len : N;
  aq_nested : option (list CkAttributeQuery);
}.
Inductive CkAttributeQueryResult := MkCkAttributeQueryResult {
  aqr_attr_type : CkAttributeType;
  aqr_returned_len : N;
  aqr_apply_returned_len : bool;
  aqr_apply_type : bool;
  aqr_value : option SecretBytes;
  aqr_ck_rv : option CkRv;
  aqr_nested : option (list CkAttributeQueryResult);
}.

Definition len64 {A} (l : list A) : N := N.of_nat (length l).

Section attributes.
Context (native : ByteOrder).

Definition attr_value_to_bytes (v : CkAttributeValue) : list N :=
  match v with
  | AvBool b => [N.b2n b]
  | AvUlong u => write_uint u 8 native
  | AvBytes b => b
  | AvString s => s
  | AvNestedTemplate _ => []
  end.

Definition attr_value_to_secret_bytes (value : CkAttributeValue) : SecretBytes :=
  match value with
  | AvBytes secret | AvString secret => secret
  | scalar => attr_value_to_bytes scalar
  end.

Definition attribute_results (template : list CkAttribute) : list AttributeResult :=
  (fun attr : CkAttribute =>
    let encoded_value := attr_value_to_bytes <$> attr.2 in
    MkAttributeResult attr.1 encoded_value (from_option len64 0 encoded_value)) <$> template.

Definition proto_result_from_cache (attr_type : CkAttributeType) (cached : CachedAttr) : AttributeResult :=
  MkAttributeResult attr_type (Some (value cached)) (len64 (value cached)).

Definition exact_result_from_cache (query : CkAttributeQuery) (cached : CachedAttr) : CkAttributeQueryResult :=
  let value_len := len64 (value cached) in
  if negb (aq_buffer_present query) then
    MkCkAttributeQueryResult (aq_attr_type query) value_len true false None None None
  else if aq_buffer_len query <? value_len then
    MkCkAttributeQueryResult (aq_attr_type query) (2 ^ 64 - 1) true false None (Some Rv.BUFFER_TOO_SMALL) None
  else MkCkAttributeQueryResult (aq_attr_type query) value_len true false (Some (value cached)) None None.

(** ** Overall return values *)

Definition rank (rv : CkRv) : N :=
  if rv_eqb rv Rv.OK then 0
  else if rv_eqb rv Rv.BUFFER_TOO_SMALL then 1
  else if rv_eqb rv Rv.ATTRIBUTE_TYPE_INVALID then 2
  else if rv_eqb rv Rv.ATTRIBUTE_SENSITIVE then 3
  else 4.

Definition merge_exact_rv (a b : CkRv) : CkRv := if rank a <? rank b then b else a.

Definition exact_result_rv (r : CkAttributeQueryResult) : CkRv := default Rv.OK (aqr_ck_rv r).

(** Whether the results line up with the queries. *)
Definition validate_exact_attribute_results (query_types : list CkAttributeType) (results : list CkAttributeQueryResult) : bool :=
  bool_decide (length results = length query_types) && forallb (fun p => p.1 =? aqr_attr_type p.2) (zip query_types results).

(** ** The cache *)

(** [attr_cache_get_with]: what [f] makes of the entry. *)
Definition cached {A} (cid : ClientContextId) (object_handle : N) (t : CkAttributeType) (f : CachedAttr -> A) : Handler (option A) :=
  if is_value_bearing_secret t then ret None
  else hit <- critical (fun now => attr_cache_get now cid object_handle t);; ret (f <$> hit).

Definition put (cid : ClientContextId) (object_handle : N) (t : CkAttributeType) (bytes : SecretBytes) : Handler unit :=
  critical (fun now m => (tt, attr_cache_put now cid object_handle t (MkCachedAttr bytes (rv_raw Rv.OK)) m)).

(** The positions that miss take the fetched results in order; [None]: one is
    left without (a panic). *)
Fixpoint fill {A} (ordered : list (option A)) (fetched : list A) : option (list A) :=
  match ordered, fetched with
  | [], _ => Some []
  | Some hit :: ordered, _ => results ← fill ordered fetched; Some (hit :: results)
  | None :: ordered, result :: fetched => results ← fill ordered fetched; Some (result :: results)
  | None :: _, [] => None
  end.

(** The requests at the positions that miss. *)
Definition misses {Q A} (requests : list Q) (ordered : list (option A)) : list Q :=
  (zip requests ordered) ≫= (fun p => match p.2 with Some _ => [] | None => [p.1] end).

(** ** The gate on secret attributes *)

(** [audited]: the denial was recorded.  [None]: a transport [Status]. *)
Definition extract_gate (policy : TokenPolicy) (audited : bool) (cid : ClientContextId) (virtual_session object_handle : N)
    (types : list CkAttributeType) : Handler (option (CkResult unit)) :=
  if existsb is_value_bearing_secret types then
    permitted <- extract_is_permitted native policy cid virtual_session object_handle;;
    ret match permitted with
        | None => None
        | Some true => Some (Ok tt)
        | Some false => Some (Err (if audited then Rv.KEY_FUNCTION_NOT_PERMITTED else Rv.FUNCTION_FAILED))
        end
  else ret (Some (Ok tt)).

(** ** [C_GetAttributeValue] *)

Section handlers.
(** The configuration: policy, whether the coalescer is on, and whether the audit
    record of a denial is accepted. *)
Context (policy : TokenPolicy) (coalesce_enabled audited : bool).

Record ObjectRequest := MkObjectRequest { or_context : ClientContextId; or_session : N; or_object : N }.

(** [ck_rv] and results; [None]: a transport [Status]. *)
Definition GetResponse : Type := option (CkRv * list AttributeResult).

(** The call: the result, and the template as the module leaves it. *)
Definition GetModule : Type := CkSessionHandle -> CkObjectHandle -> list CkAttribute -> option (CkResult unit * list CkAttribute).

Fixpoint look_up_template (cid : ClientContextId) (object_handle : N) (template : list CkAttribute) : Handler (list (option AttributeResult)) :=
  match template with
  | [] => ret []
  | attr :: template =>
      hit <- cached cid object_handle attr.1 (proto_result_from_cache attr.1);;
      hits <- look_up_template cid object_handle template;;
      ret (hit :: hits)
  end.

(** The loop over the fetched attributes: each is stored, if it may be, and
    encoded. *)
Fixpoint store_fetched (cid : ClientContextId) (object_handle : N) (fetched : list CkAttribute) : Handler (list AttributeResult) :=
  match fetched with
  | [] => ret []
  | fetched_attr :: fetched =>
      let secret_value := attr_value_to_secret_bytes <$> fetched_attr.2 in
      match secret_value with
      | Some secret => if is_value_bearing_secret fetched_attr.1 then ret tt else put cid object_handle fetched_attr.1 secret
      | None => ret tt
      end;;;
      results <- store_fetched cid object_handle fetched;;
      ret (MkAttributeResult fetched_attr.1 secret_value (from_option len64 0 secret_value) :: results)
  end.

Definition read_coalesced (module : GetModule) (cid : ClientContextId) (object_handle : N) (session : CkSessionHandle)
    (object : CkObjectHandle) (template : list CkAttribute) : Handler GetResponse :=
  ordered <- look_up_template cid object_handle template;;
  let fetch_template := misses template ordered in
  if bool_decide (fetch_template = []) && negb (bool_decide (template = [])) then
    ret (results ← fill ordered []; Some (Rv.OK, results))
  else
    reply <- module_call (module session object fetch_template);;
    match reply with
    | None => ret None
    | Some (result, fetched) =>
        fetched <- store_fetched cid object_handle (take (length fetch_template) fetched);;
        ret (results ← fill ordered fetched; Some (ck_rv_of result, results))
    end.

Definition read_directly (module : GetModule) (session : CkSessionHandle) (object : CkObjectHandle) (template : list CkAttribute)
  : Handler GetResponse :=
  reply <- module_call (module session object template);;
  ret match reply with
      | None => None
      | Some (result, template) => Some (ck_rv_of result, attribute_results template)
      end.

(** [template]: what [convert_template] makes of the request's. *)
Definition get_attribute_value (module : GetModule) (req : ObjectRequest) (template : CkResult (list CkAttribute)) : Handler GetResponse :=
  let cid := or_context req in
  r <- resolve_session_and_object native policy cid (or_session req) (or_object req);;
  match r with
  | Err rv => ret (Some (rv, []))
  | Ok (session, object) =>
      match template with
      | Err rv => ret (Some (rv, []))
      | Ok template =>
          gate <- extract_gate policy audited cid (or_session req) (or_object req) template.*1;;
          match gate with
          | None => ret None
          | Some (Err rv) => ret (Some (rv, []))
          | Some (Ok _) =>
              if coalesce_enabled then read_coalesced module cid (or_object req) session object template
              else read_directly module session object template
          end
      end
  end.

(** ** [C_GetAttributeValue], exact buffers *)

Definition GetExactResponse : Type := option (CkRv * list CkAttributeQueryResult).
Definition GetExactModule : Type :=
  CkSessionHandle -> CkObjectHandle -> option (list CkAttributeQuery) -> option (CkResult (CkRv * list CkAttributeQueryResult)).

(** The hits, and the merge of their return values from [overall] on. *)
Fixpoint look_up_queries (cid : ClientContextId) (object_handle : N) (overall : CkRv) (queries : list CkAttributeQuery)
  : Handler (CkRv * list (option CkAttributeQueryResult)) :=
  match queries with
  | [] => ret (overall, [])
  | query :: queries =>
      hit <- cached cid object_handle (aq_attr_type query) (exact_result_from_cache query);;
      let overall := match hit with Some result => merge_exact_rv overall (exact_result_rv result) | None => overall end in
      rest <- look_up_queries cid object_handle overall queries;;
      ret (rest.1, hit :: rest.2)
  end.

Fixpoint store_exact (cid : ClientContextId) (object_handle : N) (fetched : list CkAttributeQueryResult) : Handler unit :=
  match fetched with
  | [] => ret tt
  | result :: fetched =>
      match aqr_ck_rv result, aqr_value result with
      | None, Some bytes =>
          if is_value_bearing_secret (aqr_attr_type result) then ret tt else put cid object_handle (aqr_attr_type result) bytes
      | _, _ => ret tt
      end;;;
      store_exact cid object_handle fetched
  end.

Definition read_exact_coalesced (module : GetExactModule) (cid : ClientContextId) (object_handle : N) (session : CkSessionHandle)
    (object : CkObjectHandle) (queries_opt : option (list CkAttributeQuery)) : Handler GetExactResponse :=
  let queries := default [] queries_opt in
  looked <- look_up_queries cid object_handle Rv.OK queries;;
  let fetch_queries := misses queries looked.2 in
  if bool_decide (fetch_queries = []) && negb (bool_decide (queries = [])) then
    ret (results ← fill looked.2 []; Some (looked.1, results))
  else
    reply <- module_call (module session object (if bool_decide (is_Some queries_opt) then Some fetch_queries else None));;
    match reply with
    | None => ret None
    | Some (Err rv) => ret (Some (rv, []))
    | Some (Ok (backend_rv, fetched)) =>
        if validate_exact_attribute_results (aq_attr_type <$> fetch_queries) fetched then
          store_exact cid object_handle fetched;;;
          ret (results ← fill looked.2 fetched; Some (merge_exact_rv looked.1 backend_rv, results))
        else ret None
    end.

Definition read_exact_directly (module : GetExactModule) (session : CkSessionHandle) (object : CkObjectHandle)
    (queries_opt : option (list CkAttributeQuery)) : Handler GetExactResponse :=
  reply <- module_call (module session object queries_opt);;
  ret match reply with
      | None => None
      | Some (Err rv) => Some (rv, [])
      | Some (Ok (backend_rv, results)) =>
          if validate_exact_attribute_results (aq_attr_type <$> default [] queries_opt) results then Some (backend_rv, results) else None
      end.

Definition exact_output_effects_version_supported (v : N) : bool :=
  (EXACT_OUTPUT_EFFECTS_VERSION_MIN <=? v) && (v <=? EXACT_OUTPUT_EFFECTS_VERSION_MAX).

(** The queries of a request with the bit [template_null]; [None]: malformed. *)
Definition queries_of (template_null : bool) (queries : list CkAttributeQuery) : option (option (list CkAttributeQuery)) :=
  if template_null then match queries with [] => Some None | _ => None end else Some (Some queries).

Definition get_attribute_value_exact (module : GetExactModule) (req : ObjectRequest) (version : N) (template_null : bool)
    (queries : list CkAttributeQuery) : Handler GetExactResponse :=
  if negb (exact_output_effects_version_supported version) then ret None
  else
    let cid := or_context req in
    r <- resolve_session_and_object native policy cid (or_session req) (or_object req);;
    match r with
    | Err rv => ret (Some (rv, []))
    | Ok (session, object) =>
        match queries_of template_null queries with
        | None => ret (Some (Rv.ARGUMENTS_BAD, []))
        | Some queries_opt =>
            gate <- extract_gate policy audited cid (or_session req) (or_object req) (aq_attr_type <$> default [] queries_opt);;
            match gate with
            | None => ret None
            | Some (Err rv) => ret (Some (rv, []))
            | Some (Ok _) =>
                if coalesce_enabled then read_exact_coalesced module cid (or_object req) session object queries_opt
                else read_exact_directly module session object queries_opt
            end
        end
    end.

(** ** [C_SetAttributeValue] and [C_GetObjectSize] *)

Definition set_attribute_value (module : CkSessionHandle -> CkObjectHandle -> option (list CkAttribute) -> option (CkResult unit))
    (req : ObjectRequest) (template : CkResult (option (list CkAttribute))) : Handler (option CkRv) :=
  let cid := or_context req in
  r <- resolve_session_and_object native policy cid (or_session req) (or_object req);;
  match r with
  | Err rv => ret (Some rv)
  | Ok (session, object) =>
      match template with
      | Err rv => ret (Some rv)
      | Ok template =>
          reply <- module_call (module session object template);;
          match reply with
          | None => ret None
          | Some result =>
              let rv := ck_rv_of result in
              (if coalesce_enabled && rv_eqb rv Rv.OK
               then critical (fun now m => (tt, attr_cache_invalidate_object now cid (or_object req) m)) else ret tt);;;
              ret (Some rv)
          end
      end
  end.

Definition get_object_size (module : CkSessionHandle -> CkObjectHandle -> option (CkResult N)) (req : ObjectRequest)
  : Handler (option (CkRv * N)) :=
  r <- resolve_session_and_object native policy (or_context req) (or_session req) (or_object req);;
  match r with
  | Err rv => ret (Some (rv, 0))
  | Ok (session, object) =>
      reply <- module_call (module session object);;
      ret match reply with
          | None => None
          | Some (Ok size) => Some (Rv.OK, size)
          | Some (Err rv) => Some (rv, 0)
          end
  end.
End handlers.
End attributes.
