(* ===== verification/AttributeProps.v ===== *)
(** * Object attributes: properties

    [coalescing_transparent] and [exact_coalescing_transparent]: with the cache
    and without it a read answers the same.  [secrets_never_cached]: no value of
    a secret attribute enters the cache.  The runs at the end show what the cache
    does when its conditions do not hold. *)

From S2P Require Import Prelude Ck Width HandleMap SlotMap Connection Context Manager Session Teardown Identity Mech Grant Policy Handler Authorize.
From S2P Require Import AuthorizeProps Shapes ShapeProps Registry Params Validate Embedded EmbeddedProps KeyGen KeyGenProps Search SearchProps.
From S2P Require Import Lifecycle Attributes.
Open Scope N_scope.

(** ** Handlers that leave the attribute caches alone *)

Definition same_caches (m m' : ContextManager) : Prop := attr_cache <$> contexts m = attr_cache <$> contexts m'.

#[export] Instance same_caches_equivalence : Equivalence same_caches.
Proof. unfold same_caches. split; [done|by intros ?? ->|by intros ??? -> ->]. Qed.

(** An invariant of the caches. *)
Definition on_caches (I : ContextManager -> Prop) : Prop := forall m m', same_caches m m' -> I m -> I m'.

Definition spares {A} (h : Handler A) : Prop := forall env I, stable env I -> on_caches I -> upheld env I h (fun _ => True).

Lemma same_contexts_caches m m' : same_contexts m m' -> same_caches m m'.
Proof.
  unfold same_contexts, same_caches. intros H. apply (f_equal (fmap (M := gmap ClientContextId) attr_cache)) in H.
  by rewrite <- !map_fmap_compose in H.
Qed.

Lemma drift_upheld env I w w' : stable env I -> on_caches I -> drift env w w' -> I (w_mgr w) -> I (w_mgr w').
Proof.
  intros Hst Hon H HI. induction H as [|w1 w2 _ IH _ Hsame]; [done|].
  eapply Hon; [|apply Hst, IH]. symmetry. by apply same_contexts_caches.
Qed.

Lemma quiet_spares {A} (h : Handler A) : quiet h -> spares h.
Proof. intros Hq env I Hst Hon w HI. split; [|done]. by eapply drift_upheld. Qed.

Lemma spares_bind {A B} (h : Handler A) (k : A -> Handler B) : spares h -> (forall a, spares (k a)) -> spares (bind h k).
Proof. intros Hh Hk env I Hst Hon. eapply upheld_bind; [by apply Hh|]. intros a _. by apply Hk. Qed.

Lemma spares_critical {A} (f : N -> ContextManager -> A * ContextManager) :
  (forall now m, same_caches (f now m).2 m) -> spares (critical f).
Proof.
  intros Hf env I Hst Hon. apply upheld_critical; [done|]. intros now m HI. split; [|done].
  eapply Hon; [|exact HI]. symmetry. apply Hf.
Qed.

Lemma context_same_caches {R} now cid (f : LogicalClientInstance -> R * LogicalClientInstance) m :
  (forall c, attr_cache (f c).2 = attr_cache c) -> same_caches (get_context now cid f m).2 m.
Proof.
  intros Hf. unfold get_context, same_caches. destruct (contexts m !! cid) as [c|] eqn:E; [|done].
  pose proof (Hf (LogicalClientInstance_touch now c)) as Hc. destruct (f _) as [r c']. cbn in *.
  rewrite fmap_insert, Hc. apply insert_id. by rewrite lookup_fmap, E.
Qed.

Create HintDb spares.
Lemma spares_ret {A} (a : A) : spares (ret a).
Proof. apply quiet_spares, quiet_ret. Qed.
Lemma spares_read {A} (f : N -> ContextManager -> A) : spares (read f).
Proof. apply quiet_spares, quiet_read. Qed.
Lemma spares_module {A} (a : A) : spares (module_call a).
Proof. apply quiet_spares, quiet_module. Qed.
#[export] Hint Resolve spares_ret spares_read spares_module : spares.

Ltac sparing :=
  repeat first
    [ solve [auto with spares nocore]
    | solve [apply quiet_spares; auto with quiet nocore]
    | apply spares_bind; [|intros ?]
    | match goal with |- spares (match ?x with _ => _ end) => destruct x end
    | apply spares_critical; intros now m ].

(** A section that reads or changes one context, its cache apart. *)
Ltac context_spared :=
  match goal with |- context [get_context ?n ?c ?f ?mm] =>
    let H := fresh in
    pose proof (context_same_caches n c f mm) as H; destruct (get_context n c f mm) as [? ?]; apply H
  end.

Section sparing.
Context (native : ByteOrder) (policy : TokenPolicy) (cid : ClientContextId) (vs vo : N).

Lemma spares_metadata : spares (critical (fun now => manager_object_metadata now cid vo)).
Proof.
  sparing. unfold manager_object_metadata. context_spared. intros x. destruct (object_metadata x !! VH vo); [done|]. destruct (token_object_metadata x !! VH vo); [|done].
  by destruct (_ =? _).
Qed.

Lemma cache_metadata_spares now md m : same_caches (cache_object_metadata now cid vo md m) m.
Proof. unfold cache_object_metadata. destruct (is_token md); by apply context_same_caches. Qed.

Lemma spares_fetch_and_cache session object : spares (fetch_and_cache native cid vo session object).
Proof. unfold fetch_and_cache. sparing. apply cache_metadata_spares. Qed.
Hint Resolve spares_metadata spares_fetch_and_cache : spares.

Lemma spares_created : spares (critical (fun now => object_was_created_here now cid vo)).
Proof. sparing. unfold object_was_created_here. by context_spared. Qed.
Hint Resolve spares_created : spares.

Lemma spares_gate bs bo : spares (gate_object_handle native policy cid vs vo bs bo).
Proof. unfold gate_object_handle. sparing. Qed.

Lemma spares_binding : spares (critical (fun now => resolve_session_slot_login now cid vs)).
Proof. sparing. unfold resolve_session_slot_login. by context_spared. Qed.

Lemma spares_object_is_private session object : spares (object_is_private cid vo session object).
Proof. unfold object_is_private, backend_object_is_private, probe_bool_attr. sparing. apply same_contexts_caches, touched_same. Qed.

Lemma spares_rides slot : spares (rides_other_login cid slot).
Proof. unfold rides_other_login, session_slot_contended_login. sparing. apply same_contexts_caches, touched_same. Qed.
Hint Resolve spares_gate spares_binding spares_object_is_private spares_rides : spares.

Lemma spares_resolve : spares (resolve_session_and_object native policy cid vs vo).
Proof.
  unfold resolve_session_and_object, resolve_session_and_handle, private_gate, policy_gate, ensure_private_use_allowed.
  sparing. apply same_contexts_caches, touched_same.
Qed.

#[local] Hint Resolve quiet_token_info : quiet.

Lemma spares_extract_gate audited types : spares (extract_gate native policy audited cid vs vo types).
Proof.
  unfold extract_gate, extract_is_permitted, authz_context_identity, context_exists, resolve_uid_for_extract. sparing.
  all: apply same_contexts_caches; first [apply touched_same|apply slot_same].
Qed.
End sparing.
#[export] Hint Resolve spares_resolve spares_extract_gate : spares.

(** ** Filling the gaps *)

Section filling.
Context {Q A : Type} (g : Q -> A).

(** Every hit is what [g] says. *)
Definition hits_true (requests : list Q) (ordered : list (option A)) : Prop :=
  Forall2 (fun q o => forall r, o = Some r -> r = g q) requests ordered.

Lemma fill_true requests ordered : hits_true requests ordered -> fill ordered (g <$> misses requests ordered) = Some (g <$> requests).
Proof.
  induction 1 as [|q [r|] requests ordered Hr _ IH]; [done| |]; unfold misses in *; cbn.
  - rewrite IH. cbn. by rewrite (Hr r eq_refl).
  - by rewrite IH.
Qed.

Lemma no_miss requests ordered : hits_true requests ordered -> misses requests ordered = [] -> fill ordered [] = Some (g <$> requests).
Proof. intros H Hm. rewrite <- (fill_true _ _ H). by rewrite Hm. Qed.
End filling.

Lemma secret_bytes_same native v : attr_value_to_secret_bytes native v = attr_value_to_bytes native v.
Proof. by destruct v. Qed.

(** ** Cache entries *)

Section entries.
Context (env : Env) (cid : ClientContextId) (oh : N).

(** [P t e] of every entry the context holds for the object. *)
Definition entries (P : CkAttributeType -> CachedAttr -> Prop) (m : ContextManager) : Prop :=
  forall c t e, contexts m !! cid = Some c -> attr_cache c !! (VH oh, t) = Some e -> P t e.

Lemma entries_on_caches P : on_caches (entries P).
Proof.
  intros m m' H Hm c t e Hc He. apply (f_equal (.!! cid)) in H. rewrite !lookup_fmap, Hc in H. cbn in H.
  destruct (contexts m !! cid) as [c0|] eqn:E; cbn in H; [|done]. injection H as H. eapply Hm; [done|]. by rewrite H.
Qed.

Lemma entries_put P now t bytes m : P t (MkCachedAttr bytes (rv_raw Rv.OK)) -> entries P m ->
  entries P (attr_cache_put now cid oh t (MkCachedAttr bytes (rv_raw Rv.OK)) m).
Proof.
  intros HP Hm. unfold attr_cache_put, get_context. destruct (contexts m !! cid) as [c|] eqn:E; [|done].
  intros c' t' e Hc He. cbn in Hc. rewrite lookup_insert_eq in Hc. injection Hc as <-. cbn in He.
  destruct (decide (t' = t)) as [->|Hne]; [rewrite lookup_insert_eq in He; by injection He as <-|].
  rewrite lookup_insert_ne in He by congruence. by eapply Hm.
Qed.

Context (P : CkAttributeType -> CachedAttr -> Prop) (Hst : stable env (entries P)).

Lemma upheld_put t bytes : P t (MkCachedAttr bytes (rv_raw Rv.OK)) -> upheld env (entries P) (put cid oh t bytes) (fun _ => True).
Proof using Hst. intros HP. apply upheld_critical; [done|]. intros now m Hm. split; [|done]. by apply entries_put. Qed.

Lemma upheld_cached {A} t (f : CachedAttr -> A) :
  upheld env (entries P) (cached cid oh t f) (fun o => forall r, o = Some r -> exists e, P t e /\ r = f e).
Proof using Hst.
  unfold cached. destruct (is_value_bearing_secret t); [by apply upheld_ret|].
  eapply (upheld_bind _ _ _ _ (fun hit => forall e, hit = Some e -> P t e)).
  - apply upheld_critical; [done|]. intros now m Hm. unfold attr_cache_get, get_context.
    destruct (contexts m !! cid) as [c|] eqn:E; [|by split]. cbn. split.
    + eapply entries_on_caches; [|exact Hm]. symmetry. unfold same_caches. cbn. rewrite fmap_insert. apply insert_id.
      by rewrite lookup_fmap, E.
    + intros e He. by eapply Hm.
  - intros hit Hhit. apply upheld_ret. intros r Hr. apply fmap_Some in Hr as (e & -> & ->). eauto.
Qed.

Lemma upheld_sparing {A} (h : Handler A) : spares h -> upheld env (entries P) h (fun _ => True).
Proof using Hst. intros H. apply H; [done|apply entries_on_caches]. Qed.
End entries.

(** ** Reading with the cache and without it *)

(** A handler's answer, whatever else its run does. *)
Definition answers {A} (env : Env) (I : ContextManager -> Prop) (h : Handler A) (a : A) : Prop := upheld env I h (fun r => r = a).

Lemma upheld_answer {A} (h : Handler A) env I a w : answers env I h a -> I (w_mgr w) -> (h env w).1 = a.
Proof. intros H HI. by apply H. Qed.

Section plain.
Context (native : ByteOrder) (env : Env) (cid : ClientContextId) (oh : N).

(** A module that answers attribute by attribute, for an object that is there:
    [answer] gives the values it reveals, and what it returns depends only on
    those it does not. *)
Context (module : GetModule) (answer : CkAttributeType -> option CkAttributeValue) (rv_of : list CkAttributeType -> CkResult unit).
Definition attribute_wise : Prop :=
  (forall session object template, module session object template = Some (rv_of template.*1, (fun a => (a.1, answer a.1)) <$> template)) /\
  (forall types, rv_of types = rv_of (filter (fun t => answer t = None) types)) /\ rv_of [] = Ok tt.

(** An entry holds the value. *)
Definition entry_true (t : CkAttributeType) (e : CachedAttr) : Prop :=
  exists v, answer t = Some v /\ value e = attr_value_to_bytes native v.

Context (Hwise : attribute_wise) (Hst : stable env (entries cid oh entry_true)).

Definition result_of (t : CkAttributeType) : AttributeResult :=
  let encoded := attr_value_to_bytes native <$> answer t in MkAttributeResult t encoded (from_option len64 0 encoded).

Lemma look_up_true template :
  upheld env (entries cid oh entry_true) (look_up_template cid oh template) (fun ordered =>
    hits_true (fun a : CkAttribute => result_of a.1) template ordered /\
    Forall2 (fun a o => o <> None -> answer a.1 <> None) template ordered).
Proof using Hst.
  induction template as [|a template IH]; cbn [look_up_template].
  { apply upheld_ret. split; constructor. }
  eapply upheld_bind; [by apply upheld_cached|]. intros hit Hhit. cbv beta in Hhit.
  eapply upheld_bind; [exact IH|]. intros ordered [H1 H2]. apply upheld_ret.
  split; constructor; try done.
  - intros r Hr. destruct (Hhit r Hr) as (e & (v & Hv & He) & ->). unfold result_of, proto_result_from_cache. by rewrite Hv, He.
  - intros Hne. destruct hit as [r|]; [|done]. destruct (Hhit r eq_refl) as (e & (v & Hv & _) & _). congruence.
Qed.

Lemma store_true template :
  answers env (entries cid oh entry_true) (store_fetched native cid oh ((fun a : CkAttribute => (a.1, answer a.1)) <$> template))
    ((fun a : CkAttribute => result_of a.1) <$> template).
Proof using Hst.
  induction template as [|a template IH].
  { by apply upheld_ret. }
  change (fmap ?f (a :: template)) with (f a :: (f <$> template)). cbn [store_fetched fst snd]. unfold answers.
  eapply (upheld_bind _ _ _ _ (fun _ => True)).
  - destruct (answer a.1) as [v|] eqn:E; cbn [fmap option_fmap option_map]; [|by apply upheld_ret].
    destruct (is_value_bearing_secret a.1); [by apply upheld_ret|]. apply upheld_put; [done|]. exists v. split; [done|]. apply secret_bytes_same.
  - intros _ _. eapply upheld_bind; [exact IH|]. intros rs ->. apply upheld_ret. unfold result_of. f_equal.
    destruct (answer a.1) as [v|]; cbn; by rewrite ?secret_bytes_same.
Qed.

(** The types that miss have, among them, all that the module does not reveal. *)
Lemma misses_unrevealed (template : list CkAttribute) (ordered : list (option AttributeResult)) :
  Forall2 (fun a o => o <> None -> answer a.1 <> None) template ordered ->
  filter (fun t => answer t = None) (misses template ordered).*1 = filter (fun t => answer t = None) template.*1.
Proof.
  induction 1 as [|a [r|] template ordered Ha _ IH]; [done| |]; rewrite fmap_cons, filter_cons.
  - change (misses (a :: template) (Some r :: ordered)) with (misses template ordered). by rewrite decide_False by (by apply Ha).
  - change (misses (a :: template) (None :: ordered)) with (a :: misses template ordered). by rewrite fmap_cons, filter_cons, IH.
Qed.

Lemma read_coalesced_answers session object template :
  answers env (entries cid oh entry_true) (read_coalesced native module cid oh session object template)
    (Some (ck_rv_of (rv_of template.*1), (fun a : CkAttribute => result_of a.1) <$> template)).
Proof using Hwise Hst.
  destruct Hwise as (Hmodule & Hrv & Hempty). unfold answers, read_coalesced.
  eapply upheld_bind; [apply look_up_true|]. intros ordered [Hhits Hrev]. cbv zeta.
  apply misses_unrevealed in Hrev. rewrite (Hrv template.*1), <- Hrev, <- Hrv. destruct (bool_decide _ && _) eqn:E.
  - apply andb_true_iff in E as [Em%bool_decide_eq_true _]. apply upheld_ret. rewrite (no_miss _ _ _ Hhits Em), Em. cbn. by rewrite Hempty.
  - eapply (upheld_bind _ _ _ _ (fun r => r = Some (rv_of (misses template ordered).*1, (fun a => (a.1, answer a.1)) <$> misses template ordered))).
    { rewrite Hmodule. intros w Hw. split; [by apply Hst|done]. }
    intros _ ->. rewrite take_ge by (by rewrite length_fmap).
    eapply upheld_bind; [apply store_true|]. intros fetched ->. apply upheld_ret. by rewrite (fill_true _ _ _ Hhits).
Qed.

Lemma read_directly_answers session object template w :
  (read_directly native module session object template env w).1 =
    Some (ck_rv_of (rv_of template.*1), (fun a : CkAttribute => result_of a.1) <$> template).
Proof using Hwise.
  destruct Hwise as (Hmodule & _). unfold read_directly, bind, module_call, ret. cbn. rewrite Hmodule. unfold attribute_results.
  by rewrite <- list_fmap_compose.
Qed.

(** For a module that answers attribute by attribute, and while the entries of
    the object in the caller's cache are true, a read of attributes answers the
    same with the coalescer on as with it off, errors included. *)
Theorem coalescing_transparent policy audited req template w :
  or_context req = cid -> or_object req = oh -> entries cid oh entry_true (w_mgr w) ->
  (get_attribute_value native policy true audited module req template env w).1 =
  (get_attribute_value native policy false audited module req template env w).1.
Proof using Hwise Hst.
  intros Hcid Hoh HI. unfold get_attribute_value. rewrite Hcid, Hoh. unfold bind at 1 3.
  destruct (upheld_sparing env cid oh entry_true Hst _ (spares_resolve native policy cid (or_session req) oh) w HI) as [HI1 _].
  destruct (resolve_session_and_object _ _ _ _ _ env w) as [[[session object]|rv] w1]; [|done]. destruct template as [template|rv]; [|done].
  unfold bind. destruct (upheld_sparing env cid oh entry_true Hst _ (spares_extract_gate native policy cid (or_session req) oh audited template.*1) w1 HI1) as [HI2 _].
  destruct (extract_gate _ _ _ _ _ _ _ env w1) as [[[u|rv]|] w2]; [|done..].
  rewrite read_directly_answers. exact (upheld_answer _ _ _ _ _ (read_coalesced_answers session object template) HI2).
Qed.
End plain.

(** ** The ladder of return values *)

Lemma merge_ok_l b : merge_exact_rv Rv.OK b = b.
Proof.
  unfold merge_exact_rv. destruct (N.ltb_spec (rank Rv.OK) (rank b)) as [|H]; [done|].
  unfold rank in H. change (rv_eqb Rv.OK Rv.OK) with true in H. cbn iota in H. destruct (rv_eqb b Rv.OK) eqn:E; [by apply rv_eqb_eq in E as ->|].
  repeat destruct (rv_eqb b _); lia.
Qed.

Lemma merge_assoc a b c : merge_exact_rv a (merge_exact_rv b c) = merge_exact_rv (merge_exact_rv a b) c.
Proof.
  unfold merge_exact_rv. destruct (N.ltb_spec (rank b) (rank c)), (N.ltb_spec (rank a) (rank b)).
  all: repeat match goal with |- context [?x <? ?y] => destruct (N.ltb_spec x y) end; done || lia.
Qed.

(** Below the top of the ladder a rank is one return value. *)
Lemma rank_inj a b : rank a < 4 -> rank a = rank b -> a = b.
Proof. unfold rank, rv_eqb. repeat case_bool_decide; subst; done || lia. Qed.

Lemma merge_comm a b : rank a < 4 -> merge_exact_rv a b = merge_exact_rv b a.
Proof.
  intros Ha. unfold merge_exact_rv. destruct (N.ltb_spec (rank a) (rank b)), (N.ltb_spec (rank b) (rank a)); try done; try lia.
  apply rank_inj; [done|lia].
Qed.

Lemma merge_rank a b : rank (merge_exact_rv a b) = rank a `max` rank b.
Proof. unfold merge_exact_rv. destruct (N.ltb_spec (rank a) (rank b)); lia. Qed.

(** The return value of a call with these outcomes. *)
Definition ladder (rvs : list CkRv) : CkRv := foldr merge_exact_rv Rv.OK rvs.

Section exact.
Context (native : ByteOrder) (env : Env) (cid : ClientContextId) (oh : N).

(** *** The contract of [C_GetAttributeValue] *)

(** What the module has for an attribute of the object: a value it may reveal,
    one it may not, or none. *)
Inductive AttributeState := Revealed (bytes : SecretBytes) | Withheld | Absent.
Context (attributes : CkAttributeType -> AttributeState).

Definition CK_UNAVAILABLE_INFORMATION : N := 18446744073709551615.

(** PKCS #11 on one attribute: the unavailable length if the value is withheld,
    absent or longer than the buffer; the exact length for a NULL buffer; else
    the value. *)
Definition native_result (q : CkAttributeQuery) : CkAttributeQueryResult :=
  let t := aq_attr_type q in
  let failing rv := MkCkAttributeQueryResult t CK_UNAVAILABLE_INFORMATION true false None (Some rv) None in
  match attributes t with
  | Withheld => failing Rv.ATTRIBUTE_SENSITIVE
  | Absent => failing Rv.ATTRIBUTE_TYPE_INVALID
  | Revealed bytes =>
      let exact := N.of_nat (length bytes) in
      if aq_buffer_present q then
        if exact <=? aq_buffer_len q then MkCkAttributeQueryResult t exact true false (Some bytes) None None
        else failing Rv.BUFFER_TOO_SMALL
      else MkCkAttributeQueryResult t exact true false None None None
  end.

(** The return value of the call: a withheld attribute before an absent one,
    before one that does not fit. *)
Definition native_rv (results : list CkAttributeQueryResult) : CkRv :=
  let some rv := existsb (fun r => bool_decide (aqr_ck_rv r = Some rv)) results in
  if some Rv.ATTRIBUTE_SENSITIVE then Rv.ATTRIBUTE_SENSITIVE
  else if some Rv.ATTRIBUTE_TYPE_INVALID then Rv.ATTRIBUTE_TYPE_INVALID
  else if some Rv.BUFFER_TOO_SMALL then Rv.BUFFER_TOO_SMALL
  else Rv.OK.

(** A module that keeps the contract for the object. *)
Context (module : GetExactModule).
Definition strict_module : Prop :=
  forall session object queries, module session object (Some queries) =
    Some (Ok (native_rv (native_result <$> queries), native_result <$> queries)).

(** An entry holds the value of the attribute. *)
Definition exact_entry_true (t : CkAttributeType) (e : CachedAttr) : Prop := attributes t = Revealed (value e).

Context (Hstrict : strict_module) (Hst : stable env (entries cid oh exact_entry_true)).

(** *** The code against the contract *)

#[local] Abbreviation answer := native_result.

Lemma native_type q : aqr_attr_type (answer q) = aq_attr_type q.
Proof. unfold native_result. destruct (attributes _); [|done..]. destruct (aq_buffer_present q); [|done]. by destruct (_ <=? _). Qed.

(** An entry rebuilds the module's answers. *)
Lemma entry_answers t e q : exact_entry_true t e -> aq_attr_type q = t -> answer q = exact_result_from_cache q e.
Proof.
  unfold exact_entry_true, native_result, exact_result_from_cache. intros H ->. rewrite H. unfold len64.
  destruct (aq_buffer_present q); cbn [negb]; [|done]. rewrite N.leb_antisym. by destruct (_ <? _).
Qed.

(** A value in an answer is that of the attribute. *)
Lemma native_value q bytes : aqr_value (answer q) = Some bytes -> attributes (aq_attr_type q) = Revealed bytes.
Proof.
  unfold native_result. destruct (attributes _); [|done..]. destruct (aq_buffer_present q); [|done]. destruct (_ <=? _); [|done]. cbn. congruence.
Qed.

Lemma native_cases q : aqr_ck_rv (answer q) = None \/ aqr_ck_rv (answer q) = Some Rv.BUFFER_TOO_SMALL \/
  aqr_ck_rv (answer q) = Some Rv.ATTRIBUTE_TYPE_INVALID \/ aqr_ck_rv (answer q) = Some Rv.ATTRIBUTE_SENSITIVE.
Proof. unfold native_result. destruct (attributes _); [|by auto..]. destruct (aq_buffer_present q); [|by auto]. destruct (_ <=? _); by auto. Qed.

(** The ladder is the contract's order. *)
Lemma native_ladder queries : native_rv (answer <$> queries) = ladder (exact_result_rv <$> (answer <$> queries)).
Proof.
  induction queries as [|q queries IH]; [done|]. cbn [fmap list_fmap ladder foldr]. fold (ladder (exact_result_rv <$> (answer <$> queries))).
  rewrite <- IH. unfold native_rv. cbn [existsb].
  destruct (native_cases q) as [E|[E|[E|E]]]; unfold exact_result_rv; rewrite E; cbn -[existsb];
    repeat (destruct (existsb _ _)); reflexivity.
Qed.

Definition hit_rvs (ordered : list (option CkAttributeQueryResult)) : list CkRv :=
  ordered ≫= (fun o => match o with Some r => [exact_result_rv r] | None => [] end).

(** What the cache answers is on the ladder. *)
Definition hits_ranked (ordered : list (option CkAttributeQueryResult)) : Prop := Forall (fun rv => rank rv < 4) (hit_rvs ordered).

Lemma cache_rank q e : rank (exact_result_rv (exact_result_from_cache q e)) < 4.
Proof. unfold exact_result_from_cache. destruct (negb _); [done|]. by destruct (_ <? _). Qed.

Lemma look_up_queries_true queries : forall overall,
  upheld env (entries cid oh exact_entry_true) (look_up_queries cid oh overall queries) (fun looked =>
    hits_true answer queries looked.2 /\ hits_ranked looked.2 /\ looked.1 = merge_exact_rv overall (ladder (hit_rvs looked.2))).
Proof using Hst.
  induction queries as [|q queries IH]; intros overall; cbn [look_up_queries].
  { apply upheld_ret. split_and!; [constructor|constructor|]. cbn. unfold merge_exact_rv. by destruct (N.ltb_spec (rank overall) (rank Rv.OK)) as [[]%N.nlt_0_r|]. }
  eapply upheld_bind; [by apply upheld_cached|]. intros hit Hhit. cbv beta in Hhit.
  eapply upheld_bind; [apply IH|]. intros looked (H1 & H2 & H3). apply upheld_ret. cbn [fst snd].
  destruct hit as [r|]; [destruct (Hhit r eq_refl) as (e & He & ->)|]; split_and!.
  - constructor; [|done]. intros r [= <-]. symmetry. by eapply entry_answers.
  - apply Forall_cons. split; [apply cache_rank|done].
  - rewrite H3. symmetry. apply merge_assoc.
  - by constructor.
  - done.
  - done.
Qed.

(** Hits and misses, merged apart, give the ladder of the whole. *)
Lemma ladder_split queries ordered : hits_true answer queries ordered -> hits_ranked ordered ->
  ladder (exact_result_rv <$> (answer <$> queries)) =
  merge_exact_rv (ladder (hit_rvs ordered)) (ladder (exact_result_rv <$> (answer <$> misses queries ordered))).
Proof.
  unfold hits_ranked. induction 1 as [|q [r|] queries ordered Hr Hall IH]; intros Hrank; [done| |].
  - change (misses (q :: queries) (Some r :: ordered)) with (misses queries ordered).
    change (hit_rvs (Some r :: ordered)) with (exact_result_rv r :: hit_rvs ordered) in *. apply Forall_cons in Hrank as [_ Hrank].
    rewrite (Hr r eq_refl). cbn [fmap list_fmap ladder foldr]. change (foldr merge_exact_rv Rv.OK) with ladder.
    rewrite <- merge_assoc. f_equal. by apply IH.
  - change (misses (q :: queries) (None :: ordered)) with (q :: misses queries ordered).
    change (hit_rvs (None :: ordered)) with (hit_rvs ordered) in *.
    cbn [fmap list_fmap ladder foldr]. change (foldr merge_exact_rv Rv.OK) with ladder.
    rewrite merge_assoc, (merge_comm (ladder (hit_rvs ordered))), <- merge_assoc; [f_equal; by apply IH|].
    clear -Hrank. induction Hrank as [|rv rvs Hrv _ IH]; [done|]. cbn [ladder foldr]. rewrite merge_rank. unfold ladder in IH. lia.
Qed.

Lemma validate_true queries : validate_exact_attribute_results (aq_attr_type <$> queries) (answer <$> queries) = true.
Proof.
  unfold validate_exact_attribute_results. rewrite !length_fmap, bool_decide_eq_true_2 by done. cbn [andb].
  induction queries as [|q queries IH]; [done|]. cbn. by rewrite native_type, N.eqb_refl.
Qed.

Lemma store_exact_kept queries : upheld env (entries cid oh exact_entry_true) (store_exact cid oh (answer <$> queries)) (fun _ => True).
Proof using Hst.
  induction queries as [|q queries IH]; [by apply upheld_ret|].
  change (answer <$> q :: queries) with (answer q :: (answer <$> queries)). cbn [store_exact].
  eapply (upheld_bind _ _ _ _ (fun _ => True)); [|done]. destruct (aqr_ck_rv (answer q)) eqn:Erv; [by apply upheld_ret|].
  destruct (aqr_value (answer q)) as [bytes|] eqn:Ev; [|by apply upheld_ret].
  destruct (is_value_bearing_secret _); [by apply upheld_ret|]. apply upheld_put; [done|]. rewrite native_type. by apply native_value.
Qed.

Lemma exact_coalesced_answers session object queries :
  answers env (entries cid oh exact_entry_true) (read_exact_coalesced module cid oh session object (Some queries))
    (Some (ladder (exact_result_rv <$> (answer <$> queries)), answer <$> queries)).
Proof using Hstrict Hst.
  pose proof Hstrict as Hmodule. unfold answers, read_exact_coalesced. change (default [] (Some queries)) with queries.
  eapply upheld_bind; [apply look_up_queries_true|]. intros looked (Hhits & Hrank & Hrv). rewrite merge_ok_l in Hrv. cbv zeta.
  rewrite (ladder_split _ _ Hhits Hrank), Hrv. destruct (bool_decide _ && _) eqn:E.
  - apply andb_true_iff in E as [Em%bool_decide_eq_true _]. apply upheld_ret. rewrite (no_miss _ _ _ Hhits Em), Em. cbn.
    do 2 f_equal. unfold merge_exact_rv. by destruct (N.ltb_spec (rank (ladder (hit_rvs looked.2))) (rank Rv.OK)) as [[]%N.nlt_0_r|].
  - eapply (upheld_bind _ _ _ _ (fun r => r = Some (Ok (ladder (exact_result_rv <$> (answer <$> misses queries looked.2)), answer <$> misses queries looked.2)))).
    { rewrite (bool_decide_eq_true_2 (is_Some (Some queries))) by eauto. rewrite Hmodule, native_ladder. intros w Hw. split; [by apply Hst|done]. }
    intros _ ->. rewrite validate_true. eapply upheld_bind; [apply store_exact_kept|]. intros _ _. apply upheld_ret.
    by rewrite (fill_true _ _ _ Hhits).
Qed.

Lemma exact_directly_answers session object queries w :
  (read_exact_directly module session object (Some queries) env w).1 =
    Some (ladder (exact_result_rv <$> (answer <$> queries)), answer <$> queries).
Proof using Hstrict.
  pose proof Hstrict as Hmodule. unfold read_exact_directly, bind, module_call, ret. cbn [fst]. rewrite Hmodule, native_ladder.
  change (default [] (Some queries)) with queries. by rewrite validate_true.
Qed.

(** A NULL template is the same call either way. *)
Lemma exact_null_same session object w :
  (read_exact_coalesced module cid oh session object None env w).1 = (read_exact_directly module session object None env w).1.
Proof.
  unfold read_exact_coalesced, read_exact_directly, bind, module_call, ret. cbn.
  destruct (module session object None) as [[[rv results]|rv]|]; [|done..]. unfold validate_exact_attribute_results.
  destruct results as [|r results]; [|done]. cbn. by rewrite merge_ok_l.
Qed.

(** C21: Let the module keep the contract of [C_GetAttributeValue] for the object,
    an object without array attributes: per attribute, the exact length, the
    value or the unavailable length by the buffer of the query; for the call, a
    withheld attribute before an absent one before one that does not fit.  And
    let the entries of the object in the caller's cache hold the values of the
    attributes, and go on to while other tasks run.  Then an exact read
    answers the same with the coalescer on as with it off: the same results in
    the same order and the same return value, however the queries divide into
    hits and misses. *)
Theorem exact_coalescing_transparent policy audited req version template_null queries w :
  or_context req = cid -> or_object req = oh -> entries cid oh exact_entry_true (w_mgr w) ->
  (get_attribute_value_exact native policy true audited module req version template_null queries env w).1 =
  (get_attribute_value_exact native policy false audited module req version template_null queries env w).1.
Proof using Hstrict Hst.
  intros Hcid Hoh HI. unfold get_attribute_value_exact. destruct (negb _); [done|]. rewrite Hcid, Hoh. cbv zeta. unfold bind at 1 3.
  destruct (upheld_sparing env cid oh exact_entry_true Hst _ (spares_resolve native policy cid (or_session req) oh) w HI) as [HI1 _].
  destruct (resolve_session_and_object _ _ _ _ _ env w) as [[[session object]|rv] w1]; [|done].
  destruct (queries_of template_null queries) as [qs|]; [|done]. unfold bind.
  destruct (upheld_sparing env cid oh exact_entry_true Hst _ (spares_extract_gate native policy cid (or_session req) oh audited (aq_attr_type <$> default [] qs)) w1 HI1) as [HI2 _].
  destruct (extract_gate _ _ _ _ _ _ _ env w1) as [[[u|rv]|] w2]; [|done..].
  destruct qs as [qs|]; [|apply exact_null_same].
  rewrite exact_directly_answers. exact (upheld_answer _ _ _ _ _ (exact_coalesced_answers session object qs) HI2).
Qed.
End exact.

(** ** Secrets *)

(** No context caches a value of a secret attribute. *)
Definition no_secrets (m : ContextManager) : Prop :=
  forall cid c o t e, contexts m !! cid = Some c -> attr_cache c !! (o, t) = Some e -> is_value_bearing_secret t = false.

Lemma no_secrets_on_caches : on_caches no_secrets.
Proof.
  intros m m' H Hm cid c o t e Hc He. apply (f_equal (.!! cid)) in H. rewrite !lookup_fmap, Hc in H. cbn in H.
  destruct (contexts m !! cid) as [c0|] eqn:E; cbn in H; [|done]. injection H as H. eapply Hm; [done|]. by rewrite H.
Qed.

(** A section that at most drops entries of a context's cache. *)
Lemma dropped_no_secrets {R} now cid (f : LogicalClientInstance -> R * LogicalClientInstance) m :
  (forall c, attr_cache (f c).2 ⊆ attr_cache c) -> no_secrets m -> no_secrets (get_context now cid f m).2.
Proof.
  intros Hf Hm. unfold get_context. destruct (contexts m !! cid) as [c|] eqn:E; [|done].
  pose proof (Hf (LogicalClientInstance_touch now c)) as Hc. destruct (f _) as [r c']. cbn in Hc |- *.
  intros cid' c0 o t e Hc0 He. cbn in Hc0. destruct (decide (cid' = cid)) as [->|Hne].
  - rewrite lookup_insert_eq in Hc0. injection Hc0 as <-. eapply Hm; [exact E|]. by eapply lookup_weaken.
  - rewrite lookup_insert_ne in Hc0 by done. by eapply Hm.
Qed.

Section secrets.
Context (native : ByteOrder) (policy : TokenPolicy) (coalesce_enabled audited : bool) (env : Env) (Hst : stable env no_secrets).

Abbreviation safe h := (upheld env no_secrets h (fun _ => True)).

Lemma safe_sparing {A} (h : Handler A) : spares h -> safe h.
Proof using Hst. intros H. apply H; [done|apply no_secrets_on_caches]. Qed.

Lemma safe_bind {A B} (h : Handler A) (k : A -> Handler B) : safe h -> (forall a, safe (k a)) -> safe (bind h k).
Proof. intros Hh Hk. eapply upheld_bind; [exact Hh|]. intros a _. apply Hk. Qed.

Lemma safe_put cid oh t bytes : is_value_bearing_secret t = false -> safe (put cid oh t bytes).
Proof using Hst.
  intros Ht. apply upheld_critical; [done|]. intros now m Hm. split; [|done]. cbn [snd]. unfold attr_cache_put, get_context.
  destruct (contexts m !! cid) as [c|] eqn:E; [|done]. cbn. intros cid' c0 o t' e Hc0 He. cbn in Hc0.
  destruct (decide (cid' = cid)) as [->|Hne]; [|rewrite lookup_insert_ne in Hc0 by done; by eapply Hm].
  rewrite lookup_insert_eq in Hc0. injection Hc0 as <-. cbn in He.
  destruct (decide ((o, t') = (VH oh, t))) as [[= -> ->]|Hne]; [done|]. rewrite lookup_insert_ne in He by congruence. by eapply Hm.
Qed.

Lemma spares_cached {A} cid oh t (f : CachedAttr -> A) : spares (cached cid oh t f).
Proof. unfold cached. sparing. unfold attr_cache_get. by context_spared. Qed.
Hint Resolve spares_cached : spares.

Lemma spares_look_up cid oh template : spares (look_up_template cid oh template).
Proof. induction template; cbn [look_up_template]; sparing. Qed.
Lemma spares_look_up_queries cid oh queries : forall overall, spares (look_up_queries cid oh overall queries).
Proof. induction queries; intros overall; cbn [look_up_queries]; sparing. Qed.
Hint Resolve spares_look_up spares_look_up_queries : spares.

Lemma safe_store cid oh fetched : safe (store_fetched native cid oh fetched).
Proof using Hst.
  induction fetched as [|[t v] fetched IH]; cbn [store_fetched fst snd]; [by apply safe_sparing, spares_ret|].
  apply safe_bind; [|intros _; apply safe_bind; [done|intros; apply safe_sparing, spares_ret]].
  destruct (attr_value_to_secret_bytes native <$> v); [|apply safe_sparing, spares_ret].
  destruct (is_value_bearing_secret t) eqn:E; [apply safe_sparing, spares_ret|by apply safe_put].
Qed.

Lemma safe_store_exact cid oh fetched : safe (store_exact cid oh fetched).
Proof using Hst.
  induction fetched as [|r fetched IH]; cbn [store_exact]; [by apply safe_sparing, spares_ret|].
  apply safe_bind; [|done]. destruct (aqr_ck_rv r); [apply safe_sparing, spares_ret|].
  destruct (aqr_value r); [|apply safe_sparing, spares_ret].
  destruct (is_value_bearing_secret (aqr_attr_type r)) eqn:E; [apply safe_sparing, spares_ret|by apply safe_put].
Qed.

(** Takes a handler apart into sections that spare the caches and the stores. *)
Ltac saving :=
  repeat first
    [ apply safe_store | apply safe_store_exact
    | solve [apply safe_sparing; sparing]
    | apply safe_bind; [|intros ?]
    | match goal with |- upheld _ _ (match ?x with _ => _ end) _ => destruct x end ].

(** C20: Whatever the module answers, and whether or not the coalescer is on, the four
    attribute calls put no value of a secret attribute into the cache of any
    context. *)
Theorem secrets_never_cached req :
  (forall module template, safe (get_attribute_value native policy coalesce_enabled audited module req template)) /\
  (forall module version template_null queries,
     safe (get_attribute_value_exact native policy coalesce_enabled audited module req version template_null queries)) /\
  (forall module template, safe (set_attribute_value native policy coalesce_enabled module req template)) /\
  (forall module, safe (get_object_size native policy module req)).
Proof using Hst.
  split_and!.
  - intros module template. unfold get_attribute_value, read_coalesced, read_directly. saving.
  - intros module version template_null queries. unfold get_attribute_value_exact, read_exact_coalesced, read_exact_directly. saving.
  - intros module template. unfold set_attribute_value. saving. apply upheld_critical; [done|]. intros now m Hm. split; [|done].
    cbn [snd]. unfold attr_cache_invalidate_object. apply dropped_no_secrets; [|done]. intros x.
    apply map_subseteq_spec. intros k e. cbn. rewrite lookup_map_drop. by destruct (bool_decide _).
  - intros module. unfold get_object_size. saving.
Qed.
End secrets.

(** ** Concrete runs *)

Definition CKA_LABEL : CkAttributeType := 3.
Definition CKA_ID : CkAttributeType := 258.

(** Two contexts with a session and, under the handle 1, the token object 900,
    whose label both have read. *)
Definition reader (cid : ClientContextId) (session : N) : LogicalClientInstance :=
  let c := LogicalClientInstance_new cid 0 (Some "uid=1000") in
  let c := (LogicalClientInstance_register_session (BH session) (demo_slot 5) c).2 in
  c <| object_handles ::= fun m => (HandleMap_insert (BH 900) m).2 |> <| object_private := {[ VH 1 := false ]} |>
    <| attr_cache := {[ (VH 1, CKA_LABEL) := MkCachedAttr [111; 108; 100] 0 ]} |>.

Definition readers : World :=
  MkWorld (demo_mgr <| contexts := {[ "ctx" := reader "ctx" 71; "other" := reader "other" 72 ]} |>) demo_logs 0 [] [] [].

Definition object_of (cid : ClientContextId) : ObjectRequest := MkObjectRequest cid 1 1.

(** An object with a label and an identifier, and no other attribute. *)
Definition labelled (label : list N) (t : CkAttributeType) : option SecretBytes :=
  if t =? CKA_LABEL then Some label else if t =? CKA_ID then Some [7] else None.

Definition demo_values (label : list N) (t : CkAttributeType) : option CkAttributeValue := AvBytes <$> labelled label t.
Definition demo_rv (label : list N) (types : list CkAttributeType) : CkResult unit :=
  if existsb (fun t => bool_decide (demo_values label t = None)) types then Err Rv.ATTRIBUTE_TYPE_INVALID else Ok tt.
Definition demo_get (label : list N) : GetModule := fun _ _ template =>
  Some (demo_rv label template.*1, (fun a => (a.1, demo_values label a.1)) <$> template).

Lemma demo_wise label : attribute_wise (demo_get label) (demo_values label) (demo_rv label).
Proof.
  split_and!; [done| |done]. intros types. unfold demo_rv.
  enough (existsb (fun t => bool_decide (demo_values label t = None)) types =
    existsb (fun t => bool_decide (demo_values label t = None)) (filter (fun t => demo_values label t = None) types)) as -> by done.
  induction types as [|t types IH]; [done|]. rewrite filter_cons. cbn [existsb]. rewrite IH.
  destruct (decide (demo_values label t = None)) as [H|H]; cbn [existsb];
    [by rewrite (bool_decide_eq_true_2 _ H)|by rewrite (bool_decide_eq_false_2 _ H)].
Qed.

(** The cache holds the label of an object whose label is still the old one. *)
Lemma readers_entries {P : CkAttributeType -> CachedAttr -> Prop} :
  P CKA_LABEL (MkCachedAttr [111; 108; 100] 0) -> entries "ctx" 1 P (w_mgr readers).
Proof.
  intros HP c t e Hc He. change (contexts (w_mgr readers)) with (<["ctx" := reader "ctx" 71]> {["other" := reader "other" 72]} : gmap _ _) in Hc.
  rewrite lookup_insert_eq in Hc. injection Hc as <-.
  change (attr_cache (reader "ctx" 71)) with ({[ (VH 1, CKA_LABEL) := MkCachedAttr [111; 108; 100] 0 ]} : gmap (VirtualHandle * CkAttributeType) CachedAttr) in He.
  apply lookup_singleton_Some in He as [[= <-] <-]. exact HP.
Qed.

Lemma coalescing_transparent_witness :
  (get_attribute_value Little TokenPolicy_default true true (demo_get [111; 108; 100]) (object_of "ctx")
     (Ok [(CKA_ID, None); (CKA_LABEL, None); (CKA_CLASS, None)]) demo_env readers).1 =
  (get_attribute_value Little TokenPolicy_default false true (demo_get [111; 108; 100]) (object_of "ctx")
     (Ok [(CKA_ID, None); (CKA_LABEL, None); (CKA_CLASS, None)]) demo_env readers).1.
Proof.
  refine (coalescing_transparent Little demo_env "ctx" 1 (demo_get [111; 108; 100]) (demo_values [111; 108; 100]) (demo_rv [111; 108; 100])
    (demo_wise _) _ TokenPolicy_default true (object_of "ctx") _ readers eq_refl eq_refl _).
  - intros n m H. exact H.
  - apply readers_entries. exists (AvBytes [111; 108; 100]). split; reflexivity.
Defined.

(** Such an object, with a key that is withheld, and a module that keeps the
    contract. *)
Definition demo_attributes (label : list N) (t : CkAttributeType) : AttributeState :=
  if t =? CKA_VALUE then Withheld else match labelled label t with Some bytes => Revealed bytes | None => Absent end.
Definition demo_get_exact (label : list N) : GetExactModule := fun _ _ queries =>
  let results := native_result (demo_attributes label) <$> default [] queries in Some (Ok (native_rv results, results)).

Definition demo_queries : list CkAttributeQuery :=
  [MkCkAttributeQuery CKA_CLASS true 8 None; MkCkAttributeQuery CKA_LABEL true 2 None; MkCkAttributeQuery CKA_ID true 8 None;
   MkCkAttributeQuery CKA_VALUE false 0 None; MkCkAttributeQuery CKA_LABEL true 3 None].

Lemma exact_coalescing_transparent_witness :
  (get_attribute_value_exact Little TokenPolicy_default true true (demo_get_exact [111; 108; 100]) (object_of "ctx") 1 false demo_queries demo_env readers).1 =
  (get_attribute_value_exact Little TokenPolicy_default false true (demo_get_exact [111; 108; 100]) (object_of "ctx") 1 false demo_queries demo_env readers).1.
Proof.
  refine (exact_coalescing_transparent Little demo_env "ctx" 1 (demo_attributes [111; 108; 100]) (demo_get_exact [111; 108; 100])
    _ _ TokenPolicy_default true (object_of "ctx") 1 false demo_queries readers eq_refl eq_refl _).
  - intros session object queries. reflexivity.
  - intros n m H. exact H.
  - apply readers_entries. reflexivity.
Defined.

Lemma secrets_never_cached_witness :
  upheld demo_env no_secrets (get_attribute_value Little TokenPolicy_default true true (fun _ _ template => Some (Ok tt, template))
    (object_of "ctx") (Ok [(CKA_VALUE, Some (AvBytes [1])); (CKA_LABEL, Some (AvBytes [2]))])) (fun _ => True).
Proof.
  refine (proj1 (secrets_never_cached Little TokenPolicy_default true true demo_env _ (object_of "ctx")) _ _).
  intros n m H. exact H.
Defined.

(** ** What the cache does otherwise *)

Definition sets_label : Handler (option CkRv) :=
  set_attribute_value Little TokenPolicy_default true (fun _ _ _ => Some (Ok tt)) (object_of "ctx") (Ok (Some [(CKA_LABEL, Some (AvBytes [110; 101; 119]))])).
Definition reads_label (cid : ClientContextId) : Handler GetResponse :=
  get_attribute_value Little TokenPolicy_default true true (demo_get [110; 101; 119]) (object_of cid) (Ok [(CKA_LABEL, None)]).

(** A successful write of an attribute drops the entries of the writing context
    only: another context that has read the attribute of the same token object
    keeps answering the old value. *)
Theorem write_leaves_other_caches :
  (bind sets_label (fun _ => reads_label "ctx") demo_env readers).1 = Some (Rv.OK, [MkAttributeResult CKA_LABEL (Some [110; 101; 119]) 3]) /\
  (bind sets_label (fun _ => reads_label "other") demo_env readers).1 = Some (Rv.OK, [MkAttributeResult CKA_LABEL (Some [111; 108; 100]) 3]).
Proof. vm_compute. split; reflexivity. Qed.

(** A read that fails before the module fills the template leaves the values the
    caller sent in it; they are cached as if the module had returned them, and
    the next reads, exact ones too, answer them with success. *)
Theorem failed_read_is_cached :
  let failing := get_attribute_value Little TokenPolicy_default true true (fun _ _ template => Some (Err Rv.DEVICE_ERROR, template))
                   (object_of "ctx") (Ok [(CKA_ID, Some (AvBytes [66; 66]))]) in
  let exact := get_attribute_value_exact Little TokenPolicy_default true true (demo_get_exact [111]) (object_of "ctx") 1 false
                 [MkCkAttributeQuery CKA_ID true 8 None] in
  (failing demo_env readers).1 = Some (Rv.DEVICE_ERROR, [MkAttributeResult CKA_ID (Some [66; 66]) 2]) /\
  (bind failing (fun _ => exact) demo_env readers).1 =
    Some (Rv.OK, [MkCkAttributeQueryResult CKA_ID 2 true false (Some [66; 66]) None None]) /\
  (exact demo_env readers).1 = Some (Rv.OK, [MkCkAttributeQueryResult CKA_ID 1 true false (Some [7]) None None]).
Proof. vm_compute. split_and!; reflexivity. Qed.
