(* ===== verification/Objects.v ===== *)
(** * Creation, copy and destruction of objects

    Models [crates/server/src/server/grpc_service/object/lifecycle.rs]: the gates
    on a new object, its completion owner, the classification of a copy, and what
    a destruction makes every context forget.

    [minted_objects_owned_once]: a new object is registered, or handed to
    the detached settlement.
    [copy_classified]: what is recorded of a copy.  [destruction_forgets]: after a
    destruction no context names the object. *)

From S2P Require Import Prelude Ck Width HandleMap SlotMap Connection Context Manager ManagerProps Session Teardown Identity Mech Grant Policy Handler Authorize.
From S2P Require Import AuthorizeProps Shapes ShapeProps Registry Params Validate Embedded EmbeddedProps KeyGen KeyGenProps Search SearchProps.
From S2P Require Import Lifecycle Attributes.
Open Scope N_scope.

Section handlers.
Context (native : ByteOrder) (policy : TokenPolicy).

(** ** [C_CreateObject] *)

Record CreateCall := MkCreateCall { crc_session : CkSessionHandle; crc_template : option (list CkAttribute) }.

(** The class gate without a default class. *)
Definition object_class_gate (cid : ClientContextId) (virtual_session : N) (template : list CkAttribute) : Handler (CkResult unit) :=
  permitted <- class_mint_permitted policy cid virtual_session template None;;
  ret (if permitted : bool then Ok tt else Err Rv.ATTRIBUTE_VALUE_INVALID).

Definition prepare_create (cid : ClientContextId) (virtual_session : N) (template : CkResult (option (list CkAttribute)))
  : Handler (CkResult CreateCall) :=
  session <-? critical (fun now => resolve_session now cid virtual_session);;
  template <-? ret template;;
  _ <-? ensure_private_mint_allowed cid virtual_session (template_view template);;
  _ <-? object_class_gate cid virtual_session (template_view template);;
  ret (Ok (MkCreateCall session template)).

Definition object_minted (object : CkObjectHandle) : CkResult (list CkObjectHandle) := Ok [object].

(** [ck_rv] and the handle of the new object. *)
Definition MintResponse : Type := CkRv * N.

(** [cancelled]: the caller drops the request while the call runs. *)
Definition create_object (module : CreateCall -> MintReply CkObjectHandle) (raced cancelled : bool) (cid : ClientContextId)
    (virtual_session : N) (template : CkResult (option (list CkAttribute))) : Handler (MintOutcome MintResponse) :=
  prepared <- prepare_create cid virtual_session template;;
  match prepared with
  | Err rv => answered (rv, 0)
  | Ok call =>
      reply <- module_call (module call);;
      let eventual := mint_copy_in_the_end object_minted reply in
      if cancelled then ret (MkMintOutcome None (mint_owner_drop true eventual))
      else
      match mint_observed reply with
      | None => ret (MkMintOutcome None (mint_owner_drop true eventual))
      | Some (Ok object) =>
          let view := template_view (crc_template call) in
          object_handle <- register_session_object_handle cid (VH virtual_session) object
            (template_declares_token_object view) (Some (template_declares_private_object view));;
          ret (MkMintOutcome (Some (Rv.OK, object_handle)) (mint_owner_drop (object_handle =? 0) eventual))
      | Some (Err error) => ret (MkMintOutcome (Some (error, 0)) (settled_after_error object_minted raced reply))
      end
  end.

(** ** [C_CopyObject] *)

(** One attribute [CKA_TOKEN] with a proper [CK_BBOOL]. *)
Definition explicit_copy_token_flag (template : list CkAttribute) : option bool :=
  match filter (fun attr : CkAttribute => attr.1 = CKA_TOKEN) template with
  | [(_, Some value)] =>
      match value with
      | AvBool token => Some token
      | AvBytes bytes | AvString bytes => match bytes with [0] => Some false | [1] => Some true | _ => None end
      | _ => None
      end
  | _ => None
  end.

Record CopyCall := MkCopyCall {
  cpc_session : CkSessionHandle;
  cpc_object : CkObjectHandle;
  cpc_template : option (list CkAttribute);
  cpc_new_is_private : bool;
}.

(** The copy's privacy is the template's, or that of its source. *)
Definition prepare_copy (req : ObjectRequest) (template : CkResult (option (list CkAttribute))) : Handler (CkResult CopyCall) :=
  let cid := or_context req in
  handles <-? resolve_session_and_object native policy cid (or_session req) (or_object req);;
  template <-? ret template;;
  _ <-? ensure_private_mint_allowed cid (or_session req) (template_view template);;
  _ <-? object_class_gate cid (or_session req) (template_view template);;
  new_is_private <- (if template_has_private_attr (template_view template)
                     then ret (template_declares_private_object (template_view template))
                     else object_is_private cid (or_object req) handles.1 handles.2);;
  ret (Ok (MkCopyCall handles.1 handles.2 template new_is_private)).

(** What the new object is, by the module's word, else by the template's, else a
    session object. *)
Definition copy_is_token (observed token_override : option bool) : bool :=
  default false (match observed with Some token => Some token | None => token_override end).

(** [cancelled]: the caller drops the request while the call or the probe runs. *)
Definition copy_object (module : CopyCall -> MintReply CkObjectHandle) (raced cancelled : bool) (req : ObjectRequest)
    (template : CkResult (option (list CkAttribute))) : Handler (MintOutcome MintResponse) :=
  prepared <- prepare_copy req template;;
  match prepared with
  | Err rv => answered (rv, 0)
  | Ok call =>
      let token_override := explicit_copy_token_flag (template_view (cpc_template call)) in
      reply <- module_call (module call);;
      let eventual := mint_copy_in_the_end object_minted reply in
      if cancelled then ret (MkMintOutcome None (mint_owner_drop true eventual))
      else
      match mint_observed reply with
      | None => ret (MkMintOutcome None (mint_owner_drop true eventual))
      | Some (Ok new_object) =>
          observed <- backend_object_token_state native (cpc_session call) new_object;;
          new_object_handle <- register_session_object_handle (or_context req) (VH (or_session req)) new_object
            (copy_is_token observed token_override) (Some (cpc_new_is_private call));;
          ret (MkMintOutcome (Some (Rv.OK, new_object_handle)) (mint_owner_drop (new_object_handle =? 0) eventual))
      | Some (Err error) => ret (MkMintOutcome (Some (error, 0)) (settled_after_error object_minted raced reply))
      end
  end.

(** ** [C_DestroyObject] *)

Definition destroy_object (module : CkSessionHandle -> CkObjectHandle -> option (CkResult unit)) (req : ObjectRequest) : Handler (option CkRv) :=
  r <- resolve_session_and_object native policy (or_context req) (or_session req) (or_object req);;
  match r with
  | Err rv => ret (Some rv)
  | Ok (session, object) =>
      reply <- module_call (module session object);;
      match reply with
      | None => ret None
      | Some result =>
          match result with
          | Ok _ =>
              critical (fun _ m => (tt, evict_backend_object_everywhere (BH (object_raw object)) m));;;
              critical (fun _ m => (tt, revoke_authz_generation m))
          | Err _ => ret tt
          end;;;
          ret (Some (ck_rv_of result))
      end
  end.
End handlers.

(** ** New objects *)

Section minted.
Context (native : ByteOrder) (policy : TokenPolicy) (env : Env).

(** What a context records of an object it makes: the handle, that it is its own,
    its privacy, and, unless it is a token object, the session it ends with. *)
Definition recorded (cid : ClientContextId) (session : N) (w : World) (v : N) (object : CkObjectHandle) (is_token private : bool) : Prop :=
  exists c, contexts (w_mgr w) !! cid = Some c /\ names_object c v object /\ VH v ∈ created_objects c /\
    object_private c !! VH v = Some private /\
    (is_token = false -> VH v ∈ default [] (session_objects c !! VH session)).

Lemma record_session_object_in session v c : v ∈ default [] (session_objects (LogicalClientInstance_record_session_object session v c) !! session).
Proof.
  unfold LogicalClientInstance_record_session_object. cbn. rewrite lookup_partial_alter_eq. cbn. apply elem_of_app. right. by left.
Qed.

Lemma register_recorded cid session object tok private w v w' :
  register_session_object_handle cid (VH session) object tok (Some private) env w = (v, w') ->
  v = 0 \/ recorded cid session w' v object tok private.
Proof.
  unfold register_session_object_handle, bind, critical, get_context, ret.
  destruct (contexts _ !! cid) as [c|]; [|intros [= <- <-]; by left].
  match goal with |- context [mint_object ?s ?o ?t ?p ?c0] => pose proof (mint_object_names s o t p c0) as Hn end.
  unfold mint_object in *. destruct (HandleMap_insert _ _) as [[v0] hs]. cbn [vh_raw fst snd] in *. intros [= <- <-]. right.
  eexists. split; [cbn; apply lookup_insert_eq|]. split; [exact Hn|]. destruct tok; cbn; (split; [set_solver|]);
    (split; [apply lookup_insert_eq|]); [done|]. intros _. apply record_session_object_in.
Qed.

(** The end of a mint: recorded under the answer's handle and kept, or handed to
    the settlement with no handle answered. *)
Definition kept_or_handed (o : MintOutcome MintResponse) (reply : MintReply CkObjectHandle) (record : N -> CkObjectHandle -> Prop) : Prop :=
  mo_settled o = [] /\ (exists object v, reply = MintDone (Ok object) /\ v <> 0 /\ mo_answer o = Some (Rv.OK, v) /\ record v object) \/
  mo_settled o = minted_by object_minted reply /\ forall rv v, mo_answer o = Some (rv, v) -> v = 0.

(** The common end of the two handlers, after a successful call. *)
Lemma registered_end cid session object tok private (reply : MintReply CkObjectHandle) w w' o :
  reply = MintDone (Ok object) ->
  bind (register_session_object_handle cid (VH session) object tok (Some private)) (fun v =>
    ret (MkMintOutcome (Some (Rv.OK, v)) (mint_owner_drop (v =? 0) (mint_copy_in_the_end object_minted reply)))) env w = (o, w') ->
  kept_or_handed o reply (fun v object => recorded cid session w' v object tok private).
Proof.
  intros Hreply Hrun. apply bind_ok in Hrun as (v & w1 & Hreg & Hrun). apply ret_ok in Hrun as [<- ->].
  apply register_recorded in Hreg. destruct (N.eqb_spec v 0) as [->|Hv].
  - right. rewrite drop_minted. split; [done|]. by intros rv v [= <- <-].
  - left. split; [done|]. destruct Hreg as [|Hreg]; [done|]. by exists object, v.
Qed.

Lemma dropped_end reply record :
  kept_or_handed (MkMintOutcome None (mint_owner_drop true (mint_copy_in_the_end object_minted reply))) reply record.
Proof. right. by rewrite drop_minted. Qed.

Lemma failed_end raced reply rv record : mint_observed reply = Some (Err rv) ->
  kept_or_handed (MkMintOutcome (Some (rv, 0)) (settled_after_error object_minted raced reply)) reply record.
Proof. intros E. right. rewrite (settled_minted _ _ _ _ E). split; [done|]. by intros rv' v [= <- <-]. Qed.

Lemma observed_ok {T} (reply : MintReply T) x : mint_observed reply = Some (Ok x) -> reply = MintDone (Ok x).
Proof. destruct reply as [[|]| | |]; cbn; congruence. Qed.

(** An object that the module makes for a creation or a copy, in time, after the
    timeout or for a caller that is gone, is recorded for the caller under the
    handle of the answer and kept, or handed to the detached settlement and no
    handle is answered.  What is recorded of a creation is what its template declares; of
    a copy, its privacy by the template or else by its source, and its kind by
    the module's own answer about the copy, else by an explicit flag of the
    template, else that of a session object. *)
Theorem minted_objects_owned_once (raced cancelled : bool) w :
  (forall module cid vs template o w', create_object policy module raced cancelled cid vs template env w = (o, w') ->
     match prepare_create policy cid vs template env w with
     | (Err rv, w1) => o = MkMintOutcome (Some (rv, 0)) [] /\ w' = w1
     | (Ok call, _) =>
         let view := template_view (crc_template call) in
         kept_or_handed o (module call) (fun v object =>
           recorded cid vs w' v object (template_declares_token_object view) (template_declares_private_object view))
     end) /\
  (forall module req template o w', copy_object native policy module raced cancelled req template env w = (o, w') ->
     match prepare_copy native policy req template env w with
     | (Err rv, w1) => o = MkMintOutcome (Some (rv, 0)) [] /\ w' = w1
     | (Ok call, w1) =>
         let after_call := (module_call (module call) env w1).2 in
         kept_or_handed o (module call) (fun v object =>
           let observed := (backend_object_token_state native (cpc_session call) object env after_call).1 in
           recorded (or_context req) (or_session req) w' v object
             (copy_is_token observed (explicit_copy_token_flag (template_view (cpc_template call)))) (cpc_new_is_private call))
     end).
Proof.
  split.
  - intros module cid vs template o w' Hrun. unfold create_object in Hrun. apply bind_ok in Hrun as (prepared & w1 & Hp & Hrun). rewrite Hp.
    destruct prepared as [call|rv]; [|by injection Hrun as <- <-]. apply bind_ok in Hrun as (reply & w2 & Hm & Hrun).
    injection Hm as <- _. cbv zeta in *. destruct cancelled; [apply ret_ok in Hrun as [<- _]; apply dropped_end|].
    destruct (mint_observed (module call)) as [[object|rv]|] eqn:Eo.
    + eapply registered_end; [by apply observed_ok|exact Hrun].
    + apply ret_ok in Hrun as [<- _]. by eapply failed_end.
    + apply ret_ok in Hrun as [<- _]. apply dropped_end.
  - intros module req template o w' Hrun. unfold copy_object in Hrun. apply bind_ok in Hrun as (prepared & w1 & Hp & Hrun). rewrite Hp.
    destruct prepared as [call|rv]; [|by injection Hrun as <- <-]. cbv zeta in *. apply bind_ok in Hrun as (reply & w2 & Hm & Hrun).
    rewrite Hm. cbn [snd]. injection Hm as <- _. destruct cancelled; [apply ret_ok in Hrun as [<- _]; apply dropped_end|].
    destruct (mint_observed (module call)) as [[object|rv]|] eqn:Eo.
    + apply bind_ok in Hrun as (observed & w3 & Hobs & Hrun).
      destruct (registered_end _ _ _ _ _ _ _ _ _ (observed_ok _ _ Eo) Hrun) as [[Hd (object' & v & Hr & Hv & Ha & Hrec)]|H]; [left|by right].
      split; [done|]. exists object', v. split_and!; try done.
      pose proof Hr as Hr'. rewrite (observed_ok _ _ Eo) in Hr'. injection Hr' as <-. by rewrite Hobs.
    + apply ret_ok in Hrun as [<- _]. by eapply failed_end.
    + apply ret_ok in Hrun as [<- _]. apply dropped_end.
Qed.
End minted.

(** ** Destruction *)

Section destruction.
Context (native : ByteOrder) (policy : TokenPolicy) (env : Env) (req : ObjectRequest) (w w1 : World).
Context (session : CkSessionHandle) (object : CkObjectHandle).

(** The contexts are well formed. *)
Definition all_core (m : ContextManager) : Prop := forall k c, contexts m !! k = Some c -> ctx_core c.

Context (Hst : stable env all_core) (Hcore : all_core (w_mgr w1)).
Context (Hresolve : resolve_session_and_object native policy (or_context req) (or_session req) (or_object req) env w = (Ok (session, object), w1)).

Abbreviation others n := (es_others (env n)).

(** A destruction that the module refuses changes nothing; one that it accepts
    makes, in one section, every context forget the object: none maps it any
    more, and each that did has the handle among the destroyed ones and nothing
    else recorded or cached for it.  The metadata cached for token objects is out
    of date from then on. *)
Theorem destruction_forgets module :
  let n := w_step w1 in
  let run := destroy_object native policy module req env w in
  match module session object with
  | None => run.1 = None /\ w_mgr run.2 = others n (w_mgr w1)
  | Some (Err rv) => run.1 = Some rv /\ w_mgr run.2 = others n (w_mgr w1)
  | Some (Ok _) =>
      let before := others (S n) (others n (w_mgr w1)) in
      let gone := evict_backend_object_everywhere (BH (object_raw object)) before in
      run.1 = Some Rv.OK /\ w_mgr run.2 = revoke_authz_generation (others (S (S n)) gone) /\
      forall cid c', contexts gone !! cid = Some c' ->
        HandleMap_resolve_backend (BH (object_raw object)) (object_handles c') = None /\
        forall c v, contexts before !! cid = Some c -> names_object c v object -> object_absent c' (VH v) /\ VH v ∈ destroyed_objects c'
  end.
Proof using Hst Hcore Hresolve.
  intros n run. unfold run, destroy_object, bind. rewrite Hresolve. unfold module_call.
  destruct (module session object) as [[[]|rv]|] eqn:Em; [|done..]. cbv zeta.
  split; [done|]. split; [done|]. intros cid c' Hc'.
  assert (Hb : all_core (others (S n) (others n (w_mgr w1)))) by (by apply Hst, Hst).
  destruct (destroyed_object_forgotten _ _ _ _ Hb Hc') as (Hnone & c & Hc & Hrest). split; [done|].
  intros c0 v Hc0 Hv. rewrite Hc in Hc0. injection Hc0 as <-. unfold names_object in Hv. rewrite Hv in Hrest.
  destruct Hrest as (? & ? & _). done.
Qed.
End destruction.
