(* ===== verification/InitGate.v ===== *)
(** * What every cryptographic operation shares

    The input buffers and their sanitizer, the gates a mechanism passes when
    an operation starts, and the calls of an operation on the module
    ([crates/server/src/server/grpc_service/service_utils.rs], and the sequence
    that the init handlers of [digest_cipher/], [message_crypto/mod.rs] and the
    other handlers share). *)

From S2P Require Import Prelude Ck Width HandleMap SlotMap Connection Context Manager Session Mech Grant Policy Handler Authorize.
From S2P Require Import Shapes ShapeProps Registry Params Validate Embedded KeyGen KeyGenProps.
Open Scope N_scope.

(** ** Input buffers *)

Inductive CkInBuf := InNull (len : N) | InBytes (bytes : SecretBytes).

Definition input_from_wire (bytes : SecretBytes) (null_len : option N) : CkInBuf :=
  match null_len with Some len => InNull len | None => InBytes bytes end.

Definition check_sanitize (sanitize : bool) (null_len : option N) : CkResult unit :=
  if sanitize && match null_len with Some len => 0 <? len | None => false end then Err Rv.ARGUMENTS_BAD else Ok tt.

Definition ck_rv_only (result : CkResult unit) : CkRv := match result with Ok _ => Rv.OK | Err error => error end.

(** With the sanitizer on, a NULL buffer with a length never reaches the module. *)
Lemma check_sanitize_ok bytes null_len len :
  check_sanitize true null_len = Ok tt -> input_from_wire bytes null_len = InNull len -> len = 0.
Proof.
  unfold check_sanitize, input_from_wire. destruct null_len as [l|]; [|done]. cbn.
  destruct (N.ltb_spec 0 l); [done|]. intros _ [= <-]. lia.
Qed.

(** ** The gates *)

Section gates.
Context (ctx : HandlerContext).

(** From the parsed mechanism to the module: operator exclusion, policy,
    transport validation, translation of embedded handles, sanitizer. *)
Definition admit_init_mechanism (cid : ClientContextId) (virtual_session : N) (session : CkSessionHandle)
    (registry : MechanismRegistry) (mechanism : CkMechanism) (operation : Operation)
  : Handler (CkResult ValidatedMechanismParams) :=
  _ <-? ret (check_operator_exclusion registry (mechanism_type mechanism));;
  permitted <- mechanism_permitted (hc_token_policy ctx) cid virtual_session (mechanism_type mechanism);;
  if negb permitted then ret (Err Rv.MECHANISM_INVALID)
  else
    let abis := daemon_validation_abis (hc_abi ctx) (hc_ulong_size ctx) in
    validated <-? ret (validate_mechanism_transport (hc_abi ctx) (hc_can_reserve ctx) registry mechanism operation abis.1 abis.2);;
    validated <-? remap_mechanism_handles (hc_native ctx) (hc_token_policy ctx) cid virtual_session (session_raw session) validated;;
    ret (sanitize_mechanism_input (hc_sanitize_inputs ctx) validated).
End gates.

(** ** What passes the gates *)

Section admitted.
Context (ctx : HandlerContext) (env : Env) (cid : ClientContextId) (vs : N).

(** A mechanism that passes is acceptable under the snapshot, permitted, clean
    for the sanitizer, and the request's own but for object handles, each of
    which the caller's map gave. *)
Lemma admit_init_run session registry mech operation v w w' :
  admit_init_mechanism ctx cid vs session registry mech operation env w = (Ok v, w') ->
  exists grant w1,
    acceptable (hc_can_reserve ctx) mech registry operation (abis ctx).1 (abis ctx).2 grant /\
    mechanism_permitted (hc_token_policy ctx) cid vs (mechanism_type mech) env w = (true, w1) /\
    v = MkValidated (vm_mechanism v) grant registry (abis ctx).1 (abis ctx).2 /\
    mechanism_type (vm_mechanism v) = mechanism_type mech /\
    normalized_for_handle_compare (vm_mechanism v) = normalized_for_handle_compare mech /\
    owned_handles env cid w1 mech (vm_mechanism v) /\
    check_classic_sanitize_policy (hc_sanitize_inputs ctx) v = Ok tt.
Proof.
  unfold admit_init_mechanism. intros H. run_step H u w1. run_step H permitted w2.
  destruct permitted; [|done]. cbn [negb] in H. fold (abis ctx) in H. run_step H v0 w3. run_step H v1 w4.
  apply ret_ok in H as [H ->].
  assert (validate (hc_can_reserve ctx) mech registry operation (abis ctx).1 (abis ctx).2 = Ok v0) as Hval.
  { unfold validate_mechanism_transport in Hv0. by destruct (bool_decide _ && is_flat mech). }
  pose proof (validate_case (hc_can_reserve ctx) mech registry operation (abis ctx).1 (abis ctx).2) as Hc. rewrite Hval in Hc.
  destruct Hc as (grant & Hacc & ->). apply remap_owned in Hv1 as (H1 & H2 & H3 & _). cbn [vm_mechanism] in *.
  unfold sanitize_mechanism_input in H. destruct (check_classic_sanitize_policy _ v1) as [[]|] eqn:Es; [|done]. injection H as <-.
  exists grant, w2. split_and!; try done. by apply normalized_type.
Qed.
End admitted.
