(* ===== verification/MessageParams.v ===== *)
(** * Parameters of message-based cryptography

    Models [crates/proto/src/convert/message_params.rs] and
    [message_effects.rs], with the output specifications of
    [crates/types/src/output.rs]: the per-message parameter structs and their
    validation, the wire forms and the daemon's checks on them, and the
    effects (a generated IV, an authentication tag) that a call may have on
    its parameter.  A type [T] of the wire is [WireT]; buffers are lists of
    bytes, [usize] is 64 bits wide.

    The theorems: parameters survive the wire; what passes the daemon's checks
    is well formed; the check of the fixed bits of a generated IV is exactly
    the comparison of those bits; and the effects that are accepted are exactly
    those of a module that keeps the layout and the fixed bits. *)

From S2P Require Import Prelude Ck Context.
Open Scope N_scope.

(** ** The parameters *)

Record GcmMessageParams := MkGcmMessageParams {
  gmp_iv : list N; gmp_iv_null_len : option N; gmp_iv_fixed_bits : N; gmp_iv_generator : N;
  gmp_tag : list N; gmp_tag_null_len : option N; gmp_tag_bits : N }.

Record CcmMessageParams := MkCcmMessageParams {
  cmp_data_len : N; cmp_nonce : list N; cmp_nonce_null_len : option N; cmp_nonce_fixed_bits : N;
  cmp_nonce_generator : N; cmp_mac : list N; cmp_mac_null_len : option N; cmp_mac_len : N }.

Record Salsa20ChaCha20Poly1305MessageParams := MkSalsaMessageParams {
  smp_nonce : list N; smp_nonce_bits : N; smp_nonce_null_len : option N;
  smp_tag : list N; smp_tag_null_len : option N }.

Inductive MessageParameter :=
| Raw (data : SecretBytes)
| GcmMessage (p : GcmMessageParams)
| CcmMessage (p : CcmMessageParams)
| SalaChacha (p : Salsa20ChaCha20Poly1305MessageParams).

#[export] Instance GcmMessageParams_eq_dec : EqDecision GcmMessageParams.
Proof. solve_decision. Defined.
#[export] Instance CcmMessageParams_eq_dec : EqDecision CcmMessageParams.
Proof. solve_decision. Defined.
#[export] Instance SalsaMessageParams_eq_dec : EqDecision Salsa20ChaCha20Poly1305MessageParams.
Proof. solve_decision. Defined.
#[export] Instance MessageParameter_eq_dec : EqDecision MessageParameter.
Proof. solve_decision. Defined.

(** ** Validation *)

Definition MAX_MESSAGE_PARAMETER_BYTES : N := 512 * 1024 * 1024.
Definition SUPPORTED_MESSAGE_PARAMETER_TRANSPORT_VERSION : N := 1.
Definition MAX_OPAQUE_MESSAGE_PARAMETER_BYTES : N := 64 * 1024.
Definition ABSENT_MESSAGE_ONEOF_RV : CkRv := Rv.ARGUMENTS_BAD.

(** [u64::div_ceil]. *)
Definition div_ceil (a b : N) : N := a / b + (if a mod b =? 0 then 0 else 1).

Definition salsa_nonce_len (value : N) : option N :=
  if (value =? 64) || (value =? 96) || (value =? 192) then Some (value / 8)
  else if (value =? 8) || (value =? 12) || (value =? 24) then Some value
  else None.

Definition salsa_nonce_extent (value extent : N) : option N :=
  match salsa_nonce_len value with
  | Some len => if len =? extent then Some len else None
  | None => None
  end.

Definition pointer_extent_len (bytes_len : N) (null_len : option N) : CkResult N :=
  match null_len with
  | Some extent => if negb (bytes_len =? 0) then Err Rv.MECHANISM_PARAM_INVALID else Ok extent
  | None => if MAX_MESSAGE_PARAMETER_BYTES <? bytes_len then Err Rv.MECHANISM_PARAM_INVALID else Ok bytes_len
  end.

Definition len_u64 (bytes : list N) : N := N.of_nat (length bytes).

Definition pointer_extent (bytes : list N) (null_len : option N) : CkResult N :=
  pointer_extent_len (len_u64 bytes) null_len.

Definition validate_generator (generator : N) : CkResult unit :=
  if generator <=? 4 then Ok tt else Err Rv.MECHANISM_PARAM_INVALID.

Definition validate_gcm_fields (iv_len : N) (iv_null_len : option N) (iv_fixed_bits iv_generator tag_len : N)
    (tag_null_len : option N) (tag_bits : N) : CkResult unit :=
  let? iv_extent := pointer_extent_len iv_len iv_null_len in
  if (iv_extent <? div_ceil iv_fixed_bits 8) || (128 <? tag_bits) then Err Rv.MECHANISM_PARAM_INVALID
  else
    let? _ := validate_generator iv_generator in
    let? tag_extent := pointer_extent_len tag_len tag_null_len in
    if tag_extent =? div_ceil tag_bits 8 then Ok tt else Err Rv.MECHANISM_PARAM_INVALID.

Definition ccm_mac_len_allowed (mac_len : N) : bool :=
  bool_decide (mac_len ∈ [4; 6; 8; 10; 12; 14; 16]).

(** [nonce_extent.checked_mul(8)] cannot fail once the extent is in range. *)
Definition validate_ccm_fields (nonce_len : N) (nonce_null_len : option N) (nonce_fixed_bits nonce_generator
    mac_len_bytes : N) (mac_null_len : option N) (mac_len : N) : CkResult unit :=
  let? nonce_extent := pointer_extent_len nonce_len nonce_null_len in
  if negb ((7 <=? nonce_extent) && (nonce_extent <=? 13)) then Err Rv.MECHANISM_PARAM_INVALID
  else
    let nonce_bits := nonce_extent * 8 in
    if (nonce_bits <? nonce_fixed_bits) || negb (ccm_mac_len_allowed mac_len) then Err Rv.MECHANISM_PARAM_INVALID
    else
      let? _ := validate_generator nonce_generator in
      let? mac_extent := pointer_extent_len mac_len_bytes mac_null_len in
      if mac_extent =? mac_len then Ok tt else Err Rv.MECHANISM_PARAM_INVALID.

Definition validate_salsa_fields (nonce_len nonce_bits : N) (nonce_null_len : option N) (tag_len : N)
    (tag_null_len : option N) : CkResult unit :=
  let? nonce_extent := pointer_extent_len nonce_len nonce_null_len in
  match salsa_nonce_extent nonce_bits nonce_extent with
  | None => Err Rv.MECHANISM_PARAM_INVALID
  | Some _ =>
      let? tag_extent := pointer_extent_len tag_len tag_null_len in
      if negb (tag_extent =? 16) then Err Rv.MECHANISM_PARAM_INVALID else Ok tt
  end.

Definition GcmMessageParams_validate_structured (p : GcmMessageParams) : CkResult unit :=
  validate_gcm_fields (len_u64 (gmp_iv p)) (gmp_iv_null_len p) (gmp_iv_fixed_bits p) (gmp_iv_generator p)
    (len_u64 (gmp_tag p)) (gmp_tag_null_len p) (gmp_tag_bits p).

Definition CcmMessageParams_validate_structured (p : CcmMessageParams) : CkResult unit :=
  validate_ccm_fields (len_u64 (cmp_nonce p)) (cmp_nonce_null_len p) (cmp_nonce_fixed_bits p)
    (cmp_nonce_generator p) (len_u64 (cmp_mac p)) (cmp_mac_null_len p) (cmp_mac_len p).

Definition SalsaMessageParams_validate_structured (p : Salsa20ChaCha20Poly1305MessageParams) : CkResult unit :=
  validate_salsa_fields (len_u64 (smp_nonce p)) (smp_nonce_bits p) (smp_nonce_null_len p)
    (len_u64 (smp_tag p)) (smp_tag_null_len p).

Definition all_narrow (max : N) (values : list N) : CkResult unit :=
  if forallb (fun value => value <=? max) values then Ok tt else Err Rv.MECHANISM_PARAM_INVALID.

Definition GcmMessageParams_validate_for_native_ulong (max : N) (p : GcmMessageParams) : CkResult unit :=
  let? _ := GcmMessageParams_validate_structured p in
  let? iv_len := pointer_extent (gmp_iv p) (gmp_iv_null_len p) in
  all_narrow max [iv_len; gmp_iv_fixed_bits p; gmp_iv_generator p; gmp_tag_bits p].

Definition CcmMessageParams_validate_for_native_ulong (max : N) (p : CcmMessageParams) : CkResult unit :=
  let? _ := CcmMessageParams_validate_structured p in
  let? nonce_len := pointer_extent (cmp_nonce p) (cmp_nonce_null_len p) in
  all_narrow max [cmp_data_len p; nonce_len; cmp_nonce_fixed_bits p; cmp_nonce_generator p; cmp_mac_len p].

Definition SalsaMessageParams_validate_for_native_ulong (max : N) (p : Salsa20ChaCha20Poly1305MessageParams)
  : CkResult unit :=
  let? _ := SalsaMessageParams_validate_structured p in
  if smp_nonce_bits p <=? max then Ok tt else Err Rv.MECHANISM_PARAM_INVALID.

Definition same_layout_and_scalars (self other : MessageParameter) : bool :=
  match self, other with
  | Raw l, Raw r => bool_decide (l = r)
  | GcmMessage l, GcmMessage r =>
      (len_u64 (gmp_iv l) =? len_u64 (gmp_iv r)) && bool_decide (gmp_iv_null_len l = gmp_iv_null_len r)
      && (gmp_iv_fixed_bits l =? gmp_iv_fixed_bits r) && (gmp_iv_generator l =? gmp_iv_generator r)
      && (len_u64 (gmp_tag l) =? len_u64 (gmp_tag r)) && bool_decide (gmp_tag_null_len l = gmp_tag_null_len r)
      && (gmp_tag_bits l =? gmp_tag_bits r)
  | CcmMessage l, CcmMessage r =>
      (cmp_data_len l =? cmp_data_len r) && (len_u64 (cmp_nonce l) =? len_u64 (cmp_nonce r))
      && bool_decide (cmp_nonce_null_len l = cmp_nonce_null_len r)
      && (cmp_nonce_fixed_bits l =? cmp_nonce_fixed_bits r) && (cmp_nonce_generator l =? cmp_nonce_generator r)
      && (len_u64 (cmp_mac l) =? len_u64 (cmp_mac r)) && bool_decide (cmp_mac_null_len l = cmp_mac_null_len r)
      && (cmp_mac_len l =? cmp_mac_len r)
  | SalaChacha l, SalaChacha r =>
      (len_u64 (smp_nonce l) =? len_u64 (smp_nonce r)) && (smp_nonce_bits l =? smp_nonce_bits r)
      && bool_decide (smp_nonce_null_len l = smp_nonce_null_len r)
      && (len_u64 (smp_tag l) =? len_u64 (smp_tag r)) && bool_decide (smp_tag_null_len l = smp_tag_null_len r)
  | _, _ => false
  end.

Definition shape_matches (shape : MessageParameterShape) (parameter : MessageParameter) : bool :=
  match shape, parameter with
  | Gcm, GcmMessage _ | Ccm, CcmMessage _ | SalsaChacha, SalaChacha _ | Unmodeled, Raw _ => true
  | _, _ => false
  end.

Definition validate_structured (p : MessageParameter) : CkResult unit :=
  match p with
  | Raw _ => Ok tt
  | GcmMessage p => GcmMessageParams_validate_structured p
  | CcmMessage p => CcmMessageParams_validate_structured p
  | SalaChacha p => SalsaMessageParams_validate_structured p
  end.

Definition validate_structured_shape (expected : MessageParameterShape) (p : MessageParameter) : CkResult unit :=
  if negb (shape_matches expected p) then Err Rv.MECHANISM_PARAM_INVALID else validate_structured p.

Definition validate_for_native_ulong (max : N) (p : MessageParameter) : CkResult unit :=
  match p with
  | Raw bytes => if len_u64 bytes <=? max then Ok tt else Err Rv.FUNCTION_FAILED
  | GcmMessage p => GcmMessageParams_validate_for_native_ulong max p
  | CcmMessage p => CcmMessageParams_validate_for_native_ulong max p
  | SalaChacha p => SalsaMessageParams_validate_for_native_ulong max p
  end.

Definition shape_to_proto_i32 (shape : MessageParameterShape) : Z :=
  match shape with Unmodeled => 0 | Gcm => 1 | Ccm => 2 | SalsaChacha => 3 end%Z.

Definition shape_try_from_proto_i32 (value : Z) : CkResult MessageParameterShape :=
  match value with
  | 0%Z => Ok Unmodeled
  | 1%Z => Ok Gcm
  | 2%Z => Ok Ccm
  | 3%Z => Ok SalsaChacha
  | _ => Err Rv.MECHANISM_PARAM_INVALID
  end.

(** ** The wire *)

Record WireGcmMessageParams := MkWireGcmMessageParams {
  wg_iv : list N; wg_iv_fixed_bits : N; wg_iv_generator : N; wg_tag : list N; wg_tag_bits : N;
  wg_iv_null_len : option N; wg_tag_null_len : option N }.
Record WireCcmMessageParams := MkWireCcmMessageParams {
  wc_data_len : N; wc_nonce : list N; wc_nonce_fixed_bits : N; wc_nonce_generator : N; wc_mac : list N;
  wc_mac_len : N; wc_nonce_null_len : option N; wc_mac_null_len : option N }.
Record WireSalsaMessageParams := MkWireSalsaMessageParams {
  ws_nonce : list N; ws_tag : list N; ws_nonce_bits : N; ws_nonce_null_len : option N; ws_tag_null_len : option N }.
Record OpaqueMessageParams := MkOpaqueMessageParams { om_data : list N; om_declared_len : N }.

Inductive WireParams :=
| WRaw (data : list N)
| WGcmMessageParams (p : WireGcmMessageParams)
| WCcmMessageParams (p : WireCcmMessageParams)
| WSalsaChachaMessageParams (p : WireSalsaMessageParams)
| WOpaqueMessageParams (p : OpaqueMessageParams).

Record WireMessageParameter := MkWireMessageParameter {
  wm_params : option WireParams; wm_parameter_encoding_version : N }.

Definition gcm_to_wire (p : GcmMessageParams) : WireGcmMessageParams :=
  MkWireGcmMessageParams (gmp_iv p) (gmp_iv_fixed_bits p) (gmp_iv_generator p) (gmp_tag p) (gmp_tag_bits p)
    (gmp_iv_null_len p) (gmp_tag_null_len p).
Definition gcm_from_wire (p : WireGcmMessageParams) : GcmMessageParams :=
  MkGcmMessageParams (wg_iv p) (wg_iv_null_len p) (wg_iv_fixed_bits p) (wg_iv_generator p) (wg_tag p)
    (wg_tag_null_len p) (wg_tag_bits p).
Definition ccm_to_wire (p : CcmMessageParams) : WireCcmMessageParams :=
  MkWireCcmMessageParams (cmp_data_len p) (cmp_nonce p) (cmp_nonce_fixed_bits p) (cmp_nonce_generator p)
    (cmp_mac p) (cmp_mac_len p) (cmp_nonce_null_len p) (cmp_mac_null_len p).
Definition ccm_from_wire (p : WireCcmMessageParams) : CcmMessageParams :=
  MkCcmMessageParams (wc_data_len p) (wc_nonce p) (wc_nonce_null_len p) (wc_nonce_fixed_bits p)
    (wc_nonce_generator p) (wc_mac p) (wc_mac_null_len p) (wc_mac_len p).
Definition salsa_to_wire (p : Salsa20ChaCha20Poly1305MessageParams) : WireSalsaMessageParams :=
  MkWireSalsaMessageParams (smp_nonce p) (smp_tag p) (smp_nonce_bits p) (smp_nonce_null_len p) (smp_tag_null_len p).
Definition salsa_from_wire (p : WireSalsaMessageParams) : Salsa20ChaCha20Poly1305MessageParams :=
  MkSalsaMessageParams (ws_nonce p) (ws_nonce_bits p) (ws_nonce_null_len p) (ws_tag p) (ws_tag_null_len p).

(** The legacy encoding: always version 0. *)
Definition MessageParameter_to_wire (p : MessageParameter) : WireMessageParameter :=
  MkWireMessageParameter
    (Some match p with
          | Raw data => WRaw data
          | GcmMessage p => WGcmMessageParams (gcm_to_wire p)
          | CcmMessage p => WCcmMessageParams (ccm_to_wire p)
          | SalaChacha p => WSalsaChachaMessageParams (salsa_to_wire p)
          end) 0.

Definition to_wire_with_transport_version (transport_version : N) (p : MessageParameter)
  : CkResult WireMessageParameter :=
  match p with
  | Raw data =>
      if SUPPORTED_MESSAGE_PARAMETER_TRANSPORT_VERSION <=? transport_version then
        let declared_len := len_u64 data in
        if MAX_OPAQUE_MESSAGE_PARAMETER_BYTES <? declared_len then Err Rv.MECHANISM_PARAM_INVALID
        else Ok (MkWireMessageParameter (Some (WOpaqueMessageParams (MkOpaqueMessageParams data declared_len)))
                   SUPPORTED_MESSAGE_PARAMETER_TRANSPORT_VERSION)
      else Ok (MessageParameter_to_wire p)
  | _ => Ok (MessageParameter_to_wire p)
  end.

Definition check_wire_version (version : N) : CkResult unit :=
  if SUPPORTED_MESSAGE_PARAMETER_TRANSPORT_VERSION <? version then Err Rv.FUNCTION_NOT_SUPPORTED else Ok tt.

Definition validate_opaque_wire_params (opaque : OpaqueMessageParams) (version : N) : CkResult unit :=
  if negb (version =? SUPPORTED_MESSAGE_PARAMETER_TRANSPORT_VERSION) then
    Err (if version <? SUPPORTED_MESSAGE_PARAMETER_TRANSPORT_VERSION then Rv.MECHANISM_PARAM_INVALID
         else Rv.FUNCTION_NOT_SUPPORTED)
  else if MAX_OPAQUE_MESSAGE_PARAMETER_BYTES <? om_declared_len opaque then Err Rv.MECHANISM_PARAM_INVALID
  else if negb (len_u64 (om_data opaque) =? om_declared_len opaque) then Err Rv.MECHANISM_PARAM_INVALID
  else Ok tt.

Definition validate_structured_wire_params (params : WireParams) (version : N) : CkResult unit :=
  match params with
  | WRaw _ => Err Rv.MECHANISM_PARAM_INVALID
  | WGcmMessageParams p =>
      let? _ := check_wire_version version in
      validate_gcm_fields (len_u64 (wg_iv p)) (wg_iv_null_len p) (wg_iv_fixed_bits p) (wg_iv_generator p)
        (len_u64 (wg_tag p)) (wg_tag_null_len p) (wg_tag_bits p)
  | WCcmMessageParams p =>
      let? _ := check_wire_version version in
      validate_ccm_fields (len_u64 (wc_nonce p)) (wc_nonce_null_len p) (wc_nonce_fixed_bits p)
        (wc_nonce_generator p) (len_u64 (wc_mac p)) (wc_mac_null_len p) (wc_mac_len p)
  | WSalsaChachaMessageParams p =>
      let? _ := check_wire_version version in
      validate_salsa_fields (len_u64 (ws_nonce p)) (ws_nonce_bits p) (ws_nonce_null_len p)
        (len_u64 (ws_tag p)) (ws_tag_null_len p)
  | WOpaqueMessageParams p => validate_opaque_wire_params p version
  end.

Definition validate_structured_wire_parameter (parameter : WireMessageParameter) : CkResult unit :=
  match wm_params parameter with
  | None => Err ABSENT_MESSAGE_ONEOF_RV
  | Some params => validate_structured_wire_params params (wm_parameter_encoding_version parameter)
  end.

Definition MessageParameter_try_from (p : WireMessageParameter) : CkResult MessageParameter :=
  match wm_params p with
  | Some (WRaw data) => Ok (Raw data)
  | Some (WGcmMessageParams p as params) =>
      let? _ := validate_structured_wire_params params 0 in Ok (GcmMessage (gcm_from_wire p))
  | Some (WCcmMessageParams p as params) =>
      let? _ := validate_structured_wire_params params 0 in Ok (CcmMessage (ccm_from_wire p))
  | Some (WSalsaChachaMessageParams p as params) =>
      let? _ := validate_structured_wire_params params 0 in Ok (SalaChacha (salsa_from_wire p))
  | Some (WOpaqueMessageParams p) => Ok (Raw (om_data p))
  | None => Err ABSENT_MESSAGE_ONEOF_RV
  end.

Definition wire_is_bytes (params : WireParams) : bool :=
  match params with WRaw _ | WOpaqueMessageParams _ => true | _ => false end.

Definition MessageParameter_try_from_owned (p : WireMessageParameter) : CkResult MessageParameter :=
  let? _ := match wm_params p with
            | Some params => if negb (wire_is_bytes params) then validate_structured_wire_params params 0 else Ok tt
            | None => Ok tt
            end in
  match wm_params p with
  | Some (WRaw data) => Ok (Raw data)
  | Some (WOpaqueMessageParams p) => Ok (Raw (om_data p))
  | Some (WGcmMessageParams p) => Ok (GcmMessage (gcm_from_wire p))
  | Some (WCcmMessageParams p) => Ok (CcmMessage (ccm_from_wire p))
  | Some (WSalsaChachaMessageParams p) => Ok (SalaChacha (salsa_from_wire p))
  | None => Err ABSENT_MESSAGE_ONEOF_RV
  end.

(** [CK_ASYNC_DATA]. *)
Record AsyncData := MkAsyncData {
  ad_version : N; ad_value : SecretBytes; ad_value_len : N; ad_object_handle : CkObjectHandle;
  ad_additional_object_handle : CkObjectHandle }.
Record WireAsyncData := MkWireAsyncData {
  wa_version : N; wa_value : list N; wa_value_len : N; wa_object_handle : N; wa_additional_object_handle : N }.
Definition AsyncData_to_wire (a : AsyncData) : WireAsyncData :=
  MkWireAsyncData (ad_version a) (ad_value a) (ad_value_len a) (object_raw (ad_object_handle a))
    (object_raw (ad_additional_object_handle a)).
Definition AsyncData_from_wire (a : WireAsyncData) : AsyncData :=
  MkAsyncData (wa_version a) (wa_value a) (wa_value_len a) (MkObject (wa_object_handle a))
    (MkObject (wa_additional_object_handle a)).

(** ** Output specifications *)

Inductive OutputContractViolation := ParameterIntegrity.

Record CkOutputBufferSpec := MkOutputBufferSpec { sp_buffer_present : bool; sp_buffer_len : N; sp_length_pointer_null : bool }.

Record CkOutputBufferResult := MkOutputBufferResult {
  or_ck_rv : CkRv; or_returned_len : option N; or_value : option SecretBytes }.

Definition CkOutputBufferResult_no_effects (rv : CkRv) : CkOutputBufferResult := MkOutputBufferResult rv None None.

Definition is_Some_and {A} (f : A -> bool) (o : option A) : bool :=
  match o with Some a => f a | None => false end.
Definition is_some {A} (o : option A) : bool := match o with Some _ => true | None => false end.

Definition CkOutputBufferResult_validate_for (self : CkOutputBufferResult) (spec : CkOutputBufferSpec) (ulong_max : N)
  : CkResult unit :=
  if (ulong_max <? rv_raw (or_ck_rv self)) || is_Some_and (fun n => ulong_max <? n) (or_returned_len self)
     || (sp_length_pointer_null spec && (is_some (or_returned_len self) || is_some (or_value self)))
  then Err Rv.DEVICE_ERROR
  else match or_value self with
       | Some value =>
           if negb (sp_buffer_present spec) || negb (rv_eqb (or_ck_rv self) Rv.OK)
              || negb (bool_decide (or_returned_len self = Some (len_u64 value)))
              || (sp_buffer_len spec <? len_u64 value)
           then Err Rv.DEVICE_ERROR else Ok tt
       | None => Ok tt
       end.

Definition CkOutputBufferResult_from_convenience_bytes (bytes : list N) (spec : CkOutputBufferSpec) : CkOutputBufferResult :=
  if sp_length_pointer_null spec then CkOutputBufferResult_no_effects Rv.ARGUMENTS_BAD
  else if negb (sp_buffer_present spec) then MkOutputBufferResult Rv.OK (Some (len_u64 bytes)) None
  else if len_u64 bytes <=? sp_buffer_len spec then MkOutputBufferResult Rv.OK (Some (len_u64 bytes)) (Some bytes)
  else MkOutputBufferResult Rv.BUFFER_TOO_SMALL (Some (len_u64 bytes)) None.

(** ** Effects *)

Inductive MessageEffects :=
| EffNone
| EffGcm (iv tag : option (list N))
| EffCcm (nonce mac : option (list N))
| EffSalsa (tag : option (list N))
| EffInvalid (v : OutputContractViolation).

Inductive ParameterEffectCallMode := ModeBegin | SizeQuery | Data | MissingLength.
#[export] Instance ParameterEffectCallMode_eq_dec : EqDecision ParameterEffectCallMode.
Proof. solve_decision. Defined.

Definition mode_from_output_spec (spec : CkOutputBufferSpec) : ParameterEffectCallMode :=
  if sp_length_pointer_null spec then MissingLength
  else if sp_buffer_present spec then Data
  else SizeQuery.

Record MessageEffectContext := MkEffectContext {
  ec_mode : ParameterEffectCallMode; ec_encrypt : bool; ec_generated_stage : bool; ec_auth_stage : bool; ec_rv : CkRv }.

Definition NO_GENERATE : N := 0.
Definition GENERATE_COUNTER_XOR : N := 4.

Definition generated (ctx : MessageEffectContext) (generator : N) : bool :=
  ec_encrypt ctx && ec_generated_stage ctx && negb (generator =? NO_GENERATE)
  && ((generator =? GENERATE_COUNTER_XOR)
      || (rv_eqb (ec_rv ctx) Rv.OK && match ec_mode ctx with Data | ModeBegin => true | _ => false end)).

Definition auth (ctx : MessageEffectContext) : bool :=
  ec_encrypt ctx && ec_auth_stage ctx && rv_eqb (ec_rv ctx) Rv.OK
  && match ec_mode ctx with Data => true | _ => false end.

(** [(c && null.is_none()).then(|| bytes.clone())]. *)
Definition effect_of (c : bool) (null_len : option N) (bytes : list N) : option (list N) :=
  if c && negb (is_some null_len) then Some bytes else None.

Definition capture (input output : MessageParameter) (ctx : MessageEffectContext) : MessageEffects :=
  if negb (same_layout_and_scalars input output) then EffInvalid ParameterIntegrity
  else match input, output with
       | GcmMessage a, GcmMessage b =>
           EffGcm (effect_of (generated ctx (gmp_iv_generator a)) (gmp_iv_null_len a) (gmp_iv b))
             (effect_of (auth ctx) (gmp_tag_null_len a) (gmp_tag b))
       | CcmMessage a, CcmMessage b =>
           EffCcm (effect_of (generated ctx (cmp_nonce_generator a)) (cmp_nonce_null_len a) (cmp_nonce b))
             (effect_of (auth ctx) (cmp_mac_null_len a) (cmp_mac b))
       | SalaChacha a, SalaChacha b => EffSalsa (effect_of (auth ctx) (smp_tag_null_len a) (smp_tag b))
       | Raw _, Raw _ => EffNone
       | _, _ => EffInvalid ParameterIntegrity
       end.

Definition effect_fits (effect permitted : option (list N)) : bool :=
  match effect, permitted with
  | None, _ => true
  | Some value, Some original => len_u64 value =? len_u64 original
  | _, _ => false
  end.

(** [slice.get(..n)]. *)
Definition get_to (bytes : list N) (n : N) : option (list N) :=
  if n <=? len_u64 bytes then Some (take (N.to_nat n) bytes) else None.

(** The mask [0xff << (8 - remainder)] is of type [u8]. *)
Definition fixed_prefix_matches (output : option (list N)) (original : list N) (bits : N) : bool :=
  match output with
  | None => true
  | Some output =>
      let bytes := bits / 8 in
      let remainder := bits mod 8 in
      bool_decide (get_to output bytes = get_to original bytes)
      && ((remainder =? 0)
          || match output !! N.to_nat bytes, original !! N.to_nat bytes with
             | Some out, Some old => N.land (N.lxor out old) (N.shiftl 255 (8 - remainder) mod 256) =? 0
             | _, _ => false
             end)
  end.

Definition effects_match (self allowed : MessageEffects) : bool :=
  match self, allowed with
  | EffGcm iv tag, EffGcm a b => effect_fits iv a && effect_fits tag b
  | EffCcm nonce mac, EffCcm a b => effect_fits nonce a && effect_fits mac b
  | EffSalsa tag, EffSalsa a => effect_fits tag a
  | EffNone, EffNone => true
  | _, _ => false
  end.

Definition effects_prefix (self : MessageEffects) (input : MessageParameter) : bool :=
  match self, input with
  | EffGcm iv _, GcmMessage p => fixed_prefix_matches iv (gmp_iv p) (gmp_iv_fixed_bits p)
  | EffCcm nonce _, CcmMessage p => fixed_prefix_matches nonce (cmp_nonce p) (cmp_nonce_fixed_bits p)
  | _, _ => true
  end.

Definition effects_validate_for (self : MessageEffects) (input : MessageParameter) (ctx : MessageEffectContext)
  : CkResult unit :=
  let? _ := validate_structured input in
  let allowed := capture input input ctx in
  if effects_match self allowed && effects_prefix self input then Ok tt else Err Rv.DEVICE_ERROR.

Inductive WireEffect :=
| WEffGcm (iv tag : option (list N))
| WEffCcm (nonce mac : option (list N))
| WEffSalsa (tag : option (list N)).
Record WireMessageParameterEffects := MkWireEffects { we_effect : option WireEffect }.

Definition effects_to_wire (effects : MessageEffects) : CkResult WireMessageParameterEffects :=
  match effects with
  | EffGcm iv tag => Ok (MkWireEffects (Some (WEffGcm iv tag)))
  | EffCcm nonce mac => Ok (MkWireEffects (Some (WEffCcm nonce mac)))
  | EffSalsa tag => Ok (MkWireEffects (Some (WEffSalsa tag)))
  | EffInvalid _ => Err Rv.DEVICE_ERROR
  | EffNone => Ok (MkWireEffects None)
  end.

Definition effects_from_wire (effects : WireMessageParameterEffects) : CkResult MessageEffects :=
  match we_effect effects with
  | Some (WEffGcm iv tag) => Ok (EffGcm iv tag)
  | Some (WEffCcm nonce mac) => Ok (EffCcm nonce mac)
  | Some (WEffSalsa tag) => Ok (EffSalsa tag)
  | None => Err ABSENT_MESSAGE_ONEOF_RV
  end.

(** ** Parameters on the wire *)

Lemma validate_wire_of_structured p :
  (forall data, p <> Raw data) ->
  validate_structured_wire_parameter (MessageParameter_to_wire p) = validate_structured p.
Proof. destruct p as [data|p|p|p]; intros Hp; [by destruct (Hp data)|done..]. Qed.

(** The decoder that takes ownership of the buffers agrees with the borrowing one. *)
Lemma try_from_owned_eq w : MessageParameter_try_from_owned w = MessageParameter_try_from w.
Proof. destruct w as [[[| | | |]|] v]; done. Qed.

Lemma try_from_to_wire p : validate_structured p = Ok tt -> MessageParameter_try_from (MessageParameter_to_wire p) = Ok p.
Proof.
  destruct p as [data|[]|[]|[]]; cbn; intros Hv; [done|..];
    unfold MessageParameter_try_from; cbn;
    cbv [GcmMessageParams_validate_structured CcmMessageParams_validate_structured
           SalsaMessageParams_validate_structured] in Hv; cbn in Hv; by rewrite Hv.
Qed.

(** C40: Well-formed parameters survive the wire at every negotiated version:
    encoding fails only for opaque bytes over the cap of 64 KiB, and then
    before anything is sent; otherwise both decoders give the parameters back,
    and the daemon accepts the message unless it is opaque bytes in the legacy
    encoding. *)
Theorem message_parameter_wire_roundtrip version p :
  validate_structured p = Ok tt ->
  match to_wire_with_transport_version version p with
  | Ok w =>
      MessageParameter_try_from w = Ok p /\ MessageParameter_try_from_owned w = Ok p
      /\ (validate_structured_wire_parameter w = Ok tt <-> 1 <= version \/ (forall data, p <> Raw data))
  | Err rv => rv = Rv.MECHANISM_PARAM_INVALID /\ 1 <= version
              /\ exists data, p = Raw data /\ MAX_OPAQUE_MESSAGE_PARAMETER_BYTES < len_u64 data
  end.
Proof.
  intros Hv. unfold to_wire_with_transport_version, SUPPORTED_MESSAGE_PARAMETER_TRANSPORT_VERSION.
  destruct p as [data|p|p|p].
  - destruct (N.leb_spec 1 version) as [Hle|Hlt].
    + destruct (N.ltb_spec MAX_OPAQUE_MESSAGE_PARAMETER_BYTES (len_u64 data)) as [Hcap|Hcap]; [eauto|].
      do 2 (split; [done|]).
      unfold validate_structured_wire_parameter, validate_structured_wire_params, validate_opaque_wire_params.
      cbn [wm_params wm_parameter_encoding_version om_declared_len om_data].
      apply N.ltb_ge in Hcap. rewrite Hcap, !N.eqb_refl. split; [by left|done].
    + do 2 (split; [done|]). split; [done|]. intros [?|Hno]; [lia|by destruct (Hno data)].
  - rewrite try_from_owned_eq, try_from_to_wire, validate_wire_of_structured by done. naive_solver.
  - rewrite try_from_owned_eq, try_from_to_wire, validate_wire_of_structured by done. naive_solver.
  - rewrite try_from_owned_eq, try_from_to_wire, validate_wire_of_structured by done. naive_solver.
Qed.

Lemma message_parameter_wire_roundtrip_witness :
  let p := GcmMessage (MkGcmMessageParams [1;2;3] None 12 4 [] (Some 16) 128) in
  match to_wire_with_transport_version 1 p with
  | Ok w => MessageParameter_try_from_owned w = Ok p
  | Err _ => False
  end.
Proof.
  assert (Hv : validate_structured (GcmMessage (MkGcmMessageParams [1;2;3] None 12 4 [] (Some 16) 128)) = Ok tt)
    by (vm_compute; reflexivity).
  pose proof (message_parameter_wire_roundtrip 1 _ Hv) as H. cbn in H |- *. apply H.
Defined.

Lemma check_wire_version_ok v : check_wire_version v = Ok tt -> v <= 1.
Proof. unfold check_wire_version, SUPPORTED_MESSAGE_PARAMETER_TRANSPORT_VERSION. case_match eqn:E; [done|]. intros _. by apply N.ltb_ge in E. Qed.

(** What the daemon lets past its checks decodes to well-formed parameters,
    is of a version it knows, and is never the legacy form of opaque bytes;
    opaque bytes are within the cap and as long as declared. *)
Theorem wire_check_admits_well_formed w :
  validate_structured_wire_parameter w = Ok tt ->
  exists p, MessageParameter_try_from_owned w = Ok p /\ validate_structured p = Ok tt
    /\ wm_parameter_encoding_version w <= 1
    /\ (forall data, wm_params w <> Some (WRaw data))
    /\ (forall data, p = Raw data ->
          wm_params w = Some (WOpaqueMessageParams (MkOpaqueMessageParams data (len_u64 data)))
          /\ len_u64 data <= MAX_OPAQUE_MESSAGE_PARAMETER_BYTES).
Proof.
  rewrite try_from_owned_eq. destruct w as [[[data|[]|[]|[]|[data declared]]|] v];
    unfold validate_structured_wire_parameter, validate_structured_wire_params; cbn [wm_params wm_parameter_encoding_version];
    try done.
  1-3: destruct (check_wire_version v) as [[]|] eqn:Hver; [|done]; apply check_wire_version_ok in Hver; intros Hf;
       unfold MessageParameter_try_from; cbn; cbn in Hf; rewrite Hf; eexists; split_and!; naive_solver.
  unfold validate_opaque_wire_params, SUPPORTED_MESSAGE_PARAMETER_TRANSPORT_VERSION. cbn [om_declared_len om_data].
  destruct (N.eqb_spec v 1) as [->|]; [|done]. cbn [negb].
  destruct (N.ltb_spec MAX_OPAQUE_MESSAGE_PARAMETER_BYTES declared) as [|Hcap]; [done|].
  destruct (N.eqb_spec (len_u64 data) declared) as [<-|]; [|done]. intros _.
  exists (Raw data). split_and!; try done. intros ? [= <-]. done.
Qed.

Lemma wire_check_admits_well_formed_witness :
  exists p, MessageParameter_try_from_owned
    (MkWireMessageParameter (Some (WOpaqueMessageParams (MkOpaqueMessageParams [7; 8] 2))) 1) = Ok p.
Proof.
  destruct (wire_check_admits_well_formed
    (MkWireMessageParameter (Some (WOpaqueMessageParams (MkOpaqueMessageParams [7; 8] 2))) 1)) as (p & Hp & _);
    [vm_compute; reflexivity|by exists p].
Defined.

Lemma shape_proto_roundtrip s : shape_try_from_proto_i32 (shape_to_proto_i32 s) = Ok s.
Proof. by destruct s. Qed.

Lemma async_data_roundtrip a : AsyncData_from_wire (AsyncData_to_wire a) = a.
Proof. by destruct a as [? ? ? [] []]. Qed.

(** ** The fixed bits of a generated IV

    Bit [k] of a buffer, counted from the most significant bit of its first
    byte, as PKCS#11 counts the fixed bits of an IV. *)

Definition is_byte (b : N) : Prop := b < 256.

Definition msb_bit (bytes : list N) (k : N) : option bool :=
  byte ← bytes !! N.to_nat (k / 8); Some (N.testbit byte (7 - k mod 8)).

Definition keeps_bits (bits : N) (original output : list N) : Prop :=
  forall k, k < bits -> msb_bit output k = msb_bit original k.

Lemma byte_high_bit a i : is_byte a -> 8 <= i -> N.testbit a i = false.
Proof.
  intros Ha Hi. destruct (N.eq_dec a 0) as [->|]; [apply N.bits_0|]. apply N.bits_above_log2.
  assert (N.log2 a < 8) by (apply N.log2_lt_pow2; [lia|exact Ha]). lia.
Qed.

Lemma byte_eq_bits a b : is_byte a -> is_byte b ->
  a = b <-> (forall j, j < 8 -> N.testbit a (7 - j) = N.testbit b (7 - j)).
Proof.
  intros Ha Hb. split; [by intros -> |]. intros H. apply N.bits_inj. intros i.
  destruct (N.le_gt_cases 8 i); [by rewrite !byte_high_bit by done|].
  specialize (H (7 - i) ltac:(lia)). by replace (7 - (7 - i)) with i in H by lia.
Qed.

Lemma mask_bit r i : 0 < r < 8 -> N.testbit (N.shiftl 255 (8 - r) mod 256) i = (8 - r <=? i) && (i <? 8).
Proof.
  intros Hr. change 256 with (2 ^ 8). change 255 with (N.ones 8).
  destruct (N.ltb_spec i 8) as [Hi|Hi].
  - rewrite N.mod_pow2_bits_low by done. destruct (N.leb_spec (8 - r) i) as [Hle|Hlt]; cbn.
    + rewrite N.shiftl_spec_high' by done. rewrite N.ones_spec_low by lia. done.
    + by rewrite N.shiftl_spec_low.
  - rewrite N.mod_pow2_bits_high by done. by rewrite andb_false_r.
Qed.

Lemma masked_equal a b r : 0 < r < 8 ->
  N.land (N.lxor a b) (N.shiftl 255 (8 - r) mod 256) = 0
  <-> (forall j, j < r -> N.testbit a (7 - j) = N.testbit b (7 - j)).
Proof.
  intros Hr. split.
  - intros H j Hj. assert (Hb : N.testbit 0 (7 - j) = false) by apply N.bits_0. rewrite <- H in Hb.
    rewrite N.land_spec, N.lxor_spec, mask_bit in Hb by done.
    rewrite (proj2 (N.leb_le (8 - r) (7 - j))), (proj2 (N.ltb_lt (7 - j) 8)) in Hb by lia. cbn in Hb.
    rewrite andb_true_r in Hb. by apply xorb_eq in Hb.
  - intros H. apply N.bits_inj. intros i. rewrite N.bits_0, N.land_spec, N.lxor_spec, mask_bit by done.
    destruct (N.leb_spec (8 - r) i); [|apply andb_false_r]. destruct (N.ltb_spec i 8); [|apply andb_false_r].
    specialize (H (7 - i) ltac:(lia)). replace (7 - (7 - i)) with i in H by lia. rewrite H, xorb_nilpotent. done.
Qed.

(** A byte's position splits a bit's position. *)
Lemma msb_bit_at bytes q j : j < 8 ->
  msb_bit bytes (8 * q + j) = (byte ← bytes !! N.to_nat q; Some (N.testbit byte (7 - j))).
Proof.
  intros Hj. unfold msb_bit. rewrite N.add_comm, (N.mul_comm 8 q), N.div_add, N.div_small, N.add_0_l by lia.
  by rewrite N.Div0.mod_add, N.mod_small.
Qed.

Section fixed_bits.
Context (original output : list N).
Hypothesis Horiginal : Forall is_byte original.
Hypothesis Houtput : Forall is_byte output.
Hypothesis Hlen : length output = length original.

Lemma byte_lookup_bits q : (q < length original)%nat ->
  output !! q = original !! q
  <-> (forall j, j < 8 -> msb_bit output (8 * N.of_nat q + j) = msb_bit original (8 * N.of_nat q + j)).
Proof using Horiginal Houtput Hlen.
  intros Hq. destruct (lookup_lt_is_Some_2 original q Hq) as [b Hb].
  destruct (lookup_lt_is_Some_2 output q ltac:(lia)) as [a Ha].
  pose proof (Forall_lookup_1 _ _ _ _ Houtput Ha). pose proof (Forall_lookup_1 _ _ _ _ Horiginal Hb).
  split.
  - intros Heq j Hj. rewrite !msb_bit_at, Nat2N.id by done. by rewrite Heq.
  - intros H'. rewrite Ha, Hb. f_equal. apply byte_eq_bits; [done..|]. intros j Hj. specialize (H' j Hj).
    rewrite !msb_bit_at, Nat2N.id, Ha, Hb in H' by done. by injection H'.
Qed.

Lemma prefix_bits n : (n <= length original)%nat ->
  take n output = take n original <-> keeps_bits (8 * N.of_nat n) original output.
Proof using Horiginal Houtput Hlen.
  intros Hn. split.
  - intros Ht k Hk. rewrite (N.div_mod k 8) by done. pose proof (N.mod_lt k 8 ltac:(done)).
    assert (Hq : k / 8 < N.of_nat n) by (apply N.Div0.div_lt_upper_bound; lia).
    rewrite <- (N2Nat.id (k / 8)). apply byte_lookup_bits; [lia| |done].
    rewrite <- (lookup_take_lt output n), <- (lookup_take_lt original n) by lia. by rewrite Ht.
  - intros Hk. apply list_eq. intros i. destruct (decide (i < n)%nat) as [Hi|Hi].
    + rewrite !lookup_take_lt by done. apply byte_lookup_bits; [lia|]. intros j Hj. apply Hk. lia.
    + rewrite !lookup_take_ge by lia. done.
Qed.

(** The check of the code is the comparison of the fixed bits. *)
Lemma fixed_prefix_exact bits : bits <= 8 * len_u64 original ->
  fixed_prefix_matches (Some output) original bits = true <-> keeps_bits bits original output.
Proof using Horiginal Houtput Hlen.
  unfold len_u64. intros Hbits. pose proof (N.div_mod bits 8 ltac:(done)) as Hdm.
  pose proof (N.mod_lt bits 8 ltac:(done)) as Hr. set (q := bits / 8) in *. set (r := bits mod 8) in *.
  unfold fixed_prefix_matches, get_to, len_u64. fold q r. rewrite Hlen.
  rewrite (proj2 (N.leb_le q (N.of_nat (length original)))) by lia.
  rewrite andb_true_iff, bool_decide_eq_true, orb_true_iff, N.eqb_eq, (inj_iff Some), prefix_bits, N2Nat.id by lia.
  destruct (N.eq_dec r 0) as [Hz|Hz].
  { rewrite Hdm, Hz, N.add_0_r. naive_solver. }
  destruct (lookup_lt_is_Some_2 original (N.to_nat q) ltac:(lia)) as [b Hb].
  destruct (lookup_lt_is_Some_2 output (N.to_nat q) ltac:(lia)) as [a Ha].
  rewrite Ha, Hb, N.eqb_eq, masked_equal by lia.
  assert (Hlast : (forall j, j < r -> N.testbit a (7 - j) = N.testbit b (7 - j))
    <-> (forall j, j < r -> msb_bit output (8 * q + j) = msb_bit original (8 * q + j))).
  { split; intros H j Hj; specialize (H j Hj); rewrite !msb_bit_at, Ha, Hb in * by lia;
      [by cbn; f_equal|by injection H]. }
  rewrite Hlast. split.
  - intros [Hpre [?|Hrest]] k Hk; [done|]. destruct (N.lt_ge_cases k (8 * q)) as [|Hge]; [by apply Hpre|].
    replace k with (8 * q + (k - 8 * q)) by lia. apply Hrest. lia.
  - intros Hk. split; [intros k ?; apply Hk; lia|]. right. intros j Hj. apply Hk. lia.
Qed.
End fixed_bits.

(** ** Which effects are accepted *)

Definition opt_bytes (o : option (list N)) : Prop := forall bytes, o = Some bytes -> Forall is_byte bytes.

Definition param_bytes (p : MessageParameter) : Prop :=
  match p with
  | Raw data => Forall is_byte data
  | GcmMessage p => Forall is_byte (gmp_iv p) /\ Forall is_byte (gmp_tag p)
  | CcmMessage p => Forall is_byte (cmp_nonce p) /\ Forall is_byte (cmp_mac p)
  | SalaChacha p => Forall is_byte (smp_nonce p) /\ Forall is_byte (smp_tag p)
  end.

Definition effect_bytes (e : MessageEffects) : Prop :=
  match e with
  | EffGcm iv tag => opt_bytes iv /\ opt_bytes tag
  | EffCcm nonce mac => opt_bytes nonce /\ opt_bytes mac
  | EffSalsa tag => opt_bytes tag
  | _ => True
  end.

(** What a module that keeps its contract may do to a parameter: every
    length and scalar stays, and the fixed bits of an IV stay. *)
Definition keeps_fixed_bits (input output : MessageParameter) : Prop :=
  match input, output with
  | GcmMessage a, GcmMessage b => keeps_bits (gmp_iv_fixed_bits a) (gmp_iv a) (gmp_iv b)
  | CcmMessage a, CcmMessage b => keeps_bits (cmp_nonce_fixed_bits a) (cmp_nonce a) (cmp_nonce b)
  | _, _ => True
  end.

(** [e] reports part of [full]. *)
Definition reports (e full : MessageEffects) : Prop :=
  match e, full with
  | EffGcm iv tag, EffGcm iv' tag' => (iv = None \/ iv = iv') /\ (tag = None \/ tag = tag')
  | EffCcm nonce mac, EffCcm nonce' mac' => (nonce = None \/ nonce = nonce') /\ (mac = None \/ mac = mac')
  | EffSalsa tag, EffSalsa tag' => tag = None \/ tag = tag'
  | EffNone, EffNone => True
  | _, _ => False
  end.

Lemma keeps_bits_refl bits l : keeps_bits bits l l.
Proof. done. Qed.

Lemma len_u64_inj a b : len_u64 a = len_u64 b <-> length a = length b.
Proof. unfold len_u64. lia. Qed.

(** One buffer of the parameter, with its fixed bits. *)
Lemma field_accepted e c null original bits :
  Forall is_byte original -> opt_bytes e -> (null = None -> bits <= 8 * len_u64 original) ->
  effect_fits e (effect_of c null original) && fixed_prefix_matches e original bits = true
  <-> exists output, Forall is_byte output /\ length output = length original
        /\ keeps_bits bits original output /\ (e = None \/ e = effect_of c null output).
Proof.
  intros Horig He Hbits. unfold effect_of. destruct e as [value|]; cbn.
  2: { split; [|done]. intros _. exists original. split_and!; auto using keeps_bits_refl. }
  specialize (He value eq_refl).
  destruct (c && negb (is_some null)) eqn:Hc; cbn.
  2: { split; [done|]. intros (o & _ & _ & _ & [?|?]); done. }
  assert (Hnull : null = None). { destruct null; [|done]. by rewrite andb_comm in Hc. } specialize (Hbits Hnull).
  rewrite andb_true_iff, N.eqb_eq, len_u64_inj. split.
  - intros [Hlen Hfix]. exists value. split_and!; auto. by apply fixed_prefix_exact in Hfix.
  - intros (o & Ho & Hlen & Hk & [?|[= <-]]); [done|]. split; [done|]. by apply fixed_prefix_exact.
Qed.

Lemma fixed_prefix_0 e original : fixed_prefix_matches e original 0 = true.
Proof.
  destruct e as [v|]; [|done]. unfold fixed_prefix_matches, get_to. cbn [N.div N.modulo N.div_eucl fst snd].
  rewrite !(proj2 (N.leb_le 0 _)) by lia. by rewrite bool_decide_eq_true_2.
Qed.

(** A buffer without fixed bits. *)
Lemma tag_accepted e c null original :
  Forall is_byte original -> opt_bytes e ->
  effect_fits e (effect_of c null original) = true
  <-> exists output, Forall is_byte output /\ length output = length original
        /\ (e = None \/ e = effect_of c null output).
Proof.
  intros Ho He. pose proof (field_accepted e c null original 0 Ho He ltac:(lia)) as H.
  rewrite fixed_prefix_0, andb_true_r in H. rewrite H. split.
  - intros (o & ? & ? & _ & ?). eauto.
  - intros (o & ? & ? & ?). exists o. split_and!; try done. intros k Hk. lia.
Qed.

Lemma pointer_extent_present n e : pointer_extent_len n None = Ok e -> e = n.
Proof. unfold pointer_extent_len. case_match; [done|]. by intros [= <-]. Qed.

Lemma div_ceil_8 a n : div_ceil a 8 <= n -> a <= 8 * n.
Proof.
  unfold div_ceil. pose proof (N.div_mod a 8 ltac:(done)) as Ha. pose proof (N.mod_lt a 8 ltac:(done)).
  destruct (N.eqb_spec (a mod 8) 0); lia.
Qed.

Lemma gcm_fixed_bits_fit p :
  GcmMessageParams_validate_structured p = Ok tt -> gmp_iv_null_len p = None -> gmp_iv_fixed_bits p <= 8 * len_u64 (gmp_iv p).
Proof.
  unfold GcmMessageParams_validate_structured, validate_gcm_fields. intros Hv Hn. rewrite Hn in Hv.
  destruct (pointer_extent_len _ None) as [e|] eqn:He; [|done]. apply pointer_extent_present in He as ->.
  destruct (_ || _) eqn:Hor; [done|]. apply orb_false_iff in Hor as [Hlt _]. apply N.ltb_ge in Hlt. by apply div_ceil_8.
Qed.

Lemma ccm_fixed_bits_fit p :
  CcmMessageParams_validate_structured p = Ok tt -> cmp_nonce_null_len p = None ->
  cmp_nonce_fixed_bits p <= 8 * len_u64 (cmp_nonce p).
Proof.
  unfold CcmMessageParams_validate_structured, validate_ccm_fields. intros Hv Hn. rewrite Hn in Hv.
  destruct (pointer_extent_len _ None) as [e|] eqn:He; [|done]. apply pointer_extent_present in He as ->.
  destruct (negb _); [done|]. destruct (_ || _) eqn:Hor; [done|].
  apply orb_false_iff in Hor as [Hlt _]. apply N.ltb_ge in Hlt. lia.
Qed.

Lemma same_layout_refl p : same_layout_and_scalars p p = true.
Proof. destruct p; cbn; rewrite ?N.eqb_refl, ?bool_decide_eq_true_2 by done; done. Qed.

Lemma layout_gcm a b : same_layout_and_scalars (GcmMessage a) (GcmMessage b) = true <->
  length (gmp_iv b) = length (gmp_iv a) /\ length (gmp_tag b) = length (gmp_tag a) /\
  b = MkGcmMessageParams (gmp_iv b) (gmp_iv_null_len a) (gmp_iv_fixed_bits a) (gmp_iv_generator a) (gmp_tag b)
        (gmp_tag_null_len a) (gmp_tag_bits a).
Proof.
  cbn. rewrite !andb_true_iff, !bool_decide_eq_true, !N.eqb_eq, !len_u64_inj. destruct a, b; cbn.
  split; intros; destruct_and!; simplify_eq; split_and!; congruence.
Qed.

Lemma layout_ccm a b : same_layout_and_scalars (CcmMessage a) (CcmMessage b) = true <->
  length (cmp_nonce b) = length (cmp_nonce a) /\ length (cmp_mac b) = length (cmp_mac a) /\
  b = MkCcmMessageParams (cmp_data_len a) (cmp_nonce b) (cmp_nonce_null_len a) (cmp_nonce_fixed_bits a)
        (cmp_nonce_generator a) (cmp_mac b) (cmp_mac_null_len a) (cmp_mac_len a).
Proof.
  cbn. rewrite !andb_true_iff, !bool_decide_eq_true, !N.eqb_eq, !len_u64_inj. destruct a, b; cbn.
  split; intros; destruct_and!; simplify_eq; split_and!; congruence.
Qed.

Lemma layout_salsa a b : same_layout_and_scalars (SalaChacha a) (SalaChacha b) = true <->
  length (smp_nonce b) = length (smp_nonce a) /\ length (smp_tag b) = length (smp_tag a) /\
  b = MkSalsaMessageParams (smp_nonce b) (smp_nonce_bits a) (smp_nonce_null_len a) (smp_tag b) (smp_tag_null_len a).
Proof.
  cbn. rewrite !andb_true_iff, !bool_decide_eq_true, !N.eqb_eq, !len_u64_inj. destruct a, b; cbn.
  split; intros; destruct_and!; simplify_eq; split_and!; congruence.
Qed.

Lemma capture_layout input output ctx : same_layout_and_scalars input output = true ->
  capture input output ctx = match input, output with
       | GcmMessage a, GcmMessage b =>
           EffGcm (effect_of (generated ctx (gmp_iv_generator a)) (gmp_iv_null_len a) (gmp_iv b))
             (effect_of (auth ctx) (gmp_tag_null_len a) (gmp_tag b))
       | CcmMessage a, CcmMessage b =>
           EffCcm (effect_of (generated ctx (cmp_nonce_generator a)) (cmp_nonce_null_len a) (cmp_nonce b))
             (effect_of (auth ctx) (cmp_mac_null_len a) (cmp_mac b))
       | SalaChacha a, SalaChacha b => EffSalsa (effect_of (auth ctx) (smp_tag_null_len a) (smp_tag b))
       | Raw _, Raw _ => EffNone
       | _, _ => EffInvalid ParameterIntegrity
       end.
Proof. unfold capture. by intros ->. Qed.

(** A module's output that keeps the contract, and the report of it. *)
Definition honest_report (e : MessageEffects) (input : MessageParameter) (ctx : MessageEffectContext) : Prop :=
  exists output, param_bytes output /\ same_layout_and_scalars input output = true
    /\ keeps_fixed_bits input output /\ reports e (capture input output ctx).

Lemma effects_checked e input ctx : validate_structured input = Ok tt ->
  effects_validate_for e input ctx = Ok tt
  <-> effects_match e (capture input input ctx) && effects_prefix e input = true.
Proof. unfold effects_validate_for. intros ->. by destruct (_ && _). Qed.

Lemma layout_same_kind input output : same_layout_and_scalars input output = true ->
  match input, output with
  | Raw a, Raw b => a = b
  | GcmMessage _, GcmMessage _ | CcmMessage _, CcmMessage _ | SalaChacha _, SalaChacha _ => True
  | _, _ => False
  end.
Proof. destruct input, output; cbn; try done. by intros ?%bool_decide_eq_true. Qed.

Lemma gcm_effects_exact e p ctx :
  param_bytes (GcmMessage p) -> effect_bytes e -> validate_structured (GcmMessage p) = Ok tt ->
  effects_match e (capture (GcmMessage p) (GcmMessage p) ctx) && effects_prefix e (GcmMessage p) = true
  <-> honest_report e (GcmMessage p) ctx.
Proof.
  intros [Hiv Htag] He Hv. rewrite capture_layout by apply same_layout_refl. split.
  - destruct e as [|iv tag| | |]; try done. cbn [effects_match effects_prefix]. destruct He as [Hi Ht].
    rewrite <- andb_assoc, (andb_comm (effect_fits tag _)), andb_assoc, andb_true_iff.
    rewrite field_accepted by auto using gcm_fixed_bits_fit. rewrite tag_accepted by done.
    intros [(iv' & Hb & Hlen & Hk & Hr) (tag' & Hb' & Hlen' & Hr')].
    set (o := MkGcmMessageParams iv' (gmp_iv_null_len p) (gmp_iv_fixed_bits p) (gmp_iv_generator p) tag'
                (gmp_tag_null_len p) (gmp_tag_bits p)).
    assert (Hl : same_layout_and_scalars (GcmMessage p) (GcmMessage o) = true) by by apply layout_gcm.
    exists (GcmMessage o). rewrite capture_layout by done. done.
  - intros (o & Hb & Hl & Hk & Hr). rewrite capture_layout in Hr by done. apply layout_same_kind in Hl as Ho.
    destruct o as [|b| |]; try done. apply layout_gcm in Hl as (Hlen & Hlen' & _).
    destruct e as [|iv tag| | |]; try done. destruct Hb as [Hb Hb']. destruct He as [Hi Ht]. destruct Hr as [Hr Hr'].
    cbn [effects_match effects_prefix].
    rewrite <- andb_assoc, (andb_comm (effect_fits tag _)), andb_assoc, andb_true_iff.
    rewrite field_accepted by auto using gcm_fixed_bits_fit. rewrite tag_accepted by done. eauto 10.
Qed.

Lemma ccm_effects_exact e p ctx :
  param_bytes (CcmMessage p) -> effect_bytes e -> validate_structured (CcmMessage p) = Ok tt ->
  effects_match e (capture (CcmMessage p) (CcmMessage p) ctx) && effects_prefix e (CcmMessage p) = true
  <-> honest_report e (CcmMessage p) ctx.
Proof.
  intros [Hnonce Hmac] He Hv. rewrite capture_layout by apply same_layout_refl. split.
  - destruct e as [| |nonce mac| |]; try done. cbn [effects_match effects_prefix]. destruct He as [Hi Ht].
    rewrite <- andb_assoc, (andb_comm (effect_fits mac _)), andb_assoc, andb_true_iff.
    rewrite field_accepted by auto using ccm_fixed_bits_fit. rewrite tag_accepted by done.
    intros [(nonce' & Hb & Hlen & Hk & Hr) (mac' & Hb' & Hlen' & Hr')].
    set (o := MkCcmMessageParams (cmp_data_len p) nonce' (cmp_nonce_null_len p) (cmp_nonce_fixed_bits p)
                (cmp_nonce_generator p) mac' (cmp_mac_null_len p) (cmp_mac_len p)).
    assert (Hl : same_layout_and_scalars (CcmMessage p) (CcmMessage o) = true) by by apply layout_ccm.
    exists (CcmMessage o). rewrite capture_layout by done. done.
  - intros (o & Hb & Hl & Hk & Hr). rewrite capture_layout in Hr by done. apply layout_same_kind in Hl as Ho.
    destruct o as [| |b|]; try done. apply layout_ccm in Hl as (Hlen & Hlen' & _).
    destruct e as [| |nonce mac| |]; try done. destruct Hb as [Hb Hb']. destruct He as [Hi Ht]. destruct Hr as [Hr Hr'].
    cbn [effects_match effects_prefix].
    rewrite <- andb_assoc, (andb_comm (effect_fits mac _)), andb_assoc, andb_true_iff.
    rewrite field_accepted by auto using ccm_fixed_bits_fit. rewrite tag_accepted by done. eauto 10.
Qed.

Lemma salsa_effects_exact e p ctx :
  param_bytes (SalaChacha p) -> effect_bytes e ->
  effects_match e (capture (SalaChacha p) (SalaChacha p) ctx) && effects_prefix e (SalaChacha p) = true
  <-> honest_report e (SalaChacha p) ctx.
Proof.
  intros [Hnonce Htag] He. rewrite capture_layout by apply same_layout_refl. split.
  - destruct e as [| | |tag|]; try done. cbn [effects_match effects_prefix]. rewrite andb_true_r, tag_accepted by done.
    intros (tag' & Hb' & Hlen' & Hr').
    set (o := MkSalsaMessageParams (smp_nonce p) (smp_nonce_bits p) (smp_nonce_null_len p) tag' (smp_tag_null_len p)).
    assert (Hl : same_layout_and_scalars (SalaChacha p) (SalaChacha o) = true) by by apply layout_salsa.
    exists (SalaChacha o). rewrite capture_layout by done. done.
  - intros (o & Hb & Hl & Hk & Hr). rewrite capture_layout in Hr by done. apply layout_same_kind in Hl as Ho.
    destruct o as [| | |b]; try done. apply layout_salsa in Hl as (Hlen & Hlen' & _).
    destruct e as [| | |tag|]; try done. destruct Hb as [Hb Hb'].
    cbn [effects_match effects_prefix]. rewrite andb_true_r, tag_accepted by done. eauto.
Qed.

(** The effects of a call on its parameter that the daemon accepts are exactly
    the reports of a module that keeps its contract: one that leaves every
    length, scalar and fixed bit of the parameter alone.  A generated IV or a
    tag is reported only for the stages, modes and return values for which
    the capture of that output reports it. *)
Theorem accepted_effects_exact e input ctx :
  param_bytes input -> effect_bytes e -> validate_structured input = Ok tt ->
  effects_validate_for e input ctx = Ok tt <-> honest_report e input ctx.
Proof.
  intros Hb He Hv. rewrite effects_checked by done.
  destruct input as [data|p|p|p]; [|by apply gcm_effects_exact|by apply ccm_effects_exact|by apply salsa_effects_exact].
  rewrite capture_layout by apply same_layout_refl. split.
  - destruct e; try done. intros _. exists (Raw data). rewrite capture_layout by apply same_layout_refl.
    split_and!; try done. apply same_layout_refl.
  - intros (o & _ & Hl & _ & Hr). rewrite capture_layout in Hr by done. apply layout_same_kind in Hl.
    destruct o; try done. by destruct e.
Qed.

Definition demo_gcm (iv tag : list N) : MessageParameter :=
  GcmMessage (MkGcmMessageParams iv None 12 4 tag None 8).

Lemma accepted_effects_exact_witness :
  honest_report (EffGcm (Some [171; 205]) (Some [9])) (demo_gcm [171; 192] [0]) (MkEffectContext Data true true true Rv.OK)
  /\ ~ honest_report (EffGcm (Some [171; 220]) (Some [9])) (demo_gcm [171; 192] [0]) (MkEffectContext Data true true true Rv.OK).
Proof.
  assert (Hb : param_bytes (demo_gcm [171; 192] [0])) by (repeat constructor; done).
  assert (He : forall iv, Forall is_byte iv -> effect_bytes (EffGcm (Some iv) (Some [9]))).
  { intros iv Hiv. split; intros ? [= <-]; [done|by repeat constructor]. }
  split.
  - apply (accepted_effects_exact _ _ _ Hb); [apply He; by repeat constructor|vm_compute; reflexivity..].
  - intros H. apply (accepted_effects_exact _ _ _ Hb) in H; [|apply He; by repeat constructor|vm_compute; reflexivity].
    vm_compute in H. discriminate H.
Defined.

(** Effects survive the wire, except that no effects at all decode as an
    error: the decoder reads an empty message as malformed. *)
Lemma effects_wire_roundtrip e w : effects_to_wire e = Ok w ->
  effects_from_wire w = match e with EffNone => Err ABSENT_MESSAGE_ONEOF_RV | _ => Ok e end.
Proof. destruct e; cbn; intros [= <-]; done. Qed.
