(* ===== verification/Message.v ===== *)
(** * Message-based cryptography: the handlers

    Models [crates/server/src/server/grpc_service/message_crypto/mod.rs] and
    the message functions of [parameter_output_exact.rs].

    Each session has a cell per operation (encrypt, decrypt, sign, verify) that
    holds the parameter shape of the native operation, under a mutex.  A
    request takes the mutex, checks itself against the shape, hands the cell to
    a worker that calls the module and settles the shape by the result; the
    worker outlives the request when the call times out.  A handler here is
    told what its cell held when the mutex was granted ([granted]), and returns
    its answer with the fate of the cell and the call it made ([Turn]).

    The encrypt and decrypt handlers are the same text up to the name of the
    operation, and so are the init and final handlers of sign and verify; one
    definition with the operation as an argument models each pair. *)

From S2P Require Import Prelude Ck Width HandleMap SlotMap Connection Context Manager Session Mech Grant Policy Handler Authorize.
From S2P Require Import Shapes ShapeProps Registry Params Validate Embedded KeyGen Lifecycle Attributes InitGate MessageParams.
Open Scope N_scope.

(** ** Specifications of a caller's parameter buffer *)

(** [CkParameterRoundtripSpec], and its wire form, which has the same fields. *)
Record CkParameterRoundtripSpec := MkRoundtripSpec { rs_buffer_present : bool; rs_buffer_len : N; rs_value : option SecretBytes }.
Record CkParameterRoundtripResult := MkRoundtripResult { rr_ck_rv : CkRv; rr_returned_len : N; rr_value : option SecretBytes }.
#[export] Instance CkParameterRoundtripResult_eq_dec : EqDecision CkParameterRoundtripResult.
Proof. solve_decision. Defined.

(** [present.then(Vec::new)]. *)
Definition empty_if (present : bool) : option SecretBytes := if present then Some [] else None.

Definition parameter_ack_matches (result : CkParameterRoundtripResult) (spec : CkParameterRoundtripSpec) (expected_rv : CkRv) : bool :=
  rv_eqb (rr_ck_rv result) expected_rv && (rr_returned_len result =? rs_buffer_len spec)
  && bool_decide (rr_value result = empty_if (rs_buffer_present spec)).

Definition parameter_result_matches_spec (result : CkParameterRoundtripResult) (spec : CkParameterRoundtripSpec) : bool :=
  rv_eqb (rr_ck_rv result) Rv.OK && (rr_returned_len result =? rs_buffer_len spec)
  && bool_decide (rr_value result = empty_if (rs_buffer_present spec)).

Definition parameter_ack (spec : CkParameterRoundtripSpec) : CkParameterRoundtripResult :=
  MkRoundtripResult Rv.OK (rs_buffer_len spec) (empty_if (rs_buffer_present spec)).

Definition translate_parameter_ack (output : CkOutputBufferResult) (caller_spec : CkParameterRoundtripSpec) : CkParameterRoundtripResult :=
  MkRoundtripResult (or_ck_rv output) (rs_buffer_len caller_spec) (empty_if (rs_buffer_present caller_spec)).

(** ** Contracts of a request *)

Definition decode_structured_message_parameter (wire : option WireMessageParameter) : CkResult (option MessageParameter) :=
  match wire with
  | None => Ok None
  | Some parameter =>
      let? _ := validate_structured_wire_parameter parameter in
      let? p := MessageParameter_try_from parameter in Ok (Some p)
  end.

Definition positive (n : option N) : bool := is_Some_and (fun len => 0 <? len) n.

(** The copy of [message_crypto/mod.rs]. *)
Definition message_parameter_has_null_positive (parameter : MessageParameter) : bool :=
  match parameter with
  | Raw _ => false
  | GcmMessage p => positive (gmp_iv_null_len p) || (is_some (gmp_tag_null_len p) && (0 <? gmp_tag_bits p))
  | CcmMessage p => positive (cmp_nonce_null_len p) || (is_some (cmp_mac_null_len p) && (0 <? cmp_mac_len p))
  | SalaChacha p => is_some (smp_nonce_null_len p) && (0 <? smp_nonce_bits p) || is_some (smp_tag_null_len p)
  end.

(** The copy of [parameter_output_exact.rs]. *)
Definition exact_parameter_has_null_positive (parameter : MessageParameter) : bool :=
  match parameter with
  | Raw _ => false
  | GcmMessage p => positive (gmp_iv_null_len p) || positive (gmp_tag_null_len p)
  | CcmMessage p => positive (cmp_nonce_null_len p) || positive (cmp_mac_null_len p)
  | SalaChacha p => positive (smp_nonce_null_len p) || positive (smp_tag_null_len p)
  end.

Record MessageInitContract := MkInitContract {
  mic_shape : MessageParameterShape; mic_caller_spec : CkParameterRoundtripSpec; mic_provider_spec : CkParameterRoundtripSpec }.

Record MessageBeginContract := MkBeginContract {
  mbc_caller_spec : CkParameterRoundtripSpec; mbc_provider_spec : CkParameterRoundtripSpec; mbc_parameter : option MessageParameter }.

Section contracts.
(** Sizes of the native parameter structs, from the C headers. *)
Context (struct_size : MessageParameterShape -> N).

Definition native_message_parameter_len (parameter : MessageParameter) : N :=
  match parameter with
  | GcmMessage _ => struct_size Gcm
  | CcmMessage _ => struct_size Ccm
  | SalaChacha _ => struct_size SalsaChacha
  | Raw raw => len_u64 raw
  end.

(** The common end of both contracts: the specification the module gets. *)
Definition provider_spec_of (sanitize_inputs : bool) (shape : MessageParameterShape) (caller_spec : CkParameterRoundtripSpec)
    (parameter : option MessageParameter) : CkResult CkParameterRoundtripSpec :=
  match parameter with
  | Some parameter =>
      let? _ := validate_structured_shape shape parameter in
      if negb (rs_buffer_present caller_spec) || (rs_buffer_len caller_spec =? 0) then Err Rv.MECHANISM_PARAM_INVALID
      else if sanitize_inputs && message_parameter_has_null_positive parameter then Err Rv.ARGUMENTS_BAD
      else Ok (MkRoundtripSpec true (native_message_parameter_len parameter) None)
  | None =>
      if rs_buffer_present caller_spec && (0 <? rs_buffer_len caller_spec) then Err Rv.MECHANISM_PARAM_INVALID
      else if sanitize_inputs && negb (rs_buffer_present caller_spec) && (0 <? rs_buffer_len caller_spec) then Err Rv.ARGUMENTS_BAD
      else Ok caller_spec
  end.

Definition validate_message_init_contract (sanitize_inputs : bool) (registry : MechanismRegistry) (mechanism_type : CkMechanismType)
    (mechanism_had_params : bool) (wire_shape : option Z) (wire_spec : option CkParameterRoundtripSpec)
    (init_param : option MessageParameter) : CkResult (option MessageInitContract) :=
  if mechanism_had_params then Err Rv.MECHANISM_PARAM_INVALID
  else if negb (is_some wire_shape || is_some wire_spec || is_some init_param) then Ok None
  else
    match wire_shape with
    | None => Err Rv.MECHANISM_PARAM_INVALID
    | Some wire_shape =>
        let? requested_shape := shape_try_from_proto_i32 wire_shape in
        let derived_shape := MessageParameterShape_from_registry_name (param_shape registry mechanism_type) in
        if negb (bool_decide (requested_shape = derived_shape)) then Err Rv.MECHANISM_PARAM_INVALID
        else if bool_decide (derived_shape = Unmodeled)
                && negb (message_opaque_admits_mechanism registry mechanism_type
                           match init_param with Some (Raw raw) => negb (bool_decide (raw = [])) | _ => false end)
        then Err Rv.MECHANISM_PARAM_INVALID
        else
          match wire_spec with
          | None => Err Rv.MECHANISM_PARAM_INVALID
          | Some wire_spec =>
              if is_some (rs_value wire_spec) then Err Rv.MECHANISM_PARAM_INVALID
              else
                let caller_spec := MkRoundtripSpec (rs_buffer_present wire_spec) (rs_buffer_len wire_spec) None in
                let? provider_spec := provider_spec_of sanitize_inputs derived_shape caller_spec init_param in
                Ok (Some (MkInitContract derived_shape caller_spec provider_spec))
          end
    end.

Definition validate_message_begin_contract (sanitize_inputs : bool) (installed_shape : MessageParameterShape)
    (legacy_parameter : SecretBytes) (wire_spec : option CkParameterRoundtripSpec) (wire_parameter : option WireMessageParameter)
  : CkResult (option MessageBeginContract) :=
  if negb (bool_decide (legacy_parameter = [])) then Err Rv.MECHANISM_PARAM_INVALID
  else
    match wire_spec, wire_parameter with
    | None, None => Ok None
    | None, Some _ => Err Rv.MECHANISM_PARAM_INVALID
    | Some wire_spec, _ =>
        if is_some (rs_value wire_spec) then Err Rv.MECHANISM_PARAM_INVALID
        else
          let caller_spec := MkRoundtripSpec (rs_buffer_present wire_spec) (rs_buffer_len wire_spec) None in
          let? parameter := decode_structured_message_parameter wire_parameter in
          let? provider_spec := provider_spec_of sanitize_inputs installed_shape caller_spec parameter in
          Ok (Some (MkBeginContract caller_spec provider_spec parameter))
    end.
End contracts.

Definition validate_empty_message_parameter_contract (legacy_parameter : SecretBytes) (wire_spec : option CkParameterRoundtripSpec)
  : CkResult (option CkParameterRoundtripSpec) :=
  if negb (bool_decide (legacy_parameter = [])) then Err Rv.MECHANISM_PARAM_INVALID
  else
    match wire_spec with
    | None => Ok None
    | Some spec =>
        if (0 <? rs_buffer_len spec) || is_some (rs_value spec) then Err Rv.MECHANISM_PARAM_INVALID else Ok (Some spec)
    end.

(** ** Calls to the module, with the type of their results *)

Inductive MessageCall : Set -> Type :=
| CallInit (op : MessageOperation) (session : CkSessionHandle) (mechanism : option ValidatedMechanismParams)
    (init_param : option MessageParameter) (key : CkObjectHandle) : MessageCall unit
| CallInitContract (op : MessageOperation) (session : CkSessionHandle) (mechanism : ValidatedMechanismParams)
    (init_param : option MessageParameter) (key : CkObjectHandle) (spec : CkParameterRoundtripSpec) : MessageCall CkParameterRoundtripResult
| CallFinal (op : MessageOperation) (session : CkSessionHandle) : MessageCall unit
| CallMessage (op : MessageOperation) (session : CkSessionHandle) (aad data : CkInBuf) : MessageCall (SecretBytes * SecretBytes)
| CallMessageNext (op : MessageOperation) (session : CkSessionHandle) (data : CkInBuf) (flags : N) : MessageCall (SecretBytes * SecretBytes)
| CallBeginMsg (op : MessageOperation) (session : CkSessionHandle) (parameter : MessageParameter) (aad : CkInBuf)
    (spec : CkParameterRoundtripSpec) : MessageCall (CkParameterRoundtripResult * MessageEffects)
| CallBeginExact (op : MessageOperation) (session : CkSessionHandle) (aad : CkInBuf) (spec : CkParameterRoundtripSpec)
  : MessageCall CkParameterRoundtripResult
| CallSignMessage (session : CkSessionHandle) (data : CkInBuf) : MessageCall (SecretBytes * SecretBytes)
| CallSignBegin (session : CkSessionHandle) : MessageCall SecretBytes
| CallSignBeginExact (session : CkSessionHandle) (spec : CkParameterRoundtripSpec) : MessageCall CkParameterRoundtripResult
| CallSignNext (session : CkSessionHandle) (data : CkInBuf) (request_signature : bool) : MessageCall (SecretBytes * SecretBytes)
| CallSignNextFeedExact (session : CkSessionHandle) (data : CkInBuf) (spec : CkParameterRoundtripSpec) : MessageCall CkParameterRoundtripResult
| CallVerify (session : CkSessionHandle) (data signature : CkInBuf) : MessageCall unit
| CallVerifyExact (session : CkSessionHandle) (data signature : CkInBuf) (spec : CkParameterRoundtripSpec) : MessageCall CkParameterRoundtripResult
| CallVerifyBegin (session : CkSessionHandle) : MessageCall unit
| CallVerifyBeginExact (session : CkSessionHandle) (spec : CkParameterRoundtripSpec) : MessageCall CkParameterRoundtripResult
| CallVerifyNext (session : CkSessionHandle) (data : CkInBuf) (is_final : bool) (signature : CkInBuf) : MessageCall unit
| CallVerifyNextExact (session : CkSessionHandle) (data : CkInBuf) (is_final : bool) (signature : CkInBuf)
    (spec : CkParameterRoundtripSpec) : MessageCall CkParameterRoundtripResult
| CallMessageExact (op : MessageOperation) (session : CkSessionHandle) (parameter : SecretBytes) (aad data : CkInBuf)
    (output_spec : CkOutputBufferSpec) (spec : CkParameterRoundtripSpec) : MessageCall (CkOutputBufferResult * CkParameterRoundtripResult)
| CallNextExact (op : MessageOperation) (session : CkSessionHandle) (parameter : SecretBytes) (data : CkInBuf) (flags : N)
    (output_spec : CkOutputBufferSpec) (spec : CkParameterRoundtripSpec) : MessageCall (CkOutputBufferResult * CkParameterRoundtripResult)
| CallMessageExactMsg (op : MessageOperation) (session : CkSessionHandle) (parameter : MessageParameter) (aad data : CkInBuf)
    (output_spec : CkOutputBufferSpec) (spec : CkParameterRoundtripSpec)
  : MessageCall (CkOutputBufferResult * CkParameterRoundtripResult * MessageEffects)
| CallNextExactMsg (op : MessageOperation) (session : CkSessionHandle) (parameter : MessageParameter) (data : CkInBuf) (flags : N)
    (output_spec : CkOutputBufferSpec) (spec : CkParameterRoundtripSpec)
  : MessageCall (CkOutputBufferResult * CkParameterRoundtripResult * MessageEffects)
| CallSignMessageExact (session : CkSessionHandle) (parameter : SecretBytes) (data : CkInBuf)
    (output_spec : CkOutputBufferSpec) (spec : CkParameterRoundtripSpec) : MessageCall (CkOutputBufferResult * CkParameterRoundtripResult)
| CallSignNextExact (session : CkSessionHandle) (parameter : SecretBytes) (data : CkInBuf)
    (output_spec : CkOutputBufferSpec) (spec : CkParameterRoundtripSpec) : MessageCall (CkOutputBufferResult * CkParameterRoundtripResult)
| CallSessionCancel (session : CkSessionHandle) (flags : N) : MessageCall unit
| CallSetOperationState (session : CkSessionHandle) (state : CkInBuf) (encryption_key authentication_key : CkObjectHandle) : MessageCall unit.

(** A call, of whatever type. *)
Definition SentCall : Type := sigT MessageCall.
Definition sent {T : Set} (c : MessageCall T) : SentCall := existT T c.

Definition MessageModule : Type := forall T, MessageCall T -> MintReply T.

(** ** Turns *)

(** The mutex given back with the state as it was, or with the state the
    worker left; or never given back, when the call never returns. *)
Inductive CellFate := Untouched | LeftAs (s : MessageOperationState) | Held.

Record Turn (R : Type) := MkTurn {
  tu_answer : option R;  (* [None]: a transport [Status] *)
  tu_cells : list (MessageOperation * MsgRef * CellFate);  (* the cells it locked *)
  tu_call : option SentCall;
}.
Arguments MkTurn {R} tu_answer tu_cells tu_call.
Arguments tu_answer {R} t.
Arguments tu_cells {R} t.
Arguments tu_call {R} t.

(** What a request does with its cell: a call, the settlement of its result
    by the worker, the answer to the worker's result. *)
Inductive Work (R : Type) :=
| MkWork {T A : Set} (call : MessageCall T)
    (settle : CkResult T -> MessageOperationTransition -> CkResult A * MessageOperationTransition)
    (answer : CkResult A -> option R).
Arguments MkWork {R T A} call settle answer.

(** A transition through the worker: what the handler sees, and the cell. *)
Definition run_worker {T A : Set} (state : MessageOperationState)
    (settle : CkResult T -> MessageOperationTransition -> CkResult A * MessageOperationTransition) (reply : MintReply T)
  : option (CkResult A) * CellFate :=
  let transition := MessageOperationTransition_begin state in
  let started := MessageOperationTransition_mark_started transition in
  match reply with
  | MintDone r => let '(result, t) := settle r started in (Some result, LeftAs (MessageOperationTransition_drop t))
  | MintTimedOut (Some late) =>
      (Some (Err Rv.FUNCTION_FAILED), LeftAs (MessageOperationTransition_drop (settle late started).2))
  | MintTimedOut None => (Some (Err Rv.FUNCTION_FAILED), Held)
  | MintRefused => (Some (Err Rv.HOST_MEMORY), LeftAs (MessageOperationTransition_drop transition))
  | MintPanicked => (None, LeftAs (MessageOperationTransition_drop started))
  end.

(** The settlement by a plain result. *)
Definition settle_plain {T : Set} (successful : option MessageParameterShape) (result : CkResult T) (t : MessageOperationTransition)
  : CkResult T * MessageOperationTransition :=
  (result, MessageOperationTransition_settle result successful t).

(** The settlement by a result that must also keep its contract: one that
    does not is ambiguous. *)
Definition settle_checked {T A : Set} (successful : option MessageParameterShape) (kept : T -> option A)
    (result : CkResult T) (t : MessageOperationTransition) : CkResult A * MessageOperationTransition :=
  match result with
  | Ok value =>
      match kept value with
      | Some a => (Ok a, MessageOperationTransition_settle (Ok tt) successful t)
      | None => (Err Rv.DEVICE_ERROR, MessageOperationTransition_settle_ambiguous t)
      end
  | Err error => (Err error, MessageOperationTransition_settle (T := unit) (Err error) successful t)
  end.

(** As [settle_checked], for results that carry the module's return value:
    the shape is settled by that value. *)
Definition settle_embedded {T A : Set} (successful : option MessageParameterShape) (rv_of : T -> CkRv) (kept : T -> option A)
    (result : CkResult T) (t : MessageOperationTransition) : CkResult A * MessageOperationTransition :=
  match result with
  | Ok value =>
      match kept value with
      | Some a =>
          let outcome := if rv_eqb (rv_of value) Rv.OK then Ok tt else Err (rv_of value) in
          (Ok a, MessageOperationTransition_settle outcome successful t)
      | None => (Err Rv.DEVICE_ERROR, MessageOperationTransition_settle_ambiguous t)
      end
  | Err error => (Err error, MessageOperationTransition_settle (T := unit) (Err error) successful t)
  end.

(** ** Requests and responses *)

(** A mechanism on the wire: its type, whether it has parameters, and what the
    decoder makes of them. *)
Record WireMechanism := MkWireMechanism {
  wk_type : CkMechanismType; wk_has_params : bool; wk_params : CkResult (option CkMechanismParams) }.

Definition wk_decoded (m : WireMechanism) : CkResult CkMechanism :=
  let? params := wk_params m in Ok (MkCkMechanism (wk_type m) params).

Record MessageInitRequest := MkInitRequest {
  iq_context : ClientContextId; iq_session : N; iq_mechanism : option WireMechanism; iq_key : N;
  iq_parameter_shape : option Z; iq_parameter_out_spec : option CkParameterRoundtripSpec;
  iq_init_message_parameter : option WireMessageParameter }.
Record MessageInitResponse := MkInitResponse {
  is_rv : CkRv; is_parameter_result : option CkParameterRoundtripResult;
  is_init_message_parameter : option WireMessageParameter; is_parameter_shape : option Z }.
Definition init_error (rv : CkRv) : MessageInitResponse := MkInitResponse rv None None None.

(** [associated_data] and [flags] are those of the requests that have them. *)
Record MessageRequest := MkMessageRequest {
  mq_context : ClientContextId; mq_session : N; mq_parameter : SecretBytes;
  mq_aad : SecretBytes; mq_aad_null_len : option N; mq_data : SecretBytes; mq_data_null_len : option N; mq_flags : N }.
(** [ck_rv] and the output; [parameter_out] is always empty. *)
Record MessageOutputResponse := MkOutputResponse { ms_rv : CkRv; ms_output : SecretBytes }.

Record MessageBeginRequest := MkBeginRequest {
  bq_context : ClientContextId; bq_session : N; bq_parameter : SecretBytes; bq_aad : SecretBytes; bq_aad_null_len : option N;
  bq_parameter_out_spec : option CkParameterRoundtripSpec; bq_message_parameter : option WireMessageParameter; bq_version : N }.
Record MessageBeginWireResult := MkBeginResult {
  bs_rv : CkRv; bs_parameter_result : option CkParameterRoundtripResult; bs_message_effects : option WireMessageParameterEffects }.
Definition message_begin_error (rv : CkRv) : MessageBeginWireResult := MkBeginResult rv None None.

(** Sign and verify: the fields each request has. *)
Record SignVerifyRequest := MkSignVerifyRequest {
  vq_context : ClientContextId; vq_session : N; vq_parameter : SecretBytes; vq_parameter_out_spec : option CkParameterRoundtripSpec;
  vq_data : SecretBytes; vq_data_null_len : option N; vq_signature : SecretBytes; vq_signature_null_len : option N;
  vq_flag : bool }. (* [request_signature], [is_final] *)
Record SignVerifyResponse := MkSignVerifyResponse {
  vs_rv : CkRv; vs_signature : SecretBytes; vs_parameter_result : option CkParameterRoundtripResult }.
Definition sign_verify_error (rv : CkRv) : SignVerifyResponse := MkSignVerifyResponse rv [] None.

(** ** The handlers *)

Section handlers.
Context (ctx : HandlerContext) (struct_size : MessageParameterShape -> N).
Context (module : MessageModule).
(** What a cell holds when its mutex is granted, and the cell a first use allocates. *)
Context (granted : MsgRef -> MessageOperationState) (fresh_ref : MessageOperation -> MsgRef).

(** Between the mutex and its release. *)
Definition in_cell {R} (cid : ClientContextId) (virtual_session : N) (op : MessageOperation) (on_error : CkRv -> R)
    (body : MessageOperationState -> Handler (CkResult (Work R))) : Handler (Turn R) :=
  lock <- critical (fun now => message_operation_lock now cid (VH virtual_session) op (fresh_ref op));;
  match lock with
  | Err error => ret (MkTurn (Some (on_error error)) [] None)
  | Ok cell =>
      state <- module_call (granted cell);;
      prepared <- body state;;
      match prepared with
      | Err rv => ret (MkTurn (Some (on_error rv)) [(op, cell, Untouched)] None)
      | Ok (@MkWork _ T A call settle answer) =>
          reply <- module_call (module T call);;
          let '(observed, fate) := run_worker state settle reply in
          ret (MkTurn (match observed with Some result => answer result | None => None end)
                 [(op, cell, fate)]
                 (match reply with MintRefused => None | _ => Some (sent call) end))
      end
  end.

Definition resolved (cid : ClientContextId) (virtual_session : N) : Handler (CkResult CkSessionHandle) :=
  critical (fun now => resolve_session now cid virtual_session).

(** The shape the cell must hold. *)
Definition installed (state : MessageOperationState) : CkResult MessageParameterShape :=
  match shape state with Some s => Ok s | None => Err Rv.OPERATION_NOT_INITIALIZED end.

(** *** [C_MessageEncryptInit], [C_MessageDecryptInit] *)

Definition request_transport_version (req : MessageInitRequest) : N :=
  match iq_init_message_parameter req with Some p => wm_parameter_encoding_version p | None => 0 end.

(** The response; [None] where the echo cannot be encoded. *)
Definition init_answer (installed_shape : MessageParameterShape) (contract : option MessageInitContract)
    (init_param : option MessageParameter) (version : N) (result : CkResult unit) : option MessageInitResponse :=
  match result with
  | Err error => Some (init_error error)
  | Ok _ =>
      let shape_out := Some (shape_to_proto_i32 installed_shape) in
      match contract with
      | None => Some (MkInitResponse Rv.OK None None shape_out)
      | Some contract =>
          let ack := Some (parameter_ack (mic_caller_spec contract)) in
          match init_param with
          | None => Some (MkInitResponse Rv.OK ack None shape_out)
          | Some param =>
              match to_wire_with_transport_version version param with
              | Ok echo => Some (MkInitResponse Rv.OK ack (Some echo) shape_out)
              | Err _ => None
              end
          end
      end
  end.

(** A plain init that installs nothing usable is refused before the call; the
    transition, begun by then, restores the shape when it is dropped. *)
Definition prepare_message_init (op : MessageOperation) (source : option MechanismRegistry) (req : MessageInitRequest)
    (wire_mechanism : WireMechanism) : Handler (CkResult (Work MessageInitResponse)) :=
  let cid := iq_context req in
  init_param <-? ret (decode_structured_message_parameter (iq_init_message_parameter req));;
  registry <-? ret (current_registry_snapshot source);;
  contract <-? ret (validate_message_init_contract struct_size (hc_sanitize_inputs ctx) registry (wk_type wire_mechanism)
                      (wk_has_params wire_mechanism) (iq_parameter_shape req) (iq_parameter_out_spec req) init_param);;
  handles <-? resolve_session_and_key (hc_native ctx) (hc_token_policy ctx) cid (iq_session req) (iq_key req);;
  let session := handles.1 in
  mechanism <-? ret (wk_decoded wire_mechanism);;
  validated <-? admit_init_mechanism ctx cid (iq_session req) session registry mechanism General;;
  let installed_shape :=
    match contract with
    | Some contract => mic_shape contract
    | None => MessageParameterShape_from_registry_name (param_shape registry (mechanism_type mechanism))
    end in
  let answer := init_answer installed_shape contract init_param (request_transport_version req) in
  match contract with
  | Some contract =>
      let spec := mic_provider_spec contract in
      ret (Ok (MkWork (CallInitContract op session validated init_param handles.2 spec)
                 (settle_checked (Some installed_shape) (fun r => if parameter_result_matches_spec r spec then Some tt else None))
                 answer))
  | None =>
      if bool_decide (installed_shape = Unmodeled) && negb (message_opaque_admits_mechanism registry (mechanism_type mechanism) false)
      then ret (Err Rv.MECHANISM_PARAM_INVALID)
      else ret (Ok (MkWork (CallInit op session (Some validated) init_param handles.2) (settle_plain (Some installed_shape)) answer))
  end.

(** The call that cancels: no mechanism. *)
Definition prepare_message_cancel {R} (op : MessageOperation) (cid : ClientContextId) (virtual_session : N) (answer : CkRv -> R)
  : Handler (CkResult (Work R)) :=
  session <-? resolved cid virtual_session;;
  ret (Ok (MkWork (CallInit op session None None (MkObject 0)) (settle_plain None) (fun r => Some (answer (ck_rv_only r))))).

Definition message_crypt_init (op : MessageOperation) (source : option MechanismRegistry) (req : MessageInitRequest)
  : Handler (Turn MessageInitResponse) :=
  let cid := iq_context req in
  match iq_mechanism req with
  | Some wire_mechanism =>
      in_cell cid (iq_session req) op init_error (fun _ => prepare_message_init op source req wire_mechanism)
  | None =>
      if is_some (iq_parameter_shape req) || is_some (iq_parameter_out_spec req) || is_some (iq_init_message_parameter req)
      then ret (MkTurn (Some (init_error Rv.MECHANISM_PARAM_INVALID)) [] None)
      else in_cell cid (iq_session req) op init_error (fun _ => prepare_message_cancel op cid (iq_session req) init_error)
  end.

(** *** [C_MessageEncryptFinal], [C_MessageDecryptFinal] *)

Definition message_crypt_final (op : MessageOperation) (cid : ClientContextId) (virtual_session : N) : Handler (Turn CkRv) :=
  in_cell cid virtual_session op (fun rv => rv) (fun state =>
    _ <-? ret (installed state);;
    session <-? resolved cid virtual_session;;
    ret (Ok (MkWork (CallFinal op session) (settle_plain None) (fun r => Some (ck_rv_only r))))).

(** *** [C_MessageSignInit], [C_MessageVerifyInit] and the final calls *)

Definition prepare_sign_verify_init (op : MessageOperation) (source : option MechanismRegistry) (cid : ClientContextId)
    (virtual_session key_handle : N) (wire_mechanism : WireMechanism) : Handler (CkResult (Work CkRv)) :=
  handles <-? resolve_session_and_key (hc_native ctx) (hc_token_policy ctx) cid virtual_session key_handle;;
  let session := handles.1 in
  mechanism <-? ret (wk_decoded wire_mechanism);;
  registry <-? ret (current_registry_snapshot source);;
  validated <-? admit_init_mechanism ctx cid virtual_session session registry mechanism General;;
  ret (Ok (MkWork (CallInit op session (Some validated) None handles.2) (settle_plain (Some Unmodeled)) (fun r => Some (ck_rv_only r)))).

Definition message_sign_verify_init (op : MessageOperation) (source : option MechanismRegistry) (cid : ClientContextId)
    (virtual_session key_handle : N) (mechanism : option WireMechanism) : Handler (Turn CkRv) :=
  in_cell cid virtual_session op (fun rv => rv) (fun _ =>
    match mechanism with
    | Some wire_mechanism => prepare_sign_verify_init op source cid virtual_session key_handle wire_mechanism
    | None => prepare_message_cancel op cid virtual_session (fun rv => rv)
    end).

Definition message_sign_verify_final (op : MessageOperation) (cid : ClientContextId) (virtual_session : N) : Handler (Turn CkRv) :=
  in_cell cid virtual_session op (fun rv => rv) (fun state =>
    session <-? resolved cid virtual_session;;
    _ <-? ret (installed state);;
    ret (Ok (MkWork (CallFinal op session) (settle_plain None) (fun r => Some (ck_rv_only r))))).

(** *** One-shot and next calls without a parameter *)

(** [execute_empty_legacy_message_output]: the module must not write a parameter. *)
Definition empty_parameter_output (installed_shape : MessageParameterShape) :=
  settle_checked (T := SecretBytes * SecretBytes) (A := SecretBytes) (Some installed_shape)
    (fun out => if bool_decide (out.1 = []) then Some out.2 else None).

Definition output_error (rv : CkRv) : MessageOutputResponse := MkOutputResponse rv [].
Definition output_answer (r : CkResult SecretBytes) : option MessageOutputResponse :=
  Some match r with Ok output => MkOutputResponse Rv.OK output | Err e => output_error e end.

(** The checks the one-shot and next handlers of encrypt, decrypt and sign share. *)
Definition legacy_checks (req : MessageRequest) (state : MessageOperationState) : Handler (CkResult (MessageParameterShape * CkSessionHandle)) :=
  _ <-? ret (if negb (bool_decide (mq_parameter req = [])) then Err Rv.MECHANISM_PARAM_INVALID else Ok tt);;
  installed_shape <-? ret (installed state);;
  session <-? resolved (mq_context req) (mq_session req);;
  ret (Ok (installed_shape, session)).

Definition crypt_message (op : MessageOperation) (req : MessageRequest) : Handler (Turn MessageOutputResponse) :=
  in_cell (mq_context req) (mq_session req) op output_error (fun state =>
    checked <-? legacy_checks req state;;
    _ <-? ret (check_sanitize (hc_sanitize_inputs ctx) (mq_aad_null_len req));;
    _ <-? ret (check_sanitize (hc_sanitize_inputs ctx) (mq_data_null_len req));;
    ret (Ok (MkWork (CallMessage op checked.2 (input_from_wire (mq_aad req) (mq_aad_null_len req))
                       (input_from_wire (mq_data req) (mq_data_null_len req)))
               (empty_parameter_output checked.1) output_answer))).

Definition crypt_message_next (op : MessageOperation) (req : MessageRequest) : Handler (Turn MessageOutputResponse) :=
  in_cell (mq_context req) (mq_session req) op output_error (fun state =>
    checked <-? legacy_checks req state;;
    _ <-? ret (check_sanitize (hc_sanitize_inputs ctx) (mq_data_null_len req));;
    ret (Ok (MkWork (CallMessageNext op checked.2 (input_from_wire (mq_data req) (mq_data_null_len req)) (mq_flags req))
               (empty_parameter_output checked.1) output_answer))).

Definition sign_message (req : MessageRequest) : Handler (Turn MessageOutputResponse) :=
  in_cell (mq_context req) (mq_session req) Sign output_error (fun state =>
    checked <-? legacy_checks req state;;
    _ <-? ret (check_sanitize (hc_sanitize_inputs ctx) (mq_data_null_len req));;
    ret (Ok (MkWork (CallSignMessage checked.2 (input_from_wire (mq_data req) (mq_data_null_len req)))
               (empty_parameter_output checked.1) output_answer))).

(** *** [C_EncryptMessageBegin], [C_DecryptMessageBegin] *)

(** What the worker keeps of a begin: the module's return value and effects,
    when the acknowledgement and the effects are as they must be. *)
Definition begin_effect_context (op : MessageOperation) (rv : CkRv) : MessageEffectContext :=
  MkEffectContext ModeBegin (bool_decide (op = Encrypt)) true false rv.

Definition begin_kept (op : MessageOperation) (contract : MessageBeginContract)
    (result : CkParameterRoundtripResult * option MessageEffects) : option (CkRv * option MessageEffects) :=
  let '(provider_ack, returned_parameter) := result in
  let native_rv := rr_ck_rv provider_ack in
  let valid_parameter :=
    match mbc_parameter contract, returned_parameter with
    | Some request, Some returned => Result_is_ok (effects_validate_for returned request (begin_effect_context op native_rv))
    | None, None => true
    | _, _ => false
    end in
  if negb (rr_returned_len provider_ack =? rs_buffer_len (mbc_provider_spec contract))
     || negb (bool_decide (rr_value provider_ack = empty_if (rs_buffer_present (mbc_provider_spec contract))))
     || negb valid_parameter
  then None else Some (native_rv, returned_parameter).

Definition begin_answer (acknowledge : bool) (caller_spec : CkParameterRoundtripSpec) (r : CkResult (CkRv * option MessageEffects))
  : option MessageBeginWireResult :=
  Some match r with
       | Err error => message_begin_error error
       | Ok (native_rv, returned) =>
           match match returned with
                 | None => Ok None
                 | Some effects => let? w := effects_to_wire effects in Ok (Some w)
                 end with
           | Err error => message_begin_error error
           | Ok message_effects =>
               MkBeginResult native_rv
                 (if acknowledge then
                    Some (MkRoundtripResult native_rv (rs_buffer_len caller_spec) (empty_if (rs_buffer_present caller_spec)))
                  else None)
                 message_effects
           end
       end.

(** The contract of a begin that gives none: an empty parameter that is present. *)
Definition default_begin_contract : MessageBeginContract :=
  let spec := MkRoundtripSpec true 0 None in MkBeginContract spec spec None.

Definition begin_work (op : MessageOperation) (session : CkSessionHandle) (aad : CkInBuf) (installed_shape : MessageParameterShape)
    (acknowledge : bool) (contract : MessageBeginContract) : Work MessageBeginWireResult :=
  let settle {T : Set} (f : T -> CkParameterRoundtripResult * option MessageEffects) :=
    settle_embedded (Some installed_shape) (fun r => rr_ck_rv (f r).1) (fun r => begin_kept op contract (f r)) in
  let answer := begin_answer acknowledge (mbc_caller_spec contract) in
  match mbc_parameter contract with
  | Some parameter =>
      MkWork (CallBeginMsg op session parameter aad (mbc_provider_spec contract)) (settle (fun r => (r.1, Some r.2))) answer
  | None => MkWork (CallBeginExact op session aad (mbc_provider_spec contract)) (settle (fun r => (r, None))) answer
  end.

Definition execute_message_begin (op : MessageOperation) (req : MessageBeginRequest) : Handler (Turn MessageBeginWireResult) :=
  in_cell (bq_context req) (bq_session req) op message_begin_error (fun state =>
    session <-? resolved (bq_context req) (bq_session req);;
    _ <-? ret (check_sanitize (hc_sanitize_inputs ctx) (bq_aad_null_len req));;
    installed_shape <-? ret (installed state);;
    contract <-? ret (validate_message_begin_contract struct_size (hc_sanitize_inputs ctx) installed_shape (bq_parameter req)
                        (bq_parameter_out_spec req) (bq_message_parameter req));;
    ret (Ok (begin_work op session (input_from_wire (bq_aad req) (bq_aad_null_len req)) installed_shape
               (is_some contract) (default default_begin_contract contract)))).

(** A version outside the supported range is a transport error. *)
Definition crypt_message_begin (op : MessageOperation) (req : MessageBeginRequest) : Handler (Turn MessageBeginWireResult) :=
  if is_some (bq_parameter_out_spec req) && negb (exact_output_effects_version_supported (bq_version req))
  then ret (MkTurn None [] None)
  else execute_message_begin op req.

(** *** Sign and verify *)

(** The checks these handlers share: the session, the shape, the contract. *)
Definition empty_checks (req : SignVerifyRequest) (state : MessageOperationState)
  : Handler (CkResult (CkSessionHandle * option CkParameterRoundtripSpec)) :=
  session <-? resolved (vq_context req) (vq_session req);;
  _ <-? ret (installed state);;
  contract <-? ret (validate_empty_message_parameter_contract (vq_parameter req) (vq_parameter_out_spec req));;
  ret (Ok (session, contract)).

(** The worker of a call that acknowledges the parameter. *)
Definition ack_work (call : MessageCall CkParameterRoundtripResult) (spec : CkParameterRoundtripSpec) : Work SignVerifyResponse :=
  MkWork call
    (settle_checked (Some Unmodeled) (fun ack => if parameter_result_matches_spec ack spec then Some tt else None))
    (fun r => Some match r with
                   | Ok _ => MkSignVerifyResponse Rv.OK [] (Some (parameter_ack spec))
                   | Err error => sign_verify_error error
                   end).

Definition plain_work (call : MessageCall unit) : Work SignVerifyResponse :=
  MkWork call (settle_plain (Some Unmodeled)) (fun r => Some (MkSignVerifyResponse (ck_rv_only r) [] None)).

Definition sign_message_begin (req : SignVerifyRequest) : Handler (Turn SignVerifyResponse) :=
  in_cell (vq_context req) (vq_session req) Sign sign_verify_error (fun state =>
    checked <-? empty_checks req state;;
    ret (Ok match checked.2 with
            | Some spec => ack_work (CallSignBeginExact checked.1 spec) spec
            | None =>
                MkWork (CallSignBegin checked.1)
                  (settle_checked (Some Unmodeled) (fun out => if bool_decide (out = []) then Some tt else None))
                  (fun r => Some (MkSignVerifyResponse (ck_rv_only r) [] None))
            end)).

Definition sign_message_next (req : SignVerifyRequest) : Handler (Turn SignVerifyResponse) :=
  in_cell (vq_context req) (vq_session req) Sign sign_verify_error (fun state =>
    checked <-? empty_checks req state;;
    _ <-? ret (if is_some checked.2 && vq_flag req then Err Rv.MECHANISM_PARAM_INVALID else Ok tt);;
    _ <-? ret (check_sanitize (hc_sanitize_inputs ctx) (vq_data_null_len req));;
    let data := input_from_wire (vq_data req) (vq_data_null_len req) in
    ret (Ok match checked.2 with
            | Some spec => ack_work (CallSignNextFeedExact checked.1 data spec) spec
            | None =>
                MkWork (CallSignNext checked.1 data (vq_flag req))
                  (settle_checked (Some Unmodeled)
                     (fun out => if bool_decide (out.1 = []) && (vq_flag req || bool_decide (out.2 = [])) then Some out.2 else None))
                  (fun r => Some match r with
                                 | Ok signature => MkSignVerifyResponse Rv.OK signature None
                                 | Err error => sign_verify_error error
                                 end)
            end)).

Definition verify_message (req : SignVerifyRequest) : Handler (Turn SignVerifyResponse) :=
  in_cell (vq_context req) (vq_session req) Verify sign_verify_error (fun state =>
    checked <-? empty_checks req state;;
    _ <-? ret (check_sanitize (hc_sanitize_inputs ctx) (vq_data_null_len req));;
    _ <-? ret (check_sanitize (hc_sanitize_inputs ctx) (vq_signature_null_len req));;
    let data := input_from_wire (vq_data req) (vq_data_null_len req) in
    let signature := input_from_wire (vq_signature req) (vq_signature_null_len req) in
    ret (Ok match checked.2 with
            | Some spec => ack_work (CallVerifyExact checked.1 data signature spec) spec
            | None => plain_work (CallVerify checked.1 data signature)
            end)).

Definition verify_message_begin (req : SignVerifyRequest) : Handler (Turn SignVerifyResponse) :=
  in_cell (vq_context req) (vq_session req) Verify sign_verify_error (fun state =>
    checked <-? empty_checks req state;;
    ret (Ok match checked.2 with
            | Some spec => ack_work (CallVerifyBeginExact checked.1 spec) spec
            | None => plain_work (CallVerifyBegin checked.1)
            end)).

Definition verify_message_next (req : SignVerifyRequest) : Handler (Turn SignVerifyResponse) :=
  in_cell (vq_context req) (vq_session req) Verify sign_verify_error (fun state =>
    checked <-? empty_checks req state;;
    _ <-? ret (check_sanitize (hc_sanitize_inputs ctx) (vq_data_null_len req));;
    _ <-? ret (check_sanitize (hc_sanitize_inputs ctx) (vq_signature_null_len req));;
    let data := input_from_wire (vq_data req) (vq_data_null_len req) in
    let signature := input_from_wire (vq_signature req) (vq_signature_null_len req) in
    ret (Ok match checked.2 with
            | Some spec => ack_work (CallVerifyNextExact checked.1 data (vq_flag req) signature spec) spec
            | None => plain_work (CallVerifyNext checked.1 data (vq_flag req) signature)
            end)).

(** *** Calls on several cells: [C_SessionCancel], [C_SetOperationState] *)

(** [begin_message_operation_transitions]: the cells in the order of the list;
    an error drops the transitions begun so far. *)
Fixpoint begin_message_operation_transitions (cid : ClientContextId) (virtual_session : N) (ops : list MessageOperation)
    (held : list (MessageOperation * MsgRef * MessageOperationState))
  : Handler (CkResult unit * list (MessageOperation * MsgRef * MessageOperationState)) :=
  match ops with
  | [] => ret (Ok tt, held)
  | op :: ops =>
      lock <- critical (fun now => message_operation_lock now cid (VH virtual_session) op (fresh_ref op));;
      match lock with
      | Err error => ret (Err error, held)
      | Ok cell =>
          state <- module_call (granted cell);;
          begin_message_operation_transitions cid virtual_session ops (held ++ [(op, cell, state)])
      end
  end.

(** All cells, then a call that clears them when it succeeds. *)
Definition in_cells (cid : ClientContextId) (virtual_session : N) (ops : list MessageOperation) (call : MessageCall unit)
  : Handler (Turn CkRv) :=
  begun <- begin_message_operation_transitions cid virtual_session ops [];;
  let '(result, held) := begun in
  match result with
  | Err error =>
      let restored := (fun '(op, cell, state) =>
        (op, cell, LeftAs (MessageOperationTransition_drop (MessageOperationTransition_begin state)))) <$> held in
      ret (MkTurn (Some error) restored None)
  | Ok _ =>
      reply <- module_call (module unit call);;
      let settle := settle_plain (T := unit) None in
      let fates := (fun '(op, cell, state) => (op, cell, (run_worker state settle reply).2)) <$> held in
      ret (MkTurn (match reply with
                   | MintPanicked => None
                   | MintDone r => Some (ck_rv_only r)
                   | MintTimedOut _ => Some Rv.FUNCTION_FAILED
                   | MintRefused => Some Rv.HOST_MEMORY
                   end) fates
             (match reply with MintRefused => None | _ => Some (sent call) end))
  end.

Definition cancelled_message_operations (flags : N) : list MessageOperation :=
  omap (fun '(flag, operation) => if negb (N.land flags flag =? 0) then Some operation else None)
    [(2, Encrypt); (4, Decrypt); (8, Sign); (16, Verify)].

Definition session_cancel (cid : ClientContextId) (virtual_session flags : N) : Handler (Turn CkRv) :=
  r <- resolved cid virtual_session;;
  match r with
  | Err error => ret (MkTurn (Some error) [] None)
  | Ok session => in_cells cid virtual_session (cancelled_message_operations flags) (CallSessionCancel session flags)
  end.

(** A key of a saved state: none for 0, an error for a handle without mapping. *)
Definition state_key (key : option BackendHandle) (wire_handle : N) : CkResult CkObjectHandle :=
  match key with
  | Some handle => Ok (MkObject (bh_raw handle))
  | None => if wire_handle =? 0 then Ok (MkObject 0) else Err Rv.KEY_HANDLE_INVALID
  end.

Definition resolve_state_handles (cid : ClientContextId) (session_handle encryption_key_handle authentication_key_handle : N)
  : Handler (CkResult (CkSessionHandle * CkObjectHandle * CkObjectHandle)) :=
  _ <-? resolved cid session_handle;;
  r <- critical (fun now => get_context now cid (fun c =>
         ((HandleMap_resolve (VH session_handle) (session_handles c),
           HandleMap_resolve (VH encryption_key_handle) (object_handles c),
           HandleMap_resolve (VH authentication_key_handle) (object_handles c)), c)));;
  ret match r with
      | None => Err Rv.CRYPTOKI_NOT_INITIALIZED
      | Some (None, _, _) => Err Rv.SESSION_HANDLE_INVALID
      | Some (Some session, encryption_key, authentication_key) =>
          let? encryption_key := state_key encryption_key encryption_key_handle in
          let? authentication_key := state_key authentication_key authentication_key_handle in
          Ok (MkSession (bh_raw session), encryption_key, authentication_key)
      end.

Record SetStateRequest := MkSetStateRequest {
  sq_context : ClientContextId; sq_session : N; sq_encryption_key : N; sq_authentication_key : N;
  sq_operation_state : SecretBytes; sq_operation_state_null_len : option N }.

Definition state_key_use (req : SetStateRequest) (virtual_key : N) (session : CkSessionHandle) (key : CkObjectHandle)
  : Handler (CkResult unit) :=
  if negb (object_raw key =? 0) then
    ensure_private_use_allowed (sq_context req) (sq_session req) virtual_key session key
  else ret (Ok tt).

Definition state_key_gate (req : SetStateRequest) (virtual_key : N) (session : CkSessionHandle) (key : CkObjectHandle)
  : Handler CkObjectHandle :=
  if per_object_active (hc_token_policy ctx) && negb (object_raw key =? 0) then
    gate_object_handle (hc_native ctx) (hc_token_policy ctx) (sq_context req) (sq_session req) virtual_key (BH (session_raw session)) key
  else ret key.

(** From the request to the handles that reach the module. *)
Definition prepare_set_state (req : SetStateRequest) : Handler (CkResult (CkSessionHandle * CkObjectHandle * CkObjectHandle)) :=
  handles <-? resolve_state_handles (sq_context req) (sq_session req) (sq_encryption_key req) (sq_authentication_key req);;
  let '(session, encryption_key, authentication_key) := handles in
  _ <-? state_key_use req (sq_encryption_key req) session encryption_key;;
  _ <-? state_key_use req (sq_authentication_key req) session authentication_key;;
  encryption_key <- state_key_gate req (sq_encryption_key req) session encryption_key;;
  authentication_key <- state_key_gate req (sq_authentication_key req) session authentication_key;;
  _ <-? ret (check_sanitize (hc_sanitize_inputs ctx) (sq_operation_state_null_len req));;
  ret (Ok (session, encryption_key, authentication_key)).

Definition set_operation_state (req : SetStateRequest) : Handler (Turn CkRv) :=
  prepared <- prepare_set_state req;;
  match prepared with
  | Err error => ret (MkTurn (Some error) [] None)
  | Ok (session, encryption_key, authentication_key) =>
      in_cells (sq_context req) (sq_session req) [Encrypt; Decrypt; Sign; Verify]
        (CallSetOperationState session (input_from_wire (sq_operation_state req) (sq_operation_state_null_len req))
           encryption_key authentication_key)
  end.
(** *** The handlers of each operation *)

(** The sources write these out twice, once for each operation. *)
Definition message_encrypt_init := message_crypt_init Encrypt.
Definition message_decrypt_init := message_crypt_init Decrypt.
Definition message_encrypt_final := message_crypt_final Encrypt.
Definition message_decrypt_final := message_crypt_final Decrypt.
Definition message_sign_init := message_sign_verify_init Sign.
Definition message_verify_init := message_sign_verify_init Verify.
Definition message_sign_final := message_sign_verify_final Sign.
Definition message_verify_final := message_sign_verify_final Verify.
Definition encrypt_message := crypt_message Encrypt.
Definition decrypt_message := crypt_message Decrypt.
Definition encrypt_message_begin := crypt_message_begin Encrypt.
Definition decrypt_message_begin := crypt_message_begin Decrypt.
Definition encrypt_message_next := crypt_message_next Encrypt.
Definition decrypt_message_next := crypt_message_next Decrypt.
End handlers.
