(* ===== verification/MessageExact.v ===== *)
(** * Message functions with exact outputs

    Models the message functions of
    [crates/server/src/server/grpc_service/parameter_output_exact.rs], the wire
    forms of [crates/proto/src/convert/output.rs] they use, and the decoders of
    the client ([crates/client/src/client/raw_output.rs],
    [client/crypto/message_crypto.rs]) that read the answers.  The arm of
    [C_WrapKeyAuthenticated] is an argument. *)

From S2P Require Import Prelude Ck Width HandleMap SlotMap Connection Context Manager Session Mech Grant Policy Handler Authorize.
From S2P Require Import Shapes ShapeProps Registry Params Validate Embedded KeyGen Lifecycle Attributes InitGate MessageParams Message.
Open Scope N_scope.

Inductive ParameterOutputFunction :=
| FnEncryptMessage | FnDecryptMessage | FnSignMessage | FnEncryptMessageNext | FnDecryptMessageNext | FnSignMessageNext
| FnWrapKeyAuthenticated.
#[export] Instance ParameterOutputFunction_eq_dec : EqDecision ParameterOutputFunction.
Proof. solve_decision. Defined.

Definition parameter_output_function_from_i32 (value : Z) : option ParameterOutputFunction :=
  match value with
  | 1%Z => Some FnEncryptMessage
  | 2%Z => Some FnDecryptMessage
  | 3%Z => Some FnSignMessage
  | 4%Z => Some FnEncryptMessageNext
  | 5%Z => Some FnDecryptMessageNext
  | 6%Z => Some FnSignMessageNext
  | 7%Z => Some FnWrapKeyAuthenticated
  | _ => None
  end.

(** ** The wire *)

Record WireOutputBufferResult := MkWireOutput {
  wo_ck_rv : N; wo_returned_len : N; wo_value : option (list N); wo_apply_returned_len : option bool }.

Definition output_to_wire (result : CkOutputBufferResult) : WireOutputBufferResult :=
  MkWireOutput (rv_raw (or_ck_rv result)) (default 0 (or_returned_len result)) (or_value result)
    (Some (is_some (or_returned_len result))).

Definition output_buffer_result_from_owned (result : WireOutputBufferResult) : CkResult CkOutputBufferResult :=
  match wo_apply_returned_len result with
  | None => Err Rv.FUNCTION_NOT_SUPPORTED
  | Some apply =>
      if negb apply && (negb (wo_returned_len result =? 0) || is_some (wo_value result)) then Err Rv.FUNCTION_NOT_SUPPORTED
      else Ok (MkOutputBufferResult (MkCkRv (wo_ck_rv result)) (if apply then Some (wo_returned_len result) else None) (wo_value result))
  end.

Record ParameterOutputExactResponse := MkExactResponse {
  xs_message_effects : option WireMessageParameterEffects;
  xs_output_result : option WireOutputBufferResult;
  xs_parameter_result : option CkParameterRoundtripResult;
  xs_message_parameter_out : option WireMessageParameter;
}.

Definition error_response (error : CkRv) : ParameterOutputExactResponse :=
  MkExactResponse None (Some (MkWireOutput (rv_raw error) 0 None (Some false))) (Some (MkRoundtripResult error 0 None)) None.

Definition result_to_proto_msg (result : CkResult (CkOutputBufferResult * CkParameterRoundtripResult * MessageEffects))
  : ParameterOutputExactResponse :=
  match result with
  | Ok (output, parameter, msg_param) =>
      match effects_to_wire msg_param with
      | Ok effects => MkExactResponse (Some effects) (Some (output_to_wire output)) (Some parameter) None
      | Err rv => error_response rv
      end
  | Err error => error_response error
  end.

Definition result_to_proto (result : CkResult (CkOutputBufferResult * CkParameterRoundtripResult)) : ParameterOutputExactResponse :=
  match result with
  | Ok (output, param) => MkExactResponse None (Some (output_to_wire output)) (Some param) None
  | Err error => error_response error
  end.

(** ** The handler *)

Record ParameterOutputExactRequest := MkExactRequest {
  xq_version : N; xq_context : ClientContextId; xq_session : N; xq_function : Z;
  xq_output_spec : option CkOutputBufferSpec; xq_parameter_out_spec : option CkParameterRoundtripSpec;
  xq_input_data : SecretBytes; xq_input_data_null_len : option N;
  xq_associated_data : SecretBytes; xq_associated_data_null_len : option N;
  xq_parameter : SecretBytes; xq_flags : N; xq_message_parameter : option WireMessageParameter;
}.

Definition MAX_EXACT_OUTPUT_BYTES : N := 512 * 1024 * 1024.
Definition CKF_END_OF_MESSAGE : N := 1.

Definition xq_output (req : ParameterOutputExactRequest) : CkOutputBufferSpec :=
  default (MkOutputBufferSpec false 0 false) (xq_output_spec req).
Definition xq_param_out (req : ParameterOutputExactRequest) : CkParameterRoundtripSpec :=
  default (MkRoundtripSpec false 0 None) (xq_parameter_out_spec req).
Definition xq_input (req : ParameterOutputExactRequest) : CkInBuf :=
  input_from_wire (xq_input_data req) (xq_input_data_null_len req).
Definition xq_aad (req : ParameterOutputExactRequest) : CkInBuf :=
  input_from_wire (xq_associated_data req) (xq_associated_data_null_len req).

Definition is_encrypt (f : ParameterOutputFunction) : bool := match f with FnEncryptMessage | FnEncryptMessageNext => true | _ => false end.
Definition is_one_shot (f : ParameterOutputFunction) : bool := match f with FnEncryptMessage | FnDecryptMessage => true | _ => false end.

(** The context in which the effects of a function are judged, on both sides of the wire. *)
Definition exact_effect_context (f : ParameterOutputFunction) (output_spec : CkOutputBufferSpec) (flags : N) (rv : CkRv)
  : MessageEffectContext :=
  MkEffectContext (mode_from_output_spec output_spec) (is_encrypt f) (is_one_shot f)
    (is_one_shot f || negb (N.land flags CKF_END_OF_MESSAGE =? 0)) rv.

(** The message functions of encrypt and decrypt; [next] tells the stages apart. *)
Definition crypt_function (op : MessageOperation) (next : bool) : ParameterOutputFunction :=
  match op, next with
  | Encrypt, false => FnEncryptMessage
  | Encrypt, true => FnEncryptMessageNext
  | _, false => FnDecryptMessage
  | _, true => FnDecryptMessageNext
  end.

Section exact.
Context (ctx : HandlerContext) (struct_size : MessageParameterShape -> N).
Context (module : MessageModule).
Context (granted : MsgRef -> MessageOperationState) (fresh_ref : MessageOperation -> MsgRef).

(** With the sanitizer, what can be refused without the cell comes first. *)
Definition exact_shape_gates (req : ParameterOutputExactRequest) : CkResult unit :=
  let sanitize_inputs := hc_sanitize_inputs ctx in
  let? _ := check_sanitize sanitize_inputs (xq_associated_data_null_len req) in
  let? _ := check_sanitize sanitize_inputs (xq_input_data_null_len req) in
  if sanitize_inputs && negb (rs_buffer_present (xq_param_out req)) && (0 <? rs_buffer_len (xq_param_out req)) then Err Rv.ARGUMENTS_BAD
  else if sanitize_inputs
          && is_Some_and (fun wire =>
               match (let? _ := validate_structured_wire_parameter wire in MessageParameter_try_from wire) with
               | Ok parameter => exact_parameter_has_null_positive parameter
               | Err _ => false
               end) (xq_message_parameter req)
  then Err Rv.ARGUMENTS_BAD
  else Ok tt.

Definition exact_provider_spec (req : ParameterOutputExactRequest) (shape : MessageParameterShape) (msg_param : option MessageParameter)
  : CkResult CkParameterRoundtripSpec :=
  let param_out_spec := xq_param_out req in
  match msg_param with
  | None =>
      if rs_buffer_present param_out_spec && (0 <? rs_buffer_len param_out_spec) then Err Rv.MECHANISM_PARAM_INVALID
      else if hc_sanitize_inputs ctx && negb (rs_buffer_present param_out_spec) && (0 <? rs_buffer_len param_out_spec) then Err Rv.ARGUMENTS_BAD
      else Ok param_out_spec
  | Some parameter =>
      if negb (Result_is_ok (validate_structured_shape shape parameter)) || negb (rs_buffer_present param_out_spec)
         || (rs_buffer_len param_out_spec =? 0)
      then Err Rv.MECHANISM_PARAM_INVALID
      else if hc_sanitize_inputs ctx && exact_parameter_has_null_positive parameter then Err Rv.ARGUMENTS_BAD
      else Ok (MkRoundtripSpec true (native_message_parameter_len struct_size parameter) None)
  end.

(** The worker of a call with a structured parameter keeps what the module
    says when it acknowledges the parameter and its effects are acceptable. *)
Definition exact_kept_msg (f : ParameterOutputFunction) (req : ParameterOutputExactRequest) (provider_spec : CkParameterRoundtripSpec)
    (request_parameter : MessageParameter) (r : CkOutputBufferResult * CkParameterRoundtripResult * MessageEffects)
  : option (CkOutputBufferResult * CkParameterRoundtripResult * MessageEffects) :=
  let '(output, parameter_result, returned_parameter) := r in
  if parameter_ack_matches parameter_result provider_spec (or_ck_rv output)
     && Result_is_ok (effects_validate_for returned_parameter request_parameter
                        (exact_effect_context f (xq_output req) (xq_flags req) (or_ck_rv output)))
  then Some (output, translate_parameter_ack output (xq_param_out req), returned_parameter)
  else None.

Definition exact_kept (provider_spec : CkParameterRoundtripSpec) (r : CkOutputBufferResult * CkParameterRoundtripResult)
  : option (CkOutputBufferResult * CkParameterRoundtripResult) :=
  let '(output, parameter_result) := r in
  if parameter_ack_matches parameter_result provider_spec (or_ck_rv output) then Some r else None.

Definition exact_work (op : MessageOperation) (next : bool) (req : ParameterOutputExactRequest) (session : CkSessionHandle)
    (installed_shape : MessageParameterShape) (provider_spec : CkParameterRoundtripSpec) (msg_param : option MessageParameter)
  : Work ParameterOutputExactResponse :=
  match msg_param with
  | Some mp =>
      MkWork
        (if next then CallNextExactMsg op session mp (xq_input req) (xq_flags req) (xq_output req) provider_spec
         else CallMessageExactMsg op session mp (xq_aad req) (xq_input req) (xq_output req) provider_spec)
        (settle_embedded (Some installed_shape) (fun r => or_ck_rv r.1.1) (exact_kept_msg (crypt_function op next) req provider_spec mp))
        (fun r => Some (result_to_proto_msg r))
  | None =>
      MkWork
        (if next then CallNextExact op session (xq_parameter req) (xq_input req) (xq_flags req) (xq_output req) provider_spec
         else CallMessageExact op session (xq_parameter req) (xq_aad req) (xq_input req) (xq_output req) provider_spec)
        (settle_embedded (Some installed_shape) (fun r => or_ck_rv r.1) (exact_kept provider_spec))
        (fun r => Some (result_to_proto r))
  end.

Definition crypt_message_exact (op : MessageOperation) (next : bool) (req : ParameterOutputExactRequest)
  : Handler (Turn ParameterOutputExactResponse) :=
  match exact_shape_gates req with
  | Err rv => ret (MkTurn (Some (error_response rv)) [] None)
  | Ok _ =>
      in_cell module granted fresh_ref (xq_context req) (xq_session req) op error_response (fun state =>
        session <-? resolved (xq_context req) (xq_session req);;
        _ <-? ret (if negb (is_some (xq_output_spec req)) || negb (is_some (xq_parameter_out_spec req))
                      || (MAX_EXACT_OUTPUT_BYTES <? sp_buffer_len (xq_output req))
                      || negb (bool_decide (xq_parameter req = [])) || is_some (rs_value (xq_param_out req))
                   then Err Rv.MECHANISM_PARAM_INVALID else Ok tt);;
        installed_shape <-? ret (installed state);;
        msg_param <-? ret (decode_structured_message_parameter (xq_message_parameter req));;
        provider_spec <-? ret (exact_provider_spec req installed_shape msg_param);;
        ret (Ok (exact_work op next req session installed_shape provider_spec msg_param)))
  end.

Definition sign_message_exact (next : bool) (req : ParameterOutputExactRequest) : Handler (Turn ParameterOutputExactResponse) :=
  match check_sanitize (hc_sanitize_inputs ctx) (xq_input_data_null_len req) with
  | Err rv => ret (MkTurn (Some (error_response rv)) [] None)
  | Ok _ =>
      in_cell module granted fresh_ref (xq_context req) (xq_session req) Sign error_response (fun state =>
        _ <-? ret (if negb (is_some (xq_output_spec req)) || negb (is_some (xq_parameter_out_spec req))
                      || (MAX_EXACT_OUTPUT_BYTES <? sp_buffer_len (xq_output req))
                      || negb (bool_decide (xq_parameter req = [])) || is_some (xq_message_parameter req)
                      || is_some (rs_value (xq_param_out req)) || (0 <? rs_buffer_len (xq_param_out req))
                   then Err Rv.MECHANISM_PARAM_INVALID else Ok tt);;
        session <-? resolved (xq_context req) (xq_session req);;
        _ <-? ret (installed state);;
        ret (Ok (MkWork
          (if next then CallSignNextExact session (xq_parameter req) (xq_input req) (xq_output req) (xq_param_out req)
           else CallSignMessageExact session (xq_parameter req) (xq_input req) (xq_output req) (xq_param_out req))
          (settle_embedded (Some Unmodeled) (fun r => or_ck_rv r.1) (exact_kept (xq_param_out req)))
          (fun r => Some (result_to_proto r)))))
  end.

(** The arm of [C_WrapKeyAuthenticated] takes no cell. *)
Definition parameter_output_exact (wrap_key_authenticated : Handler (option ParameterOutputExactResponse)) (req : ParameterOutputExactRequest)
  : Handler (Turn ParameterOutputExactResponse) :=
  if negb (exact_output_effects_version_supported (xq_version req)) then ret (MkTurn None [] None)
  else
    match parameter_output_function_from_i32 (xq_function req) with
    | None => ret (MkTurn (Some (error_response Rv.FUNCTION_NOT_SUPPORTED)) [] None)
    | Some FnWrapKeyAuthenticated => answer <- wrap_key_authenticated;; ret (MkTurn answer [] None)
    | Some FnEncryptMessage => crypt_message_exact Encrypt false req
    | Some FnDecryptMessage => crypt_message_exact Decrypt false req
    | Some FnEncryptMessageNext => crypt_message_exact Encrypt true req
    | Some FnDecryptMessageNext => crypt_message_exact Decrypt true req
    | Some FnSignMessage => sign_message_exact false req
    | Some FnSignMessageNext => sign_message_exact true req
    end.
End exact.

(** ** The client *)

Definition decoded_effects (request : MessageParameter) (wire : WireMessageParameterEffects) : CkResult MessageEffects :=
  match request, we_effect wire with
  | Raw _, None => Ok EffNone
  | _, _ => effects_from_wire wire
  end.

Definition U64_MAX : N := 2 ^ 64 - 1.

(** The message functions of [decode_parameter_output_exact_response]; the
    response's [authenticated_output] is that of another function. *)
Definition decode_parameter_output_exact_response (response : ParameterOutputExactResponse) (output_spec : CkOutputBufferSpec)
    (parameter_spec : CkParameterRoundtripSpec) (request_parameter : option MessageParameter) (f : ParameterOutputFunction) (flags : N)
  : CkResult (CkOutputBufferResult * CkParameterRoundtripResult * option MessageEffects) :=
  match xs_output_result response with
  | None => Err Rv.FUNCTION_NOT_SUPPORTED
  | Some wire_output =>
  let? output := output_buffer_result_from_owned wire_output in
  match xs_parameter_result response with
  | None => Err Rv.FUNCTION_NOT_SUPPORTED
  | Some parameter =>
  if negb (Result_is_ok (CkOutputBufferResult_validate_for output output_spec U64_MAX)) then Err Rv.FUNCTION_NOT_SUPPORTED
  else if is_some (xs_message_parameter_out response) then Err Rv.FUNCTION_NOT_SUPPORTED
  else
    let validates_memory := rv_eqb (or_ck_rv output) Rv.OK || rv_eqb (or_ck_rv output) Rv.BUFFER_TOO_SMALL in
    if negb validates_memory && negb (is_some (or_returned_len output)) && negb (is_some (or_value output))
       && negb (is_some (xs_message_effects response)) && (rr_returned_len parameter =? 0) && negb (is_some (rr_value parameter))
    then if negb (rv_eqb (rr_ck_rv parameter) (or_ck_rv output)) then Err Rv.FUNCTION_NOT_SUPPORTED else Ok (output, parameter, None)
    else
      let valid_parameter :=
        if bool_decide (f = FnWrapKeyAuthenticated) then
          (rr_returned_len parameter <=? rs_buffer_len parameter_spec)
          && match rr_value parameter with
             | None => true
             | Some bytes => rs_buffer_present parameter_spec && (len_u64 bytes =? rr_returned_len parameter)
             end
        else (rr_returned_len parameter =? rs_buffer_len parameter_spec)
             && bool_decide (rr_value parameter = empty_if (rs_buffer_present parameter_spec)) in
      if negb (rv_eqb (rr_ck_rv parameter) (or_ck_rv output)) || negb valid_parameter then Err Rv.FUNCTION_NOT_SUPPORTED
      else
        match request_parameter, xs_message_effects response with
        | Some request, Some wire =>
            let? effects := decoded_effects request wire in
            if Result_is_ok (effects_validate_for effects request (exact_effect_context f output_spec flags (or_ck_rv output)))
            then Ok (output, parameter, Some effects) else Err Rv.FUNCTION_NOT_SUPPORTED
        | None, None => Ok (output, parameter, None)
        | _, _ => Err Rv.FUNCTION_NOT_SUPPORTED
        end
  end
  end.

(** A client error: the daemon's return value, or a response no daemon may send. *)
Inductive MessageCallError := BackendError (rv : CkRv) | ProtocolError.

Definition decode_message_begin_contract_response (ck_rv : CkRv) (legacy_parameter : SecretBytes)
    (parameter_result : option CkParameterRoundtripResult) (message_parameter_out : option WireMessageParameter)
    (message_effects : option WireMessageParameterEffects) (envelope : CkParameterRoundtripSpec) (requested : option MessageParameter)
    (decrypt : bool) : Result (CkParameterRoundtripResult * option MessageEffects) MessageCallError :=
  if CkRv_is_err ck_rv && negb (is_some parameter_result) && negb (is_some message_effects) && negb (is_some message_parameter_out)
     && bool_decide (legacy_parameter = [])
  then Err (BackendError ck_rv)
  else if negb (bool_decide (legacy_parameter = [])) || is_some message_parameter_out then Err ProtocolError
  else
    match parameter_result with
    | None => Err ProtocolError
    | Some parameter_result =>
        if negb (rv_eqb (rr_ck_rv parameter_result) ck_rv) || negb (rr_returned_len parameter_result =? rs_buffer_len envelope)
           || negb (bool_decide (rr_value parameter_result = empty_if (rs_buffer_present envelope)))
        then Err ProtocolError
        else
          match requested, message_effects with
          | Some request, Some response =>
              match decoded_effects request response with
              | Err _ => Err ProtocolError
              | Ok decoded =>
                  if Result_is_ok (effects_validate_for decoded request (MkEffectContext ModeBegin (negb decrypt) true false ck_rv))
                  then Ok (parameter_result, Some decoded) else Err ProtocolError
              end
          | None, None => Ok (parameter_result, None)
          | _, _ => Err ProtocolError
          end
    end.
