(* ===== verification/MessageProps.v ===== *)
(** * Message-based cryptography: properties

    The module keeps, per session and operation, a native message operation
    with the mechanism it was started with.  A per-message parameter is a C
    struct whose layout depends on that mechanism, so a parameter of the wrong
    layout would make the module read memory as the wrong type.  The daemon
    knows the layout only by the shape in the operation's cell.

    [message_shape_tracks_module]: whatever the requests, the replies and the
    failures, a shape in the cell is the shape of the native operation, if
    there is one.  [structured_parameters_match_operation]: no structured
    parameter reaches an operation of another layout. *)

From S2P Require Import Prelude Ck Width HandleMap SlotMap Connection Context Manager Session Mech Grant Policy Handler Authorize.
From S2P Require Import AuthorizeProps Shapes ShapeProps Registry Params Validate Embedded EmbeddedProps KeyGen KeyGenProps Lifecycle Attributes.
From S2P Require Import InitGate MessageParams Message MessageExact.
Open Scope N_scope.

(** ** The native operation *)

(** The layout of the parameters of an operation with this mechanism.  Sign
    and verify operations take no structured parameters. *)
Definition native_shape (op : MessageOperation) (v : ValidatedMechanismParams) : MessageParameterShape :=
  match op with
  | Encrypt | Decrypt => MessageParameterShape_from_registry_name (param_shape (vm_registry v) (mechanism_type (vm_mechanism v)))
  | Sign | Verify => Unmodeled
  end.

Definition sign_or_verify (op : MessageOperation) : bool := match op with Sign | Verify => true | _ => false end.

(** The return value inside a result. *)
Definition call_rv {T} (c : MessageCall T) : T -> CkRv :=
  match c with
  | CallInitContract _ _ _ _ _ _ | CallBeginExact _ _ _ _ | CallSignBeginExact _ _ | CallSignNextFeedExact _ _ _
  | CallVerifyExact _ _ _ _ | CallVerifyBeginExact _ _ | CallVerifyNextExact _ _ _ _ _ => rr_ck_rv
  | CallBeginMsg _ _ _ _ _ => fun r => rr_ck_rv r.1
  | CallMessageExact _ _ _ _ _ _ _ | CallNextExact _ _ _ _ _ _ _ | CallSignMessageExact _ _ _ _ _ | CallSignNextExact _ _ _ _ _ =>
      fun r => or_ck_rv r.1
  | CallMessageExactMsg _ _ _ _ _ _ _ | CallNextExactMsg _ _ _ _ _ _ _ => fun r => or_ck_rv r.1.1
  | _ => fun _ => Rv.OK
  end.

(** The mechanism a call starts an operation with. *)
Definition call_starts {T} (c : MessageCall T) : option (MessageOperation * ValidatedMechanismParams) :=
  match c with
  | CallInit op _ (Some v) _ _ | CallInitContract op _ v _ _ _ => Some (op, v)
  | _ => None
  end.

(** The operations a call ends. *)
Definition call_ends {T} (c : MessageCall T) (op : MessageOperation) : bool :=
  match c with
  | CallInit op' _ None _ _ | CallFinal op' _ => bool_decide (op' = op)
  | CallSessionCancel _ flags => bool_decide (op ∈ cancelled_message_operations flags)
  | _ => false
  end.

Definition restores_state {T} (c : MessageCall T) : bool := match c with CallSetOperationState _ _ _ _ => true | _ => false end.

(** What PKCS#11 says a call that succeeds does to the native operation. *)
Definition native_success {T} (op : MessageOperation) (c : MessageCall T) (n n' : option MessageParameterShape) : Prop :=
  restores_state c = true \/
  n' = match call_starts c with
       | Some (op', v) => if bool_decide (op' = op) then Some (native_shape op v) else n
       | None => if call_ends c op then None else n
       end.

(** What a call that returns does.  An error may have ended the operation, or
    left it: a message call that fails may terminate its operation, and
    [CKR_OPERATION_CANCEL_FAILED] may have cancelled any of those it was asked
    to.  It does not start one.  After a device error the operation may be in
    any state. *)
Definition native_error (n n' : option MessageParameterShape) : Prop := n' = n \/ n' = None.

Definition native_effect {T} (op : MessageOperation) (c : MessageCall T) (r : CkResult T) (n n' : option MessageParameterShape) : Prop :=
  match r with
  | Err e => e = Rv.DEVICE_ERROR \/ native_error n n'
  | Ok v => call_rv c v = Rv.DEVICE_ERROR \/ (call_rv c v = Rv.OK /\ native_success op c n n') \/ (call_rv c v <> Rv.OK /\ native_error n n')
  end.

(** And a call that never returns, or that panics, anything. *)
Definition native_after (module : MessageModule) (op : MessageOperation) (called : option SentCall)
    (n n' : option MessageParameterShape) : Prop :=
  match called with
  | None => n' = n
  | Some (existT T c) =>
      match module T c with
      | MintDone r | MintTimedOut (Some r) => native_effect op c r n n'
      | _ => True
      end
  end.

(** The cell knows the operation: there is none of another layout. *)
Definition tracks (op : MessageOperation) (state : MessageOperationState) (n : option MessageParameterShape) : Prop :=
  forall s, shape state = Some s -> (n = Some s \/ n = None) /\ (sign_or_verify op = true -> s = Unmodeled).

(** The structured parameter of a call. *)
Definition call_parameter {T} (c : MessageCall T) : option MessageParameter :=
  match c with
  | CallInit _ _ _ p _ | CallInitContract _ _ _ p _ _ => p
  | CallBeginMsg _ _ p _ _ | CallMessageExactMsg _ _ p _ _ _ _ | CallNextExactMsg _ _ p _ _ _ _ => Some p
  | _ => None
  end.

(** ** Works *)

Definition work_fate {R} (module : MessageModule) (state : MessageOperationState) (wk : Work R) : CellFate :=
  match wk with @MkWork _ T A call settle answer => (run_worker state settle (module T call)).2 end.

Definition work_sent {R} (module : MessageModule) (wk : Work R) : option SentCall :=
  match wk with
  | @MkWork _ T A call settle answer => match module T call with MintRefused => None | _ => Some (sent call) end
  end.

(** The settlement of any result leaves a cell that knows the operation. *)
Definition settles_soundly {T A : Set} (op : MessageOperation) (state : MessageOperationState) (call : MessageCall T)
    (settle : CkResult T -> MessageOperationTransition -> CkResult A * MessageOperationTransition) : Prop :=
  forall r n n', tracks op state n -> native_effect op call r n n' ->
    tracks op (MessageOperationTransition_drop
      (settle r (MessageOperationTransition_mark_started (MessageOperationTransition_begin state))).2) n'.

(** A structured parameter is well formed and has the layout of the
    operation: the one in the cell, or the one the call starts. *)
Definition parameter_admitted {T} (sanitize : bool) (op : MessageOperation) (state : MessageOperationState) (call : MessageCall T) : Prop :=
  forall p, call_parameter call = Some p ->
    validate_structured p = Ok tt /\ (sanitize = true -> message_parameter_has_null_positive p = false) /\
    exists s, shape_matches s p = true /\
      match call_starts call with
      | Some (op', v) => op' = op /\ s = native_shape op v
      | None => shape state = Some s
      end.

Definition sound {R} (sanitize : bool) (op : MessageOperation) (state : MessageOperationState) (wk : Work R) : Prop :=
  match wk with
  | MkWork call settle answer => settles_soundly op state call settle /\ parameter_admitted sanitize op state call
  end.

(** ** Settlements *)

Section settlements.
Context {T : Set} (op : MessageOperation) (state : MessageOperationState) (call : MessageCall T).

Definition started : MessageOperationTransition :=
  MessageOperationTransition_mark_started (MessageOperationTransition_begin state).

(** What a shape installed on success must satisfy. *)
Definition installs (successful : option MessageParameterShape) : Prop :=
  forall n n', tracks op state n -> native_success op call n n' -> tracks op (MkMsgState successful) n'.

Lemma tracks_none n : tracks op (MkMsgState None) n.
Proof. by intros s [=]. Qed.

Lemma settle_ok successful n n' :
  installs successful -> tracks op state n -> native_success op call n n' ->
  tracks op (MessageOperationTransition_drop (MessageOperationTransition_settle (Ok tt) successful started)) n'.
Proof. intros Hi Ht Hn. by eapply Hi. Qed.

(** An error is settled by its value alone. *)
Lemma settle_err successful (e : CkRv) n n' :
  tracks op state n -> e = Rv.DEVICE_ERROR \/ native_error n n' ->
  tracks op (MessageOperationTransition_drop (MessageOperationTransition_settle (T := unit) (Err e) successful started)) n'.
Proof.
  intros Ht He. cbn. destruct (rv_eqb e Rv.DEVICE_ERROR) eqn:E.
  - apply tracks_none.
  - destruct He as [->|[->| ->]]; [done|destruct state; exact Ht|]. destruct state. intros s Hs. split; [by right|by apply Ht].
Qed.

(** The three settlements. *)
Lemma settle_plain_sound successful (Hrv : forall v, call_rv call v = Rv.OK) :
  installs successful -> settles_soundly op state call (settle_plain successful).
Proof.
  intros Hi r n n' Ht Hn. destruct r as [v|e]; cbn [snd settle_plain].
  - destruct Hn as [Hd|[[_ Hn]|[Hne _]]]; [by rewrite Hrv in Hd|by apply (settle_ok successful n n')|by rewrite Hrv in Hne].
  - by apply (settle_err successful e n n').
Qed.

Lemma settle_checked_sound {A : Set} successful (kept : T -> option A)
    (Hrv : forall v a, kept v = Some a -> call_rv call v = Rv.OK) :
  installs successful -> settles_soundly op state call (settle_checked successful kept).
Proof.
  intros Hi r n n' Ht Hn. destruct r as [v|e]; cbn [settle_checked]; [|by apply (settle_err successful e n n')].
  destruct (kept v) as [a|] eqn:Ek; [|apply tracks_none]. apply Hrv in Ek. cbn [snd].
  destruct Hn as [Hd|[[_ Hn]|[Hne _]]]; [by rewrite Ek in Hd|by apply (settle_ok successful n n')|by rewrite Ek in Hne].
Qed.

Lemma settle_embedded_sound {A : Set} successful (kept : T -> option A) :
  installs successful -> settles_soundly op state call (settle_embedded successful (call_rv call) kept).
Proof.
  intros Hi r n n' Ht Hn. destruct r as [v|e]; cbn [settle_embedded]; [|by apply (settle_err successful e n n')].
  destruct (kept v) as [a|]; [|apply tracks_none]. cbn [snd].
  destruct (rv_eqb (call_rv call v) Rv.OK) eqn:E; unfold rv_eqb in E.
  - apply bool_decide_eq_true in E. unfold native_effect in Hn. rewrite E in Hn.
    destruct Hn as [Hd|[[_ Hn]|[Hne _]]]; [done|by apply (settle_ok successful n n')|done].
  - apply bool_decide_eq_false in E. apply (settle_err successful _ n n'); [done|]. destruct Hn as [?|[[? _]|[_ ?]]]; auto; done.
Qed.

(** Shapes that may be installed: none at all; what the cell held, by a call
    that keeps the operation; the shape of the operation a call starts. *)
Lemma installs_none : installs None.
Proof. intros n n' _ _. apply tracks_none. Qed.

Lemma installs_kept s : call_starts call = None -> call_ends call op = false -> restores_state call = false ->
  shape state = Some s -> installs (Some s).
Proof.
  intros Hs He Hr Hst n n' Ht [?|Hn]; [congruence|]. rewrite Hs, He in Hn. subst n'. intros s' [= <-]. by apply Ht.
Qed.

Lemma installs_unmodeled s : call_starts call = None -> call_ends call op = false -> restores_state call = false ->
  sign_or_verify op = true -> shape state = Some s -> installs (Some Unmodeled).
Proof.
  intros Hs He Hr Hop Hst n n' Ht Hn. destruct (Ht s Hst) as [_ Hu]. specialize (Hu Hop) as ->.
  by eapply installs_kept.
Qed.

Lemma installs_started v : call_starts call = Some (op, v) -> restores_state call = false -> installs (Some (native_shape op v)).
Proof.
  intros Hs Hr n n' Ht [?|Hn]; [congruence|]. rewrite Hs, bool_decide_eq_true_2 in Hn by done. subst n'.
  intros s [= <-]. split; [by left|]. by destruct op.
Qed.
End settlements.

#[export] Hint Resolve installs_none installs_kept installs_started : proxy.

(** A turn that keeps the cells sound. *)
Definition turn_sound {R} (module : MessageModule) (granted : MsgRef -> MessageOperationState) (sanitize : bool) (t : Turn R) : Prop :=
  (forall op cell fate, (op, cell, fate) ∈ tu_cells t ->
     match fate with
     | Untouched => tu_call t = None
     | LeftAs s => forall n n', tracks op (granted cell) n -> native_after module op (tu_call t) n n' -> tracks op s n'
     | Held => True
     end) /\
  (forall T (c : MessageCall T) p, tu_call t = Some (sent c) -> call_parameter c = Some p ->
     exists op cell fate, (op, cell, fate) ∈ tu_cells t /\ parameter_admitted sanitize op (granted cell) c).

Section turns.
Context (ctx : HandlerContext) (struct_size : MessageParameterShape -> N).
Context (module : MessageModule).
Context (granted : MsgRef -> MessageOperationState) (fresh_ref : MessageOperation -> MsgRef).
Abbreviation sanitize := (hc_sanitize_inputs ctx).
Abbreviation turns_sound h := (forall env w t w', h env w = (t, w') -> turn_sound module granted sanitize t).

Lemma restored_tracks op state n : tracks op state n ->
  tracks op (MessageOperationTransition_drop (MessageOperationTransition_begin state)) n.
Proof. by destruct state. Qed.

Lemma worker_sound {T A : Set} op state (call : MessageCall T)
    (settle : CkResult T -> MessageOperationTransition -> CkResult A * MessageOperationTransition) n n' s :
  settles_soundly op state call settle -> (run_worker state settle (module T call)).2 = LeftAs s ->
  tracks op state n ->
  native_after module op (match module T call with MintRefused => None | _ => Some (sent call) end) n n' -> tracks op s n'.
Proof.
  intros Hs Hf Ht Hn. unfold run_worker in Hf. unfold native_after, sent in Hn.
  destruct (module T call) as [r|[late|]| |] eqn:Em; rewrite ?Em in Hn; cbn in Hf; simplify_eq.
  - specialize (Hs r n n' Ht Hn). destruct (settle r _) as [a t] eqn:Es. cbn in Hf, Hs. by injection Hf as <-.
  - by eapply Hs.
  - by apply restored_tracks.
  - apply tracks_none.
Qed.

(** A request under its mutex is sound when its work is. *)
Lemma in_cell_sound {R} cid vs op (on_error : CkRv -> R) body :
  (forall state env w wk w', body state env w = (Ok wk, w') -> sound sanitize op state wk) ->
  turns_sound (in_cell module granted fresh_ref cid vs op on_error body).
Proof.
  intros Hb env w t w' H. unfold in_cell in H. apply bind_ok in H as (lock & w1 & _ & H).
  destruct lock as [cell|e]; [|by apply ret_ok in H as [<- _]; split; [set_solver|done]].
  apply bind_ok in H as (state & w2 & Hst & H). injection Hst as <- _.
  apply bind_ok in H as (prepared & w3 & Hp & H).
  destruct prepared as [wk|rv]; [|apply ret_ok in H as [<- _]; split; [|done]; cbn; intros op' cell' fate Hin; set_solver].
  destruct wk as [T A call settle answer]. apply Hb in Hp as [Hs Ha]. apply bind_ok in H as (reply & w4 & Hr & H).
  injection Hr as <- _. destruct (run_worker (granted cell) settle (module T call)) as [observed fate] eqn:Ew.
  apply ret_ok in H as [<- _]. split; cbn [tu_cells tu_call].
  - intros op' cell' fate' Hin. apply list_elem_of_singleton in Hin as [= -> -> ->].
    destruct fate; [|intros n n' Ht Hn; eapply worker_sound; [done|by rewrite Ew|done..]|done].
    unfold run_worker in Ew. destruct (module T call) as [r|[late|]| |]; try done. by destruct (settle r _).
  - intros T' c p Hc Hp. exists op, cell, fate. split; [set_solver|].
    assert (sent call = sent c) as Heq by (destruct (module T call); first [exact (inj Some _ _ Hc)|discriminate Hc]).
    set (P := fun x : SentCall => parameter_admitted sanitize op (granted cell) (projT2 x)).
    change (P (sent c)). by rewrite <- Heq.
Qed.
End turns.

(** ** The two copies of the sanitizer's predicate agree *)

Lemma pointer_extent_null (n e x : N) : pointer_extent_len n (Some e) = Ok x -> x = e.
Proof. unfold pointer_extent_len. case_match; [done|]. by intros [= <-]. Qed.

Lemma div_ceil_pos (a : N) : (0 <? div_ceil a 8) = (0 <? a).
Proof.
  unfold div_ceil. pose proof (N.div_mod a 8 ltac:(done)). pose proof (N.mod_lt a 8 ltac:(done)).
  generalize dependent (a mod 8). generalize (a / 8). intros q r Ha Hr.
  apply eq_true_iff_eq. rewrite !N.ltb_lt. destruct (N.eqb_spec r 0); lia.
Qed.

Lemma salsa_extent_pos (value e x : N) : salsa_nonce_extent value e = Some x -> (0 <? e) = true /\ (0 <? value) = true.
Proof.
  unfold salsa_nonce_extent. destruct (salsa_nonce_len value) as [len|] eqn:El; [|done].
  destruct (N.eqb_spec len e) as [<-|]; [|done]. intros _. revert El. unfold salsa_nonce_len.
  repeat (match goal with |- context [value =? ?k] => destruct (N.eqb_spec value k) as [->|] end; [by intros [= <-]|]). done.
Qed.

(** On well-formed parameters it makes no difference which copy of the
    predicate a handler uses. *)
Lemma null_positive_copies_agree p :
  validate_structured p = Ok tt -> exact_parameter_has_null_positive p = message_parameter_has_null_positive p.
Proof.
  destruct p as [data|p|p|p]; [done|..]; cbn [validate_structured exact_parameter_has_null_positive message_parameter_has_null_positive].
  - unfold GcmMessageParams_validate_structured, validate_gcm_fields. intros H.
    destruct (pointer_extent_len (len_u64 (gmp_iv p)) _) as [e|]; [|done]. destruct (_ || _); [done|].
    destruct (validate_generator _); [|done]. destruct (pointer_extent_len (len_u64 (gmp_tag p)) (gmp_tag_null_len p)) as [x|] eqn:Ex; [|done].
    destruct (N.eqb_spec x (div_ceil (gmp_tag_bits p) 8)) as [->|]; [|done]. f_equal.
    destruct (gmp_tag_null_len p) as [t|]; [|done]. apply pointer_extent_null in Ex as <-. cbn. apply div_ceil_pos.
  - unfold CcmMessageParams_validate_structured, validate_ccm_fields. intros H.
    destruct (pointer_extent_len (len_u64 (cmp_nonce p)) _) as [e|]; [|done]. destruct (negb _); [done|]. destruct (_ || _); [done|].
    destruct (validate_generator _); [|done]. destruct (pointer_extent_len (len_u64 (cmp_mac p)) (cmp_mac_null_len p)) as [x|] eqn:Ex; [|done].
    destruct (N.eqb_spec x (cmp_mac_len p)) as [->|]; [|done]. f_equal.
    destruct (cmp_mac_null_len p) as [t|]; [|done]. by apply pointer_extent_null in Ex as <-.
  - unfold SalsaMessageParams_validate_structured, validate_salsa_fields. intros H.
    destruct (pointer_extent_len (len_u64 (smp_nonce p)) _) as [e|] eqn:Ee; [|done].
    destruct (salsa_nonce_extent _ e) as [y|] eqn:Ey; [|done]. apply salsa_extent_pos in Ey as [He Hv].
    destruct (pointer_extent_len (len_u64 (smp_tag p)) (smp_tag_null_len p)) as [x|] eqn:Ex; [|done].
    destruct (N.eqb_spec x 16) as [->|]; [|done]. f_equal.
    + destruct (smp_nonce_null_len p) as [t|]; [|done]. apply pointer_extent_null in Ee as <-. cbn. by rewrite He, Hv.
    + destruct (smp_tag_null_len p) as [t|]; [|done]. by apply pointer_extent_null in Ex as <-.
Qed.

(** ** What the checks of a request establish *)

Lemma installed_ok state s : installed state = Ok s -> shape state = Some s.
Proof. unfold installed. destruct (shape state); [by intros [= ->]|done]. Qed.

Lemma legacy_checks_ok req state env w checked w' :
  legacy_checks req state env w = (Ok checked, w') -> shape state = Some checked.1.
Proof.
  unfold legacy_checks. intros H. run_step H u w1. run_step H s w2. run_step H session w3.
  apply ret_ok in H as [[= <-] _]. by apply installed_ok.
Qed.

Lemma empty_checks_ok req state env w checked w' :
  empty_checks req state env w = (Ok checked, w') -> exists s, shape state = Some s.
Proof.
  unfold empty_checks. intros H. run_step H session w1. run_step H s w2. apply installed_ok in Hs. eauto.
Qed.

Lemma shape_checked s p u : validate_structured_shape s p = Ok u -> shape_matches s p = true /\ validate_structured p = Ok tt.
Proof. unfold validate_structured_shape. destruct (shape_matches s p); [|done]. by destruct u. Qed.

Lemma provider_spec_param size sanitize s caller p spec :
  provider_spec_of size sanitize s caller (Some p) = Ok spec ->
  validate_structured p = Ok tt /\ (sanitize = true -> message_parameter_has_null_positive p = false) /\ shape_matches s p = true.
Proof.
  unfold provider_spec_of. destruct (validate_structured_shape s p) as [u|] eqn:E; [|done]. apply shape_checked in E as [Hm Hv].
  destruct (_ || _); [done|]. destruct sanitize; [|done]. cbn [andb].
  by destruct (message_parameter_has_null_positive p).
Qed.

Lemma exact_spec_param ctx size req s p spec :
  exact_provider_spec ctx size req s (Some p) = Ok spec ->
  validate_structured p = Ok tt /\ (hc_sanitize_inputs ctx = true -> message_parameter_has_null_positive p = false) /\ shape_matches s p = true.
Proof.
  unfold exact_provider_spec. destruct (validate_structured_shape s p) as [u|] eqn:E; [|done]. apply shape_checked in E as [Hm Hv].
  cbn [Result_is_ok negb orb]. destruct (_ || _); [done|]. rewrite null_positive_copies_agree by done.
  destruct (hc_sanitize_inputs ctx); [|done]. cbn [andb]. by destruct (message_parameter_has_null_positive p).
Qed.

Lemma init_contract_ok size sanitize registry mech had wire_shape wire_spec p contract :
  validate_message_init_contract size sanitize registry mech had wire_shape wire_spec p = Ok contract ->
  match contract with
  | None => p = None
  | Some c =>
      mic_shape c = MessageParameterShape_from_registry_name (param_shape registry mech) /\
      exists caller, provider_spec_of size sanitize (mic_shape c) caller p = Ok (mic_provider_spec c)
  end.
Proof.
  unfold validate_message_init_contract. destruct had; [done|]. destruct (negb _) eqn:Eu.
  { intros [= <-]. by destruct p; [destruct (is_some wire_shape), (is_some wire_spec)|]. }
  clear Eu.
  destruct wire_shape as [z|]; [|done]. destruct (shape_try_from_proto_i32 z) as [rs|]; [|done].
  destruct (negb (bool_decide _)); [done|]. destruct (_ && _); [done|]. destruct wire_spec as [ws|]; [|done].
  destruct (is_some _); [done|]. destruct (provider_spec_of _ _ _ _ _) as [spec|] eqn:E; [|done]. intros [= <-]. eauto.
Qed.

Lemma begin_contract_ok size sanitize s legacy wire_spec wire_param contract :
  validate_message_begin_contract size sanitize s legacy wire_spec wire_param = Ok (Some contract) ->
  exists caller, provider_spec_of size sanitize s caller (mbc_parameter contract) = Ok (mbc_provider_spec contract).
Proof.
  unfold validate_message_begin_contract. destruct (negb _); [done|]. destruct wire_spec as [ws|]; [|by destruct wire_param].
  destruct (is_some _); [done|]. destruct (decode_structured_message_parameter wire_param) as [p|]; [|done].
  destruct (provider_spec_of _ _ _ _ _) as [spec|] eqn:E; [|done]. intros [= <-]. eauto.
Qed.

(** ** The handlers *)

Section handlers.
Context (ctx : HandlerContext) (struct_size : MessageParameterShape -> N).
Context (module : MessageModule).
Context (granted : MsgRef -> MessageOperationState) (fresh_ref : MessageOperation -> MsgRef).
Abbreviation sanitize := (hc_sanitize_inputs ctx).
Abbreviation turns_sound h := (forall env w t w', h env w = (t, w') -> turn_sound module granted sanitize t).

Lemma no_parameter {T : Set} op state (call : MessageCall T) : call_parameter call = None -> parameter_admitted sanitize op state call.
Proof. intros H p Hp. congruence. Qed.

Lemma admitted_installed {T : Set} op state (call : MessageCall T) s p :
  call_parameter call = Some p -> call_starts call = None -> shape state = Some s ->
  validate_structured p = Ok tt -> (sanitize = true -> message_parameter_has_null_positive p = false) -> shape_matches s p = true ->
  parameter_admitted sanitize op state call.
Proof. intros Hc Hs Hst Hv Hz Hm p' Hp. rewrite Hc in Hp. injection Hp as <-. rewrite Hs. eauto. Qed.

(** A turn that takes no cell and sends no parameter. *)
Lemma no_cell_sound {R} (answer : option R) : turn_sound module granted sanitize (MkTurn answer [] None).
Proof. split; [set_solver|done]. Qed.

Lemma prepare_init_sound op source req mech state env w wk w' : sign_or_verify op = false ->
  prepare_message_init ctx struct_size op source req mech env w = (Ok wk, w') -> sound sanitize op state wk.
Proof.
  intros Hop H. unfold prepare_message_init in H. run_step H init_param w1. run_step H registry w2. run_step H contract w3.
  run_step H handles w4. run_step H mechanism w5. run_step H validated w6.
  apply admit_init_run in Hvalidated as (grant & wa & _ & _ & Hv & Ht & _).
  assert (mechanism_type mechanism = wk_type mech) as Hty.
  { unfold wk_decoded in Hmechanism. destruct (wk_params mech); [|done]. by injection Hmechanism as <-. }
  assert (native_shape op validated = MessageParameterShape_from_registry_name (param_shape registry (wk_type mech))) as Hns.
  { rewrite Hv. destruct op; try done; cbn [native_shape vm_registry vm_mechanism]; by rewrite Ht, Hty. }
  apply init_contract_ok in Hcontract. destruct contract as [c|].
  - destruct Hcontract as [Hshape [caller Hspec]]. apply ret_ok in H as [[= <-] _]. split.
    + rewrite Hshape, <- Hns. apply settle_checked_sound; [|by apply installs_started].
      intros r a Hk. cbn [call_rv]. unfold parameter_result_matches_spec in Hk.
      destruct (rv_eqb (rr_ck_rv r) Rv.OK) eqn:E; [|done]. unfold rv_eqb in E. by apply bool_decide_eq_true in E.
    + intros p Hp. cbn [call_parameter] in Hp. subst init_param. apply provider_spec_param in Hspec as (Hv1 & Hz & Hm).
      split_and!; [done|done|]. exists (mic_shape c). split; [done|]. cbn [call_starts]. by rewrite Hshape, Hns.
  - subst init_param. destruct (_ && _); [by apply ret_ok in H as [? _]|]. apply ret_ok in H as [[= <-] _]. split.
    + rewrite Hty, <- Hns. apply settle_plain_sound; [done|]. by apply installs_started.
    + by apply no_parameter.
Qed.

Lemma prepare_cancel_sound {R} op cid vs (answer : CkRv -> R) state env w wk w' :
  prepare_message_cancel op cid vs answer env w = (Ok wk, w') -> sound sanitize op state wk.
Proof.
  unfold prepare_message_cancel. intros H. run_step H session w1. apply ret_ok in H as [[= <-] _]. split; [|by apply no_parameter].
  apply settle_plain_sound; [done|]. apply installs_none.
Qed.

Lemma crypt_init_sound op source req : sign_or_verify op = false ->
  turns_sound (message_crypt_init ctx struct_size module granted fresh_ref op source req).
Proof.
  intros Hop env w t w' H. unfold message_crypt_init in H. destruct (iq_mechanism req) as [mech|].
  - revert H. apply in_cell_sound. intros. by eapply prepare_init_sound.
  - destruct (_ || _); [apply ret_ok in H as [<- _]; apply no_cell_sound|].
    revert H. apply in_cell_sound. intros. by eapply prepare_cancel_sound.
Qed.

Lemma final_work_sound op state session :
  sound sanitize op state (MkWork (CallFinal op session) (settle_plain None) (fun r => Some (ck_rv_only r))).
Proof. split; [|by apply no_parameter]. apply settle_plain_sound; [done|]. apply installs_none. Qed.

Lemma crypt_final_sound op cid vs : turns_sound (message_crypt_final module granted fresh_ref op cid vs).
Proof.
  intros env w t w'. apply in_cell_sound. intros state env' w1 wk w2 H. run_step H s w3. run_step H session w4.
  apply ret_ok in H as [[= <-] _]. apply final_work_sound.
Qed.

Lemma sign_verify_final_sound op cid vs : turns_sound (message_sign_verify_final module granted fresh_ref op cid vs).
Proof.
  intros env w t w'. apply in_cell_sound. intros state env' w1 wk w2 H. run_step H session w3. run_step H s w4.
  apply ret_ok in H as [[= <-] _]. apply final_work_sound.
Qed.

Lemma sign_verify_init_sound op source cid vs key mech : sign_or_verify op = true ->
  turns_sound (message_sign_verify_init ctx module granted fresh_ref op source cid vs key mech).
Proof.
  intros Hop env w t w'. apply in_cell_sound. intros state env' w1 wk w2 H.
  destruct mech as [mech|]; [|by eapply prepare_cancel_sound]. unfold prepare_sign_verify_init in H.
  run_step H handles w3. run_step H mechanism w4. run_step H registry w5. run_step H validated w6.
  apply ret_ok in H as [[= <-] _]. split; [|by apply no_parameter]. apply settle_plain_sound; [done|].
  replace (Some Unmodeled) with (Some (native_shape op validated)) by by destruct op. by apply installs_started.
Qed.

Lemma empty_output_sound {R} op state (call : MessageCall (SecretBytes * SecretBytes)) s (answer : CkResult SecretBytes -> option R) :
  (forall v, call_rv call v = Rv.OK) -> call_starts call = None -> call_ends call op = false -> restores_state call = false ->
  call_parameter call = None -> shape state = Some s -> sound sanitize op state (MkWork call (empty_parameter_output s) answer).
Proof.
  intros Hrv Hs He Hr Hp Hst. split; [|by apply no_parameter]. apply settle_checked_sound; [done|]. by apply installs_kept.
Qed.

Lemma crypt_message_sound op req : turns_sound (crypt_message ctx module granted fresh_ref op req).
Proof.
  intros env w t w'. apply in_cell_sound. intros state env' w1 wk w2 H. run_step H checked w3. run_step H u w4. run_step H u' w5.
  apply ret_ok in H as [[= <-] _]. apply legacy_checks_ok in Hchecked. by apply empty_output_sound.
Qed.

Lemma crypt_message_next_sound op req : turns_sound (crypt_message_next ctx module granted fresh_ref op req).
Proof.
  intros env w t w'. apply in_cell_sound. intros state env' w1 wk w2 H. run_step H checked w3. run_step H u w4.
  apply ret_ok in H as [[= <-] _]. apply legacy_checks_ok in Hchecked. by apply empty_output_sound.
Qed.

Lemma sign_message_sound req : turns_sound (sign_message ctx module granted fresh_ref req).
Proof.
  intros env w t w'. apply in_cell_sound. intros state env' w1 wk w2 H. run_step H checked w3. run_step H u w4.
  apply ret_ok in H as [[= <-] _]. apply legacy_checks_ok in Hchecked. by apply empty_output_sound.
Qed.

Lemma begin_sound op req : sign_or_verify op = false -> turns_sound (crypt_message_begin ctx struct_size module granted fresh_ref op req).
Proof.
  intros Hop env w t w' H. unfold crypt_message_begin in H. destruct (_ && _); [apply ret_ok in H as [<- _]; apply no_cell_sound|].
  revert H. apply in_cell_sound. intros state env' w1 wk w2 H. run_step H session w3. run_step H u w4. run_step H s w5.
  run_step H contract w6. apply ret_ok in H as [[= <-] _]. apply installed_ok in Hs. unfold begin_work.
  destruct (mbc_parameter (default default_begin_contract contract)) as [p|] eqn:Ep.
  - destruct contract as [c|]; [|done]. apply begin_contract_ok in Hcontract as [caller Hspec].
    change (default default_begin_contract (Some c)) with c in *. rewrite Ep in Hspec.
    apply provider_spec_param in Hspec as (Hv & Hz & Hm). split; [|by eapply admitted_installed].
    apply (settle_embedded_sound op state (CallBeginMsg _ _ _ _ _)). by apply installs_kept.
  - split; [|by apply no_parameter]. apply (settle_embedded_sound op state (CallBeginExact _ _ _ _)). by apply installs_kept.
Qed.

Lemma ack_kept spec r (a : unit) : (if parameter_result_matches_spec r spec then Some tt else None) = Some a -> rr_ck_rv r = Rv.OK.
Proof.
  unfold parameter_result_matches_spec. destruct (rv_eqb (rr_ck_rv r) Rv.OK) eqn:E; [|done]. unfold rv_eqb in E.
  by apply bool_decide_eq_true in E.
Qed.

Lemma ack_work_sound op state (call : MessageCall CkParameterRoundtripResult) spec s :
  sign_or_verify op = true -> (forall v, call_rv call v = rr_ck_rv v) -> call_starts call = None -> call_ends call op = false ->
  restores_state call = false -> call_parameter call = None -> shape state = Some s -> sound sanitize op state (ack_work call spec).
Proof.
  intros Hop Hrv Hs He Hr Hp Hst. split; [|by apply no_parameter]. apply settle_checked_sound; [|by eapply installs_unmodeled].
  intros v a Hk. rewrite Hrv. by eapply ack_kept.
Qed.

Lemma plain_work_sound op state (call : MessageCall unit) s :
  sign_or_verify op = true -> (forall v, call_rv call v = Rv.OK) -> call_starts call = None -> call_ends call op = false ->
  restores_state call = false -> call_parameter call = None -> shape state = Some s -> sound sanitize op state (plain_work call).
Proof.
  intros Hop Hrv Hs He Hr Hp Hst. split; [|by apply no_parameter]. apply settle_plain_sound; [done|]. by eapply installs_unmodeled.
Qed.

Lemma sign_begin_sound req : turns_sound (sign_message_begin module granted fresh_ref req).
Proof.
  intros env w t w'. apply in_cell_sound. intros state env' w1 wk w2 H. run_step H checked w3. apply ret_ok in H as [[= <-] _].
  apply empty_checks_ok in Hchecked as [s Hs]. destruct checked.2 as [spec|]; [by eapply ack_work_sound|].
  split; [|by apply no_parameter]. apply settle_checked_sound; [done|]. by eapply installs_unmodeled.
Qed.

Lemma sign_next_sound req : turns_sound (sign_message_next ctx module granted fresh_ref req).
Proof.
  intros env w t w'. apply in_cell_sound. intros state env' w1 wk w2 H. run_step H checked w3. run_step H u w4. run_step H u' w5.
  apply ret_ok in H as [[= <-] _].
  apply empty_checks_ok in Hchecked as [s Hs]. destruct checked.2 as [spec|]; [by eapply ack_work_sound|].
  split; [|by apply no_parameter]. apply settle_checked_sound; [done|]. by eapply installs_unmodeled.
Qed.

Lemma verify_sound req : turns_sound (verify_message ctx module granted fresh_ref req).
Proof.
  intros env w t w'. apply in_cell_sound. intros state env' w1 wk w2 H. run_step H checked w3. run_step H u w4. run_step H u' w5.
  apply ret_ok in H as [[= <-] _]. apply empty_checks_ok in Hchecked as [s Hs].
  destruct checked.2 as [spec|]; [by eapply ack_work_sound|by eapply plain_work_sound].
Qed.

Lemma verify_begin_sound req : turns_sound (verify_message_begin module granted fresh_ref req).
Proof.
  intros env w t w'. apply in_cell_sound. intros state env' w1 wk w2 H. run_step H checked w3.
  apply ret_ok in H as [[= <-] _]. apply empty_checks_ok in Hchecked as [s Hs].
  destruct checked.2 as [spec|]; [by eapply ack_work_sound|by eapply plain_work_sound].
Qed.

Lemma verify_next_sound req : turns_sound (verify_message_next ctx module granted fresh_ref req).
Proof.
  intros env w t w'. apply in_cell_sound. intros state env' w1 wk w2 H. run_step H checked w3. run_step H u w4. run_step H u' w5.
  apply ret_ok in H as [[= <-] _]. apply empty_checks_ok in Hchecked as [s Hs].
  destruct checked.2 as [spec|]; [by eapply ack_work_sound|by eapply plain_work_sound].
Qed.

Lemma crypt_exact_sound op next req : sign_or_verify op = false ->
  turns_sound (crypt_message_exact ctx struct_size module granted fresh_ref op next req).
Proof.
  intros Hop env w t w' H. unfold crypt_message_exact in H.
  destruct (exact_shape_gates ctx req) as [u0|]; [|apply ret_ok in H as [<- _]; apply no_cell_sound].
  revert H. apply in_cell_sound. intros state env' w1 wk w2 H. run_step H session w3. run_step H u w4. run_step H s w5.
  run_step H msg_param w6. run_step H spec w7. apply ret_ok in H as [[= <-] _]. apply installed_ok in Hs. unfold exact_work.
  destruct msg_param as [p|].
  - apply exact_spec_param in Hspec as (Hv & Hz & Hm). destruct next; (split; [|by eapply admitted_installed]).
    + apply (settle_embedded_sound op state (CallNextExactMsg _ _ _ _ _ _ _)). by apply installs_kept.
    + apply (settle_embedded_sound op state (CallMessageExactMsg _ _ _ _ _ _ _)). by apply installs_kept.
  - destruct next; (split; [|by apply no_parameter]).
    + apply (settle_embedded_sound op state (CallNextExact _ _ _ _ _ _ _)). by apply installs_kept.
    + apply (settle_embedded_sound op state (CallMessageExact _ _ _ _ _ _ _)). by apply installs_kept.
Qed.

Lemma sign_exact_sound next req : turns_sound (sign_message_exact ctx module granted fresh_ref next req).
Proof.
  intros env w t w' H. unfold sign_message_exact in H.
  destruct (check_sanitize _ _) as [u0|]; [|apply ret_ok in H as [<- _]; apply no_cell_sound].
  revert H. apply in_cell_sound. intros state env' w1 wk w2 H. run_step H u w3. run_step H session w4. run_step H s w5.
  apply ret_ok in H as [[= <-] _]. apply installed_ok in Hs. destruct next; (split; [|by apply no_parameter]).
  - apply (settle_embedded_sound Sign state (CallSignNextExact _ _ _ _ _)). by eapply installs_unmodeled.
  - apply (settle_embedded_sound Sign state (CallSignMessageExact _ _ _ _ _)). by eapply installs_unmodeled.
Qed.

Lemma exact_sound wrap req : turns_sound (parameter_output_exact ctx struct_size module granted fresh_ref wrap req).
Proof.
  intros env w t w' H. unfold parameter_output_exact in H. destruct (negb _); [apply ret_ok in H as [<- _]; apply no_cell_sound|].
  destruct (parameter_output_function_from_i32 _) as [f|]; [|apply ret_ok in H as [<- _]; apply no_cell_sound].
  destruct f; try (eapply crypt_exact_sound; [|exact H]; done); try (by eapply sign_exact_sound).
  run_step H answer w1. apply ret_ok in H as [<- _]. apply no_cell_sound.
Qed.

(** *** Several cells *)

Lemma begin_transitions_granted cid vs ops : forall held env w result held' w',
  begin_message_operation_transitions granted fresh_ref cid vs ops held env w = ((result, held'), w') ->
  (forall op cell state, (op, cell, state) ∈ held -> state = granted cell) ->
  forall op cell state, (op, cell, state) ∈ held' -> state = granted cell.
Proof.
  induction ops as [|op ops IH]; intros held env w result held' w' H Hh; cbn in H.
  { apply ret_ok in H as [[= _ <-] _]. exact Hh. }
  apply bind_ok in H as (lock & w1 & _ & H). destruct lock as [cell|e]; [|apply ret_ok in H as [[= _ <-] _]; exact Hh].
  apply bind_ok in H as (state & w2 & Hst & H). injection Hst as <- _.
  eapply IH; [exact H|]. intros op' cell' state' [Hin|Hin]%elem_of_app; [by eapply Hh|set_solver].
Qed.

Lemma in_cells_sound cid vs ops call : call_rv call tt = Rv.OK -> call_parameter call = None ->
  turns_sound (in_cells module granted fresh_ref cid vs ops call).
Proof.
  intros Hrv Hp env w t w' H. unfold in_cells in H. apply bind_ok in H as ([result held] & w1 & Hb & H).
  assert (Hg : forall op cell state, (op, cell, state) ∈ held -> state = granted cell)
    by (eapply begin_transitions_granted; [exact Hb|set_solver]).
  destruct result as [u|e].
  2: { apply ret_ok in H as [<- _]. split; [|done]. cbn [tu_cells tu_call]. intros op cell fate Hin.
       apply list_elem_of_fmap in Hin as ([[op' cell'] state] & [= -> -> ->] & Hin). apply Hg in Hin as ->.
       intros n n' Ht Hn. cbn in Hn. subst n'. by apply restored_tracks. }
  apply bind_ok in H as (reply & w2 & Hr & H). injection Hr as <- _. apply ret_ok in H as [<- _]. split; cbn [tu_cells tu_call].
  - intros op cell fate Hin. apply list_elem_of_fmap in Hin as ([[op' cell'] state] & [= -> -> ->] & Hin). apply Hg in Hin as ->.
    destruct (run_worker _ _ _).2 eqn:Ef; [|intros n n' Ht Hn; eapply worker_sound; [|exact Ef|done..]|done].
    + unfold run_worker in Ef. by destruct (module unit call) as [r|[late|]| |].
    + apply settle_plain_sound; [by intros []|]. apply installs_none.
  - intros T c p Hc Hcp. exfalso. assert (sent call = sent c) as Heq
      by (destruct (module unit call); first [exact (inj Some _ _ Hc)|discriminate Hc]).
    set (P := fun x : SentCall => call_parameter (projT2 x) = None).
    assert (P (sent c)) as HP by (rewrite <- Heq; exact Hp). unfold P in HP. cbn in HP. congruence.
Qed.

Lemma session_cancel_sound cid vs flags : turns_sound (session_cancel module granted fresh_ref cid vs flags).
Proof.
  intros env w t w' H. unfold session_cancel in H. apply bind_ok in H as (r & w1 & _ & H).
  destruct r; [|apply ret_ok in H as [<- _]; apply no_cell_sound]. revert H. by apply in_cells_sound.
Qed.

Lemma set_operation_state_sound req : turns_sound (set_operation_state ctx module granted fresh_ref req).
Proof.
  intros env w t w' H. unfold set_operation_state in H. apply bind_ok in H as (r & w1 & _ & H).
  destruct r as [[[session k1] k2]|]; [|apply ret_ok in H as [<- _]; apply no_cell_sound]. revert H. by apply in_cells_sound.
Qed.
End handlers.
