(* ===== verification/MessageSystem.v ===== *)
(** * Message-based cryptography: runs of requests

    Every request that takes a cell is a step of a system of one cell and the
    native operation it stands for; steps follow each other as the mutex is
    granted.  The theorems of [MessageProps] are here put together over all
    runs, and the answers of the daemon are read by the client. *)

From S2P Require Import Prelude Ck Width HandleMap SlotMap Connection Context Manager Session Mech Grant Policy Handler Authorize.
From S2P Require Import AuthorizeProps Shapes ShapeProps Registry Params Validate Embedded EmbeddedProps KeyGen KeyGenProps KeyGenDemo.
From S2P Require Import Lifecycle Attributes InitGate MessageParams Message MessageExact MessageProps.
Open Scope N_scope.

(** ** Requests *)

Inductive MessageRpc :=
| RpcCryptInit (decrypt : bool) (source : option MechanismRegistry) (req : MessageInitRequest)
| RpcCryptFinal (decrypt : bool) (cid : ClientContextId) (session : N)
| RpcSignVerifyInit (verify : bool) (source : option MechanismRegistry) (cid : ClientContextId) (session key : N)
    (mechanism : option WireMechanism)
| RpcSignVerifyFinal (verify : bool) (cid : ClientContextId) (session : N)
| RpcCryptMessage (decrypt : bool) (req : MessageRequest)
| RpcCryptMessageBegin (decrypt : bool) (req : MessageBeginRequest)
| RpcCryptMessageNext (decrypt : bool) (req : MessageRequest)
| RpcSignMessage (req : MessageRequest)
| RpcSignMessageBegin (req : SignVerifyRequest)
| RpcSignMessageNext (req : SignVerifyRequest)
| RpcVerifyMessage (req : SignVerifyRequest)
| RpcVerifyMessageBegin (req : SignVerifyRequest)
| RpcVerifyMessageNext (req : SignVerifyRequest)
| RpcParameterOutputExact (wrap : Handler (option ParameterOutputExactResponse)) (req : ParameterOutputExactRequest)
| RpcSessionCancel (cid : ClientContextId) (session flags : N)
| RpcSetOperationState (req : SetStateRequest).

Definition forget {R} (h : Handler (Turn R)) : Handler (Turn unit) :=
  t <- h;; ret (MkTurn ((fun _ => tt) <$> tu_answer t) (tu_cells t) (tu_call t)).

(** The daemon: its configuration, the module, and the mutexes. *)
Record Daemon := MkDaemon {
  d_ctx : HandlerContext; d_struct_size : MessageParameterShape -> N; d_module : MessageModule;
  d_granted : MsgRef -> MessageOperationState; d_fresh_ref : MessageOperation -> MsgRef }.

Definition serve (d : Daemon) (rpc : MessageRpc) : Handler (Turn unit) :=
  let '(MkDaemon ctx struct_size module granted fresh_ref) := d in
  match rpc with
  | RpcCryptInit true source req => forget (message_decrypt_init ctx struct_size module granted fresh_ref source req)
  | RpcCryptInit false source req => forget (message_encrypt_init ctx struct_size module granted fresh_ref source req)
  | RpcCryptFinal true cid session => forget (message_decrypt_final module granted fresh_ref cid session)
  | RpcCryptFinal false cid session => forget (message_encrypt_final module granted fresh_ref cid session)
  | RpcSignVerifyInit true source cid session key mechanism =>
      forget (message_verify_init ctx module granted fresh_ref source cid session key mechanism)
  | RpcSignVerifyInit false source cid session key mechanism =>
      forget (message_sign_init ctx module granted fresh_ref source cid session key mechanism)
  | RpcSignVerifyFinal true cid session => forget (message_verify_final module granted fresh_ref cid session)
  | RpcSignVerifyFinal false cid session => forget (message_sign_final module granted fresh_ref cid session)
  | RpcCryptMessage true req => forget (decrypt_message ctx module granted fresh_ref req)
  | RpcCryptMessage false req => forget (encrypt_message ctx module granted fresh_ref req)
  | RpcCryptMessageBegin true req => forget (decrypt_message_begin ctx struct_size module granted fresh_ref req)
  | RpcCryptMessageBegin false req => forget (encrypt_message_begin ctx struct_size module granted fresh_ref req)
  | RpcCryptMessageNext true req => forget (decrypt_message_next ctx module granted fresh_ref req)
  | RpcCryptMessageNext false req => forget (encrypt_message_next ctx module granted fresh_ref req)
  | RpcSignMessage req => forget (sign_message ctx module granted fresh_ref req)
  | RpcSignMessageBegin req => forget (sign_message_begin module granted fresh_ref req)
  | RpcSignMessageNext req => forget (sign_message_next ctx module granted fresh_ref req)
  | RpcVerifyMessage req => forget (verify_message ctx module granted fresh_ref req)
  | RpcVerifyMessageBegin req => forget (verify_message_begin module granted fresh_ref req)
  | RpcVerifyMessageNext req => forget (verify_message_next ctx module granted fresh_ref req)
  | RpcParameterOutputExact wrap req => forget (parameter_output_exact ctx struct_size module granted fresh_ref wrap req)
  | RpcSessionCancel cid session flags => forget (session_cancel module granted fresh_ref cid session flags)
  | RpcSetOperationState req => forget (set_operation_state ctx module granted fresh_ref req)
  end.

Lemma forget_sound {R} module granted sanitize (h : Handler (Turn R)) env w t w' :
  (forall env w t w', h env w = (t, w') -> turn_sound module granted sanitize t) ->
  forget h env w = (t, w') -> turn_sound module granted sanitize t.
Proof.
  intros Hh H. unfold forget in H. apply bind_ok in H as (t0 & w1 & H0 & H). apply ret_ok in H as [<- _]. by apply Hh in H0.
Qed.

Lemma serve_sound d rpc env w t w' : serve d rpc env w = (t, w') ->
  turn_sound (d_module d) (d_granted d) (hc_sanitize_inputs (d_ctx d)) t.
Proof.
  destruct d as [ctx size module granted fresh]. cbn [serve d_module d_granted d_ctx].
  destruct rpc as [[]|[]|[]|[]|[]|[]|[]| | | | | | | | |]; intros H; (eapply forget_sound; [|exact H]); intros env' w0 t0 w0' H0; revert H0.
  - by apply crypt_init_sound.
  - by apply crypt_init_sound.
  - by apply crypt_final_sound.
  - by apply crypt_final_sound.
  - by apply sign_verify_init_sound.
  - by apply sign_verify_init_sound.
  - by apply sign_verify_final_sound.
  - by apply sign_verify_final_sound.
  - by apply crypt_message_sound.
  - by apply crypt_message_sound.
  - by apply begin_sound.
  - by apply begin_sound.
  - by apply crypt_message_next_sound.
  - by apply crypt_message_next_sound.
  - by apply sign_message_sound.
  - by apply sign_begin_sound.
  - by apply sign_next_sound.
  - by apply verify_sound.
  - by apply verify_begin_sound.
  - by apply verify_next_sound.
  - by apply exact_sound.
  - by apply session_cancel_sound.
  - by apply set_operation_state_sound.
Qed.

(** ** The system of a cell and its native operation *)

(** [None]: the mutex is never granted again. *)
Record OpSystem := MkOpSystem { os_cell : option MessageOperationState; os_native : option MessageParameterShape }.

Definition after (fate : CellFate) (state : MessageOperationState) : option MessageOperationState :=
  match fate with Untouched => Some state | LeftAs s => Some s | Held => None end.

(** A request locks the cell of [op] in state [state].  Configuration, module,
    and world may differ from step to step. *)
Definition turn_at (op : MessageOperation) (state : MessageOperationState) (d : Daemon) (t : Turn unit) (fate : CellFate) : Prop :=
  exists rpc env w w' cell, serve d rpc env w = (t, w') /\ (op, cell, fate) ∈ tu_cells t /\ d_granted d cell = state.

Inductive message_step (op : MessageOperation) : OpSystem -> OpSystem -> Prop :=
| message_step_turn d t fate state n n' :
    turn_at op state d t fate -> native_after (d_module d) op (tu_call t) n n' ->
    message_step op (MkOpSystem (Some state) n) (MkOpSystem (after fate state) n').

Definition op_start (n : option MessageParameterShape) : OpSystem := MkOpSystem (Some (MkMsgState None)) n.

Definition op_tracks (op : MessageOperation) (x : OpSystem) : Prop :=
  match os_cell x with Some state => tracks op state (os_native x) | None => True end.

Lemma message_step_tracks op x y : message_step op x y -> op_tracks op x -> op_tracks op y.
Proof.
  intros [d t fate state n n' (rpc & env & w & w' & cell & Hs & Hin & <-) Hn] Hx. apply serve_sound in Hs as [Hc _].
  specialize (Hc op cell fate Hin). unfold op_tracks in *. cbn in *. destruct fate as [|s|]; cbn; [|by eapply Hc|done].
  rewrite Hc in Hn. cbn in Hn. by subst n'.
Qed.

Lemma op_run_tracks op n x : rtc (message_step op) (op_start n) x -> op_tracks op x.
Proof.
  intros Hrun. assert (op_tracks op (op_start n)) as H0 by apply tracks_none. revert H0. generalize dependent (op_start n).
  intros y Hrun. induction Hrun as [|a b c Hab _ IH]; intros H0; [done|]. apply IH. by eapply message_step_tracks.
Qed.

(** C23: After any sequence of requests on the operation, with any replies,
    timeouts, refusals and panics: while there is a shape in the cell, the
    native operation has that shape, or there is no native operation (the
    module then refuses without reading a parameter).  About the module it is
    assumed ([native_after]) that an init that succeeds starts the operation
    with its mechanism, a final, a NULL init or a cancel that succeeds ends it,
    other successes keep it, and a call that fails does not start one; it may
    end it ([CKR_OPERATION_CANCEL_FAILED] after a part of the cancellations
    included).  A device error, a panic, a call that never returns, and a
    restored state may leave anything. *)
Theorem message_shape_tracks_module op n x state s :
  rtc (message_step op) (op_start n) x -> os_cell x = Some state -> shape state = Some s -> os_native x = Some s \/ os_native x = None.
Proof. intros H Hc Hs. apply op_run_tracks in H. unfold op_tracks in H. rewrite Hc in H. by destruct (H s Hs). Qed.

(** C24: Every structured parameter that reaches the module is well formed and,
    with the sanitizer, has no NULL buffer with a length.  It has the layout of
    the operation its call starts; a parameter for a running operation has the
    layout of the shape in the cell, and, in every run in which the module
    treats its operations as assumed of it in [native_after] (see
    [message_shape_tracks_module]), no native operation of another layout is
    there to read it. *)
Theorem structured_parameters_match_operation n (d : Daemon) rpc env w t w' (T : Set) (c : MessageCall T) p :
  serve d rpc env w = (t, w') -> tu_call t = Some (sent c) -> call_parameter c = Some p ->
  exists op cell fate, (op, cell, fate) ∈ tu_cells t /\
    validate_structured p = Ok tt /\
    (hc_sanitize_inputs (d_ctx d) = true -> message_parameter_has_null_positive p = false) /\
    match call_starts c with
    | Some (op', v) => op' = op /\ shape_matches (native_shape op v) p = true
    | None =>
        exists s, shape (d_granted d cell) = Some s /\ shape_matches s p = true /\
          forall x, rtc (message_step op) (op_start n) x -> os_cell x = Some (d_granted d cell) -> os_native x = Some s \/ os_native x = None
    end.
Proof.
  intros Hs Hc Hp. apply serve_sound in Hs as [_ Hpar]. destruct (Hpar T c p Hc Hp) as (op & cell & fate & Hin & Hadm).
  destruct (Hadm p Hp) as (Hv & Hz & s & Hm & Hst). exists op, cell, fate. split_and!; [done..|].
  destruct (call_starts c) as [[op' v]|]; [by destruct Hst as [-> ->]|]. exists s. split_and!; [done..|].
  intros x Hx Hcell. apply op_run_tracks in Hx. unfold op_tracks in Hx. rewrite Hcell in Hx. by destruct (Hx s Hst).
Qed.

(** ** A run: init and one message *)

Definition gcm_registry : MechanismRegistry := MkMechanismRegistry {[ CKM_AES_GCM := "gcm" ]} ∅ ∅ Transparent "1".

(** A module that accepts everything and writes the tag 7 to every byte. *)
Definition demo_message_module : MessageModule := fun T c =>
  match c with
  | CallInit _ _ _ _ _ => MintDone (Ok tt)
  | CallInitContract _ _ _ _ _ spec => MintDone (Ok (parameter_ack spec))
  | CallMessageExactMsg op _ (GcmMessage p) _ _ _ spec =>
      MintDone (Ok (MkOutputBufferResult Rv.OK (Some 2) (Some [1; 2]), parameter_ack spec, EffGcm None (Some ((fun _ => 7) <$> gmp_tag p))))
  | _ => MintPanicked
  end.

Definition demo_daemon (s : option MessageParameterShape) : Daemon :=
  MkDaemon demo_hctx (fun _ => 48) demo_message_module (fun _ => MkMsgState s) (fun _ => 5).

Definition demo_init : MessageRpc :=
  RpcCryptInit false (Some gcm_registry)
    (MkInitRequest "ctx" 1 (Some (MkWireMechanism CKM_AES_GCM false (Ok None))) 1 None None None).

Definition demo_parameter : MessageParameter := GcmMessage (MkGcmMessageParams [9; 9] None 0 0 [0; 0] None 16).

Definition demo_exact_request : ParameterOutputExactRequest :=
  MkExactRequest 1 "ctx" 1 1 (Some (MkOutputBufferSpec true 2 false)) (Some (MkRoundtripSpec true 48 None))
    [65; 66] None [] None [] 0 (Some (MessageParameter_to_wire demo_parameter)).
Definition demo_message : MessageRpc := RpcParameterOutputExact (ret None) demo_exact_request.

Definition demo_gcm_system : OpSystem := MkOpSystem (Some (MkMsgState (Some Gcm))) (Some Gcm).

Lemma demo_run : rtc (message_step Encrypt) (op_start None) demo_gcm_system.
Proof.
  destruct (serve (demo_daemon None) demo_init demo_env demo_world) as [t w'] eqn:E.
  assert (tu_cells t = [(Encrypt, 5, LeftAs (MkMsgState (Some Gcm)))]) as Hc.
  { change t with (t, w').1. rewrite <- E. vm_compute. reflexivity. }
  assert (match tu_call t with
          | Some (existT _ (CallInit Encrypt _ (Some v) _ _)) => native_shape Encrypt v = Gcm
          | _ => False
          end) as Hcall.
  { change t with (t, w').1. rewrite <- E. vm_compute. reflexivity. }
  apply rtc_once. eapply (message_step_turn Encrypt (demo_daemon None) t (LeftAs (MkMsgState (Some Gcm))) (MkMsgState None)).
  - exists demo_init, demo_env, demo_world, w', 5. rewrite Hc. split; [exact E|]. split; [|reflexivity].
    apply list_elem_of_singleton. reflexivity.
  - clear E Hc. unfold native_after. destruct (tu_call t) as [[T c]|]; [|by destruct Hcall].
    destruct c; try (by destruct Hcall). destruct op; try (by destruct Hcall). destruct mechanism; [|by destruct Hcall].
    cbn [d_module demo_daemon demo_message_module native_effect call_rv]. right. left. split; [reflexivity|]. right.
    cbn [call_starts]. rewrite bool_decide_eq_true_2 by reflexivity. by rewrite Hcall.
Qed.

Lemma message_shape_tracks_module_witness : os_native demo_gcm_system = Some Gcm \/ os_native demo_gcm_system = None.
Proof. exact (message_shape_tracks_module Encrypt None demo_gcm_system _ Gcm demo_run eq_refl eq_refl). Defined.

Lemma structured_parameters_match_operation_witness :
  exists s, shape_matches s demo_parameter = true /\ (os_native demo_gcm_system = Some s \/ os_native demo_gcm_system = None).
Proof.
  destruct (serve (demo_daemon (Some Gcm)) demo_message demo_env demo_world) as [t w'] eqn:E.
  assert (match tu_call t with
          | Some (existT _ c) => call_parameter c = Some demo_parameter /\ call_starts c = None
          | _ => False
          end) as Hcall.
  { change t with (t, w').1. rewrite <- E. vm_compute. split; reflexivity. }
  assert (map (fun x => x.1.1) (tu_cells t) = [Encrypt]) as Hcell.
  { change t with (t, w').1. rewrite <- E. vm_compute. reflexivity. }
  destruct (tu_call t) as [[T c]|] eqn:Ec; [|done]. destruct Hcall as [Hp Hs].
  destruct (structured_parameters_match_operation None (demo_daemon (Some Gcm)) demo_message demo_env demo_world t w' T c
              demo_parameter E Ec Hp) as (op & cell & fate & Hin & _ & _ & Hm).
  rewrite Hs in Hm. destruct Hm as (s & _ & Hsm & Hm). exists s. split; [exact Hsm|]. assert (op = Encrypt) as ->.
  { assert (op ∈ map (fun x => x.1.1) (tu_cells t)) as Hop by (apply list_elem_of_fmap; eexists; split; [|exact Hin]; done).
    rewrite Hcell in Hop. by apply list_elem_of_singleton in Hop. }
  exact (Hm demo_gcm_system demo_run eq_refl).
Defined.

(** ** A denied key of a saved state *)

(** A policy that grants the caller one object, which is not its key. *)
Definition narrow_policy : TokenPolicy :=
  match from_config (fun s => if bool_decide (s = "bb") then Some [187] else None)
          (MkAuthConfig false
             [MkPolicyEntry "uid=1000" (SpecSpecific [GrantRich (MkRichGrant "label:Audit" None None Allow (Some [ObjectRich "bb" None]))])]
             None) with
  | Ok p => p
  | Err _ => TokenPolicy_default
  end.

(** A key the policy denies reaches the module as handle 0, which
    [C_SetOperationState] reads as the absence of a key. *)
Theorem denied_state_key_becomes_no_key :
  let ctx := MkHandlerContext Little narrow_policy (Some Lp64NativeLe) 8 (fun _ => true) true in
  tu_call (set_operation_state ctx demo_message_module (fun _ => MkMsgState None) (fun _ => 5)
             (MkSetStateRequest "ctx" 1 1 0 [1] None) demo_env demo_world).1 =
    Some (sent (CallSetOperationState (MkSession 71) (InBytes [1]) (MkObject 0) (MkObject 0))).
Proof. vm_compute. reflexivity. Qed.
