(* ===== verification/MessageClient.v ===== *)
(** * The client reads the daemon's answers

    The daemon checks what the module says about a message before it answers,
    and the client checks the answer again ([MessageExact]).  If the module
    keeps the contract of its output buffers, the two checks never disagree:
    the client accepts every answer of the daemon, and reads from it exactly
    what the module reported, or an error without effects. *)

From S2P Require Import Prelude Ck Width HandleMap SlotMap Connection Context Manager Session Mech Grant Policy Handler Authorize.
From S2P Require Import AuthorizeProps Shapes ShapeProps Registry Params Validate Embedded EmbeddedProps KeyGen KeyGenProps KeyGenDemo.
From S2P Require Import Lifecycle Attributes InitGate MessageParams Message MessageExact MessageProps MessageSystem.
Open Scope N_scope.

(** An error proper: not success, nor the return value that comes with a length. *)
Definition plain_error (rv : CkRv) : Prop := rv <> Rv.OK /\ rv <> Rv.BUFFER_TOO_SMALL /\ rv_raw rv <= U64_MAX.

Ltac plain := split_and!; [discriminate|discriminate|vm_compute; discriminate].

(** ** Answers that decode *)

Section decode.
Context (f : ParameterOutputFunction) (output_spec : CkOutputBufferSpec) (parameter_spec : CkParameterRoundtripSpec).
Context (requested : option MessageParameter) (flags : N).
Abbreviation decode response := (decode_parameter_output_exact_response response output_spec parameter_spec requested f flags).

Lemma rv_eqb_refl a : rv_eqb a a = true.
Proof. unfold rv_eqb. by rewrite bool_decide_eq_true_2. Qed.

Lemma decode_error rv : plain_error rv ->
  decode (error_response rv) = Ok (CkOutputBufferResult_no_effects rv, MkRoundtripResult rv 0 None, None).
Proof.
  intros (Hok & Hsmall & Hmax). unfold decode_parameter_output_exact_response, error_response. destruct rv as [raw].
  cbn [xs_output_result xs_parameter_result output_buffer_result_from_owned wo_apply_returned_len wo_returned_len wo_value wo_ck_rv
         negb andb N.eqb is_some orb rv_raw].
  unfold CkOutputBufferResult_validate_for. cbn [or_ck_rv or_returned_len or_value is_Some_and is_some orb rv_raw].
  rewrite (proj2 (N.ltb_ge U64_MAX raw)) by done. rewrite andb_false_r. cbn [orb Result_is_ok negb xs_message_parameter_out is_some].
  rewrite !(proj2 (rv_eqb_neq _ _)) by done. cbn. by rewrite rv_eqb_refl.
Qed.

Lemma output_roundtrip output : CkOutputBufferResult_validate_for output output_spec U64_MAX = Ok tt ->
  output_buffer_result_from_owned (output_to_wire output) = Ok output.
Proof.
  unfold CkOutputBufferResult_validate_for, output_buffer_result_from_owned, output_to_wire. destruct output as [[raw] len value].
  cbn. destruct (_ || _); [done|]. destruct value as [value|]; [|by destruct len].
  destruct (bool_decide (len = Some (len_u64 value))) eqn:E; [|by rewrite orb_true_r]. apply bool_decide_eq_true in E as ->. done.
Qed.

(** An answer with the module's output, its acknowledgement and effects. *)
Lemma decode_kept output wire_effects effects :
  f <> FnWrapKeyAuthenticated ->
  CkOutputBufferResult_validate_for output output_spec U64_MAX = Ok tt ->
  match requested, wire_effects with
  | Some p, Some wire =>
      decoded_effects p wire = Ok effects /\
      effects_validate_for effects p (exact_effect_context f output_spec flags (or_ck_rv output)) = Ok tt
  | None, None => True
  | _, _ => False
  end ->
  exists ack, decode (MkExactResponse wire_effects (Some (output_to_wire output)) (Some (translate_parameter_ack output parameter_spec)) None)
    = Ok (output, ack, match requested with Some _ => Some effects | None => None end).
Proof.
  intros Hf Hval Heff. unfold decode_parameter_output_exact_response. cbn [xs_output_result xs_parameter_result].
  rewrite output_roundtrip by done. rewrite Hval. cbn [Result_is_ok negb xs_message_parameter_out is_some xs_message_effects].
  cbn [translate_parameter_ack rr_ck_rv rr_returned_len rr_value]. rewrite rv_eqb_refl. cbn [negb orb].
  rewrite bool_decide_eq_false_2 by done. rewrite N.eqb_refl, bool_decide_eq_true_2 by done. cbn [andb negb].
  destruct requested as [p|], wire_effects as [wire|]; try done.
  - destruct Heff as [Hd Hv]. cbn [is_some negb andb]. rewrite andb_false_r. cbn [andb]. rewrite Hd, Hv. cbn [Result_is_ok]. eauto.
  - destruct (_ && _); eauto.
Qed.
End decode.

Lemma decoded_wire e p ctx w : effects_validate_for e p ctx = Ok tt -> effects_to_wire e = Ok w -> decoded_effects p w = Ok e.
Proof.
  intros Hv Hw. unfold effects_validate_for in Hv. destruct (validate_structured p) as [u|]; [|done].
  destruct (effects_match e (capture p p ctx) && effects_prefix e p) eqn:E; [|done]. apply andb_true_iff in E as [E _].
  rewrite capture_layout in E by apply same_layout_refl.
  destruct e, p; try done; cbn in Hw; injection Hw as <-; done.
Qed.

Lemma valid_effects_encode e p ctx : effects_validate_for e p ctx = Ok tt -> exists w, effects_to_wire e = Ok w.
Proof.
  unfold effects_validate_for. destruct (validate_structured p); [|done].
  destruct (effects_match e _) eqn:E; [|done]. destruct e; try (eexists; reflexivity). done.
Qed.

(** ** What the checks answer *)

Definition errors_plain {A} (h : Handler (CkResult A)) : Prop := forall env w rv w', h env w = (Err rv, w') -> plain_error rv.

Lemma errors_bind {A B} (h : Handler (CkResult A)) (k : A -> Handler (CkResult B)) :
  errors_plain h -> (forall a, errors_plain (k a)) -> errors_plain (bind_result h k).
Proof.
  intros Hh Hk env w rv w' H. unfold bind_result, bind in H. destruct (h env w) as [[a|e] w1] eqn:E; [by eapply Hk|].
  apply ret_ok in H as [[= <-] _]. by eapply Hh.
Qed.

Lemma errors_ret {A} (r : CkResult A) : (forall rv, r = Err rv -> plain_error rv) -> errors_plain (ret r).
Proof. intros Hr env w rv w' H. apply ret_ok in H as [He _]. by apply Hr. Qed.

Lemma errors_resolved cid vs : errors_plain (resolved cid vs).
Proof.
  intros env w rv w' H. unfold resolved, critical, resolve_session in H.
  destruct (get_context _ _ _ _) as [r m]. destruct r as [[[b|] [s|]]|]; cbn in H; try discriminate H; injection H as <- _; plain.
Qed.

Lemma errors_installed state : forall rv, installed state = Err rv -> plain_error rv.
Proof. intros rv. unfold installed. destruct (shape state); [done|]. intros [= <-]. plain. Qed.

Lemma errors_sanitize b n : forall rv, check_sanitize b n = Err rv -> plain_error rv.
Proof. intros rv. unfold check_sanitize. case_match; [|done]. intros [= <-]. plain. Qed.

Lemma errors_lock now cid vs op fresh m rv m' : message_operation_lock now cid vs op fresh m = (Err rv, m') -> plain_error rv.
Proof.
  unfold message_operation_lock, get_context. repeat case_match; intros; simplify_eq/=; repeat case_match; simplify_eq/=; plain.
Qed.

(** Every error of the checks on a parameter is one of two. *)
Ltac errors_by_cases :=
  repeat (match goal with
          | |- (match ?x with _ => _ end = Err _) -> _ => destruct x eqn:?
          | |- ((if ?x then _ else _) = Err _) -> _ => destruct x
          end; cbn); try done; try (intros [= <-]; plain).

Lemma errors_extent (n : N) null rv : pointer_extent_len n null = Err rv -> plain_error rv.
Proof. unfold pointer_extent_len. errors_by_cases. Qed.
Lemma errors_generator (g : N) rv : validate_generator g = Err rv -> plain_error rv.
Proof. unfold validate_generator. errors_by_cases. Qed.

Lemma errors_gcm a b c d e g h rv : validate_gcm_fields a b c d e g h = Err rv -> plain_error rv.
Proof.
  unfold validate_gcm_fields. destruct (pointer_extent_len a b) eqn:?; [|intros [= <-]; by eapply errors_extent].
  destruct (_ || _); [intros [= <-]; plain|]. destruct (validate_generator d) eqn:?; [|intros [= <-]; by eapply errors_generator].
  destruct (pointer_extent_len e g) eqn:?; [|intros [= <-]; by eapply errors_extent]. errors_by_cases.
Qed.
Lemma errors_ccm a b c d e g h rv : validate_ccm_fields a b c d e g h = Err rv -> plain_error rv.
Proof.
  unfold validate_ccm_fields. destruct (pointer_extent_len a b) eqn:?; [|intros [= <-]; by eapply errors_extent].
  destruct (negb _); [intros [= <-]; plain|]. destruct (_ || _); [intros [= <-]; plain|].
  destruct (validate_generator d) eqn:?; [|intros [= <-]; by eapply errors_generator].
  destruct (pointer_extent_len e g) eqn:?; [|intros [= <-]; by eapply errors_extent]. errors_by_cases.
Qed.
Lemma errors_salsa a b c d e rv : validate_salsa_fields a b c d e = Err rv -> plain_error rv.
Proof.
  unfold validate_salsa_fields. destruct (pointer_extent_len a c) eqn:?; [|intros [= <-]; by eapply errors_extent].
  destruct (salsa_nonce_extent _ _); [|intros [= <-]; plain].
  destruct (pointer_extent_len d e) eqn:?; [|intros [= <-]; by eapply errors_extent]. errors_by_cases.
Qed.

Lemma errors_wire_params p v rv : validate_structured_wire_params p v = Err rv -> plain_error rv.
Proof.
  assert (forall e, check_wire_version v = Err e -> plain_error e) as Hver
    by (intros e; unfold check_wire_version; destruct (_ <? v); [intros [= <-]; plain|done]).
  destruct p; cbn [validate_structured_wire_params]; [intros [= <-]; plain|..].
  1-3: destruct (check_wire_version v); [|intros [= <-]; by apply Hver].
  - apply errors_gcm.
  - apply errors_ccm.
  - apply errors_salsa.
  - unfold validate_opaque_wire_params. repeat case_match; try done; intros [= <-]; plain.
Qed.

Lemma errors_decode wire rv : decode_structured_message_parameter wire = Err rv -> plain_error rv.
Proof.
  destruct wire as [w|]; [|done]. cbn. unfold validate_structured_wire_parameter, MessageParameter_try_from.
  destruct (wm_params w) as [params|]; [|intros [= <-]; plain].
  destruct (validate_structured_wire_params params _) as [u|e] eqn:E; [|intros [= <-]; by eapply errors_wire_params].
  assert (forall e', validate_structured_wire_params params 0 = Err e' -> plain_error e') as H0 by (intros; by eapply errors_wire_params).
  destruct params; cbn [MessageParameter_try_from] in *; try done;
    (destruct (validate_structured_wire_params _ 0) as [u'|e'] eqn:E'; [done|]; intros [= <-]; by apply H0).
Qed.

(** ** Turns and their answers *)

(** The module keeps the contract of its output buffers, and its wrapper
    answers an error proper when it does not call the module. *)
Definition output_kept {T} (c : MessageCall T) : T -> Prop :=
  match c with
  | CallMessageExact _ _ _ _ _ spec _ | CallNextExact _ _ _ _ _ spec _ | CallSignMessageExact _ _ _ spec _ | CallSignNextExact _ _ _ spec _ =>
      fun r => CkOutputBufferResult_validate_for r.1 spec U64_MAX = Ok tt
  | CallMessageExactMsg _ _ _ _ _ spec _ | CallNextExactMsg _ _ _ _ _ spec _ =>
      fun r => CkOutputBufferResult_validate_for r.1.1 spec U64_MAX = Ok tt
  | _ => fun _ => True
  end.

Definition module_honest (module : MessageModule) : Prop :=
  forall (T : Set) (c : MessageCall T),
    match module T c with
    | MintDone (Ok v) => output_kept c v
    | MintDone (Err rv) => plain_error rv
    | _ => True
    end.

(** What the module reported. *)
Definition reported {T} (c : MessageCall T) : T -> option (CkOutputBufferResult * option MessageEffects) :=
  match c with
  | CallMessageExact _ _ _ _ _ _ _ | CallNextExact _ _ _ _ _ _ _ | CallSignMessageExact _ _ _ _ _ | CallSignNextExact _ _ _ _ _ =>
      fun r => Some (r.1, None)
  | CallMessageExactMsg _ _ _ _ _ _ _ | CallNextExactMsg _ _ _ _ _ _ _ => fun r => Some (r.1.1, Some r.2)
  | _ => fun _ => None
  end.

Lemma in_cell_answers {R} module granted fresh cid vs op (on_error : CkRv -> R) body (Q : option SentCall -> R -> Prop) env w t w' a :
  in_cell module granted fresh cid vs op on_error body env w = (t, w') ->
  (forall rv, plain_error rv -> Q None (on_error rv)) ->
  (forall state, errors_plain (body state)) ->
  (forall state env w wk w', body state env w = (Ok wk, w') ->
     match wk with
     | @MkWork _ T A call settle answer =>
         forall result a, (run_worker state settle (module T call)).1 = Some result -> answer result = Some a ->
           Q (work_sent module wk) a
     end) ->
  tu_answer t = Some a -> Q (tu_call t) a.
Proof.
  intros H Herr Hplain Hw. unfold in_cell in H. apply bind_ok in H as (lock & w1 & Hl & H).
  destruct lock as [cell|e].
  2: { apply ret_ok in H as [<- _]. intros [= <-]. apply Herr. unfold critical in Hl.
       destruct (message_operation_lock _ _ _ _ _ _) as [r m] eqn:El. injection Hl as -> _. by eapply errors_lock. }
  apply bind_ok in H as (state & w2 & _ & H). apply bind_ok in H as (prepared & w3 & Hp & H).
  destruct prepared as [wk|rv]; [|apply ret_ok in H as [<- _]; intros [= <-]; apply Herr; by eapply Hplain].
  apply Hw in Hp. destruct wk as [T A call settle answer]. apply bind_ok in H as (reply & w4 & Hr & H). injection Hr as <- _.
  destruct (run_worker state settle (module T call)) as [[result|] fate]; [|by apply ret_ok in H as [<- _]].
  apply ret_ok in H as [<- _]. cbn [tu_answer tu_call]. intros Ha. by eapply Hp.
Qed.

(** What a worker of the embedded kind can answer. *)
Lemma embedded_results {T A : Set} state successful (rv_of : T -> CkRv) (kept : T -> option A) reply result :
  (run_worker state (settle_embedded successful rv_of kept) reply).1 = Some result ->
  (exists v a, reply = MintDone (Ok v) /\ kept v = Some a /\ result = Ok a) \/
  (exists rv, result = Err rv /\ (plain_error rv \/ reply = MintDone (Err rv))).
Proof.
  unfold run_worker. destruct reply as [[v|e]|[late|]| |]; cbn; [destruct (kept v) as [a|] eqn:Ek|..]; intros [= <-].
  - left. eauto.
  - right. eexists. split; [done|]. left. plain.
  - right. eauto.
  - right. eexists. split; [done|]. left. plain.
  - right. eexists. split; [done|]. left. plain.
  - right. eexists. split; [done|]. left. plain.
Qed.

Lemma ack_is_translated output r spec : parameter_ack_matches r spec (or_ck_rv output) = true -> r = translate_parameter_ack output spec.
Proof.
  unfold parameter_ack_matches, rv_eqb, translate_parameter_ack. intros H. apply andb_true_iff in H as [H1 H3].
  apply andb_true_iff in H1 as [H1 H2]. apply bool_decide_eq_true in H1, H3. apply N.eqb_eq in H2. destruct r; cbn in *. congruence.
Qed.

Section exact.
Context (ctx : HandlerContext) (struct_size : MessageParameterShape -> N) (module : MessageModule).
Context (granted : MsgRef -> MessageOperationState) (fresh_ref : MessageOperation -> MsgRef).
Context (Hmodule : module_honest module).
Context (req : ParameterOutputExactRequest) (requested : option MessageParameter).
(** The client's own parameter is what it sent. *)
Context (Hreq : match xq_message_parameter req, requested with
                | Some wire, Some p => MessageParameter_try_from wire = Ok p
                | None, None => True
                | _, _ => False
                end).

(** The client's reading of an answer: an error without effects, or exactly
    the module's report. *)
Definition client_reads (f : ParameterOutputFunction) (called : option SentCall) (answer : ParameterOutputExactResponse) : Prop :=
  exists output ack effects,
    decode_parameter_output_exact_response answer (xq_output req) (xq_param_out req) requested f (xq_flags req) = Ok (output, ack, effects) /\
    ((effects = None /\ exists rv, plain_error rv /\ output = CkOutputBufferResult_no_effects rv) \/
     exists (T : Set) (c : MessageCall T) v, called = Some (sent c) /\ module T c = MintDone (Ok v) /\ reported c v = Some (output, effects)).

Lemma reads_error f called rv : plain_error rv -> client_reads f called (error_response rv).
Proof.
  intros Hrv. exists (CkOutputBufferResult_no_effects rv), (MkRoundtripResult rv 0 None), None. split; [by apply decode_error|]. left. eauto.
Qed.

Lemma decoded_is_requested msg_param : decode_structured_message_parameter (xq_message_parameter req) = Ok msg_param -> msg_param = requested.
Proof using Hreq.
  unfold decode_structured_message_parameter. destruct (xq_message_parameter req) as [wire|], requested as [p|]; try done.
  - rewrite Hreq. destruct (validate_structured_wire_parameter wire); [|done]. by intros [= <-].
  - by intros [= <-].
Qed.

(** The works of the exact calls. *)
Lemma reads_kept_msg f (call : MessageCall (CkOutputBufferResult * CkParameterRoundtripResult * MessageEffects)) p spec successful state result :
  f <> FnWrapKeyAuthenticated -> requested = Some p ->
  (forall v, output_kept call v -> CkOutputBufferResult_validate_for v.1.1 (xq_output req) U64_MAX = Ok tt) ->
  (forall v, reported call v = Some (v.1.1, Some v.2)) ->
  (run_worker state (settle_embedded successful (fun r => or_ck_rv r.1.1) (exact_kept_msg f req spec p)) (module _ call)).1 = Some result ->
  client_reads f (match module _ call with MintRefused => None | _ => Some (sent call) end) (result_to_proto_msg result).
Proof using Hmodule.
  intros Hf Hp Hout Hrep Hrun. pose proof (Hmodule _ call) as Hm.
  apply embedded_results in Hrun as [(v & a & Hv & Hk & ->)|(rv & -> & [Hrv|Hv])].
  - rewrite Hv in Hm |- *. destruct v as [[output pr] effects]. cbn in Hk. destruct (_ && _) eqn:E; [|done]. injection Hk as <-.
    apply andb_true_iff in E as [_ Hval]. destruct (effects_validate_for _ _ _) as [[]|] eqn:Hv'; [|done].
    destruct (valid_effects_encode _ _ _ Hv') as [wire Hw]. cbn [result_to_proto_msg]. rewrite Hw.
    destruct (decode_kept f (xq_output req) (xq_param_out req) requested (xq_flags req) output (Some wire) effects Hf (Hout _ Hm)) as [ack Ha].
    { rewrite Hp. split; [by eapply decoded_wire|done]. }
    rewrite Hp in Ha. rewrite <- Hp in Ha. exists output, ack, (Some effects). split; [done|]. right.
    exists _, call, (output, pr, effects). split; [done|]. split; [done|]. apply Hrep.
  - by apply reads_error.
  - rewrite Hv in Hm. by apply reads_error.
Qed.

Lemma reads_kept f (call : MessageCall (CkOutputBufferResult * CkParameterRoundtripResult)) successful state result :
  f <> FnWrapKeyAuthenticated -> requested = None ->
  (forall v, output_kept call v -> CkOutputBufferResult_validate_for v.1 (xq_output req) U64_MAX = Ok tt) ->
  (forall v, reported call v = Some (v.1, None)) ->
  (run_worker state (settle_embedded successful (fun r => or_ck_rv r.1) (exact_kept (xq_param_out req))) (module _ call)).1 = Some result ->
  client_reads f (match module _ call with MintRefused => None | _ => Some (sent call) end) (result_to_proto result).
Proof using Hmodule.
  intros Hf Hp Hout Hrep Hrun. pose proof (Hmodule _ call) as Hm.
  apply embedded_results in Hrun as [(v & a & Hv & Hk & ->)|(rv & -> & [Hrv|Hv])].
  - rewrite Hv in Hm |- *. destruct v as [output pr]. cbn in Hk. destruct (parameter_ack_matches _ _ _) eqn:E; [|done]. injection Hk as <-.
    apply ack_is_translated in E as ->. cbn [result_to_proto].
    destruct (decode_kept f (xq_output req) (xq_param_out req) requested (xq_flags req) output None EffNone Hf (Hout _ Hm)) as [ack Ha].
    { by rewrite Hp. }
    rewrite Hp in Ha. rewrite <- Hp in Ha. exists output, ack, None. split; [by rewrite Hp in Ha |- *|]. right.
    eexists _, call, _. split; [done|]. split; [done|]. apply Hrep.
  - by apply reads_error.
  - rewrite Hv in Hm. by apply reads_error.
Qed.

Lemma errors_provider_spec shape msg_param rv : exact_provider_spec ctx struct_size req shape msg_param = Err rv -> plain_error rv.
Proof. unfold exact_provider_spec. repeat case_match; try done; intros [= <-]; plain. Qed.

Lemma errors_gates rv : exact_shape_gates ctx req = Err rv -> plain_error rv.
Proof.
  unfold exact_shape_gates. destruct (check_sanitize _ (xq_associated_data_null_len req)) eqn:?; [|intros [= <-]; by eapply errors_sanitize].
  destruct (check_sanitize _ (xq_input_data_null_len req)) eqn:?; [|intros [= <-]; by eapply errors_sanitize].
  destruct (_ && _); [intros [= <-]; plain|]. destruct (_ && _); [intros [= <-]; plain|done].
Qed.

Lemma crypt_reads op next env w t w' answer :
  crypt_message_exact ctx struct_size module granted fresh_ref op next req env w = (t, w') -> tu_answer t = Some answer ->
  client_reads (crypt_function op next) (tu_call t) answer.
Proof using Hmodule Hreq.
  intros H Ha. unfold crypt_message_exact in H. destruct (exact_shape_gates ctx req) as [u0|rv] eqn:Eg.
  2: { apply ret_ok in H as [<- _]. injection Ha as <-. apply reads_error. by eapply errors_gates. }
  assert (crypt_function op next <> FnWrapKeyAuthenticated) as Hf by by destruct op, next.
  refine (in_cell_answers _ _ _ _ _ _ _ _ (client_reads (crypt_function op next)) _ _ _ _ _ H _ _ _ Ha).
  - intros rv Hrv. by apply reads_error.
  - intros state. apply errors_bind; [apply errors_resolved|intros session]. apply errors_bind.
    { apply errors_ret. intros rv. destruct (_ || _); [intros [= <-]; plain|done]. }
    intros _. apply errors_bind; [apply errors_ret, errors_installed|intros s].
    apply errors_bind; [apply errors_ret, errors_decode|intros mp]. apply errors_bind; [apply errors_ret, errors_provider_spec|intros spec].
    by apply errors_ret.
  - intros state env' w1 wk w2 Hb. run_step Hb session w3. run_step Hb u w4. run_step Hb s w5. run_step Hb mp w6. run_step Hb spec w7.
    apply ret_ok in Hb as [[= <-] _]. apply decoded_is_requested in Hmp as ->. unfold exact_work.
    destruct requested as [p|] eqn:Ereq; intros result a Hrun [= <-]; destruct next.
    1,2: by eapply reads_kept_msg; [..|exact Hrun].
    all: assert (spec = xq_param_out req) as -> by (unfold exact_provider_spec in Hspec; repeat case_match; by simplify_eq).
    all: by eapply reads_kept; [..|exact Hrun].
Qed.

Lemma sign_reads next env w t w' answer :
  sign_message_exact ctx module granted fresh_ref next req env w = (t, w') -> tu_answer t = Some answer ->
  client_reads (if next then FnSignMessageNext else FnSignMessage) (tu_call t) answer.
Proof using Hmodule Hreq.
  intros H Ha. unfold sign_message_exact in H. destruct (check_sanitize _ _) as [u0|rv] eqn:Eg.
  2: { apply ret_ok in H as [<- _]. injection Ha as <-. apply reads_error. by eapply errors_sanitize. }
  set (f := if next then FnSignMessageNext else FnSignMessage). assert (f <> FnWrapKeyAuthenticated) as Hf by by destruct next.
  refine (in_cell_answers _ _ _ _ _ _ _ _ (client_reads f) _ _ _ _ _ H _ _ _ Ha).
  - intros rv Hrv. by apply reads_error.
  - intros state. apply errors_bind.
    { apply errors_ret. intros rv. destruct (_ || _); [intros [= <-]; plain|done]. }
    intros _. apply errors_bind; [apply errors_resolved|intros session].
    apply errors_bind; [apply errors_ret, errors_installed|intros s]. by apply errors_ret.
  - intros state env' w1 wk w2 Hb. run_step Hb u w3. run_step Hb session w4. run_step Hb s w5.
    apply ret_ok in Hb as [[= <-] _].
    assert (requested = None) as Hnone.
    { destruct (xq_message_parameter req), requested; try done. cbn in Hu. by rewrite !orb_true_r in Hu. }
    intros result a Hrun [= <-]. destruct next; by eapply reads_kept; [..|exact Hrun].
Qed.
End exact.

(** C25: The client accepts every answer of the daemon to a message function, and
    reads from it exactly the output and the effects the module reported, or an
    error without effects; never a part of a report, and never effects the
    module did not have.  The module is assumed to keep the contract of its
    output buffers ([module_honest]), and the client's parameter to be the one
    it sent. *)
Theorem client_reads_module_report ctx struct_size module granted fresh_ref wrap req requested f env w t w' answer :
  module_honest module ->
  match xq_message_parameter req, requested with
  | Some wire, Some p => MessageParameter_try_from wire = Ok p
  | None, None => True
  | _, _ => False
  end ->
  parameter_output_function_from_i32 (xq_function req) = Some f -> f <> FnWrapKeyAuthenticated ->
  parameter_output_exact ctx struct_size module granted fresh_ref wrap req env w = (t, w') -> tu_answer t = Some answer ->
  client_reads module req requested f (tu_call t) answer.
Proof.
  intros Hm Hreq Hf Hw H Ha. unfold parameter_output_exact in H. rewrite Hf in H.
  destruct (negb _); [by apply ret_ok in H as [<- _]|].
  destruct f; [eapply (crypt_reads _ _ _ _ _ Hm _ _ Hreq Encrypt false)|eapply (crypt_reads _ _ _ _ _ Hm _ _ Hreq Decrypt false)
    |eapply (sign_reads _ _ _ _ Hm _ _ Hreq false)|eapply (crypt_reads _ _ _ _ _ Hm _ _ Hreq Encrypt true)
    |eapply (crypt_reads _ _ _ _ _ Hm _ _ Hreq Decrypt true)|eapply (sign_reads _ _ _ _ Hm _ _ Hreq true)|done]; eauto.
Qed.

(** The module of the demonstration, for buffers of its output's length. *)
Definition honest_module : MessageModule := fun T c =>
  match c with
  | CallMessageExactMsg _ _ _ _ _ spec _ =>
      if sp_buffer_present spec && (sp_buffer_len spec =? 2) && negb (sp_length_pointer_null spec) then demo_message_module T c else MintRefused
  | _ => MintRefused
  end.

Lemma demo_module_honest : module_honest honest_module.
Proof.
  intros T c. unfold honest_module. destruct c; try exact I. destruct output_spec as [[] len []]; try exact I.
  { cbn. rewrite andb_false_r. exact I. }
  cbn. destruct (N.eqb_spec len 2) as [->|]; [|exact I]. destruct parameter; [exact I| |exact I..]. vm_compute. reflexivity.
Qed.

Definition demo_answered : ParameterOutputExactResponse :=
  MkExactResponse (Some (MkWireEffects (Some (WEffGcm None (Some [7; 7]))))) (Some (MkWireOutput 0 2 (Some [1; 2]) (Some true)))
    (Some (MkRoundtripResult Rv.OK 48 (Some []))) None.

Lemma client_reads_module_report_witness :
  exists called, client_reads honest_module demo_exact_request (Some demo_parameter) FnEncryptMessage called demo_answered.
Proof.
  destruct (parameter_output_exact demo_hctx (fun _ => 48) honest_module (fun _ => MkMsgState (Some Gcm)) (fun _ => 5) (ret None)
              demo_exact_request demo_env demo_world) as [t w'] eqn:E.
  assert (tu_answer t = Some demo_answered) as Ha.
  { change t with (t, w').1. rewrite <- E. vm_compute. reflexivity. }
  exists (tu_call t).
  exact (client_reads_module_report demo_hctx (fun _ => 48) honest_module (fun _ => MkMsgState (Some Gcm)) (fun _ => 5) (ret None)
           demo_exact_request (Some demo_parameter) FnEncryptMessage demo_env demo_world t w' _ demo_module_honest eq_refl eq_refl
           ltac:(discriminate) E Ha).
Defined.

(** ** Begin *)

Lemma errors_structured p rv : validate_structured p = Err rv -> plain_error rv.
Proof. destruct p; cbn; [done|apply errors_gcm|apply errors_ccm|apply errors_salsa]. Qed.

Lemma errors_spec_of size sanitize s caller p rv : provider_spec_of size sanitize s caller p = Err rv -> plain_error rv.
Proof.
  unfold provider_spec_of. destruct p as [p|]; [|repeat case_match; try done; intros [= <-]; plain].
  unfold validate_structured_shape. destruct (negb (shape_matches s p)); [intros [= <-]; plain|].
  destruct (validate_structured p) eqn:?; [|intros [= <-]; by eapply errors_structured].
  repeat case_match; try done; intros [= <-]; plain.
Qed.

Lemma errors_begin_contract size sanitize s legacy spec wire rv :
  validate_message_begin_contract size sanitize s legacy spec wire = Err rv -> plain_error rv.
Proof.
  unfold validate_message_begin_contract. destruct (negb _); [intros [= <-]; plain|].
  destruct spec as [spec|]; [|destruct wire; [intros [= <-]; plain|done]]. destruct (is_some _); [intros [= <-]; plain|].
  destruct (decode_structured_message_parameter wire) eqn:?; [|intros [= <-]; by eapply errors_decode].
  destruct (provider_spec_of _ _ _ _ _) eqn:?; [done|]. intros [= <-]. by eapply errors_spec_of.
Qed.

(** What the module reported of a begin: its return value and effects. *)
Definition begin_reported {T} (c : MessageCall T) : T -> option (CkRv * option MessageEffects) :=
  match c with
  | CallBeginMsg _ _ _ _ _ => fun r => Some (rr_ck_rv r.1, Some r.2)
  | CallBeginExact _ _ _ _ => fun r => Some (rr_ck_rv r, None)
  | _ => fun _ => None
  end.

Section begin.
Context (op : MessageOperation) (Hop : sign_or_verify op = false).
Context (module : MessageModule) (Hmodule : module_honest module) (spec : CkParameterRoundtripSpec) (requested : option MessageParameter).

(** The client's reading of an answer to a begin with a contract. *)
Definition client_reads_begin (called : option SentCall) (a : MessageBeginWireResult) : Prop :=
  match decode_message_begin_contract_response (bs_rv a) [] (bs_parameter_result a) None (bs_message_effects a) spec requested
          (bool_decide (op = Decrypt)) with
  | Ok (ack, effects) =>
      exists (T : Set) (c : MessageCall T) v, called = Some (sent c) /\ module T c = MintDone (Ok v) /\
        begin_reported c v = Some (rr_ck_rv ack, effects)
  | Err (BackendError rv) => plain_error rv
  | Err ProtocolError => False
  end.

Lemma reads_begin_error called rv : plain_error rv -> client_reads_begin called (message_begin_error rv).
Proof.
  intros Hrv. pose proof Hrv as (Hok & _). unfold client_reads_begin, decode_message_begin_contract_response. cbn.
  assert (CkRv_is_err rv = true) as ->; [|done]. unfold CkRv_is_err. destruct (N.eqb_spec (rv_raw rv) (rv_raw Rv.OK)) as [E|]; [|done].
  destruct Hok. destruct rv. cbn in E. by subst.
Qed.

(** The worker of a begin, for either call. *)
Lemma reads_begin_work {T : Set} (call : MessageCall T) (g : T -> CkParameterRoundtripResult * option MessageEffects)
    contract caller successful state result a :
  rs_buffer_len caller = rs_buffer_len spec -> rs_buffer_present caller = rs_buffer_present spec ->
  mbc_parameter contract = requested ->
  (forall v, begin_reported call v = Some (rr_ck_rv (g v).1, (g v).2)) ->
  (run_worker state (settle_embedded successful (fun r => rr_ck_rv (g r).1) (fun r => begin_kept op contract (g r))) (module _ call)).1
    = Some result ->
  begin_answer true caller result = Some a ->
  client_reads_begin (match module _ call with MintRefused => None | _ => Some (sent call) end) a.
Proof using Hmodule Hop.
  intros Hlen Hpres Hp Hrep Hrun Ha. pose proof (Hmodule _ call) as Hm. injection Ha as <-.
  apply embedded_results in Hrun as [(v & k & Hv & Hk & ->)|(rv & -> & [Hrv|Hv])].
  2: by apply reads_begin_error.
  2: rewrite Hv in Hm; by apply reads_begin_error.
  rewrite Hv in Hm |- *. specialize (Hrep v). destruct (g v) as [ack returned]. cbn in Hk. rewrite Hp in Hk. cbn in Hrep.
  destruct (_ || _) eqn:E; [done|]. injection Hk as <-. apply orb_false_iff in E as [_ Hval]. apply negb_false_iff in Hval.
  assert (bool_decide (op = Encrypt) = negb (bool_decide (op = Decrypt))) as Hdir by by destruct op.
  destruct requested as [p|] eqn:Er, returned as [effects|]; try done.
  - destruct (effects_validate_for _ _ _) as [[]|] eqn:Ev; [|done]. destruct (valid_effects_encode _ _ _ Ev) as [wire Hw].
    rewrite Hw. unfold client_reads_begin, decode_message_begin_contract_response.
    cbn [bs_rv bs_parameter_result bs_message_effects is_some negb andb orb rr_ck_rv rr_returned_len rr_value]. rewrite !andb_false_r.
    rewrite bool_decide_eq_true_2 by done. cbn [negb orb]. rewrite rv_eqb_refl, Hlen, N.eqb_refl, Hpres, bool_decide_eq_true_2 by done.
    cbn [negb orb]. rewrite Er. rewrite (decoded_wire _ _ _ _ Ev Hw). unfold begin_effect_context in Ev. rewrite Hdir in Ev.
    rewrite Ev. cbn [Result_is_ok]. exists T, call, v. done.
  - unfold client_reads_begin, decode_message_begin_contract_response.
    cbn [bs_rv bs_parameter_result bs_message_effects is_some negb andb orb rr_ck_rv rr_returned_len rr_value]. rewrite !andb_false_r.
    rewrite bool_decide_eq_true_2 by done. cbn [negb orb andb]. rewrite rv_eqb_refl, Hlen, N.eqb_refl, Hpres, bool_decide_eq_true_2 by done.
    cbn [negb orb]. rewrite Er. exists T, call, v. done.
Qed.
End begin.

(** The client likewise accepts every answer to a begin, and reads the
    module's return value and effects, or an error. *)
Theorem client_reads_begin_report ctx struct_size module granted fresh_ref op req spec requested env w t w' a :
  module_honest module -> sign_or_verify op = false -> bq_parameter_out_spec req = Some spec ->
  match bq_message_parameter req, requested with
  | Some wire, Some p => MessageParameter_try_from wire = Ok p
  | None, None => True
  | _, _ => False
  end ->
  crypt_message_begin ctx struct_size module granted fresh_ref op req env w = (t, w') -> tu_answer t = Some a ->
  client_reads_begin op module spec requested (tu_call t) a.
Proof.
  intros Hm Hop Hspec Hreq H Ha. unfold crypt_message_begin in H. destruct (_ && _); [by apply ret_ok in H as [<- _]|].
  refine (in_cell_answers _ _ _ _ _ _ _ _ (client_reads_begin op module spec requested) _ _ _ _ _ H _ _ _ Ha).
  - intros rv Hrv. by apply reads_begin_error.
  - intros state. apply errors_bind; [apply errors_resolved|intros session].
    apply errors_bind; [apply errors_ret, errors_sanitize|intros _]. apply errors_bind; [apply errors_ret, errors_installed|intros s].
    apply errors_bind; [apply errors_ret; intros rv; apply errors_begin_contract|intros contract]. by apply errors_ret.
  - intros state env' w1 wk w2 Hb. run_step Hb session w3. run_step Hb u w4. run_step Hb s w5. run_step Hb contract w6.
    apply ret_ok in Hb as [[= <-] _]. unfold validate_message_begin_contract in Hcontract. rewrite Hspec in Hcontract.
    destruct (negb _); [done|]. destruct (is_some (rs_value spec)); [done|].
    destruct (decode_structured_message_parameter _) as [p'|] eqn:Ed; [|done].
    assert (p' = requested) as ->.
    { unfold decode_structured_message_parameter in Ed. destruct (bq_message_parameter req) as [wire|], requested as [p|]; try done.
      - rewrite Hreq in Ed. destruct (validate_structured_wire_parameter wire); [|done]. by injection Ed as <-.
      - by injection Ed as <-. }
    destruct (provider_spec_of _ _ _ _ _) as [ps|]; [|done]. injection Hcontract as <-.
    unfold begin_work. cbn [is_some]. change (default default_begin_contract (Some ?c)) with c.
    cbn [mbc_parameter mbc_provider_spec mbc_caller_spec]. destruct requested as [p|] eqn:Er; intros result a' Hrun Ha'.
    + by eapply (reads_begin_work op Hop module Hm spec (Some p) _ (fun r => (r.1, Some r.2))); [| | | |exact Hrun|exact Ha'].
    + by eapply (reads_begin_work op Hop module Hm spec None _ (fun r => (r, None))); [| | | |exact Hrun|exact Ha'].
Qed.
