(* ===== verification/AuthParams.v ===== *)
(** * Parameters of authenticated wrapping

    Models [crates/proto/src/convert/authenticated.rs]: the structured
    parameters of [C_WrapKeyAuthenticated] and [C_UnwrapKeyAuthenticated], what
    the module may report on them, and the wire form of the report. *)

From S2P Require Import Prelude Ck Context Mech Shapes Registry Params MessageParams.
Open Scope N_scope.

Inductive AuthenticatedOutput :=
| AoUnchanged
| AoIv (iv : SecretBytes)
| AoMessage (output : MessageParameter)
| AoEffects (effects : MessageEffects)
| AoInvalid (violation : OutputContractViolation).

Definition CKM_CHACHA20_POLY1305 : N := 16417.
Definition CKM_SALSA20_POLY1305 : N := 16418.
Definition CKM_GOSTR3410_KEY_WRAP : N := 4611.

(** The registry is the embedded default, without overrides. *)
Definition pointer_free_iv_shape (mechanism : CkMechanismType) : bool :=
  bool_decide (param_shape load_base mechanism = Some "iv").

Definition default_registry_opaque_admits (mechanism : CkMechanismType) : bool :=
  message_opaque_admits_mechanism load_base mechanism true.

Definition legacy_parameter_supported (mechanism : CkMechanism) : bool :=
  match mechanism_params mechanism with
  | None => true
  | Some (P_Iv _) => pointer_free_iv_shape (mechanism_type mechanism)
  | Some _ => false
  end.

Definition authenticated_shape (mechanism : CkMechanismType) : MessageParameterShape :=
  if mechanism =? CKM_AES_GCM then Gcm
  else if mechanism =? CKM_AES_CCM then Ccm
  else if (mechanism =? CKM_CHACHA20_POLY1305) || (mechanism =? CKM_SALSA20_POLY1305) then SalsaChacha
  else Unmodeled.

(** Opaque bytes with content. *)
Definition nonempty_raw (parameter : MessageParameter) : bool :=
  match parameter with Raw (_ :: _) => true | _ => false end.

Definition validate_input (mechanism : CkMechanism) (parameter : option MessageParameter) : CkResult unit :=
  match parameter with
  | Some parameter =>
      let? _ := validate_structured parameter in
      if is_some (mechanism_params mechanism) || negb (shape_matches (authenticated_shape (mechanism_type mechanism)) parameter)
      then Err Rv.MECHANISM_PARAM_INVALID
      else if bool_decide (authenticated_shape (mechanism_type mechanism) = Unmodeled) && nonempty_raw parameter
              && negb (default_registry_opaque_admits (mechanism_type mechanism))
      then Err Rv.MECHANISM_PARAM_INVALID
      else Ok tt
  | None =>
      match mechanism_params mechanism with
      | None => Ok tt
      | Some (P_Iv _) => if pointer_free_iv_shape (mechanism_type mechanism) then Ok tt else Err Rv.MECHANISM_PARAM_INVALID
      | Some (P_Gostr3410KeyWrap _) =>
          if mechanism_type mechanism =? CKM_GOSTR3410_KEY_WRAP then Ok tt else Err Rv.MECHANISM_PARAM_INVALID
      | Some _ => Err Rv.MECHANISM_PARAM_INVALID
      end
  end.

(** [wire::AuthenticatedParameters] *)
Record AuthenticatedParameters := MkAuthenticatedParameters { ap_message_parameter : option WireMessageParameter }.

Definition decode_parameters (mechanism : CkMechanism) (wire : AuthenticatedParameters) : CkResult (option MessageParameter) :=
  let? parameter :=
    match ap_message_parameter wire with
    | None => Ok None
    | Some message =>
        let? _ := validate_structured_wire_parameter message in
        let? decoded := MessageParameter_try_from message in Ok (Some decoded)
    end in
  let? _ := validate_input mechanism parameter in
  Ok parameter.

(** ** What the module may report *)

Definition authenticated_context (mode : ParameterEffectCallMode) (rv : CkRv) : MessageEffectContext :=
  MkEffectContext mode true true true rv.

Definition AuthenticatedOutput_validate_for (self : AuthenticatedOutput) (mechanism : CkMechanism)
    (parameter : option MessageParameter) : CkResult unit :=
  let? _ := validate_input mechanism parameter in
  match self, parameter, mechanism_params mechanism with
  | AoEffects effects, Some input, None => effects_validate_for effects input (authenticated_context Data Rv.OK)
  | AoMessage output, Some input, None =>
      if same_layout_and_scalars input output then validate_structured output else Err Rv.MECHANISM_PARAM_INVALID
  | AoIv output, None, Some (P_Iv input) =>
      if Nat.eqb (length output) (length (Iv_iv input)) then Ok tt else Err Rv.MECHANISM_PARAM_INVALID
  | AoUnchanged, None, None => Ok tt
  | AoUnchanged, None, Some (P_Gostr3410KeyWrap _) => Ok tt
  | _, _, _ => Err Rv.MECHANISM_PARAM_INVALID
  end.

Definition AuthenticatedOutput_validate_exact_for (self : AuthenticatedOutput) (mechanism : CkMechanism)
    (parameter : option MessageParameter) (rv : CkRv) (mode : ParameterEffectCallMode) : CkResult unit :=
  match self, parameter with
  | AoEffects effects, Some input =>
      let? _ := validate_input mechanism parameter in
      effects_validate_for effects input (authenticated_context mode rv)
  | AoMessage _, _ | AoInvalid _, _ => Err Rv.DEVICE_ERROR
  | _, _ => AuthenticatedOutput_validate_for self mechanism parameter
  end.

(** ** The wire form *)

Inductive WireAuthenticatedValue :=
| WaUnchanged (b : bool)
| WaIv (iv : list N)
| WaMessageParameter (message : WireMessageParameter)
| WaMessageEffects (effects : WireMessageParameterEffects).

(** [wire::AuthenticatedMechanismOutput] *)
Record AuthenticatedMechanismOutput := MkAuthenticatedMechanismOutput { wa_output : option WireAuthenticatedValue }.

Definition AuthenticatedOutput_to_wire (output : AuthenticatedOutput) : CkResult AuthenticatedMechanismOutput :=
  match output with
  | AoUnchanged => Ok (MkAuthenticatedMechanismOutput (Some (WaUnchanged true)))
  | AoIv iv => Ok (MkAuthenticatedMechanismOutput (Some (WaIv iv)))
  | AoMessage message => Ok (MkAuthenticatedMechanismOutput (Some (WaMessageParameter (MessageParameter_to_wire message))))
  | AoEffects effects =>
      let? effects := effects_to_wire effects in Ok (MkAuthenticatedMechanismOutput (Some (WaMessageEffects effects)))
  | AoInvalid _ => Err Rv.DEVICE_ERROR
  end.

(** The decoders, over a borrowed and over an owned message. *)
Definition AuthenticatedOutput_decode (decode : WireMessageParameter -> CkResult MessageParameter) (output : AuthenticatedMechanismOutput)
  : CkResult AuthenticatedOutput :=
  match wa_output output with
  | Some (WaUnchanged true) => Ok AoUnchanged
  | Some (WaIv iv) => Ok (AoIv iv)
  | Some (WaMessageParameter message) =>
      let? _ := validate_structured_wire_parameter message in
      let? message := decode message in Ok (AoMessage message)
  | Some (WaMessageEffects effects) => let? effects := effects_from_wire effects in Ok (AoEffects effects)
  | Some (WaUnchanged false) => Err Rv.MECHANISM_PARAM_INVALID
  | None => Err ABSENT_MESSAGE_ONEOF_RV
  end.

Definition AuthenticatedOutput_try_from : AuthenticatedMechanismOutput -> CkResult AuthenticatedOutput :=
  AuthenticatedOutput_decode MessageParameter_try_from.
Definition AuthenticatedOutput_try_from_owned : AuthenticatedMechanismOutput -> CkResult AuthenticatedOutput :=
  AuthenticatedOutput_decode MessageParameter_try_from_owned.

(** ** Reports that are accepted *)

Lemma generated_weaken mode rv g :
  generated (authenticated_context mode rv) g = true -> generated (authenticated_context Data Rv.OK) g = true.
Proof.
  unfold generated. cbn. destruct (negb (g =? NO_GENERATE)); [|done]. cbn. intros _. by rewrite !orb_true_r.
Qed.

Lemma auth_weaken mode rv : auth (authenticated_context mode rv) = true -> auth (authenticated_context Data Rv.OK) = true.
Proof. done. Qed.

Lemma effect_weaken (c c' : bool) null_len bytes e :
  (c = true -> c' = true) -> effect_fits e (effect_of c null_len bytes) = true -> effect_fits e (effect_of c' null_len bytes) = true.
Proof. unfold effect_of. destruct c; [intros H; by rewrite H|]. intros _. by destruct e. Qed.

(** A report that is acceptable for the call's mode and return value is
    acceptable for a successful call with a buffer. *)
Lemma effects_weaken e input mode rv :
  effects_validate_for e input (authenticated_context mode rv) = Ok tt ->
  effects_validate_for e input (authenticated_context Data Rv.OK) = Ok tt.
Proof.
  unfold effects_validate_for. destruct (validate_structured input); [|done].
  destruct (effects_match e (capture input input (authenticated_context mode rv)) && effects_prefix e input) eqn:E; [|done]. intros _.
  apply andb_true_iff in E as [Em ->]. rewrite andb_true_r.
  assert (effects_match e (capture input input (authenticated_context Data Rv.OK)) = true) as ->; [|done].
  revert Em. unfold capture. destruct (negb (same_layout_and_scalars input input)); [done|].
  destruct input, e; cbn; try done; rewrite ?andb_true_iff; intros; destruct_and?; split_and?;
    (eapply effect_weaken; [|eassumption]); eauto using generated_weaken, auth_weaken.
Qed.

Lemma exact_output_accepted o mechanism parameter rv mode :
  AuthenticatedOutput_validate_exact_for o mechanism parameter rv mode = Ok tt ->
  AuthenticatedOutput_validate_for o mechanism parameter = Ok tt.
Proof.
  unfold AuthenticatedOutput_validate_exact_for. destruct o, parameter as [input|]; try done.
  unfold AuthenticatedOutput_validate_for, validate_input. destruct (validate_structured input); [|done].
  destruct (mechanism_params mechanism); [done|]. cbn [is_some orb]. destruct (negb _); [done|]. destruct (_ && _ && _); [done|].
  apply effects_weaken.
Qed.

(** An accepted report survives the wire, unless it is for opaque bytes. *)
Lemma authenticated_output_roundtrip o mechanism parameter :
  AuthenticatedOutput_validate_for o mechanism parameter = Ok tt -> (forall data, parameter <> Some (Raw data)) ->
  exists w, AuthenticatedOutput_to_wire o = Ok w /\ AuthenticatedOutput_try_from_owned w = Ok o /\ AuthenticatedOutput_try_from w = Ok o.
Proof.
  unfold AuthenticatedOutput_validate_for. intros H Hraw. destruct (validate_input mechanism parameter); [|done].
  destruct o as [|iv|message|effects|]; [by eexists|by eexists| | |by destruct parameter, (mechanism_params mechanism)].
  - destruct parameter as [input|], (mechanism_params mechanism); try done.
    destruct (same_layout_and_scalars input message) eqn:El; [|done].
    assert (forall data, message <> Raw data) as Hm.
    { intros data ->. destruct input; try done. by destruct (Hraw data0). }
    eexists. split; [done|]. unfold AuthenticatedOutput_try_from_owned, AuthenticatedOutput_try_from, AuthenticatedOutput_decode.
    cbn [wa_output]. rewrite validate_wire_of_structured, H by done. rewrite try_from_owned_eq, try_from_to_wire by done. done.
  - destruct parameter as [input|], (mechanism_params mechanism); try done.
    assert (exists w, effects_to_wire effects = Ok w /\ effects_from_wire w = Ok effects) as (w & Hw & Hf).
    { unfold effects_validate_for in H. destruct (validate_structured input); [|done].
      destruct (effects_match _ _ && _) eqn:E; [|done]. apply andb_true_iff in E as [E _]. unfold capture in E.
      destruct (negb _); [by destruct effects|]. destruct effects, input; try done; try (by eexists). by destruct (Hraw data). }
    exists (MkAuthenticatedMechanismOutput (Some (WaMessageEffects w))).
    unfold AuthenticatedOutput_to_wire, AuthenticatedOutput_try_from_owned, AuthenticatedOutput_try_from, AuthenticatedOutput_decode.
    cbn [wa_output]. by rewrite Hw, Hf.
Qed.

(** Opaque bytes are acceptable parameters of an authenticated wrap, and the
    client sends them in the legacy encoding, which the daemon refuses. *)
Theorem opaque_authenticated_parameter_refused mechanism data :
  decode_parameters mechanism (MkAuthenticatedParameters (Some (MessageParameter_to_wire (Raw data)))) = Err Rv.MECHANISM_PARAM_INVALID.
Proof. reflexivity. Qed.

Example opaque_authenticated_parameter_valid : validate_input (MkCkMechanism 4226 None) (Some (Raw [1; 2])) = Ok tt.
Proof. vm_compute. reflexivity. Qed.
