(* ===== verification/Classic.v ===== *)
(** * Requests that forward one native call

    Models the handlers of the operations that are not message-based:
    [grpc_service/digest_cipher/cipher.rs] and [digest.rs],
    [sign_verify/sign.rs], [verify.rs] and [verify_signature.rs],
    [combined/], [state_ops/random.rs], [get_operation_state] of
    [state_ops/operation_state.rs], and [byte_output_exact.rs] but for its
    wrapping arm, which is in [Wrap].

    Each handler resolves the caller's handles, takes the mechanism through the
    gates, and sends one call to the module; the module is a function from
    calls to replies.  The mechanism of a request is what the wire decoder
    makes of it, [None] if it is absent.  The data-plane audit records of some
    handlers never change an answer and are not modelled. *)

From S2P Require Import Prelude Ck Width HandleMap SlotMap Connection Context Manager Session Mech Grant Policy Handler Authorize.
From S2P Require Import Shapes Registry Params Validate Embedded KeyGen Attributes Lifecycle InitGate MessageParams Message AuthParams.
Open Scope N_scope.

(** ** Native calls *)

Inductive ByteOutputFunction :=
| BofSign | BofSignFinal | BofSignRecover | BofVerifyRecover | BofDigest | BofDigestFinal
| BofEncrypt | BofEncryptUpdate | BofEncryptFinal | BofDecrypt | BofDecryptUpdate | BofDecryptFinal
| BofDigestEncryptUpdate | BofDecryptDigestUpdate | BofSignEncryptUpdate | BofDecryptVerifyUpdate
| BofWrapKey | BofGetOperationState.

#[export] Instance ByteOutputFunction_eq_dec : EqDecision ByteOutputFunction.
Proof. solve_decision. Defined.

Definition byte_output_functions : list ByteOutputFunction :=
  [BofSign; BofSignFinal; BofSignRecover; BofVerifyRecover; BofDigest; BofDigestFinal; BofEncrypt; BofEncryptUpdate;
   BofEncryptFinal; BofDecrypt; BofDecryptUpdate; BofDecryptFinal; BofDigestEncryptUpdate; BofDecryptDigestUpdate;
   BofSignEncryptUpdate; BofDecryptVerifyUpdate; BofWrapKey; BofGetOperationState].

(** The wire numbers the functions from 1. *)
Definition byte_output_function_from_i32 (value : Z) : option ByteOutputFunction :=
  if (value <? 1)%Z then None else byte_output_functions !! Z.to_nat (value - 1).

(** The functions whose only argument is the session. *)
Definition session_only (f : ByteOutputFunction) : bool :=
  match f with BofSignFinal | BofDigestFinal | BofEncryptFinal | BofDecryptFinal | BofGetOperationState => true | _ => false end.

Inductive InitFunction :=
| EncryptInit | DecryptInit | DigestInit | SignInit | SignRecoverInit | VerifyInit | VerifyRecoverInit.

(** Functions that take one buffer and return nothing. *)
Inductive FeedFunction := DigestUpdate | SignUpdate | VerifyUpdate | VerifyFinal | VerifySignature | VerifySignatureUpdate | SeedRandom.

(** [CkOutputAndHandleResult] *)
Record CkOutputAndHandleResult := MkOutputAndHandle {
  oh_ck_rv : CkRv; oh_returned_len : option N; oh_value : option SecretBytes; oh_object_handle : option CkObjectHandle }.

Inductive NativeCall : Type -> Type :=
| NcInitCancel (f : InitFunction) (session : CkSessionHandle) : NativeCall unit
| NcCipherInit (f : InitFunction) (session : CkSessionHandle) (mechanism : ValidatedMechanismParams) (key : CkObjectHandle)
  : NativeCall (option CkMechanismParams)
| NcKeyedInit (f : InitFunction) (session : CkSessionHandle) (mechanism : ValidatedMechanismParams) (key : CkObjectHandle)
  : NativeCall unit
| NcDigestInit (session : CkSessionHandle) (mechanism : ValidatedMechanismParams) : NativeCall unit
| NcVerifySignatureInit (session : CkSessionHandle) (mechanism : option ValidatedMechanismParams) (key : CkObjectHandle)
    (signature : CkInBuf) : NativeCall unit
| NcBytes (f : ByteOutputFunction) (session : CkSessionHandle) (input : CkInBuf) : NativeCall SecretBytes
| NcSessionBytes (f : ByteOutputFunction) (session : CkSessionHandle) : NativeCall SecretBytes
| NcFeed (f : FeedFunction) (session : CkSessionHandle) (input : CkInBuf) : NativeCall unit
| NcVerify (session : CkSessionHandle) (data signature : CkInBuf) : NativeCall unit
| NcVerifySignatureFinal (session : CkSessionHandle) : NativeCall unit
| NcDigestKey (session : CkSessionHandle) (key : CkObjectHandle) : NativeCall unit
| NcGenerateRandom (session : CkSessionHandle) (len : N) : NativeCall SecretBytes
| NcBytesExact (f : ByteOutputFunction) (session : CkSessionHandle) (input : CkInBuf) (spec : CkOutputBufferSpec)
  : NativeCall CkOutputBufferResult
| NcEncryptExact (session : CkSessionHandle) (input : CkInBuf) (spec : CkOutputBufferSpec)
  : NativeCall (CkOutputBufferResult * option CkMechanismParams)
| NcSessionBytesExact (f : ByteOutputFunction) (session : CkSessionHandle) (spec : CkOutputBufferSpec) : NativeCall CkOutputBufferResult
| NcWrap (session : CkSessionHandle) (mechanism : ValidatedMechanismParams) (wrapping_key key : CkObjectHandle) : NativeCall SecretBytes
| NcWrapExact (session : CkSessionHandle) (mechanism : ValidatedMechanismParams) (wrapping_key key : CkObjectHandle)
    (spec : CkOutputBufferSpec) : NativeCall (CkOutputBufferResult * option CkMechanismParams)
| NcWrapTyped (session : CkSessionHandle) (mechanism : ValidatedMechanismParams) (parameter : option MessageParameter)
    (wrapping_key key : CkObjectHandle) (aad : CkInBuf) : NativeCall (SecretBytes * AuthenticatedOutput)
| NcWrapAuthenticated (session : CkSessionHandle) (mechanism : ValidatedMechanismParams) (wrapping_key key : CkObjectHandle)
    (aad : CkInBuf) : NativeCall (SecretBytes * SecretBytes)
| NcWrapExactTyped (session : CkSessionHandle) (mechanism : ValidatedMechanismParams) (parameter : option MessageParameter)
    (wrapping_key key : CkObjectHandle) (aad : CkInBuf) (spec : CkOutputBufferSpec)
  : NativeCall (CkOutputBufferResult * AuthenticatedOutput)
| NcWrapAuthenticatedExact (session : CkSessionHandle) (mechanism : ValidatedMechanismParams) (wrapping_key key : CkObjectHandle)
    (aad : CkInBuf) (spec : CkOutputBufferSpec) (parameter_spec : CkParameterRoundtripSpec)
  : NativeCall (CkOutputBufferResult * CkParameterRoundtripResult)
| NcUnwrap (session : CkSessionHandle) (mechanism : ValidatedMechanismParams) (unwrapping_key : CkObjectHandle) (wrapped : CkInBuf)
    (template : option (list CkAttribute)) : NativeCall CkObjectHandle
| NcUnwrapTyped (session : CkSessionHandle) (mechanism : ValidatedMechanismParams) (parameter : option MessageParameter)
    (unwrapping_key : CkObjectHandle) (wrapped : CkInBuf) (template : option (list CkAttribute)) (aad : CkInBuf)
  : NativeCall (CkObjectHandle * AuthenticatedOutput)
| NcUnwrapAuthenticated (session : CkSessionHandle) (mechanism : ValidatedMechanismParams) (unwrapping_key : CkObjectHandle)
    (wrapped : CkInBuf) (template : option (list CkAttribute)) (aad : CkInBuf) : NativeCall (CkObjectHandle * SecretBytes)
| NcEncapsulate (session : CkSessionHandle) (mechanism : ValidatedMechanismParams) (public_key : CkObjectHandle)
    (template : option (list CkAttribute)) : NativeCall (SecretBytes * CkObjectHandle)
| NcEncapsulateExact (session : CkSessionHandle) (mechanism : ValidatedMechanismParams) (public_key : CkObjectHandle)
    (template : option (list CkAttribute)) (spec : CkOutputBufferSpec) : NativeCall CkOutputAndHandleResult
| NcDecapsulate (session : CkSessionHandle) (mechanism : ValidatedMechanismParams) (private_key : CkObjectHandle)
    (template : option (list CkAttribute)) (ciphertext : CkInBuf) : NativeCall CkObjectHandle.

Definition NativeSent : Type := sigT NativeCall.
Definition native_sent {T : Type} (c : NativeCall T) : NativeSent := existT T c.
Definition NativeModule : Type := forall T, NativeCall T -> MintReply T.

(** ** Forwarding *)

(** The answer ([None]: a transport [Status]) and the call that was made. *)
Record Served (R : Type) := MkServed { sv_answer : option R; sv_call : option NativeSent }.
Arguments MkServed {R} sv_answer sv_call.
Arguments sv_answer {R} s.
Arguments sv_call {R} s.

(** A call, and the answer to its result. *)
Inductive Forward (R : Type) :=
| MkForward {T : Type} (call : NativeCall T) (answer : CkResult T -> R).
Arguments MkForward {R T} call answer.

(** A refused call is none. *)
Definition call_made {T : Type} (call : NativeCall T) (reply : MintReply T) : option NativeSent :=
  match reply with MintRefused => None | _ => Some (native_sent call) end.

Section handlers.
Context (ctx : HandlerContext) (module : NativeModule) (source : option MechanismRegistry).
(** The wire encoder of mechanisms, and the output parameters the backend
    keeps for a session. *)
Context {WireMechanism : Type} (encode : CkMechanism -> CkResult WireMechanism).
Context (session_output_mechanism_params : CkSessionHandle -> option CkMechanismParams).

Definition forward {R} (on_error : CkRv -> R) (prepare : Handler (CkResult (Forward R))) : Handler (Served R) :=
  prepared <- prepare;;
  match prepared with
  | Err rv => ret (MkServed (Some (on_error rv)) None)
  | Ok (@MkForward _ T call answer) =>
      reply <- module_call (module T call);;
      ret (MkServed (answer <$> mint_observed reply) (call_made call reply))
  end.

Definition session_of (cid : ClientContextId) (virtual_session : N) : Handler (CkResult CkSessionHandle) :=
  critical (fun now => resolve_session now cid virtual_session).

(** The checks of several buffers, in order. *)
Definition check_sanitize_all (null_lens : list (option N)) : CkResult unit :=
  foldl (fun r null_len => let? _ := r in check_sanitize (hc_sanitize_inputs ctx) null_len) (Ok tt) null_lens.

(** A call on a session with buffers. *)
Definition session_data {R} (cid : ClientContextId) (virtual_session : N) (null_lens : list (option N))
    (call : CkSessionHandle -> Forward R) : Handler (CkResult (Forward R)) :=
  session <-? session_of cid virtual_session;;
  _ <-? ret (check_sanitize_all null_lens);;
  ret (Ok (call session)).

(** ** Answers *)

(** [ck_rv] and an output. *)
Record BytesResponse := MkBytesResponse { by_rv : CkRv; by_bytes : SecretBytes }.
Definition bytes_error (rv : CkRv) : BytesResponse := MkBytesResponse rv [].
Definition bytes_answer (result : CkResult SecretBytes) : BytesResponse :=
  match result with Ok bytes => MkBytesResponse Rv.OK bytes | Err rv => bytes_error rv end.

(** As above, with the parameters the module wrote. *)
Record CipherResponse := MkCipherResponse { ci_rv : CkRv; ci_bytes : SecretBytes; ci_mechanism_out : option WireMechanism }.
Definition cipher_error (rv : CkRv) : CipherResponse := MkCipherResponse rv [] None.

Definition CKM_TLS12_MASTER_KEY_DERIVE : N := 992.

Definition mechanism_output_to_proto (params : CkMechanismParams) : option WireMechanism :=
  let encoded t := match encode (MkCkMechanism t (Some params)) with Ok m => Some m | Err _ => None end in
  match params with
  | P_Gcm _ => encoded CKM_AES_GCM
  | P_Tls12MasterKeyDerive _ => encoded CKM_TLS12_MASTER_KEY_DERIVE
  | _ => None
  end.

Definition session_mechanism_out_if_ok (session : CkSessionHandle) (ck_rv : CkRv) : option WireMechanism :=
  if negb (rv_eqb ck_rv Rv.OK) then None else session_output_mechanism_params session ≫= mechanism_output_to_proto.

Definition cipher_answer (session : CkSessionHandle) (result : CkResult SecretBytes) : CipherResponse :=
  let answer := bytes_answer result in
  MkCipherResponse (by_rv answer) (by_bytes answer) (session_mechanism_out_if_ok session (by_rv answer)).

(** ** Operations that start with a mechanism *)

(** [parse_mechanism] *)
Definition parse_mechanism_opt (mechanism : option (CkResult CkMechanism)) : CkResult CkMechanism :=
  match mechanism with Some mechanism => mechanism | None => Err Rv.ARGUMENTS_BAD end.

Record ClassicInitRequest := MkClassicInit {
  in_context : ClientContextId; in_session : N; in_mechanism : option (CkResult CkMechanism); in_key : N }.

(** With the sanitizer a request without a mechanism is refused; otherwise it
    cancels the operation. *)
Definition init_or_cancel {R} (f : InitFunction) (cid : ClientContextId) (virtual_session : N)
    (mechanism : option (CkResult CkMechanism)) (answer : CkRv -> R) (init : Handler (CkResult (Forward R)))
  : Handler (CkResult (Forward R)) :=
  match mechanism with
  | Some _ => init
  | None =>
      if hc_sanitize_inputs ctx then ret (Err Rv.ARGUMENTS_BAD)
      else
        session <-? session_of cid virtual_session;;
        ret (Ok (MkForward (NcInitCancel f session) (fun r => answer (ck_rv_only r))))
  end.

(** [encrypt_init], [decrypt_init]: the mechanism is parsed before the
    registry is read. *)
Definition cipher_init_answer (t : CkMechanismType) (result : CkResult (option CkMechanismParams)) : CkRv * option WireMechanism :=
  match result with
  | Err rv => (rv, None)
  | Ok params =>
      match encode_out encode t params with
      | Ok mechanism_out => (Rv.OK, mechanism_out)
      | Err rv => (rv, None)
      end
  end.

Definition cipher_init (f : InitFunction) (req : ClassicInitRequest) : Handler (Served (CkRv * option WireMechanism)) :=
  let cid := in_context req in
  let answer rv := (rv, None) in
  forward answer (init_or_cancel f cid (in_session req) (in_mechanism req) answer (
    handles <-? resolve_session_and_key (hc_native ctx) (hc_token_policy ctx) cid (in_session req) (in_key req);;
    mechanism <-? ret (parse_mechanism_opt (in_mechanism req));;
    registry <-? ret (current_registry_snapshot source);;
    validated <-? admit_init_mechanism ctx cid (in_session req) handles.1 registry mechanism General;;
    ret (Ok (MkForward (NcCipherInit f handles.1 validated handles.2) (cipher_init_answer (mechanism_type mechanism)))))).

Definition encrypt_init := cipher_init EncryptInit.
Definition decrypt_init := cipher_init DecryptInit.

(** [sign_init], [sign_recover_init], [verify_init], [verify_recover_init]:
    the registry is read before the mechanism is parsed. *)
Definition keyed_init (f : InitFunction) (req : ClassicInitRequest) : Handler (Served CkRv) :=
  let cid := in_context req in
  forward (fun rv => rv) (init_or_cancel f cid (in_session req) (in_mechanism req) (fun rv => rv) (
    handles <-? resolve_session_and_key (hc_native ctx) (hc_token_policy ctx) cid (in_session req) (in_key req);;
    registry <-? ret (current_registry_snapshot source);;
    mechanism <-? ret (parse_mechanism_opt (in_mechanism req));;
    validated <-? admit_init_mechanism ctx cid (in_session req) handles.1 registry mechanism General;;
    ret (Ok (MkForward (NcKeyedInit f handles.1 validated handles.2) ck_rv_only)))).

Definition sign_init := keyed_init SignInit.
Definition sign_recover_init := keyed_init SignRecoverInit.
Definition verify_init := keyed_init VerifyInit.
Definition verify_recover_init := keyed_init VerifyRecoverInit.

(** [digest_init] resolves the session before it looks at the mechanism. *)
Definition digest_init (cid : ClientContextId) (virtual_session : N) (mechanism : option (CkResult CkMechanism))
  : Handler (Served CkRv) :=
  forward (fun rv => rv) (
    _ <-? ret (if hc_sanitize_inputs ctx && negb (is_some mechanism) then Err Rv.ARGUMENTS_BAD else Ok tt);;
    session <-? session_of cid virtual_session;;
    match mechanism with
    | None => ret (Ok (MkForward (NcInitCancel DigestInit session) ck_rv_only))
    | Some _ =>
        mechanism <-? ret (parse_mechanism_opt mechanism);;
        registry <-? ret (current_registry_snapshot source);;
        validated <-? admit_init_mechanism ctx cid virtual_session session registry mechanism General;;
        ret (Ok (MkForward (NcDigestInit session validated) ck_rv_only))
    end).

(** The signature is checked between the translation of handles and the
    sanitizer of the mechanism; the gates before are those of [KeyGen]. *)
Definition verify_signature_init (req : ClassicInitRequest) (signature : SecretBytes) (signature_null_len : option N) : Handler (Served CkRv) :=
  let cid := in_context req in
  forward (fun rv => rv) (
    match in_mechanism req with
    | Some _ =>
        handles <-? resolve_session_and_key (hc_native ctx) (hc_token_policy ctx) cid (in_session req) (in_key req);;
        validated <-? admit_mechanism ctx cid (in_session req) handles.1 source (parse_mechanism_opt (in_mechanism req)) General;;
        _ <-? ret (check_sanitize (hc_sanitize_inputs ctx) signature_null_len);;
        validated <-? ret (sanitize_mechanism_input (hc_sanitize_inputs ctx) validated);;
        ret (Ok (MkForward (NcVerifySignatureInit handles.1 (Some validated) handles.2 (input_from_wire signature signature_null_len))
                   ck_rv_only))
    | None =>
        if hc_sanitize_inputs ctx then ret (Err Rv.ARGUMENTS_BAD)
        else
          session <-? session_of cid (in_session req);;
          ret (Ok (MkForward (NcVerifySignatureInit session None (MkObject 0) (InBytes [])) ck_rv_only))
    end).

(** ** Data *)

Record DataRequest := MkDataRequest {
  dq_context : ClientContextId; dq_session : N; dq_data : SecretBytes; dq_null_len : option N }.

(** [encrypt], [encrypt_update], [decrypt], [decrypt_update]: these requests
    cannot carry a NULL buffer. *)
Definition cipher_data (f : ByteOutputFunction) (cid : ClientContextId) (virtual_session : N) (data : SecretBytes)
  : Handler (Served CipherResponse) :=
  forward cipher_error (session_data cid virtual_session [] (fun session =>
    MkForward (NcBytes f session (InBytes data)) (cipher_answer session))).

Definition encrypt := cipher_data BofEncrypt.
Definition encrypt_update := cipher_data BofEncryptUpdate.
Definition decrypt := cipher_data BofDecrypt.
Definition decrypt_update := cipher_data BofDecryptUpdate.

Definition cipher_final (f : ByteOutputFunction) (cid : ClientContextId) (virtual_session : N) : Handler (Served CipherResponse) :=
  forward cipher_error (session_data cid virtual_session [] (fun session =>
    MkForward (NcSessionBytes f session) (cipher_answer session))).

Definition encrypt_final := cipher_final BofEncryptFinal.
Definition decrypt_final := cipher_final BofDecryptFinal.

(** The combined operations of [combined/]; their requests carry no NULL
    buffer either. *)
Definition combined_data (f : ByteOutputFunction) (cid : ClientContextId) (virtual_session : N) (data : SecretBytes)
  : Handler (Served BytesResponse) :=
  forward bytes_error (session_data cid virtual_session [] (fun session => MkForward (NcBytes f session (InBytes data)) bytes_answer)).

Definition digest_encrypt_update := combined_data BofDigestEncryptUpdate.
Definition sign_encrypt_update := combined_data BofSignEncryptUpdate.
Definition decrypt_digest_update := combined_data BofDecryptDigestUpdate.
Definition decrypt_verify_update := combined_data BofDecryptVerifyUpdate.

(** [digest], [sign], [sign_recover], [verify_recover]. *)
Definition bytes_data (f : ByteOutputFunction) (req : DataRequest) : Handler (Served BytesResponse) :=
  forward bytes_error (session_data (dq_context req) (dq_session req) [dq_null_len req] (fun session =>
    MkForward (NcBytes f session (input_from_wire (dq_data req) (dq_null_len req))) bytes_answer)).

Definition digest := bytes_data BofDigest.
Definition sign := bytes_data BofSign.
Definition sign_recover := bytes_data BofSignRecover.
Definition verify_recover := bytes_data BofVerifyRecover.

(** [digest_final], [sign_final], [get_operation_state]. *)
Definition bytes_final (f : ByteOutputFunction) (cid : ClientContextId) (virtual_session : N) : Handler (Served BytesResponse) :=
  forward bytes_error (session_data cid virtual_session [] (fun session => MkForward (NcSessionBytes f session) bytes_answer)).

Definition digest_final := bytes_final BofDigestFinal.
Definition sign_final := bytes_final BofSignFinal.
Definition get_operation_state := bytes_final BofGetOperationState.

Definition feed (f : FeedFunction) (req : DataRequest) : Handler (Served CkRv) :=
  forward (fun rv => rv) (session_data (dq_context req) (dq_session req) [dq_null_len req] (fun session =>
    MkForward (NcFeed f session (input_from_wire (dq_data req) (dq_null_len req))) ck_rv_only)).

Definition digest_update := feed DigestUpdate.
Definition sign_update := feed SignUpdate.
Definition verify_update := feed VerifyUpdate.
Definition verify_final := feed VerifyFinal.
Definition verify_signature := feed VerifySignature.
Definition verify_signature_update := feed VerifySignatureUpdate.
Definition seed_random := feed SeedRandom.

Definition verify (req : DataRequest) (signature : SecretBytes) (signature_null_len : option N) : Handler (Served CkRv) :=
  forward (fun rv => rv) (session_data (dq_context req) (dq_session req) [dq_null_len req; signature_null_len] (fun session =>
    MkForward (NcVerify session (input_from_wire (dq_data req) (dq_null_len req)) (input_from_wire signature signature_null_len))
      ck_rv_only)).

Definition verify_signature_final (cid : ClientContextId) (virtual_session : N) : Handler (Served CkRv) :=
  forward (fun rv => rv) (session_data cid virtual_session [] (fun session => MkForward (NcVerifySignatureFinal session) ck_rv_only)).

Definition generate_random (cid : ClientContextId) (virtual_session len : N) : Handler (Served BytesResponse) :=
  forward bytes_error (session_data cid virtual_session [] (fun session => MkForward (NcGenerateRandom session len) bytes_answer)).

Definition digest_key (cid : ClientContextId) (virtual_session key_handle : N) : Handler (Served CkRv) :=
  forward (fun rv => rv) (
    handles <-? resolve_session_and_key (hc_native ctx) (hc_token_policy ctx) cid virtual_session key_handle;;
    ret (Ok (MkForward (NcDigestKey handles.1 handles.2) ck_rv_only))).
End handlers.
