(* ===== verification/Wrap.v ===== *)
(** * Wrapping, unwrapping and key encapsulation

    Models [grpc_service/key_ops/wrap_preparation.rs], [wrapping.rs],
    [authenticated_wrap.rs] and [kem.rs], [byte_output_exact.rs], the
    [WrapKeyAuthenticated] arm of [parameter_output_exact.rs],
    [audit_key_outcome] of [audit_events.rs], and
    [crates/backend/src/object_cleanup.rs].

    A key that leaves the token goes through [prepare_wrap]; a key that comes
    in is owned, until it is registered, by the completion owner of [KeyGen]
    or by the guard of the worker. *)

From S2P Require Import Prelude Ck Width HandleMap SlotMap Connection Context Manager Session Mech Grant Policy Handler Authorize.
From S2P Require Import Shapes Registry Params Validate Embedded KeyGen Attributes Lifecycle InitGate MessageParams Message MessageExact.
From S2P Require Import AuthParams Classic.
Open Scope N_scope.

(** ** Objects whose destruction failed *)

Record QuarantinedObject := MkQuarantined { qo_session : CkSessionHandle; qo_object : CkObjectHandle; qo_cleanup_rv : CkRv }.

Definition ensure_clear (quarantine : list QuarantinedObject) : CkResult unit :=
  match quarantine with [] => Ok tt | _ => Err Rv.DEVICE_ERROR end.

(** [Drop] of a pending object: it enters the quarantine before the native
    destruction ([outcome]; [None] if that panics) and leaves it on success. *)
Definition pending_drop (session : CkSessionHandle) (object : CkObjectHandle) (outcome : option (CkResult unit))
    (quarantine : list QuarantinedObject) : list QuarantinedObject :=
  match outcome with
  | Some (Ok _) => quarantine
  | Some (Err rv) => quarantine ++ [MkQuarantined session object rv]
  | None => quarantine ++ [MkQuarantined session object Rv.DEVICE_ERROR]
  end.

(** ** The audit of a key operation *)

(** [emitted]: the sink accepts the record, or there is none; [None] is a
    transport [Status]. *)
Definition audit_key_outcome {T} (emitted : KeyEvent -> bool) (method : string) (cid : ClientContextId) (session : N)
    (success_rv : T -> CkRv) (outcome : option (CkResult T)) : Audited (option (CkResult T)) :=
  let rv := match outcome with
            | Some (Ok value) => success_rv value
            | Some (Err rv) => rv
            | None => Rv.FUNCTION_FAILED
            end in
  let event := MkKeyEvent method cid session rv in
  MkAudited (if emitted event then outcome else Some (Err Rv.FUNCTION_FAILED)) [event].

(** ** Requests that make a key *)

(** The end of a request that makes a key: its answer, the call, the handles
    handed to the detached settlement, and those the worker's guard gives to
    [pending_drop]. *)
Record MintServed (R : Type) := MkMintServed {
  mn_answer : option R; mn_call : option NativeSent; mn_settled : list CkObjectHandle; mn_given_up : list CkObjectHandle }.
Arguments MkMintServed {R} mn_answer mn_call mn_settled mn_given_up.
Arguments mn_answer {R} m.
Arguments mn_call {R} m.
Arguments mn_settled {R} m.
Arguments mn_given_up {R} m.

(** A call that makes a key: what the worker makes of the result, with the
    object its guard keeps; the handles it reports to the owner; the object to
    register; the answer to the object's new handle. *)
Inductive MintWork (R : Type) :=
| MkMintWork {T A : Type} (call : NativeCall T) (finish : CkResult T -> CkResult A * option CkObjectHandle)
    (extract : A -> CkResult (list CkObjectHandle)) (adopt : A -> option CkObjectHandle) (answer : A -> N -> R)
    (template : option (list CkAttribute)).
Arguments MkMintWork {R T A} call finish extract adopt answer template.

Section handlers.
Context (ctx : HandlerContext) (module : NativeModule) (source : option MechanismRegistry).
Context {WireMechanism : Type} (encode : CkMechanism -> CkResult WireMechanism).
Context (emitted : KeyEvent -> bool).

(** ** Wrapping *)

Record PreparedWrap := MkPreparedWrap {
  pw_session : CkSessionHandle; pw_wrapping_key : CkObjectHandle; pw_key : CkObjectHandle; pw_mechanism : ValidatedMechanismParams }.

Record WrapRequest := MkWrapRequest {
  wr_context : ClientContextId; wr_session : N; wr_wrapping_key : N; wr_key : N; wr_mechanism : option (CkResult CkMechanism) }.

(** [None]: a transport [Status]. *)
Definition prepare_wrap (req : WrapRequest) : Handler (option (CkResult PreparedWrap)) :=
  let cid := wr_context req in
  let virtual_session := wr_session req in
  admitted <- (
    handles <-? resolve_session_and_two_objects (hc_native ctx) (hc_token_policy ctx) cid virtual_session (wr_wrapping_key req) (wr_key req);;
    validated <-? admit_mechanism ctx cid virtual_session handles.1.1 source (parse_mechanism_opt (wr_mechanism req)) WrapKey;;
    ret (Ok (handles, validated)));;
  match admitted with
  | Err rv => ret (Some (Err rv))
  | Ok (handles, validated) =>
      permitted <- extract_is_permitted (hc_native ctx) (hc_token_policy ctx) cid virtual_session (wr_key req);;
      match permitted with
      | None => ret None
      | Some false => ret (Some (Err Rv.KEY_FUNCTION_NOT_PERMITTED))
      | Some true =>
          ret (Some (let? validated := sanitize_mechanism_input (hc_sanitize_inputs ctx) validated in
                     Ok (MkPreparedWrap handles.1.1 handles.1.2 handles.2 validated)))
      end
  end.

(** The outcome of a wrap and its call; [work] may still refuse, and its answer
    is that of the worker. *)
Definition wrap_outcome {A} (req : WrapRequest) (work : PreparedWrap -> CkResult (Forward (CkResult A)))
  : Handler (option (CkResult A) * option NativeSent) :=
  prepared <- prepare_wrap req;;
  match prepared with
  | None => ret (None, None)
  | Some (Err rv) => ret (Some (Err rv), None)
  | Some (Ok p) =>
      match work p with
      | Err rv => ret (Some (Err rv), None)
      | Ok (@MkForward _ T call finish) =>
          reply <- module_call (module T call);;
          ret (finish <$> mint_observed reply, call_made call reply)
      end
  end.

(** From the request to the audited answer. *)
Definition wrapped {A R} (method : string) (req : WrapRequest) (success_rv : A -> CkRv) (answer : CkResult A -> R)
    (work : PreparedWrap -> CkResult (Forward (CkResult A))) : Handler (Audited (Served R)) :=
  r <- wrap_outcome req work;;
  let audited := audit_key_outcome emitted method (wr_context req) (wr_session req) success_rv r.1 in
  ret (MkAudited (MkServed (answer <$> au_outcome audited) r.2) (au_events audited)).

(** *** [C_WrapKey] *)

Definition wrap_key (req : WrapRequest) : Handler (Audited (Served BytesResponse)) :=
  wrapped "C_WrapKey" req (fun _ => Rv.OK) bytes_answer (fun p =>
    Ok (MkForward (NcWrap (pw_session p) (pw_mechanism p) (pw_wrapping_key p) (pw_key p)) (fun r => r))).

(** *** [C_WrapKeyAuthenticated] *)

Record WrapAuthenticatedResponse := MkWrapAuthenticated {
  wx_rv : CkRv; wx_wrapped_key : SecretBytes; wx_mechanism_parameter_out : SecretBytes; wx_output : option AuthenticatedMechanismOutput }.

Definition wrap_authenticated_answer (r : CkResult (SecretBytes * SecretBytes * option AuthenticatedMechanismOutput))
  : WrapAuthenticatedResponse :=
  match r with
  | Ok (bytes, parameter, output) => MkWrapAuthenticated Rv.OK bytes parameter output
  | Err rv => MkWrapAuthenticated rv [] [] None
  end.

(** The structured parameter, or [Ok None] for a legacy one. *)
Definition typed_parameter (mechanism : ValidatedMechanismParams) (envelope : option AuthenticatedParameters)
  : CkResult (option (option MessageParameter)) :=
  match envelope with
  | Some envelope => let? parameter := decode_parameters (vm_mechanism mechanism) envelope in Ok (Some parameter)
  | None => if legacy_parameter_supported (vm_mechanism mechanism) then Ok None else Err Rv.FUNCTION_NOT_SUPPORTED
  end.

(** The module's report on the parameter, for the wire; a report it may not
    make is a device error. *)
Definition reported_output (valid : CkResult unit) (output : AuthenticatedOutput) : CkResult AuthenticatedMechanismOutput :=
  if Result_is_ok valid then AuthenticatedOutput_to_wire output else Err Rv.DEVICE_ERROR.

Definition wrap_key_authenticated (req : WrapRequest) (associated_data : SecretBytes) (aad_null_len : option N)
    (envelope : option AuthenticatedParameters) : Handler (Audited (Served WrapAuthenticatedResponse)) :=
  let aad := input_from_wire associated_data aad_null_len in
  wrapped "C_WrapKeyAuthenticated" req (fun _ => Rv.OK) wrap_authenticated_answer (fun p =>
         let? _ := check_sanitize (hc_sanitize_inputs ctx) aad_null_len in
         let? typed := typed_parameter (pw_mechanism p) envelope in
         Ok match typed with
            | Some parameter =>
                MkForward (NcWrapTyped (pw_session p) (pw_mechanism p) parameter (pw_wrapping_key p) (pw_key p) aad)
                  (fun r => let? out := r in
                            let? wire := reported_output
                                           (AuthenticatedOutput_validate_for out.2 (vm_mechanism (pw_mechanism p)) parameter) out.2 in
                            Ok (out.1, [], Some wire))
            | None =>
                MkForward (NcWrapAuthenticated (pw_session p) (pw_mechanism p) (pw_wrapping_key p) (pw_key p) aad)
                  (fun r => let? out := r in Ok (out.1, out.2, None))
            end).

(** *** The exact forms *)

(** [ByteOutputExactResponse] *)
Record ByteOutputExactResponse := MkByteOutput { bo_result : WireOutputBufferResult; bo_mechanism_out : option WireMechanism }.

Definition byte_result_to_proto (result : CkResult CkOutputBufferResult) : WireOutputBufferResult :=
  match result with
  | Ok r => output_to_wire r
  | Err error => MkWireOutput (rv_raw error) 0 None (Some false)
  end.
Definition byte_output_error (error : CkRv) : ByteOutputExactResponse := MkByteOutput (byte_result_to_proto (Err error)) None.

(** An output with the parameters the module wrote. *)
Definition byte_output_answer (r : CkResult (CkOutputBufferResult * option CkMechanismParams)) : ByteOutputExactResponse :=
  match r with
  | Ok (output, mechanism_out) => MkByteOutput (byte_result_to_proto (Ok output)) (mechanism_out ≫= mechanism_output_to_proto encode)
  | Err error => byte_output_error error
  end.

Record ByteOutputExactRequest := MkByteOutputRequest {
  bx_version : N; bx_function : Z; bx_wrap : WrapRequest; bx_output_spec : option CkOutputBufferSpec; bx_input : SecretBytes;
  bx_input_null_len : option N }.

Definition bx_spec (req : ByteOutputExactRequest) : CkOutputBufferSpec := default (MkOutputBufferSpec false 0 false) (bx_output_spec req).

Definition byte_output_exact (req : ByteOutputExactRequest) : Handler (Audited (Served ByteOutputExactResponse)) :=
  let unrecorded h := s <- h;; ret (MkAudited s []) in
  if negb (exact_output_effects_version_supported (bx_version req)) then unrecorded (ret (MkServed None None))
  else
    let cid := wr_context (bx_wrap req) in
    let virtual_session := wr_session (bx_wrap req) in
    let spec := bx_spec req in
    match byte_output_function_from_i32 (bx_function req) with
    | None => unrecorded (ret (MkServed (Some (byte_output_error Rv.FUNCTION_NOT_SUPPORTED)) None))
    | Some BofWrapKey =>
        wrapped "C_WrapKey" (bx_wrap req) (fun out => or_ck_rv out.1) byte_output_answer (fun p =>
          Ok (MkForward (NcWrapExact (pw_session p) (pw_mechanism p) (pw_wrapping_key p) (pw_key p) spec) (fun r => r)))
    | Some f =>
        if session_only f then
          unrecorded (forward module byte_output_error (session_data ctx cid virtual_session [] (fun session =>
            MkForward (NcSessionBytesExact f session spec) (fun r => MkByteOutput (byte_result_to_proto r) None))))
        else
          let input := input_from_wire (bx_input req) (bx_input_null_len req) in
          unrecorded (forward module byte_output_error (session_data ctx cid virtual_session [bx_input_null_len req] (fun session =>
            if bool_decide (f = BofEncrypt) then MkForward (NcEncryptExact session input spec) byte_output_answer
            else MkForward (NcBytesExact f session input spec) (fun r => MkByteOutput (byte_result_to_proto r) None))))
    end.

(** The arm of [parameter_output_exact]: the answer of [MessageExact] with the
    report on the parameter. *)
Definition ExactWrapResponse : Type := ParameterOutputExactResponse * option AuthenticatedMechanismOutput.

Definition exact_wrap_answer (r : CkResult (CkOutputBufferResult * CkParameterRoundtripResult * option AuthenticatedMechanismOutput))
  : ExactWrapResponse :=
  match r with
  | Ok (output, parameter, authenticated) => (MkExactResponse None (Some (output_to_wire output)) (Some parameter) None, authenticated)
  | Err rv => (error_response rv, None)
  end.

Definition wrap_key_authenticated_exact (req : ParameterOutputExactRequest) (wrap : WrapRequest) (envelope : option AuthenticatedParameters)
  : Handler (Audited (Served ExactWrapResponse)) :=
  let output_spec := xq_output req in
  let aad := xq_aad req in
  wrapped "C_WrapKeyAuthenticated" wrap (fun out => or_ck_rv out.1.1) exact_wrap_answer (fun p =>
         let mechanism := vm_mechanism (pw_mechanism p) in
         let? _ := check_sanitize (hc_sanitize_inputs ctx) (xq_associated_data_null_len req) in
         let? _ := if is_some envelope && (negb (bool_decide (xq_parameter req = [])) || is_some (rs_value (xq_param_out req))
                                           || is_some (xq_message_parameter req))
                   then Err Rv.MECHANISM_PARAM_INVALID else Ok tt in
         let? typed := typed_parameter (pw_mechanism p) envelope in
         Ok match typed with
            | Some parameter =>
                MkForward (NcWrapExactTyped (pw_session p) (pw_mechanism p) parameter (pw_wrapping_key p) (pw_key p) aad output_spec)
                  (fun r => let? out := r in
                            let rv := or_ck_rv out.1 in
                            let? wire := reported_output
                                           (AuthenticatedOutput_validate_exact_for out.2 mechanism parameter rv
                                              (mode_from_output_spec output_spec)) out.2 in
                            Ok (out.1, MkRoundtripResult rv 0 None, Some wire))
            | None =>
                MkForward (NcWrapAuthenticatedExact (pw_session p) (pw_mechanism p) (pw_wrapping_key p) (pw_key p) aad output_spec
                             (xq_param_out req))
                  (fun r => let? out := r in Ok (out.1, out.2, None))
            end).

(** ** Keys that come in *)

Definition map_reply {T A} (f : CkResult T -> CkResult A) (reply : MintReply T) : MintReply A :=
  match reply with
  | MintDone r => MintDone (f r)
  | MintTimedOut late => MintTimedOut (f <$> late)
  | MintRefused => MintRefused
  | MintPanicked => MintPanicked
  end.

(** The object the worker's guard keeps, in time or late. *)
Definition given_up {T A} (finish : CkResult T -> CkResult A * option CkObjectHandle) (reply : MintReply T) : list CkObjectHandle :=
  match reply with MintDone r | MintTimedOut (Some r) => option_list (finish r).2 | _ => [] end.

(** [raced]: a worker that timed out reports just before the error arm looks;
    [cancelled]: the caller drops the request. *)
Context (raced cancelled : bool).

(** [blocked]: the worker does not reach the module. *)
Definition worker_reply {T} (blocked : bool) (call : NativeCall T) : MintReply T :=
  if blocked then match module T call with MintRefused => MintRefused | _ => MintDone (Err Rv.DEVICE_ERROR) end
  else module T call.

Definition mint_run {R} (blocked : bool) (cid : ClientContextId) (virtual_session : N) (on_error : CkRv -> R)
    (prepare : Handler (CkResult (MintWork R))) : Handler (MintServed R) :=
  prepared <- prepare;;
  match prepared with
  | Err rv => ret (MkMintServed (Some (on_error rv)) None [] [])
  | Ok (@MkMintWork _ T A call finish extract adopt answer template) =>
      reply <- module_call (worker_reply blocked call);;
      let finished := map_reply (fun r => (finish r).1) reply in
      let eventual := mint_copy_in_the_end extract finished in
      let served a settled := MkMintServed a (if blocked then None else call_made call reply) settled (given_up finish reply) in
      if cancelled then ret (served None (mint_owner_drop true eventual))
      else
      match mint_observed finished with
      | None => ret (served None (mint_owner_drop true eventual))
      | Some (Err error) => ret (served (Some (on_error error)) (settled_after_error extract raced finished))
      | Some (Ok a) =>
          match adopt a with
          | None => ret (served (Some (answer a 0)) [])
          | Some object =>
              let view := template_view template in
              key_handle <- register_session_object_handle cid (VH virtual_session) object
                (template_declares_token_object view) (Some (template_declares_private_object view));;
              ret (served (Some (answer a key_handle)) (mint_owner_drop (key_handle =? 0) eventual))
          end
      end
  end.

(** The worker leaves the result as it is. *)
Definition kept {T} (r : CkResult T) : CkResult T * option CkObjectHandle := (r, None).

Record MintRequest := MkMintRequest {
  mq_context : ClientContextId; mq_session : N; mq_key : N; mq_mechanism : option (CkResult CkMechanism);
  mq_template : CkResult (option (list CkAttribute)) }.

(** The gates of a request that makes a key, up to the sanitizer; [null_lens]
    are its buffers. *)
Definition admit_mint (req : MintRequest) (session : CkSessionHandle) (null_lens : list (option N))
  : Handler (CkResult (ValidatedMechanismParams * option (list CkAttribute))) :=
  let cid := mq_context req in
  validated <-? admit_mechanism ctx cid (mq_session req) session source (parse_mechanism_opt (mq_mechanism req)) General;;
  template <-? ret (mq_template req);;
  _ <-? ensure_private_mint_allowed cid (mq_session req) (template_view template);;
  _ <-? ret (check_sanitize_all ctx null_lens);;
  ret (Ok (validated, template)).

(** *** [C_UnwrapKey] *)

Definition HandleResponse : Type := CkRv * N.
Definition handle_error (rv : CkRv) : HandleResponse := (rv, 0).

Definition unwrap_key_impl (req : MintRequest) (wrapped_key : SecretBytes) (wrapped_key_null_len : option N)
  : Handler (MintServed HandleResponse) :=
  mint_run false (mq_context req) (mq_session req) handle_error (
    handles <-? resolve_session_and_object (hc_native ctx) (hc_token_policy ctx) (mq_context req) (mq_session req) (mq_key req);;
    admitted <-? admit_mint req handles.1 [wrapped_key_null_len];;
    validated <-? ret (sanitize_mechanism_input (hc_sanitize_inputs ctx) admitted.1);;
    ret (Ok (MkMintWork (NcUnwrap handles.1 validated handles.2 (input_from_wire wrapped_key wrapped_key_null_len) admitted.2)
               kept (fun object => Ok [object]) Some (fun _ handle => (Rv.OK, handle)) admitted.2))).

(** The end of a request with another answer. *)
Definition answering {R} (served : MintServed R) (answer : option R) : MintServed R :=
  MkMintServed answer (mn_call served) (mn_settled served) (mn_given_up served).

(** The dispatcher: an answer whose record the sink refuses is replaced; a
    transport [Status] is not recorded. *)
Definition unwrap_key (req : MintRequest) (wrapped_key : SecretBytes) (wrapped_key_null_len : option N)
  : Handler (Audited (MintServed HandleResponse)) :=
  served <- unwrap_key_impl req wrapped_key wrapped_key_null_len;;
  ret match mn_answer served with
      | Some (rv, _) =>
          let event := MkKeyEvent "C_UnwrapKey" (mq_context req) (mq_session req) rv in
          MkAudited (if emitted event then served else answering served (Some (handle_error Rv.FUNCTION_FAILED))) [event]
      | None => MkAudited served []
      end.

(** *** [C_UnwrapKeyAuthenticated] *)

(** The objects in quarantine: while there is one, the worker refuses. *)
Context (quarantine : list QuarantinedObject).

Record UnwrapAuthenticatedResponse := MkUnwrapAuthenticated {
  ux_rv : CkRv; ux_key_handle : N; ux_mechanism_parameter_out : SecretBytes; ux_output : option AuthenticatedMechanismOutput }.
Definition unwrap_authenticated_error (rv : CkRv) : UnwrapAuthenticatedResponse := MkUnwrapAuthenticated rv 0 [] None.

Definition UnwrapOutcome : Type := CkObjectHandle * SecretBytes * option AuthenticatedMechanismOutput.

Definition unwrap_authenticated_answer (out : UnwrapOutcome) (handle : N) : UnwrapAuthenticatedResponse :=
  MkUnwrapAuthenticated Rv.OK handle out.1.2 out.2.

(** The worker of the structured form: the new key is pending until the
    module's report is found acceptable and is encoded. *)
Definition unwrap_typed_finish (mechanism : CkMechanism) (parameter : option MessageParameter)
    (r : CkResult (CkObjectHandle * AuthenticatedOutput)) : CkResult UnwrapOutcome * option CkObjectHandle :=
  match r with
  | Err rv => (Err rv, None)
  | Ok (key, output) =>
      match reported_output (AuthenticatedOutput_validate_for output mechanism parameter) output with
      | Ok wire => (Ok (key, [], Some wire), None)
      | Err rv => (Err rv, Some key)
      end
  end.

Definition unwrap_legacy_finish (r : CkResult (CkObjectHandle * SecretBytes)) : CkResult UnwrapOutcome * option CkObjectHandle :=
  kept (let? out := r in Ok (out.1, out.2, None)).

Definition unwrap_key_authenticated_impl (req : MintRequest) (wrapped_key : SecretBytes) (wrapped_key_null_len : option N)
    (associated_data : SecretBytes) (aad_null_len : option N) (envelope : option AuthenticatedParameters)
  : Handler (MintServed UnwrapAuthenticatedResponse) :=
  mint_run (negb (Result_is_ok (ensure_clear quarantine))) (mq_context req) (mq_session req) unwrap_authenticated_error (
    handles <-? resolve_session_and_object (hc_native ctx) (hc_token_policy ctx) (mq_context req) (mq_session req) (mq_key req);;
    admitted <-? admit_mint req handles.1 [wrapped_key_null_len; aad_null_len];;
    typed <-? ret (typed_parameter admitted.1 envelope);;
    validated <-? ret (sanitize_mechanism_input (hc_sanitize_inputs ctx) admitted.1);;
    let wrapped := input_from_wire wrapped_key wrapped_key_null_len in
    let aad := input_from_wire associated_data aad_null_len in
    ret (Ok match typed with
            | Some parameter =>
                MkMintWork (NcUnwrapTyped handles.1 validated parameter handles.2 wrapped admitted.2 aad)
                  (unwrap_typed_finish (vm_mechanism validated) parameter) (fun out => Ok [out.1.1]) (fun out => Some out.1.1)
                  unwrap_authenticated_answer admitted.2
            | None =>
                MkMintWork (NcUnwrapAuthenticated handles.1 validated handles.2 wrapped admitted.2 aad)
                  unwrap_legacy_finish (fun out => Ok [out.1.1]) (fun out => Some out.1.1)
                  unwrap_authenticated_answer admitted.2
            end)).

Definition unwrap_key_authenticated (req : MintRequest) (wrapped_key : SecretBytes) (wrapped_key_null_len : option N)
    (associated_data : SecretBytes) (aad_null_len : option N) (envelope : option AuthenticatedParameters)
  : Handler (Audited (MintServed UnwrapAuthenticatedResponse)) :=
  served <- unwrap_key_authenticated_impl req wrapped_key wrapped_key_null_len associated_data aad_null_len envelope;;
  let audited := audit_key_outcome emitted "C_UnwrapKeyAuthenticated" (mq_context req) (mq_session req) ux_rv (Ok <$> mn_answer served) in
  let answer := (fun r : CkResult UnwrapAuthenticatedResponse =>
                   match r with Ok response => response | Err rv => unwrap_authenticated_error rv end) <$> au_outcome audited in
  ret (if cancelled then MkAudited served [] else MkAudited (answering served answer) (au_events audited)).

(** *** [C_EncapsulateKey], [C_DecapsulateKey] *)

Record EncapsulateResponse := MkEncapsulate { en_rv : CkRv; en_ciphertext : SecretBytes; en_key_handle : N }.
Definition encapsulate_error (rv : CkRv) : EncapsulateResponse := MkEncapsulate rv [] 0.

Definition encapsulate_key (req : MintRequest) : Handler (MintServed EncapsulateResponse) :=
  mint_run false (mq_context req) (mq_session req) encapsulate_error (
    handles <-? resolve_session_and_key (hc_native ctx) (hc_token_policy ctx) (mq_context req) (mq_session req) (mq_key req);;
    admitted <-? admit_mint req handles.1 [];;
    validated <-? ret (sanitize_mechanism_input (hc_sanitize_inputs ctx) admitted.1);;
    ret (Ok (MkMintWork (NcEncapsulate handles.1 validated handles.2 admitted.2)
               kept (fun out => Ok [out.2]) (fun out => Some out.2) (fun out handle => MkEncapsulate Rv.OK out.1 handle) admitted.2))).

Definition decapsulate_key (req : MintRequest) (ciphertext : SecretBytes) (ciphertext_null_len : option N)
  : Handler (MintServed HandleResponse) :=
  mint_run false (mq_context req) (mq_session req) handle_error (
    handles <-? resolve_session_and_key (hc_native ctx) (hc_token_policy ctx) (mq_context req) (mq_session req) (mq_key req);;
    admitted <-? admit_mint req handles.1 [ciphertext_null_len];;
    validated <-? ret (sanitize_mechanism_input (hc_sanitize_inputs ctx) admitted.1);;
    ret (Ok (MkMintWork (NcDecapsulate handles.1 validated handles.2 admitted.2 (input_from_wire ciphertext ciphertext_null_len))
               kept (fun object => Ok [object]) Some (fun _ handle => (Rv.OK, handle)) admitted.2))).

(** [OutputAndHandleResult] on the wire. *)
Record WireOutputAndHandle := MkWireOutputAndHandle {
  wh_rv : CkRv; wh_apply_returned_len : bool; wh_returned_len : N; wh_value : option SecretBytes; wh_apply_object_handle : bool;
  wh_object_handle : N }.
Definition encapsulate_exact_error (rv : CkRv) : WireOutputAndHandle := MkWireOutputAndHandle rv false 0 None false 0.

Definition encapsulate_exact_minted (r : CkOutputAndHandleResult) : CkResult (list CkObjectHandle) :=
  if rv_eqb (oh_ck_rv r) Rv.OK then Ok (option_list (oh_object_handle r)) else Err (oh_ck_rv r).

Definition encapsulate_exact_adopt (r : CkOutputAndHandleResult) : option CkObjectHandle :=
  if rv_eqb (oh_ck_rv r) Rv.OK
  then object ← oh_object_handle r; if object_raw object =? 0 then None else Some object
  else None.

Definition encapsulate_exact_answer (r : CkOutputAndHandleResult) (handle : N) : WireOutputAndHandle :=
  MkWireOutputAndHandle (oh_ck_rv r) (is_some (oh_returned_len r)) (default 0 (oh_returned_len r)) (oh_value r) (negb (handle =? 0)) handle.

Definition encapsulate_key_exact (version : N) (req : MintRequest) (output_spec : option CkOutputBufferSpec)
  : Handler (MintServed WireOutputAndHandle) :=
  if negb (exact_output_effects_version_supported version) then ret (MkMintServed None None [] [])
  else
    mint_run false (mq_context req) (mq_session req) encapsulate_exact_error (
      handles <-? resolve_session_and_key (hc_native ctx) (hc_token_policy ctx) (mq_context req) (mq_session req) (mq_key req);;
      admitted <-? admit_mint req handles.1 [];;
      validated <-? ret (sanitize_mechanism_input (hc_sanitize_inputs ctx) admitted.1);;
      ret (Ok (MkMintWork (NcEncapsulateExact handles.1 validated handles.2 admitted.2 (default (MkOutputBufferSpec false 0 false) output_spec))
                 kept encapsulate_exact_minted encapsulate_exact_adopt encapsulate_exact_answer admitted.2))).
End handlers.
