(* ===== verification/CallProps.v ===== *)
(** * Forwarded calls: properties

    Every request of [Classic] and [Wrap] is one pipeline: resolve the
    caller's handles, admit the mechanism, sanitize the buffers, for a wrap
    ask whether the key may leave the token, and send one call.
    [calls_admitted] states the pipeline once, over all of them;
    [key_transport_recorded] is about the audit records, and
    [incoming_keys_owned_once] about the keys that unwrapping and
    encapsulation make. *)

From S2P Require Import Prelude Ck Width HandleMap SlotMap Connection Context Manager Session Mech Grant Policy Handler Authorize.
From S2P Require Import AuthorizeProps Shapes ShapeProps Registry Params Validate Embedded EmbeddedProps KeyGen KeyGenProps KeyGenDemo.
From S2P Require Import Attributes Lifecycle InitGate MessageParams Message MessageExact AuthParams Classic Wrap.
Open Scope N_scope.

(** ** What a call carries *)

Definition call_session (s : NativeSent) : CkSessionHandle :=
  match projT2 s with
  | NcInitCancel _ s | NcCipherInit _ s _ _ | NcKeyedInit _ s _ _ | NcDigestInit s _ | NcVerifySignatureInit s _ _ _
  | NcBytes _ s _ | NcSessionBytes _ s | NcFeed _ s _ | NcVerify s _ _ | NcVerifySignatureFinal s | NcDigestKey s _
  | NcGenerateRandom s _ | NcBytesExact _ s _ _ | NcEncryptExact s _ _ | NcSessionBytesExact _ s _ | NcWrap s _ _ _
  | NcWrapExact s _ _ _ _ | NcWrapTyped s _ _ _ _ _ | NcWrapAuthenticated s _ _ _ _ | NcWrapExactTyped s _ _ _ _ _ _
  | NcWrapAuthenticatedExact s _ _ _ _ _ _ | NcUnwrap s _ _ _ _ | NcUnwrapTyped s _ _ _ _ _ _ | NcUnwrapAuthenticated s _ _ _ _ _
  | NcEncapsulate s _ _ _ | NcEncapsulateExact s _ _ _ _ | NcDecapsulate s _ _ _ _ => s
  end.

Definition call_keys (s : NativeSent) : list CkObjectHandle :=
  match projT2 s with
  | NcCipherInit _ _ _ k | NcKeyedInit _ _ _ k | NcVerifySignatureInit _ _ k _ | NcDigestKey _ k | NcUnwrap _ _ k _ _
  | NcUnwrapTyped _ _ _ k _ _ _ | NcUnwrapAuthenticated _ _ k _ _ _ | NcEncapsulate _ _ k _ | NcEncapsulateExact _ _ k _ _
  | NcDecapsulate _ _ k _ _ => [k]
  | NcWrap _ _ w k | NcWrapExact _ _ w k _ | NcWrapTyped _ _ _ w k _ | NcWrapAuthenticated _ _ w k _
  | NcWrapExactTyped _ _ _ w k _ _ | NcWrapAuthenticatedExact _ _ w k _ _ _ => [w; k]
  | _ => []
  end.

Definition call_mechanism (s : NativeSent) : option ValidatedMechanismParams :=
  match projT2 s with
  | NcCipherInit _ _ v _ | NcKeyedInit _ _ v _ | NcDigestInit _ v | NcWrap _ v _ _ | NcWrapExact _ v _ _ _ | NcWrapTyped _ v _ _ _ _
  | NcWrapAuthenticated _ v _ _ _ | NcWrapExactTyped _ v _ _ _ _ _ | NcWrapAuthenticatedExact _ v _ _ _ _ _ | NcUnwrap _ v _ _ _
  | NcUnwrapTyped _ v _ _ _ _ _ | NcUnwrapAuthenticated _ v _ _ _ _ | NcEncapsulate _ v _ _ | NcEncapsulateExact _ v _ _ _
  | NcDecapsulate _ v _ _ _ => Some v
  | NcVerifySignatureInit _ v _ _ => v
  | _ => None
  end.

Definition call_inputs (s : NativeSent) : list CkInBuf :=
  match projT2 s with
  | NcVerifySignatureInit _ _ _ i | NcBytes _ _ i | NcFeed _ _ i | NcBytesExact _ _ i _ | NcEncryptExact _ i _
  | NcWrapTyped _ _ _ _ _ i | NcWrapAuthenticated _ _ _ _ i | NcWrapExactTyped _ _ _ _ _ i _ | NcWrapAuthenticatedExact _ _ _ _ i _ _
  | NcUnwrap _ _ _ i _ | NcDecapsulate _ _ _ _ i => [i]
  | NcVerify _ i j | NcUnwrapTyped _ _ _ _ i _ j | NcUnwrapAuthenticated _ _ _ i _ j => [i; j]
  | _ => []
  end.

(** A buffer the sanitizer lets through. *)
Definition input_clean (i : CkInBuf) : Prop := match i with InNull len => len = 0 | InBytes _ => True end.

(** ** What a request asks *)

(** The key arguments: none, the handle 0 of a cancellation, one with the
    error of a destroyed key, or the two of a wrap. *)
Inductive KeyArgs := NoKey | NullKey | OneKey (stale_rv : CkRv) (v : N) | WrapKeys (wrapping_key key : N).

Record CallSpec := MkCallSpec {
  cs_context : ClientContextId; cs_session : N; cs_keys : KeyArgs; cs_mechanism : option (CkResult CkMechanism);
  cs_operation : Operation; cs_inputs : list CkInBuf }.

Definition virtual_keys (keys : KeyArgs) : list N :=
  match keys with NoKey => [] | NullKey => [0] | OneKey _ v => [v] | WrapKeys a b => [a; b] end.

Inductive CallRpc :=
| RpcCipherInit (f : InitFunction) (req : ClassicInitRequest)
| RpcKeyedInit (f : InitFunction) (req : ClassicInitRequest)
| RpcDigestInit (cid : ClientContextId) (session : N) (mechanism : option (CkResult CkMechanism))
| RpcVerifySignatureInit (req : ClassicInitRequest) (signature : SecretBytes) (null_len : option N)
| RpcCipherData (f : ByteOutputFunction) (cid : ClientContextId) (session : N) (data : SecretBytes)
| RpcCipherFinal (f : ByteOutputFunction) (cid : ClientContextId) (session : N)
| RpcCombinedData (f : ByteOutputFunction) (cid : ClientContextId) (session : N) (data : SecretBytes)
| RpcBytesData (f : ByteOutputFunction) (req : DataRequest)
| RpcBytesFinal (f : ByteOutputFunction) (cid : ClientContextId) (session : N)
| RpcFeed (f : FeedFunction) (req : DataRequest)
| RpcVerify (req : DataRequest) (signature : SecretBytes) (null_len : option N)
| RpcVerifySignatureFinal (cid : ClientContextId) (session : N)
| RpcGenerateRandom (cid : ClientContextId) (session len : N)
| RpcDigestKey (cid : ClientContextId) (session key : N)
| RpcByteOutputExact (req : ByteOutputExactRequest)
| RpcWrapKey (req : WrapRequest)
| RpcWrapKeyAuthenticated (req : WrapRequest) (aad : SecretBytes) (null_len : option N) (envelope : option AuthenticatedParameters)
| RpcWrapKeyAuthenticatedExact (req : ParameterOutputExactRequest) (wrap : WrapRequest) (envelope : option AuthenticatedParameters)
| RpcUnwrapKey (req : MintRequest) (wrapped : SecretBytes) (null_len : option N)
| RpcUnwrapKeyAuthenticated (req : MintRequest) (wrapped : SecretBytes) (null_len : option N) (aad : SecretBytes)
    (aad_null_len : option N) (envelope : option AuthenticatedParameters)
| RpcEncapsulateKey (req : MintRequest)
| RpcDecapsulateKey (req : MintRequest) (ciphertext : SecretBytes) (null_len : option N)
| RpcEncapsulateKeyExact (version : N) (req : MintRequest) (spec : option CkOutputBufferSpec).

Definition init_spec (req : ClassicInitRequest) (without : KeyArgs) (inputs : list CkInBuf) : CallSpec :=
  MkCallSpec (in_context req) (in_session req)
    (if is_some (in_mechanism req) then OneKey Rv.KEY_HANDLE_INVALID (in_key req) else without) (in_mechanism req) General inputs.

Definition data_spec (cid : ClientContextId) (session : N) (inputs : list CkInBuf) : CallSpec :=
  MkCallSpec cid session NoKey None General inputs.

Definition wrap_spec (req : WrapRequest) (inputs : list CkInBuf) : CallSpec :=
  MkCallSpec (wr_context req) (wr_session req) (WrapKeys (wr_wrapping_key req) (wr_key req))
    (Some (parse_mechanism_opt (wr_mechanism req))) WrapKey inputs.

Definition mint_spec (req : MintRequest) (stale_rv : CkRv) (inputs : list CkInBuf) : CallSpec :=
  MkCallSpec (mq_context req) (mq_session req) (OneKey stale_rv (mq_key req)) (Some (parse_mechanism_opt (mq_mechanism req))) General inputs.

Definition call_spec (rpc : CallRpc) : CallSpec :=
  match rpc with
  | RpcCipherInit _ req | RpcKeyedInit _ req => init_spec req NoKey []
  | RpcDigestInit cid session mechanism => MkCallSpec cid session NoKey mechanism General []
  | RpcVerifySignatureInit req signature null_len =>
      init_spec req NullKey [if is_some (in_mechanism req) then input_from_wire signature null_len else InBytes []]
  | RpcCipherData _ cid session data | RpcCombinedData _ cid session data => data_spec cid session [InBytes data]
  | RpcCipherFinal _ cid session | RpcBytesFinal _ cid session | RpcVerifySignatureFinal cid session
  | RpcGenerateRandom cid session _ => data_spec cid session []
  | RpcBytesData _ req | RpcFeed _ req => data_spec (dq_context req) (dq_session req) [input_from_wire (dq_data req) (dq_null_len req)]
  | RpcVerify req signature null_len =>
      data_spec (dq_context req) (dq_session req)
        [input_from_wire (dq_data req) (dq_null_len req); input_from_wire signature null_len]
  | RpcDigestKey cid session key => MkCallSpec cid session (OneKey Rv.KEY_HANDLE_INVALID key) None General []
  | RpcByteOutputExact req =>
      match byte_output_function_from_i32 (bx_function req) with
      | Some BofWrapKey => wrap_spec (bx_wrap req) []
      | f => data_spec (wr_context (bx_wrap req)) (wr_session (bx_wrap req))
               (if from_option session_only true f then [] else [input_from_wire (bx_input req) (bx_input_null_len req)])
      end
  | RpcWrapKey req => wrap_spec req []
  | RpcWrapKeyAuthenticated req aad null_len _ => wrap_spec req [input_from_wire aad null_len]
  | RpcWrapKeyAuthenticatedExact req wrap _ => wrap_spec wrap [xq_aad req]
  | RpcUnwrapKey req wrapped null_len => mint_spec req Rv.OBJECT_HANDLE_INVALID [input_from_wire wrapped null_len]
  | RpcUnwrapKeyAuthenticated req wrapped null_len aad aad_null_len _ =>
      mint_spec req Rv.OBJECT_HANDLE_INVALID [input_from_wire wrapped null_len; input_from_wire aad aad_null_len]
  | RpcEncapsulateKey req | RpcEncapsulateKeyExact _ req _ => mint_spec req Rv.KEY_HANDLE_INVALID []
  | RpcDecapsulateKey req ciphertext null_len => mint_spec req Rv.KEY_HANDLE_INVALID [input_from_wire ciphertext null_len]
  end.

(** ** The pipeline *)

Section pipeline.
Context (ctx : HandlerContext) (module : NativeModule) (source : option MechanismRegistry).
Context {WireMechanism : Type} (encode : CkMechanism -> CkResult WireMechanism).
Context (session_output_mechanism_params : CkSessionHandle -> option CkMechanismParams).
Context (emitted : KeyEvent -> bool) (raced cancelled : bool) (quarantine : list QuarantinedObject).

(** The call a request makes. *)
Definition call_of (rpc : CallRpc) : Handler (option NativeSent) :=
  let served R (h : Handler (Served R)) := s <- h;; ret (sv_call s) in
  let minted R (h : Handler (MintServed R)) := s <- h;; ret (mn_call s) in
  let audited R (h : Handler (Audited (Served R))) := r <- h;; ret (sv_call (au_outcome r)) in
  let audited_mint R (h : Handler (Audited (MintServed R))) := r <- h;; ret (mn_call (au_outcome r)) in
  match rpc with
  | RpcCipherInit f req => served _ (cipher_init ctx module source encode f req)
  | RpcKeyedInit f req => served _ (keyed_init ctx module source f req)
  | RpcDigestInit cid session mechanism => served _ (digest_init ctx module source cid session mechanism)
  | RpcVerifySignatureInit req signature null_len => served _ (verify_signature_init ctx module source req signature null_len)
  | RpcCipherData f cid session data => served _ (cipher_data ctx module encode session_output_mechanism_params f cid session data)
  | RpcCipherFinal f cid session => served _ (cipher_final ctx module encode session_output_mechanism_params f cid session)
  | RpcCombinedData f cid session data => served _ (combined_data ctx module f cid session data)
  | RpcBytesData f req => served _ (bytes_data ctx module f req)
  | RpcBytesFinal f cid session => served _ (bytes_final ctx module f cid session)
  | RpcFeed f req => served _ (feed ctx module f req)
  | RpcVerify req signature null_len => served _ (verify ctx module req signature null_len)
  | RpcVerifySignatureFinal cid session => served _ (verify_signature_final ctx module cid session)
  | RpcGenerateRandom cid session len => served _ (generate_random ctx module cid session len)
  | RpcDigestKey cid session key => served _ (digest_key ctx module cid session key)
  | RpcByteOutputExact req => audited _ (byte_output_exact ctx module source encode emitted req)
  | RpcWrapKey req => audited _ (wrap_key ctx module source emitted req)
  | RpcWrapKeyAuthenticated req aad null_len envelope =>
      audited _ (wrap_key_authenticated ctx module source emitted req aad null_len envelope)
  | RpcWrapKeyAuthenticatedExact req wrap envelope =>
      audited _ (wrap_key_authenticated_exact ctx module source emitted req wrap envelope)
  | RpcUnwrapKey req wrapped null_len => audited_mint _ (unwrap_key ctx module source emitted raced cancelled req wrapped null_len)
  | RpcUnwrapKeyAuthenticated req wrapped null_len aad aad_null_len envelope =>
      audited_mint _ (unwrap_key_authenticated ctx module source emitted raced cancelled quarantine req wrapped null_len aad aad_null_len envelope)
  | RpcEncapsulateKey req => minted _ (encapsulate_key ctx module source raced cancelled req)
  | RpcDecapsulateKey req ciphertext null_len =>
      minted _ (decapsulate_key ctx module source raced cancelled req ciphertext null_len)
  | RpcEncapsulateKeyExact version req spec => minted _ (encapsulate_key_exact ctx module source raced cancelled version req spec)
  end.

(** Resolution of the session and the keys. *)
Definition resolve_args (spec : CallSpec) : Handler (CkResult (CkSessionHandle * list CkObjectHandle)) :=
  let cid := cs_context spec in
  let vs := cs_session spec in
  let alone keys := session <-? session_of cid vs;; ret (Ok (session, keys)) in
  match cs_keys spec with
  | NoKey => alone []
  | NullKey => alone [MkObject 0]
  | OneKey stale_rv v =>
      hs <-? resolve_session_and_handle (hc_native ctx) (hc_token_policy ctx) cid vs v stale_rv;; ret (Ok (hs.1, [hs.2]))
  | WrapKeys a b =>
      hs <-? resolve_session_and_two_objects (hc_native ctx) (hc_token_policy ctx) cid vs a b;; ret (Ok (hs.1.1, [hs.1.2; hs.2]))
  end.

(** The mechanism [v] is the request's: acceptable to transport validation,
    permitted at [w], its handles those of the caller's map right after, and
    clean. *)
Definition admitted_mechanism (env : Env) (spec : CallSpec) (w : World) (v : ValidatedMechanismParams) : Prop :=
  exists registry mech grant w1,
    source = Some registry /\ cs_mechanism spec = Some (Ok mech) /\
    acceptable (hc_can_reserve ctx) mech registry (cs_operation spec) (abis ctx).1 (abis ctx).2 grant /\
    mechanism_permitted (hc_token_policy ctx) (cs_context spec) (cs_session spec) (mechanism_type mech) env w = (true, w1) /\
    v = MkValidated (vm_mechanism v) grant registry (abis ctx).1 (abis ctx).2 /\
    normalized_for_handle_compare (vm_mechanism v) = normalized_for_handle_compare mech /\
    owned_handles env (cs_context spec) w1 mech (vm_mechanism v) /\
    check_classic_sanitize_policy (hc_sanitize_inputs ctx) v = Ok tt.

(** A key that leaves the token: the extract gate, asked right after the
    mechanism was admitted, allowed it. *)
Definition extract_asked (env : Env) (spec : CallSpec) (w : World) (session : CkSessionHandle) : Prop :=
  match cs_keys spec with
  | WrapKeys _ key =>
      exists v w1,
        admit_mechanism ctx (cs_context spec) (cs_session spec) session source (default (Err Rv.ARGUMENTS_BAD) (cs_mechanism spec))
          (cs_operation spec) env w = (Ok v, w1) /\
        (extract_is_permitted (hc_native ctx) (hc_token_policy ctx) (cs_context spec) (cs_session spec) key env w1).1 = Some true
  | _ => True
  end.

Definition admitted_call (env : Env) (w : World) (spec : CallSpec) (s : NativeSent) : Prop :=
  exists w1,
    resolve_args spec env w = (Ok (call_session s, call_keys s), w1) /\
    match call_mechanism s with
    | Some v => admitted_mechanism env spec w1 v
    | None => cs_mechanism spec = None
    end /\
    call_inputs s = cs_inputs spec /\
    (hc_sanitize_inputs ctx = true -> Forall input_clean (call_inputs s)) /\
    extract_asked env spec w1 (call_session s).

(** ** Lemmas on the pipeline *)

Definition forward_sent {R} (f : Forward R) : NativeSent := match f with MkForward call _ => native_sent call end.
Definition mint_sent {R} (wk : MintWork R) : NativeSent := match wk with MkMintWork call _ _ _ _ _ => native_sent call end.

Lemma call_made_sent {T} (call : NativeCall T) reply c : call_made call reply = Some c -> c = native_sent call.
Proof. by destruct reply; intros [= <-]. Qed.

Lemma forward_calls {R} (on_error : CkRv -> R) prepare env w s w' c :
  forward module on_error prepare env w = (s, w') -> sv_call s = Some c ->
  exists f w1, prepare env w = (Ok f, w1) /\ c = forward_sent f.
Proof.
  unfold forward. intros H Hc. apply bind_ok in H as (r & w1 & Hr & H). destruct r as [f|rv]; [|by injection H as <- _].
  destruct f as [T call answer]. apply bind_ok in H as (reply & w2 & _ & H). injection H as <- _. apply call_made_sent in Hc.
  by exists (MkForward call answer), w1.
Qed.

Lemma mint_calls {R} blocked cid vs (on_error : CkRv -> R) prepare env w s w' c :
  mint_run module raced cancelled blocked cid vs on_error prepare env w = (s, w') -> mn_call s = Some c ->
  exists wk w1, prepare env w = (Ok wk, w1) /\ c = mint_sent wk.
Proof.
  unfold mint_run. intros H Hc. apply bind_ok in H as (r & w1 & Hr & H). destruct r as [wk|rv]; [|by injection H as <- _].
  destruct wk as [T A call finish extract adopt answer template]. exists (MkMintWork call finish extract adopt answer template), w1.
  split; [done|]. apply bind_ok in H as (reply & w2 & Hreply & H).
  assert ((if blocked then None else call_made call reply) = Some c) as Hm.
  { destruct cancelled; [by injection H as <- _|]. destruct (mint_observed _) as [[a|e]|]; [|by injection H as <- _..].
    destruct (adopt a); [|by injection H as <- _]. apply bind_ok in H as (k & w3 & _ & H). by injection H as <- _. }
  destruct blocked; [done|]. by apply call_made_sent in Hm.
Qed.

Lemma check_all_ok lens : check_sanitize_all ctx lens = Ok tt -> Forall (fun l => check_sanitize (hc_sanitize_inputs ctx) l = Ok tt) lens.
Proof.
  unfold check_sanitize_all. induction lens as [|l lens IH] using rev_ind; [by constructor|]. rewrite foldl_snoc.
  destruct (foldl _ _ lens) as [[]|]; [|done]. intros H. apply Forall_app. split; [by apply IH|by constructor].
Qed.

Lemma input_is_clean l bytes : check_sanitize (hc_sanitize_inputs ctx) l = Ok tt ->
  hc_sanitize_inputs ctx = true -> input_clean (input_from_wire bytes l).
Proof. intros H Hs. rewrite Hs in H. unfold input_clean. destruct (input_from_wire bytes l) eqn:E; [|done]. by eapply check_sanitize_ok. Qed.

(** A call that only needs the session. *)
Definition bare_call {R} (inputs : list CkInBuf) (call : CkSessionHandle -> Forward R) : Prop :=
  forall session, let s := forward_sent (call session) in
    call_session s = session /\ call_keys s = [] /\ call_mechanism s = None /\ call_inputs s = inputs.

Lemma session_data_admitted {R} (on_error : CkRv -> R) cid vs lens inputs call env w s w' c :
  forward module on_error (session_data ctx cid vs lens call) env w = (s, w') -> sv_call s = Some c ->
  bare_call inputs call ->
  (Forall (fun l => check_sanitize (hc_sanitize_inputs ctx) l = Ok tt) lens -> hc_sanitize_inputs ctx = true -> Forall input_clean inputs) ->
  admitted_call env w (data_spec cid vs inputs) c.
Proof.
  intros H Hc Hb Hi. destruct (forward_calls _ _ _ _ _ _ _ H Hc) as (f & w1 & Hp & ->). unfold session_data in Hp.
  run_step Hp session w2. run_step Hp u w3. apply ret_ok in Hp as [[= <-] ->]. destruct u. apply check_all_ok in Hu.
  destruct (Hb session) as (H1 & H2 & H3 & H4). exists w2. unfold extract_asked. cbn [cs_keys data_spec].
  rewrite H1, H2, H3, H4. split_and!; try done; [|auto]. unfold resolve_args. cbn [cs_keys cs_context cs_session data_spec].
  unfold bind_result, bind. by rewrite Hsession.
Qed.

Lemma admitted_of_admit env spec m session v v' w w' :
  cs_mechanism spec = Some m ->
  admit_mechanism ctx (cs_context spec) (cs_session spec) session source m (cs_operation spec) env w = (Ok v, w') ->
  sanitize_mechanism_input (hc_sanitize_inputs ctx) v = Ok v' -> admitted_mechanism env spec w v'.
Proof.
  unfold sanitize_mechanism_input. intros Hm H Hs. destruct (check_classic_sanitize_policy _ v) as [[]|] eqn:Es; [|done]. injection Hs as <-.
  apply admit_run in H as (registry & mech & grant & w1 & H1 & -> & H3 & H4 & H5 & H6 & H7 & _).
  exists registry, mech, grant, w1. by split_and!.
Qed.

Lemma admitted_of_init env spec registry mech session v w w' :
  current_registry_snapshot source = Ok registry -> cs_mechanism spec = Some (Ok mech) ->
  admit_init_mechanism ctx (cs_context spec) (cs_session spec) session registry mech (cs_operation spec) env w = (Ok v, w') ->
  admitted_mechanism env spec w v.
Proof.
  intros Hr Hm H. apply admit_init_run in H as (grant & w1 & H1 & H2 & H3 & _ & H4 & H5 & H6).
  exists registry, mech, grant, w1. split_and!; try done. by destruct source; simplify_eq/=.
Qed.

(** *** Wrapping *)

Definition wraps (p : PreparedWrap) (inputs : list CkInBuf) (s : NativeSent) : Prop :=
  call_session s = pw_session p /\ call_keys s = [pw_wrapping_key p; pw_key p] /\ call_mechanism s = Some (pw_mechanism p) /\
  call_inputs s = inputs.

Lemma prepare_wrap_admitted env req p w w' inputs s :
  prepare_wrap ctx source req env w = (Some (Ok p), w') -> wraps p inputs s ->
  (hc_sanitize_inputs ctx = true -> Forall input_clean inputs) -> admitted_call env w (wrap_spec req inputs) s.
Proof.
  unfold prepare_wrap. intros H (H1 & H2 & H3 & H4) Hi. apply bind_ok in H as (admitted & w1 & Ha & H).
  destruct admitted as [[hs v]|rv]; [|done]. run_step Ha hs0 w2. run_step Ha v0 w3. injection Ha as -> -> ->.
  apply bind_ok in H as (permitted & w4 & He & H). destruct permitted as [[|]|]; [|done..]. injection H as H _.
  destruct (sanitize_mechanism_input _ v) as [v'|] eqn:Es; [|done]. injection H as <-.
  cbn [pw_session pw_wrapping_key pw_key pw_mechanism] in *. exists w2. rewrite H1, H2, H3, H4. split_and!; try done.
  - unfold resolve_args. cbn [cs_keys cs_context cs_session wrap_spec]. unfold bind_result, bind. by rewrite Hhs0.
  - eapply admitted_of_admit; [reflexivity|exact Hv0|exact Es].
  - exists v, w1. split; [exact Hv0|]. exact (f_equal fst He).
Qed.

Lemma wrapped_calls {A R} method req (success_rv : A -> CkRv) (answer : CkResult A -> R) work env w r w' c :
  wrapped ctx module source emitted method req success_rv answer work env w = (r, w') -> sv_call (au_outcome r) = Some c ->
  exists p w1 f, prepare_wrap ctx source req env w = (Some (Ok p), w1) /\ work p = Ok f /\ c = forward_sent f.
Proof.
  unfold wrapped. intros H Hc. apply bind_ok in H as (o & w0 & H & Hr). injection Hr as <- _. cbn [au_outcome sv_call] in Hc.
  unfold wrap_outcome in H. apply bind_ok in H as (prepared & w1 & Hp & H).
  destruct prepared as [[p|rv]|]; [|by injection H as <- _..]. destruct (work p) as [f|rv] eqn:Ew; [|by injection H as <- _].
  destruct f as [T call finish]. apply bind_ok in H as (reply & w2 & _ & H). injection H as <- _. apply call_made_sent in Hc.
  by exists p, w1, (MkForward call finish).
Qed.

(** *** Incoming keys *)

Lemma admit_mint_run env req session lens r w w' :
  admit_mint ctx source req session lens env w = (Ok r, w') ->
  exists w1, admit_mechanism ctx (mq_context req) (mq_session req) session source (parse_mechanism_opt (mq_mechanism req)) General env w
               = (Ok r.1, w1) /\
    Forall (fun l => check_sanitize (hc_sanitize_inputs ctx) l = Ok tt) lens.
Proof.
  unfold admit_mint. intros H. run_step H v w1. run_step H template w2. run_step H u w3. run_step H u' w4. injection H as <- _.
  exists w1. split; [done|]. apply check_all_ok. by destruct u'.
Qed.

Lemma mint_admitted env req stale lens inputs hs r v s w w1 w2 :
  resolve_session_and_handle (hc_native ctx) (hc_token_policy ctx) (mq_context req) (mq_session req) (mq_key req) stale env w = (Ok hs, w1) ->
  admit_mint ctx source req hs.1 lens env w1 = (Ok r, w2) ->
  sanitize_mechanism_input (hc_sanitize_inputs ctx) r.1 = Ok v ->
  call_session s = hs.1 -> call_keys s = [hs.2] -> call_mechanism s = Some v -> call_inputs s = inputs ->
  (Forall (fun l => check_sanitize (hc_sanitize_inputs ctx) l = Ok tt) lens -> hc_sanitize_inputs ctx = true -> Forall input_clean inputs) ->
  admitted_call env w (mint_spec req stale inputs) s.
Proof.
  intros Hr Ha Hs H1 H2 H3 H4 Hi. apply admit_mint_run in Ha as (w3 & Ha & Hl). exists w1. rewrite H1, H2, H3, H4.
  split_and!; try done; [| |auto].
  - unfold resolve_args. cbn [cs_keys cs_context cs_session mint_spec]. unfold bind_result, bind. by rewrite Hr.
  - eapply admitted_of_admit; [reflexivity|exact Ha|exact Hs].
Qed.

(** ** Every request *)

Abbreviation checked := (Forall (fun l => check_sanitize (hc_sanitize_inputs ctx) l = Ok tt)).

Lemma clean_none : checked [] -> hc_sanitize_inputs ctx = true -> Forall input_clean [].
Proof. constructor. Qed.
Lemma clean_bytes bytes : checked [] -> hc_sanitize_inputs ctx = true -> Forall input_clean [InBytes bytes].
Proof. by repeat constructor. Qed.
Lemma clean_one bytes l : checked [l] -> hc_sanitize_inputs ctx = true -> Forall input_clean [input_from_wire bytes l].
Proof. intros H Hs. apply Forall_cons in H as [H _]. constructor; [by apply input_is_clean|constructor]. Qed.
Lemma clean_two b1 l1 b2 l2 : checked [l1; l2] -> hc_sanitize_inputs ctx = true ->
  Forall input_clean [input_from_wire b1 l1; input_from_wire b2 l2].
Proof.
  intros H Hs. apply Forall_cons in H as [H1 H]. apply Forall_cons in H as [H2 _]. repeat constructor; by apply input_is_clean.
Qed.

(** A call on a session and one key. *)
Lemma keyed_admitted env spec stale v s w hs w1 :
  cs_keys spec = OneKey stale v ->
  resolve_session_and_handle (hc_native ctx) (hc_token_policy ctx) (cs_context spec) (cs_session spec) v stale env w = (Ok hs, w1) ->
  call_session s = hs.1 -> call_keys s = [hs.2] ->
  match call_mechanism s with Some v => admitted_mechanism env spec w1 v | None => cs_mechanism spec = None end ->
  call_inputs s = cs_inputs spec -> (hc_sanitize_inputs ctx = true -> Forall input_clean (cs_inputs spec)) -> admitted_call env w spec s.
Proof.
  intros Hk Hr H1 H2 H3 H4 H5. exists w1. rewrite H1, H2, H4. unfold extract_asked, resolve_args. rewrite Hk.
  split_and!; try done. unfold bind_result, bind. by rewrite Hr.
Qed.

(** A call on a session and no key. *)
Lemma unkeyed_admitted env spec s w session w1 :
  (cs_keys spec = NoKey /\ call_keys s = [] \/ cs_keys spec = NullKey /\ call_keys s = [MkObject 0]) ->
  session_of (cs_context spec) (cs_session spec) env w = (Ok session, w1) -> call_session s = session ->
  match call_mechanism s with Some v => admitted_mechanism env spec w1 v | None => cs_mechanism spec = None end ->
  call_inputs s = cs_inputs spec -> (hc_sanitize_inputs ctx = true -> Forall input_clean (cs_inputs spec)) -> admitted_call env w spec s.
Proof.
  intros Hk Hr H1 H3 H4 H5. exists w1. rewrite H1, H4. unfold extract_asked, resolve_args.
  destruct Hk as [[-> ->]|[-> ->]]; split_and!; try done; unfold bind_result, bind; by rewrite Hr.
Qed.

Lemma init_cancel_admitted {R} env f cid vs mechanism (answer : CkRv -> R) init w fw w' spec :
  init_or_cancel ctx f cid vs mechanism answer init env w = (Ok fw, w') ->
  cs_context spec = cid -> cs_session spec = vs -> cs_mechanism spec = mechanism -> cs_inputs spec = [] ->
  (mechanism = None -> cs_keys spec = NoKey) ->
  (forall m, mechanism = Some m -> init env w = (Ok fw, w') -> admitted_call env w spec (forward_sent fw)) ->
  admitted_call env w spec (forward_sent fw).
Proof.
  intros H <- <- <- Hi Hk Hinit. unfold init_or_cancel in H. destruct (cs_mechanism spec) as [m|] eqn:Em; [by eapply Hinit|].
  destruct (hc_sanitize_inputs ctx); [done|]. run_step H session w1. injection H as <- _.
  eapply (unkeyed_admitted _ _ _ _ session); try done; [left; auto|by rewrite Hi].
Qed.

Lemma cipher_init_admitted env f req w s w' c :
  cipher_init ctx module source encode f req env w = (s, w') -> sv_call s = Some c ->
  admitted_call env w (init_spec req NoKey []) c.
Proof.
  intros H Hc. destruct (forward_calls _ _ _ _ _ _ _ H Hc) as (fw & w1 & Hp & ->).
  eapply init_cancel_admitted; [exact Hp|done..|cbn; by intros ->|]. intros m Hm H0. rewrite Hm in H0.
  run_step H0 hs w2. run_step H0 mech w3. run_step H0 registry w4. run_step H0 v w5. injection H0 as <- _.
  eapply (keyed_admitted _ _ Rv.KEY_HANDLE_INVALID (in_key req)); [cbn; by rewrite Hm|exact Hhs|try done..].
  eapply admitted_of_init; [done|cbn in Hmech |- *; by rewrite Hm, Hmech|exact Hv].
Qed.

Lemma keyed_init_admitted env f req w s w' c :
  keyed_init ctx module source f req env w = (s, w') -> sv_call s = Some c -> admitted_call env w (init_spec req NoKey []) c.
Proof.
  intros H Hc. destruct (forward_calls _ _ _ _ _ _ _ H Hc) as (fw & w1 & Hp & ->).
  eapply init_cancel_admitted; [exact Hp|done..|cbn; by intros ->|]. intros m Hm H0. rewrite Hm in H0.
  run_step H0 hs w2. run_step H0 registry w3. run_step H0 mech w4. run_step H0 v w5. injection H0 as <- _.
  eapply (keyed_admitted _ _ Rv.KEY_HANDLE_INVALID (in_key req)); [cbn; by rewrite Hm|exact Hhs|try done..].
  eapply admitted_of_init; [done|cbn in Hmech |- *; by rewrite Hm, Hmech|exact Hv].
Qed.

Lemma digest_init_admitted env cid vs mechanism w s w' c :
  digest_init ctx module source cid vs mechanism env w = (s, w') -> sv_call s = Some c ->
  admitted_call env w (MkCallSpec cid vs NoKey mechanism General []) c.
Proof.
  intros H Hc. destruct (forward_calls _ _ _ _ _ _ _ H Hc) as (fw & w1 & Hp & ->).
  run_step Hp u w2. run_step Hp session w3. destruct mechanism as [m|].
  - run_step Hp mech w4. run_step Hp registry w5. run_step Hp v w6. injection Hp as <- _.
    eapply unkeyed_admitted; [by left|exact Hsession|done| |done..].
    eapply admitted_of_init; [done|cbn in Hmech |- *; by rewrite Hmech|exact Hv].
  - injection Hp as <- _. by eapply unkeyed_admitted; [left|exact Hsession|..].
Qed.

Lemma verify_signature_init_admitted env req signature l w s w' c :
  verify_signature_init ctx module source req signature l env w = (s, w') -> sv_call s = Some c ->
  admitted_call env w (call_spec (RpcVerifySignatureInit req signature l)) c.
Proof.
  intros H Hc. destruct (forward_calls _ _ _ _ _ _ _ H Hc) as (fw & w1 & Hp & ->). clear H Hc. cbn [call_spec]. unfold init_spec.
  destruct (in_mechanism req) as [m|] eqn:Em.
  - run_step Hp hs w2. run_step Hp v w3. run_step Hp u w4. run_step Hp v' w5. injection Hp as <- _. destruct u.
    eapply keyed_admitted; [reflexivity|exact Hhs|try done..].
    + eapply admitted_of_admit; [reflexivity|exact Hv|exact Hv'].
    + intros Hs. constructor; [by apply input_is_clean|constructor].
  - destruct (hc_sanitize_inputs ctx); [done|]. run_step Hp session w2. injection Hp as <- _.
    eapply unkeyed_admitted; [by right|exact Hsession|done..|]. intros _. by repeat constructor.
Qed.

Lemma digest_key_admitted env cid vs key w s w' c :
  digest_key ctx module cid vs key env w = (s, w') -> sv_call s = Some c ->
  admitted_call env w (MkCallSpec cid vs (OneKey Rv.KEY_HANDLE_INVALID key) None General []) c.
Proof.
  intros H Hc. destruct (forward_calls _ _ _ _ _ _ _ H Hc) as (fw & w1 & Hp & ->). run_step Hp hs w2. injection Hp as <- _.
  by eapply keyed_admitted; [reflexivity|exact Hhs|..].
Qed.

(** A wrap whose work sends what it was given. *)
Lemma wrapped_admitted {A R} method env req (success_rv : A -> CkRv) (answer : CkResult A -> R) work inputs w r w' c :
  wrapped ctx module source emitted method req success_rv answer work env w = (r, w') -> sv_call (au_outcome r) = Some c ->
  (forall p f, work p = Ok f -> wraps p inputs (forward_sent f) /\ (hc_sanitize_inputs ctx = true -> Forall input_clean inputs)) ->
  admitted_call env w (wrap_spec req inputs) c.
Proof.
  intros H Hc Hw. destruct (wrapped_calls _ _ _ _ _ _ _ _ _ _ H Hc) as (p & w1 & f & Hp & Hf & ->).
  destruct (Hw p f Hf). by eapply prepare_wrap_admitted.
Qed.

Lemma wrap_key_admitted env req w r w' c :
  wrap_key ctx module source emitted req env w = (r, w') -> sv_call (au_outcome r) = Some c -> admitted_call env w (wrap_spec req []) c.
Proof. intros H Hc. eapply wrapped_admitted; [exact H|exact Hc|]. intros p f [= <-]. by split. Qed.

Lemma wrap_authenticated_admitted env req aad l envelope w r w' c :
  wrap_key_authenticated ctx module source emitted req aad l envelope env w = (r, w') -> sv_call (au_outcome r) = Some c ->
  admitted_call env w (wrap_spec req [input_from_wire aad l]) c.
Proof.
  intros H Hc. eapply wrapped_admitted; [exact H|exact Hc|]. intros p f Hf. destruct (check_sanitize _ l) as [[]|] eqn:El; [|done].
  destruct (typed_parameter _ _) as [[parameter|]|]; [| |done]; injection Hf as <-; (split; [done|]);
    intros Hs; (constructor; [by apply input_is_clean|constructor]).
Qed.

Lemma wrap_exact_admitted env req wrap envelope w r w' c :
  wrap_key_authenticated_exact ctx module source emitted req wrap envelope env w = (r, w') -> sv_call (au_outcome r) = Some c ->
  admitted_call env w (wrap_spec wrap [xq_aad req]) c.
Proof.
  intros H Hc. eapply wrapped_admitted; [exact H|exact Hc|]. intros p f Hf. destruct (check_sanitize _ _) as [[]|] eqn:El; [|done].
  destruct (_ && _); [done|].
  destruct (typed_parameter _ _) as [[parameter|]|]; [| |done]; injection Hf as <-; (split; [done|]);
    intros Hs; (constructor; [by apply input_is_clean|constructor]).
Qed.

Lemma unrecorded_calls {R} (h : Handler (Served R)) env w r w' :
  bind h (fun s => ret (MkAudited s [])) env w = (r, w') -> h env w = (au_outcome r, w').
Proof. intros H. apply bind_ok in H as (s & w1 & H & Hr). by injection Hr as <- <-. Qed.

Lemma byte_output_exact_admitted env req w r w' c :
  byte_output_exact ctx module source encode emitted req env w = (r, w') -> sv_call (au_outcome r) = Some c ->
  admitted_call env w (call_spec (RpcByteOutputExact req)) c.
Proof.
  unfold byte_output_exact. cbn [call_spec]. destruct (exact_output_effects_version_supported _); [|by intros [= <- _]]. cbn [negb].
  destruct (byte_output_function_from_i32 _) as [f|]; [|by intros [= <- _]]. cbn [from_option].
  assert (f = BofWrapKey \/ f <> BofWrapKey) as [->|Hf] by (destruct f; auto; by right).
  - intros H Hc. eapply wrapped_admitted; [exact H|exact Hc|]. intros p f [= <-]. by split.
  - destruct f; try done; cbn [session_only]; intros H Hc; apply unrecorded_calls in H;
      (eapply session_data_admitted; [exact H|exact Hc|by intros ?|]); first [exact clean_none|apply clean_one].
Qed.

Lemma unwrap_admitted env req wrapped l w s w' c :
  unwrap_key ctx module source emitted raced cancelled req wrapped l env w = (s, w') -> mn_call (au_outcome s) = Some c ->
  admitted_call env w (mint_spec req Rv.OBJECT_HANDLE_INVALID [input_from_wire wrapped l]) c.
Proof.
  intros H Hc. unfold unwrap_key in H. apply bind_ok in H as (s0 & w1 & H & Hs).
  assert (mn_call s0 = Some c) as Hc0.
  { injection Hs as <- _. destruct (mn_answer s0) as [[rv v]|]; [|done]. cbn in Hc. by destruct (emitted _). }
  destruct (mint_calls _ _ _ _ _ _ _ _ _ _ H Hc0) as (wk & w2 & Hp & ->). run_step Hp hs w3. run_step Hp r w4. run_step Hp v w5.
  injection Hp as <- _. eapply mint_admitted; [exact Hhs|exact Hr|exact Hv|done..|apply clean_one].
Qed.

Lemma unwrap_authenticated_admitted env req wrapped l aad al envelope w s w' c :
  unwrap_key_authenticated ctx module source emitted raced cancelled quarantine req wrapped l aad al envelope env w = (s, w') ->
  mn_call (au_outcome s) = Some c ->
  admitted_call env w (mint_spec req Rv.OBJECT_HANDLE_INVALID [input_from_wire wrapped l; input_from_wire aad al]) c.
Proof.
  intros H Hc. unfold unwrap_key_authenticated in H. apply bind_ok in H as (s0 & w1 & H & Hs).
  assert (mn_call s0 = Some c) as Hc0 by (injection Hs as <- _; by destruct cancelled).
  destruct (mint_calls _ _ _ _ _ _ _ _ _ _ H Hc0) as (wk & w2 & Hp & ->). run_step Hp hs w3. run_step Hp r w4. run_step Hp typed w5.
  run_step Hp v w6. injection Hp as <- _.
  destruct typed; (eapply mint_admitted; [exact Hhs|exact Hr|exact Hv|done..|apply clean_two]).
Qed.

Lemma encapsulate_admitted env req w s w' c :
  encapsulate_key ctx module source raced cancelled req env w = (s, w') -> mn_call s = Some c ->
  admitted_call env w (mint_spec req Rv.KEY_HANDLE_INVALID []) c.
Proof.
  intros H Hc. destruct (mint_calls _ _ _ _ _ _ _ _ _ _ H Hc) as (wk & w2 & Hp & ->). run_step Hp hs w3. run_step Hp r w4.
  run_step Hp v w5. injection Hp as <- _. eapply mint_admitted; [exact Hhs|exact Hr|exact Hv|done..|exact clean_none].
Qed.

Lemma encapsulate_exact_admitted env version req spec w s w' c :
  encapsulate_key_exact ctx module source raced cancelled version req spec env w = (s, w') -> mn_call s = Some c ->
  admitted_call env w (mint_spec req Rv.KEY_HANDLE_INVALID []) c.
Proof.
  unfold encapsulate_key_exact. destruct (exact_output_effects_version_supported _); [|by intros [= <- _]]. cbn [negb].
  intros H Hc. destruct (mint_calls _ _ _ _ _ _ _ _ _ _ H Hc) as (wk & w2 & Hp & ->). run_step Hp hs w3. run_step Hp r w4.
  run_step Hp v w5. injection Hp as <- _. eapply mint_admitted; [exact Hhs|exact Hr|exact Hv|done..|exact clean_none].
Qed.

Lemma decapsulate_admitted env req ciphertext l w s w' c :
  decapsulate_key ctx module source raced cancelled req ciphertext l env w = (s, w') -> mn_call s = Some c ->
  admitted_call env w (mint_spec req Rv.KEY_HANDLE_INVALID [input_from_wire ciphertext l]) c.
Proof.
  intros H Hc. destruct (mint_calls _ _ _ _ _ _ _ _ _ _ H Hc) as (wk & w2 & Hp & ->). run_step Hp hs w3. run_step Hp r w4.
  run_step Hp v w5. injection Hp as <- _. eapply mint_admitted; [exact Hhs|exact Hr|exact Hv|done..|apply clean_one].
Qed.

Lemma call_admitted rpc env w s w' : call_of rpc env w = (Some s, w') -> admitted_call env w (call_spec rpc) s.
Proof.
  unfold call_of. destruct rpc; intros H; apply bind_ok in H as (sv & w1 & H & Hc); injection Hc as Hc _; cbn [call_spec].
  all: try (eapply session_data_admitted; [exact H|exact Hc|by intros ?|];
            first [exact clean_none|apply clean_bytes|apply clean_one|apply clean_two]).
  - by eapply cipher_init_admitted.
  - by eapply keyed_init_admitted.
  - by eapply digest_init_admitted.
  - by eapply verify_signature_init_admitted.
  - by eapply digest_key_admitted.
  - by eapply byte_output_exact_admitted.
  - by eapply wrap_key_admitted.
  - by eapply wrap_authenticated_admitted.
  - by eapply wrap_exact_admitted.
  - by eapply unwrap_admitted.
  - by eapply unwrap_authenticated_admitted.
  - by eapply encapsulate_admitted.
  - by eapply decapsulate_admitted.
  - by eapply encapsulate_exact_admitted.
Qed.

Lemma resolve_args_own env w spec session keys w1 :
  resolve_args spec env w = (Ok (session, keys), w1) ->
  own_session env (cs_context spec) (cs_session spec) w session /\
  Forall2 (own_object env (cs_context spec) w) (virtual_keys (cs_keys spec)) keys.
Proof.
  unfold resolve_args. destruct (cs_keys spec) as [| |stale v|a b]; intros H; run_step H hs w2; injection H as <- <- _.
  - apply resolve_session_own in Hhs. by split; [|constructor].
  - apply resolve_session_own in Hhs. split; [done|]. repeat constructor.
  - apply resolve_handle_own in Hhs as [? ?]. split; [done|]. by apply Forall2_cons.
  - apply resolve_two_own in Hhs as (? & ? & ?). split; [done|]. apply Forall2_cons. split; [done|]. by apply Forall2_cons.
Qed.

(** C15: Whatever one of these requests sends to the module, it is one call with:
    the session and keys that the caller's own map gave when the request
    started (0 for a key that is unknown or denied); no mechanism, or the
    request's, acceptable to transport validation, permitted by the policy
    once the handles were resolved, with embedded handles of the caller's own,
    and clean under the sanitizer; the request's buffers, none of them NULL
    with a length under the sanitizer.  A key leaves the token only if the
    extract gate, asked after all that, allowed it. *)
Theorem calls_admitted rpc env w s w' :
  call_of rpc env w = (Some s, w') ->
  let spec := call_spec rpc in
  own_session env (cs_context spec) (cs_session spec) w (call_session s) /\
  Forall2 (own_object env (cs_context spec) w) (virtual_keys (cs_keys spec)) (call_keys s) /\
  admitted_call env w spec s.
Proof.
  intros H. apply call_admitted in H. pose proof H as (w1 & Hr & _). cbv zeta.
  destruct (resolve_args_own _ _ _ _ _ _ Hr). by split_and!.
Qed.
End pipeline.
