(* ===== verification/WrapProps.v ===== *)
(** * Keys that leave and keys that come in: properties

    [key_transport_recorded]: no answer to a request that generates, derives,
    wraps or unwraps a key without an audit record.  [incoming_keys_owned_once]:
    a key that unwrapping or encapsulation makes is the caller's, or is handed
    over to be destroyed.  The last part holds
    runs in which the handlers do not do what they mean to. *)

From S2P Require Import Prelude Ck Width HandleMap SlotMap Connection Context Manager Session Mech Grant Policy Handler Authorize.
From S2P Require Import AuthorizeProps Shapes ShapeProps Registry Params Validate Embedded EmbeddedProps KeyGen KeyGenProps KeyGenDemo.
From S2P Require Import Attributes Lifecycle InitGate MessageParams Message MessageExact AuthParams Classic Wrap CallProps.
Open Scope N_scope.

Section transport.
Context (ctx : HandlerContext) (module : NativeModule) (source : option MechanismRegistry).
Context {WireMechanism : Type} (encode : CkMechanism -> CkResult WireMechanism).
Context (emitted : KeyEvent -> bool) (raced cancelled : bool) (quarantine : list QuarantinedObject).

(** ** Audit records *)







(** ** Keys that come in *)

(** The keys a call makes, in time or late. *)
Definition keys_made (s : NativeSent) : list CkObjectHandle :=
  match projT2 s with
  | NcUnwrap s v k w t => minted_by (fun key => Ok [key]) (module _ (NcUnwrap s v k w t))
  | NcUnwrapTyped s v p k w t a => minted_by (fun out => Ok [out.1]) (module _ (NcUnwrapTyped s v p k w t a))
  | NcUnwrapAuthenticated s v k w t a => minted_by (fun out => Ok [out.1]) (module _ (NcUnwrapAuthenticated s v k w t a))
  | NcEncapsulate s v k t => minted_by (fun out => Ok [out.2]) (module _ (NcEncapsulate s v k t))
  | NcEncapsulateExact s v k t o => minted_by encapsulate_exact_minted (module _ (NcEncapsulateExact s v k t o))
  | NcDecapsulate s v k t c => minted_by (fun key => Ok [key]) (module _ (NcDecapsulate s v k t c))
  | _ => []
  end.

(** Either every key the call made is handed to the detached settlement or to
    the worker's guard, and the answer names none; or none is, the call made
    one, and the caller's map names it as the answer does, or the sink refused
    the record and the answer names nothing. *)
Definition settled {R} (handle : R -> N) (cid : ClientContextId) (s : MintServed R) (events : list KeyEvent) (w' : World) : Prop :=
  let made := from_option keys_made [] (mn_call s) in
  mn_settled s ++ late_minted (mn_given_up s) = made /\ (forall a, mn_answer s = Some a -> handle a = 0) \/
  mn_settled s = [] /\ mn_given_up s = [] /\
  exists a k v, made = late_minted [k] /\ v <> 0 /\ registered cid w' v k /\ mn_answer s = Some a /\
    (handle a = v \/ handle a = 0 /\ exists e, events = [e] /\ emitted e = false).

(** An answer that a refused record replaces. *)
Lemma answering_settled {R} (handle : R -> N) cid s events w' lost e :
  settled handle cid s events w' -> handle lost = 0 -> emitted e = false -> settled handle cid (answering s (Some lost)) [e] w'.
Proof.
  intros [[H1 H2]|(H1 & H2 & a & k & v & Hk & Hv & Hr & Ha & _)] Hl He.
  - left. split; [done|]. by intros a [= <-].
  - right. split_and!; [done..|]. exists lost, k, v. split_and!; try done. right. eauto.
Qed.

Lemma settled_accepted {R} (handle : R -> N) cid s events w' : settled handle cid s [] w' -> settled handle cid s events w'.
Proof.
  intros [H|(H1 & H2 & a & k & v & Hk & Hv & Hr & Ha & Hh)]; [by left|]. right. split_and!; [done..|]. exists a, k, v. split_and!; try done.
  destruct Hh as [Hh|[_ (e & [=] & _)]]. by left.
Qed.

Definition minted_of {T} (extract : T -> CkResult (list CkObjectHandle)) (t : T) : list CkObjectHandle :=
  match extract t with Ok handles => late_minted handles | Err _ => [] end.

(** The parts of the work agree on the keys of a result. *)
Definition work_fits {R} (handle : R -> N) (wk : MintWork R) : Prop :=
  match wk with
  | @MkMintWork _ T A call finish extract adopt answer template =>
      exists keys : T -> CkResult (list CkObjectHandle),
        keys_made (native_sent call) = minted_by keys (module T call) /\
        (forall rv, (finish (Err rv)).2 = None /\ forall a, (finish (Err rv)).1 <> Ok a) /\
        (forall a v, handle (answer a v) = v) /\
        (forall t, match finish (Ok t) with
                   | (Ok a, g) => g = None /\ minted_of extract a = minted_of keys t /\
                                  minted_of keys t = late_minted (option_list (adopt a))
                   | (Err _, g) => late_minted (option_list g) = minted_of keys t
                   end)
  end.

Lemma finished_keys {T A} (finish : CkResult T -> CkResult A * option CkObjectHandle) extract keys adopt reply :
  (forall rv, (finish (Err rv)).2 = None /\ forall a, (finish (Err rv)).1 <> Ok a) ->
  (forall t, match finish (Ok t) with
             | (Ok a, g) => g = None /\ minted_of extract a = minted_of keys t /\ minted_of keys t = late_minted (option_list (adopt a))
             | (Err _, g) => late_minted (option_list g) = minted_of keys t
             end) ->
  minted_by extract (map_reply (fun r => (finish r).1) reply) ++ late_minted (given_up finish reply) = minted_by keys reply.
Proof.
  intros He Hk.
  assert (forall r, match (finish r).1 with Ok a => minted_of extract a | Err _ => [] end ++ late_minted (option_list (finish r).2) =
                    match r with Ok t => minted_of keys t | Err _ => [] end) as H.
  { intros [t|rv].
    - specialize (Hk t). destruct (finish (Ok t)) as [[a|rv] g]; cbn; [|done]. destruct Hk as (-> & -> & _). by rewrite app_nil_r.
    - destruct (He rv) as [H2 H1]. rewrite H2. destruct (finish (Err rv)) as [[a|] g]; [by destruct (H1 a)|done]. }
  destruct reply as [r|[r|]| |]; cbn; try done; exact (H r).
Qed.

Lemma mint_run_settled {R} (handle : R -> N) blocked cid vs (on_error : CkRv -> R) prepare env w s w' :
  mint_run module raced cancelled blocked cid vs on_error prepare env w = (s, w') ->
  (forall rv, handle (on_error rv) = 0) -> (forall wk w1, prepare env w = (Ok wk, w1) -> work_fits handle wk) -> settled handle cid s [] w'.
Proof.
  unfold mint_run. intros H Herr Hfit. apply bind_ok in H as (r & w1 & Hr & H).
  destruct r as [wk|rv]; [|injection H as <- _; left; split; [done|by intros a [= <-]]]. specialize (Hfit wk w1 Hr).
  destruct wk as [T A call finish extract adopt answer template]. destruct Hfit as (keys & Hkeys & He & Ha & Hk).
  apply bind_ok in H as (reply & w2 & Hreply & H). injection Hreply as Hreply _.
  pose proof (finished_keys finish extract keys adopt reply He Hk) as Hfin.
  assert (forall d g a, from_option keys_made [] (mn_call (@MkMintServed R a (if blocked then None else call_made call reply) d g)) =
            minted_by keys reply) as Hmade.
  { intros d g a. cbn. unfold worker_reply in Hreply. destruct blocked.
    - subst reply. by destruct (module T call).
    - rewrite <- Hreply, <- Hkeys. unfold call_made. by destruct (module T call). }
  rewrite !drop_minted in H. unfold settled. destruct cancelled; [injection H as <- _; left; by rewrite Hmade|].
  destruct (mint_observed (map_reply _ reply)) as [[a|rv]|] eqn:Eo.
  3: { injection H as <- _. left. by rewrite Hmade. }
  2: { rewrite (settled_minted _ _ _ _ Eo) in H. injection H as <- _. left. rewrite Hmade. split; [done|by intros x [= <-]]. }
  assert (exists t, reply = MintDone (Ok t) /\ (finish (Ok t)).1 = Ok a) as (t & -> & Hft).
  { destruct reply as [[t|rv]| | |]; cbn in Eo; try done; [|by injection Eo as Eo; destruct (He rv) as [_ H1]; destruct (H1 a)].
    injection Eo as Eo. eauto. }
  specialize (Hk t). destruct (finish (Ok t)) as [fa g] eqn:Ef. cbn in Hft. subst fa. destruct Hk as (-> & Hx & Hy).
  destruct (adopt a) as [k|].
  - apply bind_ok in H as (v & w3 & Hv & H). apply register_cases in Hv. destruct (N.eqb_spec v 0) as [->|Hv0].
    + rewrite drop_minted in H. injection H as <- <-. left. rewrite Hmade. split; [done|]. intros x [= <-]. apply Ha.
    + injection H as <- <-. right. rewrite Hmade. cbn [mn_settled mn_given_up mn_answer mint_owner_drop given_up]. rewrite Ef. split_and!; [done..|].
      exists (answer a v), k, v. rewrite Ha. destruct Hv as [|Hv]; [done|]. split_and!; [done..|by left].
  - injection H as <- _. left. rewrite Hmade. cbn [mn_settled mn_given_up mn_answer given_up]. rewrite Ef. cbn [option_list].
    split; [by symmetry|]. intros x [= <-]. apply Ha.
Qed.

(** A worker that leaves the result as it is and adopts its only key. *)
Lemma kept_fits {R T} (handle : R -> N) (call : NativeCall T) (key : T -> CkObjectHandle) answer template :
  keys_made (native_sent call) = minted_by (fun t => Ok [key t]) (module T call) -> (forall a v, handle (answer a v) = v) ->
  work_fits handle (MkMintWork call kept (fun t => Ok [key t]) (fun t => Some (key t)) answer template).
Proof. intros Hk Ha. exists (fun t => Ok [key t]). by split_and!. Qed.

Lemma typed_fits session v parameter k wrapped template aad mech :
  work_fits ux_key_handle
    (MkMintWork (NcUnwrapTyped session v parameter k wrapped template aad) (unwrap_typed_finish mech parameter)
       (fun out => Ok [out.1.1]) (fun out => Some out.1.1) unwrap_authenticated_answer template).
Proof.
  exists (fun out => Ok [out.1]). split_and!; [done..|]. intros [key output]. cbn. by destruct (reported_output _ _).
Qed.

Lemma legacy_fits session v k wrapped template aad :
  work_fits ux_key_handle
    (MkMintWork (NcUnwrapAuthenticated session v k wrapped template aad) unwrap_legacy_finish
       (fun out => Ok [out.1.1]) (fun out => Some out.1.1) unwrap_authenticated_answer template).
Proof. exists (fun out => Ok [out.1]). by split_and!. Qed.

Lemma exact_fits session v k template spec :
  work_fits wh_object_handle
    (MkMintWork (NcEncapsulateExact session v k template spec) kept encapsulate_exact_minted encapsulate_exact_adopt
       encapsulate_exact_answer template).
Proof.
  exists encapsulate_exact_minted. split_and!; [done..|]. intros t. cbn. split_and!; [done..|].
  unfold minted_of, encapsulate_exact_minted, encapsulate_exact_adopt. destruct (rv_eqb _ _); [|done].
  destruct (oh_object_handle t) as [o|]; [|done]. unfold late_minted. cbn. destruct (object_raw o =? 0) eqn:E; cbn; rewrite ?E; done.
Qed.

Lemma unwrap_settled env req wrapped l s w w' :
  unwrap_key_impl ctx module source raced cancelled req wrapped l env w = (s, w') -> settled snd (mq_context req) s [] w'.
Proof.
  intros H. eapply mint_run_settled; [exact H|done|]. intros wk w1 Hp.
  run_step Hp hs w3. run_step Hp r w4. run_step Hp v w5. injection Hp as <- _. by apply (kept_fits _ _ (fun key => key)).
Qed.

Lemma unwrap_authenticated_settled env req wrapped l aad al envelope s w w' :
  unwrap_key_authenticated_impl ctx module source raced cancelled quarantine req wrapped l aad al envelope env w = (s, w') ->
  settled ux_key_handle (mq_context req) s [] w'.
Proof.
  intros H. eapply mint_run_settled; [exact H|done|]. intros wk w1 Hp.
  run_step Hp hs w3. run_step Hp r w4. run_step Hp typed w5. run_step Hp v w6. injection Hp as <- _.
  destruct typed; [apply typed_fits|apply legacy_fits].
Qed.

(** C17: What becomes of a key that unwrapping, encapsulation or decapsulation
    makes, in time, after the timeout, or for a caller that is gone.  Either it
    is registered in the caller's map and nothing is done to destroy it: then
    the answer names it, except that an unwrap whose audit record the sink
    refuses answers a failure without handle while the key stays registered.
    Or no answer names it, and it is handed over to be destroyed: to the
    detached settlement (which may be refused or fail; the object then stays
    until shutdown) or to the guard of the worker that found the module's
    report unacceptable (a failed destruction quarantines the object). *)
Theorem incoming_keys_owned_once env w :
  (forall req wrapped l r w', unwrap_key ctx module source emitted raced cancelled req wrapped l env w = (r, w') ->
     settled snd (mq_context req) (au_outcome r) (au_events r) w') /\
  (forall req wrapped l aad al envelope r w',
     unwrap_key_authenticated ctx module source emitted raced cancelled quarantine req wrapped l aad al envelope env w = (r, w') ->
     settled ux_key_handle (mq_context req) (au_outcome r) (au_events r) w') /\
  (forall req s w', encapsulate_key ctx module source raced cancelled req env w = (s, w') ->
     settled en_key_handle (mq_context req) s [] w') /\
  (forall req ciphertext l s w', decapsulate_key ctx module source raced cancelled req ciphertext l env w = (s, w') ->
     settled snd (mq_context req) s [] w') /\
  (forall version req spec s w', encapsulate_key_exact ctx module source raced cancelled version req spec env w = (s, w') ->
     settled wh_object_handle (mq_context req) s [] w').
Proof.
  split_and!.
  - intros req wrapped l r w' H. apply bind_ok in H as (s & w1 & H & Hr). apply unwrap_settled in H. injection Hr as <- <-.
    destruct (mn_answer s) as [[rv v]|] eqn:E; [|done]. cbn [au_outcome au_events].
    destruct (emitted _) eqn:Ee; [by apply settled_accepted|by eapply answering_settled].
  - intros req wrapped l aad al envelope r w' H. apply bind_ok in H as (s & w1 & H & Hr). apply unwrap_authenticated_settled in H.
    injection Hr as <- <-. destruct cancelled; [done|]. cbn [au_outcome au_events audit_key_outcome].
    destruct (emitted _) eqn:Ee; [|by eapply answering_settled]. apply settled_accepted. destruct s as [a c d g]. by destruct a.
  - intros req s w' H. eapply mint_run_settled; [exact H|done|]. intros wk w1 Hp.
    run_step Hp hs w3. run_step Hp r w4. run_step Hp v w5. injection Hp as <- _. by apply (kept_fits _ _ snd).
  - intros req ciphertext l s w' H. eapply mint_run_settled; [exact H|done|]. intros wk w1 Hp.
    run_step Hp hs w3. run_step Hp r w4. run_step Hp v w5. injection Hp as <- _. by apply (kept_fits _ _ (fun key => key)).
  - intros version req spec s w' H. unfold encapsulate_key_exact in H.
    destruct (exact_output_effects_version_supported _); [|injection H as <- _; left; by split]. cbn [negb] in H.
    eapply mint_run_settled; [exact H|done|]. intros wk w1 Hp.
    run_step Hp hs w3. run_step Hp r w4. run_step Hp v w5. injection Hp as <- _. apply exact_fits.
Qed.
End transport.

(** ** Concrete runs *)

Definition CKM_AES_KEY_WRAP : N := 8457.
Definition wrap_registry : MechanismRegistry := MkMechanismRegistry ∅ {[ CKM_AES_KEY_WRAP ]} ∅ Transparent "1".

(** A module that wraps every key to the same bytes and unwraps to the object
    910. *)
Definition demo_native : NativeModule := fun T c =>
  match c with
  | NcWrap _ _ _ _ => MintDone (Ok [1; 2; 3])
  | NcUnwrap _ _ _ _ _ => MintDone (Ok (MkObject 910))
  | _ => MintPanicked
  end.

Definition demo_wrap_mechanism : option (CkResult CkMechanism) := Some (Ok (MkCkMechanism CKM_AES_KEY_WRAP None)).
Definition demo_wrap : WrapRequest := MkWrapRequest "ctx" 1 1 1 demo_wrap_mechanism.
Definition demo_unwrap (template : list CkAttribute) : MintRequest :=
  MkMintRequest "ctx" 1 1 demo_wrap_mechanism (Ok (Some template)).

Definition demo_call (rpc : CallRpc) : option NativeSent * World :=
  call_of demo_hctx demo_native (Some wrap_registry) demo_encode (fun _ => None) (fun _ => true) false false [] rpc demo_env demo_world.

Lemma calls_admitted_witness :
  own_session demo_env "ctx" 1 demo_world (MkSession 71) /\
  Forall2 (own_object demo_env "ctx" demo_world) [1; 1] [MkObject 900; MkObject 900].
Proof.
  destruct (demo_call (RpcWrapKey demo_wrap)) as [[s|] w'] eqn:E; [|vm_compute in E; discriminate E].
  assert ((fun s => (call_session s, call_keys s)) <$> (demo_call (RpcWrapKey demo_wrap)).1 =
          Some (MkSession 71, [MkObject 900; MkObject 900])) as Hs by (vm_compute; reflexivity).
  rewrite E in Hs. cbn [fst fmap option_fmap option_map] in Hs. injection Hs as H1 H2.
  destruct (calls_admitted demo_hctx demo_native (Some wrap_registry) demo_encode (fun _ => None) (fun _ => true) false false []
              (RpcWrapKey demo_wrap) demo_env demo_world s w' E) as (Hsession & Hkeys & _).
  rewrite H1 in Hsession. rewrite H2 in Hkeys. exact (conj Hsession Hkeys).
Defined.

(** A policy that grants the caller secret keys only. *)
Definition secret_keys_only : TokenPolicy :=
  match from_config (fun _ => None)
          (MkAuthConfig false
             [MkPolicyEntry "uid=1000" (SpecSpecific [GrantRich (MkRichGrant "label:Audit" (Some ["secret_key"]) None Allow None)])] None) with
  | Ok p => p
  | Err _ => TokenPolicy_default
  end.

Definition confined_ctx : HandlerContext := MkHandlerContext Little secret_keys_only (Some Lp64NativeLe) 8 (fun _ => true) true.

(** A private key, on the token. *)
Definition denied_template : list CkAttribute := [(CKA_CLASS, Some (AvUlong CKO_PRIVATE_KEY)); (CKA_TOKEN, Some (AvBool true))].

(** The class gate refuses the template to [C_CreateObject], but
    [C_UnwrapKey], with the caller's own secret key, sends it to the module
    and answers with the handle of the new token object. *)
Theorem unwrap_mints_denied_class :
  (class_mint_permitted secret_keys_only "ctx" 1 denied_template None demo_env demo_world).1 = false /\
  let served := (unwrap_key confined_ctx demo_native (Some wrap_registry) (fun _ => true) false false
                   (demo_unwrap denied_template) [9] None demo_env demo_world).1 in
  let served := au_outcome served in
  mn_answer served = Some (Rv.OK, 2) /\ mn_settled served = [] /\ call_keys <$> mn_call served = Some [MkObject 900].
Proof. split; [vm_compute; reflexivity|]. vm_compute. split_and!; reflexivity. Qed.

(** A sink that refuses the record turns the answer of [C_UnwrapKey] into a
    failure, but the key exists: it is registered and nothing destroys it. *)
Theorem unrecorded_unwrap_keeps_key :
  let run := unwrap_key demo_hctx demo_native (Some wrap_registry) (fun _ => false) false false
               (demo_unwrap denied_template) [9] None demo_env demo_world in
  let served := au_outcome run.1 in
  mn_answer served = Some (Rv.FUNCTION_FAILED, 0) /\ mn_settled served = [] /\ mn_given_up served = [] /\
  (c ← contexts (w_mgr run.2) !! "ctx"; HandleMap_resolve_backend (BH 910) (object_handles c)) = Some (VH 2).
Proof. vm_compute. split_and!; reflexivity. Qed.



Lemma incoming_keys_owned_once_witness :
  let run := unwrap_key demo_hctx demo_native (Some wrap_registry) (fun _ => true) false false (demo_unwrap []) [9] None demo_env demo_world in
  mn_answer (au_outcome run.1) = Some (Rv.OK, 2) /\
  settled demo_native (fun _ => true) snd "ctx" (au_outcome run.1) (au_events run.1) run.2.
Proof.
  cbv zeta.
  destruct (unwrap_key demo_hctx demo_native (Some wrap_registry) (fun _ => true) false false (demo_unwrap []) [9] None demo_env demo_world)
    as [r w'] eqn:E. split.
  - cbn [fst]. change r with (r, w').1. rewrite <- E. vm_compute. reflexivity.
  - exact (proj1 (incoming_keys_owned_once demo_hctx demo_native (Some wrap_registry) (fun _ => true) false false [] demo_env demo_world)
      (demo_unwrap []) [9] None r w' E).
Defined.

(** A new key whose destruction failed keeps every later authenticated unwrap
    from the module. *)
Lemma failed_cleanup_blocks session object outcome quarantine :
  outcome <> Some (Ok tt) -> ensure_clear (pending_drop session object outcome quarantine) = Err Rv.DEVICE_ERROR.
Proof. destruct outcome as [[[]|rv]|]; [done|..]; intros _; cbn; by destruct quarantine. Qed.
