(* ===== verification/Slots.v ===== *)
(** * Slots, tokens and PINs

    Models [grpc_service/slot/discovery.rs] and [slot/mechanisms.rs],
    [general/info.rs], [session_handlers/management.rs] with its dispatchers in
    [session.rs], [state_ops/slot_event.rs], [async_ops.rs],
    [get_session_validation_flags] of [session_3x.rs], and
    [get_function_status] and [cancel_function] of
    [session_handlers/lifecycle.rs].

    The module is a function from calls to replies.  The structures with
    information on slots, tokens and mechanisms are copied field by field; they
    are types here. *)

From S2P Require Import Prelude Ck Width HandleMap SlotMap Connection Context Manager Session Mech Grant Policy Handler Authorize.
From S2P Require Import Shapes Registry Params KeyGen Lifecycle InitGate MessageParams.
Open Scope N_scope.

(** ** Labels of tokens *)

Definition PKCS11_TOKEN_LABEL_LEN : nat := 32.

Inductive ExactTokenLabel := LabelNull | LabelBytes (raw : list N).
Record InitTokenLabel := MkInitTokenLabel { tl_text : string; tl_exact : option ExactTokenLabel }.

Definition resolve_init_token_label (label : string) (label_exact : option (list N)) : CkResult InitTokenLabel :=
  let? exact := match label_exact with
                | None => Ok None
                | Some [] => Ok (Some LabelNull)
                | Some bytes =>
                    if bool_decide (length bytes = PKCS11_TOKEN_LABEL_LEN) then Ok (Some (LabelBytes bytes)) else Err Rv.ARGUMENTS_BAD
                end in
  Ok (MkInitTokenLabel label exact).

(** ** Calls *)

Section handlers.
Context {CkInfo CkSlotInfo CkTokenInfo CkMechanismInfo : Type}.

Inductive SlotCall : Type -> Type :=
| ScInfo : SlotCall CkInfo
| ScSlotList (token_present : bool) : SlotCall (list CkSlotId)
| ScSlotInfo (slot : BackendSlotId) : SlotCall CkSlotInfo
| ScTokenInfo (slot : BackendSlotId) : SlotCall CkTokenInfo
| ScMechanismList (slot : BackendSlotId) : SlotCall (list CkMechanismType)
| ScMechanismInfo (slot : BackendSlotId) (t : CkMechanismType) : SlotCall CkMechanismInfo
| ScInitToken (slot : BackendSlotId) (so_pin : option SecretBytes) (label : InitTokenLabel) : SlotCall unit
| ScInitPin (session : CkSessionHandle) (pin : option SecretBytes) : SlotCall unit
| ScSetPin (session : CkSessionHandle) (old_pin new_pin : option SecretBytes) : SlotCall unit
| ScWaitForSlotEvent (flags : N) : SlotCall CkSlotId
| ScFunctionStatus (session : CkSessionHandle) : SlotCall unit
| ScCancelFunction (session : CkSessionHandle) : SlotCall unit
| ScValidationFlags (session : CkSessionHandle) (flags_type : N) : SlotCall N
| ScAsyncComplete (session : CkSessionHandle) (function_name : string) : SlotCall AsyncData.

Definition SlotSent : Type := sigT SlotCall.
Definition slot_sent {T} (c : SlotCall T) : SlotSent := existT T c.

(** The answer ([None]: a transport [Status]), the call, and the slot whose
    cached information a call that is still running drops when it succeeds. *)
Record SlotServed (R : Type) := MkSlotServed { ss_answer : option R; ss_call : option SlotSent; ss_deferred : option BackendSlotId }.
Arguments MkSlotServed {R} ss_answer ss_call ss_deferred.
Arguments ss_answer {R} s.
Arguments ss_call {R} s.
Arguments ss_deferred {R} s.

Context (policy : TokenPolicy) (module : forall T, SlotCall T -> MintReply T).

Definition slot_call_made {T} (call : SlotCall T) (reply : MintReply T) : option SlotSent :=
  match reply with MintRefused => None | _ => Some (slot_sent call) end.

Definition answer_only {R} (r : R) : Handler (SlotServed R) := ret (MkSlotServed (Some r) None None).

(** One call through [spawn_backend]. *)
Definition forward_slot {R T} (call : SlotCall T) (answer : CkResult T -> R) : Handler (SlotServed R) :=
  reply <- module_call (module T call);;
  ret (MkSlotServed (answer <$> mint_observed reply) (slot_call_made call reply) None).

(** The gates of a request about a slot; [None] is a transport [Status]. *)
Definition admitted_slot (cid : ClientContextId) (slot_id : N) : Handler (option (CkResult BackendSlotId)) :=
  exists_ <- context_exists cid;;
  if negb exists_ then ret (Some (Err Rv.CRYPTOKI_NOT_INITIALIZED))
  else
    slot <- read (fun _ => resolve_slot (VSlot slot_id));;
    match slot with
    | None => ret (Some (Err Rv.SLOT_ID_INVALID))
    | Some slot =>
        authorized <- slot_is_authorized policy cid slot;;
        ret match authorized with
            | None => None
            | Some (Ok true) => Some (Ok slot)
            | Some (Ok false) => Some (Err Rv.SLOT_ID_INVALID)
            | Some (Err error) => Some (Err error)
            end
    end.

Definition on_slot {R} (cid : ClientContextId) (slot_id : N) (on_error : CkRv -> R) (k : BackendSlotId -> Handler (SlotServed R))
  : Handler (SlotServed R) :=
  slot <- admitted_slot cid slot_id;;
  match slot with
  | None => ret (MkSlotServed None None None)
  | Some (Err rv) => answer_only (on_error rv)
  | Some (Ok slot) => k slot
  end.

(** A return value and, on success, information. *)
Definition info_answer {A} (r : CkResult A) : CkRv * option A :=
  match r with Ok info => (Rv.OK, Some info) | Err error => (error, None) end.
Definition info_error {A} (rv : CkRv) : CkRv * option A := (rv, None).

(** ** Discovery *)

Definition get_info (cid : ClientContextId) : Handler (SlotServed (CkRv * option CkInfo)) :=
  exists_ <- context_exists cid;;
  if negb exists_ then answer_only (info_error Rv.CRYPTOKI_NOT_INITIALIZED) else forward_slot ScInfo info_answer.

(** The virtual identifier of a slot, which is registered if it is new. *)
Definition name_slot (slot : BackendSlotId) : Handler (option VirtualSlotId) :=
  known <- read (fun _ m => SlotMap_to_virtual slot (slot_map m));;
  match known with
  | Some v => ret (Some v)
  | None =>
      critical (fun _ m => (tt, register_slot slot m));;;
      read (fun _ m => SlotMap_to_virtual slot (slot_map m))
  end.

(** The loop of [get_slot_list], with the identifiers and the first error so
    far. *)
Fixpoint list_slots (cid : ClientContextId) (slots : list CkSlotId) (slot_ids : list N) (first_error : option CkRv)
  : Handler (option (CkRv * list N)) :=
  match slots with
  | [] => ret (Some (default Rv.OK first_error, slot_ids))
  | slot :: slots =>
      authorized <- slot_is_authorized policy cid (BSlot slot);;
      match authorized with
      | None => ret None
      | Some (Ok false) => list_slots cid slots slot_ids first_error
      | Some (Err error) => list_slots cid slots slot_ids (Some (default error first_error))
      | Some (Ok true) =>
          v <- name_slot (BSlot slot);;
          list_slots cid slots (slot_ids ++ option_list (vslot_raw <$> v)) first_error
      end
  end.

Definition get_slot_list (cid : ClientContextId) (token_present : bool) : Handler (SlotServed (CkRv * list N)) :=
  exists_ <- context_exists cid;;
  if negb exists_ then answer_only (Rv.CRYPTOKI_NOT_INITIALIZED, [])
  else
    let call := ScSlotList token_present in
    reply <- module_call (module _ call);;
    let served a := MkSlotServed a (slot_call_made call reply) None in
    match mint_observed reply with
    | None => ret (served None)
    | Some (Err error) => ret (served (Some (error, [])))
    | Some (Ok slots) =>
        listed <- list_slots cid slots [] None;;
        ret (served listed)
    end.

Definition get_slot_info (cid : ClientContextId) (slot_id : N) : Handler (SlotServed (CkRv * option CkSlotInfo)) :=
  on_slot cid slot_id info_error (fun slot => forward_slot (ScSlotInfo slot) info_answer).
Definition get_token_info (cid : ClientContextId) (slot_id : N) : Handler (SlotServed (CkRv * option CkTokenInfo)) :=
  on_slot cid slot_id info_error (fun slot => forward_slot (ScTokenInfo slot) info_answer).
Definition get_mechanism_info (cid : ClientContextId) (slot_id : N) (t : CkMechanismType)
  : Handler (SlotServed (CkRv * option CkMechanismInfo)) :=
  on_slot cid slot_id info_error (fun slot => forward_slot (ScMechanismInfo slot t) info_answer).
Definition get_mechanism_list (cid : ClientContextId) (slot_id : N) : Handler (SlotServed (CkRv * list CkMechanismType)) :=
  on_slot cid slot_id (fun rv => (rv, [])) (fun slot =>
    forward_slot (ScMechanismList slot) (fun r => match r with Ok mechanisms => (Rv.OK, mechanisms) | Err error => (error, []) end)).

(** ** Slot events *)

Definition CKF_DONT_BLOCK : N := 1.

(** The default of [Pkcs11Backend::admit_slot_wait], for a module whose
    [CK_ULONG] holds values below [limit]. *)
Definition admit_slot_wait_width_mode (limit flags : N) : CkResult unit :=
  if limit <=? flags then Err Rv.FUNCTION_FAILED
  else if N.land flags CKF_DONT_BLOCK =? 0 then Err Rv.FUNCTION_NOT_SUPPORTED
  else Ok tt.

(** A wait takes no breaker slot: it answers, or the request ends in a
    transport error. *)
Definition waited {T} (reply : MintReply T) : option (CkResult T) := match reply with MintDone r => Some r | _ => None end.

Definition no_event : CkRv * N := (Rv.NO_EVENT, 0).

Definition wait_for_slot_event (admit_slot_wait : N -> CkResult unit) (cid : ClientContextId) (flags : N)
  : Handler (SlotServed (CkRv * N)) :=
  exists_ <- context_exists cid;;
  if negb exists_ then answer_only (Rv.CRYPTOKI_NOT_INITIALIZED, 0)
  else
    match admit_slot_wait flags with
    | Err error => answer_only (error, 0)
    | Ok _ =>
        let call := ScWaitForSlotEvent flags in
        reply <- module_call (module _ call);;
        let served a := MkSlotServed a (Some (slot_sent call)) None in
        match waited reply with
        | None => ret (served None)
        | Some (Err error) => ret (served (Some (error, 0)))
        | Some (Ok slot) =>
            v <- read (fun _ m => SlotMap_to_virtual (BSlot slot) (slot_map m));;
            match v with
            | None => ret (served (Some no_event))
            | Some v =>
                authorized <- slot_is_authorized policy cid (BSlot slot);;
                ret (served match authorized with
                            | None => None
                            | Some (Ok true) => Some (Rv.OK, vslot_raw v)
                            | Some (Err error) =>
                                if rv_eqb error Rv.CRYPTOKI_NOT_INITIALIZED then Some (Rv.CRYPTOKI_NOT_INITIALIZED, 0) else Some no_event
                            | Some (Ok false) => Some no_event
                            end)
            end
        end
    end.

(** ** Token and PIN initialisation *)

Record InitTokenRequest := MkInitTokenRequest {
  it_context : ClientContextId; it_slot : N; it_so_pin : option SecretBytes; it_label : string; it_label_exact : option (list N) }.

(** [admits]: the breaker lets a worker start that will not call the module. *)
Context (admits : bool).

(** The worker: a malformed label is refused before the module is called, and
    a success drops the cached information of the slot before it is reported,
    also when nobody waits for it any more. *)
Definition init_token (req : InitTokenRequest) : Handler (SlotServed CkRv) :=
  on_slot (it_context req) (it_slot req) (fun rv => rv) (fun slot =>
    match resolve_init_token_label (it_label req) (it_label_exact req) with
    | Err rv =>
        reply <- module_call (if admits then MintDone (Err rv) else MintRefused);;
        ret (MkSlotServed (ck_rv_only <$> mint_observed reply) None None)
    | Ok label =>
        let call := ScInitToken slot (it_so_pin req) label in
        reply <- module_call (module _ call);;
        let served deferred := MkSlotServed (ck_rv_only <$> mint_observed reply) (slot_call_made call reply) deferred in
        match reply with
        | MintDone (Ok _) =>
            critical (fun _ m => (tt, invalidate_token_info_on_reinit slot m));;;
            ret (served None)
        | MintTimedOut (Some (Ok _)) => ret (served (Some slot))
        | _ => ret (served None)
        end
    end).

(** [emitted]: the audit record of a return value is accepted. *)
Definition recorded_rv (emitted : CkRv -> bool) (served : SlotServed CkRv) : SlotServed CkRv :=
  MkSlotServed ((fun rv => if emitted rv then rv else Rv.FUNCTION_FAILED) <$> ss_answer served) (ss_call served) (ss_deferred served).

Definition init_token_with_policy (emitted : CkRv -> bool) (req : InitTokenRequest) : Handler (SlotServed CkRv) :=
  served <- init_token req;; ret (recorded_rv emitted served).

(** A call on a session, with its audit record; the slot for the record is
    looked up before. *)
Definition on_session {R T} (cid : ClientContextId) (virtual_session : N) (on_error : CkRv -> R) (call : CkSessionHandle -> SlotCall T)
    (answer : CkResult T -> R) : Handler (SlotServed R) :=
  session <- critical (fun now => resolve_session now cid virtual_session);;
  match session with
  | Err rv => answer_only (on_error rv)
  | Ok session => forward_slot (call session) answer
  end.

Definition slot_for_audit (cid : ClientContextId) (virtual_session : N) : Handler (option N) :=
  slot <- critical (fun now => get_context now cid (fun c => (session_slots c !! VH virtual_session, c)));;
  match mjoin slot with
  | Some slot => read (fun _ m => vslot_raw <$> SlotMap_to_virtual slot (slot_map m))
  | None => ret None
  end.

Definition audited_session {T} (emitted : CkRv -> bool) (cid : ClientContextId) (virtual_session : N) (call : CkSessionHandle -> SlotCall T)
    (answer : CkResult T -> CkRv) : Handler (SlotServed CkRv) :=
  _ <- slot_for_audit cid virtual_session;;
  served <- on_session cid virtual_session (fun rv => rv) call answer;;
  ret (recorded_rv emitted served).

Definition init_pin (emitted : CkRv -> bool) (cid : ClientContextId) (virtual_session : N) (pin : option SecretBytes)
  : Handler (SlotServed CkRv) :=
  audited_session emitted cid virtual_session (fun session => ScInitPin session pin) ck_rv_only.
Definition set_pin (emitted : CkRv -> bool) (cid : ClientContextId) (virtual_session : N) (old_pin new_pin : option SecretBytes)
  : Handler (SlotServed CkRv) :=
  audited_session emitted cid virtual_session (fun session => ScSetPin session old_pin new_pin) ck_rv_only.

(** ** Calls on a session *)

Definition get_function_status (cid : ClientContextId) (virtual_session : N) : Handler (SlotServed CkRv) :=
  on_session cid virtual_session (fun rv => rv) ScFunctionStatus ck_rv_only.
Definition cancel_function (cid : ClientContextId) (virtual_session : N) : Handler (SlotServed CkRv) :=
  on_session cid virtual_session (fun rv => rv) ScCancelFunction ck_rv_only.
Definition get_session_validation_flags (cid : ClientContextId) (virtual_session flags_type : N) : Handler (SlotServed (CkRv * N)) :=
  on_session cid virtual_session (fun rv => (rv, 0)) (fun session => ScValidationFlags session flags_type)
    (fun r => match r with Ok flags => (Rv.OK, flags) | Err error => (error, 0) end).

Definition async_complete (cid : ClientContextId) (virtual_session : N) (function_name : string)
  : Handler (SlotServed (CkRv * option AsyncData)) :=
  on_session cid virtual_session info_error (fun session => ScAsyncComplete session function_name) info_answer.

(** The two calls that only check the session. *)
Definition session_checked {R} (cid : ClientContextId) (virtual_session : N) (on_error : CkRv -> R) (answer : R) : Handler (SlotServed R) :=
  session <- critical (fun now => resolve_session now cid virtual_session);;
  answer_only match session with Err rv => on_error rv | Ok _ => answer end.

Definition async_get_id (cid : ClientContextId) (virtual_session : N) : Handler (SlotServed (CkRv * N)) :=
  session_checked cid virtual_session (fun rv => (rv, 0)) (Rv.STATE_UNSAVEABLE, 0).
Definition async_join (cid : ClientContextId) (virtual_session : N) : Handler (SlotServed (CkRv * list N)) :=
  session_checked cid virtual_session (fun rv => (rv, [])) (Rv.SAVED_STATE_INVALID, []).
End handlers.
Arguments MkSlotServed {CkInfo CkSlotInfo CkTokenInfo CkMechanismInfo R} ss_answer ss_call ss_deferred.
Arguments ss_answer {CkInfo CkSlotInfo CkTokenInfo CkMechanismInfo R} s.
Arguments ss_call {CkInfo CkSlotInfo CkTokenInfo CkMechanismInfo R} s.
Arguments ss_deferred {CkInfo CkSlotInfo CkTokenInfo CkMechanismInfo R} s.
