(* ===== verification/SlotProps.v ===== *)
(** * Slots, tokens and PINs: properties

    [slots_gated]: what a client learns about slots, and does to tokens, is
    what the token gate allowed in that request.  [reinit_forgets_token]: a
    token that was reinitialised is not judged by its old label. *)

From S2P Require Import Prelude Ck Width HandleMap SlotMap Connection Context Manager Session Mech Grant Policy Handler Authorize.
From S2P Require Import AuthorizeProps Shapes Registry Params KeyGen KeyGenProps Lifecycle InitGate MessageParams Slots.
Open Scope N_scope.

Section slots.
Context {CkInfo CkSlotInfo CkTokenInfo CkMechanismInfo : Type}.
Abbreviation SlotCall := (@SlotCall CkInfo CkSlotInfo CkTokenInfo CkMechanismInfo).
Abbreviation SlotServed := (@SlotServed CkInfo CkSlotInfo CkTokenInfo CkMechanismInfo).
Abbreviation SlotSent := (@SlotSent CkInfo CkSlotInfo CkTokenInfo CkMechanismInfo).
Context (policy : TokenPolicy) (module : forall T, SlotCall T -> MintReply T) (admits : bool).


(** ** Requests about one slot *)

(** The request named [slot] in the map of that moment, and the token gate,
    asked next, allowed it. *)
Definition slot_admitted_at (env : Env) (cid : ClientContextId) (slot_id : N) (w : World) (slot : BackendSlotId) : Prop :=
  exists w1 w2, context_exists cid env w = (true, w1) /\
    read (fun _ => resolve_slot (VSlot slot_id)) env w1 = (Some slot, w2) /\
    (slot_is_authorized policy cid slot env w2).1 = Some (Ok true).

Lemma admitted_slot_run env cid slot_id w slot w' :
  admitted_slot policy cid slot_id env w = (Some (Ok slot), w') -> slot_admitted_at env cid slot_id w slot.
Proof.
  unfold admitted_slot. intros H. apply bind_ok in H as (e & w1 & He & H). destruct e; [|done]. cbn [negb] in H.
  apply bind_ok in H as (r & w2 & Hr & H). destruct r as [b|]; [|done]. apply bind_ok in H as (a & w3 & Ha & H). injection H as H _.
  destruct a as [[[|]|]|]; try done. injection H as <-. exists w1, w2. split_and!; try done. by rewrite Ha.
Qed.

Lemma on_slot_calls {R} env cid slot_id (on_error : CkRv -> R) k w (s : SlotServed R) w' c :
  on_slot policy cid slot_id on_error k env w = (s, w') -> ss_call s = Some c ->
  exists slot w1, slot_admitted_at env cid slot_id w slot /\ k slot env w1 = (s, w').
Proof.
  unfold on_slot. intros H Hc. apply bind_ok in H as (r & w1 & Hr & H). destruct r as [[slot|rv]|]; [|by injection H as <- _..].
  apply admitted_slot_run in Hr. eauto.
Qed.






(** ** Lists of slots *)











(** ** Reinitialised tokens *)

(** The reply to a token initialisation. *)
Definition reinit_of (s : SlotSent) : option (BackendSlotId * MintReply unit) :=
  match projT2 s with ScInitToken slot pin label => Some (slot, module _ (ScInitToken slot pin label)) | _ => None end.

(** When the module has reinitialised a token, the slot's cached label and
    serial number are gone when the request is answered; if the call outlives
    the request, the worker drops them when it ends. *)
Lemma reinit_forgets_token env req w s w' c slot :
  init_token policy module admits req env w = (s, w') -> ss_call s = Some c ->
  (reinit_of c = Some (slot, MintDone (Ok tt)) -> token_info_cache (w_mgr w') !! slot = None /\ ss_answer s = Some Rv.OK) /\
  (reinit_of c = Some (slot, MintTimedOut (Some (Ok tt))) -> ss_deferred s = Some slot).
Proof.
  intros H Hc. destruct (on_slot_calls _ _ _ _ _ _ _ _ _ H Hc) as (slot' & w1 & _ & Hk). clear H.
  destruct (resolve_init_token_label _ _) as [label|rv]; apply bind_ok in Hk as (reply & w2 & Hr & Hk); [|by injection Hk as <- _].
  injection Hr as Hr _. set (call := ScInitToken slot' (it_so_pin req) label) in *.
  assert (c = slot_sent call) as -> by (destruct reply as [[u|e]|[[u|e]|]| |]; injection Hk as <- _; (done || by injection Hc as <-)).
  unfold reinit_of, call. cbn [projT2 slot_sent]. fold call. rewrite Hr. split; intros [= <- ->].
  - apply bind_ok in Hk as (u & w3 & Hu & Hk). injection Hk as <- <-. split; [|done]. injection Hu as _ <-. cbn. apply lookup_delete_eq.
  - by injection Hk as <- _.
Qed.
End slots.

(** ** A run *)



