(* ===== verification/LoginUser.v ===== *)
(** * [C_LoginUser]

    Models [login_user] of [grpc_service/session_3x.rs], which repeats the
    code of [login] with a user name.  [login_user_matches_login] states where
    the two agree, [login_user_leaves_orphan] where they do not. *)

From S2P Require Import Prelude Ck HandleMap SlotMap Connection Context Manager Teardown Session.
Open Scope N_scope.

(** ** Operations *)

Record LoginUserRequest := MkLoginUserRequest { lu_login : LoginRequest; lu_username : option SecretBytes }.

(** A native [C_LoginUser]. *)
Record LoginUserCall := MkLoginUserCall {
  lc_session : CkSessionHandle; lc_user_type : CkUserType; lc_username : option SecretBytes; lc_pin : option SecretBytes }.

Record LoginUserOutcome := MkLoginUserOutcome {
  luo_rv : option CkRv; luo_calls : list LoginUserCall; luo_budget : BudgetEvent; luo_mgr : ContextManager }.

(** The tail, once the module has answered. *)
Definition login_user_settle (req : LoginRequest) (env : LoginEnv) (requested : option LoginState) (session : CkSessionHandle)
    (slot : BackendSlotId) (result : CkResult N) (calls : list LoginUserCall) (m : ContextManager) : LoginUserOutcome :=
  let cid := lr_context req in
  match result with
  | Ok _ =>
      let '(fresh, m) := resolve_session_slot_login (env_now env) cid (lr_session req) m in
      match fresh with
      | Ok (fresh_session, fresh_slot, _) =>
          if bool_decide (fresh_session = session) && bool_decide (fresh_slot = slot) then
            let m := env_at_verify env m in
            let m := match requested with
                     | Some login =>
                         let '(inserted, m) := get_context (env_now env) cid (fun ctx => (tt, ctx <| login_state ::= <[slot := login]> |>)) m in
                         if bool_decide (is_Some inserted) then note_login_acquired cid slot m else m
                     | None => m
                     end in
            MkLoginUserOutcome (Some Rv.OK) calls BudgetSuccess m
          else MkLoginUserOutcome (Some Rv.SESSION_HANDLE_INVALID) calls BudgetNone m
      | Err _ => MkLoginUserOutcome (Some Rv.SESSION_HANDLE_INVALID) calls BudgetNone m
      end
  | Err error =>
      let pin_wrong := rv_eqb error Rv.PIN_INCORRECT || rv_eqb error Rv.PIN_INVALID || rv_eqb error Rv.PIN_LEN_RANGE in
      let already := rv_eqb error Rv.USER_ALREADY_LOGGED_IN || rv_eqb error Rv.USER_ANOTHER_ALREADY_LOGGED_IN in
      let m := if already && bool_decide (is_Some (lr_pin req)) && bool_decide (is_Some requested)
               then (get_context (env_now env) cid (fun ctx => (tt, ctx <| contended_slot_login ::= fun s => s ∪ {[ slot ]} |>)) m).2
               else m in
      MkLoginUserOutcome (Some error) calls (if pin_wrong then BudgetFailure else BudgetNone) m
  end.

Definition login_user_inner (env : LoginEnv) (req : LoginUserRequest) (m : ContextManager) : LoginUserOutcome :=
  let login := lu_login req in
  let cid := lr_context login in
  let now := env_now env in
  let refused rv m := MkLoginUserOutcome (Some rv) [] BudgetNone m in
  match CkUserType_from_raw (lr_user_type login) with
  | None => refused Rv.USER_TYPE_INVALID m
  | Some user_type =>
      match resolve_session_slot_login now cid (lr_session login) m with
      | (Err rv, m) => refused rv m
      | (Ok (_, slot, _), m) =>
          let m := env_at_lock env m in
          if negb (env_lock env) then refused Rv.GENERAL_ERROR m
          else
            match resolve_session_slot_login now cid (lr_session login) m with
            | (Err rv, m) => refused rv m
            | (Ok (session, resolved_slot, _), m) =>
                if negb (bool_decide (resolved_slot = slot)) then refused Rv.SESSION_HANDLE_INVALID m
                else if env_cooldown env then refused Rv.PIN_LOCKED m
                else
                  let calls := [MkLoginUserCall session user_type (lu_username req) (lr_pin login)] in
                  let m := env_at_login env m in
                  match env_login env with
                  | None => MkLoginUserOutcome None calls BudgetNone m
                  | Some result => login_user_settle login env (login_state_for_user_type user_type) session slot result calls m
                  end
            end
      end
  end.

(** The dispatcher: the slot for the record is looked up before, and an answer
    whose record is refused is replaced. *)
Definition login_user (emitted : CkRv -> bool) (env : LoginEnv) (req : LoginUserRequest) (m : ContextManager) : LoginUserOutcome :=
  let login := lu_login req in
  let m := (get_context (env_now env) (lr_context login) (fun c => (session_slots c !! VH (lr_session login), c)) m).2 in
  let outcome := login_user_inner env req m in
  MkLoginUserOutcome ((fun rv => if emitted rv then rv else Rv.FUNCTION_FAILED) <$> luo_rv outcome)
    (luo_calls outcome) (luo_budget outcome) (luo_mgr outcome).

(** ** Agreement with [C_Login] *)

Definition as_login (c : LoginUserCall) : BackendCall := CallLogin (session_raw (lc_session c)) (lc_user_type c) (lc_pin c).

(** The outcome of a [C_Login] that made the same calls. *)
Definition as_login_outcome (o : LoginUserOutcome) : LoginOutcome :=
  MkLoginOutcome (luo_rv o) (as_login <$> luo_calls o) (luo_budget o) (luo_mgr o).

Lemma settle_agrees req env requested session slot result calls m :
  as_login_outcome (login_user_settle req env requested session slot result calls m) =
  login_settle req env requested session slot result (as_login <$> calls) m.
Proof.
  unfold login_user_settle, login_settle, still_bound, mint_login, is_already. destruct result as [n|error].
  - destruct (resolve_session_slot_login _ _ _ m) as [[[[s sl] st]|rv] m1]; [|done]. destruct (bool_decide _ && bool_decide _); [|done].
    destruct requested as [st'|]; [|done]. by destruct (get_context _ _ _ _) as [[[]|] m2].
  - by destruct (_ && _ && _).
Qed.

(** [C_Login]'s answer says that the user is logged in while no client of the
    daemon holds a login on the slot, the case in which it logs out and tries
    again. *)
Definition orphan_login (env : LoginEnv) (req : LoginRequest) (m : ContextManager) : bool :=
  match env_login env with
  | Some (Err rv) =>
      is_already rv &&
      match resolve_session_slot_login (env_now env) (lr_context req) (lr_session req) m with
      | (Ok (_, slot, _), m) =>
          let m := env_at_lock env m in
          let m := (resolve_session_slot_login (env_now env) (lr_context req) (lr_session req) m).2 in
          negb (any_login_state_for_slot slot (env_at_login env m))
      | (Err _, _) => false
      end
  | _ => false
  end.

(** C37: [C_LoginUser] does what [C_Login] does, in every environment: the same
    answer, the same calls but for the user name, the same event for the
    failed-login budget, and the same state of the manager; except where
    [C_Login] meets a login that no client holds. *)
Theorem login_user_matches_login env req m :
  orphan_login env (lu_login req) m = false ->
  as_login_outcome (login_user_inner env req m) = login env (lu_login req) m.
Proof.
  intros Ho. unfold login_user_inner, login, orphan_login in *. destruct (CkUserType_from_raw _) as [user_type|]; [|done].
  destruct (resolve_session_slot_login _ _ _ m) as [[[[s0 slot] st0]|rv] m1]; [|done]. destruct (env_lock env); [|done]. cbn [negb].
  destruct (resolve_session_slot_login _ _ _ (env_at_lock env m1)) as [[[[session slot'] st]|rv] m2]; [|done].
  destruct (bool_decide (slot' = slot)); [|done]. cbn [negb]. destruct (env_cooldown env); [done|].
  destruct (env_login env) as [[n|rv]|]; [|cbn [snd] in Ho; rewrite Ho|done].
  - apply settle_agrees.
  - apply settle_agrees.
Qed.

(** ** Runs *)

Definition demo_login_user : LoginUserRequest := MkLoginUserRequest demo_login (Some [117]).

Lemma login_user_matches_login_witness :
  luo_rv (login_user_inner (quiet_env (fun m => m)) demo_login_user demo_before_login) = Some Rv.OK /\
  as_login_outcome (login_user_inner (quiet_env (fun m => m)) demo_login_user demo_before_login) =
    login (quiet_env (fun m => m)) demo_login demo_before_login.
Proof.
  split; [vm_compute; reflexivity|]. apply (login_user_matches_login (quiet_env (fun m => m)) demo_login_user demo_before_login).
  vm_compute. reflexivity.
Defined.

(** The module says that the user is logged in; a logout and a second login
    succeed. *)
Definition orphan_env : LoginEnv :=
  MkLoginEnv 7 true (fun m => m) false (Some (Err Rv.USER_ALREADY_LOGGED_IN)) (fun m => m) (Some (Ok 0)) (fun m => m)
    true (Some (Ok 0)) (fun m => m) (fun m => m).

(** Where no client holds a login on the slot, [C_Login] logs the module out
    and in again and records the login; [C_LoginUser] answers with the error,
    and no client can log in to the slot with it. *)
Theorem login_user_leaves_orphan :
  lo_rv (login orphan_env demo_login demo_before_login) = Some Rv.OK /\
  length (lo_trace (login orphan_env demo_login demo_before_login)) = 3%nat /\
  luo_rv (login_user_inner orphan_env demo_login_user demo_before_login) = Some Rv.USER_ALREADY_LOGGED_IN /\
  length (luo_calls (login_user_inner orphan_env demo_login_user demo_before_login)) = 1%nat.
Proof. vm_compute. split_and!; reflexivity. Qed.
