(* ===== verification/Discovery.v ===== *)
(** * Discovery of the backend's interfaces

    Models [grpc_service/general/interface_caps.rs]: the context-free request
    that tells a shim what the backend supports, with the limiter in front of
    it and the cache of one rendered answer.  Modelled as it is shipped: the
    build switch for tests that forces an advertisement is off. *)

From S2P Require Import Prelude Ck Context Shapes RateLimit.
Open Scope N_scope.

(** Nanoseconds. *)
Definition DISCOVERY_CACHE_TTL : N := 5000000000.
Definition EXACT_TOKEN_LABEL_VERSION : N := 1.

Record InterfaceInfo := MkInterfaceInfo { if_version_major : N; if_version_minor : N; if_null_functions : list string }.

(** What a backend reports about itself; byte order 1 is little-endian. *)
Record BackendFacts := MkBackendFacts {
  bf_interfaces : list InterfaceInfo; bf_ulong_size : N; bf_byte_order : N; bf_attribute_stride : N; bf_abi : option ParamAbi }.

(** The rows of the parameter manifest, with whether they are complete. *)
Definition manifest_complete (manifest : list (string * bool)) : bool := negb (bool_decide (manifest = [])) && forallb snd manifest.

(** The numbers of [MechanismParamAbi] on the wire. *)
Definition abi_to_wire (abi : ParamAbi) : N :=
  match abi with Lp64NativeLe => 1 | Ilp32NativeLe => 2 | Llp64Packed1Le => 3 | Ilp32Packed1Le => 4 end.

Definition daemon_mechanism_param_abi (abi : option ParamAbi) (width byte_order : N) : option N :=
  abi ← abi;
  if negb (ulong_size abi =? width) || negb (byte_order =? 1) then None else Some (abi_to_wire abi).

Definition test_mechanism_params_v1_override_enabled : bool := false.
Definition override_advertisement (derived_abi : option N) (override_active : bool) : option N * option N := (None, None).

Definition resolve_mechanism_param_advertisement (derived_abi : option N) (freeze_ok override_active : bool) : option N * option N :=
  if override_active then override_advertisement derived_abi true
  else if freeze_ok then (Some 1, derived_abi)
  else (None, None).

Section discovery.
(** The registry payloads: an [Arc] is its address, and its content does not
    change.  The cache keeps the one it compares with alive, so no other takes
    its address. *)
Context {Payload : Type} (content : N -> Payload) (manifest : list (string * bool)).

Record GetBackendInterfacesResponse := MkInterfacesResponse {
  gi_exact_output_effects_version : option N; gi_pointer_safe_authenticated_parameters : option bool;
  gi_interfaces : list InterfaceInfo; gi_mechanism_registry : option Payload; gi_backend_ulong_size : option N;
  gi_backend_byte_order : option N; gi_backend_attribute_stride : option N; gi_pointer_safe_message_parameters : option bool;
  gi_mechanism_parameter_transport_version : option N; gi_backend_mechanism_abi : option N; gi_exact_token_label_version : option N }.

Record DiscoveryCacheEntry := MkCacheEntry {
  ce_backend_id : N; ce_payload : N; ce_response : GetBackendInterfacesResponse; ce_stored_at : N }.
Definition DiscoveryCache : Type := option DiscoveryCacheEntry.

Definition DiscoveryCache_get (now backend_id payload : N) (cache : DiscoveryCache) : option GetBackendInterfacesResponse :=
  entry ← cache;
  if negb (ce_backend_id entry =? backend_id) then None
  else if negb (ce_payload entry =? payload) then None
  else if DISCOVERY_CACHE_TTL <=? duration_since now (ce_stored_at entry) then None
  else Some (ce_response entry).

Definition DiscoveryCache_put (now backend_id payload : N) (response : GetBackendInterfacesResponse) (cache : DiscoveryCache)
  : DiscoveryCache := Some (MkCacheEntry backend_id payload response now).

Definition render_interfaces (facts : BackendFacts) (payload : N) : GetBackendInterfacesResponse :=
  let derived := daemon_mechanism_param_abi (bf_abi facts) (bf_ulong_size facts) (bf_byte_order facts) in
  let advertised := resolve_mechanism_param_advertisement derived (manifest_complete manifest) test_mechanism_params_v1_override_enabled in
  MkInterfacesResponse (Some 1) (Some true) (bf_interfaces facts) (Some (content payload)) (Some (bf_ulong_size facts))
    (Some (bf_byte_order facts)) (Some (bf_attribute_stride facts)) (Some true) advertised.1 advertised.2 (Some EXACT_TOKEN_LABEL_VERSION).

(** A request: the clock, the caller's address (none off TCP), the backend that
    serves it ([dy_backend], which the code does not look at: it knows the
    backend by its address [dy_backend_id], which another may take when it is
    dropped), what that reports and what the source holds ([None]: its lock is poisoned), and whether the locks of the cache
    are taken when it is read and written. *)
Record DiscoveryCall := MkDiscoveryCall {
  dy_now : N; dy_peer : option string; dy_gc_lock : bool; dy_backend : N; dy_backend_id : N; dy_facts : BackendFacts; dy_payload : option N;
  dy_lock_get : bool; dy_lock_put : bool }.

Inductive DiscoveryStatus := DsResourceExhausted (retry_after : N) | DsInternal.

Record DiscoveryState := MkDiscoveryState { ds_limiter : option LimiterState; ds_cache : DiscoveryCache }.

Definition get_backend_interfaces (call : DiscoveryCall) (st : DiscoveryState)
  : Result GetBackendInterfacesResponse DiscoveryStatus * DiscoveryState :=
  let '(limited, limiter) := match dy_peer call with
                             | Some peer => check_against (ds_limiter st) (dy_gc_lock call) peer (dy_now call)
                             | None => (Ok tt, ds_limiter st)
                             end in
  let st := MkDiscoveryState limiter (ds_cache st) in
  match limited with
  | Err retry_after => (Err (DsResourceExhausted retry_after), st)
  | Ok _ =>
      match dy_payload call with
      | None => (Err DsInternal, st)
      | Some payload =>
          let override_active := test_mechanism_params_v1_override_enabled in
          match (if negb override_active && dy_lock_get call
                 then DiscoveryCache_get (dy_now call) (dy_backend_id call) payload (ds_cache st) else None) with
          | Some cached => (Ok cached, st)
          | None =>
              let response := render_interfaces (dy_facts call) payload in
              (Ok response,
               if negb override_active && dy_lock_put call
               then MkDiscoveryState limiter (DiscoveryCache_put (dy_now call) (dy_backend_id call) payload response (ds_cache st))
               else st)
          end
      end
  end.

(** ** Runs *)

(** The answers of a sequence of requests, with the state after it. *)
Fixpoint discover (calls : list DiscoveryCall) (st : DiscoveryState)
  : list (Result GetBackendInterfacesResponse DiscoveryStatus) * DiscoveryState :=
  match calls with
  | [] => ([], st)
  | call :: calls =>
      let '(answer, st) := get_backend_interfaces call st in
      let '(answers, st) := discover calls st in
      (answer :: answers, st)
  end.

(** No two backends had the same address. *)
Definition addresses_kept (calls : list DiscoveryCall) : Prop :=
  forall a b, a ∈ calls -> b ∈ calls -> dy_backend_id a = dy_backend_id b -> dy_backend a = dy_backend b.

(** [response] was rendered by a request of [calls] on a backend at the same
    address and on the same payload as [call], less than the limit before it;
    on the same backend, unless an address was reused. *)
Definition fresh_for (calls : list DiscoveryCall) (call : DiscoveryCall) (response : GetBackendInterfacesResponse) : Prop :=
  exists origin payload, origin ∈ calls /\ dy_backend_id origin = dy_backend_id call /\
    dy_payload origin = Some payload /\ dy_payload call = Some payload /\
    duration_since (dy_now call) (dy_now origin) < DISCOVERY_CACHE_TTL /\ response = render_interfaces (dy_facts origin) payload /\
    (addresses_kept calls -> dy_backend origin = dy_backend call).

Definition cache_from (calls : list DiscoveryCall) (cache : DiscoveryCache) : Prop :=
  forall entry, cache = Some entry ->
    exists origin, origin ∈ calls /\ dy_backend_id origin = ce_backend_id entry /\ dy_payload origin = Some (ce_payload entry) /\
      dy_now origin = ce_stored_at entry /\ ce_response entry = render_interfaces (dy_facts origin) (ce_payload entry).

Lemma cache_from_mono calls calls' cache : (forall c, c ∈ calls -> c ∈ calls') -> cache_from calls cache -> cache_from calls' cache.
Proof. intros Hs Hc entry He. destruct (Hc entry He) as (o & ? & ?). eauto 10. Qed.

Lemma cache_get_some now backend_id payload cache r :
  DiscoveryCache_get now backend_id payload cache = Some r ->
  exists entry, cache = Some entry /\ ce_backend_id entry = backend_id /\ ce_payload entry = payload /\
    duration_since now (ce_stored_at entry) < DISCOVERY_CACHE_TTL /\ r = ce_response entry.
Proof.
  unfold DiscoveryCache_get. destruct cache as [entry|]; [|done]. cbn.
  destruct (N.eqb_spec (ce_backend_id entry) backend_id); [|done]. destruct (N.eqb_spec (ce_payload entry) payload); [|done]. cbn.
  destruct (N.leb_spec DISCOVERY_CACHE_TTL (duration_since now (ce_stored_at entry))); [done|]. intros [= <-]. by exists entry.
Qed.

Lemma discovery_step past call st answer st' :
  get_backend_interfaces call st = (answer, st') -> cache_from past (ds_cache st) ->
  cache_from (past ++ [call]) (ds_cache st') /\ (forall r, answer = Ok r -> fresh_for (past ++ [call]) call r).
Proof.
  unfold get_backend_interfaces. destruct (match dy_peer call with Some _ => _ | None => _ end) as [limited limiter].
  intros H Hc. assert (cache_from (past ++ [call]) (ds_cache st)) as Hkeep by (eapply cache_from_mono; [|exact Hc]; set_solver).
  destruct limited; [|by injection H as <- <-]. destruct (dy_payload call) as [payload|] eqn:Ep; [|by injection H as <- <-].
  cbn [negb andb ds_cache test_mechanism_params_v1_override_enabled] in H.
  assert (fresh_for (past ++ [call]) call (render_interfaces (dy_facts call) payload)) as Hnew.
  { exists call, payload. split_and!; try done; [set_solver|]; unfold duration_since, DISCOVERY_CACHE_TTL. lia. }
  destruct (if dy_lock_get call then _ else None) as [cached|] eqn:Eg.
  - injection H as <- <-. split; [done|]. intros r [= <-]. destruct (dy_lock_get call); [|done].
    apply cache_get_some in Eg as (entry & He & Hb & Hp & Hage & ->). destruct (Hkeep entry He) as (o & Ho & H1 & H2 & H3 & H4).
    exists o, payload. rewrite <- Hp, H3. split_and!; try done; [congruence..|]. intros Hk. apply Hk; [done|set_solver|congruence].
  - injection H as <- <-. split; [|by intros r [= <-]]. destruct (dy_lock_put call); [|done].
    intros entry [= <-]. exists call. split_and!; try done. set_solver.
Qed.

Lemma discover_fresh calls : forall past st answers st',
  discover calls st = (answers, st') -> cache_from past (ds_cache st) ->
  forall i call r, calls !! i = Some call -> answers !! i = Some (Ok r) -> fresh_for (past ++ take (S i) calls) call r.
Proof.
  induction calls as [|c calls IH]; intros past st answers st' H Hc i call r Hi Ha; [done|]. cbn [discover] in H.
  destruct (get_backend_interfaces c st) as [answer st1] eqn:E. destruct (discover calls st1) as [rest st2] eqn:Er. injection H as <- <-.
  destruct (discovery_step past c st answer st1 E Hc) as [Hc1 Hf]. destruct i as [|i].
  - injection Hi as <-. injection Ha as ->. cbn. by apply Hf.
  - specialize (IH (past ++ [c]) st1 rest st2 Er Hc1 i call r Hi Ha). by rewrite <- app_assoc in IH.
Qed.

(** C38: Whatever requests came before, an answer is the rendering, for the payload
    the source holds now, of what a backend at the same address reported to a
    request that is less than five seconds older, or to this one: the cache
    never serves a rotated registry or an older rendering.  It is the same
    backend, provided no backend took the address of a dropped one; the cache
    itself cannot tell ([reused_address_answers_for_other]). *)
Theorem discovery_answers_fresh limiter calls answers st i call r :
  discover calls (MkDiscoveryState limiter None) = (answers, st) ->
  calls !! i = Some call -> answers !! i = Some (Ok r) -> fresh_for (take (S i) calls) call r.
Proof. intros H Hi Ha. eapply (discover_fresh calls [] _ _ _ H); [by intros ?|done..]. Qed.

(** An advertised layout is the backend's own, and agrees with the width and
    the byte order the same answer states. *)
Lemma advertised_abi_coherent facts payload n :
  gi_backend_mechanism_abi (render_interfaces facts payload) = Some n ->
  exists abi, bf_abi facts = Some abi /\ n = abi_to_wire abi /\
    gi_backend_ulong_size (render_interfaces facts payload) = Some (ulong_size abi) /\ gi_backend_byte_order (render_interfaces facts payload) = Some 1.
Proof.
  unfold render_interfaces, resolve_mechanism_param_advertisement, daemon_mechanism_param_abi. cbn.
  destruct (manifest_complete manifest); cbn; [|done]. destruct (bf_abi facts) as [abi|]; [|done]. cbn.
  destruct (N.eqb_spec (ulong_size abi) (bf_ulong_size facts)) as [Hu|]; [|done].
  destruct (N.eqb_spec (bf_byte_order facts) 1) as [Ho|]; [|done]. cbn. intros [= <-]. exists abi. by rewrite Hu, Ho.
Qed.
End discovery.

(** ** A run *)

Definition demo_facts (size : N) : BackendFacts := MkBackendFacts [] size 1 24 (Some Lp64NativeLe).
Definition demo_discovery (now size : N) : DiscoveryCall := MkDiscoveryCall now (Some "peer") true 1 7 (demo_facts size) (Some 1) true true.

(** A second backend that took the address of the first is answered for by it. *)
Theorem reused_address_answers_for_other :
  let other := MkDiscoveryCall 20 (Some "peer") true 2 7 (demo_facts 4) (Some 1) true true in
  (discover (fun p => p) [("gcm", true)] [demo_discovery 10 8; other] (MkDiscoveryState None None)).1 !! 1%nat =
    Some (Ok (render_interfaces (fun p => p) [("gcm", true)] (demo_facts 8) 1)).
Proof. vm_compute. reflexivity. Qed.

(** The second request is answered from the cache. *)
Lemma discovery_answers_fresh_witness :
  fresh_for (fun p => p) [("gcm", true)] [demo_discovery 10 8; demo_discovery 20 4] (demo_discovery 20 4)
    (render_interfaces (fun p => p) [("gcm", true)] (demo_facts 8) 1).
Proof.
  apply (discovery_answers_fresh (fun p => p) [("gcm", true)] None [demo_discovery 10 8; demo_discovery 20 4]
    [Ok (render_interfaces (fun p => p) [("gcm", true)] (demo_facts 8) 1); Ok (render_interfaces (fun p => p) [("gcm", true)] (demo_facts 8) 1)]
    (MkDiscoveryState None (Some (MkCacheEntry 7 1 (render_interfaces (fun p => p) [("gcm", true)] (demo_facts 8) 1) 10))) 1).
  - vm_compute. reflexivity.
  - reflexivity.
  - reflexivity.
Defined.
