(* ===== verification/SessionFence.v ===== *)
(** * Session fences of the FFI backend

    Models [crates/backend/src/ffi/session_fence.rs] and the session life
    cycle around it: opening and closing sessions ([ffi_open_session],
    [ffi_close_session], [ffi_close_all_sessions] of [session_ops.rs]) and the
    per-session caches of [call_helpers.rs].

    Threads interleave freely.  A thread is a program counter; every access to
    a shared cell (an atomic, a [DashMap] entry) is one step.  Fences live on a
    heap, as the [Arc]s do: a thread keeps the fence it looked up although the
    table entry may be gone.  While a thread is at [OpHeld] it runs an ordinary
    native call on its session, and at [CloseHeld] the native close.

    The two closes also hold the mutex of the object lifetimes around the native
    call.  It is the last lock they take and is released before the settlement;
    it is left out here, which only adds interleavings. *)

From stdpp Require Import sorting.
From S2P Require Import Prelude Ck.
Open Scope N_scope.

(** ** Data *)

Definition FENCE_OPEN : N := u64_MAX.
Definition FENCE_CLOSING : N := u64_MAX - 1.

(** [fence_session], the session a fence was created for, is ghost state. *)
Record SessionFence := MkFence {
  readers : N;
  lifecycle : N;
  incarnation : N;
  fence_session : N;
}.
#[export] Instance SessionFence_eta : Eta SessionFence := fun f =>
  MkFence (readers f) (lifecycle f) (incarnation f) (fence_session f).

Definition SessionFence_new (incarnation session : N) : SessionFence := MkFence 0 FENCE_OPEN incarnation session.

Abbreviation FenceRef := nat.

Inductive OperationFamily := Encrypt | Decrypt | Digest | Sign | Verify | SignRecover | VerifyRecover.
#[export] Instance OperationFamily_eq_dec : EqDecision OperationFamily.
Proof. solve_decision. Defined.

Definition OperationFamily_ALL : list OperationFamily :=
  [Encrypt; Decrypt; Digest; Sign; Verify; SignRecover; VerifyRecover].

#[export] Instance OperationFamily_countable : Countable OperationFamily.
Proof.
  refine (inj_countable
    (fun f => match f with Encrypt => 0 | Decrypt => 1 | Digest => 2 | Sign => 3 | Verify => 4 | SignRecover => 5
              | VerifyRecover => 6 end)%nat
    (fun n => OperationFamily_ALL !! n) _).
  by intros [].
Defined.


(** The fields of [FfiBackend] the session life cycle touches; a retained
    mechanism graph is its address.  [native] is ghost state: the sessions open in the provider, with their slots. *)
Record FfiBackend := MkFfi {
  fences : gmap N FenceRef;
  fence_heap : list SessionFence;
  NEXT_FENCE_INCARNATION : N;
  mech_cache : gmap (N * OperationFamily) N;
  last_init_family : gmap N OperationFamily;
  session_slot_map : gmap N N;
  slot_sessions : gmap N (gset N);
  native : gmap N N;
}.
#[export] Instance FfiBackend_eta : Eta FfiBackend := fun b =>
  MkFfi (fences b) (fence_heap b) (NEXT_FENCE_INCARNATION b) (mech_cache b) (last_init_family b)
    (session_slot_map b) (slot_sessions b) (native b).

Definition FfiBackend_new : FfiBackend := MkFfi ∅ [] 1 ∅ ∅ ∅ ∅ ∅.

(** ** Fence accesses *)

(** [entry(session).or_insert_with(..).clone()]. *)
Definition fence_or_create (s : N) (b : FfiBackend) : FenceRef * FfiBackend :=
  match fences b !! s with
  | Some f => (f, b)
  | None =>
      let f := length (fence_heap b) in
      (f, b <| fences ::= <[s := f]> |>
            <| fence_heap ::= fun h => h ++ [SessionFence_new (NEXT_FENCE_INCARNATION b) s] |>
            <| NEXT_FENCE_INCARNATION ::= fun n => wrapping_add64 n 1 |>)
  end.

Definition incarnation_or_create (s : N) (b : FfiBackend) : N * FfiBackend :=
  let '(f, b) := fence_or_create s b in
  (match fence_heap b !! f with Some fe => incarnation fe | None => 0 end, b).

Definition session_incarnation (s : N) (b : FfiBackend) : option N :=
  f ← fences b !! s; fe ← fence_heap b !! f; Some (incarnation fe).

Definition set_lifecycle (f : FenceRef) (v : N) (b : FfiBackend) : FfiBackend :=
  b <| fence_heap ::= alter (fun fe => fe <| lifecycle := v |>) f |>.

Definition wrapping_sub64 (a b : N) : N := (a + (u64_modulus - b)) mod u64_modulus.

Definition add_reader (f : FenceRef) (b : FfiBackend) : FfiBackend :=
  b <| fence_heap ::= alter (fun fe => fe <| readers ::= fun n => wrapping_add64 n 1 |>) f |>.
Definition sub_reader (f : FenceRef) (b : FfiBackend) : FfiBackend :=
  b <| fence_heap ::= alter (fun fe => fe <| readers ::= fun n => wrapping_sub64 n 1 |>) f |>.

(** [enter_write_all] sorts and removes duplicates. *)
Fixpoint dedup (l : list N) : list N :=
  match l with
  | a :: (b :: _) as l' => if a =? b then dedup l' else a :: dedup l'
  | _ => l
  end.
Definition write_order (sessions : list N) : list N := dedup (merge_sort N.le sessions).

(** The terminal state a committed close leaves, below the two sentinels. *)
Definition terminal_epoch (epoch : N) : N := N.min epoch (FENCE_CLOSING - 1).

(** ** Threads *)

(** [ffi_close_session], or [ffi_close_all_sessions] of a slot with its list
    [known] of the sessions in the index when it started.  [skipped], the fences
    [enter_write_all] found closed, with their sessions, is ghost state. *)
Inductive CloseTarget := CloseOne (s : N) | CloseSlot (slot : N) (known : list N) (skipped : list (N * FenceRef)).

Inductive FencePc :=
(* [enter], [enter_checked] and the operation under the guard *)
| OpEnter (s : N) (expected : option N)
| OpLoad (s : N) (f : FenceRef) (expected : option N)
| OpCount (s : N) (f : FenceRef) (expected : option N)
| OpRecheck (s : N) (f : FenceRef) (expected : option N)
| OpUncount (s : N) (f : FenceRef)
| OpHeld (s : N) (f : FenceRef)
| OpMarker (s : N) (f : FenceRef) (fam : OperationFamily)
(* [enter_write], [enter_write_all], the native close and its settlement *)
| CloseKnown (slot : N)
| CloseMark (t : CloseTarget) (todo : list N) (owned : list (N * FenceRef))
| CloseLoad (t : CloseTarget) (s : N) (f : FenceRef) (todo : list N) (owned : list (N * FenceRef))
| CloseCas (t : CloseTarget) (s : N) (f : FenceRef) (todo : list N) (owned : list (N * FenceRef))
| CloseDrain (t : CloseTarget) (done todo : list (N * FenceRef))
| CloseHeld (t : CloseTarget) (owned : list (N * FenceRef))
| CommitStore (t : CloseTarget) (todo : list (N * FenceRef))
| CommitRemove (t : CloseTarget) (s : N) (todo : list (N * FenceRef))
| ReopenStore (rv : CkRv) (todo : list (N * FenceRef))
(* [drop_mech_cache_session] and [forget_session_slot], [drop_mech_cache_for_slot] *)
| EvictSlot (slot : N)
| EvictMech (t : CloseTarget) (s : N) (fams : list OperationFamily) (rest : list N)
| EvictMarker (t : CloseTarget) (s : N) (rest : list N)
| EvictForward (t : CloseTarget) (s : N) (rest : list N)
| ForgetSlot (s : N)
| ForgetIndex (s slot : N)
| ForgetPrune (slot : N)
(* [ffi_open_session] *)
| OpenNative (slot : N)
| OpenForward (s slot : N)
| OpenIndex (s slot : N)
| FenceDone (r : CkResult N).

(** What the thread's environment decides at a step: the native verdict, what
    an operation does to the mechanism cache, or that its call panicked. *)
Inductive FenceChoice :=
| Go
| NativeOk (handle : N)
| NativeErr (rv : CkRv)
| Unwind
| Retain (fam : OperationFamily) (m : N)
| Retire (fam : OperationFamily)
| Leave.

Definition invalid : FencePc := FenceDone (Err Rv.SESSION_HANDLE_INVALID).

Definition check_expected (expected : option N) (fe : SessionFence) : bool :=
  match expected with Some e => incarnation fe =? e | None => true end.

(** [enter] and [enter_checked]. *)
Definition enter_step (b : FfiBackend) (pc : FencePc) : option (FfiBackend * FencePc) :=
  match pc with
  | OpEnter s None => let '(f, b) := fence_or_create s b in Some (b, OpLoad s f None)
  | OpEnter s (Some e) =>
      Some (b, match fences b !! s with
               | None => invalid
               | Some f =>
                   match fence_heap b !! f with
                   | Some fe => if check_expected (Some e) fe then OpLoad s f (Some e) else invalid
                   | None => invalid
                   end
               end)
  | OpLoad s f e =>
      fe ← fence_heap b !! f;
      Some (b, if lifecycle fe =? FENCE_OPEN then OpCount s f e else invalid)
  | OpCount s f e => Some (add_reader f b, OpRecheck s f e)
  | OpRecheck s f e =>
      fe ← fence_heap b !! f;
      Some (b, if (lifecycle fe =? FENCE_OPEN) && check_expected e fe then OpHeld s f else OpUncount s f)
  | OpUncount s f => Some (sub_reader f b, invalid)
  | _ => None
  end.

(** An operation under its guard: it may retain or retire mechanism graphs
    ([call_init_with_mechanism], [drop_mech_cache_family]), and drops the
    guard when it ends. *)
Definition op_step (c : FenceChoice) (b : FfiBackend) (pc : FencePc) : option (FfiBackend * FencePc) :=
  match pc, c with
  | OpHeld s f, Retain fam m => Some (b <| mech_cache ::= <[(s, fam) := m]> |>, OpMarker s f fam)
  | OpHeld s f, Retire fam => Some (b <| mech_cache ::= delete (s, fam) |>, OpHeld s f)
  | OpHeld s f, Leave | OpHeld s f, Unwind => Some (sub_reader f b, FenceDone (Ok 0))
  | OpMarker s f fam, Go => Some (b <| last_init_family ::= <[s := fam]> |>, OpHeld s f)
  | _, _ => None
  end.

(** [enter_write] and [enter_write_all]: mark every fence, then drain every
    fence. *)
Definition enter_write_step (b : FfiBackend) (pc : FencePc) : option (FfiBackend * FencePc) :=
  match pc with
  | CloseKnown slot =>
      let known := elements (default ∅ (slot_sessions b !! slot)) in
      Some (b, CloseMark (CloseSlot slot known []) (write_order known) [])
  | CloseMark t [] owned => Some (b, CloseDrain t [] owned)
  | CloseMark t (s :: todo) owned => let '(f, b) := fence_or_create s b in Some (b, CloseLoad t s f todo owned)
  | CloseLoad t s f todo owned =>
      fe ← fence_heap b !! f;
      Some (b, if lifecycle fe =? FENCE_OPEN then CloseCas t s f todo owned
               else if lifecycle fe =? FENCE_CLOSING then pc
               else match t with
                    | CloseOne _ => invalid
                    | CloseSlot slot known skipped => CloseMark (CloseSlot slot known (skipped ++ [(s, f)])) todo owned
                    end)
  | CloseCas t s f todo owned =>
      fe ← fence_heap b !! f;
      if lifecycle fe =? FENCE_OPEN
      then Some (set_lifecycle f FENCE_CLOSING b, CloseMark t todo (owned ++ [(s, f)]))
      else Some (b, CloseLoad t s f todo owned)
  | CloseDrain t done [] => Some (b, CloseHeld t done)
  | CloseDrain t done ((s, f) :: todo) =>
      fe ← fence_heap b !! f;
      Some (b, if readers fe =? 0 then CloseDrain t (done ++ [(s, f)]) todo else pc)
  | _ => None
  end.

(** The native close, then [commit_close] or [commit_close_all] on success,
    [reopen] or [reopen_all] on failure, and the guards' [Drop] on unwind,
    which reopens too. *)
Definition native_closed (t : CloseTarget) (b : FfiBackend) : FfiBackend :=
  b <| native ::= match t with
                  | CloseOne s => delete s
                  | CloseSlot slot _ _ => filter (fun e => e.2 <> slot)
                  end |>.

Definition settle_step (c : FenceChoice) (epoch : N) (b : FfiBackend) (pc : FencePc) : option (FfiBackend * FencePc) :=
  match pc, c with
  | CloseHeld t owned, NativeOk _ => Some (native_closed t b, CommitStore t owned)
  | CloseHeld t owned, NativeErr rv => Some (b, ReopenStore rv owned)
  | CloseHeld t owned, Unwind => Some (b, ReopenStore Rv.GENERAL_ERROR owned)
  | CommitStore t ((s, f) :: todo), Go => Some (set_lifecycle f (terminal_epoch epoch) b, CommitRemove t s todo)
  | CommitRemove t s todo, Go => Some (b <| fences ::= delete s |>, CommitStore t todo)
  | CommitStore (CloseOne s) [], Go => Some (b, EvictMech (CloseOne s) s OperationFamily_ALL [])
  | CommitStore (CloseSlot slot _ _) [], Go => Some (b, EvictSlot slot)
  | ReopenStore rv ((s, f) :: todo), Go => Some (set_lifecycle f FENCE_OPEN b, ReopenStore rv todo)
  | ReopenStore rv [], Go => Some (b, FenceDone (Err rv))
  | _, _ => None
  end.

(** The caches after a committed close, one entry access at a time. *)
Definition next_session (t : CloseTarget) (rest : list N) : FencePc :=
  match rest with
  | s :: rest => EvictMech t s OperationFamily_ALL rest
  | [] => FenceDone (Ok 0)
  end.

Definition evict_step (b : FfiBackend) (pc : FencePc) : option (FfiBackend * FencePc) :=
  match pc with
  | EvictSlot slot =>
      Some (b <| slot_sessions ::= delete slot |>,
            next_session (CloseSlot slot [] []) (elements (default ∅ (slot_sessions b !! slot))))
  | EvictMech t s (fam :: fams) rest => Some (b <| mech_cache ::= delete (s, fam) |>, EvictMech t s fams rest)
  | EvictMech t s [] rest => Some (b, EvictMarker t s rest)
  | EvictMarker t s rest =>
      Some (b <| last_init_family ::= delete s |>,
            match t with CloseOne _ => ForgetSlot s | CloseSlot _ _ _ => EvictForward t s rest end)
  | EvictForward t s rest => Some (b <| session_slot_map ::= delete s |>, next_session t rest)
  | ForgetSlot s =>
      Some (b <| session_slot_map ::= delete s |>,
            match session_slot_map b !! s with Some slot => ForgetIndex s slot | None => FenceDone (Ok 0) end)
  | ForgetIndex s slot => Some (b <| slot_sessions ::= alter (fun l => l ∖ {[ s ]}) slot |>, ForgetPrune slot)
  | ForgetPrune slot =>
      Some (if bool_decide (slot_sessions b !! slot = Some ∅) then b <| slot_sessions ::= delete slot |> else b,
            FenceDone (Ok 0))
  | _ => None
  end.

(** [ffi_open_session]; the provider hands out a handle it does not use. *)
Definition open_step (c : FenceChoice) (b : FfiBackend) (pc : FencePc) : option (FfiBackend * FencePc) :=
  match pc, c with
  | OpenNative slot, NativeOk h =>
      if bool_decide (is_Some (native b !! h)) then None
      else Some (b <| native ::= <[h := slot]> |>, OpenForward h slot)
  | OpenNative _, NativeErr rv => Some (b, FenceDone (Err rv))
  | OpenForward s slot, Go => Some (b <| session_slot_map ::= <[s := slot]> |>, OpenIndex s slot)
  | OpenIndex s slot, Go =>
      Some (b <| slot_sessions ::= partial_alter (fun l => Some (default ∅ l ∪ {[ s ]})) slot |>, FenceDone (Ok s))
  | _, _ => None
  end.

(** One step of a thread. *)
Definition thread_step (c : FenceChoice) (epoch : N) (b : FfiBackend) (pc : FencePc) : option (FfiBackend * FencePc) :=
  match pc, c with
  | (OpEnter _ _ | OpLoad _ _ _ | OpCount _ _ _ | OpRecheck _ _ _ | OpUncount _ _), Go => enter_step b pc
  | (OpHeld _ _ | OpMarker _ _ _), _ => op_step c b pc
  | (CloseKnown _ | CloseMark _ _ _ | CloseLoad _ _ _ _ _ | CloseCas _ _ _ _ _ | CloseDrain _ _ _), Go =>
      enter_write_step b pc
  | (CloseHeld _ _ | CommitStore _ _ | CommitRemove _ _ _ | ReopenStore _ _), _ => settle_step c epoch b pc
  | (EvictSlot _ | EvictMech _ _ _ _ | EvictMarker _ _ _ | EvictForward _ _ _ | ForgetSlot _ | ForgetIndex _ _
     | ForgetPrune _), Go => evict_step b pc
  | (OpenNative _ | OpenForward _ _ | OpenIndex _ _), _ => open_step c b pc
  | _, _ => None
  end.

(** ** The whole backend *)

Record FenceThread := MkFenceThread { ft_epoch : N; ft_pc : FencePc }.

Record FenceSystem := MkFenceSystem { fs_backend : FfiBackend; fs_threads : list FenceThread }.

Definition thread_done (th : FenceThread) : bool := match ft_pc th with FenceDone _ => true | _ => false end.

(** How a call starts. *)
Inductive call_start : FencePc -> Prop :=
| start_op s expected : call_start (OpEnter s expected)
| start_close s : call_start (CloseMark (CloseOne s) [s] [])
| start_close_all slot : call_start (CloseKnown slot)
| start_open slot : call_start (OpenNative slot).

(** [drop_all_mech_cache_in], run under the lifecycle write lock: no call is
    admitted then.  The provider's sessions died with its last finalize. *)
Definition drop_all_mech_cache (b : FfiBackend) : FfiBackend :=
  b <| mech_cache := ∅ |> <| last_init_family := ∅ |> <| session_slot_map := ∅ |> <| slot_sessions := ∅ |>
    <| fences := ∅ |> <| native := ∅ |>.

Inductive fence_step : FenceSystem -> FenceSystem -> Prop :=
| fence_spawn b ths epoch pc :
    call_start pc -> fence_step (MkFenceSystem b ths) (MkFenceSystem b (ths ++ [MkFenceThread epoch pc]))
| fence_arm b ths s :
    fence_step (MkFenceSystem b ths) (MkFenceSystem (incarnation_or_create s b).2 ths)
| fence_run b ths i epoch pc c b' pc' :
    ths !! i = Some (MkFenceThread epoch pc) -> thread_step c epoch b pc = Some (b', pc') ->
    fence_step (MkFenceSystem b ths) (MkFenceSystem b' (<[i := MkFenceThread epoch pc']> ths))
| fence_purge b ths :
    Forall (fun th => thread_done th = true) ths ->
    fence_step (MkFenceSystem b ths) (MkFenceSystem (drop_all_mech_cache b) ths).

Definition fence_init : FenceSystem := MkFenceSystem FfiBackend_new [].

Definition fence_reachable : FenceSystem -> Prop := rtc fence_step fence_init.
