(* ===== verification/FenceProps.v ===== *)
(** * Session fences: exclusion, progress, incarnations

    In every interleaving, no operation runs a native call on a session while
    a close of that session runs, no set of calls ever waits on one another,
    and an incarnation names one fence.  The settlement of a close is not
    covered by its own fence: [late_eviction_hits_recycled_session]. *)

From stdpp Require Import sorting.
From S2P Require Import Prelude Ck SessionFence.
Open Scope N_scope.

(** ** What a program counter holds *)

(** The fences a thread keeps a reference to, with their sessions. *)
Definition pc_refs (pc : FencePc) : list (N * FenceRef) :=
  match pc with
  | OpLoad s f _ | OpCount s f _ | OpRecheck s f _ | OpUncount s f | OpHeld s f | OpMarker s f _ => [(s, f)]
  | CloseLoad _ s f _ owned | CloseCas _ s f _ owned => (s, f) :: owned
  | CloseMark _ _ owned | CloseHeld _ owned => owned
  | CloseDrain _ done todo => done ++ todo
  | CommitStore _ todo | CommitRemove _ _ todo | ReopenStore _ todo => todo
  | _ => []
  end.

(** The fences it has marked [CLOSING]. *)
Definition pc_owns (pc : FencePc) : list (N * FenceRef) :=
  match pc with
  | CloseMark _ _ owned | CloseLoad _ _ _ _ owned | CloseCas _ _ _ _ owned | CloseHeld _ owned => owned
  | CloseDrain _ done todo => done ++ todo
  | CommitStore _ todo | CommitRemove _ _ todo | ReopenStore _ todo => todo
  | _ => []
  end.

(** Those of them it has seen without readers. *)
Definition pc_drained (pc : FencePc) : list (N * FenceRef) :=
  match pc with
  | CloseDrain _ done _ => done
  | CloseHeld _ todo | CommitStore _ todo | CommitRemove _ _ todo | ReopenStore _ todo => todo
  | _ => []
  end.

Definition pc_counted (f : FenceRef) (th : FenceThread) : bool :=
  match ft_pc th with
  | OpRecheck _ g _ | OpUncount _ g | OpHeld _ g | OpMarker _ g _ => bool_decide (g = f)
  | _ => false
  end.

Definition pc_held (pc : FencePc) : option FenceRef :=
  match pc with OpHeld _ f | OpMarker _ f _ => Some f | _ => None end.

Definition pc_removing (pc : FencePc) : option N :=
  match pc with CommitRemove _ s _ => Some s | _ => None end.

(** The sessions a close has marked or will mark, in the order it does. *)
Definition pc_sessions (pc : FencePc) : list N :=
  match pc with
  | CloseMark _ todo owned => owned.*1 ++ todo
  | CloseLoad _ s _ todo owned | CloseCas _ s _ todo owned => owned.*1 ++ s :: todo
  | CloseDrain _ done todo => (done ++ todo).*1
  | CloseHeld _ todo | CommitStore _ todo | CommitRemove _ _ todo | ReopenStore _ todo => todo.*1
  | _ => []
  end.

(** A close of one session owns that session's fence and no other. *)
Definition pc_single (pc : FencePc) : Prop :=
  match pc with
  | CloseMark (CloseOne s) todo owned => todo = [] /\ owned.*1 = [s] \/ owned = [] /\ todo = [s]
  | CloseLoad (CloseOne s) s' _ todo owned | CloseCas (CloseOne s) s' _ todo owned => owned = [] /\ todo = [] /\ s' = s
  | CloseDrain (CloseOne s) done todo => (done ++ todo).*1 = [s]
  | CloseHeld (CloseOne s) owned => owned.*1 = [s]
  | _ => True
  end.

Definition pc_shape (pc : FencePc) : Prop := StronglySorted N.lt (pc_sessions pc) /\ pc_single pc.

Definition dead (fe : SessionFence) : Prop := lifecycle fe <> FENCE_OPEN /\ lifecycle fe <> FENCE_CLOSING.

(** ** The invariant *)

Record thread_ok (T : gmap N FenceRef) (H : list SessionFence) (pc : FencePc) : Prop := {
  to_refs s f : (s, f) ∈ pc_refs pc ->
    exists fe, H !! f = Some fe /\ fence_session fe = s /\ (~ dead fe -> T !! s = Some f);
  to_owns s f fe : (s, f) ∈ pc_owns pc -> H !! f = Some fe -> lifecycle fe = FENCE_CLOSING;
  to_held f fe : pc_held pc = Some f -> H !! f = Some fe -> ~ dead fe;
  to_removing s : pc_removing pc = Some s -> exists f fe, T !! s = Some f /\ H !! f = Some fe /\ dead fe;
  to_shape : pc_shape pc;
}.

Record pair_ok (pc pc' : FencePc) : Prop := {
  po_owns s s' f : (s, f) ∈ pc_owns pc -> (s', f) ∈ pc_owns pc' -> False;
  po_held s f : pc_held pc = Some f -> (s, f) ∈ pc_drained pc' -> False;
  po_removing s : pc_removing pc = Some s -> pc_removing pc' = Some s -> False;
}.

Record fence_inv (T : gmap N FenceRef) (H : list SessionFence) (next : N) (ths : list FenceThread) : Prop := {
  fi_threads i th : ths !! i = Some th -> thread_ok T H (ft_pc th);
  fi_pairs i j th th' : i <> j -> ths !! i = Some th -> ths !! j = Some th' -> pair_ok (ft_pc th) (ft_pc th');
  fi_table s f : T !! s = Some f -> exists fe, H !! f = Some fe /\ fence_session fe = s;
  fi_readers f fe : H !! f = Some fe -> readers fe = count_if (pc_counted f) ths mod u64_modulus;
  fi_closing f fe : H !! f = Some fe -> lifecycle fe = FENCE_CLOSING ->
    exists th s, th ∈ ths /\ (s, f) ∈ pc_owns (ft_pc th);
  fi_terminal s f fe : T !! s = Some f -> H !! f = Some fe -> dead fe ->
    exists th, th ∈ ths /\ pc_removing (ft_pc th) = Some s;
  fi_incarnation f fe : H !! f = Some fe -> incarnation fe = (1 + N.of_nat f) mod u64_modulus;
  fi_next : next = (1 + N.of_nat (length H)) mod u64_modulus;
}.

Definition system_inv (sys : FenceSystem) : Prop :=
  let b := fs_backend sys in
  fence_inv (fences b) (fence_heap b) (NEXT_FENCE_INCARNATION b) (fs_threads sys).

(** *** Views *)

Lemma owns_refs pc x : x ∈ pc_owns pc -> x ∈ pc_refs pc.
Proof. destruct pc; cbn; set_solver. Qed.

Lemma drained_owns pc x : x ∈ pc_drained pc -> x ∈ pc_owns pc.
Proof. destruct pc; cbn; set_solver. Qed.

Lemma held_refs pc f : pc_held pc = Some f -> exists s, (s, f) ∈ pc_refs pc.
Proof. destruct pc; cbn; try done; intros [= ->]; eexists; by left. Qed.

Lemma counted_refs f th : pc_counted f th = true -> exists s, (s, f) ∈ pc_refs (ft_pc th).
Proof. unfold pc_counted. destruct (ft_pc th); try done; intros ->%bool_decide_eq_true_1; eexists; by left. Qed.

Lemma held_counted f th : pc_held (ft_pc th) = Some f -> pc_counted f th = true.
Proof. unfold pc_counted. destruct (ft_pc th); cbn; try done; intros [= ->]; by rewrite bool_decide_true. Qed.

(** [pc'] holds no more than [pc]. *)
Record view_le (pc' pc : FencePc) : Prop := {
  vl_owns x : x ∈ pc_owns pc' -> x ∈ pc_owns pc;
  vl_held f : pc_held pc' = Some f -> pc_held pc = Some f;
  vl_drained x : x ∈ pc_drained pc' -> x ∈ pc_drained pc;
  vl_removing s : pc_removing pc' = Some s -> pc_removing pc = Some s;
}.

Lemma pair_ok_le pc pc1 pc2 : view_le pc1 pc -> pair_ok pc pc2 -> pair_ok pc1 pc2.
Proof. intros V P. split; intros; [eapply (po_owns _ _ P)|eapply (po_held _ _ P)|eapply (po_removing _ _ P)]; eauto using vl_owns, vl_held, vl_removing. Qed.

Lemma pair_ok_le' pc pc1 pc2 : view_le pc1 pc -> pair_ok pc2 pc -> pair_ok pc2 pc1.
Proof. intros V P. split; intros; [eapply (po_owns _ _ P)|eapply (po_held _ _ P)|eapply (po_removing _ _ P)]; eauto using vl_owns, vl_drained, vl_removing. Qed.

(** *** Frames: what another thread's step leaves true of a thread *)

(** The heap with the same life cycles, sessions and incarnations. *)
Definition same_shape (H H' : list SessionFence) : Prop :=
  forall f fe', H' !! f = Some fe' -> exists fe, H !! f = Some fe /\ lifecycle fe' = lifecycle fe /\
    fence_session fe' = fence_session fe /\ incarnation fe' = incarnation fe.

Definition shape_iff (H H' : list SessionFence) : Prop := same_shape H H' /\ same_shape H' H.

Lemma dead_shape fe fe' : lifecycle fe' = lifecycle fe -> dead fe' <-> dead fe.
Proof. unfold dead. by intros ->. Qed.

Lemma thread_ok_shape T H H' pc : shape_iff H H' -> thread_ok T H pc -> thread_ok T H' pc.
Proof.
  intros [S1 S2] [R O D M St]. split; [..|done].
  - intros s f Hin. destruct (R s f Hin) as (fe & Hf & Hs & Ht). destruct (S2 f fe Hf) as (fe' & Hf' & Hl & Hse & _).
    exists fe'. split_and!; [done|congruence|]. rewrite (dead_shape fe fe') by done. done.
  - intros s f fe' Hin Hf'. destruct (S1 f fe' Hf') as (fe & Hf & Hl & _). rewrite Hl. eauto.
  - intros f fe' Hh Hf'. destruct (S1 f fe' Hf') as (fe & Hf & Hl & _). rewrite (dead_shape fe fe') by done. eauto.
  - intros s Hr. destruct (M s Hr) as (f & fe & Ht & Hf & Hd). destruct (S2 f fe Hf) as (fe' & Hf' & Hl & _).
    exists f, fe'. split_and!; [done..|]. by rewrite (dead_shape fe fe').
Qed.

Lemma thread_ok_alloc T H s fe0 pc :
  T !! s = None -> thread_ok T H pc -> thread_ok (<[s := length H]> T) (H ++ [fe0]) pc.
Proof.
  intros Hs [R O D M St].
  assert (forall f fe, H !! f = Some fe -> (H ++ [fe0]) !! f = Some fe) as Hext
    by (intros f fe Hf; by apply lookup_app_l_Some).
  assert (forall s' f, T !! s' = Some f -> <[s := length H]> T !! s' = Some f) as Htab.
  { intros s' f Hf. rewrite lookup_insert_ne; [done|]. intros ->. congruence. }
  split; [..|done].
  - intros s' f Hin. destruct (R s' f Hin) as (fe & Hf & Hse & Ht). exists fe. split_and!; [by auto|done|auto].
  - intros s' f fe Hin Hf. destruct (R s' f (owns_refs _ _ Hin)) as (fe1 & Hf1 & _).
    rewrite (Hext _ _ Hf1) in Hf. injection Hf as <-. eauto.
  - intros f fe Hh Hf. destruct (held_refs _ _ Hh) as [s' Hin]. destruct (R s' f Hin) as (fe1 & Hf1 & _).
    rewrite (Hext _ _ Hf1) in Hf. injection Hf as <-. eauto.
  - intros s' Hr. destruct (M s' Hr) as (f & fe & Ht & Hf & Hd). exists f, fe. auto.
Qed.

(** Storing [v] in the life cycle of a fence that is not dead. *)
Lemma thread_ok_lifecycle T H f0 v fe0 pc :
  H !! f0 = Some fe0 -> ~ dead fe0 -> (forall s, (s, f0) ∉ pc_owns pc) ->
  (v = FENCE_OPEN \/ v = FENCE_CLOSING \/ pc_held pc <> Some f0) ->
  thread_ok T H pc -> thread_ok T (alter (fun fe => fe <| lifecycle := v |>) f0 H) pc.
Proof.
  intros Hf0 Hd0 Hno Hv [R O D M St].
  assert (forall f, f <> f0 -> alter (fun fe => fe <| lifecycle := v |>) f0 H !! f = H !! f) as Hne
    by (intros f Hne; by rewrite list_lookup_alter_ne).
  assert (alter (fun fe => fe <| lifecycle := v |>) f0 H !! f0 = Some (fe0 <| lifecycle := v |>)) as Heq
    by (rewrite list_lookup_alter, decide_True by done; by rewrite Hf0).
  split; [..|done].
  - intros s f Hin. destruct (R s f Hin) as (fe & Hf & Hse & Ht). destruct (decide (f = f0)) as [->|Hn].
    + exists (fe0 <| lifecycle := v |>). rewrite Heq. simplify_eq. split_and!; auto.
    + exists fe. rewrite Hne by done. auto.
  - intros s f fe Hin Hf. destruct (decide (f = f0)) as [->|Hn]; [by apply Hno in Hin|]. rewrite Hne in Hf by done. eauto.
  - intros f fe Hh Hf. destruct (decide (f = f0)) as [->|Hn]; [|rewrite Hne in Hf by done; eauto].
    rewrite Heq in Hf. injection Hf as <-. destruct Hv as [-> | [-> |Hv]]; [by intros []|by intros []|done].
  - intros s Hr. destruct (M s Hr) as (f & fe & Ht & Hf & Hd). destruct (decide (f = f0)) as [->|Hn]; [congruence|].
    exists f, fe. rewrite Hne by done. auto.
Qed.

Lemma thread_ok_remove T H s f0 fe0 pc :
  T !! s = Some f0 -> H !! f0 = Some fe0 -> dead fe0 -> pc_removing pc <> Some s ->
  thread_ok T H pc -> thread_ok (delete s T) H pc.
Proof.
  intros Hs Hf0 Hd Hr [R O D M St]. split; [|exact O|exact D| |done].
  - intros s' f Hin. destruct (R s' f Hin) as (fe & Hf & Hse & Ht). exists fe. split_and!; [done..|]. intros Hn.
    rewrite lookup_delete_ne; [auto|]. intros ->. specialize (Ht Hn). congruence.
  - intros s' Hr'. destruct (M s' Hr') as (f & fe & Ht & Hf & Hd'). exists f, fe. split_and!; [|done..].
    rewrite lookup_delete_ne; [done|]. intros ->. congruence.
Qed.

(** *** Updating one thread *)

Lemma elem_update {A} (l : list A) i x y : l !! i = Some x -> y ∈ <[i := y]> l.
Proof. intros Hi. apply list_elem_of_lookup. exists i. apply list_lookup_insert_eq. by eapply lookup_lt_Some. Qed.

Lemma elem_other {A} (l : list A) i x y z : l !! i = Some x -> z ∈ l -> z = x \/ z ∈ <[i := y]> l.
Proof.
  intros Hi [j Hj]%list_elem_of_lookup. destruct (decide (i = j)) as [->|Hne]; [left; congruence|right].
  apply list_elem_of_lookup. exists j. by rewrite list_lookup_insert_ne.
Qed.

Section update.
Context (T : gmap N FenceRef) (H : list SessionFence) (next : N) (ths : list FenceThread).
Context (i : nat) (e : N) (pc : FencePc).
Context (I : fence_inv T H next ths) (Hi : ths !! i = Some (MkFenceThread e pc)).

Lemma inv_update T' H' pc' :
  thread_ok T' H' pc' ->
  (forall j th, j <> i -> ths !! j = Some th ->
     thread_ok T' H' (ft_pc th) /\ pair_ok pc' (ft_pc th) /\ pair_ok (ft_pc th) pc') ->
  (forall s f, T' !! s = Some f -> exists fe, H' !! f = Some fe /\ fence_session fe = s) ->
  (forall f fe, H' !! f = Some fe ->
     readers fe = count_if (pc_counted f) (<[i := MkFenceThread e pc']> ths) mod u64_modulus /\
     incarnation fe = (1 + N.of_nat f) mod u64_modulus) ->
  (forall f fe, H' !! f = Some fe -> lifecycle fe = FENCE_CLOSING -> (exists s, (s, f) ∈ pc_owns pc') \/
     exists th s, th ∈ <[i := MkFenceThread e pc']> ths /\ (s, f) ∈ pc_owns (ft_pc th)) ->
  (forall s f fe, T' !! s = Some f -> H' !! f = Some fe -> dead fe -> pc_removing pc' = Some s \/
     exists th, th ∈ <[i := MkFenceThread e pc']> ths /\ pc_removing (ft_pc th) = Some s) ->
  length H' = length H ->
  fence_inv T' H' next (<[i := MkFenceThread e pc']> ths).
Proof using I Hi.
  intros Hok Hoth Htab Hrd Hcl Htm Hlen. pose proof (elem_update _ _ _ (MkFenceThread e pc') Hi) as Hnew. split.
  - intros j th [(<- & <- & _)|[Hne Hj]]%list_lookup_insert_Some; [done|]. by apply (Hoth j).
  - intros j k th th' Hjk [(<- & <- & _)|[Hne Hj]]%list_lookup_insert_Some
      [(? & <- & _)|[Hne' Hk]]%list_lookup_insert_Some; try congruence.
    + by apply (Hoth k).
    + subst k. apply (Hoth j); congruence.
    + by eapply (fi_pairs _ _ _ _ I j k).
  - done.
  - intros f fe Hf. by apply Hrd.
  - intros f fe Hf Hl. destruct (Hcl f fe Hf Hl) as [[s Hs]|Hs]; [|done]. eexists _, s. by split.
  - intros s f fe Ht Hf Hd. destruct (Htm s f fe Ht Hf Hd) as [Hs|Hs]; [|done]. eexists. by split.
  - intros f fe Hf. by apply Hrd.
  - rewrite Hlen. apply (fi_next _ _ _ _ I).
Qed.

Lemma count_same pc' f :
  pc_counted f (MkFenceThread e pc') = pc_counted f (MkFenceThread e pc) ->
  count_if (pc_counted f) (<[i := MkFenceThread e pc']> ths) = count_if (pc_counted f) ths.
Proof using Hi. intros Hc. pose proof (count_if_update (pc_counted f) _ _ _ (MkFenceThread e pc') Hi). rewrite Hc in *. lia. Qed.

Lemma owners_kept pc' f fe :
  (forall s, (s, f) ∈ pc_owns pc -> (s, f) ∈ pc_owns pc') ->
  H !! f = Some fe -> lifecycle fe = FENCE_CLOSING -> (exists s, (s, f) ∈ pc_owns pc') \/
  exists th s, th ∈ <[i := MkFenceThread e pc']> ths /\ (s, f) ∈ pc_owns (ft_pc th).
Proof using I Hi.
  intros Ho Hf Hl. destruct (fi_closing _ _ _ _ I f fe Hf Hl) as (th & s & Hin & Hs).
  destruct (elem_other _ _ _ (MkFenceThread e pc') _ Hi Hin) as [->|Hin']; [left; eauto|right; eauto].
Qed.

Lemma removers_kept pc' s f fe :
  (pc_removing pc = Some s -> pc_removing pc' = Some s) ->
  T !! s = Some f -> H !! f = Some fe -> dead fe -> pc_removing pc' = Some s \/
  exists th, th ∈ <[i := MkFenceThread e pc']> ths /\ pc_removing (ft_pc th) = Some s.
Proof using I Hi.
  intros Hr Ht Hf Hd. destruct (fi_terminal _ _ _ _ I s f fe Ht Hf Hd) as (th & Hin & Hs).
  destruct (elem_other _ _ _ (MkFenceThread e pc') _ Hi Hin) as [->|Hin']; [left; auto|right; eauto].
Qed.

(** The backend stays as it is. *)
Lemma inv_pc pc' :
  thread_ok T H pc' ->
  (forall j th, j <> i -> ths !! j = Some th -> pair_ok pc' (ft_pc th) /\ pair_ok (ft_pc th) pc') ->
  (forall x, x ∈ pc_owns pc -> x ∈ pc_owns pc') -> pc_removing pc' = pc_removing pc ->
  (forall f, pc_counted f (MkFenceThread e pc') = pc_counted f (MkFenceThread e pc)) ->
  fence_inv T H next (<[i := MkFenceThread e pc']> ths).
Proof using I Hi.
  intros Hok Hp Ho Hr Hc. apply inv_update; [done|..].
  - intros j th Hne Hj. split; [by eapply (fi_threads _ _ _ _ I)|by eapply Hp].
  - apply I.
  - intros f fe Hf. rewrite count_same by done. split; by apply I.
  - intros f fe Hf Hl. apply (owners_kept _ _ fe); auto.
  - intros s f fe Ht Hf Hd. apply (removers_kept _ _ f fe); [by rewrite Hr|done..].
  - done.
Qed.

Lemma pairs_le pc' : view_le pc' pc ->
  forall j th, j <> i -> ths !! j = Some th -> pair_ok pc' (ft_pc th) /\ pair_ok (ft_pc th) pc'.
Proof using I Hi.
  intros V j th Hne Hj. split.
  - eapply pair_ok_le; [done|]. by apply (fi_pairs _ _ _ _ I i j _ _ ltac:(done) Hi Hj).
  - eapply pair_ok_le'; [done|]. by apply (fi_pairs _ _ _ _ I j i _ _ ltac:(done) Hj Hi).
Qed.

(** The thread only forgets or passes on what it holds. *)
Lemma inv_local pc' :
  (forall x, x ∈ pc_refs pc' -> x ∈ pc_refs pc) -> view_le pc' pc ->
  (forall x, x ∈ pc_owns pc -> x ∈ pc_owns pc') -> pc_removing pc' = pc_removing pc ->
  (forall f, pc_counted f (MkFenceThread e pc') = pc_counted f (MkFenceThread e pc)) ->
  pc_shape pc' ->
  fence_inv T H next (<[i := MkFenceThread e pc']> ths).
Proof using I Hi.
  intros Hrefs V Ho Hr Hc Hst. pose proof (fi_threads _ _ _ _ I i _ Hi) as [R O D M _].
  apply inv_pc; [|by apply pairs_le|done..]. split; [..|done].
  - intros s f Hin. apply R. by apply Hrefs.
  - intros s f fe Hin. eapply O. by apply (vl_owns _ _ V).
  - intros f fe Hh. apply D. by apply (vl_held _ _ V).
  - intros s Hs. apply M. cbn. congruence.
Qed.
End update.

(** *** The steps that change the fences *)

Lemma inv_create s b ths :
  fence_inv (fences b) (fence_heap b) (NEXT_FENCE_INCARNATION b) ths ->
  let '(f, b') := fence_or_create s b in
  fence_inv (fences b') (fence_heap b') (NEXT_FENCE_INCARNATION b') ths /\ fences b' !! s = Some f.
Proof.
  intros I. unfold fence_or_create. destruct (fences b !! s) as [f|] eqn:Es; [done|]. cbn.
  split; [|apply lookup_insert_eq]. pose proof I as [Th P Tb Rd Cl Tm Ic Nx].
  assert (forall f fe, (fence_heap b ++ [SessionFence_new (NEXT_FENCE_INCARNATION b) s]) !! f = Some fe ->
    fence_heap b !! f = Some fe \/ f = length (fence_heap b) /\ fe = SessionFence_new (NEXT_FENCE_INCARNATION b) s) as Hcase.
  { intros f fe [Hf|[Hle Hf]]%lookup_app_Some; [by left|right].
    apply list_lookup_singleton_Some in Hf as [Hz <-]. split; [lia|done]. }
  split.
  - intros i th Hi. apply thread_ok_alloc; [done|eauto].
  - done.
  - intros s' f Hf. destruct (decide (s' = s)) as [->|Hne].
    + rewrite lookup_insert_eq in Hf. injection Hf as <-. eexists. rewrite lookup_app_r, Nat.sub_diag by lia. by split.
    + rewrite lookup_insert_ne in Hf by done. destruct (Tb _ _ Hf) as (fe & Hfe & Hse). exists fe.
      split; [by apply lookup_app_l_Some|done].
  - intros f fe [Hf|[-> ->]]%Hcase; [by apply Rd|]. cbn.
    rewrite count_if_zero; [done|]. intros th Hin. apply not_true_iff_false. intros [s' Hr]%counted_refs.
    apply list_elem_of_lookup in Hin as [i Hi]. destruct (to_refs _ _ _ (Th i th Hi) s' _ Hr) as (fe & Hfe & _).
    apply lookup_lt_Some in Hfe. lia.
  - intros f fe [Hf|[-> ->]]%Hcase Hl; [by eapply Cl|done].
  - intros s' f fe Hs' [Hf|[-> ->]]%Hcase Hd; [|by destruct Hd].
    eapply Tm; [|done..]. destruct (decide (s' = s)) as [->|Hne]; [|by rewrite lookup_insert_ne in Hs'].
    rewrite lookup_insert_eq in Hs'. injection Hs' as <-. apply lookup_lt_Some in Hf. lia.
  - intros f fe [Hf|[-> ->]]%Hcase; [by apply Ic|done].
  - rewrite Nx, length_app. cbn [length]. unfold wrapping_add64. rewrite N.Div0.add_mod_idemp_l. f_equal. lia.
Qed.

Definition alter_readers (g : N -> N) (f : FenceRef) (H : list SessionFence) : list SessionFence :=
  alter (fun fe => fe <| readers ::= g |>) f H.

Lemma alter_readers_shape g f H : shape_iff H (alter_readers g f H).
Proof.
  split; intros f' fe'; unfold alter_readers; rewrite list_lookup_alter; case_decide; subst.
  - intros (fe & Hf & ->)%fmap_Some_1. by exists fe.
  - intros Hf. by exists fe'.
  - intros Hf. exists (fe' <| readers ::= g |>). by rewrite Hf.
  - intros Hf. by exists fe'.
Qed.

Section more_updates.
Context (T : gmap N FenceRef) (H : list SessionFence) (next : N) (ths : list FenceThread).
Context (i : nat) (e : N) (pc : FencePc).
Context (I : fence_inv T H next ths) (Hi : ths !! i = Some (MkFenceThread e pc)).

Lemma self_ok : thread_ok T H pc.
Proof using I Hi. exact (fi_threads _ _ _ _ I i _ Hi). Qed.

Lemma inv_readers g f0 pc' :
  (forall x, x ∈ pc_refs pc' -> x ∈ pc_refs pc) -> pc_owns pc' = [] -> pc_owns pc = [] -> pc_held pc' = None ->
  pc_removing pc' = None -> pc_removing pc = None -> pc_shape pc' ->
  (forall f, f <> f0 -> pc_counted f (MkFenceThread e pc') = pc_counted f (MkFenceThread e pc)) ->
  (forall n, n = count_if (pc_counted f0) ths ->
     g (n mod u64_modulus) = count_if (pc_counted f0) (<[i := MkFenceThread e pc']> ths) mod u64_modulus) ->
  fence_inv T (alter_readers g f0 H) next (<[i := MkFenceThread e pc']> ths).
Proof using I Hi.
  intros Hrefs Ho' Ho Hh Hr' Hr Hst Hc Hg. pose proof (alter_readers_shape g f0 H) as Hsh. pose proof Hsh as [S1 S2].
  assert (view_le pc' pc) as V.
  { split; [|congruence| |congruence].
    - intros x Hx. by rewrite Ho' in Hx; apply not_elem_of_nil in Hx.
    - intros x Hx%drained_owns. by rewrite Ho' in Hx; apply not_elem_of_nil in Hx. }
  eapply inv_update; [done|done|..].
  - apply (thread_ok_shape _ H); [done|]. destruct self_ok as [R O D M _].
    split; [auto| |congruence|congruence|done].
    intros s f fe Hin. by rewrite Ho' in Hin; apply not_elem_of_nil in Hin.
  - intros j th Hne Hj. split; [apply (thread_ok_shape _ H); [done|by eapply I]|by eapply (pairs_le T H next ths i e pc)].
  - intros s f Hf. destruct (fi_table _ _ _ _ I s f Hf) as (fe & Hfe & Hse).
    destruct (S2 f fe Hfe) as (fe' & Hfe' & _ & Hse' & _). exists fe'. split; [done|congruence].
  - intros f fe' Hf'. destruct (S1 f fe' Hf') as (fe & Hf & _ & _ & Hic). split; [|by rewrite Hic; apply I].
    unfold alter_readers in Hf'. rewrite list_lookup_alter in Hf'. case_decide as Heq.
    + subst f. rewrite Hf in Hf'. injection Hf' as <-. cbn. rewrite (fi_readers _ _ _ _ I f0 fe Hf). by apply Hg.
    + rewrite (count_same ths i e pc Hi) by (apply Hc; congruence). rewrite Hf in Hf'. injection Hf' as <-. by apply I.
  - intros f fe' Hf' Hl. destruct (S1 f fe' Hf') as (fe & Hf & Hl' & _).
    eapply (owners_kept T H next ths i e pc); [done|done| |done|congruence].
    intros s Hin. by rewrite Ho in Hin; apply not_elem_of_nil in Hin.
  - intros s f fe' Ht Hf' Hd. destruct (S1 f fe' Hf') as (fe & Hf & Hl' & _).
    eapply (removers_kept T H next ths i e pc); [done|done|congruence|done..|]. by apply (dead_shape fe fe').
  - apply length_alter.
Qed.

(** Storing a life cycle: [f0] goes from not dead to [v]; if to [CLOSING], the
    thread owns it now, if from [CLOSING], it was the owner. *)
Lemma inv_lifecycle f0 fe0 v pc' :
  H !! f0 = Some fe0 -> ~ dead fe0 ->
  thread_ok T (alter (fun fe => fe <| lifecycle := v |>) f0 H) pc' ->
  (forall j th, j <> i -> ths !! j = Some th -> (forall s, (s, f0) ∉ pc_owns (ft_pc th)) /\
     (v = FENCE_OPEN \/ v = FENCE_CLOSING \/ pc_held (ft_pc th) <> Some f0) /\
     pair_ok pc' (ft_pc th) /\ pair_ok (ft_pc th) pc') ->
  (forall x, x ∈ pc_owns pc -> x.2 <> f0 -> x ∈ pc_owns pc') ->
  (v = FENCE_CLOSING -> exists s, (s, f0) ∈ pc_owns pc') ->
  (forall s, pc_removing pc = Some s -> pc_removing pc' = Some s) ->
  (v = FENCE_OPEN \/ v = FENCE_CLOSING \/ forall s, T !! s = Some f0 -> pc_removing pc' = Some s) ->
  (forall f, pc_counted f (MkFenceThread e pc') = pc_counted f (MkFenceThread e pc)) ->
  fence_inv T (alter (fun fe => fe <| lifecycle := v |>) f0 H) next (<[i := MkFenceThread e pc']> ths).
Proof using I Hi.
  intros Hf0 Hd0 Hok Hoth Hown Hcl Hrem Hrm Hc.
  assert (forall f fe', alter (fun fe => fe <| lifecycle := v |>) f0 H !! f = Some fe' ->
    exists fe, H !! f = Some fe /\ readers fe' = readers fe /\ incarnation fe' = incarnation fe /\
      fence_session fe' = fence_session fe /\ (f = f0 /\ lifecycle fe' = v \/ f <> f0 /\ fe' = fe)) as Hcase.
  { intros f fe'. rewrite list_lookup_alter. case_decide as Heq.
    - subst f. rewrite Hf0. intros [= <-]. exists fe0. split_and!; auto.
    - intros Hf. exists fe'. split_and!; auto. }
  eapply inv_update; [done|done|done|..].
  - intros j th Hne Hj. destruct (Hoth j th Hne Hj) as (Hno & Hv & Hp). split; [|done].
    eapply thread_ok_lifecycle; [done|done|done|done|by eapply I].
  - intros s f Hf. destruct (fi_table _ _ _ _ I s f Hf) as (fe & Hfe & Hse). rewrite list_lookup_alter. case_decide as Heq.
    + subst f0. rewrite Hfe. eexists. by split.
    + by exists fe.
  - intros f fe' Hf'. destruct (Hcase _ _ Hf') as (fe & Hf & -> & -> & _). rewrite (count_same ths i e pc Hi) by done.
    split; by apply I.
  - intros f fe' Hf' Hl. destruct (Hcase _ _ Hf') as (fe & Hf & _ & _ & _ & [[-> Hv]|[Hne ->]]).
    + left. apply Hcl. congruence.
    + eapply (owners_kept T H next ths i e pc); [done|done| |done..]. intros s Hs. by apply Hown.
  - intros s f fe' Ht Hf' Hd. destruct (Hcase _ _ Hf') as (fe & Hf & _ & _ & _ & [[-> Hv]|[Hne ->]]).
    + left. destruct Hrm as [->|[->|Hrm]]; [by destruct Hd|by destruct Hd|by apply Hrm].
    + by eapply (removers_kept T H next ths i e pc); [done|done|apply Hrem|done..].
  - apply length_alter.
Qed.

(** [fences.remove]. *)
Lemma inv_remove s pc' :
  pc_removing pc = Some s -> pc_removing pc' = None -> pc_refs pc' = pc_refs pc -> pc_owns pc' = pc_owns pc ->
  pc_drained pc' = pc_drained pc -> pc_held pc' = None -> pc_shape pc' ->
  (forall f, pc_counted f (MkFenceThread e pc') = pc_counted f (MkFenceThread e pc)) ->
  fence_inv (delete s T) H next (<[i := MkFenceThread e pc']> ths).
Proof using I Hi.
  intros Hr Hr' Hrefs Hown Hdr Hh Hst Hc. pose proof self_ok as Hok.
  destruct (to_removing _ _ _ Hok s Hr) as (f0 & fe0 & Hs & Hf0 & Hd0).
  eapply inv_update; [done|done|..].
  - destruct Hok as [R O D M _]. split; [..|done]; rewrite ?Hrefs, ?Hown; [|exact O|congruence|congruence].
    intros s' f Hin. destruct (R s' f Hin) as (fe & Hf & Hse & Ht). exists fe. split_and!; [done..|]. intros Hn.
    rewrite lookup_delete_ne; [auto|]. intros ->. specialize (Ht Hn). congruence.
  - intros j th Hne Hj. split.
    + eapply thread_ok_remove; [done..| |by eapply I]. intros Hrj.
      by eapply (po_removing _ _ (fi_pairs _ _ _ _ I i j _ _ ltac:(done) Hi Hj)).
    + eapply (pairs_le T H next ths i e pc); [done|done| |done..].
      split; [by rewrite Hown|congruence|by rewrite Hdr|congruence].
  - intros s' f Hf. apply (fi_table _ _ _ _ I). by apply lookup_delete_Some in Hf as [_ ?].
  - intros f fe Hf. rewrite (count_same ths i e pc Hi) by done. split; by apply I.
  - intros f fe Hf Hl. eapply (owners_kept T H next ths i e pc); [done|done| |done..]. by rewrite Hown.
  - intros s' f fe [Hne Ht]%lookup_delete_Some Hf Hd.
    eapply (removers_kept T H next ths i e pc); [done|done| |done..]. congruence.
  - done.
Qed.
End more_updates.

(** *** Every step keeps the invariant *)

Lemma wrap_incr n m : m = n + 1 -> wrapping_add64 (n mod u64_modulus) 1 = m mod u64_modulus.
Proof. intros ->. unfold wrapping_add64. by rewrite N.Div0.add_mod_idemp_l. Qed.

Lemma wrap_decr n m : m + 1 = n -> wrapping_sub64 (n mod u64_modulus) 1 = m mod u64_modulus.
Proof.
  intros <-. unfold wrapping_sub64. rewrite N.Div0.add_mod_idemp_l.
  replace (m + 1 + (u64_modulus - 1)) with (m + 1 * u64_modulus) by (unfold u64_modulus; lia).
  by rewrite N.Div0.mod_add.
Qed.

Lemma sorted_skip (l : list N) s k : StronglySorted N.lt (l ++ s :: k) -> StronglySorted N.lt (l ++ k).
Proof.
  induction l as [|a l IH]; cbn; intros Hs; apply StronglySorted_inv in Hs as [Hs Ha]; [done|].
  constructor; [by apply IH|]. rewrite !Forall_app, Forall_cons in *. naive_solver.
Qed.

Lemma dedup_sorted l : StronglySorted N.le l -> StronglySorted N.lt (dedup l) /\ forall x, x ∈ dedup l -> x ∈ l.
Proof.
  induction l as [|a [|b l] IH]; intros Hs; [split; [constructor|done]|split; [by repeat constructor|done]|].
  apply StronglySorted_inv in Hs as [Hs Ha]. destruct (IH Hs) as [Hd Hin]. change (dedup (a :: b :: l))
    with (if a =? b then dedup (b :: l) else a :: dedup (b :: l)).
  destruct (N.eqb_spec a b) as [->|Hab]; split; [done|intros x Hx; right; auto| |].
  - constructor; [done|]. rewrite Forall_forall in Ha |- *. intros x Hx.
    assert (a <= b) by (apply Ha; by left). assert (b <= x); [|lia].
    apply Hin, elem_of_cons in Hx as [->|Hx]; [lia|].
    apply StronglySorted_inv in Hs as [_ Hb]. rewrite Forall_forall in Hb. by apply Hb.
  - intros x [->|Hx]%elem_of_cons; [by left|right; auto].
Qed.

Lemma ordered_sorted l : StronglySorted N.lt (write_order l).
Proof. apply dedup_sorted. apply (StronglySorted_merge_sort N.le). Qed.

(** A list membership in a concrete list. *)
Ltac in_list := cbn; rewrite ?elem_of_app, ?elem_of_cons, ?elem_of_nil; naive_solver.

(** A step that changes no fence and passes on what the thread holds. *)
Ltac local_step I Hi :=
  eapply inv_local; [exact I|exact Hi|intros ?; in_list|split; intros ?; in_list || (cbn; congruence)|intros ?; in_list|done|done|try by split; [constructor|]].

(** A thread that is not closing. *)
Lemma thread_ok_op T H pc :
  pc_owns pc = [] -> pc_removing pc = None -> pc_shape pc ->
  (forall s f, (s, f) ∈ pc_refs pc ->
     exists fe, H !! f = Some fe /\ fence_session fe = s /\ (~ dead fe -> T !! s = Some f)) ->
  (forall f fe, pc_held pc = Some f -> H !! f = Some fe -> ~ dead fe) -> thread_ok T H pc.
Proof.
  intros Ho Hr Hs R D. split; [done| |done|congruence|done].
  intros s f fe Hin. by rewrite Ho in Hin; apply not_elem_of_nil in Hin.
Qed.

Lemma pair_ok_op pc pc2 :
  pc_owns pc = [] -> pc_removing pc = None ->
  (forall s f, pc_held pc = Some f -> (s, f) ∈ pc_drained pc2 -> False) -> pair_ok pc pc2 /\ pair_ok pc2 pc.
Proof.
  intros Ho Hr Hh. assert (forall x, x ∉ pc_owns pc) as Hno by (rewrite Ho; intros x; apply not_elem_of_nil).
  split; split; try congruence.
  - intros s s' f Hin. by apply Hno in Hin.
  - exact Hh.
  - intros s s' f _ Hin. by apply Hno in Hin.
  - intros s f _ Hin%drained_owns. by apply Hno in Hin.
Qed.

Section steps.
Context (b : FfiBackend) (ths : list FenceThread) (i : nat) (e : N).
Notation inv b ths := (fence_inv (fences b) (fence_heap b) (NEXT_FENCE_INCARNATION b) ths).
Context (I : inv b ths).

Lemma loaded_ok s f : fences b !! s = Some f ->
  exists fe, fence_heap b !! f = Some fe /\ fence_session fe = s /\ (~ dead fe -> fences b !! s = Some f).
Proof using I. intros Hs. destruct (fi_table _ _ _ _ I s f Hs) as (fe & Hf & Hse). by exists fe. Qed.

Lemma op_loaded s f expected pc :
  ths !! i = Some (MkFenceThread e pc) -> pc_owns pc = [] -> pc_held pc = None -> pc_removing pc = None ->
  (forall g, pc_counted g (MkFenceThread e pc) = false) -> fences b !! s = Some f ->
  inv b (<[i := MkFenceThread e (OpLoad s f expected)]> ths).
Proof using I.
  intros Hi Ho Hh Hr Hc Hs. eapply inv_pc; [exact I|exact Hi|..].
  - apply thread_ok_op; try done; [by split; [constructor|]|]. intros s' f' Hin%list_elem_of_singleton. injection Hin as -> ->. by apply loaded_ok.
  - intros j th _ _. by apply pair_ok_op.
  - intros x. rewrite Ho. in_list.
  - done.
  - intros g. by rewrite Hc.
Qed.

Lemma recheck_held s f expected fe :
  ths !! i = Some (MkFenceThread e (OpRecheck s f expected)) -> fence_heap b !! f = Some fe ->
  lifecycle fe = FENCE_OPEN -> inv b (<[i := MkFenceThread e (OpHeld s f)]> ths).
Proof using I.
  intros Hi Hf Hl. pose proof (fi_threads _ _ _ _ I i _ Hi) as [R _ _ _ _]. eapply inv_pc; [exact I|exact Hi|..].
  - apply thread_ok_op; try done; [by split; [constructor|]|]. cbn. intros f' fe' [= <-] Hf'. rewrite Hf in Hf'. injection Hf' as <-. by intros [].
  - intros j th Hne Hj. apply pair_ok_op; [done..|]. cbn. intros s' f' [= <-] Hd%drained_owns.
    pose proof (to_owns _ _ _ (fi_threads _ _ _ _ I j _ Hj) _ _ _ Hd Hf). rewrite Hl in *. done.
  - done.
  - done.
  - done.
Qed.

(** The next fence of a close, looked up. *)
Lemma mark_loaded t s f todo owned :
  ths !! i = Some (MkFenceThread e (CloseMark t (s :: todo) owned)) -> fences b !! s = Some f ->
  inv b (<[i := MkFenceThread e (CloseLoad t s f todo owned)]> ths).
Proof using I.
  intros Hi Hs. pose proof (fi_threads _ _ _ _ I i _ Hi) as [R O _ _ [Hst Hsi]]. eapply inv_pc; [exact I|exact Hi|..]; try done.
  - split; [|exact O|done..|split; [exact Hst|]].
    + intros s' f' [Heq|Hin]%elem_of_cons; [|by apply R]. injection Heq as -> ->. by eapply loaded_ok.
    + destruct t; [|done]. cbn in Hsi |- *. destruct Hsi as [[? _]|[-> [= -> ->]]]; [done|by split_and!].
  - eapply pairs_le; [exact I|exact Hi|]. by split.
Qed.

End steps.

Section thread_steps.
Context (b : FfiBackend) (ths : list FenceThread) (i : nat) (e : N).
Notation inv b ths := (fence_inv (fences b) (fence_heap b) (NEXT_FENCE_INCARNATION b) ths).
Context (I : inv b ths).

Lemma enter_inv pc b' pc' :
  ths !! i = Some (MkFenceThread e pc) -> enter_step b pc = Some (b', pc') ->
  inv b' (<[i := MkFenceThread e pc']> ths).
Proof using I.
  intros Hi. destruct pc; try done; cbn [enter_step].
  - destruct expected as [x|].
    + intros [= <- <-]. destruct (fences b !! s) as [f|] eqn:Es; [|by local_step I Hi].
      destruct (fence_heap b !! f) as [fe|]; [|by local_step I Hi].
      case_match; [by eapply op_loaded|by local_step I Hi].
    + pose proof (inv_create s b ths I) as Hc. destruct (fence_or_create s b) as [f b1]. destruct Hc as [I1 Hs].
      intros [= <- <-]. by eapply op_loaded.
  - destruct (fence_heap b !! f) as [fe|]; [|done]. intros [= <- <-]. case_match; local_step I Hi.
  - intros [= <- <-]. eapply (inv_readers _ _ _ _ i e _ I Hi (fun n => wrapping_add64 n 1) f);
      [try done; by split; [constructor|]..|intros g Hg; cbn; by rewrite bool_decide_false|].
    intros n ->. apply wrap_incr. pose proof (count_if_update (pc_counted f) _ _ _ (MkFenceThread e (OpRecheck s f expected)) Hi) as Hu.
    cbn in Hu. rewrite bool_decide_true in Hu by done. lia.
  - destruct (fence_heap b !! f) as [fe|] eqn:Hf; [|done]. intros [= <- <-].
    destruct (N.eqb_spec (lifecycle fe) FENCE_OPEN) as [Hl|]; [|by local_step I Hi].
    destruct (check_expected expected fe); [by eapply recheck_held|by local_step I Hi].
  - intros [= <- <-]. eapply (inv_readers _ _ _ _ i e _ I Hi (fun n => wrapping_sub64 n 1) f);
      [by intros ? ?%not_elem_of_nil|try done; by split; [constructor|]..|intros g Hg; cbn; by rewrite bool_decide_false|].
    intros n ->. apply wrap_decr. pose proof (count_if_update (pc_counted f) _ _ _ (MkFenceThread e invalid) Hi) as Hu.
    cbn in Hu. rewrite bool_decide_true in Hu by done. lia.
Qed.

Lemma op_inv c pc b' pc' :
  ths !! i = Some (MkFenceThread e pc) -> op_step c b pc = Some (b', pc') ->
  inv b' (<[i := MkFenceThread e pc']> ths).
Proof using I.
  intros Hi. destruct pc; try done.
  - assert (forall r, inv (sub_reader f b) (<[i := MkFenceThread e (FenceDone r)]> ths)) as Hleave.
    { intros r. eapply (inv_readers _ _ _ _ i e _ I Hi (fun n => wrapping_sub64 n 1) f);
        [by intros ? ?%not_elem_of_nil|try done; by split; [constructor|]..|intros g Hg; cbn; by rewrite bool_decide_false|].
      intros n ->. apply wrap_decr. pose proof (count_if_update (pc_counted f) _ _ _ (MkFenceThread e (FenceDone r)) Hi) as Hu.
      cbn in Hu. rewrite bool_decide_true in Hu by done. lia. }
    destruct c; try done; cbn; intros [= <- <-]; try apply Hleave; cbn; local_step I Hi.
  - destruct c; try done. cbn. intros [= <- <-]. cbn. local_step I Hi.
Qed.
Lemma shift_sorted s f (owned : list (N * FenceRef)) todo :
  StronglySorted N.lt (owned.*1 ++ s :: todo) -> StronglySorted N.lt ((owned ++ [(s, f)]).*1 ++ todo).
Proof. by rewrite fmap_app, <- app_assoc. Qed.

Lemma cas_marks t s f fe todo owned :
  ths !! i = Some (MkFenceThread e (CloseCas t s f todo owned)) -> fence_heap b !! f = Some fe ->
  lifecycle fe = FENCE_OPEN ->
  inv (set_lifecycle f FENCE_CLOSING b) (<[i := MkFenceThread e (CloseMark t todo (owned ++ [(s, f)]))]> ths).
Proof using I.
  intros Hi Hf Hl. pose proof (fi_threads _ _ _ _ I i _ Hi) as Hok. pose proof Hok as [R O _ _ [Hst Hsi]].
  assert (~ dead fe) as Hnd by (by intros []).
  assert (forall s' pc, thread_ok (fences b) (fence_heap b) pc -> (s', f) ∉ pc_owns pc) as Hno.
  { intros s' pc Hpc Hin. pose proof (to_owns _ _ _ Hpc _ _ _ Hin Hf) as Hc. by rewrite Hl in Hc. }
  assert (view_le (CloseMark t todo owned) (CloseCas t s f todo owned)) as V by (by split).
  cbn. eapply (inv_lifecycle _ _ _ _ i e _ I Hi f fe); [done|done|..].
  - split; [..|done|done|].
    + intros s' f' Hin. cbn in Hin. assert ((s', f') ∈ pc_refs (CloseCas t s f todo owned)) as Hin' by (revert Hin; in_list).
      destruct (R s' f' Hin') as (fe' & Hf' & Hse & Ht). rewrite list_lookup_alter. case_decide as Heq.
      * subst f'. rewrite Hf in Hf'. injection Hf' as <-. rewrite Hf. eexists. split_and!; [done|done|auto].
      * exists fe'. auto.
    + intros s' f' fe' [Hin|Heq%list_elem_of_singleton]%elem_of_app; rewrite list_lookup_alter; case_decide as Hff.
      * subst f'. by apply (Hno _ _ Hok) in Hin.
      * by apply (O s' f').
      * rewrite Hf. by intros [= <-].
      * injection Heq as -> ->. done.
    + split; [by apply shift_sorted|]. destruct t; [|done]. left. by destruct Hsi as (-> & -> & ->).
  - intros j th Hne Hj. pose proof (fi_threads _ _ _ _ I j _ Hj) as Hokj.
    destruct (pairs_le _ _ _ _ _ _ _ I Hi _ V j th Hne Hj) as [P1 P2].
    split_and!; [intros s'; by apply Hno|by right; left|..].
    + split; [|done..]. intros s1 s2 f' [Hin|Heq%list_elem_of_singleton]%elem_of_app; [by eapply (po_owns _ _ P1)|].
      injection Heq as -> ->. intros Hin. by apply (Hno _ _ Hokj) in Hin.
    + split; [|by intros ? ? _ ?%not_elem_of_nil|done].
      intros s1 s2 f' Hin [Hin'|Heq%list_elem_of_singleton]%elem_of_app; [by eapply (po_owns _ _ P2)|].
      injection Heq as -> ->. by apply (Hno _ _ Hokj) in Hin.
  - intros x Hx _. revert Hx. in_list.
  - intros _. exists s. in_list.
  - done.
  - by right; left.
  - done.
Qed.

Lemma drain_done t done s f fe todo :
  N.of_nat (length ths) < u64_modulus ->
  ths !! i = Some (MkFenceThread e (CloseDrain t done ((s, f) :: todo))) -> fence_heap b !! f = Some fe -> readers fe = 0 ->
  inv b (<[i := MkFenceThread e (CloseDrain t (done ++ [(s, f)]) todo)]> ths).
Proof using I.
  intros Hsmall Hi Hf Hz. pose proof (fi_threads _ _ _ _ I i _ Hi) as [R O _ _ _].
  assert ((done ++ [(s, f)]) ++ todo = done ++ (s, f) :: todo) as Heq by (by rewrite <- app_assoc).
  assert (count_if (pc_counted f) ths = 0) as Hc.
  { pose proof (fi_readers _ _ _ _ I f fe Hf) as Hr. pose proof (count_if_length (pc_counted f) ths).
    rewrite N.mod_small in Hr by lia. lia. }
  eapply inv_pc; [exact I|exact Hi|..]; try done.
  - split; cbn [pc_refs pc_owns]; rewrite ?Heq; [exact R|exact O|done..|].
    unfold pc_shape, pc_single. cbn [pc_sessions]. rewrite Heq. apply (to_shape _ _ _ (fi_threads _ _ _ _ I i _ Hi)).
  - intros j th Hne Hj.
    destruct (pairs_le _ _ _ _ _ _ (CloseDrain t done ((s, f) :: todo)) I Hi (CloseDrain t done ((s, f) :: todo)) ltac:(by split) j th Hne Hj)
      as [P1 P2].
    split; split; cbn [pc_owns pc_drained]; rewrite ?Heq; [apply P1|done|done|apply P2| |done].
    intros s' f' Hh [Hin|Hx%list_elem_of_singleton]%elem_of_app; [by eapply (po_held _ _ P2)|]. injection Hx as -> ->.
    pose proof (count_if_pos (pc_counted f) ths th (list_elem_of_lookup_2 _ _ _ Hj) (held_counted _ _ Hh)). lia.
  - cbn [pc_owns]. by rewrite Heq.
Qed.

Lemma enter_write_inv pc b' pc' :
  N.of_nat (length ths) < u64_modulus ->
  ths !! i = Some (MkFenceThread e pc) -> enter_write_step b pc = Some (b', pc') ->
  inv b' (<[i := MkFenceThread e pc']> ths).
Proof using I.
  intros Hsmall Hi. destruct pc; try done; cbn [enter_write_step].
  - intros [= <- <-]. local_step I Hi. split; [apply ordered_sorted|done].
  - pose proof (to_shape _ _ _ (fi_threads _ _ _ _ I i _ Hi)) as [Hst Hsi].
    destruct todo as [|s todo]; [intros [= <- <-]; local_step I Hi; split; cbn in Hst, Hsi |- *|].
    { by rewrite app_nil_r in Hst. } { destruct t; [|done]. by destruct Hsi as [[_ ?]|[_ ?]]. }
    pose proof (inv_create s b ths I) as Hc. destruct (fence_or_create s b) as [f b1]. destruct Hc as [I1 Hs].
    intros [= <- <-]. by eapply mark_loaded.
  - destruct (fence_heap b !! f) as [fe|] eqn:Hf; [|done]. intros [= <- <-].
    pose proof (to_shape _ _ _ (fi_threads _ _ _ _ I i _ Hi)) as [Hst Hsi].
    case_match; [by local_step I Hi|]. case_match; [by rewrite list_insert_id|].
    destruct t; [destruct Hsi as (-> & -> & ->); by local_step I Hi|]. local_step I Hi. split; [|done].
    cbn in Hst |- *. by eapply sorted_skip.
  - destruct (fence_heap b !! f) as [fe|] eqn:Hf; [|done]. cbn [mbind option_bind].
    pose proof (to_shape _ _ _ (fi_threads _ _ _ _ I i _ Hi)) as Hsh.
    destruct (N.eqb_spec (lifecycle fe) FENCE_OPEN) as [Hl|]; intros [= <- <-]; [by eapply cas_marks|by local_step I Hi].
  - pose proof (to_shape _ _ _ (fi_threads _ _ _ _ I i _ Hi)) as [Hst Hsi].
    destruct todo as [|[s f] todo]; [intros [= <- <-]; local_step I Hi; split; cbn in Hst, Hsi |- *;
      by rewrite app_nil_r in *|].
    destruct (fence_heap b !! f) as [fe|] eqn:Hf; [|done]. intros [= <- <-].
    destruct (N.eqb_spec (readers fe) 0) as [Hz|]; [by eapply drain_done|by rewrite list_insert_id].
Qed.
(** Settling the first fence of a close: it leaves [CLOSING]. *)
Lemma inv_pop s f todo v pc pc' :
  ths !! i = Some (MkFenceThread e pc) ->
  pc_refs pc = (s, f) :: todo -> pc_owns pc = (s, f) :: todo -> pc_drained pc = (s, f) :: todo ->
  pc_sessions pc = s :: todo.*1 -> pc_removing pc = None ->
  pc_refs pc' = todo -> pc_owns pc' = todo -> pc_drained pc' = todo -> pc_held pc' = None -> pc_shape pc' ->
  (forall g, pc_counted g (MkFenceThread e pc') = pc_counted g (MkFenceThread e pc)) ->
  (v = FENCE_OPEN /\ pc_removing pc' = None \/
   v <> FENCE_OPEN /\ v <> FENCE_CLOSING /\ pc_removing pc' = Some s) ->
  inv (set_lifecycle f v b) (<[i := MkFenceThread e pc']> ths).
Proof using I.
  intros Hi Hr Ho Hd Hss Hrm Hr' Ho' Hd' Hh' Hsh Hc Hv. pose proof (fi_threads _ _ _ _ I i _ Hi) as Hok.
  destruct (to_refs _ _ _ Hok s f) as (fe & Hf & Hse & Ht); [cbn; rewrite Hr; by left|].
  pose proof (to_owns _ _ _ Hok s f fe ltac:(cbn; rewrite Ho; by left) Hf) as Hl.
  assert (~ dead fe) as Hnd by (intros []; done). specialize (Ht Hnd).
  assert (forall s' f', (s', f') ∈ todo -> f' <> f) as Hne.
  { intros s' f' Hin ->. destruct (to_refs _ _ _ Hok s' f) as (fe' & Hf' & Hse' & _); [cbn; rewrite Hr; by right|].
    rewrite Hf in Hf'. injection Hf' as <-. rewrite Hse in Hse'. subst s'.
    pose proof (to_shape _ _ _ Hok) as [Hst _]. cbn in Hst. rewrite Hss in Hst. apply StronglySorted_inv in Hst as [_ Hall].
    rewrite Forall_forall in Hall. specialize (Hall s (list_elem_of_fmap_2 fst _ _ Hin)). lia. }
  cbn. eapply (inv_lifecycle _ _ _ _ i e _ I Hi f fe); [done|done|..].
  - split; [..|done]; rewrite ?Hr', ?Ho'.
    + intros s' f' Hin. destruct (to_refs _ _ _ Hok s' f') as (fe' & Hf' & ?); [cbn; rewrite Hr; by right|].
      exists fe'. rewrite list_lookup_alter_ne; [done|]. intros ->. by eapply Hne.
    + intros s' f' fe' Hin. rewrite list_lookup_alter_ne by (intros ->; by eapply Hne).
      apply (to_owns _ _ _ Hok s' f'). cbn. rewrite Ho. by right.
    + congruence.
    + intros s' Hs'. destruct Hv as [[_ ?]|(Hv1 & Hv2 & Hs)]; [congruence|]. rewrite Hs in Hs'. injection Hs' as <-.
      exists f, (fe <| lifecycle := v |>). rewrite list_lookup_alter, decide_True, Hf by done. by split_and!.
  - intros j th Hnj Hj. pose proof (fi_pairs _ _ _ _ I i j _ _ ltac:(done) Hi Hj) as P1.
    pose proof (fi_pairs _ _ _ _ I j i _ _ ltac:(done) Hj Hi) as P2. cbn in P1, P2.
    pose proof (fi_threads _ _ _ _ I j _ Hj) as Hokj.
    assert (forall s', pc_removing pc' = Some s' -> pc_removing (ft_pc th) = Some s' -> False) as Hrj.
    { intros s' Hs' Hj'. destruct Hv as [[_ ?]|(_ & _ & Hs)]; [congruence|]. rewrite Hs in Hs'. injection Hs' as <-.
      destruct (to_removing _ _ _ Hokj s Hj') as (f' & fe' & Hs' & Hf' & Hdd). congruence. }
    split_and!.
    + intros s' Hin. eapply (po_owns _ _ P1 s s' f); [rewrite Ho; by left|done].
    + destruct Hv as [[-> _]|_]; [by left|]. right. right. intros Hh. apply (po_held _ _ P2 s f Hh). rewrite Hd. by left.
    + split; rewrite ?Ho'; [|congruence|done]. intros s1 s2 f' Hin. apply (po_owns _ _ P1 s1 s2 f'). rewrite Ho. by right.
    + split; rewrite ?Ho', ?Hd'; [| |by eauto].
      * intros s1 s2 f' Hin Hin'. apply (po_owns _ _ P2 s1 s2 f' Hin). rewrite Ho. by right.
      * intros s1 f' Hh Hin. apply (po_held _ _ P2 s1 f' Hh). rewrite Hd. by right.
  - intros x. rewrite Ho, Ho'. intros [->|Hx]%elem_of_cons; [done|done].
  - intros ->. destruct Hv as [[? _]|(_ & ? & _)]; done.
  - congruence.
  - destruct Hv as [[-> _]|(_ & _ & Hs)]; [by left|]. right. right. intros s' Hs'.
    destruct (fi_table _ _ _ _ I s' f Hs') as (fe' & Hf' & Hse'). congruence.
  - done.
Qed.

Lemma settle_inv c pc b' pc' :
  ths !! i = Some (MkFenceThread e pc) -> settle_step c e b pc = Some (b', pc') ->
  inv b' (<[i := MkFenceThread e pc']> ths).
Proof using I.
  intros Hi. pose proof (to_shape _ _ _ (fi_threads _ _ _ _ I i _ Hi)) as [Hst _]. destruct pc; try done.
  - destruct c; try done; intros [= <- <-]; cbn; local_step I Hi; by split.
  - destruct todo as [|[s f] todo].
    + destruct t, c; try done; intros [= <- <-]; local_step I Hi.
    + apply StronglySorted_inv in Hst as [Hst _].
      assert (terminal_epoch e <> FENCE_OPEN /\ terminal_epoch e <> FENCE_CLOSING) as [Hn1 Hn2]
        by (unfold terminal_epoch, FENCE_OPEN, FENCE_CLOSING, u64_MAX; lia).
      destruct t, c; try done; intros [= <- <-]; (eapply inv_pop; [exact Hi|try done..]; by right).
  - destruct c; try done. intros [= <- <-]. eapply (inv_remove _ _ _ _ i e _ I Hi); done.
  - destruct todo as [|[s f] todo]; destruct c; try done; intros [= <- <-]; [by local_step I Hi|].
    apply StronglySorted_inv in Hst as [Hst _]. eapply inv_pop; [exact Hi|try done..]; by left.
Qed.
End thread_steps.

(** The caches and the opening of sessions touch no fence. *)
Lemma evict_fences b pc b' pc' :
  evict_step b pc = Some (b', pc') ->
  fences b' = fences b /\ fence_heap b' = fence_heap b /\ NEXT_FENCE_INCARNATION b' = NEXT_FENCE_INCARNATION b /\
  (forall e g, pc_counted g (MkFenceThread e pc') = false /\ pc_counted g (MkFenceThread e pc) = false) /\
  pc_refs pc' = [] /\ pc_owns pc' = [] /\ pc_owns pc = [] /\ pc_held pc' = None /\ pc_removing pc' = None /\
  pc_removing pc = None /\ pc_drained pc' = [] /\ pc_shape pc'.
Proof.
  assert (forall t rest, pc_refs (next_session t rest) = [] /\ pc_owns (next_session t rest) = [] /\
    pc_held (next_session t rest) = None /\ pc_removing (next_session t rest) = None /\
    pc_drained (next_session t rest) = [] /\ pc_shape (next_session t rest) /\
    forall e g, pc_counted g (MkFenceThread e (next_session t rest)) = false) as Hn.
  { intros t [|s rest]; split_and!; try done; by split; [constructor|]. }
  destruct pc; try done; cbn [evict_step]; try (destruct fams); intros [= <- <-]; cbn [fences fence_heap
    NEXT_FENCE_INCARNATION set_field]; repeat case_match; split_and!; try done;
    first [by split; [apply SSorted_nil|]|split; [apply Hn|done]|apply Hn].
Qed.

Lemma open_fences c b pc b' pc' :
  open_step c b pc = Some (b', pc') ->
  fences b' = fences b /\ fence_heap b' = fence_heap b /\ NEXT_FENCE_INCARNATION b' = NEXT_FENCE_INCARNATION b /\
  (forall e g, pc_counted g (MkFenceThread e pc') = false /\ pc_counted g (MkFenceThread e pc) = false) /\
  pc_refs pc' = [] /\ pc_owns pc' = [] /\ pc_owns pc = [] /\ pc_held pc' = None /\ pc_removing pc' = None /\
  pc_removing pc = None /\ pc_drained pc' = [] /\ pc_shape pc'.
Proof.
  destruct pc, c; try done; cbn; try case_bool_decide; try done; intros [= <- <-]; cbn; split_and!; try done;
    by split; [constructor|].
Qed.

Lemma run_inv c b ths i e pc b' pc' :
  system_inv (MkFenceSystem b ths) -> N.of_nat (length ths) < u64_modulus ->
  ths !! i = Some (MkFenceThread e pc) -> thread_step c e b pc = Some (b', pc') ->
  system_inv (MkFenceSystem b' (<[i := MkFenceThread e pc']> ths)).
Proof.
  unfold system_inv. cbn. intros I Hsmall Hi Hstep.
  assert (evict_step b pc = Some (b', pc') \/ open_step c b pc = Some (b', pc') ->
    fence_inv (fences b') (fence_heap b') (NEXT_FENCE_INCARNATION b') (<[i := MkFenceThread e pc']> ths)) as Hlocal.
  { intros Hs. assert (fences b' = fences b /\ fence_heap b' = fence_heap b /\
      NEXT_FENCE_INCARNATION b' = NEXT_FENCE_INCARNATION b /\
      (forall e g, pc_counted g (MkFenceThread e pc') = false /\ pc_counted g (MkFenceThread e pc) = false) /\
      pc_refs pc' = [] /\ pc_owns pc' = [] /\ pc_owns pc = [] /\ pc_held pc' = None /\ pc_removing pc' = None /\
      pc_removing pc = None /\ pc_drained pc' = [] /\ pc_shape pc') as Hf
      by (destruct Hs; [by eapply evict_fences|by eapply open_fences]).
    destruct Hf as (-> & -> & -> & Hc & Hr & Ho' & Ho & Hh & Hm' & Hm & Hd & Hsh).
    eapply inv_local; [exact I|exact Hi|..].
    - rewrite Hr. by intros x ?%not_elem_of_nil.
    - split; rewrite ?Ho', ?Hd; try congruence; by intros x ?%not_elem_of_nil.
    - rewrite Ho. by intros x ?%not_elem_of_nil.
    - congruence.
    - intros g. by destruct (Hc e g) as [-> ->].
    - done. }
  destruct pc; try done; cbn [thread_step] in Hstep.
  all: try (destruct c; [|done..]).
  all: first [by eapply enter_inv|by eapply op_inv|by eapply enter_write_inv|by eapply settle_inv|auto].
Qed.

Lemma start_idle pc : call_start pc ->
  pc_refs pc = [] /\ pc_owns pc = [] /\ pc_held pc = None /\ pc_removing pc = None /\ pc_drained pc = [] /\
  pc_shape pc /\ forall e g, pc_counted g (MkFenceThread e pc) = false.
Proof.
  intros []; split_and!; try done; (split; [by repeat constructor|]); try done. by right.
Qed.

Lemma step_inv sys sys' :
  system_inv sys -> N.of_nat (length (fs_threads sys)) < u64_modulus -> fence_step sys sys' -> system_inv sys'.
Proof.
  intros I Hsmall Hst. destruct Hst as [b ths e pc Hpc|b ths s|b ths i e pc c b' pc' Hi Hs|b ths Hall].
  - destruct (start_idle pc Hpc) as (Hr & Ho & Hh & Hm & Hd & Hsh & Hc).
    unfold system_inv in *. cbn in *. pose proof I as [Th P Tb Rd Cl Tm Ic Nx].
    assert (forall j th, (ths ++ [MkFenceThread e pc]) !! j = Some th ->
      ths !! j = Some th \/ j = length ths /\ th = MkFenceThread e pc) as Hcase.
    { intros j th [Hj|[Hle Hj]]%lookup_app_Some; [by left|right].
      apply list_lookup_singleton_Some in Hj as [Hz <-]. split; [lia|done]. }
    split; [..|done|done].
    + intros j th [Hj|[-> ->]]%Hcase; [by eapply Th|]. cbn. apply thread_ok_op; [done..| |congruence].
      intros s f Hin. by rewrite Hr in Hin; apply not_elem_of_nil in Hin.
    + assert (forall pc2, pair_ok pc pc2 /\ pair_ok pc2 pc) as Hp by (intros pc2; apply pair_ok_op; (done || congruence)).
      intros j k th th' Hne [Hj|[-> ->]]%Hcase [Hk|[-> ->]]%Hcase; [by eapply P|apply Hp..|done].
    + done.
    + intros f fe Hf. rewrite count_if_app, count_if_cons, Hc. rewrite (N.add_0_r _ : _ + (0 + count_if _ []) = _).
      by apply Rd.
    + intros f fe Hf Hl. destruct (Cl f fe Hf Hl) as (th & s & Hin & Hs). exists th, s.
      split; [apply elem_of_app; by left|done].
    + intros s f fe Ht Hf Hdd. destruct (Tm s f fe Ht Hf Hdd) as (th & Hin & Hs). exists th.
      split; [apply elem_of_app; by left|done].
  - pose proof (inv_create s b ths I) as Hc. unfold incarnation_or_create, system_inv. cbn.
    destruct (fence_or_create s b) as [f b1]. by destruct Hc.
  - by eapply run_inv.
  - unfold system_inv in *. cbn in *. pose proof I as [Th P Tb Rd Cl Tm Ic Nx].
    assert (forall j th, ths !! j = Some th -> exists r, ft_pc th = FenceDone r) as Hdone.
    { intros j th Hj. rewrite Forall_lookup in Hall. specialize (Hall j th Hj). unfold thread_done in Hall.
      destruct (ft_pc th); try done. by eexists. }
    split; [..|exact Rd|exact Cl| |exact Ic|exact Nx].
    + intros j th Hj. destruct (Hdone j th Hj) as [r ->]. apply thread_ok_op; try done; [by split; [constructor|]|].
      by intros s f ?%not_elem_of_nil.
    + exact P.
    + intros s f. by rewrite lookup_empty.
    + intros s f fe. by rewrite lookup_empty.
Qed.

Lemma steps_grow sys sys' : fence_step sys sys' -> (length (fs_threads sys) <= length (fs_threads sys'))%nat.
Proof. intros []; cbn; rewrite ?length_app, ?length_insert; lia. Qed.

Lemma reachable_inv sys :
  fence_reachable sys -> N.of_nat (length (fs_threads sys)) < u64_modulus -> system_inv sys.
Proof.
  intros Hr. revert sys Hr. refine (rtc_ind_r _ _ _ _).
  - intros _. split; cbn; try done; by intros ? ? ?%lookup_nil_Some || intros ? ?; by rewrite lookup_empty.
  - intros s s' _ Hst IH Hsmall. pose proof (steps_grow _ _ Hst). eapply step_inv; [apply IH; lia|lia|done].
Qed.

(** ** Exclusion *)

(** The thread runs a native operation on session [s]. *)
Definition operating (s : N) (th : FenceThread) : Prop :=
  match ft_pc th with OpHeld s' _ | OpMarker s' _ _ => s' = s | _ => False end.

(** *** What a close covers *)

Definition skipped_of (t : CloseTarget) : list (N * FenceRef) := match t with CloseOne _ => [] | CloseSlot _ _ skipped => skipped end.

Definition pc_target (pc : FencePc) : option CloseTarget :=
  match pc with
  | CloseMark t _ _ | CloseLoad t _ _ _ _ | CloseCas t _ _ _ _ | CloseDrain t _ _ | CloseHeld t _ => Some t
  | _ => None
  end.

(** Every session a close-all knows of is marked, was found closed, or is still
    to be looked at. *)
Definition pc_complete (pc : FencePc) : Prop :=
  match pc_target pc with
  | Some (CloseSlot _ known skipped) => forall s, s ∈ known -> s ∈ pc_sessions pc \/ s ∈ skipped.*1
  | _ => True
  end.

(** The fences it found closed are: no operation runs under them. *)
Definition pc_skips (H : list SessionFence) (pc : FencePc) : Prop :=
  forall t s f, pc_target pc = Some t -> (s, f) ∈ skipped_of t -> exists fe, H !! f = Some fe /\ fence_session fe = s /\ dead fe.

Lemma dedup_elem l x : x ∈ dedup l <-> x ∈ l.
Proof.
  induction l as [|a [|b l] IH]; [done..|]. change (dedup (a :: b :: l)) with (if a =? b then dedup (b :: l) else a :: dedup (b :: l)).
  destruct (N.eqb_spec a b) as [->|]; rewrite ?elem_of_cons, IH, ?elem_of_cons; tauto.
Qed.

Lemma write_order_elem l x : x ∈ write_order l <-> x ∈ l.
Proof. unfold write_order. rewrite dedup_elem. by rewrite merge_sort_Permutation. Qed.

(** A step keeps a close complete. *)
Lemma step_complete c epoch b pc b' pc' : thread_step c epoch b pc = Some (b', pc') -> pc_complete pc -> pc_complete pc'.
Proof.
  unfold pc_complete. destruct pc, c; cbn; try done; intros Hst Hc; unfold next_session, invalid in *.
  all: repeat first [case_match | simplify_option_eq]; simplify_eq/=; try done.
  all: intros x Hx; rewrite ?write_order_elem, ?fmap_app in *; cbn in *; try (left; done); specialize (Hc x Hx);
    rewrite ?elem_of_app, ?elem_of_cons, ?elem_of_nil in *; tauto.
Qed.

(** A closed fence stays closed. *)
Definition closed_stay (H H' : list SessionFence) : Prop :=
  forall f fe, H !! f = Some fe -> dead fe -> exists fe', H' !! f = Some fe' /\ fence_session fe' = fence_session fe /\ dead fe'.

Lemma closed_stay_refl H : closed_stay H H.
Proof. intros f fe Hf Hd. eauto. Qed.

Lemma closed_stay_create s b : closed_stay (fence_heap b) (fence_heap (fence_or_create s b).2).
Proof.
  unfold fence_or_create. destruct (fences b !! s); [apply closed_stay_refl|]. intros f fe Hf Hd. exists fe. cbn. split_and!; [|done..].
  by apply lookup_app_l_Some.
Qed.

Lemma closed_stay_alter g f0 H :
  (forall fe, H !! f0 = Some fe -> dead fe -> dead (g fe) /\ fence_session (g fe) = fence_session fe) -> closed_stay H (alter g f0 H).
Proof.
  intros Hg f fe Hf Hd. rewrite list_lookup_alter. case_decide as E; [|by exists fe]. subst f0. rewrite Hf. cbn.
  destruct (Hg fe Hf Hd). by eexists.
Qed.

Lemma step_closed_stay c epoch b pc b' pc' T :
  thread_ok T (fence_heap b) pc -> thread_step c epoch b pc = Some (b', pc') -> closed_stay (fence_heap b) (fence_heap b').
Proof.
  intros Hok. assert (forall s f, (s, f) ∈ pc_owns pc -> forall fe, fence_heap b !! f = Some fe -> ~ dead fe) as Hown.
  { intros s f Hin fe Hf [_ Hd]. apply Hd. by eapply (to_owns _ _ _ Hok). }
  destruct pc, c; cbn; try done; intros Hst.
  all: repeat first [case_match | simplify_option_eq]; simplify_eq/=; try apply closed_stay_refl;
    try match goal with
        | Hc : fence_or_create ?s ?b = _ |- _ => pose proof (closed_stay_create s b) as Hx; rewrite Hc in Hx; exact Hx
        end;
    apply closed_stay_alter; intros fe Hf Hd; try done;
    try (exfalso; revert Hd; eapply Hown; [by left|exact Hf]).
  destruct Hd as [Hd _]. simplify_eq. match goal with E : (_ =? FENCE_OPEN) = true |- _ => by apply N.eqb_eq in E end.
Qed.

Lemma step_skips c epoch b pc b' pc' T :
  thread_ok T (fence_heap b) pc -> thread_step c epoch b pc = Some (b', pc') -> pc_skips (fence_heap b) pc -> pc_skips (fence_heap b') pc'.
Proof.
  intros Hok Hst Hs.
  assert (forall t s f, pc_target pc' = Some t -> (s, f) ∈ skipped_of t ->
    exists fe, fence_heap b !! f = Some fe /\ fence_session fe = s /\ dead fe) as Hold.
  { destruct pc, c; cbn in Hst; try done; unfold next_session, invalid in *.
    all: repeat first [case_match | simplify_option_eq]; simplify_eq/=; intros t' s' f' Ht Hin; simplify_eq/=;
      try (by apply elem_of_nil in Hin); try (by eapply Hs).
    rewrite elem_of_app, list_elem_of_singleton in Hin. destruct Hin as [Hin|[= -> ->]]; [by eapply Hs|].
    destruct (to_refs _ _ _ Hok s f) as (fe & Hf & Hse & _); [by left|]. exists fe. simplify_eq. split_and!; [done..|].
    split; by apply N.eqb_neq. }
  intros t s f Ht Hin. destruct (Hold t s f Ht Hin) as (fe & Hf & <- & Hd).
  destruct (step_closed_stay _ _ _ _ _ _ _ Hok Hst f fe Hf Hd) as (fe' & ? & ? & ?). eauto.
Qed.

Definition covers_inv (sys : FenceSystem) : Prop :=
  forall th, th ∈ fs_threads sys -> pc_complete (ft_pc th) /\ pc_skips (fence_heap (fs_backend sys)) (ft_pc th).

Lemma pc_skips_stay H H' pc : closed_stay H H' -> pc_skips H pc -> pc_skips H' pc.
Proof. intros Hc Hs t s f Ht Hin. destruct (Hs t s f Ht Hin) as (fe & Hf & <- & Hd). destruct (Hc f fe Hf Hd) as (fe' & ? & ? & ?). eauto. Qed.

Lemma step_covers sys sys' : system_inv sys -> fence_step sys sys' -> covers_inv sys -> covers_inv sys'.
Proof.
  intros I Hst Hc. destruct Hst as [b ths epoch pc Hpc|b ths s|b ths i epoch pc c b' pc' Hi Hst|b ths Hall]; intros th Hin; cbn in *.
  - apply elem_of_app in Hin as [Hin| ->%list_elem_of_singleton]; [by apply Hc|]. cbn. destruct Hpc; (split; [done|]); intros t s' f' Ht Hin; cbn in Ht; simplify_eq/=; by apply elem_of_nil in Hin.
  - destruct (Hc th Hin) as [H1 H2]. split; [done|]. eapply pc_skips_stay; [|exact H2]. unfold incarnation_or_create.
    pose proof (closed_stay_create s b). by destruct (fence_or_create s b).
  - pose proof (fi_threads _ _ _ _ I i _ Hi) as Hok. cbn in Hok. pose proof (step_closed_stay _ _ _ _ _ _ _ Hok Hst) as Hstay.
    destruct (Hc _ (list_elem_of_lookup_2 _ _ _ Hi)) as [H1 H2]. cbn in H1, H2.
    apply list_elem_of_lookup in Hin as [j [(<- & <- & _)|[Hne Hj]]%list_lookup_insert_Some].
    + split; [by eapply step_complete|by eapply step_skips].
    + destruct (Hc th (list_elem_of_lookup_2 _ _ _ Hj)) as [H3 H4]. split; [done|]. by eapply pc_skips_stay.
  - by apply Hc.
Qed.

Lemma reachable_covers sys : fence_reachable sys -> N.of_nat (length (fs_threads sys)) < u64_modulus -> covers_inv sys.
Proof.
  intros Hr. revert sys Hr. refine (rtc_ind_r _ _ _ _); [intros _ th Hin; by apply elem_of_nil in Hin|].
  intros s s' Hr Hst IH Hsmall. pose proof (steps_grow _ _ Hst). eapply step_covers; [apply reachable_inv; [exact Hr|lia]|done|]. apply IH. lia.
Qed.

(** The thread runs a native close that covers session [s]: it closes [s]; or
    it closes the sessions of a slot, and [s] was among those in the index of the
    slot when it started and it has not found its fence closed. *)
Definition closing_natively (s : N) (th : FenceThread) : Prop :=
  match ft_pc th with
  | CloseHeld (CloseOne s') _ => s' = s
  | CloseHeld (CloseSlot _ known skipped) _ => s ∈ known /\ s ∉ skipped.*1
  | _ => False
  end.

Lemma closing_drained T H s th :
  thread_ok T H (ft_pc th) -> pc_complete (ft_pc th) -> closing_natively s th ->
  exists f, (s, f) ∈ pc_drained (ft_pc th).
Proof.
  unfold closing_natively, pc_complete. intros Hok. pose proof (to_shape _ _ _ Hok) as [_ Hsi].
  destruct (ft_pc th); try done. destruct t; cbn in Hsi |- *.
  - intros _ ->. destruct owned as [|[s' f] owned]; [done|]. injection Hsi as -> _. exists f. by left.
  - intros Hc [Hk Hn]. destruct (Hc s Hk) as [Hin|]; [|done]. apply list_elem_of_fmap in Hin as ([s' f] & -> & Hin). by exists f.
Qed.

(** C32: In no interleaving of operations, checked destroys, closes, close-alls
    and opens does a native operation on a session run while a native close
    that covers the session does (for fewer than 2^64 calls, the range of the
    reader count).  [C_CloseSession] covers its session.
    [C_CloseAllSessions] covers every session that the backend's index has for
    the slot when the call starts, save those whose fence it found closed; of
    each of these it is shown that another close of the session had succeeded
    and that no operation runs under that fence.  A session that is opened, or
    enters the index, after the call started is not covered, nor is one that
    takes over the handle of a skipped session; the source accepts this. *)
Theorem close_excludes_operations (sys : FenceSystem) (s : N) (th th' : FenceThread) :
  fence_reachable sys -> N.of_nat (length (fs_threads sys)) < u64_modulus ->
  th ∈ fs_threads sys -> th' ∈ fs_threads sys ->
  (operating s th -> ~ closing_natively s th') /\
  (forall slot known skipped owned f, ft_pc th' = CloseHeld (CloseSlot slot known skipped) owned -> (s, f) ∈ skipped ->
     (exists fe, fence_heap (fs_backend sys) !! f = Some fe /\ fence_session fe = s /\ dead fe) /\ pc_held (ft_pc th) <> Some f).
Proof.
  intros Hr Hsmall Hin Hin'. pose proof Hin as [i Hi]%list_elem_of_lookup. pose proof Hin' as [j Hj]%list_elem_of_lookup.
  pose proof (reachable_inv sys Hr Hsmall) as I. unfold system_inv in I. pose proof (reachable_covers sys Hr Hsmall) as C.
  pose proof (fi_threads _ _ _ _ I i _ Hi) as Hoki. pose proof (fi_threads _ _ _ _ I j _ Hj) as Hokj.
  destruct (C th' Hin') as [Hcomp Hskip]. split.
  - intros Hop Hcl. assert (i <> j) as Hne.
    { intros ->. rewrite Hi in Hj. injection Hj as <-. unfold operating, closing_natively in *. by destruct (ft_pc th). }
    destruct (closing_drained _ _ _ _ Hokj Hcomp Hcl) as [f' Hd].
    assert (exists f, pc_held (ft_pc th) = Some f /\ (s, f) ∈ pc_refs (ft_pc th)) as (f & Hh & Href).
    { unfold operating in Hop. destruct (ft_pc th); try done; subst; eexists; (split; [done|by left]). }
    destruct (to_refs _ _ _ Hoki s f Href) as (fe & Hf & _ & Ht).
    destruct (to_refs _ _ _ Hokj s f' (owns_refs _ _ (drained_owns _ _ Hd))) as (fe' & Hf' & _ & Ht').
    specialize (Ht (to_held _ _ _ Hoki f fe Hh Hf)).
    pose proof (to_owns _ _ _ Hokj s f' fe' (drained_owns _ _ Hd) Hf') as Hl.
    specialize (Ht' ltac:(intros []; done)). rewrite Ht in Ht'. injection Ht' as <-.
    exact (po_held _ _ (fi_pairs _ _ _ _ I i j _ _ Hne Hi Hj) s f Hh Hd).
  - intros slot known skipped owned f Hpc Hs. rewrite Hpc in Hskip.
    destruct (Hskip _ s f eq_refl Hs) as (fe & Hf & Hse & Hd). split; [by exists fe|]. intros Hh.
    by apply (to_held _ _ _ Hoki f fe Hh Hf).
Qed.

(** ** Progress *)

(** A thread waits when it spins: on a fence another close has marked, or on
    the readers of a fence it has marked. *)
Definition waits_at (b : FfiBackend) (pc : FencePc) : option (N * FenceRef) :=
  match pc with
  | CloseLoad _ s f _ _ =>
      fe ← fence_heap b !! f; if lifecycle fe =? FENCE_CLOSING then Some (s, f) else None
  | CloseDrain _ _ ((s, f) :: _) =>
      fe ← fence_heap b !! f; if readers fe =? 0 then None else Some (s, f)
  | _ => None
  end.

(** A thread that does not wait moves. *)
Lemma not_waiting_moves b ths i th :
  fence_inv (fences b) (fence_heap b) (NEXT_FENCE_INCARNATION b) ths -> ths !! i = Some th ->
  thread_done th = false -> waits_at b (ft_pc th) = None ->
  exists c b' pc', thread_step c (ft_epoch th) b (ft_pc th) = Some (b', pc') /\ pc' <> ft_pc th.
Proof.
  intros I Hi Hd Hw. pose proof (to_refs _ _ _ (fi_threads _ _ _ _ I i _ Hi)) as R.
  destruct th as [e pc]. cbn in *. destruct pc; try done; cbn in R.
  all: try (destruct (R s f) as (fe & Hf & _); [by left|]).
  all: try (exists Go; cbn; rewrite ?Hf; cbn; do 2 eexists; split; [reflexivity|]; done).
  - exists Go. cbn. destruct expected; [|destruct (fence_or_create s b)]; do 2 eexists; (split; [reflexivity|]); [|done].
    repeat case_match; done.
  - exists Go. cbn. rewrite Hf. cbn. do 2 eexists. split; [reflexivity|]. by case_match.
  - exists Go. cbn. rewrite Hf. cbn. do 2 eexists. split; [reflexivity|]. by case_match.
  - exists Leave. cbn. do 2 eexists. by split.
  - exists Go. cbn. destruct todo; [by do 2 eexists|]. destruct (fence_or_create n b). by do 2 eexists.
  - exists Go. cbn in Hw |- *. rewrite Hf in Hw |- *. cbn in *. do 2 eexists. split; [reflexivity|].
    case_match; [done|]. case_match; [done|]. by destruct t.
  - exists Go. cbn. rewrite Hf. cbn. case_match; by do 2 eexists.
  - exists Go. cbn in Hw |- *. destruct todo as [|[s f] todo]; [by do 2 eexists|].
    destruct (R s f) as (fe & Hf & _); [apply elem_of_app; right; by left|]. rewrite Hf in Hw |- *. cbn in *.
    do 2 eexists. split; [reflexivity|]. case_match; [|done]. intros [= Hbad _]. symmetry in Hbad.
    apply (f_equal length) in Hbad. rewrite length_app in Hbad. cbn in Hbad. lia.
  - exists (NativeErr Rv.GENERAL_ERROR). by do 2 eexists.
  - exists Go. cbn. destruct t, todo as [|[s' f'] todo]; by do 2 eexists.
  - exists Go. cbn. destruct todo as [|[s' f'] todo]; do 2 eexists; (split; [reflexivity|]); [done|].
    intros [= Hbad]. apply (f_equal length) in Hbad. cbn in Hbad. lia.
  - exists Go. cbn. do 2 eexists. split; [reflexivity|]. by destruct (elements _).
  - exists Go. cbn. destruct fams; do 2 eexists; (split; [reflexivity|]); [done|].
    intros [= Hbad]. apply (f_equal length) in Hbad. cbn in Hbad. lia.
  - exists Go. cbn. do 2 eexists. split; [reflexivity|]. by destruct t.
  - exists Go. cbn. do 2 eexists. split; [reflexivity|]. by destruct rest.
  - exists Go. cbn. do 2 eexists. split; [reflexivity|]. by case_match.
  - exists (NativeErr Rv.GENERAL_ERROR). by do 2 eexists.
Qed.

Definition waiting_session (b : FfiBackend) (th : FenceThread) : N :=
  match waits_at b (ft_pc th) with Some (s, _) => s | None => 0 end.

Lemma waiting_bound b ths th : th ∈ ths -> waiting_session b th <= foldr N.max 0 (waiting_session b <$> ths).
Proof. induction 1 as [|th' ths th Hin IH]; cbn; lia. Qed.

Lemma owner_unfinished th x : x ∈ pc_owns (ft_pc th) -> thread_done th = false.
Proof. unfold thread_done. destruct (ft_pc th); try done. cbn. by intros ?%not_elem_of_nil. Qed.

Section progress.
Context (b : FfiBackend) (ths : list FenceThread).
Context (I : fence_inv (fences b) (fence_heap b) (NEXT_FENCE_INCARNATION b) ths).

Definition some_thread_moves : Prop :=
  exists th c b' pc', th ∈ ths /\ thread_step c (ft_epoch th) b (ft_pc th) = Some (b', pc') /\ pc' <> ft_pc th.

Lemma moves th : th ∈ ths -> thread_done th = false -> waits_at b (ft_pc th) = None -> some_thread_moves.
Proof using I.
  intros Hin Hd Hw. pose proof Hin as [i Hi]%list_elem_of_lookup.
  destruct (not_waiting_moves b ths i th I Hi Hd Hw) as (c & b' & pc' & Hs). by exists th, c, b', pc'.
Qed.

(** A reader never waits, so a drain that waits is not the last to move. *)
Lemma reader_moves f fe : fence_heap b !! f = Some fe -> readers fe <> 0 -> some_thread_moves.
Proof using I.
  intros Hf Hr. rewrite (fi_readers _ _ _ _ I f fe Hf) in Hr.
  assert (0 < count_if (pc_counted f) ths) as Hpos.
  { apply N.neq_0_lt_0. intros Hz. by rewrite Hz in Hr. }
  apply count_if_pos_elem in Hpos as (th & Hin & Hc). apply (moves th Hin); unfold pc_counted, thread_done in *;
    by destruct (ft_pc th).
Qed.

Lemma waiting_moves n : forall th,
  th ∈ ths -> thread_done th = false ->
  (N.to_nat (foldr N.max 0%N (waiting_session b <$> ths) - waiting_session b th) < n)%nat -> some_thread_moves.
Proof using I.
  induction n as [|n IH]; intros th Hin Hd Hn; [lia|].
  destruct (waits_at b (ft_pc th)) as [[s f]|] eqn:Hw; [|by eapply moves].
  assert (waiting_session b th = s) as Hws by (unfold waiting_session; by rewrite Hw).
  unfold waits_at in Hw. destruct (ft_pc th) eqn:Hpc; try done.
  - destruct (fence_heap b !! f0) as [fe|] eqn:Hf; [|done]. cbn in Hw.
    destruct (N.eqb_spec (lifecycle fe) FENCE_CLOSING) as [Hl|]; [|done]. injection Hw as -> ->.
    pose proof Hin as [i Hi]%list_elem_of_lookup.
    destruct (to_refs _ _ _ (fi_threads _ _ _ _ I i _ Hi) s f) as (fe1 & Hf1 & Hse1 & _); [rewrite Hpc; by left|].
    destruct (fi_closing _ _ _ _ I f fe Hf Hl) as (th' & s' & Hin' & Ho).
    pose proof Hin' as [j Hj]%list_elem_of_lookup. pose proof (fi_threads _ _ _ _ I j _ Hj) as Hok.
    destruct (to_refs _ _ _ Hok s' f (owns_refs _ _ Ho)) as (fe2 & Hf2 & Hse2 & _).
    assert (s' = s) as -> by congruence.
    destruct (waits_at b (ft_pc th')) as [[s2 f2]|] eqn:Hw'; [|eapply (moves th'); [done|by eapply owner_unfinished|done]].
    destruct (ft_pc th') eqn:Hpc'; try done.
    + assert (s2 = s0 /\ waits_at b (ft_pc th') = Some (s2, f2)) as [-> Hw2].
      { rewrite Hpc'. split; [|done]. cbn in Hw'. destruct (fence_heap b !! f0); [|done]. cbn in Hw'.
        case_match; [|done]. by injection Hw' as <- _. }
      assert (waiting_session b th' = s0) as Hws' by (unfold waiting_session; by rewrite Hw2).
      assert (s < s0) as Hlt.
      { pose proof (to_shape _ _ _ Hok) as [Hst _]. cbn in Hst, Ho. apply (StronglySorted_app_1_elem_of N.lt _ _ s s0 Hst).
        - by apply (list_elem_of_fmap_2 fst _ _ Ho).
        - by left. }
      pose proof (waiting_bound b ths th' Hin'). apply (IH th' Hin'); [unfold thread_done; by rewrite Hpc'|]. lia.
    + destruct todo0 as [|[s3 f3] todo0]; [done|]. cbn in Hw'. destruct (fence_heap b !! f3) as [fe3|] eqn:Hf3; [|done].
      cbn in Hw'. destruct (N.eqb_spec (readers fe3) 0) as [|Hr]; [done|]. by eapply reader_moves.
  - destruct todo as [|[s3 f3] todo]; [done|]. destruct (fence_heap b !! f3) as [fe3|] eqn:Hf3; [|done].
    cbn in Hw. destruct (N.eqb_spec (readers fe3) 0) as [|Hr]; [done|]. by eapply reader_moves.
Qed.
End progress.

(** C34: However closes and close-alls overlap, they never wait on one another in a
    circle: as long as a call is unfinished, some call can move on.  And when
    every call has finished, no fence is stuck: each one in the table accepts
    entrants and counts no reader. *)
Theorem fences_live (sys : FenceSystem) :
  fence_reachable sys -> N.of_nat (length (fs_threads sys)) < u64_modulus ->
  (Exists (fun th => thread_done th = false) (fs_threads sys) -> some_thread_moves (fs_backend sys) (fs_threads sys)) /\
  (Forall (fun th => thread_done th = true) (fs_threads sys) ->
   forall s f, fences (fs_backend sys) !! s = Some f ->
     exists fe, fence_heap (fs_backend sys) !! f = Some fe /\ lifecycle fe = FENCE_OPEN /\ readers fe = 0).
Proof.
  intros Hr Hsmall. pose proof (reachable_inv sys Hr Hsmall) as I. unfold system_inv in I. split.
  - intros (th & Hin & Hd)%Exists_exists. eapply waiting_moves; [done|exact Hin|done|apply Nat.lt_succ_diag_r].
  - intros Hall s f Hs. destruct (fi_table _ _ _ _ I s f Hs) as (fe & Hf & _). exists fe. split; [done|].
    rewrite Forall_forall in Hall.
    assert (forall th, th ∈ fs_threads sys -> exists r, ft_pc th = FenceDone r) as Hdone.
    { intros th Hin. specialize (Hall th Hin). unfold thread_done in Hall. destruct (ft_pc th); try done. by eexists. }
    split.
    + destruct (decide (lifecycle fe = FENCE_OPEN)) as [|Ho]; [done|exfalso].
      destruct (decide (lifecycle fe = FENCE_CLOSING)) as [Hl|Hl].
      * destruct (fi_closing _ _ _ _ I f fe Hf Hl) as (th & s' & Hin & Hx). destruct (Hdone th Hin) as [r Hpc].
        rewrite Hpc in Hx. by apply not_elem_of_nil in Hx.
      * destruct (fi_terminal _ _ _ _ I s f fe Hs Hf) as (th & Hin & Hx); [by split|]. destruct (Hdone th Hin) as [r Hpc].
        by rewrite Hpc in Hx.
    + rewrite (fi_readers _ _ _ _ I f fe Hf), count_if_zero; [done|]. intros th Hin. destruct (Hdone th Hin) as [r Hpc].
      unfold pc_counted. by rewrite Hpc.
Qed.

(** ** Incarnations *)

Lemma create_grows s b : (length (fence_heap b) <= length (fence_heap (fence_or_create s b).2))%nat.
Proof. unfold fence_or_create. destruct (fences b !! s); [done|]. cbn. rewrite length_app. lia. Qed.

Lemma thread_heap_grows c e b pc b' pc' :
  thread_step c e b pc = Some (b', pc') -> (length (fence_heap b) <= length (fence_heap b'))%nat.
Proof.
  destruct pc, c; try done; cbn [thread_step enter_step op_step enter_write_step settle_step evict_step open_step];
    intros Hs; repeat (case_match; try done); simplify_option_eq; cbn; rewrite ?length_alter; try done.
  - pose proof (create_grows s b) as Hg. by rewrite H0 in Hg.
  - pose proof (create_grows n b) as Hg. by rewrite H0 in Hg.
  - case_match; injection Hs as <- <-; cbn; by rewrite ?length_alter.
Qed.

Lemma heap_grows sys sys' :
  rtc fence_step sys sys' -> (length (fence_heap (fs_backend sys)) <= length (fence_heap (fs_backend sys')))%nat.
Proof.
  induction 1 as [|s1 s2 s3 Hst _ IH]; [done|]. etrans; [|exact IH]. destruct Hst; cbn; try done.
  - unfold incarnation_or_create. pose proof (create_grows s b). by destruct (fence_or_create s b).
  - by eapply thread_heap_grows.
Qed.

(** A destroy bound to an incarnation captured earlier runs only under the
    very fence it was captured from, still the one in the table: no close of
    that session has committed since, so the numeric handle has not been
    recycled (for fewer than 2^64 fences ever created, the range of the
    identifiers). *)
Theorem checked_entry_same_fence (sys0 sys : FenceSystem) (s x : N) (f0 f : FenceRef) (i : nat) (e : N) (b' : FfiBackend) :
  fence_reachable sys0 -> rtc fence_step sys0 sys ->
  N.of_nat (length (fs_threads sys)) < u64_modulus ->
  N.of_nat (length (fence_heap (fs_backend sys))) < u64_modulus ->
  fences (fs_backend sys0) !! s = Some f0 -> session_incarnation s (fs_backend sys0) = Some x ->
  fs_threads sys !! i = Some (MkFenceThread e (OpRecheck s f (Some x))) ->
  thread_step Go e (fs_backend sys) (OpRecheck s f (Some x)) = Some (b', OpHeld s f) ->
  f = f0 /\ fences (fs_backend sys) !! s = Some f0.
Proof.
  intros Hr0 Hrun Hsmall Hheap Hs0 Hx Hi Hstep.
  assert (fence_reachable sys) as Hr by (exact (transitivity Hr0 Hrun)).
  pose proof (reachable_inv sys Hr Hsmall) as I. unfold system_inv in I.
  assert (length (fs_threads sys0) <= length (fs_threads sys))%nat as Hle.
  { clear -Hrun. induction Hrun as [|s1 s2 s3 Hst _ IH]; [done|]. etrans; [by eapply steps_grow|done]. }
  pose proof (reachable_inv sys0 Hr0 ltac:(lia)) as I0. unfold system_inv in I0.
  pose proof (heap_grows _ _ Hrun) as Hgrow.
  unfold session_incarnation in Hx. rewrite Hs0 in Hx. cbn in Hx.
  destruct (fence_heap (fs_backend sys0) !! f0) as [fe0|] eqn:Hf0; [|done]. injection Hx as Hx.
  rewrite (fi_incarnation _ _ _ _ I0 f0 fe0 Hf0) in Hx. cbn in Hstep.
  destruct (fence_heap (fs_backend sys) !! f) as [fe|] eqn:Hf; [|done]. cbn in Hstep.
  destruct (N.eqb_spec (lifecycle fe) FENCE_OPEN) as [Hl|]; [|done].
  destruct (N.eqb_spec (incarnation fe) x) as [Hic|]; [|done].
  rewrite (fi_incarnation _ _ _ _ I f fe Hf) in Hic.
  apply lookup_lt_Some in Hf0 as Hlt0. apply lookup_lt_Some in Hf as Hlt.
  rewrite N.mod_small in Hx, Hic by lia. assert (f = f0) as -> by lia. split; [done|].
  destruct (to_refs _ _ _ (fi_threads _ _ _ _ I i _ Hi) s f0) as (fe' & Hf' & _ & Ht); [by left|].
  apply Ht. rewrite Hf in Hf'. injection Hf' as <-. by intros [].
Qed.

(** ** Concrete runs *)

Inductive FenceMove := Spawn (epoch : N) (pc : FencePc) | Run (i : nat) (cs : list FenceChoice).

Definition starts (pc : FencePc) : bool :=
  match pc with
  | OpEnter _ _ | CloseKnown _ | OpenNative _ => true
  | CloseMark (CloseOne s) [s'] [] => s =? s'
  | _ => false
  end.

Definition run_thread (sys : FenceSystem) (i : nat) (c : FenceChoice) : option FenceSystem :=
  th ← fs_threads sys !! i;
  '(b, pc) ← thread_step c (ft_epoch th) (fs_backend sys) (ft_pc th);
  Some (MkFenceSystem b (<[i := MkFenceThread (ft_epoch th) pc]> (fs_threads sys))).

Fixpoint run_choices (sys : FenceSystem) (i : nat) (cs : list FenceChoice) : option FenceSystem :=
  match cs with [] => Some sys | c :: cs => sys ← run_thread sys i c; run_choices sys i cs end.

Fixpoint fence_exec (sys : FenceSystem) (ms : list FenceMove) : option FenceSystem :=
  match ms with
  | [] => Some sys
  | Spawn e pc :: ms =>
      if starts pc then fence_exec (MkFenceSystem (fs_backend sys) (fs_threads sys ++ [MkFenceThread e pc])) ms else None
  | Run i cs :: ms => sys ← run_choices sys i cs; fence_exec sys ms
  end.

Lemma run_choices_sound cs : forall sys i sys', run_choices sys i cs = Some sys' -> rtc fence_step sys sys'.
Proof.
  induction cs as [|c cs IH]; intros sys i sys'; cbn; [intros [= <-]; done|].
  unfold run_thread. destruct (fs_threads sys !! i) as [[e pc]|] eqn:Hi; [|done]. cbn.
  destruct (thread_step c e (fs_backend sys) pc) as [[b' pc']|] eqn:Hs; [|done]. cbn. intros Hr.
  eapply rtc_l; [|by eapply IH]. destruct sys. by eapply fence_run.
Qed.

Lemma fence_exec_sound ms : forall sys sys', fence_exec sys ms = Some sys' -> rtc fence_step sys sys'.
Proof.
  induction ms as [|[e pc|i cs] ms IH]; intros sys sys'; cbn; [intros [= <-]; done|..].
  - destruct (starts pc) eqn:Hst; [|done]. intros Hr. eapply rtc_l; [|by eapply IH]. destruct sys. apply fence_spawn.
    destruct pc as [| | | | | | | | [s|] [|s' [|]] [|]| | | | | | | | | | | | | | | | | |]; try done; try constructor.
    cbn in Hst. apply N.eqb_eq in Hst as <-. constructor.
  - destruct (run_choices sys i cs) as [sys1|] eqn:Hc; [|done]. cbn. intros Hr.
    etrans; [by eapply run_choices_sound|by eapply IH].
Qed.

Definition go (n : nat) : list FenceChoice := replicate n Go.

(** Thread 0 opens session 7 on slot 11 and thread 1 initializes a signature
    on it.  Thread 2 closes it and commits.  The provider recycles the handle:
    thread 3 opens 7 again, thread 4 initializes a signature on the new
    session.  Then thread 2 evicts. *)
Definition recycling_run : list FenceMove :=
  [Spawn 3 (OpenNative 11); Run 0 [NativeOk 7; Go; Go];
   Spawn 3 (OpEnter 7 None); Run 1 (go 4 ++ [Retain Sign 100; Go; Leave]);
   Spawn 3 (CloseMark (CloseOne 7) [7] []); Run 2 (go 6 ++ [NativeOk 0; Go; Go]);
   Spawn 3 (OpenNative 11); Run 3 [NativeOk 7; Go; Go];
   Spawn 3 (OpEnter 7 None); Run 4 (go 4 ++ [Retain Sign 200; Go; Leave]);
   Run 2 (go 13)].

(** The doc comment of [ffi_close_session] says its fence excludes operations
    on the session across the native close and the cache eviction.  The fence
    is committed, and its entry removed, before the eviction: when the provider
    recycles the handle in between, the eviction hits the new session.  Its
    retained mechanism graph, which the provider may still point into, is
    freed, and its slot binding is forgotten, so that a later close-all of the
    slot does not fence it: its native call runs while an operation on the
    session does. *)
Theorem late_eviction_hits_recycled_session :
  (exists sys, fence_exec fence_init recycling_run = Some sys /\
     ft_pc <$> fs_threads sys !! 4%nat = Some (FenceDone (Ok 0)) /\
     native (fs_backend sys) !! 7 = Some 11 /\
     mech_cache (fs_backend sys) !! (7, Sign) = None /\
     session_slot_map (fs_backend sys) !! 7 = None) /\
  (exists sys, fence_reachable sys /\ native (fs_backend sys) !! 7 = Some 11 /\
     ft_pc <$> fs_threads sys !! 5%nat = Some (OpHeld 7 1) /\
     ft_pc <$> fs_threads sys !! 6%nat = Some (CloseHeld (CloseSlot 11 [] []) [])).
Proof.
  split.
  - eexists. split; [vm_compute; reflexivity|]. by vm_compute.
  - destruct (fence_exec fence_init (recycling_run ++
      [Spawn 3 (OpEnter 7 None); Run 5 (go 4); Spawn 3 (CloseKnown 11); Run 6 (go 3)])) as [sys|] eqn:E;
      [|vm_compute in E; discriminate E].
    exists sys. split; [by eapply fence_exec_sound|]. vm_compute in E. injection E as <-. by vm_compute.
Qed.

(** Thread 0 operates on session 7, thread 1 has marked its fence and waits. *)
Definition waiting_run : list FenceMove :=
  [Spawn 3 (OpEnter 7 None); Run 0 (go 4); Spawn 3 (CloseMark (CloseOne 7) [7] []); Run 1 (go 6)].

Definition demo_fences : FenceSystem :=
  match fence_exec fence_init waiting_run with
  | Some sys => sys
  | None => fence_init
  end.

Lemma demo_fences_reachable : fence_reachable demo_fences.
Proof. apply (fence_exec_sound waiting_run). vm_compute. reflexivity. Qed.

(** Session 7 is open in slot 11; thread 1 operates on another session, 8, and
    thread 2 runs the native close-all of the slot. *)
Definition closing_all_run : list FenceMove :=
  [Spawn 3 (OpenNative 11); Run 0 [NativeOk 7; Go; Go]; Spawn 3 (OpEnter 8 None); Run 1 (go 4); Spawn 3 (CloseKnown 11); Run 2 (go 7)].

Definition demo_closing_all : FenceSystem :=
  match fence_exec fence_init closing_all_run with
  | Some sys => sys
  | None => fence_init
  end.

Lemma close_excludes_operations_witness :
  closing_natively 7 (MkFenceThread 3 (CloseHeld (CloseSlot 11 [7] []) [(7, 1%nat)])) /\
  MkFenceThread 3 (CloseHeld (CloseSlot 11 [7] []) [(7, 1%nat)]) ∈ fs_threads demo_closing_all /\
  operating 8 (MkFenceThread 3 (OpHeld 8 0)) /\
  ~ closing_natively 8 (MkFenceThread 3 (CloseHeld (CloseSlot 11 [7] []) [(7, 1%nat)])).
Proof.
  assert (MkFenceThread 3 (CloseHeld (CloseSlot 11 [7] []) [(7, 1%nat)]) ∈ fs_threads demo_closing_all) as Hin
    by (vm_compute; right; right; left).
  split; [split; [left|by apply not_elem_of_nil]|]. split; [exact Hin|]. split; [reflexivity|].
  refine (proj1 (close_excludes_operations demo_closing_all 8 (MkFenceThread 3 (OpHeld 8 0)) _ _ _ _ Hin) eq_refl).
  - apply (fence_exec_sound closing_all_run). vm_compute. reflexivity.
  - vm_compute. reflexivity.
  - vm_compute. right. left.
Defined.

Lemma fences_live_witness : some_thread_moves (fs_backend demo_fences) (fs_threads demo_fences).
Proof.
  apply (proj1 (fences_live demo_fences demo_fences_reachable ltac:(vm_compute; reflexivity))).
  vm_compute. left. reflexivity.
Defined.

(** A checked destroy of session 7, bound to the fence thread 0 created. *)
Definition demo_checked : FenceSystem :=
  match fence_exec fence_init
    [Spawn 3 (OpEnter 7 None); Run 0 (go 4 ++ [Leave]); Spawn 3 (OpEnter 7 (Some 1)); Run 1 (go 3)] with
  | Some sys => sys
  | None => fence_init
  end.

Definition demo_captured : FenceSystem :=
  match fence_exec fence_init [Spawn 3 (OpEnter 7 None); Run 0 (go 4 ++ [Leave])] with
  | Some sys => sys
  | None => fence_init
  end.

Lemma checked_entry_same_fence_witness : fences (fs_backend demo_checked) !! 7 = Some 0%nat.
Proof.
  refine (proj2 (checked_entry_same_fence demo_captured demo_checked 7 1 0%nat 0%nat 1%nat 3
    (fs_backend demo_checked) _ _ _ _ _ _ _ _)).
  - apply (fence_exec_sound [Spawn 3 (OpEnter 7 None); Run 0 (go 4 ++ [Leave])]). vm_compute. reflexivity.
  - apply (fence_exec_sound [Spawn 3 (OpEnter 7 (Some 1)); Run 1 (go 3)]). vm_compute. reflexivity.
  - vm_compute. reflexivity.
  - vm_compute. reflexivity.
  - vm_compute. reflexivity.
  - vm_compute. reflexivity.
  - vm_compute. reflexivity.
  - vm_compute. reflexivity.
Defined.
