(* ===== verification/NativeDomain.v ===== *)
(** * The life cycle of the native module

    Models [crates/backend/src/ffi/native_domain.rs]: the process-wide
    construction registry, the module's life-cycle domain with its epochs and
    tickets, the life-cycle tracker, and [initialize], [finalize] and ordinary
    admission of [crates/backend/src/ffi.rs] on top of them.

    Calls interleave.  A write section of the domain's [RwLock] is taken when
    no other call holds the lock; the tracker's flags are atomics that other
    calls read without the lock, so each access to them is one step.  The purge
    of the session caches is [SessionFence.fence_purge].  [finalizes] and
    [inits_at] are ghost state: how many native finalizes have succeeded, and
    how many had at the latest native initialize. *)

From S2P Require Import Prelude Ck.
Open Scope N_scope.

(** ** The construction registry *)

Inductive RegistryState :=
| Vacant (next_epoch : N)
| Reserved (epoch next_epoch : N)
| Active (epoch next_epoch : N)
| Retiring (epoch next_epoch : N)
| RegPoisoned (epoch : N).
#[export] Instance RegistryState_eq_dec : EqDecision RegistryState.
Proof. solve_decision. Defined.

Inductive DomainError := AlreadyReserved (epoch : N) | DomainPoisoned | MutexPoisoned | EpochExhausted | NotReserved (epoch : N).

Definition RegistryState_epoch (s : RegistryState) : N :=
  match s with
  | Vacant next => next
  | Reserved e _ | Active e _ | Retiring e _ | RegPoisoned e => e
  end.

Definition registry_reserve (s : RegistryState) : Result N DomainError * RegistryState :=
  match s with
  | Vacant next => if next =? u64_MAX then (Err EpochExhausted, s) else (Ok next, Reserved next (next + 1))
  | Reserved e _ | Active e _ | Retiring e _ => (Err (AlreadyReserved e), s)
  | RegPoisoned _ => (Err DomainPoisoned, s)
  end.

Definition registry_activate (epoch : N) (s : RegistryState) : Result unit DomainError * RegistryState :=
  match s with
  | Reserved live next => if live =? epoch then (Ok tt, Active epoch next) else (Err (NotReserved epoch), s)
  | _ => (Err (NotReserved epoch), s)
  end.

Definition registry_rollback (epoch : N) (s : RegistryState) : RegistryState :=
  match s with
  | Reserved live next => if live =? epoch then Vacant next else s
  | _ => s
  end.

Definition registry_poison (epoch : N) (s : RegistryState) : RegistryState :=
  match s with
  | Reserved live _ | Active live _ | Retiring live _ => if live =? epoch then RegPoisoned epoch else s
  | _ => s
  end.

Definition registry_begin_retirement (epoch : N) (s : RegistryState) : bool * RegistryState :=
  match s with
  | Active live next => if live =? epoch then (true, Retiring epoch next) else (false, s)
  | _ => (false, s)
  end.

Definition registry_release_if_owner (epoch : N) (s : RegistryState) : bool * RegistryState :=
  match s with
  | Active _ next | Retiring _ next => if RegistryState_epoch s =? epoch then (true, Vacant next) else (false, s)
  | _ => (false, s)
  end.

(** [with_registry] finding the mutex poisoned. *)
Definition registry_mutex_poisoned (s : RegistryState) : DomainError * RegistryState :=
  (MutexPoisoned, RegPoisoned (RegistryState_epoch s)).

(** ** The tracker *)

Record LifecycleTracker := MkTracker {
  init_attempted : bool;
  init_attempted_since_finalize : bool;
  initialized : bool;
  finalized_ok : bool;
  open_sessions : N;
  generation : N;
  init_completions : N;
  finalize_failed : bool;
}.
#[export] Instance LifecycleTracker_eta : Eta LifecycleTracker := fun t =>
  MkTracker (init_attempted t) (init_attempted_since_finalize t) (initialized t) (finalized_ok t) (open_sessions t)
    (generation t) (init_completions t) (finalize_failed t).

Definition LifecycleTracker_default : LifecycleTracker := MkTracker false false false false 0 0 0 false.

Inductive RetirementDecision := Release | Poison.
#[export] Instance RetirementDecision_eq_dec : EqDecision RetirementDecision.
Proof. solve_decision. Defined.

Definition retirement_decision (t : LifecycleTracker) : RetirementDecision :=
  let never_exposed := negb (init_attempted t) && negb (initialized t) in
  let fresh_finalize := finalized_ok t && negb (init_attempted_since_finalize t) in
  if (never_exposed || fresh_finalize) && (open_sessions t =? 0) then Release else Poison.

(** ** The life-cycle domain *)

Inductive ModuleState := LoadedUninitialized | Initializing | ModOpen | Draining | Finalizing | Finalized | Uncertain.
#[export] Instance ModuleState_eq_dec : EqDecision ModuleState.
Proof. solve_decision. Defined.

Record Native := MkNative {
  dm_state : ModuleState;
  dm_epoch : N;
  trk : LifecycleTracker;
  finalizes : N;
  inits_at : option N;
}.
#[export] Instance Native_eta : Eta Native := fun d =>
  MkNative (dm_state d) (dm_epoch d) (trk d) (finalizes d) (inits_at d).

Definition LifecycleDomain_new : Native := MkNative LoadedUninitialized 0 LifecycleTracker_default 0 None.

Definition admit_ordinary (d : Native) : CkResult N :=
  match dm_state d with
  | ModOpen => Ok (dm_epoch d)
  | Uncertain => Err Rv.GENERAL_ERROR
  | _ => Err Rv.CRYPTOKI_NOT_INITIALIZED
  end.

(** The ticket: the prior state and the epoch. *)
Definition begin_initialize (d : Native) : CkResult (ModuleState * N) * Native :=
  match dm_state d with
  | Draining | Finalizing => (Err Rv.CRYPTOKI_NOT_INITIALIZED, d)
  | prior =>
      match checked_add64 (dm_epoch d) 1 with
      | None => (Err Rv.GENERAL_ERROR, d)
      | Some e => (Ok (prior, e), d <| dm_epoch := e |> <| dm_state := Initializing |>)
      end
  end.

Definition begin_finalize (d : Native) : CkResult N * Native :=
  match dm_state d with
  | ModOpen =>
      match checked_add64 (dm_epoch d) 1 with
      | None => (Err Rv.GENERAL_ERROR, d)
      | Some e => (Ok e, d <| dm_epoch := e |> <| dm_state := Draining |>)
      end
  | Uncertain => (Err Rv.GENERAL_ERROR, d)
  | _ => (Err Rv.CRYPTOKI_NOT_INITIALIZED, d)
  end.

Definition enter_finalizing (e : N) (d : Native) : CkResult unit * Native :=
  if (dm_epoch d =? e) && bool_decide (dm_state d = Draining)
  then (Ok tt, d <| dm_state := Finalizing |>) else (Err Rv.GENERAL_ERROR, d).

(** [settle_publish] of a ticket: [from] to [to]. *)
Definition settle_publish (from to : ModuleState) (e : N) (d : Native) : CkResult unit * Native :=
  if (dm_epoch d =? e) && bool_decide (dm_state d = from) then
    match checked_add64 (dm_epoch d) 1 with
    | Some n => (Ok tt, d <| dm_epoch := n |> <| dm_state := to |>)
    | None => (Err Rv.GENERAL_ERROR, d <| dm_state := Uncertain |>)
    end
  else (Err Rv.GENERAL_ERROR, d).

(** [abandon_raw_with_record]: whether the ticket was current. *)
Definition abandon (prior : ModuleState) (e : N) (d : Native) : bool * Native :=
  if dm_epoch d =? e then
    (true, d <| dm_epoch ::= fun n => default n (checked_add64 n 1) |>
             <| dm_state := match prior with
                            | Initializing | Draining | Finalizing => Uncertain
                            | stable => stable
                            end |>)
  else (false, d).

(** ** Calls *)

Inductive CtlPc :=
(* [check_reinitialize], [begin_initialize], [note_init_attempted], the native call *)
| InitCheckFailed
| InitCheckInit
| InitCheckFinal
| InitCheckGen
| InitBegin
| InitAttempt1 (p : ModuleState) (e : N)
| InitAttempt2 (p : ModuleState) (e : N)
| InitNative (p : ModuleState) (e : N)
(* native failure: abandon, [note_init_native_failed] in the write section *)
| InitFailed (p : ModuleState) (e : N) (rv : CkRv)
| InitFail1 (rv : CkRv)
| InitFail2 (rv : CkRv)
| InitFail3 (rv : CkRv)
(* native success: [note_initialized], then publish or, refused, abandon *)
| InitCount (p : ModuleState) (e : N)
| InitLoadFailed (p : ModuleState) (e : N)
| InitLoadInit (p : ModuleState) (e : N)
| InitLoadFinal (p : ModuleState) (e : N)
| InitGeneration (p : ModuleState) (e : N)
| InitStore1 (p : ModuleState) (e : N)
| InitStore2 (p : ModuleState) (e : N)
| InitStore3 (p : ModuleState) (e : N)
| InitRefused (p : ModuleState) (e : N) (rv : CkRv)
| InitRef1 (rv : CkRv)
| InitRef2 (rv : CkRv)
| InitPublish (p : ModuleState) (e : N)
(* [begin_finalize], [finish_finalize], [note_finalized_bounded] *)
| FinBegin
| FinEnter (e : N)
| FinSnapshot (e : N)
| FinNative (e c : N)
| FinFailed (e : N) (rv : CkRv)
| FinFail1 (rv : CkRv)
| FinPublish (e c : N)
| FinRec1 (c : N)
| FinRec2 (c : N)
| FinRec3 (c : N)
| FinRec4
| FinRec5
(* an ordinary call under its guard *)
| OrdAdmit
| OrdHeld (e : N)
| CtlDone (r : CkResult unit).

(** [ct_seen] (the value of [finalizes] at the call's native initialize) and
    [ct_counted] (it has been counted as a completion) are ghost state. *)
Record CtlCall := MkCtlCall { ct_pc : CtlPc; ct_seen : option N; ct_counted : bool }.
#[export] Instance CtlCall_eta : Eta CtlCall := fun c => MkCtlCall (ct_pc c) (ct_seen c) (ct_counted c).

Inductive CtlChoice := CtlGo | CtlOk | CtlErr (rv : CkRv).

Definition pc_writes (pc : CtlPc) : bool :=
  match pc with
  | InitFail1 _ | InitFail2 _ | InitFail3 _ | InitRef1 _ | InitRef2 _ | FinFail1 _
  | FinRec1 _ | FinRec2 _ | FinRec3 _ | FinRec4 | FinRec5 => true
  | _ => false
  end.
Definition pc_reads (pc : CtlPc) : bool := match pc with OrdHeld _ => true | _ => false end.

(** Updating the tracker. *)
Definition upd (f : LifecycleTracker -> LifecycleTracker) (d : Native) : Native := d <| trk ::= f |>.

(** Steps on the tracker, without the lock or inside a write section. *)
Definition tracker_step (d : Native) (c : CtlCall) : option (Native * CtlCall) :=
  let t := trk d in
  let to pc := c <| ct_pc := pc |> in
  match ct_pc c with
  | InitCheckFailed =>
      Some (d, to (if finalize_failed t then CtlDone (Err Rv.CRYPTOKI_ALREADY_INITIALIZED) else InitCheckInit))
  | InitCheckInit => Some (d, to (if initialized t then InitCheckFinal else InitCheckGen))
  | InitCheckFinal => Some (d, to (if finalized_ok t then InitCheckGen else InitBegin))
  | InitCheckGen => Some (d, to (if generation t =? u64_MAX then CtlDone (Err Rv.GENERAL_ERROR) else InitBegin))
  | InitAttempt1 p e => Some (upd (fun t => t <| init_attempted := true |>) d, to (InitAttempt2 p e))
  | InitAttempt2 p e => Some (upd (fun t => t <| init_attempted_since_finalize := true |>) d, to (InitNative p e))
  | InitFail1 rv =>
      Some (upd (fun t => t <| init_completions ::= fun n => wrapping_add64 n 1 |>) d,
            to (InitFail2 rv) <| ct_counted := true |>)
  | InitFail2 rv => Some (upd (fun t => t <| init_attempted := true |>) d, to (InitFail3 rv))
  | InitFail3 rv => Some (upd (fun t => t <| init_attempted_since_finalize := true |>) d, to (CtlDone (Err rv)))
  | InitCount p e =>
      Some (upd (fun t => t <| init_completions ::= fun n => wrapping_add64 n 1 |>) d,
            to (InitLoadFailed p e) <| ct_counted := true |>)
  | InitLoadFailed p e =>
      Some (d, to (if finalize_failed t then InitRefused p e Rv.CRYPTOKI_ALREADY_INITIALIZED else InitLoadInit p e))
  | InitLoadInit p e => Some (d, to (if initialized t then InitLoadFinal p e else InitGeneration p e))
  | InitLoadFinal p e => Some (d, to (if finalized_ok t then InitGeneration p e else InitPublish p e))
  | InitGeneration p e =>
      Some (match checked_add64 (generation t) 1 with
            | Some g => (upd (fun t => t <| generation := g |>) d, to (InitStore1 p e))
            | None => (d, to (InitRefused p e Rv.GENERAL_ERROR))
            end)
  | InitStore1 p e => Some (upd (fun t => t <| initialized := true |>) d, to (InitStore2 p e))
  | InitStore2 p e => Some (upd (fun t => t <| finalized_ok := false |>) d, to (InitStore3 p e))
  | InitStore3 p e => Some (upd (fun t => t <| open_sessions := 0 |>) d, to (InitPublish p e))
  | InitRef1 rv => Some (upd (fun t => t <| init_attempted := true |>) d, to (InitRef2 rv))
  | InitRef2 rv => Some (upd (fun t => t <| init_attempted_since_finalize := true |>) d, to (CtlDone (Err rv)))
  | FinSnapshot e => Some (d, to (FinNative e (init_completions t)))
  | FinFail1 rv => Some (upd (fun t => t <| finalize_failed := true |>) d, to (CtlDone (Err rv)))
  | FinRec1 n => Some (upd (fun t => t <| finalized_ok := true |>) d, to (FinRec2 n))
  | FinRec2 n => Some (upd (fun t => t <| finalize_failed := false |>) d, to (FinRec3 n))
  | FinRec3 n => Some (d, to (if init_completions t =? n then FinRec4 else FinRec5))
  | FinRec4 => Some (upd (fun t => t <| init_attempted_since_finalize := false |>) d, to FinRec5)
  | FinRec5 => Some (upd (fun t => t <| open_sessions := 0 |>) d, to (CtlDone (Ok tt)))
  | _ => None
  end.

(** Steps that take the domain's lock for writing. *)
Definition domain_step (d : Native) (c : CtlCall) : option (Native * CtlCall) :=
  let to pc := c <| ct_pc := pc |> in
  match ct_pc c with
  | InitBegin =>
      Some (match begin_initialize d with
            | (Ok (p, e), d) => (d, to (InitAttempt1 p e))
            | (Err rv, d) => (d, to (CtlDone (Err rv)))
            end)
  | InitFailed p e rv => Some ((abandon p e d).2, to (InitFail1 rv))
  | InitRefused p e rv => Some ((abandon p e d).2, to (InitRef1 rv))
  | InitPublish p e => let '(r, d) := settle_publish Initializing ModOpen e d in Some (d, to (CtlDone r))
  | FinBegin =>
      Some (match begin_finalize d with
            | (Ok e, d) => (d, to (FinEnter e))
            | (Err rv, d) => (d, to (CtlDone (Err rv)))
            end)
  | FinEnter e =>
      Some (match enter_finalizing e d with
            | (Ok _, d) => (d, to (FinSnapshot e))
            | (Err rv, d) => ((abandon ModOpen e d).2, to (CtlDone (Err rv)))
            end)
  | FinFailed e rv =>
      Some (match abandon ModOpen e d with
            | (true, d) => (d, to (FinFail1 rv))
            | (false, d) => (d, to (CtlDone (Err rv)))
            end)
  | FinPublish e n =>
      Some (match settle_publish Finalizing Finalized e d with
            | (Ok _, d) => (d, to (FinRec1 n))
            | (Err rv, d) => (d, to (CtlDone (Err rv)))
            end)
  | _ => None
  end.

(** The native calls. *)
Definition native_step (ch : CtlChoice) (d : Native) (c : CtlCall) : option (Native * CtlCall) :=
  let to pc := c <| ct_pc := pc |> in
  let attempted := d <| inits_at := Some (finalizes d) |> in
  match ct_pc c, ch with
  | InitNative p e, CtlErr rv => Some (attempted, to (InitFailed p e rv) <| ct_seen := Some (finalizes d) |>)
  | InitNative p e, CtlOk => Some (attempted, to (InitCount p e) <| ct_seen := Some (finalizes d) |>)
  | FinNative e n, CtlErr rv => Some (d, to (FinFailed e rv))
  | FinNative e n, CtlOk => Some (d <| finalizes ::= N.succ |>, to (FinPublish e n))
  | _, _ => None
  end.

(** Ordinary calls: admission reads the domain under the read lock and keeps
    it; a call may open and close sessions. *)
Definition admit_step (d : Native) (c : CtlCall) : option (Native * CtlCall) :=
  let to pc := c <| ct_pc := pc |> in
  match ct_pc c with
  | OrdAdmit => Some (d, to (match admit_ordinary d with Ok e => OrdHeld e | Err rv => CtlDone (Err rv) end))
  | _ => None
  end.

Definition ordinary_step (d : Native) (c : CtlCall) : option (Native * CtlCall) :=
  match ct_pc c with
  | OrdHeld _ => Some (d, c <| ct_pc := CtlDone (Ok tt) |>)
  | _ => None
  end.

Record CtlSystem := MkCtlSystem { cs_native : Native; cs_calls : list CtlCall }.

(** No other call holds the lock. *)
Definition write_free (i : nat) (cs : list CtlCall) : Prop :=
  forall j c, j <> i -> cs !! j = Some c -> pc_writes (ct_pc c) = false /\ pc_reads (ct_pc c) = false.
Definition read_free (cs : list CtlCall) : Prop := forall j c, cs !! j = Some c -> pc_writes (ct_pc c) = false.

Inductive ctl_step : CtlSystem -> CtlSystem -> Prop :=
| ctl_spawn d cs pc :
    pc = InitCheckFailed \/ pc = FinBegin \/ pc = OrdAdmit ->
    ctl_step (MkCtlSystem d cs) (MkCtlSystem d (cs ++ [MkCtlCall pc None false]))
| ctl_tracker d cs i c d' c' :
    cs !! i = Some c -> tracker_step d c = Some (d', c') ->
    ctl_step (MkCtlSystem d cs) (MkCtlSystem d' (<[i := c']> cs))
| ctl_domain d cs i c d' c' :
    cs !! i = Some c -> write_free i cs -> domain_step d c = Some (d', c') ->
    ctl_step (MkCtlSystem d cs) (MkCtlSystem d' (<[i := c']> cs))
| ctl_native d cs i c ch d' c' :
    cs !! i = Some c -> native_step ch d c = Some (d', c') ->
    ctl_step (MkCtlSystem d cs) (MkCtlSystem d' (<[i := c']> cs))
| ctl_admit d cs i c d' c' :
    cs !! i = Some c -> read_free cs -> admit_step d c = Some (d', c') ->
    ctl_step (MkCtlSystem d cs) (MkCtlSystem d' (<[i := c']> cs))
| ctl_ordinary d cs i c d' c' :
    cs !! i = Some c -> ordinary_step d c = Some (d', c') ->
    ctl_step (MkCtlSystem d cs) (MkCtlSystem d' (<[i := c']> cs))
| ctl_sessions d cs i e n :
    ct_pc <$> cs !! i = Some (OrdHeld e) ->
    ctl_step (MkCtlSystem d cs) (MkCtlSystem (upd (fun t => t <| open_sessions := n |>) d) cs).

Definition ctl_reachable : CtlSystem -> Prop := rtc ctl_step (MkCtlSystem LifecycleDomain_new []).
