(* ===== verification/NativeProps.v ===== *)
(** * The life cycle of the native module: properties

    The construction registry never hands out an epoch twice and ignores stale
    holders.  In every interleaving of initialize, finalize and ordinary
    calls, an ordinary call never overlaps the native finalize, and the
    tracker releases the slot only when no native initialize has run since
    the last successful native finalize. *)

From stdpp Require Import sorting.
From S2P Require Import Prelude Ck NativeDomain.
Open Scope N_scope.

(** ** The registry *)

Inductive RegistryOp := RegReserve | RegActivate (e : N) | RegRollback (e : N) | RegPoison (e : N)
| RegRetire (e : N) | RegRelease (e : N) | RegPanic.

Definition registry_op (op : RegistryOp) (s : RegistryState) : RegistryState :=
  match op with
  | RegReserve => (registry_reserve s).2
  | RegActivate e => (registry_activate e s).2
  | RegRollback e => registry_rollback e s
  | RegPoison e => registry_poison e s
  | RegRetire e => (registry_begin_retirement e s).2
  | RegRelease e => (registry_release_if_owner e s).2
  | RegPanic => (registry_mutex_poisoned s).2
  end.

(** The epochs granted along a run. *)
Fixpoint registry_run (ops : list RegistryOp) (s : RegistryState) : list N * RegistryState :=
  match ops with
  | [] => ([], s)
  | op :: ops =>
      let '(granted, s') := registry_run ops (registry_op op s) in
      (match op, registry_reserve s with RegReserve, (Ok e, _) => e :: granted | _, _ => granted end, s')
  end.

Definition op_epoch (op : RegistryOp) : option N :=
  match op with
  | RegActivate e | RegRollback e | RegPoison e | RegRetire e | RegRelease e => Some e
  | RegReserve | RegPanic => None
  end.

(** The least epoch that can still be granted; [None] when none can. *)
Definition next_grant (s : RegistryState) : option N :=
  match s with
  | Vacant n | Reserved _ n | Active _ n | Retiring _ n => Some n
  | RegPoisoned _ => None
  end.

Definition registry_held (s : RegistryState) : bool :=
  match s with Vacant _ | RegPoisoned _ => false | _ => true end.

Lemma registry_op_grant op s n' :
  next_grant (registry_op op s) = Some n' ->
  exists n, next_grant s = Some n /\ n <= n' /\ (forall e s', op = RegReserve -> registry_reserve s = (Ok e, s') -> e = n /\ n < n').
Proof.
  destruct op, s; cbn; repeat (case_match; cbn); intros [= <-]; eexists; (split; [reflexivity|]); split; try lia; intros; simplify_eq; lia.
Qed.

Lemma granted_from ops : forall s granted s',
  registry_run ops s = (granted, s') ->
  StronglySorted N.lt granted /\ Forall (fun e => exists n, next_grant s = Some n /\ n <= e) granted.
Proof.
  induction ops as [|op ops IH]; intros s granted s'; cbn; [intros [= <- <-]; split; constructor|].
  destruct (registry_run ops (registry_op op s)) as [g s1] eqn:Er. destruct (IH _ _ _ Er) as [Hs Hf]. clear IH.
  assert (Forall (fun e => exists n, next_grant s = Some n /\ n <= e) g) as Hf'.
  { eapply Forall_impl; [exact Hf|]. cbn. intros e (n' & Hn' & Hle).
    destruct (registry_op_grant op s n' Hn') as (n & Hn & Hle' & _). exists n. split; [done|lia]. }
  destruct op; try (intros [= <- <-]; by split).
  destruct (registry_reserve s) as [[e|] s2] eqn:Eq; intros [= <- <-]; [|by split].
  assert (next_grant s = Some e /\ next_grant (registry_op RegReserve s) = Some (e + 1)) as [Hn Hn2].
  { cbn. rewrite Eq. cbn. unfold registry_reserve in Eq. repeat case_match; simplify_eq. done. }
  split; constructor; [done| | |done].
  - eapply Forall_impl; [exact Hf|]. intros x (n & Hx & Hle). rewrite Hn2 in Hx. injection Hx as <-. lia.
  - exists e. split; [done|lia].
Qed.

(** However reservations, activations, roll-backs, poisonings, retirements and
    releases follow one another, the epochs handed out strictly increase, no
    reservation succeeds while another holds the slot or after a poisoning,
    and whoever names an epoch other than the current holder's changes
    nothing: a stale handle can never free or retire a later chain's slot. *)
Theorem registry_epochs_unique (ops : list RegistryOp) (s s' : RegistryState) (granted : list N) (op : RegistryOp) (e : N) :
  registry_run ops s = (granted, s') ->
  StronglySorted N.lt granted /\
  (registry_held s' = true \/ next_grant s' = None -> Result_is_ok (registry_reserve s').1 = false) /\
  (op_epoch op = Some e -> registry_held s' = true -> e <> RegistryState_epoch s' -> registry_op op s' = s').
Proof.
  intros Hrun. split_and!; [by eapply granted_from|..].
  - destruct s'; cbn; (by intros [?|?]) || done.
  - intros Hop Hh Hne. destruct op, s'; cbn in *; simplify_eq; try done;
      destruct (N.eqb_spec epoch e); (congruence || done).
Qed.

Lemma registry_epochs_unique_witness :
  registry_op (RegRelease 0) (Active 1 2) = Active 1 2.
Proof.
  refine (proj2 (proj2 (registry_epochs_unique [RegReserve; RegActivate 0; RegRelease 0; RegReserve; RegActivate 1]
    (Vacant 0) (Active 1 2) [0; 1] (RegRelease 0) 0 eq_refl)) eq_refl eq_refl _).
  discriminate.
Defined.

(** ** The invariant of the module's life cycle *)

Definition live_state (s : ModuleState) : bool :=
  match s with ModOpen | Draining | Finalizing => true | _ => false end.

(** The epoch of an unsettled ticket. *)
Definition ticket (pc : CtlPc) : option N :=
  match pc with
  | InitAttempt1 _ e | InitAttempt2 _ e | InitNative _ e | InitFailed _ e _ | InitCount _ e | InitLoadFailed _ e
  | InitLoadInit _ e | InitLoadFinal _ e | InitGeneration _ e | InitStore1 _ e | InitStore2 _ e | InitStore3 _ e
  | InitRefused _ e _ | InitPublish _ e
  | FinEnter e | FinSnapshot e | FinNative e _ | FinFailed e _ | FinPublish e _ => Some e
  | _ => None
  end.

(** An initialize ticket: its prior state, its epoch, and whether the attempt
    has been recorded. *)
Definition init_ticket (pc : CtlPc) : option (ModuleState * N * bool) :=
  match pc with
  | InitAttempt1 p e | InitAttempt2 p e => Some (p, e, false)
  | InitNative p e | InitFailed p e _ | InitCount p e | InitLoadFailed p e | InitLoadInit p e | InitLoadFinal p e
  | InitGeneration p e | InitStore1 p e | InitStore2 p e | InitStore3 p e | InitRefused p e _ | InitPublish p e =>
      Some (p, e, true)
  | _ => None
  end.

(** A finalize that has sealed the domain. *)
Definition sealed (pc : CtlPc) : option (N * ModuleState) :=
  match pc with
  | FinEnter e => Some (e, Draining)
  | FinSnapshot e | FinNative e _ | FinFailed e _ | FinPublish e _ => Some (e, Finalizing)
  | _ => None
  end.

(** A finalize that is recording its success, the attempt marker not yet cleared. *)
Definition recording (pc : CtlPc) : bool :=
  match pc with FinRec1 _ | FinRec2 _ | FinRec3 _ | FinRec4 => true | _ => false end.

(** The completions a finalize counted before its native call. *)
Definition snapshot (pc : CtlPc) : option N :=
  match pc with
  | FinNative _ n | FinPublish _ n | FinRec1 n | FinRec2 n | FinRec3 n => Some n
  | _ => None
  end.

(** The same, once the native finalize has succeeded. *)
Definition finalized_after (pc : CtlPc) : option N :=
  match pc with
  | FinPublish _ n | FinRec1 n | FinRec2 n | FinRec3 n => Some n
  | _ => None
  end.

Definition attempting (pc : CtlPc) : bool :=
  match pc with InitAttempt2 _ _ | InitNative _ _ => true | _ => false end.

(** A completed native initialize that still has to be recorded. *)
Definition pending (pc : CtlPc) : bool :=
  match pc with
  | InitFailed _ _ _ | InitFail1 _ | InitFail2 _ | InitFail3 _ | InitCount _ _ | InitLoadFailed _ _ | InitLoadInit _ _
  | InitLoadFinal _ _ | InitGeneration _ _ | InitStore1 _ _ | InitStore2 _ _ | InitRefused _ _ _ | InitRef1 _
  | InitRef2 _ => true
  | _ => false
  end.

(** Those of them that have been counted. *)
Definition counted_pc (pc : CtlPc) : bool :=
  match pc with
  | InitFail2 _ | InitFail3 _ | InitLoadFailed _ _ | InitLoadInit _ _ | InitLoadFinal _ _ | InitGeneration _ _
  | InitStore1 _ _ | InitStore2 _ _ | InitRefused _ _ _ | InitRef1 _ | InitRef2 _ => true
  | _ => false
  end.

(** An initialize that has not been counted yet. *)
Definition uncounted_pc (pc : CtlPc) : bool :=
  match pc with
  | InitCheckFailed | InitCheckInit | InitCheckFinal | InitCheckGen | InitBegin | InitAttempt1 _ _ | InitAttempt2 _ _
  | InitNative _ _ | InitFailed _ _ _ | InitFail1 _ | InitCount _ _ => true
  | _ => false
  end.

(** Its native initialize ran after the last successful native finalize. *)
Definition fresh_init (d : Native) (c : CtlCall) : Prop := ct_seen c = Some (finalizes d).

(** The module has run a native initialize since the last successful finalize. *)
Definition exposed (d : Native) : Prop := inits_at d = Some (finalizes d).

Notation since d := (init_attempted_since_finalize (trk d)).

Record call_ok (d : Native) (c : CtlCall) : Prop := {
  ok_ticket e : ticket (ct_pc c) = Some e -> e <= dm_epoch d;
  ok_sealed e s : sealed (ct_pc c) = Some (e, s) -> dm_epoch d = e /\ dm_state d = s;
  ok_init p e a : init_ticket (ct_pc c) = Some (p, e, a) ->
    p <> Draining /\ p <> Finalizing /\ (dm_epoch d = e -> p = ModOpen \/ a = true -> since d = true);
  ok_attempt : attempting (ct_pc c) = true -> init_attempted (trk d) = true;
  ok_recording : recording (ct_pc c) = true -> since d = true /\ dm_state d = Finalized;
  ok_snapshot n : snapshot (ct_pc c) = Some n -> n <= init_completions (trk d);
  ok_ordinary e : ct_pc c = OrdHeld e -> dm_state d = ModOpen /\ dm_epoch d = e;
  ok_seen n : ct_seen c = Some n -> n <= finalizes d;
  ok_counted : counted_pc (ct_pc c) = true -> ct_counted c = true;
  ok_uncounted : uncounted_pc (ct_pc c) = true -> ct_counted c = false;
}.

Record calls_ok (d : Native) (c c' : CtlCall) : Prop := {
  two_lock : pc_writes (ct_pc c) = true -> pc_writes (ct_pc c') = false /\ pc_reads (ct_pc c') = false;
  two_tickets e : ticket (ct_pc c) = Some e -> ticket (ct_pc c') = Some e -> False;
  two_recording e : recording (ct_pc c) = true -> ticket (ct_pc c') = Some e -> e < dm_epoch d;
  two_counted n : finalized_after (ct_pc c) = Some n -> fresh_init d c' -> ct_counted c' = true ->
    n < init_completions (trk d);
}.

(** The record of an exposure will survive the finalize being recorded. *)
Definition record_stable (d : Native) (c : CtlCall) : Prop :=
  (forall n, finalized_after (ct_pc c) = Some n -> n < init_completions (trk d)) /\
  (ct_pc c = FinRec4 -> finalized_ok (trk d) = false).

Definition recorded (d : Native) (cs : list CtlCall) : Prop :=
  (since d = true \/ finalized_ok (trk d) = false) /\ forall i c, cs !! i = Some c -> record_stable d c.

Record ctl_inv (d : Native) (cs : list CtlCall) : Prop := {
  ci_calls i c : cs !! i = Some c -> call_ok d c;
  ci_two i j c c' : i <> j -> cs !! i = Some c -> cs !! j = Some c' -> calls_ok d c c';
  ci_since : live_state (dm_state d) = true -> since d = true;
  ci_inits n : inits_at d = Some n -> n <= finalizes d /\ init_attempted (trk d) = true;
  ci_count : init_completions (trk d) = count_if ct_counted cs;
  ci_exposed : exposed d ->
    recorded d cs \/ exists i c, cs !! i = Some c /\ fresh_init d c /\ pending (ct_pc c) = true;
}.

(** *** Updating one call *)

Section ctl_update.
Context (d : Native) (cs : list CtlCall) (i : nat) (c : CtlCall).
Context (I : ctl_inv d cs) (Hi : cs !! i = Some c).

Lemma ctl_self : call_ok d c.
Proof using I Hi. by eapply ci_calls. Qed.

Lemma inv_call d' c' :
  call_ok d' c' ->
  (forall j cj, j <> i -> cs !! j = Some cj -> call_ok d' cj /\ calls_ok d' c' cj /\ calls_ok d' cj c') ->
  (forall j k cj ck, j <> i -> k <> i -> j <> k -> cs !! j = Some cj -> cs !! k = Some ck -> calls_ok d' cj ck) ->
  (live_state (dm_state d') = true -> since d' = true) ->
  (forall n, inits_at d' = Some n -> n <= finalizes d' /\ init_attempted (trk d') = true) ->
  init_completions (trk d') = count_if ct_counted (<[i := c']> cs) ->
  (exposed d' -> (recorded d' (<[i := c']> cs)) \/
     fresh_init d' c' /\ pending (ct_pc c') = true \/
     exists j cj, j <> i /\ cs !! j = Some cj /\ fresh_init d' cj /\ pending (ct_pc cj) = true) ->
  ctl_inv d' (<[i := c']> cs).
Proof using Hi.
  intros Hok Hoth Htwo Hs Hn Hc He. pose proof (lookup_lt_Some _ _ _ Hi) as Hlt. split; [..|done|done|done|].
  - intros j cj [(<- & <- & _)|[Hne Hj]]%list_lookup_insert_Some; [done|]. by apply (Hoth j).
  - intros j k cj ck Hjk [(<- & <- & _)|[Hne Hj]]%list_lookup_insert_Some
      [(? & <- & _)|[Hne' Hk]]%list_lookup_insert_Some; try congruence.
    + by apply (Hoth k).
    + subst k. apply (Hoth j); congruence.
    + by apply (Htwo j k).
  - intros Hx. destruct (He Hx) as [Hr|[[Hf Hp]|(j & cj & Hne & Hj & Hf & Hp)]]; [by left|right..].
    + exists i, c'. rewrite list_lookup_insert_eq by done. by split_and!.
    + exists j, cj. rewrite list_lookup_insert_ne by done. by split_and!.
Qed.
End ctl_update.

(** *** Steps on the tracker *)

(** The tracker only gains marks and completions; the domain is the same. *)
Record tracker_le (d d' : Native) : Prop := {
  tl_state : dm_state d' = dm_state d;
  tl_epoch : dm_epoch d' = dm_epoch d;
  tl_finalizes : finalizes d' = finalizes d;
  tl_inits : inits_at d' = inits_at d;
  tl_since : since d = true -> since d' = true;
  tl_attempted : init_attempted (trk d) = true -> init_attempted (trk d') = true;
  tl_completions : init_completions (trk d) <= init_completions (trk d');
}.

(** [c'] holds no more than [c]. *)
Record call_le (c' c : CtlCall) : Prop := {
  cl_writes : pc_writes (ct_pc c') = true -> pc_writes (ct_pc c) = true;
  cl_reads : pc_reads (ct_pc c') = true -> pc_reads (ct_pc c) = true;
  cl_ticket e : ticket (ct_pc c') = Some e -> ticket (ct_pc c) = Some e;
  cl_recording : recording (ct_pc c') = true -> recording (ct_pc c) = true;
  cl_after n : finalized_after (ct_pc c') = Some n -> finalized_after (ct_pc c) = Some n;
  cl_seen : ct_seen c' = ct_seen c;
}.

Lemma call_ok_tracker d d' c : tracker_le d d' -> call_ok d c -> call_ok d' c.
Proof.
  intros [Hs He Hf _ Hsi Ha Hc] [K1 K2 K3 K4 K5 K6 K7 K8 K9 K10]. split; rewrite ?Hs, ?He, ?Hf; try done.
  - intros p e a Hp. destruct (K3 p e a Hp) as (? & ? & Hx). split_and!; auto.
  - auto.
  - intros Hr. destruct (K5 Hr). split; auto.
  - intros n Hn. specialize (K6 n Hn). lia.
Qed.

Lemma calls_ok_tracker d d' c1 c2 : tracker_le d d' -> calls_ok d c1 c2 -> calls_ok d' c1 c2.
Proof.
  intros [Hs He Hf _ Hsi Ha Hc] [K1 K2 K3 K4]. split; rewrite ?He; try done.
  intros n Hn Hfr Hct. unfold fresh_init in *. rewrite Hf in Hfr. specialize (K4 n Hn Hfr Hct). lia.
Qed.

Lemma calls_ok_le d c c' cj :
  call_le c' c -> (ct_counted c' = true -> ct_counted c = true \/ forall n, finalized_after (ct_pc cj) = Some n -> n < init_completions (trk d)) ->
  calls_ok d c cj -> calls_ok d cj c -> calls_ok d c' cj /\ calls_ok d cj c'.
Proof.
  intros [L1 L2 L3 L4 L5 L6] Hct [K1 K2 K3 K4] [M1 M2 M3 M4]. split; split; eauto.
  - intros Hw. destruct (M1 Hw) as [Ha Hb]. split; apply not_true_iff_false; intros Hx; [apply L1 in Hx|apply L2 in Hx]; congruence.
  - intros n Hn Hf Hc. unfold fresh_init in *. rewrite L6 in Hf. destruct (Hct Hc) as [Hc'|Hlt]; eauto.
Qed.

Section tracker_steps.
Context (d : Native) (cs : list CtlCall) (i : nat) (c : CtlCall).
Context (I : ctl_inv d cs) (Hi : cs !! i = Some c).

Lemma recorded_step d' c' :
  (since d = true -> since d' = true) -> init_completions (trk d) <= init_completions (trk d') ->
  (finalized_ok (trk d) = false -> finalized_ok (trk d') = false) ->
  (record_stable d c -> record_stable d' c') ->
  recorded d cs -> recorded d' (<[i := c']> cs).
Proof using Hi.
  intros Hs Hc Hf Hst [Hr Hall]. split; [tauto|].
  intros j cj [(<- & <- & _)|[Hne Hj]]%list_lookup_insert_Some; [eauto|].
  destruct (Hall j cj Hj) as [H1 H2]. split; [|auto]. intros n Hn. specialize (H1 n Hn). lia.
Qed.

(** Recording the exposure of [c] for good. *)
Lemma finish_recorded d' c' :
  tracker_le d d' -> fresh_init d c -> ct_counted c = true ->
  finalized_after (ct_pc c') = None -> ct_pc c' <> FinRec4 ->
  (finalized_ok (trk d') = false \/ since d' = true /\ pc_writes (ct_pc c) = true) ->
  recorded d' (<[i := c']> cs).
Proof using I Hi.
  intros [Hs He Hf _ Hsi Ha Hc] Hfr Hct Hn Hr4 Hd. split; [tauto|].
  intros j cj [(<- & <- & _)|[Hne Hj]]%list_lookup_insert_Some; [split; [congruence|done]|].
  pose proof (ci_two _ _ I i j _ _ Hne Hi Hj) as P1. pose proof (ci_two _ _ I j i _ _ ltac:(congruence) Hj Hi) as P2. split.
  - intros n Hn'. pose proof (two_counted _ _ _ P2 n Hn' Hfr Hct). lia.
  - intros Hpc. destruct Hd as [|[_ Hw]]; [done|]. destruct (two_lock _ _ _ P1 Hw) as [Hx _]. by rewrite Hpc in Hx.
Qed.

(** A tracker step by a call, when it does not count a completion. *)
Lemma tracker_inv d' c' :
  tracker_le d d' -> call_le c' c -> ct_counted c' = ct_counted c ->
  init_completions (trk d') = init_completions (trk d) -> call_ok d' c' ->
  (recorded d cs -> recorded d' (<[i := c']> cs)) ->
  (fresh_init d c -> pending (ct_pc c) = true -> pending (ct_pc c') = true \/ recorded d' (<[i := c']> cs)) ->
  ctl_inv d' (<[i := c']> cs).
Proof using I Hi.
  intros Htl Hcl Hct Hcomp Hok Hrec Hpend. eapply inv_call; [done|done|..].
  - intros j cj Hne Hj. split; [eapply call_ok_tracker; [done|by eapply ci_calls]|].
    eapply calls_ok_le; [done|rewrite Hct; auto|..]; eapply calls_ok_tracker; try done; by eapply (ci_two _ _ I); [..|done|done].
  - intros j k cj ck _ _ Hjk Hj Hk. eapply calls_ok_tracker; [done|]. by eapply (ci_two _ _ I j k).
  - rewrite (tl_state _ _ Htl). intros Hl. apply (tl_since _ _ Htl). by apply I.
  - intros n. rewrite (tl_inits _ _ Htl), (tl_finalizes _ _ Htl). intros Hn. destruct (ci_inits _ _ I n Hn).
    split; [done|by apply (tl_attempted _ _ Htl)].
  - rewrite Hcomp, (ci_count _ _ I). pose proof (count_if_update ct_counted _ _ _ c' Hi) as Hu. rewrite Hct in Hu. lia.
  - unfold exposed. rewrite (tl_inits _ _ Htl), (tl_finalizes _ _ Htl). intros Hx.
    destruct (ci_exposed _ _ I Hx) as [Hr|(j & cj & Hj & Hf & Hp)]; [left; auto|].
    unfold fresh_init. rewrite (tl_finalizes _ _ Htl), (cl_seen _ _ Hcl).
    destruct (decide (j = i)) as [->|Hne]; [|right; right; by exists j, cj].
    rewrite Hi in Hj. injection Hj as <-. destruct (Hpend Hf Hp); auto.
Qed.
End tracker_steps.

Lemma own_ok d c pc' :
  call_ok d c -> ticket pc' = None \/ ticket pc' = ticket (ct_pc c) -> sealed pc' = None \/ sealed pc' = sealed (ct_pc c) ->
  init_ticket pc' = None \/ init_ticket pc' = init_ticket (ct_pc c) -> attempting pc' = false ->
  recording pc' = false \/ recording pc' = recording (ct_pc c) -> snapshot pc' = None \/ snapshot pc' = snapshot (ct_pc c) ->
  pc_reads pc' = false -> counted_pc pc' = false \/ counted_pc pc' = counted_pc (ct_pc c) ->
  uncounted_pc pc' = false \/ uncounted_pc pc' = uncounted_pc (ct_pc c) ->
  call_ok d (c <| ct_pc := pc' |>).
Proof.
  intros [K1 K2 K3 K4 K5 K6 K7 K8 K9 K10] H1 H2 H3 H4 H5 H6 H7 H8 H9. split; cbn; try done.
  - intros e He. destruct H1; [congruence|]. apply K1. congruence.
  - intros e s He. destruct H2; [congruence|]. apply K2. congruence.
  - intros p e a He. destruct H3; [congruence|]. apply K3. congruence.
  - congruence.
  - intros Hr. destruct H5; [congruence|]. apply K5. congruence.
  - intros n Hn. destruct H6; [congruence|]. apply K6. congruence.
  - intros e ->. done.
  - intros Hr. destruct H8; [congruence|]. apply K9. congruence.
  - intros Hr. destruct H9; [congruence|]. apply K10. congruence.
Qed.

Lemma own_le c pc' :
  (pc_writes pc' = true -> pc_writes (ct_pc c) = true) -> pc_reads pc' = false ->
  ticket pc' = None \/ ticket pc' = ticket (ct_pc c) -> recording pc' = false \/ recording pc' = recording (ct_pc c) ->
  finalized_after pc' = None \/ finalized_after pc' = finalized_after (ct_pc c) ->
  call_le (c <| ct_pc := pc' |>) c.
Proof.
  intros H1 H2 H3 H4 H5. split; cbn; try done; try congruence.
  - intros e He. destruct H3; congruence.
  - intros He. destruct H4; congruence.
  - intros n He. destruct H5; congruence.
Qed.

(** A step within the same phase of a call: the tracker gains marks. *)
Section phase.
Context (d : Native) (cs : list CtlCall) (i : nat) (c : CtlCall).
Context (I : ctl_inv d cs) (Hi : cs !! i = Some c).

Lemma phase_inv d' pc' :
  tracker_le d d' -> init_completions (trk d') = init_completions (trk d) ->
  (finalized_ok (trk d) = false -> finalized_ok (trk d') = false) ->
  call_ok d' (c <| ct_pc := pc' |>) -> call_le (c <| ct_pc := pc' |>) c -> pc' <> FinRec4 ->
  (pending (ct_pc c) = true -> pending pc' = true) ->
  ctl_inv d' (<[i := c <| ct_pc := pc' |>]> cs).
Proof using I Hi.
  intros Htl Hc Hf Hok Hle Hr4 Hp. eapply tracker_inv; [exact I|exact Hi|done|done|done|done|done| |by auto].
  apply (recorded_step _ _ _ _ Hi); [apply Htl|lia|done|]. intros [H1 _]. split; [|done]. rewrite Hc.
  intros n Hn. apply H1. by apply (cl_after _ _ Hle).
Qed.

(** Counting a completion. *)
Lemma count_inv c' :
  N.of_nat (length cs) < u64_modulus -> ct_counted c = false ->
  let d' := upd (fun t => t <| init_completions ::= fun n => wrapping_add64 n 1 |>) d in
  call_ok d c' -> call_le c' c -> ct_counted c' = true -> pending (ct_pc c) = true -> pending (ct_pc c') = true ->
  finalized_after (ct_pc c') = None -> ct_pc c' <> FinRec4 ->
  ctl_inv d' (<[i := c']> cs).
Proof using I Hi.
  intros Hsmall Hct d' Hok Hle Hct' Hp Hp' Ha Hr4.
  pose proof (count_if_update ct_counted _ _ _ c' Hi) as Hu. rewrite Hct, Hct' in Hu.
  pose proof (count_if_length ct_counted (<[i := c']> cs)) as Hlen. rewrite length_insert in Hlen.
  assert (init_completions (trk d') = init_completions (trk d) + 1) as Hcomp.
  { cbn. rewrite (ci_count _ _ I). apply wrapping_add64_small. lia. }
  assert (tracker_le d d') as Htl by (split; try done; lia).
  eapply inv_call; [done|by eapply call_ok_tracker|..].
  - intros j cj Hne Hj. pose proof (ci_calls _ _ I j _ Hj) as Hokj. split; [by eapply call_ok_tracker|].
    eapply calls_ok_le; [exact Hle| |..].
    + intros _. right. intros n Hn. pose proof (ok_snapshot _ _ Hokj n) as Hsn. rewrite Hcomp.
      assert (snapshot (ct_pc cj) = Some n) as Hn' by (destruct (ct_pc cj); done). specialize (Hsn Hn'). lia.
    + eapply calls_ok_tracker; [done|]. by eapply (ci_two _ _ I i j).
    + eapply calls_ok_tracker; [done|]. by eapply (ci_two _ _ I j i).
  - intros j k cj ck _ _ Hjk Hj Hk. eapply calls_ok_tracker; [done|]. by eapply (ci_two _ _ I j k).
  - apply I.
  - apply I.
  - rewrite Hcomp, (ci_count _ _ I). lia.
  - intros Hx. destruct (ci_exposed _ _ I Hx) as [Hr|(j & cj & Hj & Hf & Hpj)].
    + left. apply (recorded_step d _ _ _ Hi); try done; [lia|]. intros _. split; [congruence|done].
    + right. destruct (decide (j = i)) as [->|Hne]; [|right; by exists j, cj].
      rewrite Hi in Hj. injection Hj as <-. left. split; [|done]. unfold fresh_init in *. by rewrite (cl_seen _ _ Hle).
Qed.

(** Clearing the attempt marker. *)
Lemma clear_inv :
  ct_pc c = FinRec4 ->
  ctl_inv (upd (fun t => t <| init_attempted_since_finalize := false |>) d) (<[i := c <| ct_pc := FinRec5 |>]> cs).
Proof using I Hi.
  intros Hpc. pose proof (ctl_self _ _ _ _ I Hi) as Hok. destruct (ok_recording _ _ Hok) as [Hs Hst]; [by rewrite Hpc|].
  assert (forall j cj e, j <> i -> cs !! j = Some cj -> ticket (ct_pc cj) = Some e -> e < dm_epoch d) as Hold.
  { intros j cj e Hne Hj Ht. apply (two_recording _ _ _ (ci_two _ _ I i j _ _ ltac:(congruence) Hi Hj) e); [by rewrite Hpc|done]. }
  assert (forall j cj, j <> i -> cs !! j = Some cj -> pc_writes (ct_pc cj) = false) as Hnw.
  { intros j cj Hne Hj. apply (two_lock _ _ _ (ci_two _ _ I i j _ _ ltac:(congruence) Hi Hj)). by rewrite Hpc. }
  eapply inv_call; [done|..].
  - destruct Hok as [K1 K2 K3 K4 K5 K6 K7 K8 K9 K10]. split; cbn; done.
  - intros j cj Hne Hj. pose proof (ci_calls _ _ I j _ Hj) as [K1 K2 K3 K4 K5 K6 K7 K8 K9 K10]. split_and!.
    + split; cbn; try done.
      * intros p e a Hp. destruct (K3 p e a Hp) as (? & ? & _). split_and!; [done..|]. intros He _. exfalso.
        assert (ticket (ct_pc cj) = Some e) as Ht by (destruct (ct_pc cj); cbn in *; congruence).
        pose proof (Hold j cj e Hne Hj Ht). lia.
      * intros Hr. specialize (Hnw j cj Hne Hj). destruct (ct_pc cj); done.
    + pose proof (ci_two _ _ I i j _ _ ltac:(congruence) Hi Hj) as [P1 P2 P3 P4]. rewrite Hpc in *. by split.
    + pose proof (ci_two _ _ I j i _ _ Hne Hj Hi) as [P1 P2 P3 P4]. rewrite Hpc in *. by split.
  - intros j k cj ck _ _ Hjk Hj Hk. pose proof (ci_two _ _ I j k _ _ Hjk Hj Hk) as [P1 P2 P3 P4]. by split.
  - cbn. by rewrite Hst.
  - apply I.
  - cbn. rewrite (ci_count _ _ I). pose proof (count_if_update ct_counted _ _ _ (c <| ct_pc := FinRec5 |>) Hi) as Hu. cbn in Hu. lia.
  - intros Hx. destruct (ci_exposed _ _ I Hx) as [[Hr Hall]|(j & cj & Hj & Hf & Hpj)].
    + left. destruct (Hall i c Hi) as [_ H4]. specialize (H4 Hpc). split; [by right|].
      intros j cj [(<- & <- & _)|[Hne Hj]]%list_lookup_insert_Some; [by split|]. apply (Hall j cj Hj).
    + right. right. exists j, cj. split_and!; try done. intros ->. rewrite Hi in Hj. injection Hj as <-. by rewrite Hpc in Hpj.
Qed.

(** Marking the finalize as successful: the attempt marker is still set. *)
Lemma finalized_inv n :
  ct_pc c = FinRec1 n ->
  ctl_inv (upd (fun t => t <| finalized_ok := true |>) d) (<[i := c <| ct_pc := FinRec2 n |>]> cs).
Proof using I Hi.
  intros Hpc. pose proof (ctl_self _ _ _ _ I Hi) as Hok. destruct (ok_recording _ _ Hok) as [Hs Hst]; [by rewrite Hpc|].
  eapply tracker_inv; [exact I|exact Hi|..]; try done.
  - apply own_le; rewrite ?Hpc; auto.
  - apply (own_ok _ c); rewrite ?Hpc; auto. by apply (call_ok_tracker d).
  - intros [_ Hall]. split; [by left|].
    intros j cj [(<- & <- & _)|[Hne Hj]]%list_lookup_insert_Some.
    + destruct (Hall i c Hi) as [H1 _]. rewrite Hpc in H1. by split.
    + destruct (Hall j cj Hj) as [H1 _]. split; [done|]. intros Hpcj. cbn.
      destruct (two_lock _ _ _ (ci_two _ _ I i j _ _ Hne Hi Hj)) as [Hx _]; [by rewrite Hpc|]. by rewrite Hpcj in Hx.
  - by rewrite Hpc.
Qed.

(** Comparing the completions: only a finalize that saw no new one clears the marker. *)
Lemma compare_inv n :
  ct_pc c = FinRec3 n ->
  ctl_inv d (<[i := c <| ct_pc := if init_completions (trk d) =? n then FinRec4 else FinRec5 |>]> cs).
Proof using I Hi.
  intros Hpc. pose proof (ctl_self _ _ _ _ I Hi) as Hok.
  eapply tracker_inv; [exact I|exact Hi|..]; try done.
  - apply own_le; rewrite ?Hpc; case_match; auto.
  - apply own_ok; rewrite ?Hpc; try done; case_match; auto.
  - intros [Hr Hall]. split; [done|].
    intros j cj [(<- & <- & _)|[Hne Hj]]%list_lookup_insert_Some; [|by apply (Hall j)].
    destruct (Hall i c Hi) as [H1 _]. rewrite Hpc in H1. specialize (H1 n eq_refl).
    destruct (N.eqb_spec (init_completions (trk d)) n); [lia|by split].
  - by rewrite Hpc.
Qed.

(** The last step of a recorded initialize. *)
Lemma record_inv d' pc' :
  tracker_le d d' -> init_completions (trk d') = init_completions (trk d) ->
  (finalized_ok (trk d) = false -> finalized_ok (trk d') = false) ->
  counted_pc (ct_pc c) = true -> finalized_after pc' = None -> pc' <> FinRec4 ->
  (finalized_ok (trk d') = false \/ since d' = true /\ pc_writes (ct_pc c) = true) ->
  call_ok d' (c <| ct_pc := pc' |>) -> call_le (c <| ct_pc := pc' |>) c ->
  ctl_inv d' (<[i := c <| ct_pc := pc' |>]> cs).
Proof using I Hi.
  intros Htl Hc Hf Hcp Ha Hr4 Hd Hok Hle. eapply tracker_inv; [exact I|exact Hi|done|done|done|done|done|..].
  - apply (recorded_step _ _ _ _ Hi); [apply Htl|lia|done|]. intros _. split; [cbn; congruence|done].
  - intros Hfr _. right. eapply finish_recorded; try done. apply (ok_counted _ _ (ctl_self _ _ _ _ I Hi)), Hcp.
Qed.
End phase.

Ltac tle := split; cbn; first [done | lia].
Ltac phase_call Hok Hpc :=
  apply own_ok; rewrite ?Hpc; auto; apply (fun H => call_ok_tracker _ _ _ H Hok); tle.
Ltac phase I Hi Hok Hpc :=
  eapply (phase_inv _ _ _ _ I Hi);
    [ tle | done | done | phase_call Hok Hpc | apply own_le; rewrite ?Hpc; auto | done | by rewrite ?Hpc ].

(** An entry of a phase with a [call_ok] of its own. *)
Ltac phase_own I Hi Hok Hpc :=
  eapply (phase_inv _ _ _ _ I Hi);
    [ tle | done | done
    | destruct Hok as [K1 K2 K3 K4 K5 K6 K7 K8 K9 K10]; rewrite Hpc in *; split; cbn in *; try done
    | apply own_le; rewrite ?Hpc; auto | done | by rewrite ?Hpc ].
Ltac record I Hi Hok Hpc :=
  eapply (record_inv _ _ _ _ I Hi);
    [ tle | done | cbn; auto | by rewrite Hpc | done | done | rewrite ?Hpc; cbn; auto
    | phase_call Hok Hpc | apply own_le; rewrite ?Hpc; auto ].
Ltac count I Hi Hok Hpc :=
  apply (count_inv _ _ _ _ I Hi);
    [ done | apply (ok_uncounted _ _ Hok); by rewrite Hpc
    | destruct Hok as [K1 K2 K3 K4 K5 K6 K7 K8 K9 K10]; rewrite Hpc in *; by split
    | split; cbn; rewrite ?Hpc; cbn; (done || congruence) | done | by rewrite Hpc | done | done | done ].

Lemma tracker_step_inv d cs i c d' c' :
  N.of_nat (length cs) < u64_modulus -> ctl_inv d cs -> cs !! i = Some c -> tracker_step d c = Some (d', c') ->
  ctl_inv d' (<[i := c']> cs).
Proof.
  intros Hsmall I Hi Hstep. pose proof (ctl_self _ _ _ _ I Hi) as Hok. unfold tracker_step in Hstep.
  destruct (ct_pc c) eqn:Hpc; try discriminate; try (destruct (checked_add64 _ _)); injection Hstep as <- <-.
  all: try (phase I Hi Hok Hpc; fail).
  all: try (case_match; phase I Hi Hok Hpc; fail).
  all: try (count I Hi Hok Hpc; fail).
  all: try (record I Hi Hok Hpc; fail).
  - phase_own I Hi Hok Hpc.
  - phase_own I Hi Hok Hpc.
    intros p0 e0 a [= <- <- <-]. destruct (K3 p e false eq_refl) as (? & ? & _). by split_and!.
  - destruct (finalized_ok (trk d)) eqn:Ef; [phase I Hi Hok Hpc|record I Hi Hok Hpc].
  - phase_own I Hi Hok Hpc. intros n [= <-]. done.
  - by apply finalized_inv.
  - by apply compare_inv.
  - by apply clear_inv.
Qed.

(** *** Steps on the domain *)

Section domain.
Context (d : Native) (cs : list CtlCall) (i : nat) (c : CtlCall).
Context (I : ctl_inv d cs) (Hi : cs !! i = Some c).

(** No other call holds the current ticket once [c] does. *)
Lemma current_ticket e :
  ticket (ct_pc c) = Some e -> dm_epoch d = e ->
  forall j cj e', j <> i -> cs !! j = Some cj -> ticket (ct_pc cj) = Some e' -> e' < dm_epoch d.
Proof using I Hi.
  intros Ht He j cj e' Hne Hj Ht'. pose proof (ok_ticket _ _ (ci_calls _ _ I j _ Hj) e' Ht') as Hle.
  pose proof (two_tickets _ _ _ (ci_two _ _ I j i _ _ Hne Hj Hi) e) as Hx.
  destruct (decide (e' = e)) as [->|]; [by destruct Hx|lia].
Qed.

Lemma current_sealed e :
  ticket (ct_pc c) = Some e -> dm_epoch d = e ->
  forall j cj, j <> i -> cs !! j = Some cj -> sealed (ct_pc cj) = None.
Proof using I Hi.
  intros Ht He j cj Hne Hj. destruct (sealed (ct_pc cj)) as [[e' s]|] eqn:Hs; [exfalso|done].
  destruct (ok_sealed _ _ (ci_calls _ _ I j _ Hj) e' s Hs) as [He' _].
  assert (ticket (ct_pc cj) = Some e') as Ht' by (destruct (ct_pc cj); cbn in *; congruence).
  pose proof (current_ticket e Ht He j cj e' Hne Hj Ht'). lia.
Qed.

(** The conditions under which a step may move the domain to [d']. *)
Definition domain_move (d' : Native) (pc' : CtlPc) : Prop :=
  d' = d /\ ticket pc' = None /\ recording pc' = false \/
  write_free i cs /\ dm_epoch d <= dm_epoch d' /\
  (forall j cj e, j <> i -> cs !! j = Some cj -> ticket (ct_pc cj) = Some e -> e < dm_epoch d') /\
  (forall j cj, j <> i -> cs !! j = Some cj -> sealed (ct_pc cj) = None) /\
  (forall e, ticket pc' = Some e -> e = dm_epoch d').

Lemma domain_inv d' pc' :
  trk d' = trk d -> finalizes d' = finalizes d -> inits_at d' = inits_at d ->
  (forall j cj, j <> i -> cs !! j = Some cj -> pc_writes (ct_pc cj) = false /\ (pc_writes pc' = true -> pc_reads (ct_pc cj) = false)) ->
  domain_move d' pc' ->
  call_ok d' (c <| ct_pc := pc' |>) ->
  finalized_after pc' = None \/ finalized_after pc' = finalized_after (ct_pc c) -> pc' <> FinRec4 ->
  (live_state (dm_state d') = true -> since d = true) ->
  (pending (ct_pc c) = true -> pending pc' = true) ->
  ctl_inv d' (<[i := c <| ct_pc := pc' |>]> cs).
Proof using I Hi.
  intros Htrk Hfin Hini Hlock Hmove Hok Ha Hr4 Hlive Hpend. eapply inv_call; [exact Hi|done|..].
  - intros j cj Hne Hj. destruct (Hlock j cj Hne Hj) as [Hw Hr].
    pose proof (ci_calls _ _ I j _ Hj) as Hokj.
    pose proof (ci_two _ _ I i j _ _ ltac:(congruence) Hi Hj) as [P1 P2 P3 P4].
    pose proof (ci_two _ _ I j i _ _ Hne Hj Hi) as [Q1 Q2 Q3 Q4]. unfold fresh_init in *.
    assert (recording (ct_pc cj) = false) as Hnr by (destruct (ct_pc cj); done).
    split_and!.
    + destruct Hmove as [(-> & _)|(Hwf & Hep & Hlt & Hse & Hti)]; [done|].
      destruct Hokj as [K1 K2 K3 K4 K5 K6 K7 K8 K9 K10]. split; rewrite ?Htrk, ?Hfin; try done.
      * intros e He. specialize (K1 e He). lia.
      * intros e s Hs. by rewrite (Hse j cj Hne Hj) in Hs.
      * intros p e a Hp. destruct (K3 p e a Hp) as (? & ? & _). split_and!; [done..|]. intros He.
        assert (ticket (ct_pc cj) = Some e) as Ht by (destruct (ct_pc cj); cbn in *; congruence).
        specialize (Hlt j cj e Hne Hj Ht). lia.
      * congruence.
      * intros e He. destruct (Hwf j cj Hne Hj) as [_ Hx]. by rewrite He in Hx.
    + split; cbn; try done.
      * auto.
      * destruct Hmove as [(-> & Ht & _)|(_ & _ & Hlt & _ & Hti)]; [congruence|].
        intros e He Hc. specialize (Hlt j cj e Hne Hj Hc). specialize (Hti e He). lia.
      * destruct Hmove as [(-> & _ & Hx)|(_ & _ & Hlt & _ & Hti)]; [congruence|]. intros e _. by apply Hlt with j.
      * rewrite Htrk. unfold fresh_init. rewrite Hfin. intros n Hn. destruct Ha as [Ha|Ha]; [congruence|]. apply P4. congruence.
    + split; cbn; try congruence.
      * destruct Hmove as [(-> & Ht & _)|(_ & _ & Hlt & _ & Hti)]; [congruence|].
        intros e He Hc. specialize (Hlt j cj e Hne Hj He). specialize (Hti e Hc). lia.
      * rewrite Htrk. unfold fresh_init. by rewrite Hfin.
  - intros j k cj ck Hne Hne' Hjk Hj Hk. pose proof (ci_two _ _ I j k _ _ Hjk Hj Hk) as [P1 P2 P3 P4].
    unfold fresh_init in *. split; unfold fresh_init; rewrite ?Htrk, ?Hfin; try done.
    intros e Hr. destruct (Hlock j cj Hne Hj) as [Hw _]. destruct (ct_pc cj); done.
  - rewrite Htrk. done.
  - intros n. rewrite Hini, Hfin, Htrk. apply I.
  - rewrite Htrk, (ci_count _ _ I). pose proof (count_if_update ct_counted _ _ _ (c <| ct_pc := pc' |>) Hi) as Hu. cbn in *. lia.
  - unfold exposed. rewrite Hini, Hfin. intros Hx. unfold fresh_init. rewrite Hfin. cbn.
    destruct (ci_exposed _ _ I Hx) as [Hr|(j & cj & Hj & Hf & Hp)].
    + left. apply (recorded_step d _ _ _ Hi); rewrite ?Htrk; try done. intros [H1 _]. split; [|done].
      rewrite Htrk. intros n Hn. apply H1. cbn in Hn. destruct Ha; congruence.
    + right. destruct (decide (j = i)) as [->|Hne]; [|right; by exists j, cj].
      rewrite Hi in Hj. injection Hj as <-. left. auto.
Qed.
End domain.

Lemma begin_initialize_cases d p e d' :
  begin_initialize d = (Ok (p, e), d') ->
  p = dm_state d /\ p <> Draining /\ p <> Finalizing /\ e = dm_epoch d + 1 /\ d' = d <| dm_epoch := e |> <| dm_state := Initializing |>.
Proof. unfold begin_initialize, checked_add64. repeat case_match; intros; simplify_eq; by split_and!. Qed.

Lemma begin_initialize_err d rv d' : begin_initialize d = (Err rv, d') -> d' = d.
Proof. unfold begin_initialize. repeat case_match; intros; by simplify_eq. Qed.

Lemma begin_finalize_cases d e d' :
  begin_finalize d = (Ok e, d') ->
  dm_state d = ModOpen /\ e = dm_epoch d + 1 /\ d' = d <| dm_epoch := e |> <| dm_state := Draining |>.
Proof. unfold begin_finalize, checked_add64. repeat case_match; intros; simplify_eq; by split_and!. Qed.

Lemma begin_finalize_err d rv d' : begin_finalize d = (Err rv, d') -> d' = d.
Proof. unfold begin_finalize. repeat case_match; intros; by simplify_eq. Qed.

Lemma settle_cases from to e d r d' :
  settle_publish from to e d = (r, d') ->
  d' = d /\ Result_is_ok r = false \/
  dm_epoch d = e /\ dm_state d = from /\
  (Result_is_ok r = true /\ d' = d <| dm_epoch := e + 1 |> <| dm_state := to |> \/
   Result_is_ok r = false /\ d' = d <| dm_state := Uncertain |>).
Proof.
  unfold settle_publish, checked_add64. destruct (N.eqb_spec (dm_epoch d) e) as [He|], (decide (dm_state d = from)) as [Hs|];
    rewrite ?bool_decide_true, ?bool_decide_false by done; cbn; [|by intros [= <- <-]; left..].
  intros H. right. split_and!; [done..|]. rewrite He in H. repeat case_match; simplify_eq; [by left|by right].
Qed.

Lemma abandon_cases p e d b d' :
  p <> Draining -> p <> Finalizing -> abandon p e d = (b, d') ->
  b = false /\ d' = d /\ dm_epoch d <> e \/
  b = true /\ dm_epoch d = e /\ exists n s, dm_epoch d <= n /\ d' = d <| dm_epoch := n |> <| dm_state := s |> /\
    (live_state s = true -> p = ModOpen).
Proof.
  intros Hp Hp'. unfold abandon, checked_add64. destruct (N.eqb_spec (dm_epoch d) e); intros [= <- <-]; [right|by left].
  split_and!; [done|done|]. do 2 eexists. split; [|split; [reflexivity|]]; [destruct (_ <=? _); cbn; lia|]. by destruct p.
Qed.

Section write_section.
Context (d : Native) (cs : list CtlCall) (i : nat) (c : CtlCall).
Context (I : ctl_inv d cs) (Hi : cs !! i = Some c) (Hwf : write_free i cs).

(** A step that leaves the domain alone and gives up the ticket. *)
Lemma leave_inv pc' :
  ticket pc' = None -> sealed pc' = None -> init_ticket pc' = None ->
  attempting pc' = false -> recording pc' = false -> snapshot pc' = None -> pc_reads pc' = false ->
  counted_pc pc' = false \/ counted_pc pc' = counted_pc (ct_pc c) ->
  uncounted_pc pc' = false \/ uncounted_pc pc' = uncounted_pc (ct_pc c) -> pc' <> FinRec4 ->
  (pending (ct_pc c) = true -> pending pc' = true) ->
  ctl_inv d (<[i := c <| ct_pc := pc' |>]> cs).
Proof using I Hi Hwf.
  intros ? ? ? ? ? ? ? ? ? ? ?. pose proof (ctl_self _ _ _ _ I Hi) as Hok. eapply (domain_inv _ _ _ _ I Hi);
    [done|done|done| |by left|apply own_ok; auto|left; by destruct pc'|done|apply I|done].
  intros j cj Hne Hj. destruct (Hwf j cj Hne Hj). auto.
Qed.

(** A step that moves the domain: by the holder of the current ticket, or
    starting a new epoch while no finalize is under way. *)
Lemma move_inv d' pc' :
  trk d' = trk d -> finalizes d' = finalizes d -> inits_at d' = inits_at d ->
  ticket (ct_pc c) = Some (dm_epoch d) /\ dm_epoch d <= dm_epoch d' \/
    dm_state d <> Draining /\ dm_state d <> Finalizing /\ dm_epoch d < dm_epoch d' ->
  (forall e, ticket pc' = Some e -> e = dm_epoch d') ->
  call_ok d' (c <| ct_pc := pc' |>) ->
  finalized_after pc' = None \/ finalized_after pc' = finalized_after (ct_pc c) -> pc' <> FinRec4 ->
  (live_state (dm_state d') = true -> since d = true) ->
  (pending (ct_pc c) = true -> pending pc' = true) ->
  ctl_inv d' (<[i := c <| ct_pc := pc' |>]> cs).
Proof using I Hi Hwf.
  intros Ht Hf Hn Hmv Hti ? ? ? ? ?. eapply (domain_inv _ _ _ _ I Hi); try done.
  { intros j cj Hne Hj. destruct (Hwf j cj Hne Hj). auto. }
  right. destruct Hmv as [[Hc Hle]|(Hd & Hfi & Hlt)]; split_and!; try done; try lia.
  - intros j cj e' Hne Hj Hcj. pose proof (current_ticket _ _ _ _ I Hi _ Hc eq_refl j cj e' Hne Hj Hcj). lia.
  - by eapply (current_sealed _ _ _ _ I Hi).
  - intros j cj e' Hne Hj Hcj. pose proof (ok_ticket _ _ (ci_calls _ _ I j _ Hj) e' Hcj). lia.
  - intros j cj Hne Hj. destruct (sealed (ct_pc cj)) as [[e' s]|] eqn:Hs; [exfalso|done].
    destruct (ok_sealed _ _ (ci_calls _ _ I j _ Hj) e' s Hs) as [_ <-]. destruct (ct_pc cj); cbn in *; congruence.
Qed.

(** Abandoning an initialize or finalize ticket. *)
Lemma abandon_inv p e b d' pc' :
  p <> Draining -> p <> Finalizing -> abandon p e d = (b, d') -> ticket (ct_pc c) = Some e ->
  (dm_epoch d = e -> p = ModOpen -> since d = true) ->
  ticket pc' = None -> sealed pc' = None -> init_ticket pc' = None ->
  attempting pc' = false -> recording pc' = false -> snapshot pc' = None -> pc_reads pc' = false ->
  counted_pc pc' = false \/ counted_pc pc' = counted_pc (ct_pc c) ->
  uncounted_pc pc' = false \/ uncounted_pc pc' = uncounted_pc (ct_pc c) -> pc' <> FinRec4 ->
  (pending (ct_pc c) = true -> pending pc' = true) ->
  ctl_inv d' (<[i := c <| ct_pc := pc' |>]> cs).
Proof using I Hi Hwf.
  intros Hp Hp' Hab Ht Hs ? ? ? ? ? ? ? ? ? ? ?.
  destruct (abandon_cases _ _ _ _ _ Hp Hp' Hab) as [(_ & -> & _)|(_ & He & n & s & Hle & -> & Hlv)]; [by apply leave_inv|].
  apply move_inv; try done.
  - left. split; [congruence|done].
  - congruence.
  - destruct (ctl_self _ _ _ _ I Hi) as [K1 K2 K3 K4 K5 K6 K7 K8 K9 K10]. split; cbn; try congruence; try done.
    + by intros e0 ->.
    + intros Hc. destruct H6; [congruence|]. apply K9. congruence.
    + intros Hc. destruct H7; [congruence|]. apply K10. congruence.
  - left. by destruct pc'.
  - cbn. intros Hl. auto.
Qed.

(** The holder of the current ticket settles it and returns. *)
Lemma settle_done_inv n s r :
  ticket (ct_pc c) = Some (dm_epoch d) -> dm_epoch d <= n -> pending (ct_pc c) = false ->
  (live_state s = true -> since d = true) ->
  ctl_inv (d <| dm_epoch := n |> <| dm_state := s |>) (<[i := c <| ct_pc := CtlDone r |>]> cs).
Proof using I Hi Hwf.
  intros Ht Hn Hp Hs. apply move_inv; try done; [by left| |by left|by rewrite Hp].
  destruct (ctl_self _ _ _ _ I Hi) as [K1 K2 K3 K4 K5 K6 K7 K8 K9 K10]. by split.
Qed.
End write_section.

Lemma domain_step_inv d cs i c d' c' :
  ctl_inv d cs -> cs !! i = Some c -> write_free i cs -> domain_step d c = Some (d', c') ->
  ctl_inv d' (<[i := c']> cs).
Proof.
  intros I Hi Hwf Hstep. pose proof (ctl_self _ _ _ _ I Hi) as [K1 K2 K3 K4 K5 K6 K7 K8 K9 K10].
  pose proof (move_inv _ _ _ _ I Hi Hwf) as Hmove. pose proof (leave_inv _ _ _ _ I Hi Hwf) as Hleave.
  unfold domain_step in Hstep. destruct (ct_pc c) eqn:Hpc; try discriminate.
  - destruct (begin_initialize d) as [[[p e]|rv] d1] eqn:Eb; injection Hstep as <- <-.
    + apply begin_initialize_cases in Eb as (-> & Hnd & Hnf & -> & ->). apply Hmove; try done.
      * right. split_and!; [done..|cbn; lia].
      * cbn. congruence.
      * split; cbn; try done.
        -- intros e [= <-]. done.
        -- intros p e a [= <- <- <-]. split_and!; [done..|]. intros _ [Ho|]; [|done]. apply I. by rewrite Ho.
      * by left.
    + apply begin_initialize_err in Eb as ->. apply Hleave; auto.
  - injection Hstep as <- <-. destruct (abandon p e d) as [b d1] eqn:Ea. destruct (K3 p e true eq_refl) as (? & ? & ?).
    eapply (abandon_inv _ _ _ _ I Hi Hwf p e b); rewrite ?Hpc; auto.
  - injection Hstep as <- <-. destruct (abandon p e d) as [b d1] eqn:Ea. destruct (K3 p e true eq_refl) as (? & ? & ?).
    eapply (abandon_inv _ _ _ _ I Hi Hwf p e b); rewrite ?Hpc; auto.
  - destruct (settle_publish _ _ _ _) as [r d1] eqn:Es; injection Hstep as <- <-.
    apply settle_cases in Es as [(-> & _)|(He & Hst & [[_ ->]|[_ ->]])]; [apply Hleave; auto|..].
    + apply (settle_done_inv _ _ _ _ I Hi Hwf); rewrite ?Hpc, ?He; [done|lia|done|].
      intros _. destruct (K3 p e true eq_refl) as (_ & _ & Hx). auto.
    + apply (settle_done_inv _ _ _ _ I Hi Hwf (dm_epoch d)); rewrite ?Hpc, ?He; done.
  - destruct (begin_finalize d) as [[e|rv] d1] eqn:Eb; injection Hstep as <- <-.
    + apply begin_finalize_cases in Eb as (Ho & -> & ->). apply Hmove; try done; [right|cbn; congruence| |by left|].
      * rewrite Ho. split_and!; [done..|cbn; lia].
      * split; cbn; try done; intros; by simplify_eq.
      * intros _. apply I. by rewrite Ho.
    + apply begin_finalize_err in Eb as ->. apply Hleave; auto.
  - destruct (K2 e _ eq_refl) as [He Hst]. assert (enter_finalizing e d = (Ok tt, d <| dm_state := Finalizing |>)) as Ee.
    { unfold enter_finalizing. by rewrite He, N.eqb_refl, bool_decide_true. }
    rewrite Ee in Hstep. injection Hstep as <- <-.
    apply Hmove; try done; [left|cbn; congruence| |by left|].
    + cbn. split; [congruence|lia].
    + split; cbn; try done; intros; by simplify_eq.
    + intros _. apply I. by rewrite Hst.
  - destruct (K2 e _ eq_refl) as [He Hst].
    assert (forall pc', pc' = FinFail1 rv \/ pc' = CtlDone (Err rv) -> forall b d1, abandon ModOpen e d = (b, d1) ->
      ctl_inv d1 (<[i := c <| ct_pc := pc' |>]> cs)) as Hab.
    { intros pc' Hpc' b d1 Ea. eapply (abandon_inv _ _ _ _ I Hi Hwf ModOpen e b); rewrite ?Hpc; destruct Hpc' as [-> | ->]; auto.
      all: intros _ _; apply I; by rewrite Hst. }
    destruct (abandon ModOpen e d) as [[] d1] eqn:Ea; injection Hstep as <- <-; eapply Hab; eauto.
  - destruct (K2 e _ eq_refl) as [He Hst]. destruct (settle_publish _ _ _ _) as [r d1] eqn:Es.
    apply settle_cases in Es as [(-> & Hr)|(_ & _ & [[Hr ->]|[Hr ->]])]; destruct r as [[]|rv]; try discriminate; injection Hstep as <- <-.
    + apply Hleave; auto.
    + apply Hmove; try done; [left| |by right].
      * cbn. split; [congruence|lia].
      * split; cbn; try done. intros _. split; [|done]. apply I. by rewrite Hst.
    + apply (settle_done_inv _ _ _ _ I Hi Hwf (dm_epoch d)); rewrite ?Hpc, ?He; done.
Qed.

(** *** The native calls *)

Section native.
Context (d : Native) (cs : list CtlCall) (i : nat) (c : CtlCall).
Context (I : ctl_inv d cs) (Hi : cs !! i = Some c).

(** The native initialize has run: the call will record it. *)
Lemma native_init_inv p e pc' :
  ct_pc c = InitNative p e -> (exists rv, pc' = InitFailed p e rv) \/ pc' = InitCount p e ->
  ctl_inv (d <| inits_at := Some (finalizes d) |>) (<[i := c <| ct_pc := pc' |> <| ct_seen := Some (finalizes d) |>]> cs).
Proof using I Hi.
  intros Hpc Hpc'. pose proof (ctl_self _ _ _ _ I Hi) as [K1 K2 K3 K4 K5 K6 K7 K8 K9 K10]. rewrite Hpc in *.
  assert (pc_writes pc' = false /\ pc_reads pc' = false /\ ticket pc' = Some e /\ recording pc' = false /\
    finalized_after pc' = None /\ pending pc' = true /\ call_ok d (c <| ct_pc := pc' |> <| ct_seen := Some (finalizes d) |>))
    as (Hw & Hrd & Ht & Hr & Ha & Hp & Hok).
  { destruct Hpc' as [[rv ->]| ->]; split_and!; try done; split; cbn in *; try done; intros; simplify_eq; done. }
  assert (ct_counted c = false) as Hnc by by apply K10.
  eapply inv_call; [exact Hi|destruct Hok; by split|..].
  - intros j cj Hne Hj. pose proof (ci_calls _ _ I j _ Hj) as [] .
    pose proof (ci_two _ _ I i j _ _ ltac:(congruence) Hi Hj) as [P1 P2 P3 P4].
    pose proof (ci_two _ _ I j i _ _ Hne Hj Hi) as [Q1 Q2 Q3 Q4]. rewrite Hpc in *.
    split_and!; [by split|split; cbn; congruence || eauto|split; cbn; try congruence].
    + rewrite Ht. apply P2.
    + by intros _.
    + rewrite Ht. apply Q2.
    + rewrite Ht. apply Q3.
  - intros j k cj ck _ _ Hjk Hj Hk. destruct (ci_two _ _ I j k _ _ Hjk Hj Hk). by split.
  - apply I.
  - intros n [= <-]. split; [done|]. by apply K4.
  - cbn. rewrite (ci_count _ _ I).
    pose proof (count_if_update ct_counted _ _ _ (c <| ct_pc := pc' |> <| ct_seen := Some (finalizes d) |>) Hi) as Hu. cbn in Hu. lia.
  - intros _. right. left. done.
Qed.

(** The native finalize has succeeded: no initialize is fresh any more. *)
Lemma native_finalize_inv e n :
  ct_pc c = FinNative e n ->
  ctl_inv (d <| finalizes ::= N.succ |>) (<[i := c <| ct_pc := FinPublish e n |>]> cs).
Proof using I Hi.
  intros Hpc. pose proof (ctl_self _ _ _ _ I Hi) as [K1 K2 K3 K4 K5 K6 K7 K8 K9 K10]. rewrite Hpc in *.
  assert (forall j cj, cs !! j = Some cj -> ct_seen cj <> Some (N.succ (finalizes d))) as Hstale.
  { intros j cj Hj Hs. pose proof (ok_seen _ _ (ci_calls _ _ I j _ Hj) _ Hs). lia. }
  assert (forall d1 c1, call_ok d1 c1 -> call_ok (d1 <| finalizes ::= N.succ |>) c1) as Hmono.
  { intros d1 c1 [J1 J2 J3 J4 J5 J6 J7 J8 J9 J10]. split; try done. intros n0 Hn0. cbn. specialize (J8 n0 Hn0). lia. }
  eapply inv_call; [exact Hi|..].
  - apply Hmono. split; cbn in *; done.
  - intros j cj Hne Hj. split; [by apply Hmono, (ci_calls _ _ I j)|].
    pose proof (ci_two _ _ I i j _ _ ltac:(congruence) Hi Hj) as [P1 P2 P3 P4].
    pose proof (ci_two _ _ I j i _ _ Hne Hj Hi) as [Q1 Q2 Q3 Q4]. rewrite Hpc in *.
    split; split; cbn; try done.
    + intros n0 _ Hf. by destruct (Hstale j cj Hj).
    + intros n0 _ Hf. by destruct (Hstale i c Hi).
  - intros j k cj ck _ _ Hjk Hj Hk. destruct (ci_two _ _ I j k _ _ Hjk Hj Hk) as [P1 P2 P3 P4]. split; cbn; try done.
    intros n0 _ Hf. by destruct (Hstale k ck Hk).
  - apply I.
  - intros n0 Hn0. cbn in *. destruct (ci_inits _ _ I n0 Hn0). split; [lia|done].
  - cbn. rewrite (ci_count _ _ I).
    pose proof (count_if_update ct_counted _ _ _ (c <| ct_pc := FinPublish e n |>) Hi) as Hu. cbn in Hu. lia.
  - intros Hx. unfold exposed in Hx. cbn in Hx. destruct (ci_inits _ _ I _ Hx). lia.
Qed.
End native.

Lemma native_step_inv ch d cs i c d' c' :
  ctl_inv d cs -> cs !! i = Some c -> native_step ch d c = Some (d', c') -> ctl_inv d' (<[i := c']> cs).
Proof.
  intros I Hi Hstep. pose proof (ctl_self _ _ _ _ I Hi) as Hok. unfold native_step in Hstep.
  destruct (ct_pc c) eqn:Hpc; try discriminate; destruct ch; try discriminate; injection Hstep as <- <-.
  - eapply (native_init_inv _ _ _ _ I Hi); eauto.
  - eapply (native_init_inv _ _ _ _ I Hi); eauto.
  - by eapply (native_finalize_inv _ _ _ _ I Hi).
  - phase I Hi Hok Hpc.
Qed.

(** *** Ordinary calls *)

Lemma admit_step_inv d cs i c d' c' :
  ctl_inv d cs -> cs !! i = Some c -> read_free cs -> admit_step d c = Some (d', c') -> ctl_inv d' (<[i := c']> cs).
Proof.
  intros I Hi Hrf Hstep. pose proof (ctl_self _ _ _ _ I Hi) as [K1 K2 K3 K4 K5 K6 K7 K8 K9 K10].
  unfold admit_step in Hstep. destruct (ct_pc c) eqn:Hpc; try discriminate. injection Hstep as <- <-.
  eapply (domain_inv _ _ _ _ I Hi); try done; try apply I; rewrite ?Hpc; try done.
  - intros j cj _ Hj. split; [by eapply Hrf|by case_match].
  - left. by case_match.
  - unfold admit_ordinary. destruct (dm_state d) eqn:Hst; split; cbn; try done; intros; simplify_eq; done.
  - left. by case_match.
  - by case_match.
Qed.

Lemma ordinary_step_inv d cs i c d' c' :
  ctl_inv d cs -> cs !! i = Some c -> ordinary_step d c = Some (d', c') -> ctl_inv d' (<[i := c']> cs).
Proof.
  intros I Hi Hstep. pose proof (ctl_self _ _ _ _ I Hi) as Hok.
  unfold ordinary_step in Hstep. destruct (ct_pc c) eqn:Hpc; try discriminate. injection Hstep as <- <-. phase I Hi Hok Hpc.
Qed.

Lemma sessions_inv d cs i e n :
  ctl_inv d cs -> ct_pc <$> cs !! i = Some (OrdHeld e) -> ctl_inv (upd (fun t => t <| open_sessions := n |>) d) cs.
Proof.
  intros I Hi. apply fmap_Some in Hi as (c & Hi & Hpc). pose proof (ctl_self _ _ _ _ I Hi) as Hok.
  rewrite <- (list_insert_id cs i c Hi). replace c with (c <| ct_pc := ct_pc c |>) at 1 by by destruct c.
  eapply (phase_inv _ _ _ _ I Hi); [tle|done|done| | |by rewrite <- Hpc|done].
  - destruct c. apply (fun H => call_ok_tracker _ _ _ H Hok). tle.
  - by split.
Qed.

Lemma spawn_inv d cs pc :
  ctl_inv d cs -> pc = InitCheckFailed \/ pc = FinBegin \/ pc = OrdAdmit ->
  ctl_inv d (cs ++ [MkCtlCall pc None false]).
Proof.
  intros I Hpc.
  assert (forall j c, (cs ++ [MkCtlCall pc None false]) !! j = Some c -> cs !! j = Some c \/ j = length cs /\ c = MkCtlCall pc None false) as Hl.
  { intros j c [Hj|[Hle Hj]]%lookup_app_Some; [by left|right]. apply list_lookup_singleton_Some in Hj as [? <-]. split; [lia|done]. }
  assert (call_ok d (MkCtlCall pc None false)) as Hnew by (destruct Hpc as [-> |[-> | ->]]; by split).
  assert (forall c, calls_ok d c (MkCtlCall pc None false) /\ calls_ok d (MkCtlCall pc None false) c) as Hpair.
  { intros c. destruct Hpc as [-> |[-> | ->]]; by split. }
  split.
  - intros j c Hj. destruct (Hl j c Hj) as [Hj'|[_ ->]]; [by eapply ci_calls|done].
  - intros j k c c' Hjk Hj Hk. destruct (Hl j c Hj) as [Hj'|[-> ->]], (Hl k c' Hk) as [Hk'|[-> ->]].
    + by apply (ci_two _ _ I j k).
    + apply Hpair.
    + apply Hpair.
    + done.
  - apply I.
  - apply I.
  - rewrite count_if_app, (ci_count _ _ I). by rewrite N.add_0_r.
  - intros Hx. destruct (ci_exposed _ _ I Hx) as [[Hr Hall]|(j & c & Hj & Hf & Hp)].
    + left. split; [done|]. intros j c Hj. destruct (Hl j c Hj) as [Hj'|[_ ->]]; [by apply (Hall j)|].
      destruct Hpc as [-> |[-> | ->]]; by split.
    + right. exists j, c. split; [by apply lookup_app_l_Some|done].
Qed.

Lemma ctl_step_inv s s' :
  N.of_nat (length (cs_calls s')) < u64_modulus -> ctl_inv (cs_native s) (cs_calls s) -> ctl_step s s' ->
  ctl_inv (cs_native s') (cs_calls s').
Proof.
  intros Hsmall I Hstep. destruct Hstep; cbn in *; rewrite ?length_insert in Hsmall.
  - by apply spawn_inv.
  - by eapply tracker_step_inv.
  - by eapply domain_step_inv.
  - by eapply native_step_inv.
  - by eapply admit_step_inv.
  - by eapply ordinary_step_inv.
  - by eapply sessions_inv.
Qed.

Lemma ctl_step_length s s' : ctl_step s s' -> (length (cs_calls s) <= length (cs_calls s'))%nat.
Proof. intros []; cbn; rewrite ?length_insert, ?length_app; cbn; lia. Qed.

Lemma ctl_reachable_inv s :
  ctl_reachable s -> N.of_nat (length (cs_calls s)) < u64_modulus -> ctl_inv (cs_native s) (cs_calls s).
Proof.
  intros Hr. unfold ctl_reachable in Hr. revert s Hr. apply (rtc_ind_r (fun s => N.of_nat (length (cs_calls s)) < u64_modulus ->
    ctl_inv (cs_native s) (cs_calls s))).
  - intros _. by split.
  - intros s s' _ Hstep IH Hsmall. eapply ctl_step_inv; [done| |done]. apply IH.
    pose proof (ctl_step_length _ _ Hstep). lia.
Qed.

(** *** Running a schedule *)

Inductive CtlAct := ActSpawn (pc : CtlPc) | ActStep (i : nat) (ch : CtlChoice).

Definition spawnable (pc : CtlPc) : bool := match pc with InitCheckFailed | FinBegin | OrdAdmit => true | _ => false end.
Definition lock_free (writing : bool) (cs : list CtlCall) : bool :=
  forallb (fun c => negb (pc_writes (ct_pc c)) && negb (writing && pc_reads (ct_pc c))) cs.

Definition ctl_act (a : CtlAct) (s : CtlSystem) : option CtlSystem :=
  let '(MkCtlSystem d cs) := s in
  match a with
  | ActSpawn pc => if spawnable pc then Some (MkCtlSystem d (cs ++ [MkCtlCall pc None false])) else None
  | ActStep i ch =>
      c ← cs !! i;
      '(d, c) ← tracker_step d c
        ∪ (if lock_free true (take i cs ++ drop (S i) cs) then domain_step d c else None)
        ∪ native_step ch d c ∪ (if lock_free false cs then admit_step d c else None) ∪ ordinary_step d c;
      Some (MkCtlSystem d (<[i := c]> cs))
  end.

Fixpoint ctl_run (acts : list CtlAct) (s : CtlSystem) : option CtlSystem :=
  match acts with
  | [] => Some s
  | a :: acts => s ← ctl_act a s; ctl_run acts s
  end.

Lemma lock_free_at w cs c : lock_free w cs = true -> c ∈ cs -> pc_writes (ct_pc c) = false /\ (w = true -> pc_reads (ct_pc c) = false).
Proof.
  unfold lock_free. intros Hf Hc. apply list_elem_of_In in Hc. rewrite forallb_forall in Hf. specialize (Hf c Hc).
  apply andb_true_iff in Hf as [H1 H2]. apply negb_true_iff in H1, H2. split; [done|]. by intros ->.
Qed.

Lemma lock_free_write i cs : lock_free true (take i cs ++ drop (S i) cs) = true -> write_free i cs.
Proof.
  intros Hf j c Hne Hj. destruct (lock_free_at _ _ c Hf) as [H1 H2]; [|auto]. apply elem_of_app.
  destruct (decide (j < i)%nat).
  - left. apply list_elem_of_lookup. exists j. by rewrite lookup_take_lt.
  - right. apply list_elem_of_lookup. exists (j - S i)%nat. rewrite lookup_drop. rewrite <- Hj. f_equal. lia.
Qed.

Lemma ctl_act_step a s s' : ctl_act a s = Some s' -> ctl_step s s'.
Proof.
  destruct s as [d cs], a as [pc|i ch]; unfold ctl_act.
  - destruct (spawnable pc) eqn:Hs; intros [= <-]. constructor. destruct pc; auto; done.
  - destruct (cs !! i) as [c|] eqn:Hi; cbn [mbind option_bind]; [|done].
    match goal with |- (?m ≫= _) = _ -> _ => destruct m as [[d1 c1]|] eqn:Em end; [|done]. intros [= <-].
    repeat (apply union_Some in Em as [Em|[_ Em]]).
    + by eapply ctl_tracker.
    + case_match eqn:Hw; [|done]. eapply ctl_domain; [done|by apply lock_free_write, Hw|done].
    + by eapply ctl_native.
    + case_match eqn:Hr; [|done]. eapply ctl_admit; [done| |done]. intros j cj Hj.
      apply (lock_free_at _ _ cj Hr). by apply list_elem_of_lookup_2 in Hj.
    + by eapply ctl_ordinary.
Qed.

Lemma ctl_run_reachable acts s : ctl_run acts (MkCtlSystem LifecycleDomain_new []) = Some s -> ctl_reachable s.
Proof.
  unfold ctl_reachable. generalize (MkCtlSystem LifecycleDomain_new []) as s0.
  induction acts as [|a acts IH]; intros s0; cbn; [by intros [= ->]|].
  destruct (ctl_act a s0) as [s1|] eqn:Ea; cbn; [|done]. intros Hr. eapply rtc_l; [by eapply ctl_act_step|by apply IH].
Qed.

(** A module initialized, used by an ordinary call, and finalized. *)
Definition ctl_demo : list CtlAct :=
  ActSpawn InitCheckFailed :: replicate 15 (ActStep 0 CtlOk) ++
  ActSpawn OrdAdmit :: replicate 2 (ActStep 1 CtlOk) ++
  ActSpawn FinBegin :: replicate 10 (ActStep 2 CtlOk).
Definition ctl_demo_end : CtlSystem :=
  default (MkCtlSystem LifecycleDomain_new []) (ctl_run ctl_demo (MkCtlSystem LifecycleDomain_new [])).
Definition ctl_demo_held : CtlSystem :=
  default (MkCtlSystem LifecycleDomain_new []) (ctl_run (take 18 ctl_demo) (MkCtlSystem LifecycleDomain_new [])).

(** ** The theorems *)

(** C33: Whatever initialize, finalize and ordinary calls have been interleaved,
    once every call has returned the tracker lets the slot be released only
    if no native initialize has run since the last successful native
    finalize, and only with no session left open: a module that may still be
    initialized poisons the slot instead. *)
Theorem release_is_quiescent (s : CtlSystem) :
  ctl_reachable s -> N.of_nat (length (cs_calls s)) < u64_modulus ->
  (forall i c, cs_calls s !! i = Some c -> exists r, ct_pc c = CtlDone r) ->
  retirement_decision (trk (cs_native s)) = Release ->
  ~ exposed (cs_native s) /\ open_sessions (trk (cs_native s)) = 0.
Proof.
  intros Hr Hsmall Hdone Hrel. pose proof (ctl_reachable_inv s Hr Hsmall) as I.
  unfold retirement_decision in Hrel. destruct (N.eqb_spec (open_sessions (trk (cs_native s))) 0); [|by rewrite andb_false_r in Hrel].
  split; [|done]. intros Hx. destruct (ci_inits _ _ I _ Hx) as [_ Ha].
  destruct (ci_exposed _ _ I Hx) as [[Hs _]|(i & c & Hi & _ & Hp)].
  - rewrite Ha in Hrel. destruct Hs as [Hs|Hs]; rewrite Hs in Hrel; cbn in Hrel;
      repeat (rewrite ?andb_false_r, ?orb_false_r in Hrel; cbn in Hrel); done.
  - destruct (Hdone i c Hi) as [r Hpc]. by rewrite Hpc in Hp.
Qed.

Lemma release_is_quiescent_witness :
  retirement_decision (trk (cs_native ctl_demo_end)) = Release /\ ~ exposed (cs_native ctl_demo_end).
Proof.
  split; [by vm_compute|]. refine (proj1 (release_is_quiescent ctl_demo_end _ _ _ _)).
  - apply (ctl_run_reachable ctl_demo). by vm_compute.
  - by vm_compute.
  - intros i c Hi. vm_compute in Hi. do 3 (destruct i as [|i]; [injection Hi as <-; by eexists|]). discriminate.
  - by vm_compute.
Defined.

(** An ordinary call that holds its admission guard sees the module open at
    the epoch it was admitted under, and no finalize is anywhere between
    sealing the domain and publishing its outcome. *)
Theorem ordinary_excludes_finalize (s : CtlSystem) (i j : nat) (c c' : CtlCall) (e : N) :
  ctl_reachable s -> N.of_nat (length (cs_calls s)) < u64_modulus ->
  cs_calls s !! i = Some c -> ct_pc c = OrdHeld e -> cs_calls s !! j = Some c' ->
  dm_state (cs_native s) = ModOpen /\ dm_epoch (cs_native s) = e /\ sealed (ct_pc c') = None /\ pc_writes (ct_pc c') = false.
Proof.
  intros Hr Hsmall Hi Hpc Hj. pose proof (ctl_reachable_inv s Hr Hsmall) as I.
  destruct (ok_ordinary _ _ (ci_calls _ _ I i _ Hi) e Hpc) as [Ho He]. split_and!; [done..| |].
  - destruct (sealed (ct_pc c')) as [[e' st]|] eqn:Hs; [exfalso|done].
    destruct (ok_sealed _ _ (ci_calls _ _ I j _ Hj) e' st Hs) as [_ Hst]. destruct (ct_pc c'); cbn in *; congruence.
  - destruct (pc_writes (ct_pc c')) eqn:Hw; [|done]. destruct (decide (i = j)) as [<-|Hne].
    + rewrite Hi in Hj. injection Hj as <-. by rewrite Hpc in Hw.
    + destruct (two_lock _ _ _ (ci_two _ _ I j i _ _ ltac:(congruence) Hj Hi) Hw) as [_ Hx]. by rewrite Hpc in Hx.
Qed.

Lemma ordinary_excludes_finalize_witness : dm_state (cs_native ctl_demo_held) = ModOpen /\ dm_epoch (cs_native ctl_demo_held) = 2.
Proof.
  destruct (ordinary_excludes_finalize ctl_demo_held 1 0 (MkCtlCall (OrdHeld 2) None false)
    (MkCtlCall (CtlDone (Ok tt)) (Some 0) true) 2) as (H1 & H2 & _).
  - apply (ctl_run_reachable (take 18 ctl_demo)). by vm_compute.
  - by vm_compute.
  - by vm_compute.
  - done.
  - by vm_compute.
  - by split.
Defined.
