(* ===== verification/AuditChain.v ===== *)
(** * The audit log: records, hash chain and verifier

    Models [crates/audit/src/record.rs], [chain.rs], [sign.rs] (the shapes)
    and [verify.rs]: the writer's [ChainState::append], the streaming replay,
    the evaluation of signed checkpoints and of the anchor, and [verify_dir].

    SHA-256, the JSON serializer and Ed25519 are code of other crates: they
    are operations of the interface [AuditCodec], with the one law the
    tamper-evidence argument needs in [AuditCodecLaws].  A directory is its
    listing, each file a list of lines in which [None] is a line that cannot
    be read. *)

From S2P Require Import Prelude Text.
Open Scope N_scope.

(** ** Records *)

Definition AUDIT_SCHEMA_VERSION : N := 2.
Definition GAP_SENTINEL_METHOD : string := "__AUDIT_GAP__".

Inductive EventClass := Auth | KeyMgmt | Admin | DataPlane | SystemClass | Deny.

#[export] Instance EventClass_eq_dec : EqDecision EventClass.
Proof. solve_decision. Defined.

Definition fail_closed (c : EventClass) : bool :=
  match c with DataPlane => false | _ => true end.

Record AuditRecord := MkAuditRecord {
  schema_version : N;
  ar_seq : N;
  ts_unix_ms : N;
  ts_monotonic_ns : N;
  prev_hash : string;
  request_id : string;
  ar_identity : option string;
  ar_method : string;
  ar_class : EventClass;
  ar_slot : option N;
  ar_session : option N;
  object_ref : option string;
  ar_ck_rv : N;
  latency_us : N;
  dropped_count : option N;
}.
#[export] Instance AuditRecord_eta : Eta AuditRecord := fun r =>
  MkAuditRecord (schema_version r) (ar_seq r) (ts_unix_ms r) (ts_monotonic_ns r) (prev_hash r)
    (request_id r) (ar_identity r) (ar_method r) (ar_class r) (ar_slot r) (ar_session r)
    (object_ref r) (ar_ck_rv r) (latency_us r) (dropped_count r).

#[export] Instance AuditRecord_eq_dec : EqDecision AuditRecord.
Proof. solve_decision. Defined.

Definition sentinel_dropped_count (r : AuditRecord) : option N :=
  if bool_decide (ar_method r = GAP_SENTINEL_METHOD) && bool_decide (ar_class r = SystemClass)
  then dropped_count r else None.

(** ** Checkpoints and the anchor *)

Record Checkpoint := MkCheckpoint {
  cp_seq : N;
  chain_head_hash : string;
  cp_ts_unix_ms : N;
  cp_record_count : N;
}.

Record CheckpointLine := MkCheckpointLine { checkpoint : Checkpoint; signature : string }.

Record AnchorFile := MkAnchorFile { anchor_last_hash : string; anchor_last_seq : N }.

(** ** The foreign operations *)

(** [serialize] is [serde_json::to_vec] of a record, [sha256_hex] the
    hex-encoded digest of a byte string, the [parse_*] functions are
    [serde_json::from_str] at the three line formats, [parse_public_key] and
    [verify_signature] are the Ed25519 verifier. *)
Class AuditCodec := {
  VerifyingKey : Type;
  serialize : AuditRecord -> string;
  sha256_hex : string -> string;
  parse_record : string -> option AuditRecord;
  parse_checkpoint : string -> option CheckpointLine;
  parse_anchor : string -> option AnchorFile;
  parse_public_key : string -> option VerifyingKey;
  verify_signature : VerifyingKey -> Checkpoint -> string -> bool;
}.

(** A serialized record determines the record, and is never a proper suffix of
    another one: a JSON object ends only at its own closing brace, and the
    quotes of a nested record text would be escaped. *)
Class AuditCodecLaws `{AC : AuditCodec} := {
  serialize_suffix_free q r r' : q +:+ serialize r = serialize r' -> q = EmptyString /\ r = r';
}.

(** ** The hash chain *)

Definition GENESIS_HASH : string := "0000000000000000000000000000000000000000000000000000000000000000".

Section chain.
Context `{AC : AuditCodec}.

Definition record_hash (prev_hash_hex : string) (rec : AuditRecord) : string :=
  sha256_hex (prev_hash_hex +:+ serialize rec).

Record ChainState := MkChainState { last_hash : string; last_seq : N }.

Definition ChainState_genesis : ChainState := MkChainState GENESIS_HASH 0.

(** [ChainState::append]: the record as written, and the new tip. *)
Definition ChainState_append (rec : AuditRecord) (st : ChainState) : AuditRecord * ChainState :=
  let rec := rec <| ar_seq := last_seq st |> <| prev_hash := last_hash st |> in
  (rec, MkChainState (record_hash (last_hash st) rec) (wrapping_add64 (last_seq st) 1)).

Fixpoint append_all (recs : list AuditRecord) (st : ChainState) : list AuditRecord * ChainState :=
  match recs with
  | [] => ([], st)
  | r :: recs =>
      let '(r, st) := ChainState_append r st in
      let '(rs, st) := append_all recs st in (r :: rs, st)
  end.
End chain.

(** ** Streaming replay *)

Definition MAX_VERIFY_GAPS : N := 10000.

Record StreamReplay := MkStreamReplay {
  needed : gset N;
  sr_records : N;
  sr_first_seq : N;
  sr_last_seq : N;
  sr_links_ok : bool;
  sr_unordered : bool;
  expected_prev : option string;
  prev_seq : option N;
  sr_gaps : list N;
  missing_total : N;
  sr_duplicates : list N;
  dup_values_total : N;
  sr_seq_to_hash : gmap N string;
  sr_seq_to_ts : gmap N N;
  sr_dropped_records : N;
}.
#[export] Instance StreamReplay_eta : Eta StreamReplay := fun s =>
  MkStreamReplay (needed s) (sr_records s) (sr_first_seq s) (sr_last_seq s) (sr_links_ok s)
    (sr_unordered s) (expected_prev s) (prev_seq s) (sr_gaps s) (missing_total s) (sr_duplicates s)
    (dup_values_total s) (sr_seq_to_hash s) (sr_seq_to_ts s) (sr_dropped_records s).

Record ReplayOutcome := MkReplayOutcome {
  ro_records : N;
  ro_first_seq : N;
  ro_last_seq : N;
  ro_links_ok : bool;
  contiguous : bool;
  ro_unordered : bool;
  ro_gaps : list N;
  ro_gaps_truncated : bool;
  ro_duplicates : list N;
  ro_duplicates_truncated : bool;
  ro_seq_to_hash : gmap N string;
  ro_seq_to_ts : gmap N N;
  ro_head : string;
  ro_dropped_records : N;
}.

Definition StreamReplay_new (needed : gset N) : StreamReplay :=
  MkStreamReplay needed 0 0 0 true false None None [] 0 [] 0 ∅ ∅ 0.

(** The sampling loop: at most [room] further samples from [s] below [limit]. *)
Fixpoint sample_gaps (room : nat) (s limit : N) : list N :=
  match room with
  | O => []
  | S room => if s <? limit then s :: sample_gaps room (s + 1) limit else []
  end.

(** The sequence analysis of [push] for a stream-adjacent pair. *)
Definition push_pair (prev seq : N) (r : StreamReplay) : StreamReplay :=
  if seq <? prev then r <| sr_unordered := true |>
  else if seq =? prev then
    if bool_decide (last (sr_duplicates r) = Some prev) then r
    else
      let r := r <| dup_values_total := saturating_add64 (dup_values_total r) 1 |> in
      if N.of_nat (length (sr_duplicates r)) <? MAX_VERIFY_GAPS
      then r <| sr_duplicates := sr_duplicates r ++ [prev] |> else r
  else
    let missing := seq - prev - 1 in
    if 0 <? missing then
      r <| missing_total := saturating_add64 (missing_total r) missing |>
        <| sr_gaps := sr_gaps r ++
             sample_gaps (N.to_nat (MAX_VERIFY_GAPS - N.of_nat (length (sr_gaps r)))) (prev + 1) seq |>
    else r.

Section replay.
Context `{AC : AuditCodec}.

Definition StreamReplay_push (r : StreamReplay) (rec : AuditRecord) : StreamReplay :=
  let r :=
    if sr_records r =? 0 then
      r <| sr_first_seq := ar_seq rec |> <| expected_prev := Some (prev_hash rec) |>
    else match prev_seq r with
         | Some prev => push_pair prev (ar_seq rec) r
         | None => r
         end in
  let r := r <| prev_seq := Some (ar_seq rec) |> <| sr_last_seq := ar_seq rec |>
             <| sr_records := sr_records r + 1 |> in
  let expected := default EmptyString (expected_prev r) in
  let r := if bool_decide (prev_hash rec = expected) then r else r <| sr_links_ok := false |> in
  let h := record_hash expected rec in
  let r := if bool_decide (ar_seq rec ∈ needed r)
           then r <| sr_seq_to_hash := <[ar_seq rec := h]> (sr_seq_to_hash r) |>
                  <| sr_seq_to_ts := <[ar_seq rec := ts_unix_ms rec]> (sr_seq_to_ts r) |>
           else r in
  let r := r <| expected_prev := Some h |> in
  match sentinel_dropped_count rec with
  | Some n => r <| sr_dropped_records := saturating_add64 (sr_dropped_records r) n |>
  | None => r
  end.

Definition StreamReplay_finish (r : StreamReplay) : ReplayOutcome :=
  {| ro_records := sr_records r; ro_first_seq := sr_first_seq r; ro_last_seq := sr_last_seq r;
     ro_links_ok := sr_links_ok r; contiguous := (missing_total r =? 0); ro_unordered := sr_unordered r;
     ro_gaps := sr_gaps r;
     ro_gaps_truncated := (N.of_nat (length (sr_gaps r)) <? missing_total r);
     ro_duplicates := sr_duplicates r;
     ro_duplicates_truncated := (N.of_nat (length (sr_duplicates r)) <? dup_values_total r);
     ro_seq_to_hash := sr_seq_to_hash r; ro_seq_to_ts := sr_seq_to_ts r;
     ro_head := default GENESIS_HASH (expected_prev r);
     ro_dropped_records := sr_dropped_records r |}.

(** The streaming replay of a record sequence. *)
Definition replay (needed : gset N) (rs : list AuditRecord) : StreamReplay :=
  foldl StreamReplay_push (StreamReplay_new needed) rs.
End replay.

(** ** Errors and files *)

(** [AuditError] with its location (file, 1-based line) in place of the text. *)
Inductive AuditError :=
| Malformed (at_ : string) (line_no : N)
| BadSignature
| Io (at_ : string) (line_no : N).

(** A file as [stream_lines] sees it: [None] cannot be opened; a line [None]
    fails to read. *)
Abbreviation FileView := (option (list (option string))).

(** A directory: its listing in the order [read_dir] yields it ([None]: the
    directory is unreadable), the sidecar and the anchor. *)
Record AuditDir := MkAuditDir {
  entries : option (list (string * FileView));
  sidecar_file : option FileView;
  anchor_file : option (option string);
}.

Definition SIDECAR_NAME : string := "audit.checkpoints.jsonl".
Definition ANCHOR_NAME : string := "audit.anchor.json".

(** *** File names *)

Definition is_audit_log (name : string) : bool :=
  if bool_decide (name = "audit.jsonl") then true
  else match (rest ← strip_prefix "audit." name; strip_suffix ".jsonl" rest) with
       | Some digits => negb (bool_decide (digits = EmptyString)) && all_digits digits
       | None => false
       end.

(** The sort key: active file last, then length, then bytes. *)
Definition log_file_order_key (name : string) : N * N * string :=
  if bool_decide (name = "audit.jsonl") then (1, 0, EmptyString)
  else
    let digits := default EmptyString (rest ← strip_prefix "audit." name; strip_suffix ".jsonl" rest) in
    (0, N.of_nat (String.length digits), digits).

Definition key_compare (k1 k2 : N * N * string) : comparison :=
  match k1.1.1 ?= k2.1.1 with
  | Eq => match k1.1.2 ?= k2.1.2 with Eq => str_compare k1.2 k2.2 | c => c end
  | c => c
  end.

(** [sort_by] is stable; insertion after the last key not greater. *)
Fixpoint insert_by_key {A} (x : string * A) (l : list (string * A)) : list (string * A) :=
  match l with
  | [] => [x]
  | y :: l' =>
      match key_compare (log_file_order_key x.1) (log_file_order_key y.1) with
      | Lt => x :: y :: l'
      | _ => y :: insert_by_key x l'
      end
  end.

Definition sort_logs {A} (l : list (string * A)) : list (string * A) :=
  foldl (fun acc x => insert_by_key x acc) [] l.

Definition collect_log_files (d : AuditDir) : Result (list (string * FileView)) AuditError :=
  match entries d with
  | None => Err (Io EmptyString 0)
  | Some es => Ok (sort_logs (filter (fun e => is_audit_log e.1 = true) es))
  end.

(** ** The verifier *)

Section verify.
Context `{AC : AuditCodec}.

Record CheckpointSidecar := MkSidecar {
  sc_lines : list CheckpointLine;
  sc_verifier : option VerifyingKey;
  sc_signature_checked : bool;
  sc_missing : bool;
}.

Definition needed_seqs (s : CheckpointSidecar) : gset N :=
  list_to_set ((fun cl => cp_seq (checkpoint cl)) <$> sc_lines s).

Fixpoint parse_sidecar_lines (line_no : N) (ls : list (option string)) : Result (list CheckpointLine) AuditError :=
  match ls with
  | [] => Ok []
  | None :: _ => Err (Io SIDECAR_NAME line_no)
  | Some line :: ls =>
      if bool_decide (line = EmptyString) then parse_sidecar_lines (line_no + 1) ls
      else match parse_checkpoint line with
           | None => Err (Malformed SIDECAR_NAME line_no)
           | Some cl => let? rest := parse_sidecar_lines (line_no + 1) ls in Ok (cl :: rest)
           end
  end.

Definition read_checkpoint_sidecar (d : AuditDir) (public_key_hex : option string)
  : Result CheckpointSidecar AuditError :=
  match sidecar_file d with
  | None => Ok (MkSidecar [] None (bool_decide (is_Some public_key_hex)) true)
  | Some file =>
      let? verifier :=
        match public_key_hex with
        | Some pub_hex => match parse_public_key pub_hex with Some k => Ok (Some k) | None => Err BadSignature end
        | None => Ok None
        end in
      match file with
      | None => Err (Io SIDECAR_NAME 0)
      | Some ls =>
          let? lines := parse_sidecar_lines 1 ls in
          Ok (MkSidecar lines verifier (bool_decide (is_Some verifier)) false)
      end
  end.

(** The verdict on one in-range line. *)
Definition checkpoint_ok (v : option VerifyingKey) (seq_to_hash : gmap N string) (seq_to_ts : gmap N N)
    (cl : CheckpointLine) : bool :=
  let cp := checkpoint cl in
  let sig_ok := match v with Some k => verify_signature k cp (signature cl) | None => true end in
  let count_ok := (cp_record_count cp - 1 <=? cp_seq cp) in
  let ts_ok := match seq_to_ts !! cp_seq cp with Some ts => ts <=? cp_ts_unix_ms cp | None => false end in
  let hash_ok := bool_decide (seq_to_hash !! cp_seq cp = Some (chain_head_hash cp)) in
  sig_ok && (hash_ok && count_ok && ts_ok).

Definition in_range (records_present : bool) (first_seq last_seq : N) (cl : CheckpointLine) : bool :=
  negb (negb records_present || (cp_seq (checkpoint cl) <? first_seq) || (last_seq <? cp_seq (checkpoint cl))).

Definition eval_checkpoints (sidecar : CheckpointSidecar) (first_seq last_seq : N) (records_present : bool)
    (seq_to_hash : gmap N string) (seq_to_ts : gmap N N) : N * N * bool :=
  if sc_missing sidecar then
    if sc_signature_checked sidecar && records_present then (0, 1, true)
    else (0, 0, sc_signature_checked sidecar)
  else
    let '(verified, failed, evaluated) :=
      foldl (fun '(verified, failed, evaluated) cl =>
        if in_range records_present first_seq last_seq cl then
          if checkpoint_ok (sc_verifier sidecar) seq_to_hash seq_to_ts cl
          then (verified + 1, failed, evaluated + 1)
          else (verified, failed + 1, evaluated + 1)
        else (verified, failed, evaluated)) (0, 0, 0) (sc_lines sidecar) in
    let failed := if bool_decide (is_Some (sc_verifier sidecar)) && records_present && (evaluated =? 0)
                  then failed + 1 else failed in
    (verified, failed, sc_signature_checked sidecar).

Definition check_anchor (d : AuditDir) (records_empty : bool) (last_seq : N) (head : string)
  : Result bool AuditError :=
  match anchor_file d with
  | None => Ok records_empty
  | Some None => Err (Io ANCHOR_NAME 0)
  | Some (Some data) =>
      match parse_anchor data with
      | None => Err (Malformed ANCHOR_NAME 0)
      | Some anchor =>
          if records_empty
          then Ok (bool_decide (anchor_last_hash anchor = GENESIS_HASH) && (anchor_last_seq anchor =? 0))
          else match checked_add64 last_seq 1 with
               | None => Err (Malformed EmptyString 0)
               | Some next_seq =>
                   Ok (bool_decide (anchor_last_hash anchor = head) && (anchor_last_seq anchor =? next_seq))
               end
      end
  end.

(** [stream_file_records] and the body of the replay loop, on one file. *)
Fixpoint replay_lines (path : string) (line_no : N) (ls : list (option string)) (r : StreamReplay)
  : Result StreamReplay AuditError :=
  match ls with
  | [] => Ok r
  | None :: _ => Err (Io path line_no)
  | Some line :: ls =>
      if bool_decide (line = EmptyString) then replay_lines path (line_no + 1) ls r
      else match parse_record line with
           | None => Err (Malformed path line_no)
           | Some rec =>
               if bool_decide (schema_version rec = AUDIT_SCHEMA_VERSION)
               then replay_lines path (line_no + 1) ls (StreamReplay_push r rec)
               else Err (Malformed path line_no)
           end
  end.

Fixpoint replay_files (fs : list (string * FileView)) (r : StreamReplay) : Result StreamReplay AuditError :=
  match fs with
  | [] => Ok r
  | (path, None) :: _ => Err (Io path 0)
  | (path, Some ls) :: fs => let? r := replay_lines path 1 ls r in replay_files fs r
  end.

Record VerifyReport := MkVerifyReport {
  vr_files : N;
  vr_records : N;
  vr_first_seq : N;
  vr_last_seq : N;
  chain_ok : bool;
  vr_unordered : bool;
  vr_gaps : list N;
  vr_gaps_truncated : bool;
  duplicate_seqs : list N;
  vr_duplicates_truncated : bool;
  checkpoints_verified : N;
  checkpoints_failed : N;
  vr_signature_checked : bool;
  head_matches_anchor : bool;
  vr_dropped_records : N;
}.

(** The verdict of [verify_dir] once the records are replayed. *)
Definition verify_outcome (d : AuditDir) (sidecar : CheckpointSidecar) (files : N) (outcome : ReplayOutcome)
  : Result VerifyReport AuditError :=
  let '(verified, failed, signature_checked) :=
    eval_checkpoints sidecar (ro_first_seq outcome) (ro_last_seq outcome) (0 <? ro_records outcome)
      (ro_seq_to_hash outcome) (ro_seq_to_ts outcome) in
  let? head_ok := check_anchor d (ro_records outcome =? 0) (ro_last_seq outcome) (ro_head outcome) in
  Ok {| vr_files := files; vr_records := ro_records outcome;
        vr_first_seq := ro_first_seq outcome; vr_last_seq := ro_last_seq outcome;
        chain_ok := ro_links_ok outcome && contiguous outcome &&
          bool_decide (ro_duplicates outcome = []) && negb (ro_duplicates_truncated outcome) &&
          negb (ro_unordered outcome) && (failed =? 0) && head_ok;
        vr_unordered := ro_unordered outcome; vr_gaps := ro_gaps outcome;
        vr_gaps_truncated := ro_gaps_truncated outcome; duplicate_seqs := ro_duplicates outcome;
        vr_duplicates_truncated := ro_duplicates_truncated outcome;
        checkpoints_verified := verified; checkpoints_failed := failed;
        vr_signature_checked := signature_checked; head_matches_anchor := head_ok;
        vr_dropped_records := ro_dropped_records outcome |}.

Definition verify_dir (d : AuditDir) (public_key_hex : option string) : Result VerifyReport AuditError :=
  let? log_files := collect_log_files d in
  let? sidecar := read_checkpoint_sidecar d public_key_hex in
  let? r := replay_files log_files (StreamReplay_new (needed_seqs sidecar)) in
  verify_outcome d sidecar (N.of_nat (length log_files)) (StreamReplay_finish r).
End verify.
