(* ===== verification/AuditProps.v ===== *)
(** * The audit log: what a passing verification means

    The specification of [verify_dir] ([verify_dir_spec]), the two
    tamper-evidence theorems, the completeness of the verifier on logs the
    writer produced, and the gap analysis. *)

From S2P Require Import Prelude Text AuditChain.
Open Scope N_scope.

Section replay_lemmas.
Context `{AC : AuditCodec}.

(** ** The replayed chain *)

Definition chain_head (p : string) (rs : list AuditRecord) : string := foldl record_hash p rs.

Fixpoint linked (p : string) (rs : list AuditRecord) : bool :=
  match rs with
  | [] => true
  | r :: rs => bool_decide (prev_hash r = p) && linked (record_hash p r) rs
  end.

(** The baseline: the stored [prev_hash] of the first retained record. *)
Definition baseline (rs : list AuditRecord) : string :=
  match rs with r :: _ => prev_hash r | [] => GENESIS_HASH end.

Definition first_of (rs : list AuditRecord) : N := match rs with r :: _ => ar_seq r | [] => 0 end.
Definition last_of (rs : list AuditRecord) : N := match last rs with Some r => ar_seq r | None => 0 end.

(** Sequence numbers count up by one. *)
Definition consecutive (rs : list AuditRecord) : Prop :=
  forall i r, rs !! i = Some r -> ar_seq r = first_of rs + N.of_nat i.

Lemma chain_head_snoc p rs r : chain_head p (rs ++ [r]) = record_hash (chain_head p rs) r.
Proof. unfold chain_head. by rewrite foldl_app. Qed.

Lemma linked_snoc p rs r :
  linked p (rs ++ [r]) = linked p rs && bool_decide (prev_hash r = chain_head p rs).
Proof.
  revert p. induction rs as [|r' rs IH]; intros p; cbn; [by rewrite andb_true_r|].
  rewrite IH. by rewrite andb_assoc.
Qed.

Lemma baseline_snoc rs r : rs <> [] -> baseline (rs ++ [r]) = baseline rs.
Proof. by destruct rs. Qed.

Lemma first_of_snoc rs r : rs <> [] -> first_of (rs ++ [r]) = first_of rs.
Proof. by destruct rs. Qed.

Lemma last_of_snoc rs r : last_of (rs ++ [r]) = ar_seq r.
Proof. unfold last_of. by rewrite last_snoc. Qed.

Lemma consecutive_last rs : rs <> [] -> consecutive rs -> last_of rs + 1 = first_of rs + N.of_nat (length rs).
Proof.
  intros Hne Hc. destruct (exists_last Hne) as (rs' & r & ->). rewrite last_of_snoc.
  rewrite (Hc (length rs') r) by (by apply list_lookup_middle). rewrite length_app. cbn. lia.
Qed.

Lemma consecutive_snoc rs r :
  consecutive (rs ++ [r]) <-> consecutive rs /\ (rs = [] \/ ar_seq r = last_of rs + 1).
Proof.
  destruct (decide (rs = [])) as [->|Hne].
  - split; [|intros _ i r' Hi; cbn in *; apply list_lookup_singleton_Some in Hi as [-> <-]; lia].
    intros _. split; [done|by left].
  - split.
    + intros Hc. assert (consecutive rs) as Hrs.
      { intros i r' Hi. rewrite <- (first_of_snoc rs r Hne). apply Hc.
        rewrite lookup_app_l; [done|by eapply lookup_lt_Some]. }
      split; [done|right]. rewrite (consecutive_last rs Hne Hrs), <- (first_of_snoc rs r Hne).
      apply Hc. by apply list_lookup_middle.
    + intros [Hc [?|Hr]] i r' Hi; [done|]. rewrite (first_of_snoc rs r Hne).
      apply lookup_app_Some in Hi as [Hi|[Hge Hi]]; [by apply Hc|].
      apply list_lookup_singleton_Some in Hi as [Hi <-]. rewrite Hr, (consecutive_last rs Hne Hc). lia.
Qed.

(** ** The streaming state *)

Definition order_ok (st : StreamReplay) : Prop :=
  missing_total st = 0 /\ sr_duplicates st = [] /\ dup_values_total st = 0 /\ sr_unordered st = false.

(** The fields [push_pair] leaves alone. *)
Definition same_core (st st' : StreamReplay) : Prop :=
  needed st' = needed st /\ sr_records st' = sr_records st /\ sr_first_seq st' = sr_first_seq st /\
  sr_links_ok st' = sr_links_ok st /\ expected_prev st' = expected_prev st /\
  sr_seq_to_hash st' = sr_seq_to_hash st /\ sr_seq_to_ts st' = sr_seq_to_ts st.

Lemma push_pair_core prev seq st : same_core st (push_pair prev seq st).
Proof. unfold push_pair. repeat case_match; done. Qed.

Lemma push_pair_order prev seq st :
  order_ok (push_pair prev seq st) <-> order_ok st /\ seq = prev + 1.
Proof.
  unfold push_pair, order_ok, saturating_add64, u64_MAX.
  destruct (N.ltb_spec seq prev); [cbn; split; [intros (_ & _ & _ & ?); done|lia]|].
  destruct (N.eqb_spec seq prev) as [->|Hne].
  - split; [|lia]. case_bool_decide as Hl; cbn.
    + intros (_ & Hd & _). by rewrite Hd in Hl.
    + case_match; cbn; intros (_ & Hd & Ht & _); lia.
  - destruct (N.ltb_spec 0 (seq - prev - 1)); cbn.
    + split; [intros (? & _)|]; lia.
    + split; [intros Ho|intros [Ho _]]; intuition lia.
Qed.

(** One push after at least one record. *)
Lemma push_fields st rec :
  let st' := StreamReplay_push st rec in
  needed st' = needed st /\ sr_records st' = sr_records st + 1 /\
  sr_first_seq st' = (if sr_records st =? 0 then ar_seq rec else sr_first_seq st) /\
  sr_last_seq st' = ar_seq rec /\ prev_seq st' = Some (ar_seq rec) /\
  let expected := if sr_records st =? 0 then prev_hash rec else default EmptyString (expected_prev st) in
  expected_prev st' = Some (record_hash expected rec) /\
  sr_links_ok st' = sr_links_ok st && bool_decide (prev_hash rec = expected) /\
  sr_seq_to_hash st' = (if bool_decide (ar_seq rec ∈ needed st)
    then <[ar_seq rec := record_hash expected rec]> (sr_seq_to_hash st) else sr_seq_to_hash st) /\
  sr_seq_to_ts st' = (if bool_decide (ar_seq rec ∈ needed st)
    then <[ar_seq rec := ts_unix_ms rec]> (sr_seq_to_ts st) else sr_seq_to_ts st) /\
  (order_ok st' <-> order_ok (if sr_records st =? 0 then st
     else match prev_seq st with Some prev => push_pair prev (ar_seq rec) st | None => st end)).
Proof.
  cbn zeta. unfold StreamReplay_push.
  destruct (sr_records st =? 0) eqn:E; cbn.
  - repeat (case_bool_decide; cbn); destruct (sentinel_dropped_count rec); cbn;
      rewrite ?andb_true_r, ?andb_false_r; split_and!; try done; try lia; congruence.
  - destruct (prev_seq st) as [prev|];
      [pose proof (push_pair_core prev (ar_seq rec) st) as (H1 & H2 & H3 & H4 & H5 & H6 & H7);
       set (s2 := push_pair prev (ar_seq rec) st) in *; clearbody s2; cbn; rewrite H5|cbn];
      repeat (case_bool_decide; cbn); destruct (sentinel_dropped_count rec); cbn;
      rewrite ?andb_true_r, ?andb_false_r; split_and!; try congruence; try done.
    all: exfalso; cbn in *; rewrite H1 in *; tauto.
Qed.

(** The state after a non-empty replay. *)
Lemma replay_spec ns rs :
  rs <> [] ->
  let st := replay ns rs in
  needed st = ns /\ sr_records st = N.of_nat (length rs) /\
  sr_first_seq st = first_of rs /\ sr_last_seq st = last_of rs /\ prev_seq st = Some (last_of rs) /\
  expected_prev st = Some (chain_head (baseline rs) rs) /\
  sr_links_ok st = linked (baseline rs) rs /\
  (order_ok st <-> consecutive rs).
Proof.
  induction rs as [|r rs IH] using rev_ind; [done|]. intros _. cbn zeta.
  unfold replay. rewrite foldl_app. cbn [foldl]. fold (replay ns rs).
  pose proof (push_fields (replay ns rs) r) as (F1 & F2 & F3 & F4 & F5 & F6 & F7 & _ & _ & F8).
  rewrite F1, F2, F3, F4, F5, F6, F7, F8, last_of_snoc, chain_head_snoc, linked_snoc, consecutive_snoc, length_app.
  destruct (decide (rs = [])) as [->|Hne].
  - cbn. rewrite !bool_decide_true by done. split_and!; try done. unfold order_ok. cbn.
    split; [intros _|done]. split; [|by left]. intros i x Hi. done.
  - specialize (IH Hne) as (H1 & H2 & H3 & H4 & H5 & H6 & H7 & H8). cbn zeta in *.
    assert ((sr_records (replay ns rs) =? 0) = false) as Ez.
    { rewrite H2. apply N.eqb_neq. destruct rs; cbn; [done|lia]. }
    rewrite Ez, H1, H2, H3, H5, H6, H7, baseline_snoc, first_of_snoc, push_pair_order, H8 by done.
    cbn [default from_option]. split_and!; try done; [cbn; lia|].
    split; [intros [? ?]; split; [done|by right]|intros [? [?|?]]; done].
Qed.

Lemma consecutive_prefix rs r : consecutive (rs ++ [r]) -> consecutive rs.
Proof. by intros [? _]%consecutive_snoc. Qed.

(** For a checkpoint-bound sequence number the replay retains the head after
    its record and the record's time. *)
Lemma replay_retained ns rs i r :
  consecutive rs -> rs !! i = Some r -> ar_seq r ∈ ns ->
  sr_seq_to_hash (replay ns rs) !! ar_seq r = Some (chain_head (baseline rs) (take (S i) rs)) /\
  sr_seq_to_ts (replay ns rs) !! ar_seq r = Some (ts_unix_ms r).
Proof.
  induction rs as [|x rs IH] using rev_ind; [done|]. intros Hc Hi Hin.
  unfold replay. rewrite foldl_app. cbn [foldl]. fold (replay ns rs).
  pose proof (push_fields (replay ns rs) x) as (_ & _ & _ & _ & _ & _ & _ & F8 & F9 & _). cbn zeta in F8.
  assert (needed (replay ns rs) = ns) as Hn.
  { destruct (decide (rs = [])) as [->|Hne]; [done|]. by destruct (replay_spec ns rs Hne) as [? _]. }
  rewrite F8, F9, Hn. apply lookup_app_Some in Hi as [Hi|[Hge Hi]].
  - destruct (IH (consecutive_prefix _ _ Hc) Hi Hin) as [H1 H2].
    assert (ar_seq x <> ar_seq r) as Hneq.
    { pose proof (lookup_lt_Some _ _ _ Hi) as Hlt.
      rewrite (Hc (length rs) x), (Hc i r); [lia| |by apply list_lookup_middle].
      by rewrite lookup_app_l. }
    rewrite baseline_snoc by (intros ->; done). rewrite take_app_le by (apply lookup_lt_Some in Hi; lia).
    destruct (bool_decide (ar_seq x ∈ ns)); [|by split]. by rewrite !lookup_insert_ne.
  - apply list_lookup_singleton_Some in Hi as [Hi <-]. rewrite bool_decide_true by done.
    rewrite !lookup_insert_eq. split; [|done]. f_equal.
    rewrite take_ge by (rewrite length_app; cbn; lia). rewrite chain_head_snoc. f_equal.
    destruct (decide (rs = [])) as [->|Hne]; [done|].
    destruct (replay_spec ns rs Hne) as (_ & H2 & _ & _ & _ & H6 & _). cbn zeta in *.
    rewrite H2, H6, baseline_snoc by done.
    destruct (N.eqb_spec (N.of_nat (length rs)) 0) as [Hz|]; [|done]. destruct rs; [done|cbn in Hz; lia].
Qed.

(** ** The records of a directory *)

(** What the verifier reads: every non-empty line of every log file, oldest
    file first. *)
Fixpoint parse_lines (path : string) (line_no : N) (ls : list (option string)) : Result (list AuditRecord) AuditError :=
  match ls with
  | [] => Ok []
  | None :: _ => Err (Io path line_no)
  | Some line :: ls =>
      if bool_decide (line = EmptyString) then parse_lines path (line_no + 1) ls
      else match parse_record line with
           | None => Err (Malformed path line_no)
           | Some rec =>
               if bool_decide (schema_version rec = AUDIT_SCHEMA_VERSION)
               then let? rs := parse_lines path (line_no + 1) ls in Ok (rec :: rs)
               else Err (Malformed path line_no)
           end
  end.

Fixpoint parse_files (fs : list (string * FileView)) : Result (list AuditRecord) AuditError :=
  match fs with
  | [] => Ok []
  | (path, None) :: _ => Err (Io path 0)
  | (path, Some ls) :: fs =>
      let? rs := parse_lines path 1 ls in let? rest := parse_files fs in Ok (rs ++ rest)
  end.

Definition dir_records (d : AuditDir) : Result (list AuditRecord) AuditError :=
  let? fs := collect_log_files d in parse_files fs.

Lemma replay_lines_parse path n ls st :
  replay_lines path n ls st = let? rs := parse_lines path n ls in Ok (foldl StreamReplay_push st rs).
Proof.
  revert n st. induction ls as [|[line|] ls IH]; intros n st; [done| |done]. cbn.
  case_bool_decide; [apply IH|]. destruct (parse_record line) as [rec|]; [|done].
  case_bool_decide; [|done]. rewrite IH. by destruct (parse_lines path (n + 1) ls).
Qed.

Lemma replay_files_parse fs st :
  replay_files fs st = let? rs := parse_files fs in Ok (foldl StreamReplay_push st rs).
Proof.
  revert st. induction fs as [|[path [ls|]] fs IH]; intros st; [done| |done]. cbn.
  rewrite replay_lines_parse. destruct (parse_lines path 1 ls) as [rs|]; [|done]. cbn. rewrite IH.
  destruct (parse_files fs); [|done]. cbn. by rewrite foldl_app.
Qed.
End replay_lemmas.

(** ** The specification of the verifier *)

Section spec.
Context `{AC : AuditCodec}.

(** The anchor seals the records: absent or genesis for an empty log, the
    replayed head and the next sequence number otherwise. *)
Definition anchor_seals (d : AuditDir) (rs : list AuditRecord) : Prop :=
  match anchor_file d with
  | None => rs = []
  | Some None => False
  | Some (Some data) =>
      exists a, parse_anchor data = Some a /\
        ((rs = [] /\ a = MkAnchorFile GENESIS_HASH 0) \/
         (rs <> [] /\ a = MkAnchorFile (chain_head (baseline rs) rs) (last_of rs + 1)))
  end.

(** A checkpoint line binds to the record at its sequence number. *)
Definition binds (k : option VerifyingKey) (rs : list AuditRecord) (cl : CheckpointLine) : Prop :=
  let cp := checkpoint cl in
  (forall key, k = Some key -> verify_signature key cp (signature cl) = true) /\
  cp_record_count cp <= cp_seq cp + 1 /\
  exists i r, rs !! i = Some r /\ ar_seq r = cp_seq cp /\
    chain_head_hash cp = chain_head (baseline rs) (take (S i) rs) /\ ts_unix_ms r <= cp_ts_unix_ms cp.

Definition retained (rs : list AuditRecord) (cl : CheckpointLine) : Prop :=
  first_of rs <= cp_seq (checkpoint cl) <= last_of rs.

(** Every checkpoint of the retained range binds, and with a key at least one
    does. *)
Definition checkpoints_bind (s : CheckpointSidecar) (rs : list AuditRecord) : Prop :=
  (forall cl, cl ∈ sc_lines s -> rs <> [] -> retained rs cl -> binds (sc_verifier s) rs cl) /\
  (sc_signature_checked s = true -> rs <> [] -> exists cl, cl ∈ sc_lines s /\ retained rs cl).

Definition sound_log (d : AuditDir) (s : CheckpointSidecar) (rs : list AuditRecord) : Prop :=
  linked (baseline rs) rs = true /\ consecutive rs /\ checkpoints_bind s rs /\ anchor_seals d rs.

Lemma in_range_retained rs cl :
  rs <> [] -> in_range true (first_of rs) (last_of rs) cl = true <-> retained rs cl.
Proof.
  intros _. unfold in_range, retained. cbn.
  destruct (N.ltb_spec (cp_seq (checkpoint cl)) (first_of rs)), (N.ltb_spec (last_of rs) (cp_seq (checkpoint cl)));
    cbn; intuition (try lia; try done).
Qed.

Lemma consecutive_lookup rs s :
  consecutive rs -> rs <> [] -> first_of rs <= s <= last_of rs ->
  exists i r, rs !! i = Some r /\ ar_seq r = s.
Proof.
  intros Hc Hne Hs. pose proof (consecutive_last rs Hne Hc) as Hl.
  destruct (lookup_lt_is_Some_2 rs (N.to_nat (s - first_of rs))) as [r Hr]; [lia|].
  exists (N.to_nat (s - first_of rs)), r. split; [done|]. rewrite (Hc _ _ Hr). lia.
Qed.

Lemma checkpoint_ok_binds s rs cl :
  consecutive rs -> rs <> [] -> cl ∈ sc_lines s -> retained rs cl ->
  let st := replay (needed_seqs s) rs in
  checkpoint_ok (sc_verifier s) (sr_seq_to_hash st) (sr_seq_to_ts st) cl = true <-> binds (sc_verifier s) rs cl.
Proof.
  intros Hc Hne Hin Hr. cbn zeta.
  destruct (consecutive_lookup rs _ Hc Hne Hr) as (i & r & Hi & Hseq).
  destruct (replay_retained (needed_seqs s) rs i r Hc Hi) as [Hh Ht].
  { rewrite Hseq. unfold needed_seqs. apply elem_of_list_to_set, list_elem_of_fmap. by exists cl. }
  unfold checkpoint_ok, binds. rewrite Hseq in *. rewrite Hh, Ht.
  rewrite !andb_true_iff, bool_decide_eq_true, !N.leb_le. split.
  - intros (Hsig & (Hhash & Hcount) & Hts). split_and!; [|lia|].
    + intros key Hk. by rewrite Hk in Hsig.
    + exists i, r. split_and!; [done|done| |done]. congruence.
  - intros (Hsig & Hcount & i' & r' & Hi' & Hseq' & Hhash & Hts).
    assert (i' = i) as ->.
    { pose proof (Hc _ _ Hi). pose proof (Hc _ _ Hi'). lia. }
    assert (r' = r) as -> by congruence.
    split_and!; [|congruence|lia|lia]. destruct (sc_verifier s); [by apply Hsig|done].
Qed.

(** The counting loop of [eval_checkpoints]. *)
Lemma eval_loop (P Q : CheckpointLine -> bool) ls : forall v f e,
  let '(v', f', e') := foldl (fun '(v, f, e) cl =>
      if P cl then if Q cl then (v + 1, f, e + 1) else (v, f + 1, e + 1) else (v, f, e)) (v, f, e) ls in
  f <= f' /\ e <= e' /\
  (f' = f <-> forall cl, cl ∈ ls -> P cl = true -> Q cl = true) /\
  (e' = e <-> forall cl, cl ∈ ls -> P cl = false).
Proof.
  induction ls as [|c ls IH]; intros v f e; cbn.
  - split_and!; try lia; split; try done; intros _ cl Hcl; by apply not_elem_of_nil in Hcl.
  - assert (forall R : CheckpointLine -> Prop, (forall cl, cl ∈ c :: ls -> R cl) <-> R c /\ forall cl, cl ∈ ls -> R cl)
      as Hcons by (intros R; by rewrite <- !Forall_forall, Forall_cons).
    destruct (P c) eqn:EP; [destruct (Q c) eqn:EQ|].
    + specialize (IH (v + 1) f (e + 1)). destruct (foldl _ _ ls) as [[v' f'] e'].
      destruct IH as (H1 & H2 & H3 & H4). rewrite H3, !Hcons. split_and!; [lia|lia|tauto|].
      split; [lia|intros [? _]; congruence].
    + specialize (IH v (f + 1) (e + 1)). destruct (foldl _ _ ls) as [[v' f'] e'].
      destruct IH as (H1 & H2 & H3 & H4). rewrite !Hcons. split_and!; [lia|lia| |]; (split; [lia|]).
      * intros [H _]. rewrite H in EQ; done.
      * intros [? _]. congruence.
    + specialize (IH v f e). destruct (foldl _ _ ls) as [[v' f'] e'].
      destruct IH as (H1 & H2 & H3 & H4). rewrite H3, H4, !Hcons. split_and!; [lia|lia| |]; rewrite EP; by intuition.
Qed.

Definition sidecar_wf (s : CheckpointSidecar) : Prop :=
  if sc_missing s then sc_lines s = [] else sc_signature_checked s = bool_decide (is_Some (sc_verifier s)).

Lemma read_sidecar_wf d key s : read_checkpoint_sidecar d key = Ok s -> sidecar_wf s.
Proof.
  unfold read_checkpoint_sidecar, sidecar_wf. destruct (sidecar_file d) as [file|]; [|by intros [= <-]].
  destruct key as [k|]; [destruct (parse_public_key k); [|done]|];
    (destruct file as [ls|]; [|done]; destruct (parse_sidecar_lines 1 ls); [|done]); by intros [= <-].
Qed.

Lemma eval_checkpoints_spec s rs :
  sidecar_wf s -> consecutive rs ->
  let st := replay (needed_seqs s) rs in
  (eval_checkpoints s (first_of rs) (last_of rs) (bool_decide (rs <> [])) (sr_seq_to_hash st) (sr_seq_to_ts st)).1.2 = 0
  <-> checkpoints_bind s rs.
Proof.
  intros Hwf Hc. cbn zeta. unfold eval_checkpoints, checkpoints_bind, sidecar_wf in *.
  destruct (sc_missing s).
  - rewrite Hwf. case_bool_decide as Hne.
    + rewrite andb_true_r. destruct (sc_signature_checked s); cbn; split; try done.
      * intros [_ H]. destruct (H eq_refl Hne) as (cl & Hcl & _). by apply not_elem_of_nil in Hcl.
      * intros _. split; [intros cl Hcl; by apply not_elem_of_nil in Hcl|done].
    + rewrite andb_false_r. cbn. split; [|done]. intros _. split; [intros cl Hcl; by apply not_elem_of_nil in Hcl|done].
  - pose proof (eval_loop (in_range (bool_decide (rs <> [])) (first_of rs) (last_of rs))
      (checkpoint_ok (sc_verifier s) (sr_seq_to_hash (replay (needed_seqs s) rs))
        (sr_seq_to_ts (replay (needed_seqs s) rs))) (sc_lines s) 0 0 0) as H.
    destruct (foldl _ _ (sc_lines s)) as [[v f] e]. destruct H as (_ & _ & Hf & He). cbn.
    destruct (decide (rs = [])) as [->|Hne].
    + rewrite (bool_decide_false (@nil AuditRecord <> [])) in * by tauto. rewrite andb_false_r. cbn. rewrite Hf. split; [|by intros].
      intros _. by split.
    + rewrite (bool_decide_true (rs <> [])) in * by done. rewrite Hwf, andb_true_r.
      assert (f = 0 <-> forall cl, cl ∈ sc_lines s -> rs <> [] -> retained rs cl -> binds (sc_verifier s) rs cl) as Hf'.
      { rewrite Hf. split.
        - intros H cl Hcl _ Hr. apply checkpoint_ok_binds; [done..|]. apply H; [done|]. by apply in_range_retained.
        - intros H cl Hcl Hr. apply in_range_retained in Hr; [|done]. apply checkpoint_ok_binds; [done..|]. by apply H. }
      assert (e = 0 <-> ~ exists cl, cl ∈ sc_lines s /\ retained rs cl) as He'.
      { rewrite He. split.
        - intros H (cl & Hcl & Hr). apply in_range_retained in Hr; [|done]. by rewrite H in Hr.
        - intros H cl Hcl. apply not_true_is_false. intros Hr. apply in_range_retained in Hr; [|done].
          apply H. by exists cl. }
      rewrite <- Hf'. rewrite bool_decide_eq_true.
      destruct (bool_decide_reflect (is_Some (sc_verifier s))) as [Hk|Hk]; cbn.
      * destruct (N.eqb_spec e 0) as [Hz|Hz]; [split; [lia|]|].
        -- intros [_ H]. destruct (proj1 He' Hz). by apply H.
        -- split; [|tauto]. intros Hf0. split; [done|]. intros _ _.
           destruct (decide (Exists (retained rs) (sc_lines s))) as [Hex|Hex].
           ++ apply Exists_exists in Hex as (cl & ? & ?). by exists cl.
           ++ destruct Hz. apply He'. intros (cl & Hcl & Hr). apply Hex, Exists_exists. by exists cl.
      * tauto.
Qed.

(** The replay's verdicts on any stream, the empty one included. *)
Lemma finish_spec ns rs :
  let o := StreamReplay_finish (replay ns rs) in
  ro_records o = N.of_nat (length rs) /\ ro_first_seq o = first_of rs /\ ro_last_seq o = last_of rs /\
  ro_head o = chain_head (baseline rs) rs /\ ro_links_ok o = linked (baseline rs) rs /\
  (contiguous o && bool_decide (ro_duplicates o = []) && negb (ro_duplicates_truncated o) &&
   negb (ro_unordered o) = true <-> consecutive rs).
Proof.
  cbn zeta. assert (forall st, (contiguous (StreamReplay_finish st) &&
     bool_decide (ro_duplicates (StreamReplay_finish st) = []) &&
     negb (ro_duplicates_truncated (StreamReplay_finish st)) &&
     negb (ro_unordered (StreamReplay_finish st)) = true <-> order_ok st)) as Hflags.
  { intros st. unfold order_ok. cbn. rewrite !andb_true_iff, bool_decide_eq_true, N.eqb_eq, !negb_true_iff, N.ltb_ge.
    split; [intros (((H1 & H2) & H3) & H4); rewrite H2 in H3; cbn in H3; split_and!; (done || lia)|].
    intros (H1 & H2 & H3 & H4). split_and!; (done || lia). }
  rewrite Hflags. destruct (decide (rs = [])) as [->|Hne].
  - split_and!; try done.
  - destruct (replay_spec ns rs Hne) as (_ & H2 & H3 & H4 & _ & H6 & H7 & H8). cbn zeta in *. cbn.
    rewrite H2, H3, H4, H6, H7. split_and!; done.
Qed.

Lemma length_zero_iff (rs : list AuditRecord) : (N.of_nat (length rs) =? 0) = bool_decide (rs = []).
Proof. destruct rs; [done|]. rewrite bool_decide_false by done. apply N.eqb_neq. cbn. lia. Qed.

Lemma check_anchor_spec d rs b :
  check_anchor d (N.of_nat (length rs) =? 0) (last_of rs) (chain_head (baseline rs) rs) = Ok b ->
  b = true <-> anchor_seals d rs.
Proof.
  rewrite length_zero_iff. unfold check_anchor, anchor_seals.
  destruct (anchor_file d) as [[data|]|]; [|done|intros [= <-]; by rewrite bool_decide_eq_true].
  destruct (parse_anchor data) as [[ah an]|]; [|done]. case_bool_decide as Hne; cbn.
  - intros [= <-]. rewrite andb_true_iff, bool_decide_eq_true, N.eqb_eq. split.
    + intros [-> ->]. eexists. split; [done|]. by left.
    + intros (a & [= <-] & [[_ [= -> ->]]|[? _]]); done.
  - unfold checked_add64. destruct (last_of rs + 1 <=? u64_MAX); [|done]. intros [= <-].
    rewrite andb_true_iff, bool_decide_eq_true, N.eqb_eq. split.
    + intros [-> ->]. eexists. split; [done|]. by right.
    + intros (a & [= <-] & [[? _]|[_ [= -> ->]]]); done.
Qed.

Lemma verify_outcome_spec d s files rs rep :
  sidecar_wf s -> verify_outcome d s files (StreamReplay_finish (replay (needed_seqs s) rs)) = Ok rep ->
  chain_ok rep = true <-> sound_log d s rs.
Proof.
  intros Hwf. destruct (finish_spec (needed_seqs s) rs) as (H1 & H2 & H3 & H4 & H5 & H6).
  unfold verify_outcome. rewrite H1, H2, H3, H4.
  set (o := StreamReplay_finish (replay (needed_seqs s) rs)) in *.
  assert ((0 <? N.of_nat (length rs)) = bool_decide (rs <> [])) as ->.
  { destruct rs; [done|]. rewrite bool_decide_true by done. apply N.ltb_lt. cbn. lia. }
  destruct (eval_checkpoints s (first_of rs) (last_of rs) (bool_decide (rs <> [])) (ro_seq_to_hash o) (ro_seq_to_ts o))
    as [[v f] sc] eqn:Ee.
  destruct (check_anchor d _ _ _) as [head_ok|] eqn:Ea; [|done]. intros [= <-]. cbn [chain_ok].
  apply check_anchor_spec in Ea. unfold sound_log. cbn in H5, H6. rewrite H5, <- Ea.
  assert (consecutive rs -> (f =? 0) = true <-> checkpoints_bind s rs) as Hcp.
  { intros Hc. rewrite N.eqb_eq, <- (eval_checkpoints_spec s rs Hwf Hc). cbn zeta.
    change (sr_seq_to_hash (replay (needed_seqs s) rs)) with (ro_seq_to_hash o).
    change (sr_seq_to_ts (replay (needed_seqs s) rs)) with (ro_seq_to_ts o). by rewrite Ee. }
  rewrite !andb_true_iff. rewrite !andb_true_iff in H6. tauto.
Qed.

Lemma verify_dir_spec d key rep :
  verify_dir d key = Ok rep ->
  exists rs s, dir_records d = Ok rs /\ read_checkpoint_sidecar d key = Ok s /\
    (chain_ok rep = true <-> sound_log d s rs).
Proof.
  unfold verify_dir, dir_records. destruct (collect_log_files d) as [fs|]; [|done].
  destruct (read_checkpoint_sidecar d key) as [s|] eqn:Es; [|done]. rewrite replay_files_parse.
  destruct (parse_files fs) as [rs|]; [|done]. intros H. exists rs, s. split_and!; [done|done|].
  eapply verify_outcome_spec; [by eapply read_sidecar_wf|exact H].
Qed.

(** The verifier answers whenever everything can be read and parsed and the
    sequence numbers have not run out. *)
Lemma verify_dir_answers d key rs s :
  dir_records d = Ok rs -> read_checkpoint_sidecar d key = Ok s -> anchor_seals d rs -> last_of rs < u64_MAX ->
  exists rep, verify_dir d key = Ok rep /\ (chain_ok rep = true <-> sound_log d s rs).
Proof.
  intros Hd Hs Ha Hl.
  assert (exists rep, verify_dir d key = Ok rep) as [rep Hrep].
  { unfold verify_dir, dir_records in *. destruct (collect_log_files d) as [fs|]; [|done]. rewrite Hs, replay_files_parse.
    rewrite Hd. unfold verify_outcome.
    destruct (finish_spec (needed_seqs s) rs) as (H1 & H2 & H3 & H4 & _).
    fold (replay (needed_seqs s) rs). rewrite H1, H2, H3, H4.
    destruct (eval_checkpoints _ _ _ _ _ _) as [[v f] sc]. unfold check_anchor, anchor_seals in *.
    destruct (anchor_file d) as [[data|]|]; [|done|by eexists].
    destruct Ha as (a & -> & _). destruct (N.of_nat (length rs) =? 0); [by eexists|].
    unfold checked_add64. rewrite (proj2 (N.leb_le _ _)) by lia. by eexists. }
  exists rep. split; [done|]. destruct (verify_dir_spec d key rep Hrep) as (rs' & s' & Hd' & Hs' & H).
  rewrite Hd in Hd'. rewrite Hs in Hs'. by simplify_eq.
Qed.
End spec.

(** ** Tamper evidence *)

Section tamper.
Context `{AC : AuditCodec}.

(** The byte strings the verifier hashes. *)
Fixpoint hash_inputs (p : string) (rs : list AuditRecord) : list string :=
  match rs with
  | [] => []
  | r :: rs => (p +:+ serialize r) :: hash_inputs (record_hash p r) rs
  end.

(** Two logs exhibit a collision: two different inputs hashed while verifying
    them have the same digest. *)
Definition collides (rs1 rs2 : list AuditRecord) : Prop :=
  exists x y, x ∈ hash_inputs (baseline rs1) rs1 /\ y ∈ hash_inputs (baseline rs2) rs2 /\
    x <> y /\ sha256_hex x = sha256_hex y.

(** The records up to a sequence number. *)
Definition upto (s : N) (rs : list AuditRecord) : list AuditRecord :=
  take (N.to_nat (s + 1 - first_of rs)) rs.

Lemma hash_inputs_snoc p rs r :
  hash_inputs p (rs ++ [r]) = hash_inputs p rs ++ [chain_head p rs +:+ serialize r].
Proof. revert p. induction rs as [|x rs IH]; intros p; cbn; [done|]. by rewrite IH. Qed.

Lemma hash_inputs_take p rs n x : x ∈ hash_inputs p (take n rs) -> x ∈ hash_inputs p rs.
Proof.
  revert p n. induction rs as [|r rs IH]; intros p [|n]; cbn; try done; [by intros ?%not_elem_of_nil|].
  intros [->|Hx]%elem_of_cons; [left|right; by eapply IH].
Qed.

Lemma append_split (a b x y : string) :
  a +:+ x = b +:+ y ->
  (exists q, y = q +:+ x /\ a = b +:+ q) \/ (exists q, x = q +:+ y /\ b = a +:+ q).
Proof.
  revert b. induction a as [|c a IH]; intros [|c' b]; cbn.
  - intros H. left. by exists EmptyString.
  - intros H. right. by exists (String c' b).
  - intros H. left. by exists (String c a).
  - intros H. injection H as -> H. apply IH in H as [(q & -> & ->)|(q & -> & ->)]; [left|right]; by exists q.
Qed.

Lemma append_empty_r (a : string) : a +:+ EmptyString = a.
Proof. induction a as [|c a IH]; [done|]. exact (f_equal (String c) IH). Qed.

Lemma hash_input_inj `{!AuditCodecLaws} p1 p2 r1 r2 :
  p1 +:+ serialize r1 = p2 +:+ serialize r2 -> p1 = p2 /\ r1 = r2.
Proof.
  intros [(q & Hs & ->)|(q & Hs & ->)]%append_split; symmetry in Hs;
    apply serialize_suffix_free in Hs as [-> ->]; by rewrite append_empty_r.
Qed.

(** Equal heads: the shorter log is the tail of the longer one, or the two
    exhibit a collision. *)
Lemma chain_agree `{!AuditCodecLaws} p1 p2 l1 : forall l2,
  (length l1 <= length l2)%nat -> chain_head p1 l1 = chain_head p2 l2 ->
  l1 `suffix_of` l2 \/
  exists x y, x ∈ hash_inputs p1 l1 /\ y ∈ hash_inputs p2 l2 /\ x <> y /\ sha256_hex x = sha256_hex y.
Proof.
  induction l1 as [|r1 l1 IH] using rev_ind; intros l2 Hlen Hh; [left; by exists l2; rewrite app_nil_r|].
  destruct l2 as [|r2 l2 _] using rev_ind; [rewrite length_app in Hlen; cbn in Hlen; lia|].
  rewrite !length_app in Hlen. cbn in Hlen. rewrite !chain_head_snoc in Hh. unfold record_hash in Hh.
  rewrite !hash_inputs_snoc.
  destruct (decide (chain_head p1 l1 +:+ serialize r1 = chain_head p2 l2 +:+ serialize r2)) as [Heq|Hneq].
  - apply hash_input_inj in Heq as [Heq ->].
    destruct (IH l2 ltac:(lia) Heq) as [[k ->]|(x & y & Hx & Hy & Hxy)].
    + left. exists k. by rewrite app_assoc.
    + right. exists x, y. rewrite !elem_of_app. tauto.
  - right. eexists _, _. rewrite !elem_of_app, !list_elem_of_singleton. split_and!; [by right|by right|done|done].
Qed.

Lemma sound_of d key rep rs s :
  verify_dir d key = Ok rep -> chain_ok rep = true -> dir_records d = Ok rs ->
  read_checkpoint_sidecar d key = Ok s -> sound_log d s rs.
Proof.
  intros Hv Hok Hd Hs. destruct (verify_dir_spec d key rep Hv) as (rs' & s' & Hd' & Hs' & H).
  simplify_eq. rewrite Hd in Hd'. rewrite Hs in Hs'. simplify_eq. by apply H.
Qed.

Lemma sidecar_of d key rep : verify_dir d key = Ok rep -> exists s, read_checkpoint_sidecar d key = Ok s.
Proof. intros (rs & s & _ & Hs & _)%verify_dir_spec. by exists s. Qed.

Lemma upto_at rs i r : consecutive rs -> rs !! i = Some r -> upto (ar_seq r) rs = take (S i) rs.
Proof. intros Hc Hi. unfold upto. rewrite (Hc i r Hi). f_equal. lia. Qed.
End tamper.

(** C8: Two directories that both verify against the same anchor hold the same
    history: the one that retains less is a tail of the other (older files
    were pruned, nothing else differs), unless the two logs exhibit two
    different inputs with the same SHA-256 digest. *)
Theorem anchored_log_tamper_evident `{AC : AuditCodec, !AuditCodecLaws} d1 d2 key1 key2 rep1 rep2 rs1 rs2 :
  verify_dir d1 key1 = Ok rep1 -> chain_ok rep1 = true ->
  verify_dir d2 key2 = Ok rep2 -> chain_ok rep2 = true ->
  dir_records d1 = Ok rs1 -> dir_records d2 = Ok rs2 ->
  anchor_file d1 = anchor_file d2 -> first_of rs2 <= first_of rs1 ->
  rs1 `suffix_of` rs2 \/ collides rs1 rs2.
Proof.
  intros Hv1 Hok1 Hv2 Hok2 Hd1 Hd2 Ha Hf.
  destruct (sidecar_of _ _ _ Hv1) as [s1 Hs1]. destruct (sidecar_of _ _ _ Hv2) as [s2 Hs2].
  destruct (sound_of _ _ _ _ _ Hv1 Hok1 Hd1 Hs1) as (_ & Hc1 & _ & Ha1).
  destruct (sound_of _ _ _ _ _ Hv2 Hok2 Hd2 Hs2) as (_ & Hc2 & _ & Ha2).
  unfold anchor_seals in *. rewrite <- Ha in Ha2.
  destruct (anchor_file d1) as [[data|]|]; [|done|subst; left; by exists []].
  destruct Ha1 as (a & Hp & [[-> _]|[Hne1 ->]]); [left; exists rs2; by rewrite app_nil_r|].
  destruct Ha2 as (a & Hp' & [[-> ->]|[Hne2 ->]]); rewrite Hp in Hp'; [injection Hp'; lia|].
  injection Hp' as Hh Hl. pose proof (consecutive_last rs1 Hne1 Hc1). pose proof (consecutive_last rs2 Hne2 Hc2).
  apply chain_agree; [lia|done].
Qed.

(** C9: Two directories that both verify and both carry the same signed
    checkpoint in their retained range agree on every record up to it: the
    one that retains less is a tail of the other, unless the two logs exhibit
    a SHA-256 collision.  In both, the signature on the checkpoint is valid
    under the key that verification was given, if it was given one. *)
Theorem signed_prefix_tamper_evident `{AC : AuditCodec, !AuditCodecLaws}
    d1 d2 key1 key2 rep1 rep2 rs1 rs2 s1 s2 cl1 cl2 :
  verify_dir d1 key1 = Ok rep1 -> chain_ok rep1 = true ->
  verify_dir d2 key2 = Ok rep2 -> chain_ok rep2 = true ->
  dir_records d1 = Ok rs1 -> dir_records d2 = Ok rs2 ->
  read_checkpoint_sidecar d1 key1 = Ok s1 -> read_checkpoint_sidecar d2 key2 = Ok s2 ->
  cl1 ∈ sc_lines s1 -> cl2 ∈ sc_lines s2 -> checkpoint cl1 = checkpoint cl2 ->
  rs1 <> [] -> rs2 <> [] -> retained rs1 cl1 -> retained rs2 cl2 -> first_of rs2 <= first_of rs1 ->
  let s := cp_seq (checkpoint cl1) in
  (forall k, sc_verifier s1 = Some k -> verify_signature k (checkpoint cl1) (signature cl1) = true) /\
  (forall k, sc_verifier s2 = Some k -> verify_signature k (checkpoint cl2) (signature cl2) = true) /\
  (upto s rs1 `suffix_of` upto s rs2 \/ collides rs1 rs2).
Proof.
  intros Hv1 Hok1 Hv2 Hok2 Hd1 Hd2 Hs1 Hs2 Hin1 Hin2 Hcp Hne1 Hne2 Hr1 Hr2 Hf. cbn zeta.
  destruct (sound_of _ _ _ _ _ Hv1 Hok1 Hd1 Hs1) as (_ & Hc1 & [Hb1 _] & _).
  destruct (sound_of _ _ _ _ _ Hv2 Hok2 Hd2 Hs2) as (_ & Hc2 & [Hb2 _] & _).
  destruct (Hb1 cl1 Hin1 Hne1 Hr1) as (Hsig & _ & i1 & r1 & Hi1 & Hq1 & Hh1 & _).
  destruct (Hb2 cl2 Hin2 Hne2 Hr2) as (Hsig2 & _ & i2 & r2 & Hi2 & Hq2 & Hh2 & _). split; [done|]. split; [done|].
  rewrite <- Hcp in *. rewrite <- Hq1 at 1. rewrite <- Hq2. rewrite !(upto_at _ _ _ Hc1 Hi1), !(upto_at _ _ _ Hc2 Hi2).
  pose proof (Hc1 _ _ Hi1). pose proof (Hc2 _ _ Hi2).
  pose proof (lookup_lt_Some _ _ _ Hi1). pose proof (lookup_lt_Some _ _ _ Hi2).
  destruct (chain_agree (baseline rs1) (baseline rs2) (take (S i1) rs1) (take (S i2) rs2))
    as [|(x & y & Hx & Hy & Hxy)]; [rewrite !length_take; lia|congruence|by left|right].
  exists x, y. split_and!; [by eapply hash_inputs_take|by eapply hash_inputs_take|apply Hxy|apply Hxy].
Qed.

(** ** Logs the writer produced *)

Section written.
Context `{AC : AuditCodec}.

Lemma chain_head_app p a b : chain_head p (a ++ b) = chain_head (chain_head p a) b.
Proof. apply foldl_app. Qed.

Lemma append_all_spec recs : forall st rs st',
  append_all recs st = (rs, st') -> last_seq st + N.of_nat (length recs) < u64_modulus ->
  length rs = length recs /\ linked (last_hash st) rs = true /\
  chain_head (last_hash st) rs = last_hash st' /\ last_seq st' = last_seq st + N.of_nat (length rs) /\
  (forall i r, rs !! i = Some r -> ar_seq r = last_seq st + N.of_nat i /\
     prev_hash r = chain_head (last_hash st) (take i rs)).
Proof.
  induction recs as [|r recs IH]; intros st rs st' Ha Hlt.
  - injection Ha as <- <-. cbn. split_and!; try done. lia.
  - cbn in Ha, Hlt. set (r1 := r <| ar_seq := last_seq st |> <| prev_hash := last_hash st |>) in *.
    destruct (append_all recs _) as [rs1 st1] eqn:E. injection Ha as <- <-.
    apply IH in E as (H1 & H2 & H3 & H4 & H5); [|cbn; rewrite wrapping_add64_small; lia].
    cbn in H2, H3, H4, H5. rewrite wrapping_add64_small in H4, H5 by lia.
    assert (prev_hash r1 = last_hash st) as Hp by done. assert (ar_seq r1 = last_seq st) as Hq by done.
    clearbody r1. cbn. rewrite bool_decide_true by done. split_and!; try done; [lia|lia|].
    intros [|i] x Hx; cbn in Hx; [injection Hx as <-; cbn; split; [lia|done]|].
    destruct (H5 i x Hx) as [Hs Hh]. split; [lia|done].
Qed.

(** The retained suffix of a written log. *)
Lemma pruned_log recs rs st k :
  append_all recs ChainState_genesis = (rs, st) -> N.of_nat (length recs) < u64_MAX -> (k < length rs)%nat ->
  let kept := drop k rs in
  kept <> [] /\ first_of kept = N.of_nat k /\ consecutive kept /\
  baseline kept = chain_head GENESIS_HASH (take k rs) /\ linked (baseline kept) kept = true /\
  chain_head (baseline kept) kept = last_hash st /\ last_of kept + 1 = last_seq st /\ last_seq st < u64_MAX.
Proof.
  intros Ha Hlt Hk. cbn zeta.
  destruct (append_all_spec recs ChainState_genesis rs st Ha) as (H1 & H2 & H3 & H4 & H5);
    [cbn; unfold u64_MAX, u64_modulus in *; lia|]. cbn in H2, H3, H4, H5.
  destruct (lookup_lt_is_Some_2 rs k Hk) as [r Hr]. pose proof (drop_S _ _ _ Hr) as Hd.
  assert (drop k rs <> []) as Hne by (by rewrite Hd).
  assert (first_of (drop k rs) = N.of_nat k) as Hfst by (rewrite Hd; cbn; destruct (H5 k r Hr); lia).
  assert (baseline (drop k rs) = chain_head GENESIS_HASH (take k rs)) as Hbase
    by (rewrite Hd; cbn; by destruct (H5 k r Hr)).
  assert (consecutive (drop k rs)) as Hcons.
  { intros i x Hx. rewrite lookup_drop in Hx. destruct (H5 _ _ Hx) as [-> _]. rewrite Hfst. lia. }
  assert (linked (baseline (drop k rs)) (drop k rs) = true) as Hlink.
  { rewrite Hbase. assert (forall l1 l2 p, linked p (l1 ++ l2) = linked p l1 && linked (chain_head p l1) l2) as Happ.
    { intros l1 l2. induction l1 as [|x l1 IH]; intros p; cbn; [done|]. by rewrite IH, andb_assoc. }
    rewrite <- (take_drop k rs), Happ in H2. by apply andb_prop in H2 as [_ H2]. }
  split_and!; try done.
  - by rewrite Hbase, <- chain_head_app, take_drop.
  - rewrite (consecutive_last _ Hne Hcons), Hfst, length_drop. lia.
  - lia.
Qed.

(** A checkpoint taken when the chain's tip was the record at its sequence
    number. *)
Definition honest (key : option VerifyingKey) (rs : list AuditRecord) (cl : CheckpointLine) : Prop :=
  let cp := checkpoint cl in
  let i := N.to_nat (cp_seq cp) in
  (forall k, key = Some k -> verify_signature k cp (signature cl) = true) /\
  cp_record_count cp <= cp_seq cp + 1 /\
  chain_head_hash cp = chain_head GENESIS_HASH (take (S i) rs) /\
  exists r, rs !! i = Some r /\ ts_unix_ms r <= cp_ts_unix_ms cp.
End written.

(** The verifier accepts what the writer writes: after any appends from
    genesis and any pruning of the oldest records, with honest checkpoints
    (at least one retained when a key is supplied) and the anchor at the
    chain's tip, [verify_dir] answers and reports an intact chain. *)
Theorem written_log_verifies `{AC : AuditCodec} d key s recs rs st k data :
  append_all recs ChainState_genesis = (rs, st) ->
  N.of_nat (length recs) < u64_MAX -> (k < length rs)%nat ->
  dir_records d = Ok (drop k rs) -> read_checkpoint_sidecar d key = Ok s ->
  (forall cl, cl ∈ sc_lines s -> honest (sc_verifier s) rs cl) ->
  (sc_signature_checked s = true -> exists cl, cl ∈ sc_lines s /\ N.of_nat k <= cp_seq (checkpoint cl)) ->
  anchor_file d = Some (Some data) -> parse_anchor data = Some (MkAnchorFile (last_hash st) (last_seq st)) ->
  exists rep, verify_dir d key = Ok rep /\ chain_ok rep = true.
Proof.
  intros Ha Hlt Hk Hd Hs Hhon Hsome Hanc Hparse.
  destruct (pruned_log recs rs st k Ha Hlt Hk) as (Hne & Hfst & Hcons & Hbase & Hlink & Hhead & Hlast & Hbound).
  assert (anchor_seals d (drop k rs)) as Hseal.
  { unfold anchor_seals. rewrite Hanc. eexists. split; [done|]. right. by rewrite Hhead, Hlast. }
  destruct (verify_dir_answers d key (drop k rs) s Hd Hs Hseal) as (rep & Hv & Hiff); [lia|].
  exists rep. split; [done|]. apply Hiff. split_and!; try done. split.
  - intros cl Hcl _ [Hlo Hhi]. destruct (Hhon cl Hcl) as (Hsig & Hcount & Hh & r & Hr & Hts).
    split_and!; [done|done|]. rewrite Hfst in Hlo.
    exists (N.to_nat (cp_seq (checkpoint cl)) - k)%nat, r. rewrite lookup_drop.
    replace (k + (N.to_nat (cp_seq (checkpoint cl)) - k))%nat with (N.to_nat (cp_seq (checkpoint cl))) by lia.
    split_and!; [done| | |done].
    + rewrite (Hcons (N.to_nat (cp_seq (checkpoint cl)) - k)%nat r); [lia|]. rewrite lookup_drop, <- Hr. f_equal. lia.
    + rewrite Hh, Hbase, <- chain_head_app, take_take_drop. f_equal. f_equal. lia.
  - intros Hsc _. destruct (Hsome Hsc) as (cl & Hcl & Hge). exists cl. split; [done|].
    destruct (Hhon cl Hcl) as (_ & _ & _ & r & Hr%lookup_lt_Some & _).
    unfold retained. pose proof (consecutive_last _ Hne Hcons). rewrite length_drop in *. lia.
Qed.

(** ** Gap analysis *)

Lemma elem_of_sample_gaps room : forall s limit x,
  x ∈ sample_gaps room s limit <-> s <= x < limit /\ x < s + N.of_nat room.
Proof.
  induction room as [|room IH]; intros s limit x; cbn [sample_gaps].
  - rewrite elem_of_nil. lia.
  - destruct (N.ltb_spec s limit).
    + rewrite elem_of_cons, IH. lia.
    + rewrite elem_of_nil. lia.
Qed.

Lemma length_sample_gaps room : forall s limit,
  N.of_nat (length (sample_gaps room s limit)) = N.min (N.of_nat room) (limit - s).
Proof.
  induction room as [|room IH]; intros s limit; cbn [sample_gaps]; [cbn [length]; lia|].
  destruct (N.ltb_spec s limit); [|cbn [length]; lia]. cbn [length]. specialize (IH (s + 1) limit). lia.
Qed.

Definition seq_present (s : N) (rs : list AuditRecord) : Prop := exists r, r ∈ rs /\ ar_seq r = s.

(** Sequence numbers never decrease along the stream. *)
Definition ordered (rs : list AuditRecord) : Prop :=
  forall i r r', rs !! i = Some r -> rs !! S i = Some r' -> ar_seq r <= ar_seq r'.

Definition gap_inv (st : StreamReplay) (rs : list AuditRecord) : Prop :=
  sr_unordered st = false /\
  (forall r, r ∈ rs -> first_of rs <= ar_seq r <= last_of rs) /\
  N.of_nat (length (sr_gaps st)) <= missing_total st /\ N.of_nat (length (sr_gaps st)) <= MAX_VERIFY_GAPS /\
  (forall s, s ∈ sr_gaps st -> first_of rs < s < last_of rs /\ ~ seq_present s rs) /\
  (missing_total st <= N.of_nat (length (sr_gaps st)) ->
   forall s, first_of rs <= s <= last_of rs -> ~ seq_present s rs -> s ∈ sr_gaps st).

Section gaps.
Context `{AC : AuditCodec}.

Lemma push_gap_fields st rec :
  let st1 := if sr_records st =? 0 then st
             else match prev_seq st with Some prev => push_pair prev (ar_seq rec) st | None => st end in
  let st' := StreamReplay_push st rec in
  sr_unordered st' = sr_unordered st1 /\ sr_gaps st' = sr_gaps st1 /\ missing_total st' = missing_total st1.
Proof.
  cbn zeta. unfold StreamReplay_push. destruct (sr_records st =? 0); [|destruct (prev_seq st)]; cbn;
    repeat (case_bool_decide; cbn); destruct (sentinel_dropped_count rec); done.
Qed.

Lemma seq_present_snoc s rs r : seq_present s (rs ++ [r]) <-> seq_present s rs \/ ar_seq r = s.
Proof.
  unfold seq_present. setoid_rewrite elem_of_app. setoid_rewrite list_elem_of_singleton. split.
  - intros (x & [Hx| ->] & Hs); [left; by exists x|by right].
  - intros [(x & Hx & Hs)|Hs]; [exists x; tauto|exists r; tauto].
Qed.

Lemma gap_inv_pair st rs r :
  rs <> [] -> gap_inv st rs -> last_of rs <= ar_seq r ->
  gap_inv (push_pair (last_of rs) (ar_seq r) st) (rs ++ [r]).
Proof.
  intros Hne (Hu & Hb & Hl & Hm & Hs & Hc) Hle. unfold gap_inv.
  rewrite last_of_snoc, first_of_snoc by done.
  assert (forall x, x ∈ rs ++ [r] -> first_of rs <= ar_seq x <= ar_seq r) as Hb'.
  { intros x [Hx| ->%list_elem_of_singleton]%elem_of_app; [specialize (Hb x Hx); lia|].
    destruct rs as [|x rs]; [done|]. specialize (Hb x (list_elem_of_here _ _)). cbn in *. lia. }
  assert (forall s, seq_present s rs -> first_of rs <= s <= last_of rs) as Hp by (intros s (x & Hx & <-); by apply Hb).
  assert (seq_present (last_of rs) rs) as Hlast.
  { destruct (exists_last Hne) as (l & y & ->). rewrite last_of_snoc. exists y. split; [|done]. apply elem_of_app. right. left. }
  unfold push_pair. destruct (N.ltb_spec (ar_seq r) (last_of rs)); [lia|].
  destruct (N.eqb_spec (ar_seq r) (last_of rs)) as [He|Hne2].
  - assert (gap_inv st (rs ++ [r])) as HG.
    { unfold gap_inv. rewrite last_of_snoc, first_of_snoc by done. split_and!; try done.
      - intros s Hin. rewrite He, seq_present_snoc. destruct (Hs s Hin). split; [lia|]. intros [?|?]; [done|lia].
      - intros Ht s Hr Hn. rewrite seq_present_snoc in Hn. apply Hc; [done|lia|tauto]. }
    unfold gap_inv in HG. rewrite last_of_snoc, first_of_snoc in HG by done.
    case_bool_decide; [exact HG|]. case_match; exact HG.
  - destruct (N.ltb_spec 0 (ar_seq r - last_of rs - 1)) as [Hgap|Hgap]; cbn.
    + set (room := N.to_nat (MAX_VERIFY_GAPS - N.of_nat (length (sr_gaps st)))).
      pose proof (length_sample_gaps room (last_of rs + 1) (ar_seq r)) as Hlen.
      rewrite length_app, Nat2N.inj_add, Hlen. unfold saturating_add64, u64_MAX, MAX_VERIFY_GAPS in *.
      assert (N.of_nat room = 10000 - N.of_nat (length (sr_gaps st))) as Hroom by (unfold room; lia).
      rewrite Hroom. split_and!; [done|done|lia|lia| |].
      * intros s [Hin|Hin]%elem_of_app; rewrite seq_present_snoc.
        -- destruct (Hs s Hin). split; [lia|]. intros [?|?]; [done|lia].
        -- apply elem_of_sample_gaps in Hin. pose proof (Hp (last_of rs) Hlast). split; [lia|].
           intros [Hpres%Hp|?]; lia.
      * intros Ht s Hr Hn. rewrite seq_present_snoc in Hn. apply elem_of_app.
        destruct (N.le_gt_cases s (last_of rs)); [left; apply Hc; [lia|lia|tauto]|right].
        apply elem_of_sample_gaps. rewrite Hroom. assert (s <> ar_seq r) by (intros ->; tauto). lia.
    + split_and!; try done.
      * intros s Hin. rewrite seq_present_snoc. destruct (Hs s Hin). split; [lia|]. intros [?|?]; [done|lia].
      * intros Ht s Hr Hn. rewrite seq_present_snoc in Hn. apply Hc; [done| |tauto].
        destruct (decide (s = ar_seq r)) as [->|]; [tauto|lia].
Qed.

Lemma ordered_snoc rs r : ordered (rs ++ [r]) -> ordered rs /\ (rs = [] \/ last_of rs <= ar_seq r).
Proof.
  intros Ho. split.
  - intros i x y Hx Hy. apply (Ho i x y); by apply lookup_app_l_Some.
  - destruct (decide (rs = [])) as [->|Hne]; [by left|right].
    destruct (exists_last Hne) as (l & y & ->). rewrite last_of_snoc. apply (Ho (length l) y r).
    + apply lookup_app_l_Some. by apply list_lookup_middle.
    + apply list_lookup_middle. rewrite length_app. cbn. lia.
Qed.

Lemma replay_gap_inv ns rs : rs <> [] -> ordered rs -> gap_inv (replay ns rs) rs.
Proof.
  induction rs as [|r rs IH] using rev_ind; [done|]. intros _ [Ho Hle]%ordered_snoc.
  unfold replay. rewrite foldl_app. cbn [foldl]. fold (replay ns rs).
  pose proof (push_gap_fields (replay ns rs) r) as (F1 & F2 & F3).
  unfold gap_inv. rewrite F1, F2, F3. destruct (decide (rs = [])) as [->|Hne].
  - cbn. split_and!; try done.
    + intros x [->|Hx]%elem_of_cons; [cbn; lia|by apply not_elem_of_nil in Hx].
    + intros s Hs. by apply not_elem_of_nil in Hs.
    + intros _ s Hs Hn. destruct Hn. exists r. split; [left|]. cbn in Hs. lia.
  - destruct Hle as [?|Hle]; [done|]. destruct (replay_spec ns rs Hne) as (_ & H2 & _ & _ & H5 & _). cbn zeta in *.
    assert ((sr_records (replay ns rs) =? 0) = false) as ->.
    { rewrite H2. apply N.eqb_neq. destruct rs; [done|cbn; lia]. }
    rewrite H5. apply gap_inv_pair; [done|by apply IH|done].
Qed.
End gaps.

(** On a stream whose sequence numbers never decrease, every gap the
    report lists is a sequence number missing inside the retained range, at
    most [MAX_VERIFY_GAPS] are listed, and unless the list is marked truncated
    it names all of them; the span itself is never enumerated. *)
Theorem gap_report_exact `{AC : AuditCodec} ns rs :
  rs <> [] -> ordered rs ->
  let o := StreamReplay_finish (replay ns rs) in
  ro_unordered o = false /\ N.of_nat (length (ro_gaps o)) <= MAX_VERIFY_GAPS /\
  (forall s, s ∈ ro_gaps o -> first_of rs < s < last_of rs /\ ~ seq_present s rs) /\
  (ro_gaps_truncated o = false ->
   forall s, s ∈ ro_gaps o <-> first_of rs <= s <= last_of rs /\ ~ seq_present s rs).
Proof.
  intros Hne Ho. destruct (replay_gap_inv ns rs Hne Ho) as (Hu & _ & _ & Hm & Hs & Hc). cbn.
  split_and!; try done. intros Ht%N.ltb_ge s. split.
  - intros Hin. destruct (Hs s Hin). split; [lia|done].
  - intros [Hr Hn]. by apply Hc.
Qed.
