(* ===== verification/AuditFiles.v ===== *)
(** * The audit log: the order of its files

    [collect_log_files] of [crates/audit/src/verify.rs] sorts by length and
    then bytes, without parsing the rotation index.  On the names the writer
    mints this is the order of the indices, the active file last. *)

From Stdlib Require Import Sorted.
From S2P Require Import Prelude Text AuditChain.
Open Scope N_scope.

(** ** The order of the log files *)

(** The name the writer gives the [n]-th rotated file. *)
Definition rotated_name (n : N) : string := "audit." +:+ pretty n +:+ ".jsonl".

(** *** Keys of minted names *)

Lemma rotated_not_active n : rotated_name n <> "audit.jsonl".
Proof.
  unfold rotated_name. intros H. apply (f_equal (strip_prefix "audit.")) in H. rewrite strip_prefix_app in H.
  injection H as H. apply (f_equal String.length) in H. rewrite str_app_length in H. cbn in H.
  destruct (decide (n = 0)) as [->|Hn]; [done|].
  rewrite pretty_digits in H by lia. pose proof (digits_nonempty n ltac:(lia)). lia.
Qed.

Lemma rotated_is_log n : 0 < n -> is_audit_log (rotated_name n) = true.
Proof.
  intros Hn. unfold is_audit_log. rewrite bool_decide_false by apply rotated_not_active.
  unfold rotated_name. rewrite strip_prefix_app. cbn [mbind option_bind]. rewrite strip_suffix_app.
  rewrite pretty_digits, digits_all, andb_true_r by done.
  rewrite bool_decide_false; [done|]. intros H. pose proof (digits_nonempty n Hn). rewrite H in *. cbn in *. lia.
Qed.

Lemma rotated_key n :
  0 < n -> log_file_order_key (rotated_name n) = (0, N.of_nat (String.length (digits n)), digits n).
Proof.
  intros Hn. unfold log_file_order_key. rewrite bool_decide_false by apply rotated_not_active.
  unfold rotated_name. rewrite strip_prefix_app. cbn [mbind option_bind]. rewrite strip_suffix_app.
  cbn [default from_option]. by rewrite pretty_digits.
Qed.

(** *** Minted names in order *)

(** The file names a writer leaves behind: rotated files, numbered from one,
    and the active one. *)
Definition mint (a : option N) : string :=
  match a with Some n => rotated_name n | None => "audit.jsonl" end.
Definition minted (s : string) (a : option N) : Prop := s = mint a /\ (forall n, a = Some n -> 0 < n).

(** The age of a file: a smaller index is older, the active file is newest. *)
Definition older (a b : option N) : Prop :=
  match a, b with Some n, Some m => n < m | Some _, None => True | None, _ => False end.

Lemma minted_compare s a t b :
  minted s a -> minted t b ->
  key_compare (log_file_order_key s) (log_file_order_key t) = Lt <-> older a b.
Proof.
  intros [-> Ha] [-> Hb]. destruct a as [n|], b as [m|]; cbn [mint older]; rewrite ?rotated_key by auto; try done.
  change (key_compare _ _) with (digit_compare (digits n) (digits m)).
  rewrite digit_compare_numeric. apply N.compare_lt_iff.
Qed.

Lemma minted_inj s a b : minted s a -> minted s b -> a = b.
Proof.
  intros [-> Ha] [Heq Hb]. destruct a as [n|], b as [m|]; cbn [mint] in Heq.
  - apply (f_equal log_file_order_key) in Heq. rewrite !rotated_key in Heq by auto.
    assert (digits n = digits m) as Hd by congruence.
    pose proof (digit_compare_numeric n m) as H. rewrite Hd, digit_compare_numeric, N.compare_refl in H.
    symmetry in H. apply N.compare_eq_iff in H. by subst.
  - by destruct (rotated_not_active n).
  - by destruct (rotated_not_active m).
  - done.
Qed.

(** *** Insertion sort *)

Section sorting.
Context {A : Type}.
Implicit Types (x y : string * A) (l : list (string * A)).

Definition older_entry x y : Prop := exists a b, minted x.1 a /\ minted y.1 b /\ older a b.

Lemma insert_by_key_perm x l : insert_by_key x l ≡ₚ x :: l.
Proof.
  induction l as [|y l IH]; [done|]. cbn. destruct (key_compare _ _); [|done|]; rewrite IH; apply Permutation_swap.
Qed.

Lemma older_total a b : a <> b -> older a b \/ older b a.
Proof.
  destruct a as [n|], b as [m|]; cbn; intros H; try tauto.
  destruct (N.lt_trichotomy n m) as [|[->|]]; [by left|done|by right].
Qed.

Lemma older_trans a b c : older a b -> older b c -> older a c.
Proof. destruct a, b, c; cbn; try done; lia. Qed.

Lemma insert_by_key_sorted x l :
  (exists a, minted x.1 a) -> Forall (fun y => (exists b, minted y.1 b) /\ y.1 <> x.1) l ->
  StronglySorted older_entry l -> StronglySorted older_entry (insert_by_key x l).
Proof.
  intros [a Ha] Hl Hs. induction Hs as [|y l Hs IH Hy]; [by repeat constructor|].
  apply Forall_cons in Hl as [[[b Hb] Hne] Hl]. cbn.
  assert (older a b -> StronglySorted older_entry (x :: y :: l)) as Hfront.
  { intros Hab. constructor; [by constructor|]. constructor; [by exists a, b|].
    eapply Forall_impl; [exact Hy|]. intros z (b' & c & Hb' & Hc & Hbc).
    assert (b' = b) as -> by (by eapply minted_inj). exists a, c. split_and!; [done|done|by eapply older_trans]. }
  pose proof (minted_compare _ _ _ _ Ha Hb) as Hcmp.
  assert (key_compare (log_file_order_key x.1) (log_file_order_key y.1) <> Lt ->
    StronglySorted older_entry (y :: insert_by_key x l)) as Hback.
  { intros Hn. constructor; [by apply IH|]. rewrite insert_by_key_perm. constructor; [|done]. exists b, a.
    split_and!; [done|done|]. destruct (older_total a b) as [Hab|]; [|by destruct Hn; apply Hcmp|done].
    intros ->. destruct Hne. destruct Ha as [-> _], Hb as [-> _]. done. }
  destruct (key_compare _ _); [by apply Hback|by apply Hfront, Hcmp|by apply Hback].
Qed.

Lemma sort_logs_spec l :
  Forall (fun y => exists b, minted y.1 b) l -> NoDup l.*1 ->
  sort_logs l ≡ₚ l /\ StronglySorted older_entry (sort_logs l).
Proof.
  unfold sort_logs. induction l as [|x l IH] using rev_ind; [intros _ _; split; [done|constructor]|].
  intros [Hm Hx]%Forall_app Hnd. rewrite fmap_app in Hnd. apply NoDup_app in Hnd as (Hnd & Hdisj & _).
  destruct (IH Hm Hnd) as [Hp Hs]. rewrite foldl_app. cbn [foldl]. split.
  - rewrite insert_by_key_perm, Hp. apply Permutation_cons_append.
  - apply insert_by_key_sorted; [exact (proj1 (proj1 (Forall_cons _ _ _) Hx))| |done].
    rewrite Hp. apply Forall_forall. intros y Hy. split; [exact (proj1 (Forall_forall _ _) Hm y Hy)|].
    intros Heq. apply (Hdisj y.1); [by apply list_elem_of_fmap_2|]. rewrite Heq. cbn. left.
Qed.
End sorting.

(** On the names the writer mints, sorting by length and then bytes orders
    the log oldest first: the listing's log files, all of them and nothing
    else, come in the order of their rotation index with the active file
    last, whatever order the directory listed them in and however many digits
    the indices have. *)
Theorem log_files_oldest_first d es fs :
  entries d = Some es ->
  (forall e, e ∈ es -> is_audit_log e.1 = true -> exists a, minted e.1 a) ->
  NoDup es.*1 -> collect_log_files d = Ok fs ->
  fs ≡ₚ filter (fun e => is_audit_log e.1 = true) es /\ StronglySorted older_entry fs.
Proof.
  intros He Hm Hnd Hc. unfold collect_log_files in Hc. rewrite He in Hc. injection Hc as <-.
  apply sort_logs_spec.
  - apply Forall_forall. intros e [Hl Hin]%list_elem_of_filter. by apply Hm.
  - eapply sublist_NoDup; [exact Hnd|]. apply fmap_sublist, sublist_filter.
Qed.

Lemma log_files_oldest_first_witness :
  let d := MkAuditDir (Some [("audit.jsonl", None); ("notes.txt", None); ("audit.10.jsonl", None); ("audit.2.jsonl", None)])
             None None in
  exists fs, collect_log_files d = Ok fs /\ StronglySorted older_entry fs /\
    fs.*1 = ["audit.2.jsonl"; "audit.10.jsonl"; "audit.jsonl"].
Proof.
  intros d. eexists. split; [vm_compute; reflexivity|]. split; [|reflexivity].
  apply (log_files_oldest_first d _ _ eq_refl); [| |vm_compute; reflexivity].
  - intros e He. repeat (apply elem_of_cons in He as [->|He]); [| | | |by apply not_elem_of_nil in He].
    + intros _. exists None. split; [reflexivity|discriminate].
    + intros H. vm_compute in H. discriminate H.
    + intros _. exists (Some 10). split; [vm_compute; reflexivity|intros n [= <-]; reflexivity].
    + intros _. exists (Some 2). split; [vm_compute; reflexivity|intros n [= <-]; reflexivity].
  - apply (bool_decide_unpack _). vm_compute. exact I.
Defined.

(** An index with a leading zero is not in numeric order. *)
Lemma leading_zero_out_of_order :
  key_compare (log_file_order_key "audit.007.jsonl") (log_file_order_key "audit.10.jsonl") = Gt.
Proof. reflexivity. Qed.
