(* ===== verification/AuditDemo.v ===== *)
(** * The audit log: a concrete codec and runs

    An instance of [AuditCodec] that satisfies [AuditCodecLaws] (records are
    rendered through their enumeration, the digest is the identity, so it has
    no collisions), a two-record log, and the witnesses of the theorems of
    [AuditProps]. *)

From Stdlib Require Import Ascii.
From S2P Require Import Prelude Text AuditChain AuditProps.
Open Scope N_scope.

(** ** Rendering records *)

Definition class_code (c : EventClass) : N :=
  match c with Auth => 0 | KeyMgmt => 1 | Admin => 2 | DataPlane => 3 | SystemClass => 4 | Deny => 5 end.

Definition opt_code (o : option N) : N := match o with Some n => n + 1 | None => 0 end.
Definition str_code (s : string) : N := N.pos (encode s).

(** The fields, in order, as numbers. *)
Definition record_fields (r : AuditRecord) : list N :=
  [schema_version r; ar_seq r; ts_unix_ms r; ts_monotonic_ns r; str_code (prev_hash r); str_code (request_id r);
   opt_code (str_code <$> ar_identity r); str_code (ar_method r); class_code (ar_class r); opt_code (ar_slot r);
   opt_code (ar_session r); opt_code (str_code <$> object_ref r); ar_ck_rv r; latency_us r;
   opt_code (dropped_count r)].

(** The binary digits of a positive number, lowest first. *)
Fixpoint bits (p : positive) : string :=
  match p with
  | xH => EmptyString
  | xO p => String "0"%char (bits p)
  | xI p => String "1"%char (bits p)
  end.

Definition demo_serialize (r : AuditRecord) : string := String "{"%char (bits (encode (record_fields r))).

Lemma bits_inj p : forall q, bits p = bits q -> p = q.
Proof. induction p as [p IH|p IH|]; intros [q|q|]; cbn; try done; intros [= H]; f_equal; by apply IH. Qed.

Lemma str_code_inj s t : str_code s = str_code t -> s = t.
Proof. intros [= H]. by apply (inj encode) in H. Qed.

Lemma opt_code_inj a b : opt_code a = opt_code b -> a = b.
Proof. destruct a, b; cbn; intros H; try done; try lia. f_equal. lia. Qed.

Lemma opt_str_code_inj a b : opt_code (str_code <$> a) = opt_code (str_code <$> b) -> a = b.
Proof. intros H%opt_code_inj. destruct a, b; cbn in H; try done. f_equal. apply str_code_inj. congruence. Qed.

Lemma record_fields_inj r r' : record_fields r = record_fields r' -> r = r'.
Proof.
  destruct r as [? ? ? ? ? ? ? ? c ? ? ? ? ? ?], r' as [? ? ? ? ? ? ? ? c' ? ? ? ? ? ?].
  unfold record_fields. cbn -[str_code opt_code class_code fmap].
  intros H. repeat (apply (inj2 cons) in H as [?Hf H]). clear H.
  repeat match goal with
         | H : str_code _ = str_code _ |- _ => apply str_code_inj in H
         | H : opt_code (str_code <$> _) = opt_code (str_code <$> _) |- _ => apply opt_str_code_inj in H
         | H : opt_code _ = opt_code _ |- _ => apply opt_code_inj in H
         end.
  assert (c = c') as -> by (by destruct c, c'). by subst.
Qed.

(** No digit is an opening brace, so no rendering starts inside another. *)
Fixpoint brace_free (s : string) : bool :=
  match s with EmptyString => true | String a s => negb (Ascii.eqb a "{"%char) && brace_free s end.

Lemma bits_brace_free p : brace_free (bits p) = true.
Proof. by induction p. Qed.

Lemma demo_suffix_free q r r' : q +:+ demo_serialize r = demo_serialize r' -> q = EmptyString /\ r = r'.
Proof.
  destruct q as [|a q]; intros H.
  - split; [done|]. injection H as H. apply bits_inj in H. apply (inj encode) in H. by apply record_fields_inj.
  - exfalso. injection H as _ H.
    assert (forall p t, brace_free (p +:+ String "{"%char t) = false) as Hno.
    { intros p t. induction p as [|b p IH]; [done|].
      change (negb (Ascii.eqb b "{"%char) && brace_free (p +:+ String "{"%char t) = false). rewrite IH. apply andb_false_r. }
    specialize (Hno q (bits (encode (record_fields r)))). unfold demo_serialize in H. rewrite H in Hno.
    by rewrite bits_brace_free in Hno.
Qed.

(** ** A log of two records *)

Definition demo_record (seq : N) (prev : string) : AuditRecord :=
  MkAuditRecord 2 seq (1000 + seq) 0 prev "r" None "C_Login" Auth (Some 0) None None 0 5 None.

Definition demo_r0 : AuditRecord := demo_record 0 GENESIS_HASH.
Definition demo_h0 : string := GENESIS_HASH +:+ demo_serialize demo_r0.
Definition demo_r1 : AuditRecord := demo_record 1 demo_h0.
Definition demo_h1 : string := demo_h0 +:+ demo_serialize demo_r1.

Definition demo_cp : CheckpointLine := MkCheckpointLine (MkCheckpoint 1 demo_h1 2000 2) "sig".

#[local] Instance demo_codec : AuditCodec := {
  VerifyingKey := unit;
  serialize := demo_serialize;
  sha256_hex := fun s => s;
  parse_record := fun s =>
    if bool_decide (s = "r0") then Some demo_r0 else if bool_decide (s = "r1") then Some demo_r1 else None;
  parse_checkpoint := fun s => if bool_decide (s = "cp") then Some demo_cp else None;
  parse_anchor := fun s => if bool_decide (s = "anchor") then Some (MkAnchorFile demo_h1 2) else None;
  parse_public_key := fun s => if bool_decide (s = "key") then Some tt else None;
  verify_signature := fun _ _ sig => bool_decide (sig = "sig");
}.

#[local] Instance demo_laws : AuditCodecLaws.
Proof. constructor. exact demo_suffix_free. Qed.

(** The whole log, rotated once, and the same log with the old file pruned. *)
Definition demo_full : AuditDir :=
  MkAuditDir (Some [("audit.jsonl", Some [Some "r1"]); ("audit.1.jsonl", Some [Some "r0"])])
    (Some (Some [Some "cp"])) (Some (Some "anchor")).
Definition demo_pruned : AuditDir :=
  MkAuditDir (Some [("audit.jsonl", Some [Some "r1"])]) (Some (Some [Some "cp"])) (Some (Some "anchor")).

Definition demo_sidecar : CheckpointSidecar := MkSidecar [demo_cp] (Some tt) true false.

Lemma demo_full_records : dir_records demo_full = Ok [demo_r0; demo_r1].
Proof. reflexivity. Qed.

Lemma demo_pruned_records : dir_records demo_pruned = Ok [demo_r1].
Proof. reflexivity. Qed.

Lemma demo_full_ok : exists rep, verify_dir demo_full (Some "key") = Ok rep /\ chain_ok rep = true.
Proof. eexists. split; vm_compute; reflexivity. Qed.

Lemma demo_pruned_ok : exists rep, verify_dir demo_pruned (Some "key") = Ok rep /\ chain_ok rep = true.
Proof. eexists. split; vm_compute; reflexivity. Qed.

Lemma anchored_log_tamper_evident_witness :
  [demo_r1] `suffix_of` [demo_r0; demo_r1] \/ collides [demo_r1] [demo_r0; demo_r1].
Proof.
  destruct demo_pruned_ok as (rep1 & Hv1 & Hc1). destruct demo_full_ok as (rep2 & Hv2 & Hc2).
  apply (anchored_log_tamper_evident demo_pruned demo_full (Some "key") (Some "key") rep1 rep2 _ _
           Hv1 Hc1 Hv2 Hc2 demo_pruned_records demo_full_records); [reflexivity|discriminate].
Defined.

Lemma signed_prefix_tamper_evident_witness :
  upto 1 [demo_r1] `suffix_of` upto 1 [demo_r0; demo_r1] \/ collides [demo_r1] [demo_r0; demo_r1].
Proof.
  destruct demo_pruned_ok as (rep1 & Hv1 & Hc1). destruct demo_full_ok as (rep2 & Hv2 & Hc2).
  refine (proj2 (proj2 (signed_prefix_tamper_evident demo_pruned demo_full (Some "key") (Some "key") rep1 rep2 _ _
           demo_sidecar demo_sidecar demo_cp demo_cp
           Hv1 Hc1 Hv2 Hc2 demo_pruned_records demo_full_records eq_refl eq_refl
           (list_elem_of_here _ _) (list_elem_of_here _ _) eq_refl _ _ _ _ _)));
    [discriminate|discriminate|split; discriminate|split; discriminate|discriminate].
Defined.

Lemma written_log_verifies_witness :
  exists rep, verify_dir demo_pruned (Some "key") = Ok rep /\ chain_ok rep = true.
Proof.
  apply (written_log_verifies demo_pruned (Some "key") demo_sidecar [demo_r0; demo_r1] [demo_r0; demo_r1]
           (MkChainState demo_h1 2) 1 "anchor");
    [reflexivity|reflexivity|repeat constructor|exact demo_pruned_records|reflexivity| | |reflexivity|reflexivity].
  - intros cl Hcl. apply list_elem_of_singleton in Hcl as ->.
    split; [intros k Hk; reflexivity|]. split; [discriminate|]. split; [reflexivity|].
    exists demo_r1. split; [reflexivity|discriminate].
  - intros Hs. exists demo_cp. split; [left|discriminate].
Defined.

Definition demo_gappy : list AuditRecord :=
  [demo_record 3 EmptyString; demo_record 5 EmptyString; demo_record 5 EmptyString; demo_record 8 EmptyString].

Lemma gap_report_exact_witness :
  7 ∈ ro_gaps (StreamReplay_finish (replay ∅ demo_gappy)) <-> 3 <= 7 <= 8 /\ ~ seq_present 7 demo_gappy.
Proof.
  refine (proj2 (proj2 (proj2 (gap_report_exact ∅ demo_gappy _ _))) _ 7); [discriminate| |].
  - intros i r r' Hi Hi'. do 4 (destruct i as [|i]; [cbn in Hi, Hi'; simplify_eq; discriminate|]). discriminate Hi.
  - vm_compute. reflexivity.
Defined.
