(* ===== verification/AuditSink.v ===== *)
(** * The audit sink: the writer of the log

    Models [crates/server/src/server/audit.rs]: the bounded channel and
    [AuditSink::emit], the writer's state, rotation, pruning, checkpoints, the
    anchor, recovery at start-up, and the writer's message loop.

    The directory is a map from file names to contents.  Every system call
    consumes one entry of a fault schedule: it succeeds, fails, or the process
    dies in it; a write may be cut short in the last two cases.  An exhausted
    schedule means no further faults.  The clock and the shared drop counter
    are read once per message.  Sizes and counts of bytes are below [2^64] on
    every real disk and are plain [N]. *)

From Stdlib Require Import Ascii.
From S2P Require Import Prelude Text AuditChain AuditFiles.
Open Scope N_scope.

(** ** Lines of a file *)

Definition newline : Ascii.ascii := Ascii.ascii_of_N 10.
Definition carriage_return : Ascii.ascii := Ascii.ascii_of_N 13.
Definition nl : string := String newline EmptyString.

Definition starts_nl (s : string) : bool := match s with String c _ => bool_decide (c = newline) | EmptyString => false end.

(** [str::lines]: a final line needs no terminator; [\r\n] ends a line too. *)
Fixpoint str_lines (s : string) : list string :=
  match s with
  | EmptyString => []
  | String c s =>
      if bool_decide (c = newline) then EmptyString :: str_lines s
      else if bool_decide (c = carriage_return) && starts_nl s then str_lines s
      else match str_lines s with
           | [] => [String c EmptyString]
           | l :: ls => String c l :: ls
           end
  end.

Fixpoint str_drop (n : nat) (s : string) : string :=
  match n, s with
  | S n, String _ s => str_drop n s
  | _, _ => s
  end.

Fixpoint str_take (n : nat) (s : string) : string :=
  match n, s with
  | S n, String c s => String c (str_take n s)
  | _, _ => EmptyString
  end.

Definition str_len (s : string) : N := N.of_nat (String.length s).

(** ** The disk *)

Inductive IoError := NotFound | OtherError.

(** A call that fails, or in which the process dies, after [n] bytes. *)
Inductive Fault := IoFails (n : nat) | IoKills (n : nat).

Record Disk := MkDisk {
  files : gmap string string;
  schedule : list (option Fault);
  alive : bool;
}.
#[export] Instance Disk_eta : Eta Disk := fun d => MkDisk (files d) (schedule d) (alive d).

(** Stateful code that may fail; an error keeps the state reached. *)
Definition SinkM (S A : Type) : Type := S -> Result A IoError * S.
Definition sret {S A} (a : A) : SinkM S A := fun s => (Ok a, s).
Definition sbind {S A B} (m : SinkM S A) (k : A -> SinkM S B) : SinkM S B := fun s =>
  match m s with (Ok a, s) => k a s | (Err e, s) => (Err e, s) end.
(** [let _ = m;]. *)
Definition ignore {S A} (m : SinkM S A) : SinkM S unit := fun s => (Ok tt, (m s).2).

Declare Scope sink_scope.
Delimit Scope sink_scope with sink.
Notation "x <- m ;; k" := (sbind m (fun x => k))
  (at level 100, m at next level, k at level 200, right associativity) : sink_scope.
Notation "m ;;; k" := (sbind m (fun _ => k))
  (at level 100, k at level 200, right associativity) : sink_scope.
Open Scope sink_scope.

Abbreviation Files := (gmap string string).

Definition syscall {A} (torn : nat -> Files -> Files) (run : Files -> Result A IoError * Files) : SinkM Disk A := fun d =>
  if negb (alive d) then (Err OtherError, d)
  else match schedule d with
       | Some (IoFails n) :: rest => (Err OtherError, MkDisk (torn n (files d)) rest true)
       | Some (IoKills n) :: rest => (Err OtherError, MkDisk (torn n (files d)) rest false)
       | None :: rest => let '(r, fs) := run (files d) in (r, MkDisk fs rest true)
       | [] => let '(r, fs) := run (files d) in (r, MkDisk fs [] true)
       end.

Definition untorn (n : nat) (fs : Files) : Files := fs.
Definition append_to (name data : string) (fs : Files) : Files := <[name := default EmptyString (fs !! name) +:+ data]> fs.

Definition open_append (name : string) : SinkM Disk unit :=
  syscall untorn (fun fs => (Ok tt, append_to name EmptyString fs)).
Definition open_truncate (name : string) : SinkM Disk unit :=
  syscall untorn (fun fs => (Ok tt, <[name := EmptyString]> fs)).
Definition write_all (name data : string) : SinkM Disk unit :=
  syscall (fun n => append_to name (str_take n data)) (fun fs => (Ok tt, append_to name data fs)).
Definition sync_all : SinkM Disk unit := syscall untorn (fun fs => (Ok tt, fs)).
Definition rename (from to : string) : SinkM Disk unit :=
  syscall untorn (fun fs => match fs !! from with
                            | Some c => (Ok tt, <[to := c]> (delete from fs))
                            | None => (Err NotFound, fs)
                            end).
Definition remove_file (name : string) : SinkM Disk unit :=
  syscall untorn (fun fs => match fs !! name with Some _ => (Ok tt, delete name fs) | None => (Err NotFound, fs) end).
Definition read_file (name : string) : SinkM Disk string :=
  syscall untorn (fun fs => (match fs !! name with Some c => Ok c | None => Err NotFound end, fs)).
Definition file_len (name : string) : SinkM Disk N :=
  syscall untorn (fun fs => (match fs !! name with Some c => Ok (str_len c) | None => Err NotFound end, fs)).
Definition read_dir `{HashIter} : SinkM Disk (list string) := syscall untorn (fun fs => (Ok (hiter fs).*1, fs)).

(** ** The anchor, with the tail pointer of the sink's format *)

Record SinkAnchor := MkSinkAnchor { sa_last_hash : string; sa_last_seq : N; active_bytes : N }.

(** JSON and Ed25519, on the writing side. *)
Class SinkCodec `{AC : AuditCodec} := {
  SigningKey : Type;
  sign_checkpoint : SigningKey -> Checkpoint -> string;
  checkpoint_json : Checkpoint -> string -> string;
  anchor_json : SinkAnchor -> string;
  parse_sink_anchor : string -> option SinkAnchor;
}.

(** What [serde_json] writes is one line that starts with a brace: control
    characters inside strings are escaped. *)
Fixpoint one_line (s : string) : bool :=
  match s with
  | EmptyString => true
  | String c s => negb (bool_decide (c = newline)) && negb (bool_decide (c = carriage_return)) && one_line s
  end.
Definition json_line (s : string) : bool := 
  match s with String c s => bool_decide (c = "{"%char) && one_line s | EmptyString => false end.

Class SinkCodecLaws `{SC : SinkCodec} := {
  serialize_line r : json_line (serialize r) = true;
  serialize_parse r : parse_record (serialize r) = Some r;
  checkpoint_line cp sig : json_line (checkpoint_json cp sig) = true;
  checkpoint_parse cp sig : parse_checkpoint (checkpoint_json cp sig) = Some (MkCheckpointLine cp sig);
  anchor_parse a : parse_anchor (anchor_json a) = Some (MkAnchorFile (sa_last_hash a) (sa_last_seq a));
  sink_anchor_parse a : parse_sink_anchor (anchor_json a) = Some a;
}.

Definition ACTIVE_NAME : string := "audit.jsonl".
Definition ANCHOR_TMP : string := "audit.anchor.json.tmp".
Definition CHECKPOINT_INTERVAL : N := 100.

(** ** Recovery *)

Section recovery.
Context `{SC : SinkCodec}.

Definition read_active_suffix (offset : N) : SinkM Disk string := fun d =>
  match read_file ACTIVE_NAME d with
  | (Ok c, d) => (Ok (str_drop (N.to_nat offset) c), d)
  | (Err NotFound, d) => (Ok EmptyString, d)
  | (Err e, d) => (Err e, d)
  end.

(** Never fails: an unreadable anchor is no anchor. *)
Definition read_anchor_tail : SinkM Disk (N * option ChainState) := fun d =>
  match read_file ANCHOR_NAME d with
  | (Ok data, d) =>
      match parse_sink_anchor data with
      | Some a => (Ok (active_bytes a, Some (MkChainState (sa_last_hash a) (sa_last_seq a))), d)
      | None => (Ok (0, None), d)
      end
  | (Err _, d) => (Ok (0, None), d)
  end.

Definition load_chain_state : SinkM Disk ChainState := fun d =>
  match file_len ANCHOR_NAME d with
  | (Err _, d) => (Ok ChainState_genesis, d)
  | (Ok _, d) =>
      (data <- read_file ANCHOR_NAME;;
       match parse_sink_anchor data with
       | Some a => sret (MkChainState (sa_last_hash a) (sa_last_seq a))
       | None => fun d => (Err OtherError, d)
       end) d
  end.

(** The last line that parses. *)
Definition last_valid (suffix : string) : option AuditRecord :=
  foldl (fun acc line =>
    if bool_decide (trim line = EmptyString) then acc
    else match parse_record line with Some r => Some r | None => acc end) None (str_lines suffix).

Definition reconstruct_chain_state : SinkM Disk ChainState :=
  tail <- read_anchor_tail;;
  fun d =>
    let '(offset, d) := match file_len ACTIVE_NAME d with
                        | (Ok len, d) => (if len <? tail.1 then 0 else tail.1, d)
                        | (Err _, d) => (tail.1, d)
                        end in
    match read_active_suffix offset d with
    | (Ok suffix, d) =>
        match last_valid suffix with
        | Some r => (Ok (MkChainState (record_hash (prev_hash r) r) (wrapping_add64 (ar_seq r) 1)), d)
        | None =>
            match tail.2 with
            | Some chain => (Ok chain, d)
            | None => load_chain_state d
            end
        end
    | (Err _, d) => load_chain_state d
    end.

(** ** Anchor, rotation and checkpoint helpers *)

Definition fsync_dir : SinkM Disk unit := sync_all.

Definition write_anchor (chain : ChainState) (active : N) : SinkM Disk unit :=
  open_truncate ANCHOR_TMP;;;
  write_all ANCHOR_TMP (anchor_json (MkSinkAnchor (last_hash chain) (last_seq chain) active));;;
  sync_all;;;
  rename ANCHOR_TMP ANCHOR_NAME;;;
  fsync_dir.

Definition parse_rotation_n (name : string) : option N :=
  rest ← strip_prefix "audit." name;
  digits ← strip_suffix ".jsonl" rest;
  if bool_decide (digits = EmptyString) || negb (all_digits digits) then None else parse_u64 digits.

Context `{HI : HashIter}.

Definition find_max_rotation_n : SinkM Disk N :=
  names <- read_dir;;
  sret (foldl (fun m name => match parse_rotation_n name with Some n => if m <? n then n else m | None => m end) 0 names).

(** [sort_by_key] is stable. *)
Fixpoint insert_rotated (x : N * string) (l : list (N * string)) : list (N * string) :=
  match l with
  | [] => [x]
  | y :: l' => if x.1 <? y.1 then x :: y :: l' else y :: insert_rotated x l'
  end.

Fixpoint remove_all (names : list string) : SinkM Disk unit :=
  match names with
  | [] => sret tt
  | name :: names => ignore (remove_file name);;; remove_all names
  end.

Definition prune_rotated_files (keep : N) : SinkM Disk unit :=
  if keep =? 0 then sret tt
  else
    names <- read_dir;;
    let rotated := omap (fun name => n ← parse_rotation_n name; Some (n, name)) names in
    let len := N.of_nat (length rotated) in
    if len <=? keep then sret tt
    else remove_all (take (N.to_nat (len - keep)) (foldl (fun acc x => insert_rotated x acc) [] rotated)).*2.

Definition write_checkpoint_line (chain : ChainState) (ts record_count : N) (signer : SigningKey) : SinkM Disk unit :=
  let cp := MkCheckpoint (last_seq chain - 1) (last_hash chain) ts record_count in
  let sig := sign_checkpoint signer cp in
  open_append SIDECAR_NAME;;;
  write_all SIDECAR_NAME (checkpoint_json cp sig +:+ nl).

(** ** The writer *)

(** [ws_file] is the name of the file the handle refers to: a handle follows
    its file through a rename. *)
Record WriterState := MkWriterState {
  ws_chain : ChainState;
  ws_file : string;
  file_bytes : N;
  ws_signer : option SigningKey;
  rotate_max_bytes : N;
  rotate_keep_files : N;
  record_count : N;
  records_since_checkpoint : N;
  last_seen_dropped : N;
}.
#[export] Instance WriterState_eta : Eta WriterState := fun w =>
  MkWriterState (ws_chain w) (ws_file w) (file_bytes w) (ws_signer w) (rotate_max_bytes w) (rotate_keep_files w)
    (record_count w) (records_since_checkpoint w) (last_seen_dropped w).

Definition WriterState_open (signer : option SigningKey) (rotate_max_bytes rotate_keep_files : N) : SinkM Disk WriterState :=
  chain <- reconstruct_chain_state;;
  open_append ACTIVE_NAME;;;
  len <- file_len ACTIVE_NAME;;
  sret (MkWriterState chain ACTIVE_NAME len signer rotate_max_bytes rotate_keep_files 0 0 0).

Definition Writer (A : Type) : Type := SinkM (WriterState * Disk) A.
Definition io {A} (m : SinkM Disk A) : Writer A := fun '(w, d) => let '(r, d) := m d in (r, (w, d)).
Definition wget {A} (f : WriterState -> A) : Writer A := fun s => (Ok (f s.1), s).
Definition wmod (f : WriterState -> WriterState) : Writer unit := fun '(w, d) => (Ok tt, (f w, d)).

(** What the writer reads of its surroundings while it handles a message. *)
Record SinkEnv := MkSinkEnv { env_now : N; env_dropped : N }.

Definition rotate : Writer unit :=
  io sync_all;;;
  max <- io find_max_rotation_n;;
  let rotated := rotated_name (wrapping_add64 max 1) in
  io (rename ACTIVE_NAME rotated);;;
  wmod (fun w => if bool_decide (ws_file w = ACTIVE_NAME) then w <| ws_file := rotated |> else w);;;
  io fsync_dir;;;
  io (open_truncate ACTIVE_NAME);;;
  wmod (fun w => w <| ws_file := ACTIVE_NAME |> <| file_bytes := 0 |>);;;
  keep <- wget rotate_keep_files;;
  io (prune_rotated_files keep);;;
  chain <- wget ws_chain;; bytes <- wget file_bytes;;
  io (write_anchor chain bytes).

Definition do_checkpoint (e : SinkEnv) : Writer unit :=
  signer <- wget ws_signer;; chain <- wget ws_chain;; count <- wget record_count;;
  match signer with
  | Some sk => io (write_checkpoint_line chain (env_now e) count sk)
  | None => sret tt
  end;;;
  wmod (fun w => w <| records_since_checkpoint := 0 |>);;;
  chain <- wget ws_chain;; bytes <- wget file_bytes;;
  io (write_anchor chain bytes).

Definition write_record_raw (e : SinkEnv) (rec : AuditRecord) : Writer unit :=
  chain <- wget ws_chain;;
  let '(rec, chain) := ChainState_append rec chain in
  wmod (fun w => w <| ws_chain := chain |>);;;
  let line := serialize rec +:+ nl in
  bytes <- wget file_bytes;; limit <- wget rotate_max_bytes;;
  (if (0 <? bytes) && (limit <? bytes + str_len line) then rotate else sret tt);;;
  file <- wget ws_file;;
  io (write_all file line);;;
  wmod (fun w => w <| file_bytes ::= N.add (str_len line) |> <| record_count ::= N.succ |>
                   <| records_since_checkpoint ::= N.succ |>);;;
  since <- wget records_since_checkpoint;;
  if CHECKPOINT_INTERVAL <=? since then do_checkpoint e else sret tt.

Definition gap_sentinel (now delta : N) : AuditRecord :=
  MkAuditRecord AUDIT_SCHEMA_VERSION 0 now 0 EmptyString EmptyString None GAP_SENTINEL_METHOD SystemClass None None None 0 0
    (Some delta).

Definition maybe_write_gap_sentinel (e : SinkEnv) : Writer unit :=
  seen <- wget last_seen_dropped;;
  if env_dropped e <=? seen then sret tt
  else
    wmod (fun w => w <| last_seen_dropped := env_dropped e |>);;;
    write_record_raw e (gap_sentinel (env_now e) (env_dropped e - seen)).

Definition write_record (e : SinkEnv) (rec : AuditRecord) : Writer unit :=
  maybe_write_gap_sentinel e;;; write_record_raw e rec.

Definition flush (e : SinkEnv) : Writer unit :=
  maybe_write_gap_sentinel e;;;
  io sync_all;;;
  since <- wget records_since_checkpoint;;
  if 0 <? since then do_checkpoint e
  else chain <- wget ws_chain;; bytes <- wget file_bytes;; io (write_anchor chain bytes).

(** ** The message loop *)

(** A message found while draining the channel before a flush. *)
Inductive DrainMsg := DrainRecord (rec : AuditRecord) | DrainFlush | DrainCheckpoint.

Inductive WriterMsg :=
| WriteRecord (rec : AuditRecord)
| Flush (drained : list (SinkEnv * DrainMsg))
| WriteCheckpoint.

Definition drain_msg (e : SinkEnv) (m : DrainMsg) (s : WriterState * Disk) : WriterState * Disk :=
  match m with
  | DrainRecord rec => (write_record e rec s).2
  | DrainFlush | DrainCheckpoint => s
  end.

(** One message: errors are logged, the loop goes on. *)
Definition writer_msg (e : SinkEnv) (m : WriterMsg) (s : WriterState * Disk) : WriterState * Disk :=
  match m with
  | WriteRecord rec => (write_record e rec s).2
  | Flush drained => (flush e (foldl (fun s '(e, m) => drain_msg e m s) s drained)).2
  | WriteCheckpoint =>
      if (0 <? records_since_checkpoint s.1) && bool_decide (is_Some (ws_signer s.1))
      then (do_checkpoint e s).2 else s
  end.

(** [writer_task]: the channel's messages until it closes, then a last flush. *)
Definition writer_task (msgs : list (SinkEnv * WriterMsg)) (close : SinkEnv) (s : WriterState * Disk) : WriterState * Disk :=
  (flush close (foldl (fun s '(e, m) => writer_msg e m s) s msgs)).2.

(** The directory as the verifier reads it. *)
Definition file_view (c : string) : FileView := Some (Some <$> str_lines c).
Definition audit_dir (fs : Files) : AuditDir :=
  MkAuditDir (Some ((fun '(name, c) => (name, file_view c)) <$> hiter fs)) (file_view <$> fs !! SIDECAR_NAME)
    (Some <$> fs !! ANCHOR_NAME).
End recovery.
Arguments WriterState {_ _}.
