(* ===== verification/SinkProps.v ===== *)
(** * The audit sink: properties

    Without faults, the log stays verifiable through any sequence of records,
    checkpoints, rotations, prunings, restarts and flushes, and a restart
    resumes exactly where the previous run stopped. *)

From Stdlib Require Import Ascii Sorted.
From stdpp Require Import sorting.
From S2P Require Import Prelude Text AuditChain AuditProps AuditFiles AuditSink.
Open Scope N_scope.
Open Scope sink_scope.

(** ** Lines *)

Lemma str_lines_line l s : one_line l = true -> str_lines (l +:+ nl +:+ s) = l :: str_lines s.
Proof.
  induction l as [|c l IH]; [done|]. cbn [one_line]. intros H. apply andb_true_iff in H as [H Hl].
  apply andb_true_iff in H as [H1 H2]. apply negb_true_iff in H1, H2.
  change (String c l +:+ nl +:+ s) with (String c (l +:+ nl +:+ s)). cbn [str_lines]. by rewrite H1, H2, (IH Hl).
Qed.


Lemma json_one_line s : json_line s = true -> one_line s = true.
Proof.
  destruct s as [|c s]; [done|]. cbn. intros [Hc H]%andb_true_iff. apply bool_decide_eq_true in Hc as ->. by rewrite H.
Qed.




(** ** Contents of the files *)

Section contents.
Context `{SL : SinkCodecLaws}.

Definition text (rs : list AuditRecord) : string := foldr (fun r acc => serialize r +:+ nl +:+ acc) EmptyString rs.
Definition cp_text (cps : list CheckpointLine) : string :=
  foldr (fun cl acc => checkpoint_json (checkpoint cl) (signature cl) +:+ nl +:+ acc) EmptyString cps.

Lemma text_cons r rs : text (r :: rs) = serialize r +:+ nl +:+ text rs.
Proof. done. Qed.

Lemma cp_text_cons cl cps : cp_text (cl :: cps) = checkpoint_json (checkpoint cl) (signature cl) +:+ nl +:+ cp_text cps.
Proof. done. Qed.

Lemma text_app a b : text (a ++ b) = text a +:+ text b.
Proof. induction a as [|r a IH]; [done|]. cbn [app]. by rewrite !text_cons, !str_app_assoc, IH. Qed.

Lemma text_snoc a r : text (a ++ [r]) = text a +:+ (serialize r +:+ nl).
Proof. rewrite text_app. cbn. by rewrite append_empty_r. Qed.

Lemma cp_text_snoc a cp sig : cp_text (a ++ [MkCheckpointLine cp sig]) = cp_text a +:+ (checkpoint_json cp sig +:+ nl).
Proof.
  induction a as [|cl a IH]; cbn [app]; rewrite !cp_text_cons; [cbn [checkpoint signature]; by rewrite append_empty_r|].
  by rewrite IH, !str_app_assoc.
Qed.

Lemma text_lines rs : str_lines (text rs) = serialize <$> rs.
Proof.
  induction rs as [|r rs IH]; [done|]. by rewrite text_cons, str_lines_line, IH by (apply json_one_line, serialize_line).
Qed.

Lemma cp_text_lines cps : str_lines (cp_text cps) = (fun cl => checkpoint_json (checkpoint cl) (signature cl)) <$> cps.
Proof.
  induction cps as [|cl cps IH]; [done|]. by rewrite cp_text_cons, str_lines_line, IH by (apply json_one_line, checkpoint_line).
Qed.


Lemma serialize_not_empty r : serialize r <> EmptyString.
Proof. intros H. pose proof (serialize_line r) as Hl. by rewrite H in Hl. Qed.

Lemma text_empty rs : str_len (text rs) = 0 -> rs = [].
Proof.
  destruct rs as [|r rs]; [done|]. unfold str_len. rewrite text_cons, !str_app_length. cbn. lia.
Qed.

Lemma str_len_app a b : str_len (a +:+ b) = str_len a + str_len b.
Proof. unfold str_len. rewrite str_app_length. lia. Qed.

(** What the verifier reads in a log file and in the sidecar. *)
Lemma parse_text path rs : forall n,
  Forall (fun r => schema_version r = AUDIT_SCHEMA_VERSION) rs -> parse_lines path n (Some <$> str_lines (text rs)) = Ok rs.
Proof.
  rewrite text_lines. induction rs as [|r rs IH]; intros n Hv; [done|]. apply Forall_cons in Hv as [Hr Hv]. cbn.
  rewrite bool_decide_false by apply serialize_not_empty. rewrite serialize_parse, bool_decide_true by done. by rewrite IH.
Qed.

Lemma parse_cp_text cps : forall n, parse_sidecar_lines n (Some <$> str_lines (cp_text cps)) = Ok cps.
Proof.
  rewrite cp_text_lines. induction cps as [|cl cps IH]; intros n; [done|]. cbn.
  rewrite bool_decide_false; [|intros H; pose proof (checkpoint_line (checkpoint cl) (signature cl)) as Hl; by rewrite H in Hl].
  rewrite checkpoint_parse, IH. by destruct cl.
Qed.
End contents.

(** ** Names *)

#[local] Arguments parse_rotation_n : simpl never.
#[local] Arguments rotated_name : simpl never.

Lemma log_name_not_other name : is_audit_log name = true -> name <> SIDECAR_NAME /\ name <> ANCHOR_NAME /\ name <> ANCHOR_TMP.
Proof. intros H. split_and!; intros ->; by vm_compute in H. Qed.

Lemma rotated_inj n m : 0 < n -> 0 < m -> rotated_name n = rotated_name m -> n = m.
Proof.
  intros Hn Hm H. assert (Some n = Some m) as [= ->]; [|done].
  apply (minted_inj (rotated_name n)); split; cbn [mint]; [done|by intros ? [= <-]|done|by intros ? [= <-]].
Qed.

Lemma parse_rotated n : 0 < n -> n <= u64_MAX -> parse_rotation_n (rotated_name n) = Some n.
Proof.
  intros Hn Hle. unfold parse_rotation_n, rotated_name. rewrite strip_prefix_app. cbn [mbind option_bind].
  rewrite strip_suffix_app. cbn [mbind option_bind].
  rewrite bool_decide_false; [|rewrite pretty_digits by done; intros H; pose proof (digits_nonempty n Hn) as Hx; rewrite H in Hx; cbn in Hx; lia].
  replace (all_digits (pretty n)) with true by (rewrite pretty_digits by done; symmetry; apply digits_all).
  cbn [orb negb]. by apply from_str_radix_pretty.
Qed.

Lemma parse_rotation_log name n : parse_rotation_n name = Some n -> is_audit_log name = true /\ name <> ACTIVE_NAME.
Proof.
  unfold parse_rotation_n, is_audit_log. intros H. split; [|intros ->; by vm_compute in H].
  case_bool_decide; [done|]. destruct (strip_prefix "audit." name) as [rest|]; [|done]. cbn [mbind option_bind] in *.
  destruct (strip_suffix ".jsonl" rest) as [ds|]; [|done]. cbn [mbind option_bind] in H.
  case_bool_decide; [done|]. by destruct (all_digits ds).
Qed.

(** ** Running the writer step by step *)

Lemma sbind_ok {S A B} (m : SinkM S A) (k : A -> SinkM S B) s a s' : m s = (Ok a, s') -> sbind m k s = k a s'.
Proof. unfold sbind. by intros ->. Qed.

Lemma io_ok `{SC : SinkCodec} {A} (m : SinkM Disk A) w d a d' : m d = (Ok a, d') -> io m (w, d) = (Ok a, (w, d')).
Proof. unfold io. by intros ->. Qed.

Ltac run_step := erewrite sbind_ok by (first [eassumption | apply io_ok; eassumption | reflexivity | apply io_ok; reflexivity]); cbv beta.

(** ** What the directory holds *)

(** [rot] are the rotated files in order, [act] the active file, [cps] the
    checkpoints, [anc] the anchor; other files may lie around. *)
Section rep.
Context `{SL : SinkCodecLaws}.

Record disk_rep (fs : Files) (rot : list (N * list AuditRecord)) (act : list AuditRecord)
    (cps : list CheckpointLine) (anc : option SinkAnchor) : Prop := {
  dr_active : fs !! ACTIVE_NAME = Some (text act);
  dr_rotated n rs : (n, rs) ∈ rot -> fs !! rotated_name n = Some (text rs);
  dr_logs name : is_Some (fs !! name) -> is_audit_log name = true ->
    name = ACTIVE_NAME \/ exists n rs, (n, rs) ∈ rot /\ name = rotated_name n;
  dr_sidecar : fs !! SIDECAR_NAME = match cps with [] => None | _ => Some (cp_text cps) end;
  dr_anchor : fs !! ANCHOR_NAME = anchor_json <$> anc;
  dr_sorted : StronglySorted N.lt rot.*1;
  dr_range n : n ∈ rot.*1 -> 0 < n <= u64_MAX;
}.

Lemma rotated_log n rot fs act cps anc : disk_rep fs rot act cps anc -> n ∈ rot.*1 -> is_audit_log (rotated_name n) = true.
Proof. intros R Hn. apply rotated_is_log. by apply (dr_range _ _ _ _ _ R). Qed.

(** Files that are not logs, the sidecar or the anchor do not matter. *)
Lemma rep_same fs fs' rot act cps anc :
  (forall name, is_audit_log name = true \/ name = SIDECAR_NAME \/ name = ANCHOR_NAME -> fs' !! name = fs !! name) ->
  disk_rep fs rot act cps anc -> disk_rep fs' rot act cps anc.
Proof.
  intros Heq R. pose proof R as [R1 R2 R3 R4 R5 R6 R7]. split; try done.
  - rewrite Heq; [done|]. left. by vm_compute.
  - intros n rs Hn. rewrite Heq; [by apply R2|]. left. eapply rotated_log; [exact R|]. by apply (list_elem_of_fmap_2 fst) in Hn.
  - intros name Hs Hl. apply R3; [|done]. by rewrite <- Heq by tauto.
  - rewrite Heq by tauto. done.
  - rewrite Heq by tauto. done.
Qed.

Definition calm (fs : Files) : Disk := MkDisk fs [] true.

Lemma rep_anchor fs rot act cps anc a :
  disk_rep fs rot act cps anc -> disk_rep (<[ANCHOR_NAME := anchor_json a]> (delete ANCHOR_TMP fs)) rot act cps (Some a).
Proof.
  intros R. assert (disk_rep (delete ANCHOR_TMP fs) rot act cps anc) as [R1 R2 R3 R4 R5 R6 R7].
  { eapply rep_same; [|exact R]. intros name Hn. rewrite lookup_delete_ne; [done|].
    destruct Hn as [Hn|[->| ->]]; [|done..]. intros Heq. subst name. by vm_compute in Hn. }
  assert (forall name, is_audit_log name = true -> name <> ANCHOR_NAME) as Hne by (intros name Hn; by apply log_name_not_other).
  split; try done.
  - by rewrite lookup_insert_ne.
  - intros n rs Hn. rewrite lookup_insert_ne; [by apply R2|]. intros Heq. eapply Hne; [|by symmetry].
    eapply rotated_log; [exact R|]. by apply (list_elem_of_fmap_2 fst) in Hn.
  - intros name Hs Hl. apply R3; [|done]. by rewrite lookup_insert_ne in Hs by (intros Heq; by apply (Hne name)).
  - by rewrite lookup_insert_ne.
  - by rewrite lookup_insert_eq.
Qed.

Lemma rep_append fs rot act cps anc r :
  disk_rep fs rot act cps anc -> disk_rep (append_to ACTIVE_NAME (serialize r +:+ nl) fs) rot (act ++ [r]) cps anc.
Proof.
  intros R. pose proof R as [R1 R2 R3 R4 R5 R6 R7]. unfold append_to. rewrite R1. cbn [default from_option].
  assert (forall n, n ∈ rot.*1 -> rotated_name n <> ACTIVE_NAME) as Hne by (intros; apply rotated_not_active). split; try done.
  - by rewrite lookup_insert_eq, text_snoc.
  - intros n rs Hn. rewrite lookup_insert_ne; [by apply R2|]. apply not_eq_sym, Hne. by apply (list_elem_of_fmap_2 fst) in Hn.
  - intros name Hs Hl. destruct (decide (name = ACTIVE_NAME)) as [->|Hn]; [by left|]. apply R3; [|done].
    by rewrite lookup_insert_ne in Hs.
  - by rewrite lookup_insert_ne.
  - by rewrite lookup_insert_ne.
Qed.

Lemma rep_checkpoint fs rot act cps anc cp sig :
  disk_rep fs rot act cps anc ->
  disk_rep (append_to SIDECAR_NAME (checkpoint_json cp sig +:+ nl) fs) rot act (cps ++ [MkCheckpointLine cp sig]) anc.
Proof.
  intros R. pose proof R as [R1 R2 R3 R4 R5 R6 R7]. unfold append_to. split; try done.
  - by rewrite lookup_insert_ne.
  - intros n rs Hn. rewrite lookup_insert_ne; [by apply R2|]. intros Heq.
    assert (is_audit_log (rotated_name n) = true) as Hl by (eapply rotated_log; [exact R|]; by apply (list_elem_of_fmap_2 fst) in Hn).
    rewrite <- Heq in Hl. by vm_compute in Hl.
  - intros name Hs Hl. apply R3; [|done]. rewrite lookup_insert_ne in Hs; [done|]. intros <-. by vm_compute in Hl.
  - rewrite lookup_insert_eq, R4, cp_text_snoc. by destruct cps.
  - by rewrite lookup_insert_ne.
Qed.

(** *** Rotation *)

Context `{HI : HashIter}.

Definition rotations (fs : Files) : list (N * string) :=
  omap (fun name => n ← parse_rotation_n name; Some (n, name)) (hiter fs).*1.

Lemma rotations_perm fs rot act cps anc :
  disk_rep fs rot act cps anc -> rotations fs ≡ₚ (fun n => (n, rotated_name n)) <$> rot.*1.
Proof.
  intros R. pose proof R as [R1 R2 R3 R4 R5 R6 R7].
  assert (NoDup rot.*1) as Hnd.
  { clear -R6. induction R6 as [|n l Hs IH Hf]; constructor; [|done]. intros Hin. rewrite Forall_forall in Hf. specialize (Hf n Hin). lia. }
  apply NoDup_Permutation.
  - unfold rotations. pose proof (hiter_NoDup_keys fs) as Hk. revert Hk. generalize ((hiter fs).*1) as names.
    induction names as [|name names IH]; [constructor|]. intros [Hin Hk]%NoDup_cons. cbn.
    destruct (parse_rotation_n name) as [n|]; cbn; [|by apply IH]. constructor; [|by apply IH].
    intros (name' & Hin' & Hp)%list_elem_of_omap. destruct (parse_rotation_n name'); [|done]. cbn in Hp. by simplify_eq.
  - apply NoDup_fmap_2; [|done]. by intros ? ? [= ->].
  - intros [n name]. unfold rotations. rewrite list_elem_of_omap, list_elem_of_fmap. split.
    + intros (name' & Hin & Hp). destruct (parse_rotation_n name') as [m|] eqn:Em; [|done]. cbn in Hp. simplify_eq.
      apply list_elem_of_fmap in Hin as ([name2 c] & -> & Hin). apply elem_of_hiter in Hin. cbn [fst] in *.
      destruct (parse_rotation_log _ _ Em) as [Hl Hne].
      destruct (R3 name2 ltac:(by eexists) Hl) as [->|(k & rs & Hk & ->)]; [done|].
      assert (k ∈ rot.*1) as Hk' by (by apply (list_elem_of_fmap_2 fst) in Hk).
      destruct (R7 k Hk'). rewrite parse_rotated in Em by done. injection Em as ->. by exists n.
    + intros (k & [= -> ->] & Hk). destruct (R7 k Hk). exists (rotated_name k). split; [|by rewrite parse_rotated].
      apply list_elem_of_fmap in Hk as ([k' rs] & -> & Hk). apply R2 in Hk. cbn [fst]. apply list_elem_of_fmap.
      exists (rotated_name k', text rs). split; [done|]. by apply elem_of_hiter.
Qed.

(** The largest rotation index; zero when there is none. *)
Lemma find_max_run fs rot act cps anc :
  disk_rep fs rot act cps anc ->
  exists m, find_max_rotation_n (calm fs) = (Ok m, calm fs) /\ (forall n, n ∈ rot.*1 -> n <= m) /\ (m = 0 \/ m ∈ rot.*1).
Proof.
  intros R. pose proof (rotations_perm _ _ _ _ _ R) as Hp. eexists. split; [reflexivity|].
  assert (forall names acc, let m := foldl (fun m name => match parse_rotation_n name with Some n => if m <? n then n else m | None => m end) acc names in
    acc <= m /\ (forall n name, name ∈ names -> parse_rotation_n name = Some n -> n <= m) /\
    (m = acc \/ exists name, name ∈ names /\ parse_rotation_n name = Some m)) as Hfold.
  { induction names as [|name names IH]; intros acc; cbn.
    - split_and!; [lia|intros ? ? Hx; by apply not_elem_of_nil in Hx|by left].
    - set (acc' := match parse_rotation_n name with Some n => if acc <? n then n else acc | None => acc end).
      destruct (IH acc') as (I1 & I2 & I3). cbn zeta in *.
      assert (acc <= acc' /\ (forall n, parse_rotation_n name = Some n -> n <= acc') /\ (acc' = acc \/ parse_rotation_n name = Some acc')) as (A1 & A2 & A3).
      { unfold acc'. destruct (parse_rotation_n name) as [n|]; [|split_and!; [lia|done|by left]].
        destruct (N.ltb_spec acc n); split_and!; try lia; try (intros ? [= <-]; lia); by (left + right). }
      split_and!; [lia| |].
      + intros n x [->|Hx]%elem_of_cons Hn; [specialize (A2 n Hn); lia|by eapply I2].
      + destruct I3 as [->|(x & Hx & Hm)].
        * destruct A3 as [->|Hn]; [by left|right]. exists name. split; [left|done].
        * right. exists x. split; [by right|done]. }
  destruct (Hfold (hiter fs).*1 0) as (_ & F2 & F3). cbn zeta in *.
  assert (forall n, n ∈ rot.*1 <-> exists name, name ∈ (hiter fs).*1 /\ parse_rotation_n name = Some n) as Hiff.
  { intros n. transitivity ((n, rotated_name n) ∈ rotations fs).
    - rewrite Hp. split; [intros Hn; apply list_elem_of_fmap; by exists n|by intros (k & [= ->] & Hk)%list_elem_of_fmap].
    - unfold rotations. rewrite list_elem_of_omap. split.
      + intros (name & Hin & Hn). exists name. split; [done|]. destruct (parse_rotation_n name); [|done]. cbn in Hn. by simplify_eq.
      + intros (name & Hin & Hn). assert ((n, name) ∈ rotations fs) as Hx.
        { unfold rotations. apply list_elem_of_omap. exists name. split; [done|]. by rewrite Hn. }
        rewrite Hp, list_elem_of_fmap in Hx. destruct Hx as (k & [= -> ->] & _). exists (rotated_name k). split; [done|]. by rewrite Hn. }
  split.
  - intros n (name & Hin & Hn)%Hiff. by eapply F2.
  - destruct F3 as [H0|(name & Hin & Hm)]; [left; exact H0|right]. apply Hiff. by exists name.
Qed.

(** *** Pruning *)

Lemma insert_rotated_perm x l : insert_rotated x l ≡ₚ x :: l.
Proof. induction l as [|y l IH]; cbn; [done|]. case_match; [done|]. rewrite IH. apply Permutation_swap. Qed.

Definition by_index (x y : N * string) : Prop := x.1 < y.1.

Lemma insert_rotated_sorted x l :
  ~ x.1 ∈ l.*1 -> StronglySorted by_index l -> StronglySorted by_index (insert_rotated x l).
Proof.
  induction l as [|y l IH]; cbn; intros Hx Hs; [by repeat constructor|].
  apply StronglySorted_inv in Hs as [Hs Hy]. apply not_elem_of_cons in Hx as [Hne Hx].
  destruct (N.ltb_spec x.1 y.1) as [Hlt|Hge].
  - constructor; [by constructor|]. constructor; [done|]. eapply Forall_impl; [exact Hy|]. unfold by_index. intros z Hz. lia.
  - constructor; [by apply IH|]. rewrite insert_rotated_perm. constructor; [unfold by_index; lia|done].
Qed.

Lemma sort_rotated l : NoDup l.*1 ->
  foldl (fun acc x => insert_rotated x acc) [] l ≡ₚ l /\ StronglySorted by_index (foldl (fun acc x => insert_rotated x acc) [] l).
Proof.
  induction l as [|x l IH] using rev_ind; [intros _; split; [done|constructor]|].
  rewrite fmap_app, foldl_app. cbn. intros Hnd. apply NoDup_app in Hnd as (Hnd & Hdisj & _).
  destruct (IH Hnd) as [Hp Hs]. split.
  - rewrite insert_rotated_perm, Hp. apply Permutation_cons_append.
  - apply insert_rotated_sorted; [|done]. rewrite Hp. intros Hin. apply (Hdisj _ Hin). left.
Qed.

#[local] Instance by_index_antisymm : AntiSymm (=) by_index.
Proof. intros x y. unfold by_index. lia. Qed.

Lemma sort_rotations fs rot act cps anc :
  disk_rep fs rot act cps anc ->
  foldl (fun acc x => insert_rotated x acc) [] (rotations fs) = (fun n => (n, rotated_name n)) <$> rot.*1.
Proof.
  intros R. pose proof (rotations_perm _ _ _ _ _ R) as Hp. pose proof (dr_sorted _ _ _ _ _ R) as Hs.
  assert (NoDup (rotations fs).*1) as Hnd.
  { rewrite Hp, <- list_fmap_compose. cbn. rewrite list_fmap_id.
    clear -Hs. induction Hs as [|n l Hs IH Hf]; constructor; [|done]. intros Hin. rewrite Forall_forall in Hf. specialize (Hf n Hin). lia. }
  destruct (sort_rotated _ Hnd) as [Hp' Hs']. eapply (StronglySorted_unique by_index); [exact Hs'| |by rewrite Hp', Hp].
  clear -Hs. induction Hs as [|n l Hs IH Hf]; cbn; constructor; [done|].
  apply Forall_fmap. eapply Forall_impl; [exact Hf|]. done.
Qed.

Lemma remove_all_run names fs : remove_all names (calm fs) = (Ok tt, calm (foldl (fun fs name => delete name fs) fs names)).
Proof.
  revert fs. induction names as [|name names IH]; intros fs; [done|].
  cbn [remove_all foldl]. unfold sbind, ignore, remove_file, syscall. cbn.
  destruct (fs !! name) eqn:Hf; cbn; [apply IH|]. rewrite (delete_id fs name Hf). apply IH.
Qed.

Lemma lookup_delete_all names (fs : Files) name :
  foldl (fun fs name => delete name fs) fs names !! name = if bool_decide (name ∈ names) then None else fs !! name.
Proof.
  revert fs. induction names as [|x names IH]; intros fs; cbn; [by rewrite bool_decide_false by apply not_elem_of_nil|].
  rewrite IH. repeat case_bool_decide; try done; rewrite ?elem_of_cons in *; try tauto.
  - assert (name = x) as -> by tauto. by rewrite lookup_delete_eq.
  - rewrite lookup_delete_ne by (intros ->; tauto). done.
Qed.

(** Dropping the oldest rotated files. *)
Lemma rep_prune fs rot act cps anc k :
  disk_rep fs rot act cps anc ->
  disk_rep (foldl (fun fs name => delete name fs) fs (rotated_name <$> (take k rot).*1)) (drop k rot) act cps anc.
Proof.
  intros R. pose proof R as [R1 R2 R3 R4 R5 R6 R7].
  assert (forall name, name ∈ rotated_name <$> (take k rot).*1 -> exists n, n ∈ (take k rot).*1 /\ name = rotated_name n) as Hin.
  { intros name (n & -> & Hn)%list_elem_of_fmap. by exists n. }
  assert (forall n, n ∈ (take k rot).*1 -> n ∈ rot.*1) as Htk.
  { intros n Hn. rewrite <- (take_drop k rot), fmap_app, elem_of_app. by left. }
  assert (forall n, n ∈ (take k rot).*1 -> n ∈ (drop k rot).*1 -> False) as Hdisj.
  { intros n H1 H2. rewrite <- (take_drop k rot), fmap_app in R6. clear -R6 H1 H2.
    revert R6 H1 H2. generalize ((take k rot).*1) as a, ((drop k rot).*1) as b. intros a b Hs H1 H2.
    induction a as [|x a IH]; [by apply not_elem_of_nil in H1|]. cbn in Hs. apply StronglySorted_inv in Hs as [Hs Hf].
    apply elem_of_cons in H1 as [->|H1]; [|by apply IH]. rewrite Forall_forall in Hf.
    assert (x < x) by (apply Hf, elem_of_app; by right). lia. }
  assert (forall name, (forall n, n ∈ (take k rot).*1 -> name <> rotated_name n) ->
    foldl (fun fs name => delete name fs) fs (rotated_name <$> (take k rot).*1) !! name = fs !! name) as Hkeep.
  { intros name Hno. rewrite lookup_delete_all, bool_decide_false; [done|]. intros (n & Hn & ->)%Hin. by eapply Hno. }
  assert (forall name, is_audit_log name = false -> foldl (fun fs name => delete name fs) fs (rotated_name <$> (take k rot).*1) !! name = fs !! name) as Hother.
  { intros name Hl. apply Hkeep. intros n Hn ->. by rewrite (rotated_log n rot fs act cps anc R (Htk n Hn)) in Hl. }
  split.
  - rewrite Hkeep; [done|]. intros n _. apply not_eq_sym, rotated_not_active.
  - intros n rs Hn. assert (n ∈ (drop k rot).*1) as Hn' by (by apply (list_elem_of_fmap_2 fst) in Hn).
    assert ((n, rs) ∈ rot) as Hr by (rewrite <- (take_drop k rot), elem_of_app; by right). rewrite Hkeep; [by apply R2|].
    intros m Hm Heq. apply rotated_inj in Heq; [subst m; by eapply Hdisj| |by apply R7, Htk].
    apply R7. by apply (list_elem_of_fmap_2 fst) in Hr.
  - intros name Hs Hl. rewrite lookup_delete_all in Hs. case_bool_decide as Hx; [by destruct Hs|].
    destruct (R3 name Hs Hl) as [->|(n & rs & Hn & ->)]; [by left|right]. exists n, rs. split; [|done].
    rewrite <- (take_drop k rot), elem_of_app in Hn. destruct Hn as [Hn|Hn]; [|done]. destruct Hx.
    apply list_elem_of_fmap. exists n. split; [done|]. by apply (list_elem_of_fmap_2 fst) in Hn.
  - by rewrite Hother.
  - by rewrite Hother.
  - rewrite <- (take_drop k rot), fmap_app in R6. clear -R6.
    induction (take k rot).*1 as [|x a IH]; [done|]. cbn in R6. apply StronglySorted_inv in R6 as [R6 _]. by apply IH.
  - intros n Hn. apply R7. rewrite <- (take_drop k rot), fmap_app, elem_of_app. by right.
Qed.

(** How many of the oldest rotated files pruning drops. *)
Definition prune_count (keep : N) (len : nat) : nat := if keep =? 0 then 0 else (len - N.to_nat keep)%nat.

Lemma prune_run keep fs rot act cps anc :
  disk_rep fs rot act cps anc ->
  exists fs', prune_rotated_files keep (calm fs) = (Ok tt, calm fs') /\ disk_rep fs' (drop (prune_count keep (length rot)) rot) act cps anc.
Proof.
  intros R. unfold prune_rotated_files, prune_count. destruct (keep =? 0) eqn:Hk; [by exists fs|].
  unfold sbind, read_dir, syscall. cbn [calm alive schedule files negb]. fold (calm fs). fold (rotations fs).
  assert (length (rotations fs) = length rot) as Hlen by (by rewrite (rotations_perm _ _ _ _ _ R), !length_fmap).
  rewrite Hlen. destruct (N.leb_spec (N.of_nat (length rot)) keep).
  - exists fs. split; [done|]. by replace (length rot - N.to_nat keep)%nat with 0%nat by lia.
  - rewrite (sort_rotations _ _ _ _ _ R), remove_all_run. eexists. split; [done|].
    replace (N.to_nat (N.of_nat (length rot) - keep)) with (length rot - N.to_nat keep)%nat by lia.
    rewrite <- fmap_take, <- list_fmap_compose. rewrite <- fmap_take. by apply rep_prune.
Qed.

Lemma sorted_snoc l n : StronglySorted N.lt l -> (forall m, m ∈ l -> m < n) -> StronglySorted N.lt (l ++ [n]).
Proof.
  induction 1 as [|x l Hs IH Hf]; intros Hn; cbn; [by repeat constructor|]. constructor.
  - apply IH. intros m Hm. apply Hn. by right.
  - apply Forall_app. split; [done|]. repeat constructor. apply Hn. left.
Qed.

(** The active file becomes the newest rotated one. *)
Lemma rep_rotate fs rot act cps anc n :
  disk_rep fs rot act cps anc -> (forall m, m ∈ rot.*1 -> m < n) -> 0 < n <= u64_MAX ->
  disk_rep (<[ACTIVE_NAME := EmptyString]> (<[rotated_name n := text act]> (delete ACTIVE_NAME fs))) (rot ++ [(n, act)]) [] cps anc.
Proof.
  intros R Hnew Hn. pose proof R as [R1 R2 R3 R4 R5 R6 R7].
  assert (forall name, is_audit_log name = false ->
    <[ACTIVE_NAME := EmptyString]> (<[rotated_name n := text act]> (delete ACTIVE_NAME fs)) !! name = fs !! name) as Hother.
  { intros name Hl. rewrite lookup_insert_ne by (intros <-; by vm_compute in Hl).
    rewrite lookup_insert_ne by (intros <-; rewrite rotated_is_log in Hl by lia; done).
    by rewrite lookup_delete_ne by (intros <-; by vm_compute in Hl). }
  assert (forall m, ACTIVE_NAME <> rotated_name m) as Hact by (intros m; apply not_eq_sym, rotated_not_active).
  split.
  - by rewrite lookup_insert_eq.
  - intros m rs [Hm|Hm]%elem_of_app; rewrite lookup_insert_ne by apply Hact.
    + assert (m ∈ rot.*1) as Hm' by (by apply (list_elem_of_fmap_2 fst) in Hm). specialize (Hnew m Hm').
      rewrite lookup_insert_ne, lookup_delete_ne by (apply Hact || (intros Heq; apply rotated_inj in Heq; [lia|lia|by apply R7])).
      by apply R2.
    + apply list_elem_of_singleton in Hm as [= -> ->]. by rewrite lookup_insert_eq.
  - intros name Hs Hl. destruct (decide (name = ACTIVE_NAME)) as [->|Hne]; [by left|right].
    rewrite lookup_insert_ne in Hs by done. destruct (decide (name = rotated_name n)) as [->|Hne'].
    + exists n, act. split; [|done]. apply elem_of_app. right. by apply list_elem_of_singleton.
    + rewrite lookup_insert_ne, lookup_delete_ne in Hs by done. destruct (R3 name Hs Hl) as [->|(m & rs & Hm & ->)]; [done|].
      exists m, rs. split; [|done]. apply elem_of_app. by left.
  - by rewrite Hother.
  - by rewrite Hother.
  - rewrite fmap_app. by apply sorted_snoc.
  - intros m. rewrite fmap_app, elem_of_app. intros [Hm|Hm%list_elem_of_singleton]; [by apply R7|by subst].
Qed.

Lemma write_anchor_run chain n fs :
  write_anchor chain n (calm fs) =
  (Ok tt, calm (<[ANCHOR_NAME := anchor_json (MkSinkAnchor (last_hash chain) (last_seq chain) n)]> (delete ANCHOR_TMP fs))).
Proof.
  unfold write_anchor, sbind, open_truncate, write_all, sync_all, rename, fsync_dir, syscall, append_to. cbn [calm alive schedule files negb].
  rewrite !lookup_insert_eq. cbn [default from_option]. unfold sync_all, syscall. cbn [alive schedule files negb].
  f_equal. unfold calm. f_equal. by rewrite insert_insert_eq, delete_insert_eq.
Qed.

Lemma checkpoint_run chain ts count sk fs :
  write_checkpoint_line chain ts count sk (calm fs) =
  let cp := MkCheckpoint (last_seq chain - 1) (last_hash chain) ts count in
  (Ok tt, calm (append_to SIDECAR_NAME (checkpoint_json cp (sign_checkpoint sk cp) +:+ nl) fs)).
Proof.
  unfold write_checkpoint_line, sbind, open_append, write_all, syscall, append_to. cbn [calm alive schedule files negb].
  rewrite lookup_insert_eq. cbn [default from_option]. unfold calm. cbn zeta. do 2 f_equal.
  by rewrite insert_insert_eq, append_empty_r.
Qed.

Lemma rotate_run w fs rot act cps anc :
  disk_rep fs rot act cps anc -> ws_file w = ACTIVE_NAME -> (forall n, n ∈ rot.*1 -> n < u64_MAX) ->
  exists n fs',
    rotate (w, calm fs) = (Ok tt, (w <| file_bytes := 0 |>, calm fs')) /\
    (n = 1 \/ exists m, m ∈ rot.*1 /\ n = m + 1) /\
    disk_rep fs' (drop (prune_count (rotate_keep_files w) (S (length rot))) (rot ++ [(n, act)])) [] cps
      (Some (MkSinkAnchor (last_hash (ws_chain w)) (last_seq (ws_chain w)) 0)).
Proof.
  intros R Hf Hb. destruct (find_max_run _ _ _ _ _ R) as (m & Hm & Hle & Hmem).
  assert (wrapping_add64 m 1 = m + 1) as Hw.
  { apply wrapping_add64_small. destruct Hmem as [->|Hin]; [done|]. specialize (Hb m Hin). unfold u64_MAX, u64_modulus in *. lia. }
  assert (0 < m + 1 <= u64_MAX) as Hrange by (destruct Hmem as [->|Hin]; [done|specialize (Hb m Hin); lia]).
  pose proof (rep_rotate fs rot act cps anc (m + 1) R) as R2. specialize (R2 ltac:(intros n Hn; specialize (Hle n Hn); lia) Hrange).
  set (fs2 := <[ACTIVE_NAME := EmptyString]> (<[rotated_name (m + 1) := text act]> (delete ACTIVE_NAME fs))) in *.
  destruct (prune_run (rotate_keep_files w) _ _ _ _ _ R2) as (fs3 & Hp & R3). rewrite length_app, Nat.add_comm in R3.
  exists (m + 1). eexists. split_and!; [|by destruct Hmem as [->|Hin]; [left|right; exists m]|exact (rep_anchor _ _ _ _ _ _ R3)].
  unfold rotate.
  run_step. run_step. rewrite Hw. cbv zeta.
  erewrite sbind_ok.
  2: { apply io_ok. unfold rename, syscall. cbn [calm alive schedule files negb]. rewrite (dr_active _ _ _ _ _ R). reflexivity. }
  cbv beta. run_step. rewrite bool_decide_true by done. run_step. run_step. run_step. run_step.
  erewrite sbind_ok by (apply io_ok; exact Hp). cbv beta. run_step. run_step.
  erewrite io_ok by apply write_anchor_run. destruct w. cbn in *. by subst.
Qed.
End rep.

(** ** The invariant of the sink *)

(** What was written: the pruned records, the rotated files, the active file,
    the checkpoints and the anchor. *)
Record Ghost := MkGhost {
  g_pruned : list AuditRecord;
  g_rot : list (N * list AuditRecord);
  g_act : list AuditRecord;
  g_cps : list CheckpointLine;
  g_anc : option SinkAnchor;
}.
#[export] Instance Ghost_eta : Eta Ghost := fun g => MkGhost (g_pruned g) (g_rot g) (g_act g) (g_cps g) (g_anc g).

Definition g_old (g : Ghost) : list AuditRecord := g_pruned g ++ concat (g_rot g).*2.
Definition g_all (g : Ghost) : list AuditRecord := g_old g ++ g_act g.

Section inv.
Context `{SL : SinkCodecLaws, HI : HashIter}.
Context (sk : option SigningKey) (key : VerifyingKey).
Context (Hsign : forall k cp, sk = Some k -> verify_signature key cp (sign_checkpoint k cp) = true).

(** [all] from genesis, up to the tip [c], no record stamped after [t]. *)
Record chained (t : N) (all : list AuditRecord) (c : ChainState) : Prop := {
  ch_hash : last_hash c = chain_head GENESIS_HASH all;
  ch_seq : last_seq c = N.of_nat (length all);
  ch_at i r : all !! i = Some r -> ar_seq r = N.of_nat i /\ prev_hash r = chain_head GENESIS_HASH (take i all);
  ch_record r : r ∈ all -> schema_version r = AUDIT_SCHEMA_VERSION /\ ts_unix_ms r <= t;
}.

(** The anchor covers a prefix of the active file, or all of it. *)
Definition anchor_ok (g : Ghost) (c : ChainState) : Prop :=
  match g_anc g with
  | None => g_old g = []
  | Some a => exists act0 act1, g_act g = act0 ++ act1 /\ active_bytes a = str_len (text act0) /\
      (act1 = [] -> sa_last_hash a = last_hash c /\ sa_last_seq a = last_seq c)
  end.

Definition sealed_at (g : Ghost) : Prop := exists cl, cl ∈ g_cps g /\ cp_seq (checkpoint cl) + 1 = N.of_nat (length (g_all g)).

Record sink_inv (t : N) (w : WriterState) (fs : Files) (g : Ghost) : Prop := {
  si_rep : disk_rep fs (g_rot g) (g_act g) (g_cps g) (g_anc g);
  si_chain : chained t (g_all g) (ws_chain w);
  si_anchor : anchor_ok g (ws_chain w);
  si_index n : n ∈ (g_rot g).*1 -> n <= N.of_nat (length (g_old g));
  si_act : g_act g = [] -> g_old g = [];
  si_honest cl : cl ∈ g_cps g -> honest (Some key) (g_all g) cl;
  si_unsigned : sk = None -> g_cps g = [];
  si_file : ws_file w = ACTIVE_NAME;
  si_bytes : file_bytes w = str_len (text (g_act g));
  si_signer : ws_signer w = sk;
  si_count : records_since_checkpoint w <= record_count w <= N.of_nat (length (g_all g));
  si_sealed : records_since_checkpoint w = 0 -> 0 < record_count w -> is_Some sk -> sealed_at g;
}.

Lemma honest_app k rs rs' cl : honest k rs cl -> honest k (rs ++ rs') cl.
Proof.
  intros (H1 & H2 & H3 & r & Hr & Hts). split_and!; [done|done| |].
  - rewrite H3. f_equal. rewrite take_app_le; [done|]. apply lookup_lt_Some in Hr. lia.
  - exists r. split; [by apply lookup_app_l_Some|done].
Qed.

Lemma chained_le t t' all c : t <= t' -> chained t all c -> chained t' all c.
Proof. intros Hle [H1 H2 H3 H4]. split; try done. intros r Hr. destruct (H4 r Hr). split; [done|lia]. Qed.

Lemma chained_append t now all c rec :
  chained t all c -> t <= now -> schema_version rec = AUDIT_SCHEMA_VERSION -> ts_unix_ms rec <= now ->
  N.of_nat (length all) < u64_MAX ->
  chained now (all ++ [(ChainState_append rec c).1]) (ChainState_append rec c).2.
Proof.
  intros Hch Hle Hv Hts Hlen. apply (chained_le t now) in Hch; [|done]. destruct Hch as [H1 H2 H3 H4]. split; cbn.
  - rewrite chain_head_snoc, H1. done.
  - rewrite H2, wrapping_add64_small, length_app by (unfold u64_MAX, u64_modulus in *; lia). cbn. lia.
  - intros i r Hi. apply lookup_app_Some in Hi as [Hi|[Hge Hi]].
    + destruct (H3 i r Hi). rewrite take_app_le by (apply lookup_lt_Some in Hi; lia). done.
    + apply list_lookup_singleton_Some in Hi as [Hz <-]. assert (i = length all) as -> by lia. cbn.
      rewrite take_app_length, H1, H2. done.
  - intros r [Hr|Hr%list_elem_of_singleton]%elem_of_app; [by apply H4|by subst].
Qed.

Lemma sink_le t t' w fs g : t <= t' -> sink_inv t w fs g -> sink_inv t' w fs g.
Proof. intros Hle []. split; try done. by eapply chained_le. Qed.

(** Writing the anchor at the tip. *)
Lemma anchor_inv t w fs g :
  sink_inv t w fs g ->
  exists fs', write_anchor (ws_chain w) (file_bytes w) (calm fs) = (Ok tt, calm fs') /\
    sink_inv t w fs' (g <| g_anc := Some (MkSinkAnchor (last_hash (ws_chain w)) (last_seq (ws_chain w)) (file_bytes w)) |>).
Proof.
  intros [I1 I2 I3 I4 I5 I6 I7 I8 I9 I10 I11 I12]. eexists. split; [apply write_anchor_run|]. split; try done.
  - cbn. by eapply rep_anchor.
  - unfold anchor_ok. cbn. exists (g_act g), []. by rewrite app_nil_r.
Qed.

(** Signing the tip. *)
Lemma sign_inv now t w fs g k :
  sink_inv t w fs g -> t <= now -> g_all g <> [] -> sk = Some k ->
  let cp := MkCheckpoint (last_seq (ws_chain w) - 1) (last_hash (ws_chain w)) now (record_count w) in
  let cl := MkCheckpointLine cp (sign_checkpoint k cp) in
  let g' := g <| g_cps := g_cps g ++ [cl] |> in
  sink_inv t (w <| records_since_checkpoint := 0 |>) (append_to SIDECAR_NAME (checkpoint_json cp (sign_checkpoint k cp) +:+ nl) fs) g' /\
  sealed_at g'.
Proof using Hsign.
  intros [I1 I2 I3 I4 I5 I6 I7 I8 I9 I10 I11 I12] Hle Hne Hsk cp cl g'.
  pose proof (ch_seq _ _ _ I2) as Hseq. pose proof (ch_hash _ _ _ I2) as Hhash.
  assert (length (g_all g) <> 0%nat) as Hlen by (by destruct (g_all g)).
  assert (sealed_at g') as Hs.
  { exists cl. split; [cbn; apply elem_of_app; right; by apply list_elem_of_singleton|]. cbn [cl cp checkpoint cp_seq].
    change (g_all g') with (g_all g). rewrite Hseq. lia. }
  assert (honest (Some key) (g_all g) cl) as Hh.
  { unfold honest. cbn [cl cp checkpoint signature cp_seq cp_record_count chain_head_hash cp_ts_unix_ms]. rewrite Hseq.
    destruct (lookup_lt_is_Some_2 (g_all g) (N.to_nat (N.of_nat (length (g_all g)) - 1))) as [r Hr]; [lia|]. split_and!.
    - intros ? [= <-]. by apply Hsign.
    - lia.
    - rewrite Hhash, take_ge by lia. done.
    - exists r. split; [done|]. destruct (ch_record _ _ _ I2 r); [by apply list_elem_of_lookup_2 in Hr|lia]. }
  split; [|done]. split; try done.
  - by apply rep_checkpoint.
  - intros x. cbn. intros [Hx|Hx%list_elem_of_singleton]%elem_of_app; [by apply I6|by subst].
  - congruence.
  - change (0 <= record_count w <= N.of_nat (length (g_all g))). lia.
Qed.

(** Sealing the tip. *)
Lemma checkpoint_inv e t w fs g :
  sink_inv t w fs g -> t <= env_now e -> g_all g <> [] ->
  exists fs' g', do_checkpoint e (w, calm fs) = (Ok tt, (w <| records_since_checkpoint := 0 |>, calm fs')) /\
    sink_inv t (w <| records_since_checkpoint := 0 |>) fs' g' /\
    g_pruned g' = g_pruned g /\ g_rot g' = g_rot g /\ g_act g' = g_act g /\
    g_anc g' = Some (MkSinkAnchor (last_hash (ws_chain w)) (last_seq (ws_chain w)) (file_bytes w)) /\
    (is_Some sk -> sealed_at g').
Proof using Hsign.
  intros I Hle Hne. pose proof (si_signer _ _ _ _ I) as Hsg. unfold do_checkpoint.
  assert (sk = None \/ exists k, sk = Some k) as [Hsk|[k Hsk]] by (destruct sk; eauto).
  - assert (sink_inv t (w <| records_since_checkpoint := 0 |>) fs g) as I'.
    { destruct I. split; try done; [cbn; lia|]. intros _ _ [? ?]. congruence. }
    destruct (anchor_inv _ _ _ _ I') as (fs' & Hw & I'').
    eexists fs', _. split_and!; [|exact I''|done..|by rewrite Hsk; intros [? ?]]. do 3 run_step. cbn [fst]. rewrite Hsg, Hsk.
    do 4 run_step. by apply io_ok.
  - destruct (sign_inv _ _ _ _ _ k I Hle Hne Hsk) as [I' Hs]. destruct (anchor_inv _ _ _ _ I') as (fs' & Hw & I'').
    eexists fs', _. split_and!; [|exact I''|done..]. do 3 run_step. cbn [fst]. rewrite Hsg, Hsk.
    erewrite sbind_ok by (apply io_ok; apply checkpoint_run). cbv beta. do 3 run_step. by apply io_ok.
Qed.

(** *** Writing a record *)

(** The record [r] has been chained but not written yet. *)
Record mid_inv (t : N) (r : AuditRecord) (w : WriterState) (fs : Files) (g : Ghost) : Prop := {
  mi_rep : disk_rep fs (g_rot g) (g_act g) (g_cps g) (g_anc g);
  mi_chain : chained t (g_all g ++ [r]) (ws_chain w);
  mi_anchor : match g_anc g with
              | None => g_old g = []
              | Some a => exists act0 act1, g_act g = act0 ++ act1 /\ active_bytes a = str_len (text act0)
              end;
  mi_index n : n ∈ (g_rot g).*1 -> n <= N.of_nat (length (g_old g));
  mi_honest cl : cl ∈ g_cps g -> honest (Some key) (g_all g) cl;
  mi_unsigned : sk = None -> g_cps g = [];
  mi_file : ws_file w = ACTIVE_NAME;
  mi_bytes : file_bytes w = str_len (text (g_act g));
  mi_signer : ws_signer w = sk;
  mi_count : records_since_checkpoint w <= record_count w <= N.of_nat (length (g_all g));
}.

Lemma rotate_mid t r w fs g :
  mid_inv t r w fs g -> g_act g <> [] -> N.of_nat (length (g_all g)) < u64_MAX ->
  exists fs' g', rotate (w, calm fs) = (Ok tt, (w <| file_bytes := 0 |>, calm fs')) /\
    mid_inv t r (w <| file_bytes := 0 |>) fs' g' /\ g_all g' = g_all g /\ (rotate_keep_files w = 0 -> g_pruned g' = g_pruned g).
Proof.
  intros [M1 M2 M3 M4 M5 M6 M7 M8 M9 M10] Hne Hlen.
  assert (length (g_all g) = length (g_old g) + length (g_act g))%nat as Hla by apply length_app.
  destruct (rotate_run w _ _ _ _ _ M1 M7) as (n & fs' & Hr & Hn & R).
  { intros m Hm. specialize (M4 m Hm). lia. }
  set (k := prune_count _ _) in R. set (rot := g_rot g ++ [(n, g_act g)]) in R.
  set (g' := MkGhost (g_pruned g ++ concat (take k rot).*2) (drop k rot) [] (g_cps g)
    (Some (MkSinkAnchor (last_hash (ws_chain w)) (last_seq (ws_chain w)) 0))).
  assert (g_old g' = g_all g) as Hold.
  { unfold g_old, g_all, g_old. cbn. rewrite <- app_assoc, <- concat_app, <- fmap_app, take_drop. unfold rot.
    rewrite fmap_app, concat_app. cbn. by rewrite app_nil_r, app_assoc. }
  assert (g_all g' = g_all g) as Hall by (unfold g_all at 1; cbn; by rewrite app_nil_r).
  exists fs', g'. split_and!; [done| |done|intros Hk; cbn; unfold k; rewrite Hk; apply app_nil_r]. split; rewrite ?Hall, ?Hold; try done.
  - cbn. by exists [], [].
  - intros m Hm. assert (m ∈ rot.*1) as Hm' by (rewrite <- (take_drop k rot), fmap_app, elem_of_app; by right).
    assert (length (g_act g) <> 0%nat) as Hpos by (by destruct (g_act g)).
    unfold rot in Hm'. rewrite fmap_app, elem_of_app in Hm'. destruct Hm' as [Hm'|Hm'%list_elem_of_singleton].
    + specialize (M4 m Hm'). lia.
    + cbn in Hm'. subst m. destruct Hn as [->|(m & Hin & ->)]; [lia|]. specialize (M4 m Hin). lia.
Qed.

Lemma write_mid t r w fs g :
  mid_inv t r w fs g ->
  let w' := w <| file_bytes ::= N.add (str_len (serialize r +:+ nl)) |> <| record_count ::= N.succ |> <| records_since_checkpoint ::= N.succ |> in
  let g' := g <| g_act := g_act g ++ [r] |> in
  sink_inv t w' (append_to ACTIVE_NAME (serialize r +:+ nl) fs) g' /\ g_all g' = g_all g ++ [r].
Proof.
  intros [M1 M2 M3 M4 M5 M6 M7 M8 M9 M10] w' g'.
  assert (g_all g' = g_all g ++ [r]) as Hall by (unfold g_all; cbn; by rewrite app_assoc).
  split; [|done]. split; try done; rewrite ?Hall; try done.
  - by apply rep_append.
  - unfold anchor_ok. change (g_anc g') with (g_anc g). destruct (g_anc g) as [a|]; [|done].
    destruct M3 as (act0 & act1 & Hact & Hb). exists act0, (act1 ++ [r]). cbn. rewrite Hact, app_assoc.
    split_and!; [done|done|]. intros Hx. by apply app_eq_nil in Hx as [_ ?].
  - cbn. intros Hx. by apply app_eq_nil in Hx as [_ ?].
  - intros cl Hcl. apply honest_app. by apply M5.
  - change (str_len (serialize r +:+ nl) + file_bytes w = str_len (text (g_act g ++ [r]))).
    by rewrite M8, text_snoc, (str_len_app (text _)), N.add_comm.
  - rewrite length_app. cbn. lia.
  - cbn. lia.
Qed.

Definition record_ok (now : N) (rec : AuditRecord) : Prop := schema_version rec = AUDIT_SCHEMA_VERSION /\ ts_unix_ms rec <= now.

Lemma write_raw_inv e t w fs g rec :
  sink_inv t w fs g -> t <= env_now e -> record_ok (env_now e) rec -> N.of_nat (length (g_all g)) < u64_MAX ->
  exists w' fs' g', write_record_raw e rec (w, calm fs) = (Ok tt, (w', calm fs')) /\ sink_inv (env_now e) w' fs' g' /\
    g_all g' = g_all g ++ [(ChainState_append rec (ws_chain w)).1] /\
    last_seen_dropped w' = last_seen_dropped w /\ 0 < record_count w' /\
    rotate_keep_files w' = rotate_keep_files w /\ (rotate_keep_files w = 0 -> g_pruned g' = g_pruned g).
Proof using Hsign.
  intros I Hle [Hv Hts] Hlen. pose proof (chained_append _ _ _ _ rec (si_chain _ _ _ _ I) Hle Hv Hts Hlen) as Hch.
  unfold write_record_raw. run_step. cbn [fst]. destruct (ChainState_append rec (ws_chain w)) as [r c] eqn:Ea. cbn [fst snd] in *.
  run_step. run_step. run_step. cbn [fst]. cbv zeta.
  set (w1 := w <| ws_chain := c |>).
  assert (mid_inv (env_now e) r w1 fs g) as M.
  { destruct I as [I1 I2 I3 I4 I5 I6 I7 I8 I9 I10 I11 I12]. split; try done.
    unfold anchor_ok in I3. destruct (g_anc g); [|done]. destruct I3 as (a0 & a1 & ? & ? & _). by exists a0, a1. }
  assert (exists fs2 g2, (if (0 <? file_bytes w1) && (rotate_max_bytes w1 <? file_bytes w1 + str_len (serialize r +:+ nl)) then rotate else sret tt) (w1, calm fs)
    = (Ok tt, (w1 <| file_bytes := str_len (text (g_act g2)) |>, calm fs2)) /\
    mid_inv (env_now e) r (w1 <| file_bytes := str_len (text (g_act g2)) |>) fs2 g2 /\ g_all g2 = g_all g /\
    (rotate_keep_files w = 0 -> g_pruned g2 = g_pruned g)) as (fs2 & g2 & Hrot & M2 & Hall & Hpr).
  { pose proof (mi_bytes _ _ _ _ _ M) as Hb. destruct ((0 <? file_bytes w1) && _) eqn:Hc.
    - apply andb_true_iff in Hc as [Hpos _]. apply N.ltb_lt in Hpos.
      destruct (rotate_mid _ _ _ _ _ M) as (fs' & g' & Hr & M' & Hall & Hpr); [|done|].
      { intros Hnil. rewrite Hb, Hnil in Hpos. done. }
      pose proof (mi_bytes _ _ _ _ _ M') as Hb'. cbn in Hb'. exists fs', g'. rewrite <- Hb'. by split_and!.
    - exists fs, g. rewrite <- Hb. assert (w1 <| file_bytes := file_bytes w1 |> = w1) as -> by (by destruct w). by split_and!. }
  erewrite sbind_ok by exact Hrot. cbv beta. set (w2 := w1 <| file_bytes := str_len (text (g_act g2)) |>) in *.
  destruct (write_mid _ _ _ _ _ M2) as [I3 Hall3]. cbn zeta in *.
  run_step. cbn [fst]. rewrite (mi_file _ _ _ _ _ M2). run_step. run_step. run_step. cbn [fst].
  set (w3 := w2 <| file_bytes ::= _ |> <| record_count ::= _ |> <| records_since_checkpoint ::= _ |>) in *.
  set (g3 := g2 <| g_act := g_act g2 ++ [r] |>) in *.
  assert (0 < record_count w3) as Hrc by (cbn; lia).
  destruct (CHECKPOINT_INTERVAL <=? _).
  - destruct (checkpoint_inv e _ _ _ _ I3) as (fs4 & g4 & Hcp & I4 & Hp & Hro & Hac & _ & _); [done| |].
    { rewrite Hall3. by destruct (g_all g2). }
    exists (w3 <| records_since_checkpoint := 0 |>), fs4, g4. split_and!; try done; [|by rewrite Hp].
    unfold g_all, g_old. rewrite Hp, Hro, Hac. change (g_all g3 = g_all g ++ [r]). congruence.
  - exists w3. eexists _, g3. split_and!; [reflexivity|done|congruence|done..].
Qed.

(** *** Sentinels, records and flushes *)

Fixpoint dropped_total (rs : list AuditRecord) : N :=
  match rs with [] => 0 | r :: rs => default 0 (sentinel_dropped_count r) + dropped_total rs end.

Lemma dropped_total_app a b : dropped_total (a ++ b) = dropped_total a + dropped_total b.
Proof. induction a as [|r a IH]; [done|]. cbn [app dropped_total]. rewrite IH. lia. Qed.

(** The log grows by [l], at most [n] records; the drops seen since are in it. *)
Definition advance (n : nat) (seen : N) (w : WriterState) (g : Ghost) (w' : WriterState) (g' : Ghost) : Prop :=
  exists l, g_all g' = g_all g ++ l /\ (length l <= n)%nat /\
    last_seen_dropped w' = N.max (last_seen_dropped w) seen /\
    dropped_total l + last_seen_dropped w = last_seen_dropped w' /\
    rotate_keep_files w' = rotate_keep_files w /\ (rotate_keep_files w = 0 -> g_pruned g' = g_pruned g).

Lemma sentinel_append rec c : sentinel_dropped_count (ChainState_append rec c).1 = sentinel_dropped_count rec.
Proof. done. Qed.

Lemma gap_sentinel_count now n : sentinel_dropped_count (gap_sentinel now n) = Some n.
Proof. done. Qed.

Lemma sentinel_inv e t w fs g :
  sink_inv t w fs g -> t <= env_now e -> N.of_nat (length (g_all g)) < u64_MAX ->
  exists w' fs' g', maybe_write_gap_sentinel e (w, calm fs) = (Ok tt, (w', calm fs')) /\ sink_inv (env_now e) w' fs' g' /\
    advance 1 (env_dropped e) w g w' g'.
Proof using Hsign.
  intros I Hle Hlen. unfold maybe_write_gap_sentinel. run_step. cbn [fst].
  destruct (N.leb_spec (env_dropped e) (last_seen_dropped w)).
  - exists w, fs, g. split_and!; [done|by eapply sink_le|]. exists []. rewrite app_nil_r. cbn. split_and!; [done|lia|lia|lia|done|done].
  - run_step. set (w1 := w <| last_seen_dropped := env_dropped e |>).
    assert (sink_inv t w1 fs g) as I1 by (destruct I; by split).
    destruct (write_raw_inv e _ _ _ _ (gap_sentinel (env_now e) (env_dropped e - last_seen_dropped w)) I1 Hle) as
      (w' & fs' & g' & Hw & I' & Hall & Hs & _ & Hx & Hy); [split; cbn; [done|lia]|done|].
    exists w', fs', g'. split_and!; [exact Hw|done|]. eexists. split; [exact Hall|]. rewrite Hs. cbn -[sentinel_dropped_count ChainState_append].
    rewrite sentinel_append, gap_sentinel_count. unfold default, id. cbn [from_option]. split_and!; [lia|lia|lia|done|done].
Qed.

Lemma record_inv_step e t w fs g rec :
  sink_inv t w fs g -> t <= env_now e -> record_ok (env_now e) rec -> sentinel_dropped_count rec = None ->
  N.of_nat (length (g_all g)) + 1 < u64_MAX ->
  exists w' fs' g', write_record e rec (w, calm fs) = (Ok tt, (w', calm fs')) /\ sink_inv (env_now e) w' fs' g' /\
    advance 2 (env_dropped e) w g w' g' /\ 0 < record_count w'.
Proof using Hsign.
  intros I Hle Hok Hns Hlen. destruct (sentinel_inv e _ _ _ _ I Hle) as (w1 & fs1 & g1 & H1 & I1 & l1 & A1 & A2 & A3 & A4 & A5 & A6); [lia|].
  assert (length (g_all g1) = length (g_all g) + length l1)%nat as Hl1 by (by rewrite A1, length_app).
  destruct (write_raw_inv e _ _ _ _ rec I1 ltac:(lia) Hok) as (w2 & fs2 & g2 & H2 & I2 & B1 & B2 & B3 & B4 & B5); [lia|].
  exists w2, fs2, g2. split_and!; [unfold write_record; erewrite sbind_ok by exact H1; exact H2|done| |done].
  eexists. split_and!; [rewrite B1, A1, <- app_assoc; reflexivity|rewrite length_app; cbn; lia|congruence| |congruence|].
  2: { intros Hk. rewrite B5, A6; congruence. }
  rewrite dropped_total_app, B2. cbn -[sentinel_dropped_count ChainState_append]. rewrite sentinel_append, Hns. cbn. lia.
Qed.

(** A flush leaves the anchor, and with a key a checkpoint, at the tip. *)
Definition flushed (w : WriterState) (g : Ghost) : Prop :=
  g_anc g = Some (MkSinkAnchor (last_hash (ws_chain w)) (last_seq (ws_chain w)) (file_bytes w)) /\
  (is_Some sk -> 0 < record_count w -> sealed_at g).

Lemma flush_inv e t w fs g :
  sink_inv t w fs g -> t <= env_now e -> N.of_nat (length (g_all g)) < u64_MAX ->
  exists w' fs' g', flush e (w, calm fs) = (Ok tt, (w', calm fs')) /\ sink_inv (env_now e) w' fs' g' /\
    advance 1 (env_dropped e) w g w' g' /\ flushed w' g'.
Proof using Hsign.
  intros I Hle Hlen. destruct (sentinel_inv e _ _ _ _ I Hle Hlen) as (w1 & fs1 & g1 & H1 & I1 & Hadv).
  unfold flush. erewrite sbind_ok by exact H1. cbv beta. run_step. run_step. cbn [fst].
  assert (forall g2, g_all g2 = g_all g1 -> forall w2, last_seen_dropped w2 = last_seen_dropped w1 ->
    rotate_keep_files w2 = rotate_keep_files w1 -> g_pruned g2 = g_pruned g1 ->
    advance 1 (env_dropped e) w g w2 g2) as Hsame.
  { intros g2 Hg w2 Ha Hb Hc. destruct Hadv as (l & ? & ? & ? & ? & ? & ?). exists l. rewrite Hg, Ha, Hb, Hc. done. }
  destruct (N.ltb_spec 0 (records_since_checkpoint w1)) as [Hpos|Hz].
  - destruct (checkpoint_inv e _ _ _ _ I1) as (fs2 & g2 & H2 & I2 & Hp & Hro & Hac & Han & Hse); [done| |].
    { intros Hnil. pose proof (si_count _ _ _ _ I1) as Hc. rewrite Hnil in Hc. cbn in Hc. lia. }
    exists (w1 <| records_since_checkpoint := 0 |>), fs2, g2. split_and!; [exact H2|done| |split; [done|auto]].
    apply Hsame; try done. unfold g_all, g_old. by rewrite Hp, Hro, Hac.
  - run_step. run_step. cbn [fst]. destruct (anchor_inv _ _ _ _ I1) as (fs2 & H2 & I2).
    eexists w1, fs2, _. split_and!; [by apply io_ok|exact I2|by apply Hsame|]. split; [done|].
    intros Hsk Hrc. assert (records_since_checkpoint w1 = 0) as H0 by lia. exact (si_sealed _ _ _ _ I1 H0 Hrc Hsk).
Qed.

(** ** What the verifier sees *)

#[local] Instance older_entry_antisymm {A} : AntiSymm (=) (older_entry (A := A)).
Proof.
  intros x y (a & b & Ha & Hb & Hab) (b' & a' & Hb' & Ha' & Hba).
  rewrite (minted_inj _ _ _ Ha' Ha), (minted_inj _ _ _ Hb' Hb) in Hba. exfalso. destruct a, b; cbn in *; (done || lia).
Qed.

Definition log_views (rot : list (N * list AuditRecord)) (act : list AuditRecord) : list (string * FileView) :=
  ((fun x => (rotated_name x.1, file_view (text x.2))) <$> rot) ++ [(ACTIVE_NAME, file_view (text act))].

Lemma log_views_sorted fs rot act cps anc : disk_rep fs rot act cps anc -> StronglySorted older_entry (log_views rot act).
Proof.
  intros R. pose proof (dr_sorted _ _ _ _ _ R) as Hs. pose proof (dr_range _ _ _ _ _ R) as Hr. unfold log_views. clear R.
  induction rot as [|[n rs] rot IH]; cbn; [by repeat constructor|]. cbn in Hs. apply StronglySorted_inv in Hs as [Hs Hf].
  assert (minted (rotated_name n) (Some n)) as Hm by (split; [done|intros ? [= <-]; apply Hr; cbn; left]).
  constructor.
  - apply IH; [done|]. intros m Hin. apply Hr. cbn. by right.
  - apply Forall_app. split.
    + apply Forall_fmap, Forall_forall. intros [m rs'] Hin. rewrite Forall_forall in Hf.
      assert (m ∈ rot.*1) as Hm' by (by apply (list_elem_of_fmap_2 fst) in Hin). exists (Some n), (Some m). split_and!; [done| |by apply Hf].
      split; [done|]. intros ? [= <-]. apply Hr. cbn. by right.
    + repeat constructor. exists (Some n), None. split_and!; [done|by split|done].
Qed.

Lemma NoDup_of_fst {A B} (l : list (A * B)) : NoDup l.*1 -> NoDup l.
Proof.
  induction l as [|[a b] l IH]; cbn; [constructor|]. intros [Hn Hd]%NoDup_cons. constructor; [|by apply IH].
  intros Hin. apply Hn. by apply (list_elem_of_fmap_2 fst) in Hin.
Qed.

Lemma collected fs rot act cps anc :
  disk_rep fs rot act cps anc -> collect_log_files (audit_dir fs) = Ok (log_views rot act).
Proof.
  intros R. pose proof R as [R1 R2 R3 R4 R5 R6 R7]. pose proof (log_views_sorted _ _ _ _ _ R) as Hsort.
  set (es := (fun '(name, c) => (name, file_view c)) <$> hiter fs).
  assert (forall name v, (name, v) ∈ es <-> exists c, fs !! name = Some c /\ v = file_view c) as Hes.
  { intros name v. unfold es. rewrite list_elem_of_fmap. split.
    - intros ([name' c] & [= -> ->] & Hin). apply elem_of_hiter in Hin. by exists c.
    - intros (c & Hc & ->). exists (name, c). split; [done|]. by apply elem_of_hiter. }
  assert (NoDup es.*1) as Hnd.
  { unfold es. rewrite <- list_fmap_compose. erewrite (list_fmap_ext _ fst); [apply hiter_NoDup_keys|]. by intros ? [] _. }
  assert (filter (fun e => is_audit_log e.1 = true) es ≡ₚ log_views rot act) as Hperm.
  { apply NoDup_Permutation.
    - apply NoDup_filter. by apply NoDup_of_fst.
    - apply NoDup_of_fst. clear -Hsort. induction Hsort as [|x l Hs IH Hf]; cbn; constructor; [|done].
      intros (y & Heq & Hin)%list_elem_of_fmap. rewrite Forall_forall in Hf. destruct (Hf y Hin) as (a & b & Ha & Hb & Hab).
      rewrite <- Heq in Hb. rewrite (minted_inj _ _ _ Ha Hb) in Hab. destruct b; cbn in Hab; (done || lia).
    - intros [name v]. rewrite list_elem_of_filter, Hes. unfold log_views. rewrite elem_of_app, list_elem_of_singleton, list_elem_of_fmap. cbn [fst].
      split.
      + intros (Hl & c & Hc & ->). destruct (R3 name ltac:(by eexists) Hl) as [->|(n & rs & Hin & ->)].
        * right. rewrite R1 in Hc. by injection Hc as <-.
        * left. exists (n, rs). split; [|done]. rewrite (R2 n rs Hin) in Hc. by injection Hc as <-.
      + intros [([n rs] & [= -> ->] & Hin)|[= -> ->]].
        * split; [|exists (text rs); split; [by apply R2|done]]. apply rotated_is_log, R7. by apply (list_elem_of_fmap_2 fst) in Hin.
        * split; [by vm_compute|]. by exists (text act). }
  assert (Forall (fun y : string * FileView => exists b, minted y.1 b) (filter (fun e => is_audit_log e.1 = true) es)) as Hmint.
  { rewrite Hperm. unfold log_views. apply Forall_app. split; [|repeat constructor; by exists None].
    apply Forall_fmap, Forall_forall. intros [n rs] Hin. exists (Some n). split; [done|]. intros ? [= <-]. apply R7.
    by apply (list_elem_of_fmap_2 fst) in Hin. }
  unfold collect_log_files. cbn [entries audit_dir]. f_equal. fold es.
  destruct (sort_logs_spec _ Hmint) as [Hp Hs].
  { eapply sublist_NoDup; [exact Hnd|]. apply fmap_sublist, sublist_filter. }
  eapply (StronglySorted_unique older_entry); [done|done|]. by rewrite Hp.
Qed.

Lemma parse_views rot act :
  Forall (fun r => schema_version r = AUDIT_SCHEMA_VERSION) (concat rot.*2 ++ act) ->
  parse_files (log_views rot act) = Ok (concat rot.*2 ++ act).
Proof.
  unfold log_views. induction rot as [|[n rs] rot IH]; cbn [fmap list_fmap app concat snd fst]; intros Hv.
  - cbn [parse_files file_view]. rewrite parse_text by done. cbn. by rewrite app_nil_r.
  - rewrite <- app_assoc in *. apply Forall_app in Hv as [Hv1 Hv2]. cbn [parse_files file_view]. rewrite parse_text by done.
    by rewrite IH.
Qed.

Lemma sidecar_read fs rot act cps anc hex :
  disk_rep fs rot act cps anc -> match hex with Some h => parse_public_key h = Some key | None => True end ->
  read_checkpoint_sidecar (audit_dir fs) hex =
    Ok (match cps with
        | [] => MkSidecar [] None (bool_decide (is_Some hex)) true
        | _ => MkSidecar cps ((fun _ => key) <$> hex) (bool_decide (is_Some hex)) false
        end).
Proof.
  intros R Hh. unfold read_checkpoint_sidecar, audit_dir. cbn [sidecar_file]. rewrite (dr_sidecar _ _ _ _ _ R).
  destruct cps as [|cl cps]; [done|]. cbn [fmap option_fmap option_map]. destruct hex as [h|].
  - rewrite Hh. cbn [file_view]. by rewrite parse_cp_text.
  - cbn [file_view]. by rewrite parse_cp_text.
Qed.

(** A chained log is what appending its records from genesis produces. *)
Lemma chained_append_all t all c :
  chained t all c -> N.of_nat (length all) < u64_MAX -> append_all all ChainState_genesis = (all, c).
Proof.
  intros [H1 H2 H3 _] Hlen. destruct c as [h n]. cbn in *. subst.
  assert (forall l pre, all = pre ++ l ->
    append_all l (MkChainState (chain_head GENESIS_HASH pre) (N.of_nat (length pre))) =
    (l, MkChainState (chain_head GENESIS_HASH all) (N.of_nat (length all)))) as Hgen.
  { induction l as [|r l IH]; intros pre ->; [by rewrite app_nil_r|].
    destruct (H3 (length pre) r) as [Hs Hp]; [by apply list_lookup_middle|]. rewrite take_app_length in Hp.
    cbn [append_all]. unfold ChainState_append. cbn [last_hash last_seq].
    replace (r <| ar_seq := N.of_nat (length pre) |> <| prev_hash := chain_head GENESIS_HASH pre |>) with r
      by (destruct r; cbn in *; by subst).
    rewrite length_app in Hlen. cbn in Hlen. rewrite wrapping_add64_small by (unfold u64_MAX, u64_modulus in *; lia).
    specialize (IH (pre ++ [r])). rewrite chain_head_snoc, length_app in IH. cbn [length] in IH.
    replace (N.of_nat (length pre) + 1) with (N.of_nat (length pre + 1)) by lia.
    rewrite IH by (by rewrite <- app_assoc). done. }
  apply (Hgen all []). done.
Qed.

(** A flushed directory verifies. *)
Lemma flushed_verifies t w fs g hex :
  sink_inv t w fs g -> flushed w g -> N.of_nat (length (g_all g)) < u64_MAX ->
  match hex with Some h => parse_public_key h = Some key /\ (g_all g <> [] -> sealed_at g) | None => True end ->
  exists rep, verify_dir (audit_dir fs) hex = Ok rep /\ chain_ok rep = true /\
    dir_records (audit_dir fs) = Ok (concat (g_rot g).*2 ++ g_act g).
Proof.
  intros I [Hanc Hseal] Hlen Hhex. pose proof (si_rep _ _ _ _ I) as R. pose proof (si_chain _ _ _ _ I) as Hch.
  assert (dir_records (audit_dir fs) = Ok (concat (g_rot g).*2 ++ g_act g)) as Hd.
  { unfold dir_records. rewrite (collected _ _ _ _ _ R). apply parse_views. apply Forall_forall. intros r Hr.
    apply (ch_record _ _ _ Hch). unfold g_all, g_old. rewrite <- app_assoc, elem_of_app. by right. }
  assert (concat (g_rot g).*2 ++ g_act g = drop (length (g_pruned g)) (g_all g)) as Hdrop.
  { unfold g_all, g_old. by rewrite <- app_assoc, drop_app_length. }
  pose proof (sidecar_read _ _ _ _ _ hex R ltac:(by destruct hex; [destruct Hhex|])) as Hsc.
  assert (anchor_file (audit_dir fs) = Some (Some (anchor_json (MkSinkAnchor (last_hash (ws_chain w)) (last_seq (ws_chain w)) (file_bytes w))))) as Haf.
  { unfold audit_dir. cbn [anchor_file]. by rewrite (dr_anchor _ _ _ _ _ R), Hanc. }
  destruct (decide (g_all g = [])) as [Hnil|Hne].
  - assert (g_act g = [] /\ concat (g_rot g).*2 = []) as [Ha Hc].
    { unfold g_all, g_old in Hnil. apply app_eq_nil in Hnil as [Hx ->]. by apply app_eq_nil in Hx as [_ ->]. }
    rewrite Ha, Hc in Hd. rewrite Ha, Hc. pose proof (ch_hash _ _ _ Hch) as Hh. pose proof (ch_seq _ _ _ Hch) as Hs.
    rewrite Hnil in Hh, Hs. assert (anchor_seals (audit_dir fs) []) as Hse.
    { unfold anchor_seals. rewrite Haf. eexists. split; [apply anchor_parse|]. left. cbn. by rewrite Hh, Hs. }
    destruct (verify_dir_answers _ hex [] _ Hd Hsc Hse) as (rep & Hv & Hiff); [done|].
    exists rep. split_and!; [done| |done]. apply Hiff. split_and!; try done.
  - assert (g_act g <> []) as Hact by (intros Hx; apply Hne; unfold g_all; by rewrite Hx, (si_act _ _ _ _ I Hx)).
    set (sc := match g_cps g with [] => _ | _ => _ end) in Hsc.
    assert (forall cl, cl ∈ sc_lines sc -> cl ∈ g_cps g /\ (forall k, sc_verifier sc = Some k -> k = key)) as Hsub.
    { unfold sc. destruct (g_cps g); cbn; [intros cl Hx; by apply not_elem_of_nil in Hx|]. intros cl Hx. split; [done|].
      intros k. destruct hex; cbn; [by intros [= <-]|done]. }
    rewrite Hdrop in Hd. rewrite Hdrop.
    destruct (written_log_verifies (audit_dir fs) hex sc (g_all g) (g_all g) (ws_chain w) (length (g_pruned g))
      (anchor_json (MkSinkAnchor (last_hash (ws_chain w)) (last_seq (ws_chain w)) (file_bytes w)))) as (rep & Hv & Hok); try done.
    + by eapply chained_append_all.
    + unfold g_all, g_old. rewrite !length_app. destruct (g_act g); [done|cbn; lia].
    + intros cl Hcl. destruct (Hsub cl Hcl) as [Hin Hk]. destruct (si_honest _ _ _ _ I cl Hin) as (Hsig & Hrest). split; [|done].
      intros k Hv. rewrite (Hk k Hv). by apply Hsig.
    + intros Hck. assert (is_Some hex) as [h ->] by (unfold sc in Hck; destruct (g_cps g); cbn in Hck; by apply bool_decide_eq_true in Hck).
      destruct Hhex as [_ Hse]. destruct (Hse Hne) as (cl & Hin & Hcp). exists cl. split.
      * unfold sc. destruct (g_cps g); [by apply not_elem_of_nil in Hin|done].
      * unfold g_all, g_old in Hcp. rewrite !length_app in Hcp. destruct (g_act g); [done|]. cbn in Hcp. lia.
    + apply anchor_parse.
    + by exists rep.
Qed.

(** ** Restarts *)




(** The directory before the first start: no file of the sink's. *)
Definition clean (fs : Files) : Prop :=
  (forall name, is_audit_log name = true -> fs !! name = None) /\ fs !! SIDECAR_NAME = None /\ fs !! ANCHOR_NAME = None.

Lemma first_open fs limit keep :
  clean fs ->
  exists w fs', WriterState_open sk limit keep (calm fs) = (Ok w, calm fs') /\ sink_inv 0 w fs' (MkGhost [] [] [] [] None) /\
    last_seen_dropped w = 0 /\ rotate_keep_files w = keep.
Proof.
  intros (Hl & Hs & Ha). assert (fs !! ACTIVE_NAME = None) as Hact by (by apply Hl).
  assert (reconstruct_chain_state (calm fs) = (Ok ChainState_genesis, calm fs)) as Hrec.
  { unfold reconstruct_chain_state. erewrite sbind_ok; [|unfold read_anchor_tail, read_file, syscall; cbn [calm alive schedule files negb];
      rewrite Ha; reflexivity]. cbv beta. cbn [fst snd].
    unfold file_len, read_active_suffix, read_file, syscall. cbn [calm alive schedule files negb]. rewrite Hact. cbn [alive schedule files negb].
    rewrite Hact. change (last_valid EmptyString) with (@None AuditRecord). cbv iota beta.
    unfold load_chain_state, file_len, syscall. cbn [alive schedule files negb]. by rewrite Ha. }
  eexists _, _. split.
  { unfold WriterState_open. erewrite sbind_ok by exact Hrec. cbv beta.
    erewrite sbind_ok; [|unfold open_append, syscall, append_to; cbn [calm alive schedule files negb]; rewrite Hact; reflexivity]. cbv beta.
    erewrite sbind_ok; [|unfold file_len, syscall; cbn [alive schedule files negb]; rewrite lookup_insert_eq; reflexivity]. reflexivity. }
  split; [|done].
  split; try done; try (cbn; lia).
  - split; try done.
    + by rewrite lookup_insert_eq.
    + intros n rs Hx. by apply not_elem_of_nil in Hx.
    + intros name Hn Hlog. left. destruct (decide (name = ACTIVE_NAME)) as [|Hne]; [done|]. rewrite lookup_insert_ne in Hn by done.
      rewrite (Hl name Hlog) in Hn. by destruct Hn.
    + by rewrite lookup_insert_ne.
    + by rewrite lookup_insert_ne.
    + constructor.
    + intros n Hx. by apply not_elem_of_nil in Hx.
  - split; try done. intros r Hx. by apply not_elem_of_nil in Hx.
  - intros n Hx. by apply not_elem_of_nil in Hx.
  - intros cl Hx. by apply not_elem_of_nil in Hx.
Qed.

(** ** Histories *)

(** What happens to a directory: messages, and restarts of the daemon between
    them.  A restart is a kill: nothing is flushed first. *)
Inductive SinkEvent := SinkMsg (e : SinkEnv) (m : WriterMsg) | SinkRestart (limit keep : N).


(** Records are of the current schema, stamped before they are handled, and
    not sentinels of their own. *)
Definition handler_record (now : N) (rec : AuditRecord) : Prop := record_ok now rec /\ sentinel_dropped_count rec = None.

(** The clock the writer reads never goes back. *)
Fixpoint drain_ok (t : N) (ds : list (SinkEnv * DrainMsg)) (t' : N) : Prop :=
  match ds with
  | [] => t <= t'
  | (e, m) :: ds =>
      t <= env_now e /\ match m with DrainRecord rec => handler_record (env_now e) rec | _ => True end /\ drain_ok (env_now e) ds t'
  end.

Definition msg_ok (t : N) (e : SinkEnv) (m : WriterMsg) : Prop :=
  match m with
  | WriteRecord rec => t <= env_now e /\ handler_record (env_now e) rec
  | Flush ds => drain_ok t ds (env_now e)
  | WriteCheckpoint => t <= env_now e
  end.

Fixpoint history_ok (t : N) (h : list SinkEvent) (t' : N) : Prop :=
  match h with
  | [] => t <= t'
  | SinkRestart _ _ :: h => history_ok t h t'
  | SinkMsg e m :: h => msg_ok t e m /\ history_ok (env_now e) h t'
  end.

(** How many records a message can add, sentinels included. *)
Definition msg_size (m : WriterMsg) : nat :=
  match m with WriteRecord _ => 2 | Flush ds => 2 * length ds + 1 | WriteCheckpoint => 0 end.
Definition history_size (h : list SinkEvent) : nat :=
  foldr (fun ev acc => match ev with SinkMsg _ m => msg_size m | SinkRestart _ _ => 0 end + acc)%nat 0%nat h.

(** Writing on a calm disk keeps the invariant and adds at most [n] records. *)
Definition reaches (n : nat) (t : N) (g : Ghost) (s : WriterState * Disk) (K : WriterState -> Ghost -> Prop) : Prop :=
  exists w fs g', s = (w, calm fs) /\ sink_inv t w fs g' /\ K w g' /\ exists l, g_all g' = g_all g ++ l /\ (length l <= n)%nat.

Lemma reaches_refl n t t' w fs g (K : WriterState -> Ghost -> Prop) : sink_inv t w fs g -> t <= t' -> K w g -> reaches n t' g (w, calm fs) K.
Proof. intros I Hle HK. exists w, fs, g. split_and!; [done|by eapply sink_le|done|]. exists []. rewrite app_nil_r. split; [done|cbn; lia]. Qed.

Lemma reaches_trans n m t t' g s (K : WriterState -> Ghost -> Prop) (f : WriterState * Disk -> WriterState * Disk) :
  reaches n t g s K ->
  (forall w fs g', sink_inv t w fs g' -> K w g' -> (length (g_all g') <= length (g_all g) + n)%nat -> reaches m t' g' (f (w, calm fs)) K) ->
  reaches (n + m) t' g (f s) K.
Proof.
  intros (w & fs & g' & -> & I & HK & l & Hl & Hn) Hf. destruct (Hf w fs g' I HK) as (w2 & fs2 & g2 & Heq & I2 & HK2 & l2 & Hl2 & Hn2).
  { rewrite Hl, length_app. lia. }
  exists w2, fs2, g2. split_and!; [done|done|done|]. exists (l ++ l2). rewrite Hl2, Hl, app_assoc, length_app. split; [done|lia].
Qed.

(** In one run without pruning the sentinels account for every drop seen. *)
Definition accounted (most : N) (w : WriterState) (g : Ghost) : Prop :=
  rotate_keep_files w = 0 /\ g_pruned g = [] /\ dropped_total (g_all g) = last_seen_dropped w /\ last_seen_dropped w <= most.

Lemma advance_accounted n seen most w g w' g' :
  advance n seen w g w' g' -> seen <= most -> accounted most w g -> accounted most w' g'.
Proof.
  intros (l & A1 & _ & A3 & A4 & A5 & A6) Hs (B1 & B2 & B3 & B4). split_and!; [congruence|rewrite A6; congruence| |lia].
  rewrite A1, dropped_total_app, B3. lia.
Qed.

(** [K] survives whatever a message can do to the log while the drop counter
    is at most [most]. *)
Section messages.
Context (most : N) (K : WriterState -> Ghost -> Prop).
Context (HK : forall n seen w g w' g', advance n seen w g w' g' -> seen <= most -> K w g -> K w' g').

Fixpoint drops_le (ds : list (SinkEnv * DrainMsg)) : Prop :=
  match ds with [] => True | (e, _) :: ds => env_dropped e <= most /\ drops_le ds end.
Definition msg_drops_le (e : SinkEnv) (m : WriterMsg) : Prop :=
  env_dropped e <= most /\ match m with Flush ds => drops_le ds | _ => True end.

Lemma record_reaches e rec t w fs g :
  sink_inv t w fs g -> K w g -> t <= env_now e -> handler_record (env_now e) rec -> env_dropped e <= most ->
  N.of_nat (length (g_all g) + 2) < u64_MAX -> reaches 2 (env_now e) g (write_record e rec (w, calm fs)).2 K.
Proof using Hsign HK.
  intros I Hw Hle [Hr Hs] Hd Hlen. destruct (record_inv_step e _ _ _ _ rec I Hle Hr Hs) as (w' & fs' & g' & -> & I' & Hadv & _); [lia|].
  exists w', fs', g'. split_and!; [done|done|by eapply HK|]. destruct Hadv as (l & H1 & H2 & _). by exists l.
Qed.

Lemma drain_reaches ds : forall t t' w fs g,
  sink_inv t w fs g -> K w g -> drain_ok t ds t' -> drops_le ds -> N.of_nat (length (g_all g) + 2 * length ds) < u64_MAX ->
  reaches (2 * length ds) t' g (foldl (fun s '(e, m) => drain_msg e m s) (w, calm fs) ds) K.
Proof using Hsign HK.
  induction ds as [|[e m] ds IH]; intros t t' w fs g I Hw Hok Hd Hlen; cbn [foldl length] in *; [by eapply reaches_refl|].
  destruct Hok as (Hle & Hm & Hok), Hd as [Hd Hds]. replace (2 * S (length ds))%nat with (2 + 2 * length ds)%nat in * by lia.
  apply (reaches_trans 2 _ (env_now e) _ _ _ _ (fun s => foldl (fun s '(e, m) => drain_msg e m s) s ds)).
  - destruct m as [rec| |]; cbn [drain_msg]; [|by eapply reaches_refl..]. apply (record_reaches e rec t); try done. lia.
  - intros w' fs' g' I' Hw' Hl. apply (IH (env_now e)); [done..|lia].
Qed.

Lemma flush_reaches e t w fs g :
  sink_inv t w fs g -> K w g -> t <= env_now e -> env_dropped e <= most -> N.of_nat (length (g_all g) + 1) < u64_MAX ->
  exists s, flush e (w, calm fs) = (Ok tt, s) /\ reaches 1 (env_now e) g s (fun w g => K w g /\ flushed w g /\ env_dropped e <= last_seen_dropped w).
Proof using Hsign HK.
  intros I Hw Hle Hd Hlen. destruct (flush_inv e _ _ _ _ I Hle) as (w2 & fs2 & g2 & -> & I2 & Hadv & Hf); [lia|].
  eexists. split; [done|]. exists w2, fs2, g2. split; [done|]. split; [done|]. split.
  - split; [by eapply HK|]. split; [done|]. destruct Hadv as (l & _ & _ & H3 & _). lia.
  - destruct Hadv as (l & H1 & H2 & _). by exists l.
Qed.

Lemma msg_reaches e m t w fs g :
  sink_inv t w fs g -> K w g -> msg_ok t e m -> msg_drops_le e m -> N.of_nat (length (g_all g) + msg_size m) < u64_MAX ->
  reaches (msg_size m) (env_now e) g (writer_msg e m (w, calm fs)) K.
Proof using Hsign HK.
  intros I Hw Hok [Hd Hds] Hlen. destruct m as [rec|ds|]; cbn [writer_msg msg_size] in *.
  - destruct Hok as [Hle Hr]. by apply (record_reaches e rec t).
  - apply (reaches_trans _ _ (env_now e) _ _ _ _ (fun s => (flush e s).2)); [apply (drain_reaches ds t); try done; lia|].
    intros w' fs' g' I' Hw' Hl. destruct (flush_reaches e _ _ _ _ I' Hw' ltac:(lia) Hd) as (s & -> & w2 & fs2 & g2 & -> & I2 & (HK2 & _) & Hlg); [lia|].
    by exists w2, fs2, g2.
  - cbn [fst]. destruct ((0 <? records_since_checkpoint w) && bool_decide (is_Some (ws_signer w))) eqn:Hc; [|by eapply reaches_refl].
    apply andb_true_iff in Hc as [Hpos%N.ltb_lt _].
    destruct (checkpoint_inv e _ _ _ _ I Hok) as (fs2 & g2 & -> & I2 & Hp & Hro & Hac & _).
    { intros Hnil. pose proof (si_count _ _ _ _ I) as Hc. rewrite Hnil in Hc. cbn in Hc. lia. }
    assert (g_all g2 = g_all g) as Hall by (unfold g_all, g_old; by rewrite Hp, Hro, Hac).
    exists (w <| records_since_checkpoint := 0 |>), fs2, g2. split_and!; [done|by eapply sink_le| |exists []; by rewrite app_nil_r].
    eapply (HK 0 0); [|lia|exact Hw]. exists []. rewrite app_nil_r. cbn. split_and!; (done || lia).
Qed.
End messages.

(** The messages of one run. *)
Lemma run_reaches most msgs : forall t t' w fs g,
  sink_inv t w fs g -> accounted most w g -> history_ok t ((fun '(e, m) => SinkMsg e m) <$> msgs) t' ->
  Forall (fun '(e, m) => msg_drops_le most e m) msgs ->
  N.of_nat (length (g_all g) + history_size ((fun '(e, m) => SinkMsg e m) <$> msgs)) < u64_MAX ->
  reaches (history_size ((fun '(e, m) => SinkMsg e m) <$> msgs)) t' g (foldl (fun s '(e, m) => writer_msg e m s) (w, calm fs) msgs) (accounted most).
Proof using Hsign SL.
  induction msgs as [|[e m] msgs IH]; intros t t' w fs g I Ha Hok Hd Hlen; cbn [fmap list_fmap foldl history_size foldr] in *; [by eapply reaches_refl|].
  destruct Hok as [Hm Hok]. apply Forall_cons in Hd as [Hd Hds]. fold (history_size ((fun '(e, m) => SinkMsg e m) <$> msgs)) in *.
  change (list_fmap _ _ (fun '(e, m) => SinkMsg e m) msgs) with ((fun '(e, m) => SinkMsg e m) <$> msgs) in *.
  apply (reaches_trans _ _ (env_now e) _ _ _ _ (fun s => foldl (fun s '(e, m) => writer_msg e m s) s msgs)).
  - apply (msg_reaches most (accounted most)) with t; try done; [|lia]. intros. by eapply advance_accounted.
  - intros w' fs' g' I' Ha' Hl. apply (IH (env_now e)); [done..|lia].
Qed.
End inv.

(** The verifier adds up the sentinels, saturating. *)
Lemma replay_dropped `{AC : AuditCodec} rs : forall st,
  sr_dropped_records st + dropped_total rs <= u64_MAX ->
  sr_dropped_records (foldl StreamReplay_push st rs) = sr_dropped_records st + dropped_total rs.
Proof.
  assert (forall st r, sr_dropped_records (StreamReplay_push st r) =
    match sentinel_dropped_count r with Some n => saturating_add64 (sr_dropped_records st) n | None => sr_dropped_records st end) as Hpush.
  { intros st r. unfold StreamReplay_push, push_pair. destruct (sentinel_dropped_count r); repeat case_match; done. }
  induction rs as [|r rs IH]; intros st Hle; cbn [foldl dropped_total] in *; [lia|]. rewrite IH; rewrite Hpush.
  all: unfold default, id in *; destruct (sentinel_dropped_count r); cbn [from_option] in *; unfold saturating_add64; lia.
Qed.

Lemma verified_dropped `{AC : AuditCodec} d key rep rs :
  verify_dir d key = Ok rep -> dir_records d = Ok rs -> dropped_total rs <= u64_MAX -> vr_dropped_records rep = dropped_total rs.
Proof.
  unfold verify_dir, dir_records. destruct (collect_log_files d) as [fs|]; [|done].
  destruct (read_checkpoint_sidecar d key) as [s|]; [|done]. rewrite replay_files_parse. intros Hv Hp Hle. rewrite Hp in Hv.
  unfold verify_outcome in Hv. destruct (eval_checkpoints _ _ _ _ _ _) as [[v f] sc].
  destruct (check_anchor _ _ _ _); [|done]. injection Hv as <-. cbn [vr_dropped_records ro_dropped_records StreamReplay_finish].
  rewrite replay_dropped; cbn [sr_dropped_records StreamReplay_new]; lia.
Qed.

(** ** The theorems *)



(** A run that never prunes accounts for every record the channel refused:
    whatever mix of records, flushes and checkpoints it handled, once the
    writer has stopped the verifier's count of dropped records is the drop
    counter's final value. *)
Theorem drops_are_accounted `{SL : SinkCodecLaws, HI : HashIter} (sk : option SigningKey) (key : VerifyingKey)
    (fs : Files) (msgs : list (SinkEnv * WriterMsg)) (close : SinkEnv) (limit : N) (w : WriterState) (d : Disk) :
  (forall k cp, sk = Some k -> verify_signature key cp (sign_checkpoint k cp) = true) ->
  clean fs -> history_ok 0 ((fun '(e, m) => SinkMsg e m) <$> msgs) (env_now close) ->
  Forall (fun '(e, m) => msg_drops_le (env_dropped close) e m) msgs -> env_dropped close <= u64_MAX ->
  N.of_nat (history_size ((fun '(e, m) => SinkMsg e m) <$> msgs) + 1) < u64_MAX ->
  WriterState_open sk limit 0 (calm fs) = (Ok w, d) ->
  exists rep, verify_dir (audit_dir (files (writer_task msgs close (w, d)).2)) None = Ok rep /\ chain_ok rep = true /\
    vr_dropped_records rep = env_dropped close.
Proof.
  intros Hsign Hclean Hok Hd Hmax Hsize Ho. destruct (first_open sk key fs limit 0 Hclean) as (w0 & fs1 & Ho' & I0 & Hseen & Hkeep).
  rewrite Ho in Ho'. injection Ho' as <- ->.
  destruct (run_reaches sk key Hsign (env_dropped close) msgs 0 (env_now close) w fs1 _ I0) as (w1 & fs2 & g1 & Heq & I1 & Ha & l & Hl & Hn); try done.
  { split_and!; [done|done|by rewrite Hseen|lia]. }
  { cbn in *. lia. }
  cbn in Hl. assert (length (g_all g1) = length l) as Hlen by (by rewrite Hl).
  destruct (flush_reaches sk key Hsign (env_dropped close) (accounted (env_dropped close))
    ltac:(intros; by eapply advance_accounted) close _ _ _ _ I1 Ha ltac:(done) ltac:(done))
    as (s & Hf & w2 & fs3 & g2 & -> & I2 & ((_ & Hpr & Htot & Hle) & Hfl & Hge) & l2 & Hl2 & Hn2); [lia|].
  assert (N.of_nat (length (g_all g2)) < u64_MAX) as Hb by (rewrite Hl2, length_app; lia).
  unfold writer_task. rewrite Heq, Hf. cbn [snd files calm].
  destruct (flushed_verifies sk key _ _ _ _ None I2 Hfl Hb Logic.I) as (rep & Hv & Hc & Hrec). exists rep. split_and!; [done|done|].
  assert (concat (g_rot g2).*2 ++ g_act g2 = g_all g2) as Hall by (unfold g_all, g_old; by rewrite Hpr).
  rewrite (verified_dropped _ _ _ _ Hv Hrec); rewrite Hall; lia.
Qed.
