(* ===== verification/AuditChannel.v ===== *)
(** * The audit channel: the emitting side of the sink

    Models [AuditSink::emit] of [crates/server/src/server/audit.rs] on the
    bounded channel it shares with the writer.  For a data-plane record [emit]
    reads the free capacity and then calls [try_send]: two steps, between which
    other tasks run.  A state keeps the tasks that are between the two.

    [reserve_bound] is what the reserve is worth: with at most [k] tasks
    emitting data-plane records at once they hold at most [k - 1] of the slots
    reserved for fail-closed classes.  [emit_accounts] says where each record
    went. *)

From S2P Require Import Prelude Text AuditChain.
Open Scope N_scope.

(** ** The channel *)

Inductive EmitOutcome := Queued | DroppedFailOpen | RejectedFailClosed.
#[export] Instance EmitOutcome_eq_dec : EqDecision EmitOutcome.
Proof. solve_decision. Defined.

Inductive ChannelMsg := ChRecord (rec : AuditRecord) | ChFlush | ChCheckpoint.

(** [writer_gone]: the receiver was dropped. *)
Record SinkChannel := MkSinkChannel {
  channel_capacity : N;
  queue : list ChannelMsg;
  writer_gone : bool;
  dropped : N;
  fail_closed_reserve : N;
  data_plane : bool;
}.
#[export] Instance SinkChannel_eta : Eta SinkChannel := fun c =>
  MkSinkChannel (channel_capacity c) (queue c) (writer_gone c) (dropped c) (fail_closed_reserve c) (data_plane c).

Definition data_plane_enabled (c : SinkChannel) : bool := data_plane c.
Definition dropped_count (c : SinkChannel) : N := dropped c.

(** [Sender::capacity]: the free permits. *)
Definition capacity (c : SinkChannel) : N := channel_capacity c - N.of_nat (length (queue c)).

Definition try_send (m : ChannelMsg) (c : SinkChannel) : option SinkChannel :=
  if writer_gone c || (capacity c =? 0) then None else Some (c <| queue ::= fun q => q ++ [m] |>).

Definition count_drop (c : SinkChannel) : SinkChannel := c <| dropped ::= fun n => wrapping_add64 n 1 |>.

(** The first half of [emit] for a fail-open class: [None] lets it go on. *)
Definition emit_check (c : SinkChannel) : option EmitOutcome * SinkChannel :=
  if capacity c <=? fail_closed_reserve c then (Some DroppedFailOpen, count_drop c) else (None, c).

Definition emit_send_open (rec : AuditRecord) (c : SinkChannel) : EmitOutcome * SinkChannel :=
  match try_send (ChRecord rec) c with
  | Some c' => (Queued, c')
  | None => (DroppedFailOpen, count_drop c)
  end.

Definition emit_closed (rec : AuditRecord) (c : SinkChannel) : EmitOutcome * SinkChannel :=
  match try_send (ChRecord rec) c with
  | Some c' => (Queued, c')
  | None => (RejectedFailClosed, c)
  end.

(** [emit] with nothing in between. *)
Definition emit (rec : AuditRecord) (c : SinkChannel) : EmitOutcome * SinkChannel :=
  if negb (fail_closed (ar_class rec)) then
    match emit_check c with
    | (Some o, c) => (o, c)
    | (None, c) => emit_send_open rec c
    end
  else emit_closed rec c.

(** ** Interleavings *)

(** [between]: the records whose emitter has passed the check.  The log
    remembers every finished call. *)
Record EmitState := MkEmitState {
  chan : SinkChannel;
  between : list AuditRecord;
  taken : list ChannelMsg;
  outcomes : list (AuditRecord * EmitOutcome);
}.

Inductive emit_step : EmitState -> EmitState -> Prop :=
| StepCheckPass s rec : fail_closed (ar_class rec) = false -> (emit_check (chan s)).1 = None ->
    emit_step s (MkEmitState (emit_check (chan s)).2 (rec :: between s) (taken s) (outcomes s))
| StepCheckDrop s rec o : fail_closed (ar_class rec) = false -> (emit_check (chan s)).1 = Some o ->
    emit_step s (MkEmitState (emit_check (chan s)).2 (between s) (taken s) (outcomes s ++ [(rec, o)]))
| StepSend s rec l1 l2 : between s = l1 ++ rec :: l2 ->
    emit_step s (MkEmitState (emit_send_open rec (chan s)).2 (l1 ++ l2) (taken s)
                   (outcomes s ++ [(rec, (emit_send_open rec (chan s)).1)]))
| StepClosed s rec : fail_closed (ar_class rec) = true ->
    emit_step s (MkEmitState (emit_closed rec (chan s)).2 (between s) (taken s)
                   (outcomes s ++ [(rec, (emit_closed rec (chan s)).1)]))
| StepControl s m c : m = ChFlush \/ m = ChCheckpoint -> try_send m (chan s) = Some c ->
    emit_step s (MkEmitState c (between s) (taken s) (outcomes s))
| StepReceive s m q : queue (chan s) = m :: q ->
    emit_step s (MkEmitState (chan s <| queue := q |>) (between s) (taken s ++ [m]) (outcomes s))
| StepWriterGone s :
    emit_step s (MkEmitState (chan s <| writer_gone := true |>) (between s) (taken s) (outcomes s)).

Definition EmitState_new (cap reserve : N) (dp : bool) : EmitState :=
  MkEmitState (MkSinkChannel cap [] false 0 reserve dp) [] [] [].

(** At most [k] data-plane emitters are between check and send. *)
Definition emit_step_within (k : nat) (s s' : EmitState) : Prop := emit_step s s' /\ (length (between s') <= k)%nat.
Definition emits_to (k : nat) (cap reserve : N) (dp : bool) (s : EmitState) : Prop :=
  rtc (emit_step_within k) (EmitState_new cap reserve dp) s.

Definition msg_record (m : ChannelMsg) : option AuditRecord := match m with ChRecord rec => Some rec | _ => None end.
Definition is_data_plane (m : ChannelMsg) : bool := match m with ChRecord rec => negb (fail_closed (ar_class rec)) | _ => false end.
Definition data_plane_held (c : SinkChannel) : N := N.of_nat (length (filter is_data_plane (queue c))).

Definition got (o : EmitOutcome) (l : list (AuditRecord * EmitOutcome)) : list AuditRecord :=
  omap (fun '(rec, o') => if bool_decide (o' = o) then Some rec else None) l.

(** ** Invariants *)

Lemma got_app o l l' : got o (l ++ l') = got o l ++ got o l'.
Proof. apply omap_app. Qed.

Lemma got_same o rec : got o [(rec, o)] = [rec].
Proof. cbn. by rewrite bool_decide_true. Qed.

Lemma got_other o o' rec : o' <> o -> got o [(rec, o')] = [].
Proof. intros. cbn. by rewrite bool_decide_false. Qed.

Lemma held_app c m : data_plane_held (c <| queue ::= fun q => q ++ [m] |>) = data_plane_held c + (if is_data_plane m then 1 else 0).
Proof.
  unfold data_plane_held. cbn. rewrite filter_app, length_app. destruct (is_data_plane m) eqn:E.
  - rewrite filter_cons_True by (rewrite E; exact I). cbn. lia.
  - rewrite filter_cons_False by (rewrite E; intros []). cbn. lia.
Qed.

Record channel_inv (k : nat) (cap reserve : N) (s : EmitState) : Prop := {
  ci_cap : channel_capacity (chan s) = cap;
  ci_reserve : fail_closed_reserve (chan s) = reserve;
  ci_open : Forall (fun r => fail_closed (ar_class r) = false) (between s);
  ci_length : N.of_nat (length (queue (chan s))) <= cap;
  ci_held : data_plane_held (chan s) + N.of_nat (length (between s)) + reserve + 1 <= cap + N.of_nat k;
  ci_fifo : omap msg_record (taken s ++ queue (chan s)) = got Queued (outcomes s);
  ci_drops : dropped (chan s) = N.of_nat (length (got DroppedFailOpen (outcomes s))) mod u64_modulus;
  ci_rejected : Forall (fun r => fail_closed (ar_class r) = true) (got RejectedFailClosed (outcomes s));
  ci_dropped : Forall (fun r => fail_closed (ar_class r) = false) (got DroppedFailOpen (outcomes s));
}.

Lemma try_send_spec m c :
  match try_send m c with
  | Some c' => c' = c <| queue ::= fun q => q ++ [m] |> /\ N.of_nat (length (queue c)) < channel_capacity c
  | None => writer_gone c = true \/ channel_capacity c <= N.of_nat (length (queue c))
  end.
Proof.
  unfold try_send, capacity. destruct (writer_gone c); cbn [orb]; [by left|].
  destruct (N.eqb_spec (channel_capacity c - N.of_nat (length (queue c))) 0); [right; lia|]. split; [done|lia].
Qed.

Lemma drops_snoc n : wrapping_add64 (n mod u64_modulus) 1 = (n + 1) mod u64_modulus.
Proof. unfold wrapping_add64. by rewrite N.Div0.add_mod_idemp_l. Qed.

(** Putting a message at the back. *)
Lemma enqueue_inv k cap reserve s m bt :
  channel_inv k cap reserve s -> N.of_nat (length (queue (chan s))) < cap ->
  Forall (fun r => fail_closed (ar_class r) = false) bt ->
  (N.of_nat (length bt) + (if is_data_plane m then 1 else 0) <= N.of_nat (length (between s))) ->
  channel_inv k cap reserve
    (MkEmitState (chan s <| queue ::= fun q => q ++ [m] |>) bt (taken s)
       (outcomes s ++ match msg_record m with Some r => [(r, Queued)] | None => [] end)).
Proof.
  intros [H1 H2 H3 H4 H5 H6 H7 H8 H9] Hroom Hbt Hlen. split; cbn [chan between taken outcomes].
  - done.
  - done.
  - done.
  - cbn. rewrite length_app. cbn. lia.
  - rewrite held_app. lia.
  - cbn. rewrite app_assoc, omap_app, H6, got_app. by destruct m.
  - rewrite got_app. by destruct m; cbn; rewrite ?app_nil_r.
  - rewrite got_app. by destruct m; cbn; rewrite ?app_nil_r.
  - rewrite got_app. by destruct m; cbn; rewrite ?app_nil_r.
Qed.

(** Counting a drop. *)
Lemma drop_inv k cap reserve s rec bt :
  channel_inv k cap reserve s -> fail_closed (ar_class rec) = false ->
  Forall (fun r => fail_closed (ar_class r) = false) bt -> (length bt <= length (between s))%nat ->
  channel_inv k cap reserve (MkEmitState (count_drop (chan s)) bt (taken s) (outcomes s ++ [(rec, DroppedFailOpen)])).
Proof.
  intros [H1 H2 H3 H4 H5 H6 H7 H8 H9] Hrec Hbt Hlen.
  split; cbn [chan between taken outcomes]; rewrite ?got_app, ?got_same, ?got_other, ?app_nil_r by done; try done.
  - unfold data_plane_held in *. cbn. lia.
  - unfold count_drop. cbn. rewrite H7, drops_snoc, length_app. f_equal. cbn [length]. lia.
  - apply Forall_app. by repeat constructor.
Qed.

Lemma channel_step_inv k cap reserve s s' :
  reserve < cap -> emit_step_within k s s' -> channel_inv k cap reserve s -> channel_inv k cap reserve s'.
Proof.
  intros Hres [Hstep Hk] I. pose proof I as [H1 H2 H3 H4 H5 H6 H7 H8 H9].
  destruct Hstep as [s rec Hrec Hc|s rec o Hrec Hc|s rec l1 l2 Hb|s rec Hrec|s m c Hm Hc|s m q Hq|s].
  - unfold emit_check in *. destruct (N.leb_spec (capacity (chan s)) (fail_closed_reserve (chan s))) as [|Hlt]; [done|].
    cbn [fst snd] in *. split; cbn [chan between taken outcomes length] in *; try done; [by constructor|].
    unfold capacity in Hlt. rewrite H1, H2 in Hlt. unfold data_plane_held.
    pose proof (length_filter is_data_plane (queue (chan s))). lia.
  - unfold emit_check in *. destruct (capacity (chan s) <=? fail_closed_reserve (chan s)); [|done].
    cbn [fst snd] in *. injection Hc as <-. by apply drop_inv.
  - rewrite Hb in H3. apply Forall_app in H3 as [Ha [Hrec Hc]%Forall_cons].
    assert (Forall (fun r => fail_closed (ar_class r) = false) (l1 ++ l2)) as Hbt by (by apply Forall_app).
    unfold emit_send_open. pose proof (try_send_spec (ChRecord rec) (chan s)) as Hs.
    destruct (try_send (ChRecord rec) (chan s)) as [c|]; cbn [fst snd].
    + destruct Hs as [-> Hl]. apply (enqueue_inv _ _ _ s (ChRecord rec)); [done|lia|done|].
      rewrite Hb, !length_app. cbn. rewrite Hrec. cbn. lia.
    + apply drop_inv; [done..|]. rewrite Hb, !length_app. cbn. lia.
  - unfold emit_closed. pose proof (try_send_spec (ChRecord rec) (chan s)) as Hs.
    destruct (try_send (ChRecord rec) (chan s)) as [c|]; cbn [fst snd].
    + destruct Hs as [-> Hl]. apply (enqueue_inv _ _ _ s (ChRecord rec)); [done|lia|done|]. cbn. rewrite Hrec. cbn. lia.
    + split; cbn [chan between taken outcomes]; rewrite ?got_app, ?got_same, ?got_other, ?app_nil_r by done; try done.
      apply Forall_app. by repeat constructor.
  - pose proof (try_send_spec m (chan s)) as Hs. rewrite Hc in Hs. destruct Hs as [-> Hl].
    assert (is_data_plane m = false /\ msg_record m = None) as [Hd Hr] by (by destruct Hm as [->| ->]).
    pose proof (enqueue_inv _ _ _ s m (between s) I ltac:(lia) H3) as H. rewrite Hd, Hr, app_nil_r in H. apply H. lia.
  - unfold data_plane_held in H5. rewrite Hq in *. split; cbn [chan between taken outcomes]; try done.
    + cbn in *. lia.
    + unfold data_plane_held. rewrite filter_cons in H5. destruct (decide _); cbn [length] in H5; cbn in *; lia.
    + cbn in *. by rewrite <- app_assoc.
  - by split.
Qed.

Lemma emits_inv k cap reserve dp s : (1 <= k)%nat -> reserve < cap -> emits_to k cap reserve dp s -> channel_inv k cap reserve s.
Proof.
  intros Hk Hres. unfold emits_to. apply (rtc_ind_r (fun s => channel_inv k cap reserve s)).
  - split; cbn; try done; try lia; try constructor. unfold data_plane_held. cbn. lia.
  - intros y z _ Hst I. by eapply channel_step_inv.
Qed.

(** ** The theorems *)

(** The reserve: when at most [k] data-plane emitters overlap, data-plane
    records never hold more than [capacity - reserve + (k - 1)] slots; so when
    a fail-closed record is refused while the writer lives, at least
    [reserve - (k - 1)] slots hold fail-closed records or the sink's own
    messages, all of them when emitters do not overlap ([k = 1]). *)
Theorem reserve_bound (k : nat) (cap reserve : N) (dp : bool) (s : EmitState) (rec : AuditRecord) :
  (1 <= k)%nat -> reserve < cap -> emits_to k cap reserve dp s ->
  data_plane_held (chan s) + reserve + 1 <= cap + N.of_nat k /\
  (fail_closed (ar_class rec) = true -> (emit rec (chan s)).1 = RejectedFailClosed -> writer_gone (chan s) = false ->
   reserve + 1 <= N.of_nat (length (queue (chan s))) - data_plane_held (chan s) + N.of_nat k).
Proof.
  intros Hk Hres Hs. pose proof (emits_inv _ _ _ _ _ Hk Hres Hs) as [H1 H2 H3 H4 H5 _ _ _ _].
  split; [lia|]. intros Hrec He Hw. unfold emit in He. rewrite Hrec in He. cbn [negb] in He. unfold emit_closed in He.
  pose proof (try_send_spec (ChRecord rec) (chan s)) as Ht. destruct (try_send (ChRecord rec) (chan s)); [done|].
  rewrite Hw, H1 in Ht. destruct Ht as [|Ht]; [done|]. lia.
Qed.

(** Every finished [emit] is accounted for, however the emitters interleave:
    the writer receives exactly the records answered [Queued], in that order,
    followed by those still queued; the drop counter is the number of calls
    answered [DroppedFailOpen], modulo [2^64]; only data-plane records are
    ever dropped silently, and only fail-closed ones rejected. *)
Theorem emit_accounts (k : nat) (cap reserve : N) (dp : bool) (s : EmitState) :
  (1 <= k)%nat -> reserve < cap -> emits_to k cap reserve dp s ->
  omap msg_record (taken s) ++ omap msg_record (queue (chan s)) = got Queued (outcomes s) /\
  dropped_count (chan s) = N.of_nat (length (got DroppedFailOpen (outcomes s))) mod u64_modulus /\
  (forall rec o, (rec, o) ∈ outcomes s ->
    match o with
    | Queued => True
    | DroppedFailOpen => fail_closed (ar_class rec) = false
    | RejectedFailClosed => fail_closed (ar_class rec) = true
    end).
Proof.
  intros Hk Hres Hs. pose proof (emits_inv _ _ _ _ _ Hk Hres Hs) as [H1 H2 H3 H4 H5 H6 H7 H8 H9].
  split_and!; [by rewrite <- omap_app|done|]. intros rec o Hin.
  assert (rec ∈ got o (outcomes s)) as Hg.
  { unfold got. apply list_elem_of_omap. exists (rec, o). split; [done|]. by rewrite bool_decide_true. }
  rewrite Forall_forall in H8, H9. destruct o; auto.
Qed.
