(* ===== verification/SinkDemo.v ===== *)
(** * The audit sink: a concrete codec and runs with faults

    An executable instance of [SinkCodec] that satisfies [SinkCodecLaws], and
    runs in which a fault at an unlucky moment defeats what the comments of
    [crates/server/src/server/audit.rs] promise. *)

From Stdlib Require Import Ascii.
From S2P Require Import Prelude Text AuditChain AuditFiles AuditDemo AuditSink SinkProps AuditChannel.
Open Scope N_scope.
Open Scope sink_scope.

(** ** A writer whose active file is gone *)

Section stuck.
Context `{SC : SinkCodec, HI : HashIter}.

(** The active file is gone and the writer still wants to rotate. *)
Definition stuck (s : WriterState * Disk) : Prop :=
  alive s.2 = true /\ schedule s.2 = [] /\ files s.2 !! ACTIVE_NAME = None /\
  0 < file_bytes s.1 /\ rotate_max_bytes s.1 <= file_bytes s.1.

Lemma stuck_raw e rec s :
  stuck s -> exists w, write_record_raw e rec s = (Err NotFound, (w, s.2)) /\ stuck (w, s.2).
Proof.
  destruct s as [w [fs sched al]]. intros (H1 & H2 & H3 & H4 & H5). cbn in H1, H2, H3, H4, H5. subst.
  unfold write_record_raw, sbind, wget, wmod. cbn [fst snd].
  destruct (ChainState_append rec (ws_chain w)) as [rec' chain']. cbn.
  rewrite (proj2 (N.ltb_lt 0 _) H4).
  assert (0 < str_len (serialize rec' +:+ nl)) as Hlen.
  { unfold str_len. generalize (serialize rec'). intros [|c l]; [done|]. change (String c l +:+ nl) with (String c (l +:+ nl)). cbn [String.length]. lia. }
  rewrite (proj2 (N.ltb_lt _ _)) by lia. cbn [andb].
  unfold rotate, sbind, io, sync_all, find_max_rotation_n, read_dir, rename, syscall, sret, sbind. cbn. rewrite H3. cbn.
  eexists. split; [reflexivity|]. by split_and!.
Qed.

Lemma stuck_write e rec s : stuck s -> exists w, (write_record e rec s).2 = (w, s.2) /\ stuck (w, s.2).
Proof.
  intros Hs. unfold write_record, maybe_write_gap_sentinel, sbind at 1 2. unfold wget at 1.
  destruct (env_dropped e <=? last_seen_dropped s.1); cbn [sret].
  - destruct (stuck_raw e rec s Hs) as (w & -> & Hw). by exists w.
  - destruct s as [w d]. unfold sbind, wmod.
    destruct (stuck_raw e (gap_sentinel (env_now e) (env_dropped e - last_seen_dropped w)) (w <| last_seen_dropped := env_dropped e |>, d)) as (w' & Heq & Hw).
    { destruct Hs as (? & ? & ? & ? & ?). by split_and!. }
    cbn [fst snd] in *. rewrite Heq. by exists w'.
Qed.
End stuck.

(** ** A codec *)

(** Lists of numbers as one line of binary digits. *)
Definition render (l : list N) : string := String "{"%char (bits (encode l)).

Fixpoint unbits (s : string) : option positive :=
  match s with
  | EmptyString => Some xH
  | String c s =>
      p ← unbits s;
      if bool_decide (c = "0"%char) then Some (xO p) else if bool_decide (c = "1"%char) then Some (xI p) else None
  end.

Definition unrender (s : string) : option (list N) :=
  match s with
  | String c s => if bool_decide (c = "{"%char) then p ← unbits s; decode p else None
  | EmptyString => None
  end.

Lemma unbits_bits p : unbits (bits p) = Some p.
Proof. induction p as [p IH|p IH|]; cbn; rewrite ?IH; done. Qed.

Lemma unrender_render l : unrender (render l) = Some l.
Proof. unfold unrender, render. cbn. rewrite unbits_bits. cbn. apply decode_encode. Qed.

Lemma render_line l : json_line (render l) = true.
Proof. unfold json_line, render. cbn. generalize (encode l) as p. by induction p. Qed.

Definition str_uncode (n : N) : option string := match n with N0 => None | Npos p => decode p end.
Lemma str_uncode_code s : str_uncode (str_code s) = Some s.
Proof. unfold str_uncode, str_code. apply decode_encode. Qed.

Definition opt_uncode (n : N) : option N := if n =? 0 then None else Some (n - 1).
Lemma opt_uncode_code o : opt_uncode (opt_code o) = o.
Proof. destruct o as [n|]; [|done]. unfold opt_uncode. cbn. destruct (N.eqb_spec (n + 1) 0); [lia|]. f_equal. lia. Qed.

Definition opt_str_uncode (n : N) : option (option string) :=
  match opt_uncode n with Some m => s ← str_uncode m; Some (Some s) | None => Some None end.
Lemma opt_str_uncode_code o : opt_str_uncode (opt_code (str_code <$> o)) = Some o.
Proof. unfold opt_str_uncode. rewrite opt_uncode_code. destruct o as [s|]; [|done]. cbn [fmap option_fmap option_map mbind option_bind]. by rewrite str_uncode_code. Qed.

Definition class_uncode (n : N) : option EventClass :=
  if n =? 0 then Some Auth else if n =? 1 then Some KeyMgmt else if n =? 2 then Some Admin
  else if n =? 3 then Some DataPlane else if n =? 4 then Some SystemClass else if n =? 5 then Some Deny else None.

Definition fields_record (l : list N) : option AuditRecord :=
  match l with
  | [v; seq; ts; mono; prev; req; ident; meth; cls; slot; sess; obj; rv; lat; drop] =>
      prev ← str_uncode prev; req ← str_uncode req; ident ← opt_str_uncode ident; meth ← str_uncode meth;
      cls ← class_uncode cls; obj ← opt_str_uncode obj;
      Some (MkAuditRecord v seq ts mono prev req ident meth cls (opt_uncode slot) (opt_uncode sess) obj rv lat (opt_uncode drop))
  | _ => None
  end.

Lemma fields_record_fields r : fields_record (record_fields r) = Some r.
Proof.
  destruct r as [? ? ? ? ? ? ? ? c ? ? ? ? ? ?]. unfold fields_record, record_fields.
  cbn -[str_code str_uncode opt_code opt_uncode opt_str_uncode class_code class_uncode fmap mbind].
  rewrite !str_uncode_code, !opt_str_uncode_code, !opt_uncode_code. by destruct c.
Qed.

Definition anchor_fields (a : SinkAnchor) : list N := [str_code (sa_last_hash a); sa_last_seq a; active_bytes a].
Definition fields_anchor (l : list N) : option SinkAnchor :=
  match l with [h; s; b] => h ← str_uncode h; Some (MkSinkAnchor h s b) | _ => None end.

Definition checkpoint_fields (cp : Checkpoint) (sig : string) : list N :=
  [cp_seq cp; str_code (chain_head_hash cp); cp_ts_unix_ms cp; cp_record_count cp; str_code sig].
Definition fields_checkpoint (l : list N) : option CheckpointLine :=
  match l with
  | [s; h; ts; n; sig] => h ← str_uncode h; sig ← str_uncode sig; Some (MkCheckpointLine (MkCheckpoint s h ts n) sig)
  | _ => None
  end.

(** A checksum in place of SHA-256. *)
Fixpoint checksum (acc : N) (s : string) : N :=
  match s with EmptyString => acc | String c s => checksum ((acc * 31 + N_of_ascii c) mod 1000003) s end.

#[export] Instance run_codec : AuditCodec := {
  VerifyingKey := unit;
  serialize := fun r => render (record_fields r);
  sha256_hex := fun s => pretty (checksum 7 s);
  parse_record := fun s => unrender s ≫= fields_record;
  parse_checkpoint := fun s => unrender s ≫= fields_checkpoint;
  parse_anchor := fun s => a ← unrender s ≫= fields_anchor; Some (MkAnchorFile (sa_last_hash a) (sa_last_seq a));
  parse_public_key := fun s => if bool_decide (s = "key") then Some tt else None;
  verify_signature := fun _ _ sig => bool_decide (sig = "sig");
}.

#[export] Instance run_sink_codec : SinkCodec := {
  SigningKey := unit;
  sign_checkpoint := fun _ _ => "sig";
  checkpoint_json := fun cp sig => render (checkpoint_fields cp sig);
  anchor_json := fun a => render (anchor_fields a);
  parse_sink_anchor := fun s => unrender s ≫= fields_anchor;
}.

#[export] Instance run_sink_laws : SinkCodecLaws.
Proof.
  split; cbn -[unrender render fields_record fields_anchor fields_checkpoint json_line].
  - intros r. apply render_line.
  - intros r. rewrite unrender_render. apply fields_record_fields.
  - intros cp sig. apply render_line.
  - intros [s h ts n] sig. rewrite unrender_render. cbn -[str_uncode str_code]. by rewrite !str_uncode_code.
  - intros [h s b]. rewrite unrender_render. cbn -[str_uncode str_code]. by rewrite str_uncode_code.
  - intros [h s b]. rewrite unrender_render. cbn -[str_uncode str_code]. by rewrite str_uncode_code.
Qed.

(** ** Runs *)

#[local] Existing Instance canonical_iter.

Definition demo_login (n : N) : AuditRecord :=
  MkAuditRecord AUDIT_SCHEMA_VERSION 0 (1000 + n) 0 EmptyString "r" None "C_Login" Auth (Some 0) None None 0 5 None.
Definition at_time (n : N) : SinkEnv := MkSinkEnv n 0.


(** One life of the daemon: it opens the directory without faults, then
    handles messages, each with the faults its system calls meet. *)
Definition Life : Type := list (list (option Fault) * SinkEnv * WriterMsg).

Definition live (limit : N) (l : Life) (fs : Files) : WriterState * Disk :=
  match WriterState_open (Some tt) limit 0 (MkDisk fs [] true) with
  | (Ok w, d) => foldl (fun '(w, d) '(faults, e, m) => writer_msg e m (w, d <| schedule := faults |>)) (w, d) l
  | (Err _, d) => (MkWriterState ChainState_genesis ACTIVE_NAME 0 None 0 0 0 0 0, d)
  end.

(** The disk after several lives. *)
Definition lives (limit : N) (ls : list Life) (fs : Files) : Files := foldl (fun fs l => files (live limit l fs).2) fs ls.

Definition log (n : N) : list (option Fault) * SinkEnv * WriterMsg := ([], at_time (2000 + n), WriteRecord (demo_login n)).
Definition log_faulty (n : N) (faults : list (option Fault)) : list (option Fault) * SinkEnv * WriterMsg :=
  (faults, at_time (2000 + n), WriteRecord (demo_login n)).
Definition seal (n : N) : list (option Fault) * SinkEnv * WriterMsg := ([], at_time (2000 + n), Flush []).

Definition verdict (fs : Files) (key : option string) : Result (bool * list N * list N * N) AuditError :=
  match verify_dir (audit_dir fs) key with
  | Ok rep => Ok (chain_ok rep, duplicate_seqs rep, vr_gaps rep, vr_records rep)
  | Err e => Err e
  end.

(** ** Faults that defeat the sink *)

(** The daemon dies in a rotation, between the rename and the new anchor: the
    next life finds neither an active file nor an anchor, starts again at
    sequence 0, and the sealed log holds a duplicate. *)
Theorem rotation_crash_reissues_seqs :
  let crashed := lives 1 [[log 0; log_faulty 1 [None; None; None; Some (IoKills 0)]]] ∅ in
  last_seq (ws_chain (live 1 [] crashed).1) = 0 /\
  verdict (lives 1 [[log 2; seal 3]] crashed) None = Ok (false, [0], [], 2).
Proof. by vm_compute. Qed.

(** The anchor a rotation writes already counts the record that is not yet
    written: dying before the write leaves a hole in the sequence. *)
Theorem rotation_crash_leaves_gap :
  verdict (lives 1 [[log 0; log_faulty 1 (replicate 10 None ++ [Some (IoKills 0)])]; [log 2; seal 3]] ∅) None = Ok (false, [], [1], 2).
Proof. by vm_compute. Qed.

(** A line torn by a crash is tolerated by recovery, but the next record is
    appended to it and the whole directory no longer parses. *)
Theorem torn_line_poisons_log :
  verdict (lives 100000 [[log 0; log_faulty 1 [Some (IoKills 5)]]; [log 2; seal 3]] ∅) None = Err (Malformed "audit.jsonl" 2).
Proof. by vm_compute. Qed.

(** A restart forgets which records have no checkpoint: a flush that follows
    seals nothing, and verification with the key fails; without it the same
    directory is accepted. *)
Theorem restart_forgets_unsealed :
  let fs := lives 100000 [[log 0]; [seal 3]] ∅ in
  verdict fs None = Ok (true, [], [], 1) /\ verdict fs (Some "key") = Ok (false, [], [], 1).
Proof. by vm_compute. Qed.

(** *** A rotation that fails half way *)

(** Once the new active file could not be opened after the rename, no record
    is written again, on a disk that works perfectly: every later record is
    accepted from the channel and lost.  The state is reached by one failed
    system call. *)
Theorem failed_rotation_stops_log :
  let s := live 1 [log 0; log_faulty 1 [None; None; None; None; Some (IoFails 0)]] ∅ in
  forall recs : list (SinkEnv * AuditRecord),
    (foldl (fun s '(e, rec) => writer_msg e (WriteRecord rec) s) s recs).2 = s.2.
Proof.
  intros s recs. assert (stuck s) as Hs by (by vm_compute). revert Hs. generalize s. clear s.
  induction recs as [|[e rec] recs IH]; intros s Hs; [done|]. cbn [foldl writer_msg].
  destruct (stuck_write e rec s Hs) as (w & Heq & Hw). rewrite Heq. exact (IH _ Hw).
Qed.

(** *** The reserve under concurrency *)

Definition bulk (n : N) : AuditRecord := demo_login n <| ar_class := DataPlane |>.

(** Two data-plane emitters that overlap take the slot reserved for
    fail-closed classes, and a demo_login's record is refused. *)
Theorem overlapping_emitters_eat_reserve :
  exists s, emits_to 2 2 1 true s /\ data_plane_held (chan s) = 2 /\ writer_gone (chan s) = false /\
    (emit (demo_login 0) (chan s)).1 = RejectedFailClosed.
Proof.
  eexists. split; [|split; [|split]].
  - eapply rtc_l; [split; [eapply (StepCheckPass _ (bulk 1)); reflexivity|cbn; lia]|].
    eapply rtc_l; [split; [eapply (StepCheckPass _ (bulk 2)); reflexivity|cbn; lia]|].
    eapply rtc_l; [split; [eapply (StepSend _ (bulk 2) []); reflexivity|cbn; lia]|].
    eapply rtc_l; [split; [eapply (StepSend _ (bulk 1) []); reflexivity|cbn; lia]|]. apply rtc_refl.
  - reflexivity.
  - reflexivity.
  - reflexivity.
Qed.

(** ** The theorems at concrete inputs *)

Definition demo_key : option (@SigningKey _ run_sink_codec) := Some tt.
Definition demo_pub : @VerifyingKey run_codec := tt.

Lemma clean_empty : clean ∅.
Proof. by split_and!; intros; rewrite ?lookup_empty. Defined.


Definition demo_open : WriterState * Disk := live 1 [] ∅.
Lemma demo_opened : WriterState_open demo_key 1 0 (calm ∅) = (Ok demo_open.1, demo_open.2).
Proof.
  assert (match (WriterState_open demo_key 1 0 (calm ∅)).1 with Ok _ => true | Err _ => false end = true) as H by (by vm_compute).
  unfold demo_open, live. fold demo_key (calm ∅). by destruct (WriterState_open demo_key 1 0 (calm ∅)) as [[w|e] d].
Defined.




Definition demo_msgs : list (SinkEnv * WriterMsg) :=
  [(at_time 2000, WriteRecord (demo_login 0)); (MkSinkEnv 2001 2, WriteRecord (demo_login 1)); (MkSinkEnv 2002 3, Flush [(MkSinkEnv 2002 3, DrainFlush)])].

Lemma drops_are_accounted_witness :
  exists rep, verify_dir (audit_dir (files (writer_task demo_msgs (MkSinkEnv 3000 5) (demo_open.1, demo_open.2)).2)) None = Ok rep /\
    chain_ok rep = true /\ vr_dropped_records rep = 5.
Proof.
  apply (drops_are_accounted demo_key demo_pub ∅ demo_msgs (MkSinkEnv 3000 5) 1 demo_open.1 demo_open.2); [done|exact clean_empty| | |done|by vm_compute|exact demo_opened].
  - cbn. unfold handler_record, record_ok. cbn. repeat split; lia.
  - repeat constructor; cbn; lia.
Defined.

Definition demo_emits : EmitState :=
  MkEmitState (MkSinkChannel 2 [ChRecord (bulk 1)] false 1 1 true) [] [] [(bulk 1, Queued); (bulk 2, DroppedFailOpen)].

Lemma demo_emits_to : emits_to 1 2 1 true demo_emits.
Proof.
  eapply rtc_l; [split; [eapply (StepCheckPass _ (bulk 1)); reflexivity|cbn; lia]|].
  eapply rtc_l; [split; [eapply (StepSend _ (bulk 1) []); reflexivity|cbn; lia]|].
  eapply rtc_l; [split; [eapply (StepCheckDrop _ (bulk 2)); reflexivity|cbn; lia]|]. apply rtc_refl.
Defined.

Lemma reserve_bound_witness :
  data_plane_held (chan demo_emits) + 1 + 1 <= 2 + 1 /\
  (fail_closed (ar_class (demo_login 0)) = true -> (emit (demo_login 0) (chan demo_emits)).1 = RejectedFailClosed -> writer_gone (chan demo_emits) = false ->
   1 + 1 <= N.of_nat (length (queue (chan demo_emits))) - data_plane_held (chan demo_emits) + 1).
Proof. exact (reserve_bound 1 2 1 true demo_emits (demo_login 0) ltac:(lia) ltac:(lia) demo_emits_to). Defined.

Lemma emit_accounts_witness :
  omap msg_record (taken demo_emits) ++ omap msg_record (queue (chan demo_emits)) = got Queued (outcomes demo_emits) /\
  dropped_count (chan demo_emits) = 1.
Proof. destruct (emit_accounts 1 2 1 true demo_emits ltac:(lia) ltac:(lia) demo_emits_to) as (H1 & H2 & _). split; [exact H1|exact H2]. Defined.
